(* ===== verification/_CoqProject ===== *)
-Q . S2P
Prelude.v
BTree.v
Float.v
Types.v
Cursor.v
TupleCodec.v
Values.v
Text.v
Mode.v
DataTypes.v
Json.v
KeyCodec.v
LegacyCodec.v
Coerce.v
Operators.v
Patterns.v
Dates.v
SqlJson.v
Functions.v
Expr.v
Filter.v
Access.v
Catalog.v
RowCodec.v
KvStore.v
Stores.v
Aggregate.v
GroupScan.v
Pushdown.v
Heap.v
CatalogStore.v
CatalogLogic.v
CatalogOk.v
CatalogRun.v
CatalogTables.v
Olap.v
TopN.v
MySqlLocks.v
Server.v
Session.v
SessionSteps.v
Sequences.v
Scans.v
Selects.v
Rows.v
Mutations.v
Writes.v
Alter.v
Executor.v
PlanLocks.v
Statements.v
