(* ===== verification/Prelude.v ===== *)
(** * uni5db: verification library

    uni5db (src/) is an SQL gateway: it speaks the PostgreSQL and MySQL wire
    protocols, plans and executes statements, and keeps tables in an ordered
    key-value store.  This library models the parts of it that decide what is
    stored and what is read back, and proves what makes them correct.

    ** The program's parts and the files that model them

    - Error values ([PgWireResult], [user_error], src/src/error.rs), bytes,
      big-endian integers and machine arithmetic: this file.
    - Types (src/src/types.rs, src/src/types/).  [Types]: column values, data types,
      table schemas and rows; a row is a [gmap] from column names, as the source's
      [HashMap].  [Float]: f32 and f64 by their bit patterns, with comparison and
      arithmetic through the standard library's [SpecFloat].  [Values]
      (column_value.rs): equality, the order of values with its decimal comparison,
      their text.  [DataTypes] (data_type.rs): the SQL and MySQL spellings of types.
      [Text], [Mode], [Json]: trimming, splitting and case, the gateway's mode, the
      documents of the catalog.
    - SQL values and expressions (src/src/sql/, src/src/filter.rs).  [Coerce]: what a
      text or a value of another type becomes in a column (sql/values/).
      [Operators] (operators.rs), [Patterns] (LIKE and regular expressions),
      [Dates], [SqlJson] and [Functions] (functions.rs, json.rs), [Expr]
      (eval_core.rs, fast_path.rs): the evaluator.  [Filter]: the row filter of the
      scans, and the keys, ranges and index values a WHERE clause is read as
      (projection.rs, core/server/dml_planner.rs).  [Access]: the access SELECT,
      UPDATE and DELETE choose, as tests of one row.
    - The storage layout (src/src/storage_layout/, src/src/codec.rs).  [Cursor]: the
      bounds-checked reader every decoder is written with.  [TupleCodec]:
      self-describing values, fixed-width values, zone maps and [next_prefix].
      [KeyCodec]: order-preserving keys, row, version, index and catalog keys and
      their scan ranges.  [RowCodec]: the three row-record formats, the encoder as
      updates of one buffer, projections and the numeric fast path.  [LegacyCodec]:
      the first layout, a cell per column.  [Olap]: column chunks, statistics and
      the pruning of chunks by their zone maps (olap_stats.rs, olap_refresh.rs,
      table_provider_scans.rs).
    - The key-value store (src/src/mem_store.rs, src/src/kv_engine_store/).
      [BTree]: ordered maps and their listings.  [KvStore]: the in-memory store, its
      transactions with savepoints, the transaction of the storage engine, the
      [KvTransaction] trait as a class with its laws, and the interleavings of
      sessions as runs of steps.  [Stores]: both stores behind the class
      [KvStoreApi].  [Aggregate]: the row, projected, key-only and numeric aggregate
      scans; [GroupScan]: the numeric scan with GROUP BY and the choice between the
      scans (aggregate_scan.rs).
    - The DataFusion side (src/src/datafusion_bridge/).  [Pushdown]: the filters and
      aggregates handed to the store (physical_predicates.rs, physical_planner.rs).
      [Heap], [TopN]: the bounded candidate heap and the top-n scans
      (table_provider_topn.rs).
    - The catalog (src/src/catalog/): [Catalog] its documents and keys,
      [CatalogStore] its operations, [CatalogLogic], [CatalogOk] and [CatalogRun] the
      invariant, its preservation and histories of calls; [CatalogTables]: a table
      stored, renamed and dropped.
    - The server (src/src/core/server/). [MySqlLocks] (mysql_locks.rs): lock
      conflicts, the wait queue, the wait-for map and the sessions' steps as an
      inductive relation, the releases mutex by mutex. [Server]: the gateway's
      fields, computations on them, and reads and writes through a session's
      transaction (transactions.rs). [Session]: BEGIN to ROLLBACK, isolation levels,
      savepoints, autocommit and the loop over a query's statements
      (context_session.rs, search_path.rs), each command one step; [SessionSteps]:
      the commands that touch the bookkeeping once more, mutex by mutex, with those
      of other sessions in between. [Sequences]: counters, serial defaults and the
      row of an INSERT. [Scans]: every scan of scans.rs and the rows SELECT answers.
      [Rows]: writing and deleting a row with its constraints and index entries
      (row_write.rs, row_indexes.rs, row_constraints.rs). [Mutations]: INSERT with
      its conflict actions, UPDATE, DELETE, CREATE INDEX (mutations.rs,
      executor.rs). [Alter]: ALTER TABLE (row_write.rs). [Executor]: every plan
      (executor.rs, response.rs). [PlanLocks]: the locks of a plan
      (session_commands.rs).
    - [Selects] proves what a SELECT answers, [Writes] which rows an UPDATE or DELETE
      changes; [Statements] runs statements on a small table.

    A request goes through these parts downwards: the planner chooses an access
    ([Filter], [Access]), the server takes the plan's locks ([PlanLocks],
    [MySqlLocks]) and runs it ([Executor]): rows are read ([Scans]) and written
    ([Rows], [Mutations]) through a transaction ([Server], [KvStore]) under keys of
    [KeyCodec] with records of [RowCodec], both built from the values of
    [TupleCodec]; aggregate queries are pushed to the store as plans ([Pushdown],
    [Aggregate]) that read records with the projected decoders.

    ** Conventions

    [Result] is [result]: an error value, [Panic] for a Rust panic (an index or a
    slice out of bounds) and [OutOfFuel] for a recursive definition whose fuel ran
    out. Theorems that a decoder settles say it neither panics nor runs out of fuel;
    the fuel of the tuple decoder is one more than the bytes left (each level of
    nesting consumes a byte), that of the key decoder one more than the depth of the
    column's type, the fuel of the wait-for walk is two more than the number of
    waiting sessions, and that of a scan in batches one more than its batches (one
    is enough outside a transaction). Integers are [Z] with their width written out
    where it matters; arithmetic outside the checked operations wraps, as in the
    release profile. A string is the [string] of its UTF-8 bytes. Mutable buffers
    are passed and returned; a method that holds its lock throughout is one atomic
    step. In the cursor, the tuple and row decoders and the date parser a slice
    takes the source's bounds and is [Panic] outside them ([sub_slice],
    [slice_from], [Coerce.str_slice]); in the key decoders and the first layout a
    slice right behind its own length test is the total [slice]. A computation of
    the server is a function from the server and the client ([Server.Cmd]) that
    answers with the state it left, also when it fails; one of the catalog works on
    the store alone ([CatalogStore.Cat]), and the executor threads the cached
    DataFusion catalogs next to the server ([Executor.Plan]).

    Code that is not in the repository is a parameter.  The storage engine is the
    class [KvStore.Engine] with its documented behaviour in [KvStore.EngineLaws]
    and an instance on maps; the JSON crate is the class [Json.SerdeJson] with the
    law that a document is read back; the crates sqlparser and datafusion hand over
    syntax trees and plans, of which [Operators], [Expr] and [Pushdown] repeat the
    constructors the code matches on.  The decimal texts of floats, the case of
    letters outside ASCII, the clock, the [Debug] text of values and the parser of
    CHECK texts are section variables or classes without laws.

    ** What the theorems show

    - Round trips: tuple values, fixed slots, zone maps, keys, all row records, the
      first layout, data types, dates and array texts read back what was written;
      records also after columns were added to the schema.
    - Order: key ranges select exactly the rows they mean on integer keys, stay
      within their table and epoch, and version keys list the newest first; on text
      keys they do not follow the order of values, which is stated as a theorem.
    - Queries: whatever access the planner chose, SELECT answers the rows its WHERE
      clause accepts, cut to OFFSET and LIMIT, and UPDATE and DELETE change those and no
      others - for integer keys and index columns, and filters without NULL literals;
      the row filter agrees with the evaluator on comparisons of columns with literals;
      the top-n scan answers a window of the sorted rows; an aggregate's key range and
      residual filters select what the query's filters select, without NOT; pruned chunk
      scans lose no row, without NaN and NOT BETWEEN.
    - Agreement of the optimised decoders and aggregate paths with the plain ones,
      the exceptions (SUM over nothing) stated in the theorem, with GROUP BY and
      without; LIKE and regular expressions match what their patterns describe.
    - Values: coerced values are of the column's type, parsed texts obey its limits,
      dates are accepted exactly when they exist, decimals compare exactly.
    - Totality: every row decoder answers on every byte string, no slice out of range.
    - Transactions: both implementations meet the interface's laws; the in-memory
      one refines a private copy of the store under any interleaving; the sessions
      of a server are one shared set of rows with private staged writes; repeatable
      reads are stable over the in-memory store; the engine store answers as the
      in-memory one.
    - The session bookkeeping stays in order when commands interleave mutex by mutex,
      unless a session is killed inside a command of its own.
    - The catalog's records of databases, schemas, views and indexes agree with each
      other after any history of calls; a stored table loads as it was stored, under its
      new name after a rename and under none after a drop; a created index is listed.
    - Sequences hand out start + i * increment and never a value given explicitly.
    - Locks: mutual exclusion and exact deadlock detection as invariants of the
      reachable states, a reachable state in which a wake-up is lost, and that the
      locks of two plans that touch a row exclude each other.
    - Where the code does not do what it means to, an [Example] evaluates the case.

    ** What is not modelled

    The wire protocols, the parsing of SQL and of session commands, COPY, prepared
    statements and the tables of pg_catalog and information_schema are glue around
    third-party crates or texts in, texts out.  Of the planner (dml_planner.rs,
    ddl_planner.rs) only the choice of an access and the row of an INSERT are here:
    the rest rearranges sqlparser's trees.  Of the DataFusion bridge the parts that
    decide what a scan reads are here, not the conversion to Arrow arrays.  The
    profiling counters are left out, and so is the memory a decoder reserves from a
    count it reads ([Vec::with_capacity]). *)

From stdpp Require Export base list strings gmap.
From Stdlib Require Export ZArith Lia.
From Stdlib Require Strings.Byte.
From Stdlib Require Export Init.Byte.

Declare Scope uni_scope.
Delimit Scope uni_scope with uni.
Open Scope uni_scope.
#[global] Open Scope Z_scope.

(** ** Results

    [Result<A, E>] of the source.  [Panic] is a Rust panic (an index out of
    bounds, an explicit [panic!]); [OutOfFuel] is the answer of a recursive
    definition whose fuel ran out, which the termination theorems exclude. *)

Inductive result (E A : Type) : Type :=
  | Ok (a : A)
  | Err (e : E)
  | Panic
  | OutOfFuel.
Arguments Ok {E A} a.
Arguments Err {E A} e.
Arguments Panic {E A}.
Arguments OutOfFuel {E A}.

(** [PgWireError::UserError(ErrorInfo)] with severity ERROR: SQLSTATE and text. *)
Record pg_error : Type := PgError { err_code : string; err_message : string }.

Abbreviation PgWireResult := (result pg_error).

#[export] Instance result_ret E : MRet (result E) := fun A a => Ok a.
#[export] Instance result_bind E : MBind (result E) := fun A B k m =>
  match m with
  | Ok a => k a
  | Err e => Err e
  | Panic => Panic
  | OutOfFuel => OutOfFuel
  end.
#[export] Instance result_fmap E : FMap (result E) := fun A B f m =>
  match m with
  | Ok a => Ok (f a)
  | Err e => Err e
  | Panic => Panic
  | OutOfFuel => OutOfFuel
  end.

(** [Result::map_err]. *)
Definition map_err {E F A} (f : E -> F) (m : result E A) : result F A :=
  match m with
  | Ok a => Ok a
  | Err e => Err (f e)
  | Panic => Panic
  | OutOfFuel => OutOfFuel
  end.

(** [Option::ok_or_else]. *)
Definition ok_or {E A} (e : E) (o : option A) : result E A :=
  match o with Some a => Ok a | None => Err e end.

(** [Result::ok]. *)
Definition result_ok {E A} (m : result E A) : option A :=
  match m with Ok a => Some a | _ => None end.

(** The source's [user_error(code, message)]. *)
Definition user_error {A} (code message : string) : PgWireResult A :=
  Err (PgError code message).

Definition is_ok {E A} (m : result E A) : bool :=
  match m with Ok _ => true | _ => false end.

(** A computation that neither panicked nor ran out of fuel. *)
Definition settles {E A} (m : result E A) : Prop :=
  match m with Ok _ | Err _ => True | Panic | OutOfFuel => False end.

Lemma bind_ok {E A B} (k : A -> result E B) a : mbind k (Ok a) = k a.
Proof. reflexivity. Qed.

Lemma bind_inv {E A B} (k : A -> result E B) m b :
  mbind k m = Ok b -> exists a, m = Ok a /\ k a = Ok b.
Proof. destruct m; cbn; [eauto | discriminate..]. Qed.

Lemma settles_bind {E A B} (k : A -> result E B) m :
  settles m -> (forall a, m = Ok a -> settles (k a)) -> settles (mbind k m).
Proof. destruct m; cbn; auto. Qed.

(** Inverts every [Ok] produced by a chain of binds in hypothesis [H]. *)
Ltac inv_ok H :=
  let a := fresh "a" in
  let Ha := fresh "Hok" in
  first
    [ discriminate H
    | apply bind_inv in H as (a & Ha & H); inv_ok H
    | idtac ].

(** ** Bytes

    [u8] is [Init.Byte.byte]; the integer value is read and built through [Z]. *)

Definition u8_to_Z (b : byte) : Z := Z.of_N (Byte.to_N b).

(** [z as u8]. *)
Definition u8_of_Z (z : Z) : byte :=
  match Byte.of_N (Z.to_N (z mod 256)) with Some b => b | None => x00 end.

Lemma u8_to_Z_range b : 0 <= u8_to_Z b < 256.
Proof. unfold u8_to_Z. pose proof (Byte.to_N_bounded b). lia. Qed.

Lemma u8_of_to b : u8_of_Z (u8_to_Z b) = b.
Proof.
  unfold u8_of_Z. rewrite Z.mod_small by apply u8_to_Z_range.
  unfold u8_to_Z. rewrite N2Z.id, Byte.of_to_N. reflexivity.
Qed.

Lemma u8_to_of z : u8_to_Z (u8_of_Z z) = z mod 256.
Proof.
  unfold u8_of_Z, u8_to_Z.
  pose proof (Z.mod_pos_bound z 256 ltac:(lia)) as Hb.
  destruct (Byte.of_N _) as [b|] eqn:Hof.
  - apply Byte.to_of_N in Hof. rewrite Hof. lia.
  - apply Byte.of_N_None_iff in Hof. lia.
Qed.

Lemma u8_to_Z_inj a b : u8_to_Z a = u8_to_Z b -> a = b.
Proof. intros H. rewrite <- (u8_of_to a), <- (u8_of_to b). by rewrite H. Qed.

#[export] Instance byte_eq_dec : EqDecision byte := Byte.byte_eq_dec.
#[export] Program Instance byte_countable : Countable byte :=
  inj_countable' u8_to_Z u8_of_Z _.
Next Obligation. apply u8_of_to. Qed.

(** ** Big-endian integers: [to_be_bytes] and [from_be_bytes] *)

Fixpoint to_be (n : nat) (z : Z) : list byte :=
  match n with
  | O => []
  | S m => u8_of_Z (Z.shiftr z (8 * Z.of_nat m)) :: to_be m z
  end.

Fixpoint from_be (l : list byte) : Z :=
  match l with
  | [] => 0
  | b :: r => u8_to_Z b * 2 ^ (8 * Z.of_nat (length r)) + from_be r
  end.

(** [u as iN] and [iN::from_be_bytes]: two's complement at width [w]. *)
Definition to_signed (w z : Z) : Z :=
  let m := z mod 2 ^ w in if m <? 2 ^ (w - 1) then m else m - 2 ^ w.

Definition in_signed (w v : Z) : Prop := - 2 ^ (w - 1) <= v < 2 ^ (w - 1).
Definition in_unsigned (w v : Z) : Prop := 0 <= v < 2 ^ w.

Lemma length_to_be n z : length (to_be n z) = n.
Proof. induction n; cbn; congruence. Qed.

Lemma pow256 n : 2 ^ (8 * Z.of_nat (S n)) = 256 * 2 ^ (8 * Z.of_nat n).
Proof.
  replace (8 * Z.of_nat (S n)) with (8 + 8 * Z.of_nat n) by lia.
  rewrite Z.pow_add_r by lia. reflexivity.
Qed.

Lemma from_be_range l : 0 <= from_be l < 2 ^ (8 * Z.of_nat (length l)).
Proof.
  induction l as [|b r IH]; cbn [from_be length]; [cbn; lia|].
  rewrite pow256. pose proof (u8_to_Z_range b). nia.
Qed.

Lemma from_be_to_be n z : from_be (to_be n z) = z mod 2 ^ (8 * Z.of_nat n).
Proof.
  induction n as [|m IH]; cbn [to_be from_be].
  - cbn. by rewrite Z.mod_1_r.
  - rewrite length_to_be, IH, u8_to_of, Z.shiftr_div_pow2, pow256 by lia.
    set (p := 2 ^ (8 * Z.of_nat m)).
    assert (0 < p) by (apply Z.pow_pos_nonneg; lia).
    rewrite (Z.mul_comm 256 p), Z.rem_mul_r by lia. lia.
Qed.

Lemma to_be_mod n z : to_be n (z mod 2 ^ (8 * Z.of_nat n)) = to_be n z.
Proof.
  assert (Hgen : forall m, (m <= n)%nat ->
    to_be m (z mod 2 ^ (8 * Z.of_nat n)) = to_be m z).
  { induction m as [|m IH]; intros Hm; cbn [to_be]; [done|].
    rewrite IH by lia. f_equal. apply u8_to_Z_inj. rewrite !u8_to_of.
    rewrite !Z.shiftr_div_pow2 by lia.
    replace (8 * Z.of_nat n) with (8 * Z.of_nat m + 8 * Z.of_nat (n - m)) by lia.
    rewrite Z.pow_add_r by lia.
    set (p := 2 ^ (8 * Z.of_nat m)).
    assert (0 < p) by (apply Z.pow_pos_nonneg; lia).
    assert (0 < 2 ^ (8 * Z.of_nat (n - m))) by (apply Z.pow_pos_nonneg; lia).
    rewrite Z.rem_mul_r by lia.
    rewrite (Z.mul_comm p (_ mod _)), Z.div_add by lia.
    rewrite (Z.div_small (z mod p)) by (apply Z.mod_pos_bound; lia).
    rewrite Z.add_0_l.
    destruct (n - m)%nat as [|k] eqn:Hk; [lia|].
    rewrite pow256, (Z.mul_comm 256), Z.mul_comm.
    rewrite Z.rem_mul_r by (try lia; apply Z.pow_pos_nonneg; lia).
    rewrite Z.mul_comm, Z.mod_add by lia. apply Z.mod_mod; lia. }
  apply Hgen; lia.
Qed.

Lemma to_be_from_be l : to_be (length l) (from_be l) = l.
Proof.
  induction l as [|b r IH]; cbn [from_be length to_be]; [done|].
  pose proof (from_be_range r) as Hr. set (p := 2 ^ (8 * Z.of_nat (length r))) in *.
  f_equal.
  - apply u8_to_Z_inj. rewrite u8_to_of, Z.shiftr_div_pow2 by lia. fold p.
    rewrite Z.div_add_l, (Z.div_small (from_be r)) by lia.
    rewrite Z.add_0_r. apply Z.mod_small, u8_to_Z_range.
  - transitivity (to_be (length r) (from_be r)); [|exact IH].
    rewrite <- to_be_mod. fold p. f_equal.
    rewrite Z.add_comm, Z.mod_add by lia. by apply Z.mod_small.
Qed.

Lemma from_be_to_be_small n z :
  in_unsigned (8 * Z.of_nat n) z -> from_be (to_be n z) = z.
Proof. intros H. rewrite from_be_to_be. by apply Z.mod_small. Qed.

Lemma to_signed_small w v :
  0 < w -> in_signed w v -> to_signed w v = v.
Proof.
  intros Hw [Hlo Hhi]. unfold to_signed.
  assert (Hp : 2 ^ w = 2 * 2 ^ (w - 1))
    by (rewrite <- Z.pow_succ_r by lia; f_equal; lia).
  assert (0 < 2 ^ (w - 1)) by (apply Z.pow_pos_nonneg; lia).
  destruct (decide (0 <= v)) as [Hpos|Hneg].
  - rewrite Z.mod_small by lia. destruct (Z.ltb_spec v (2 ^ (w - 1))); lia.
  - replace (v mod 2 ^ w) with (v + 2 ^ w).
    + destruct (Z.ltb_spec (v + 2 ^ w) (2 ^ (w - 1))); lia.
    + apply (Z.mod_unique_pos _ _ (-1)); lia.
Qed.

Lemma to_signed_mod w z : 0 < w -> to_signed w (z mod 2 ^ w) = to_signed w z.
Proof. intros Hw. unfold to_signed. by rewrite Zmod_mod. Qed.

Lemma to_signed_range w z : 0 < w -> in_signed w (to_signed w z).
Proof.
  intros Hw. unfold in_signed, to_signed.
  assert (Hp : 2 ^ w = 2 * 2 ^ (w - 1))
    by (rewrite <- Z.pow_succ_r by lia; f_equal; lia).
  assert (0 < 2 ^ (w - 1)) by (apply Z.pow_pos_nonneg; lia).
  pose proof (Z.mod_pos_bound z (2 ^ w) ltac:(lia)).
  destruct (Z.ltb_spec (z mod 2 ^ w) (2 ^ (w - 1))); lia.
Qed.

(** [iN::from_be_bytes(v.to_be_bytes()) = v]. *)
Lemma signed_be_roundtrip n w v :
  w = 8 * Z.of_nat n -> 0 < w -> in_signed w v ->
  to_signed w (from_be (to_be n v)) = v.
Proof.
  intros -> Hw Hv. rewrite from_be_to_be, to_signed_mod by done.
  by apply to_signed_small.
Qed.

(** Flipping the sign bit shifts the signed range onto the unsigned one. *)
Lemma lxor_signbit w u :
  0 < w -> in_unsigned w u ->
  Z.lxor u (2 ^ (w - 1)) = if u <? 2 ^ (w - 1) then u + 2 ^ (w - 1) else u - 2 ^ (w - 1).
Proof.
  intros Hw [Hlo Hhi]. set (p := 2 ^ (w - 1)) in *.
  assert (Hp : 2 ^ w = 2 * p)
    by (unfold p; rewrite <- Z.pow_succ_r by lia; f_equal; lia).
  assert (0 < p) by (unfold p; apply Z.pow_pos_nonneg; lia).
  assert (Hsmall : forall x, 0 <= x < p -> Z.lxor x p = x + p).
  { intros x Hx. symmetry. apply Z.add_nocarry_lxor, Z.bits_inj'.
    intros i Hi. rewrite Z.land_spec, Z.bits_0. unfold p.
    rewrite Z.pow2_bits_eqb by lia.
    destruct (Z.eqb_spec (w - 1) i) as [<-|]; [|apply andb_false_r].
    rewrite andb_true_r.
    destruct (decide (x = 0)) as [->|]; [apply Z.bits_0|].
    apply Z.bits_above_log2; [lia|]. apply Z.log2_lt_pow2; unfold p in Hx; lia. }
  destruct (Z.ltb_spec u p) as [Hu|Hu]; [by apply Hsmall|].
  replace u with ((u - p) + p) at 1 by lia.
  rewrite <- (Hsmall (u - p)) by lia.
  by rewrite Z.lxor_assoc, Z.lxor_nilpotent, Z.lxor_0_r.
Qed.

(** ** Byte strings *)

(** A Rust [String] is a byte string holding valid UTF-8; it is represented by
    the [string] of its bytes. *)
Definition as_bytes (s : string) : list byte := String.list_byte_of_string s.
Definition of_bytes (l : list byte) : string := String.string_of_list_byte l.

Lemma of_as_bytes s : of_bytes (as_bytes s) = s.
Proof. apply String.string_of_list_byte_of_string. Qed.
Lemma as_of_bytes l : as_bytes (of_bytes l) = l.
Proof. apply String.list_byte_of_string_of_list_byte. Qed.
Lemma as_bytes_inj s t : as_bytes s = as_bytes t -> s = t.
Proof. intros H. rewrite <- (of_as_bytes s), <- (of_as_bytes t). by rewrite H. Qed.

(** [str::from_utf8]'s acceptance (the well-formed sequences of Unicode Table 3-7). *)
Definition utf8_cont (b : byte) : bool := (128 <=? u8_to_Z b) && (u8_to_Z b <=? 191).

Definition utf8_second3 (z z1 : Z) : bool :=
  if z =? 224 then (160 <=? z1) && (z1 <=? 191)
  else if z =? 237 then (128 <=? z1) && (z1 <=? 159)
  else (128 <=? z1) && (z1 <=? 191).

Definition utf8_second4 (z z1 : Z) : bool :=
  if z =? 240 then (144 <=? z1) && (z1 <=? 191)
  else if z =? 244 then (128 <=? z1) && (z1 <=? 143)
  else (128 <=? z1) && (z1 <=? 191).

Fixpoint utf8_valid (l : list byte) : bool :=
  match l with
  | [] => true
  | b0 :: r0 =>
      let z := u8_to_Z b0 in
      if z <? 128 then utf8_valid r0
      else match r0 with
      | [] => false
      | b1 :: r1 =>
          if (194 <=? z) && (z <=? 223) then utf8_cont b1 && utf8_valid r1
          else match r1 with
          | [] => false
          | b2 :: r2 =>
              if (224 <=? z) && (z <=? 239)
              then utf8_second3 z (u8_to_Z b1) && utf8_cont b2 && utf8_valid r2
              else match r2 with
              | [] => false
              | b3 :: r3 =>
                  (240 <=? z) && (z <=? 244) && utf8_second4 z (u8_to_Z b1)
                  && utf8_cont b2 && utf8_cont b3 && utf8_valid r3
              end
          end
      end
  end.

(** [String::from_utf8]. *)
Definition from_utf8 (l : list byte) : option string :=
  if utf8_valid l then Some (of_bytes l) else None.

Definition wf_string (s : string) : Prop := utf8_valid (as_bytes s) = true.

Lemma from_utf8_as_bytes s : wf_string s -> from_utf8 (as_bytes s) = Some s.
Proof. intros H. unfold from_utf8. rewrite H. by rewrite of_as_bytes. Qed.

Lemma from_utf8_inv l s : from_utf8 l = Some s -> l = as_bytes s /\ wf_string s.
Proof.
  unfold from_utf8. destruct (utf8_valid l) eqn:H; [|discriminate].
  intros [= <-]. unfold wf_string. by rewrite as_of_bytes.
Qed.

(** Lexicographic comparison: [Ord] for [[u8]], [Vec<u8>] and [str]. *)
Fixpoint bytes_cmp (a b : list byte) : comparison :=
  match a, b with
  | [], [] => Eq
  | [], _ :: _ => Lt
  | _ :: _, [] => Gt
  | x :: a', y :: b' =>
      match u8_to_Z x ?= u8_to_Z y with
      | Eq => bytes_cmp a' b'
      | c => c
      end
  end.

Definition str_cmp (s t : string) : comparison := bytes_cmp (as_bytes s) (as_bytes t).

Definition bytes_ltb (a b : list byte) : bool :=
  match bytes_cmp a b with Lt => true | _ => false end.
Definition bytes_leb (a b : list byte) : bool :=
  match bytes_cmp a b with Gt => false | _ => true end.

Definition bytes_lt (a b : list byte) : Prop := bytes_cmp a b = Lt.

Lemma bytes_cmp_refl a : bytes_cmp a a = Eq.
Proof. induction a as [|x a IH]; cbn; [done|]. by rewrite Z.compare_refl. Qed.

Lemma bytes_cmp_eq a b : bytes_cmp a b = Eq -> a = b.
Proof.
  revert b. induction a as [|x a IH]; intros [|y b]; cbn; try discriminate; [done|].
  destruct (Z.compare_spec (u8_to_Z x) (u8_to_Z y)) as [Hxy| |]; try discriminate.
  intros H. apply u8_to_Z_inj in Hxy as ->. f_equal. by apply IH.
Qed.

Lemma bytes_cmp_antisym a b : bytes_cmp b a = CompOpp (bytes_cmp a b).
Proof.
  revert b. induction a as [|x a IH]; intros [|y b]; cbn; try done.
  rewrite (Z.compare_antisym (u8_to_Z x) (u8_to_Z y)).
  destruct (u8_to_Z x ?= u8_to_Z y); cbn; [apply IH|done|done].
Qed.

Lemma bytes_lt_trans a b c : bytes_lt a b -> bytes_lt b c -> bytes_lt a c.
Proof.
  unfold bytes_lt. revert b c.
  induction a as [|x a IH]; intros [|y b] [|z c]; cbn; try discriminate; try done.
  destruct (Z.compare_spec (u8_to_Z x) (u8_to_Z y)),
    (Z.compare_spec (u8_to_Z y) (u8_to_Z z)); try discriminate; intros H1 H2.
  - replace (u8_to_Z x) with (u8_to_Z z) by lia. rewrite Z.compare_refl. eauto.
  - by replace (u8_to_Z x ?= u8_to_Z z) with Lt by (symmetry; apply Z.compare_lt_iff; lia).
  - by replace (u8_to_Z x ?= u8_to_Z z) with Lt by (symmetry; apply Z.compare_lt_iff; lia).
  - by replace (u8_to_Z x ?= u8_to_Z z) with Lt by (symmetry; apply Z.compare_lt_iff; lia).
Qed.

Lemma bytes_lt_irrefl a : ~ bytes_lt a a.
Proof. unfold bytes_lt. by rewrite bytes_cmp_refl. Qed.

Lemma bytes_cmp_app p a b : bytes_cmp (p ++ a) (p ++ b) = bytes_cmp a b.
Proof. induction p as [|x p IH]; cbn; [done|]. by rewrite Z.compare_refl. Qed.

Lemma bytes_cmp_nil_l a : bytes_cmp [] a = match a with [] => Eq | _ => Lt end.
Proof. by destruct a. Qed.

(** Equal-length heads that differ decide the comparison of the whole. *)
Lemma bytes_cmp_app_ne a a' r r' :
  length a = length a' -> bytes_cmp a a' <> Eq ->
  bytes_cmp (a ++ r) (a' ++ r') = bytes_cmp a a'.
Proof.
  revert a'. induction a as [|x a IH]; intros [|y a']; cbn; try done.
  intros [= Hl] Hne. destruct (u8_to_Z x ?= u8_to_Z y); auto.
Qed.

Lemma bytes_leb_refl a : bytes_leb a a = true.
Proof. unfold bytes_leb. by rewrite bytes_cmp_refl. Qed.

Lemma bytes_leb_ltb a b : bytes_leb a b = negb (bytes_ltb b a).
Proof. unfold bytes_leb, bytes_ltb. rewrite (bytes_cmp_antisym a b). by destruct (bytes_cmp a b). Qed.

Lemma bytes_ltb_lt a b : bytes_ltb a b = true <-> bytes_lt a b.
Proof. unfold bytes_ltb, bytes_lt. destruct (bytes_cmp a b); split; done. Qed.

Lemma bytes_leb_le a b : bytes_leb a b = true <-> bytes_lt a b \/ a = b.
Proof.
  unfold bytes_leb, bytes_lt. destruct (bytes_cmp a b) eqn:H; split; auto.
  - intros _. right. by apply bytes_cmp_eq.
  - discriminate.
  - intros [ | -> ]; [discriminate|]. by rewrite bytes_cmp_refl in H.
Qed.

Lemma bytes_leb_trans a b c : bytes_leb a b = true -> bytes_leb b c = true -> bytes_leb a c = true.
Proof.
  rewrite !bytes_leb_le. intros [H1 | ->] [H2 | ->]; auto.
  left. by eapply bytes_lt_trans.
Qed.

(** Big-endian images compare as the unsigned integers they encode. *)
Lemma to_be_cmp n x y :
  in_unsigned (8 * Z.of_nat n) x -> in_unsigned (8 * Z.of_nat n) y ->
  bytes_cmp (to_be n x) (to_be n y) = (x ?= y).
Proof.
  unfold in_unsigned. revert x y. induction n as [|m IH]; intros x y Hx Hy.
  - cbn in *. assert (x = y) as -> by lia. by rewrite Z.compare_refl.
  - cbn [to_be bytes_cmp]. rewrite pow256 in Hx, Hy.
    set (p := 2 ^ (8 * Z.of_nat m)) in *.
    assert (Hp : 0 < p) by (apply Z.pow_pos_nonneg; lia).
    rewrite !u8_to_of, !Z.shiftr_div_pow2 by lia. fold p.
    pose proof (Z.div_mod x p ltac:(lia)) as Ex. pose proof (Z.div_mod y p ltac:(lia)) as Ey.
    pose proof (Z.mod_pos_bound x p ltac:(lia)). pose proof (Z.mod_pos_bound y p ltac:(lia)).
    assert (0 <= x / p < 256) by (split; [apply Z.div_pos; lia|apply Z.div_lt_upper_bound; lia]).
    assert (0 <= y / p < 256) by (split; [apply Z.div_pos; lia|apply Z.div_lt_upper_bound; lia]).
    rewrite !(Z.mod_small (_ / p)) by lia.
    rewrite <- (to_be_mod m x), <- (to_be_mod m y). fold p.
    rewrite IH by (fold p; lia).
    destruct (Z.compare_spec (x / p) (y / p)) as [E|L|G]; symmetry.
    + destruct (Z.compare_spec (x mod p) (y mod p));
        [apply Z.compare_eq_iff|apply Z.compare_lt_iff|apply Z.compare_gt_iff]; nia.
    + apply Z.compare_lt_iff. nia.
    + apply Z.compare_gt_iff. nia.
Qed.

(** ** Prefixes and slices *)

(** [slice::strip_prefix]. *)
Fixpoint strip_prefix (p l : list byte) : option (list byte) :=
  match p, l with
  | [], _ => Some l
  | x :: p', y :: l' => if decide (x = y) then strip_prefix p' l' else None
  | _ :: _, [] => None
  end.

(** [slice::starts_with]. *)
Definition starts_with (l p : list byte) : bool :=
  match strip_prefix p l with Some _ => true | None => false end.

Lemma strip_prefix_app p r : strip_prefix p (p ++ r) = Some r.
Proof. induction p as [|x p IH]; cbn; [done|]. by rewrite decide_True. Qed.

Lemma strip_prefix_inv p l r : strip_prefix p l = Some r -> l = p ++ r.
Proof.
  revert l. induction p as [|x p IH]; intros l; cbn; [congruence|].
  destruct l as [|y l]; [discriminate|]. case_decide; [subst|discriminate].
  intros H. cbn. f_equal. by apply IH.
Qed.

Lemma starts_with_spec l p : starts_with l p = true <-> exists r, l = p ++ r.
Proof.
  unfold starts_with. split.
  - destruct (strip_prefix p l) eqn:H; [|discriminate].
    intros _. eexists. by apply strip_prefix_inv.
  - intros [r ->]. by rewrite strip_prefix_app.
Qed.

(** [slice::strip_suffix(&[b])] for a single byte. *)
Definition strip_suffix1 (b : byte) (l : list byte) : option (list byte) :=
  match last l with
  | Some x => if decide (x = b) then Some (removelast l) else None
  | None => None
  end.

Lemma strip_suffix1_app b l : strip_suffix1 b (l ++ [b]) = Some l.
Proof.
  unfold strip_suffix1. rewrite last_snoc, decide_True by done.
  by rewrite removelast_last.
Qed.

(** [&l[a..b]] for in-range bounds. *)
Definition slice (l : list byte) (a b : nat) : list byte := take (b - a) (drop a l).

(** [&l[a..b]] and [&l[a..]]: bounds out of order or past the end panic. *)
Definition sub_slice {E} (l : list byte) (a b : nat) : result E (list byte) :=
  if (a <=? b)%nat && (b <=? length l)%nat then Ok (slice l a b) else Panic.
Definition slice_from {E} (l : list byte) (a : nat) : result E (list byte) :=
  if (a <=? length l)%nat then Ok (drop a l) else Panic.

Lemma sub_slice_ok {E} (l : list byte) (a b : nat) :
  (a <= b)%nat -> (b <= length l)%nat -> sub_slice (E := E) l a b = Ok (slice l a b).
Proof.
  intros Ha Hb. unfold sub_slice. by rewrite (proj2 (Nat.leb_le _ _) Ha), (proj2 (Nat.leb_le _ _) Hb).
Qed.

Lemma slice_from_ok {E} (l : list byte) (a : nat) :
  (a <= length l)%nat -> slice_from (E := E) l a = Ok (drop a l).
Proof. intros Ha. unfold slice_from. by rewrite (proj2 (Nat.leb_le _ _) Ha). Qed.

(** [l.len()] as an integer. *)
Definition len {A} (l : list A) : Z := Z.of_nat (length l).

Lemma len_app {A} (a b : list A) : len (a ++ b) = len a + len b.
Proof. unfold len. rewrite length_app. lia. Qed.

Lemma len_cons {A} (a : A) (l : list A) : len (a :: l) = 1 + len l.
Proof. unfold len. cbn [length]. lia. Qed.

Lemma len_nonneg {A} (l : list A) : 0 <= len l.
Proof. unfold len. lia. Qed.

Lemma slice_app p x r : slice (p ++ x ++ r) (length p) (length p + length x) = x.
Proof.
  unfold slice. rewrite drop_app_length.
  replace (length p + length x - length p)%nat with (length x) by lia.
  apply take_app_length.
Qed.

Lemma length_slice l a b :
  (a <= b <= length l)%nat -> length (slice l a b) = (b - a)%nat.
Proof. intros. unfold slice. rewrite length_take, length_drop. lia. Qed.

(** ** Loops

    [for _ in 0..n] accumulating results, in any monad with stdpp's bind. *)
Fixpoint repeat_m {M : Type -> Type} `{MRet M, MBind M} {A} (n : nat) (f : M A)
    : M (list A) :=
  match n with
  | O => mret []
  | S m => a ← f; l ← repeat_m m f; mret (a :: l)
  end.

(** [for x in l] with an accumulator and early return. *)
Fixpoint fold_m {M : Type -> Type} `{MRet M, MBind M} {A B} (f : B -> A -> M B)
    (acc : B) (l : list A) : M B :=
  match l with
  | [] => mret acc
  | a :: r => b ← f acc a; fold_m f b r
  end.

(** [iter().map(f).collect::<Result<Vec<_>, _>>()]. *)
Fixpoint map_m {M : Type -> Type} `{MRet M, MBind M} {A B} (f : A -> M B)
    (l : list A) : M (list B) :=
  match l with
  | [] => mret []
  | a :: r => b ← f a; bs ← map_m f r; mret (b :: bs)
  end.

(** ** Machine integers *)

Definition u16_max : Z := 2 ^ 16 - 1.
Definition u32_max : Z := 2 ^ 32 - 1.
Definition u64_max : Z := 2 ^ 64 - 1.
Definition i64_max : Z := 2 ^ 63 - 1.
Definition i64_min : Z := - 2 ^ 63.

(** [u32::saturating_add], [u64::saturating_add], [i64::saturating_add]. *)
Definition u32_saturating_add (a b : Z) : Z := Z.min (a + b) u32_max.
Definition u64_saturating_add (a b : Z) : Z := Z.min (a + b) u64_max.
Definition i64_saturating_add (a b : Z) : Z := Z.max i64_min (Z.min (a + b) i64_max).

(** The value when it fits [i64]: the core of the checked operations. *)
Definition i64_checked (z : Z) : option Z :=
  if (i64_min <=? z) && (z <=? i64_max) then Some z else None.

Lemma i64_checked_ok z : in_signed 64 z -> i64_checked z = Some z.
Proof.
  unfold i64_checked, in_signed, i64_min, i64_max. intros H.
  destruct (Z.leb_spec (- 2 ^ 63) z), (Z.leb_spec z (2 ^ 63 - 1)); cbn [andb];
    first [done | exfalso; cbn in *; lia].
Qed.

(** [i64::checked_add], [i64::checked_sub]. *)
Definition i64_checked_add (a b : Z) : option Z := i64_checked (a + b).
Definition i64_checked_sub (a b : Z) : option Z := i64_checked (a - b).

(** ** ASCII case *)

Definition ascii_lower_byte (b : byte) : byte :=
  if (65 <=? u8_to_Z b) && (u8_to_Z b <=? 90) then u8_of_Z (u8_to_Z b + 32) else b.

(** [str::to_ascii_lowercase]. *)
Definition to_ascii_lowercase (s : string) : string :=
  of_bytes (map ascii_lower_byte (as_bytes s)).

Lemma ascii_lower_byte_idem b : ascii_lower_byte (ascii_lower_byte b) = ascii_lower_byte b.
Proof. by destruct b. Qed.

Lemma to_ascii_lowercase_idem s :
  to_ascii_lowercase (to_ascii_lowercase s) = to_ascii_lowercase s.
Proof.
  unfold to_ascii_lowercase. rewrite as_of_bytes. f_equal.
  rewrite map_map. apply map_ext, ascii_lower_byte_idem.
Qed.

(** ** Automation

    [uni] collects the facts every codec proof needs. *)

Create HintDb uni.
Create Rewrite HintDb uni.
#[export] Hint Resolve u8_to_Z_range from_be_range length_to_be bytes_cmp_refl
  bytes_leb_refl : uni.
#[export] Hint Rewrite length_to_be u8_of_to as_of_bytes of_as_bytes
  strip_prefix_app @length_app bytes_cmp_refl bytes_cmp_app : uni.

(** Unfolds the width predicates so that [lia] sees plain bounds. *)
Ltac width := unfold in_signed, in_unsigned in *; cbn in *; lia.

Lemma map_m_ok {E A B} (f : A -> result E B) (g : A -> B) l :
  (forall a, a ∈ l -> f a = Ok (g a)) -> map_m f l = Ok (map g l).
Proof.
  induction l as [|a l IH]; intros H; [done|]. cbn [map_m]. rewrite H by set_solver.
  rewrite bind_ok, IH by set_solver. done.
Qed.
