(* ===== verification/BTree.v ===== *)
(** * Ordered maps

    What the source uses of [BTreeMap<Vec<u8>, _>] and of sorting a row vector by
    key: iteration in key order, the entries of a key range, and the first [n]
    entries.  Maps are [gmap]s; [btree_iter] lists their entries in key order. *)

From stdpp Require Import sorting.
From S2P Require Import Prelude.

Abbreviation key := (list byte).

Definition row_le {A} (a b : key * A) : Prop := bytes_leb a.1 b.1 = true.

#[export] Instance row_le_dec {A} : RelDecision (@row_le A).
Proof. intros a b. unfold row_le. apply _. Defined.

#[export] Instance row_le_total {A} : Total (@row_le A).
Proof.
  intros a b. unfold row_le. rewrite !bytes_leb_ltb. unfold bytes_ltb.
  rewrite (bytes_cmp_antisym b.1 a.1). destruct (bytes_cmp b.1 a.1); auto.
Qed.

#[export] Instance row_le_trans {A} : Transitive (@row_le A).
Proof.
  intros a b c. unfold row_le. rewrite !bytes_leb_le.
  intros [H1|H1] [H2|H2].
  - left. by apply (bytes_lt_trans _ b.1).
  - left. by rewrite <- H2.
  - left. by rewrite H1.
  - right. congruence.
Qed.

(** [BTreeMap::iter]; also a [Vec] of a [HashMap]'s entries after [sort_by] on the key. *)
Definition btree_iter {A} (m : gmap key A) : list (key * A) :=
  merge_sort row_le (map_to_list m).

(** [collect_range]: a [BTreeMap] listed forwards or backwards, up to a limit. *)
Definition take_limit {A} (limit : option nat) (l : list A) : list A :=
  match limit with Some n => take n l | None => l end.

Definition in_order {A} (reverse : bool) (l : list A) : list A :=
  if reverse then rev l else l.

Lemma btree_iter_perm {A} (m : gmap key A) : btree_iter m ≡ₚ map_to_list m.
Proof. apply merge_sort_Permutation. Qed.

Lemma btree_iter_elem {A} (m : gmap key A) k v : (k, v) ∈ btree_iter m <-> m !! k = Some v.
Proof. by rewrite btree_iter_perm, elem_of_map_to_list. Qed.

Lemma btree_iter_length {A} (m : gmap key A) : length (btree_iter m) = size m.
Proof. rewrite btree_iter_perm. apply length_map_to_list. Qed.

Lemma btree_iter_nodup {A} (m : gmap key A) : NoDup (map fst (btree_iter m)).
Proof. rewrite btree_iter_perm. apply NoDup_fst_map_to_list. Qed.

(** ** Strictly sorted rows *)

Definition row_lt {A} (a b : key * A) : Prop := bytes_lt a.1 b.1.

Fixpoint strictly {A} (R : A -> A -> Prop) (l : list A) : Prop :=
  match l with [] => True | a :: r => Forall (R a) r /\ strictly R r end.

Lemma strictly_app {A} (R : A -> A -> Prop) l1 l2 :
  strictly R (l1 ++ l2) <-> strictly R l1 /\ strictly R l2 /\ Forall (fun a => Forall (R a) l2) l1.
Proof.
  induction l1 as [|a l1 IH]; cbn; [split; [by intros|tauto]|].
  rewrite IH, Forall_app, Forall_cons. tauto.
Qed.

Lemma strictly_rev {A} (R : A -> A -> Prop) l : strictly R l -> strictly (flip R) (rev l).
Proof.
  induction l as [|a l IH]; [done|]. cbn [strictly rev]. intros [Ha Hl].
  apply strictly_app. split; [by apply IH|]. split; [by repeat constructor|].
  apply Forall_rev. eapply Forall_impl; [exact Ha|]. intros b Hb. by repeat constructor.
Qed.

Lemma strictly_fmap {A B} (f : A -> B) (R : B -> B -> Prop) l :
  strictly (fun x y => R (f x) (f y)) l -> strictly R (map f l).
Proof.
  induction l as [|a l IH]; [done|]. cbn. intros [Ha Hl]. split; [|by apply IH].
  rewrite Forall_fmap. exact Ha.
Qed.

(** A strictly ordered list is determined by its elements. *)
Lemma strictly_unique {A} (R : A -> A -> Prop) (l1 : list A) : forall l2,
  (forall a, ~ R a a) -> (forall a b c, R a b -> R b c -> R a c) ->
  strictly R l1 -> strictly R l2 -> (forall a, a ∈ l1 <-> a ∈ l2) -> l1 = l2.
Proof.
  induction l1 as [|a l1 IH]; intros [|b l2] Hirr Htr H1 H2 Hel.
  - done.
  - exfalso. assert (b ∈ []) by (apply Hel; set_solver). set_solver.
  - exfalso. assert (a ∈ []) by (apply Hel; set_solver). set_solver.
  - cbn in H1, H2. destruct H1 as [Ha H1], H2 as [Hb H2]. rewrite Forall_forall in Ha, Hb.
    assert (a = b) as <-.
    { assert (Hab : a ∈ b :: l2) by (apply Hel; set_solver).
      assert (Hba : b ∈ a :: l1) by (apply Hel; set_solver).
      apply elem_of_cons in Hab as [?|Hab]; [done|].
      apply elem_of_cons in Hba as [?|Hba]; [done|].
      destruct (Hirr a). eapply Htr; [by apply Ha|by apply Hb]. }
    f_equal. apply IH; try done. intros x. split; intros Hx.
    + assert (Hx' : x ∈ a :: l2) by (apply Hel; set_solver).
      apply elem_of_cons in Hx' as [->|?]; [|done]. destruct (Hirr a); by apply Ha.
    + assert (Hx' : x ∈ a :: l1) by (apply Hel; set_solver).
      apply elem_of_cons in Hx' as [->|?]; [|done]. destruct (Hirr a); by apply Hb.
Qed.

(** The first [n] elements of a list are those of a longer one, when everything
    the longer one adds comes after [n] elements of the shorter one. *)
Lemma strictly_take {A} (R : A -> A -> Prop) (n : nat) : forall l1 l2,
  (forall a, ~ R a a) -> (forall a b c, R a b -> R b c -> R a c) ->
  strictly R l1 -> strictly R l2 -> (forall a, a ∈ l1 -> a ∈ l2) ->
  (forall a, a ∈ l2 -> a ∉ l1 -> (n <= length l1)%nat /\ Forall (fun b => R b a) (take n l1)) ->
  take n l1 = take n l2.
Proof.
  induction n as [|n IH]; intros l1 l2 Hirr Htr H1 H2 Hsub Hmore; [by rewrite !take_0|].
  destruct l1 as [|a l1].
  - destruct l2 as [|b l2]; [done|]. exfalso.
    destruct (Hmore b) as [Hl _]; [set_solver..|]. cbn in Hl. lia.
  - destruct l2 as [|b l2]; [exfalso; assert (a ∈ []) by (apply Hsub; set_solver); set_solver|].
    cbn in H1, H2. destruct H1 as [Ha H1], H2 as [Hb H2].
    pose proof (proj1 (Forall_forall _ _) Ha) as Ha'. pose proof (proj1 (Forall_forall _ _) Hb) as Hb'.
    assert (a = b) as <-.
    { assert (Hab : a ∈ b :: l2) by (apply Hsub; set_solver).
      apply elem_of_cons in Hab as [?|Hab]; [done|]. apply Hb' in Hab.
      destruct (Hmore b) as [_ Hf]; [set_solver| |].
      - intros [->|Hin]%elem_of_cons; [by destruct (Hirr a)|].
        destruct (Hirr b). eapply Htr; [exact Hab|]. by apply Ha'.
      - cbn in Hf. apply Forall_cons in Hf as [Hf _]. destruct (Hirr a). by eapply Htr. }
    cbn. f_equal. apply IH; try done.
    + intros x Hx. assert (Hx' : x ∈ a :: l2) by (apply Hsub; set_solver).
      apply elem_of_cons in Hx' as [->|?]; [|done]. destruct (Hirr a); by apply Ha'.
    + intros x Hx Hn. destruct (Hmore x) as [Hl Hf]; [set_solver| |].
      * intros [->|?]%elem_of_cons; [|done]. destruct (Hirr a); by apply Hb'.
      * cbn in Hl, Hf. apply Forall_cons in Hf as [_ Hf]. split; [lia|done].
Qed.

Lemma row_lt_irrefl {A} (a : key * A) : ~ row_lt a a.
Proof. apply bytes_lt_irrefl. Qed.

Lemma row_lt_trans {A} (a b c : key * A) : row_lt a b -> row_lt b c -> row_lt a c.
Proof. apply bytes_lt_trans. Qed.

Lemma btree_iter_strictly {A} (m : gmap key A) : strictly row_lt (btree_iter m).
Proof.
  pose proof (btree_iter_nodup m) as Hnd.
  assert (Hs : StronglySorted row_le (btree_iter m)) by apply (StronglySorted_merge_sort row_le).
  induction Hs as [|a l Hs IH Hf]; [done|]. cbn in *. apply NoDup_cons in Hnd as [Hn Hnd].
  split; [|by apply IH]. rewrite Forall_forall in Hf |- *. intros b Hb.
  pose proof (Hf b Hb) as Hle. unfold row_le in Hle. apply bytes_leb_le in Hle as [?|He]; [done|].
  destruct Hn. rewrite He. by apply list_elem_of_fmap_2.
Qed.

(** [btree_iter] lists exactly the strictly ordered rows of the map. *)
Lemma btree_iter_unique {A} (m : gmap key A) l :
  strictly row_lt l -> (forall k v, (k, v) ∈ l <-> m !! k = Some v) -> btree_iter m = l.
Proof.
  intros Hl Hel. apply (strictly_unique row_lt).
  - apply row_lt_irrefl.
  - apply row_lt_trans.
  - apply btree_iter_strictly.
  - done.
  - intros [k v]. by rewrite btree_iter_elem, Hel.
Qed.

(** Collecting rows with distinct keys into a [BTreeMap] and listing it sorts them. *)
Lemma btree_iter_list_to_map {A} (m : gmap key A) :
  list_to_map (btree_iter m) = m.
Proof.
  rewrite (list_to_map_proper _ (map_to_list m)).
  - apply list_to_map_to_list.
  - apply btree_iter_nodup.
  - apply btree_iter_perm.
Qed.

Lemma in_order_strictly {A} (reverse : bool) (m : gmap key A) :
  strictly (if reverse then flip row_lt else row_lt) (in_order reverse (btree_iter m)).
Proof. destruct reverse; cbn; [apply strictly_rev|]; apply btree_iter_strictly. Qed.

Lemma in_order_elem {A} (reverse : bool) (l : list A) a : a ∈ in_order reverse l <-> a ∈ l.
Proof. destruct reverse; cbn [in_order]; [|done]. by rewrite <- (Permutation_rev l). Qed.

Lemma strictly_lookup {A} (R : A -> A -> Prop) (l : list A) : forall i j a b,
  strictly R l -> (i < j)%nat -> l !! i = Some a -> l !! j = Some b -> R a b.
Proof.
  induction l as [|x l IH]; intros i j a b Hs Hij Hi Hj; [done|]. destruct Hs as [Hx Hs].
  destruct j as [|j]; [lia|]. destruct i as [|i]; cbn in Hi, Hj.
  - injection Hi as <-. rewrite Forall_forall in Hx. apply Hx. by apply list_elem_of_lookup_2 in Hj.
  - apply (IH i j); [done|lia|done|done].
Qed.

(** The direction of a scan as an order on keys. *)
Definition key_before (reverse : bool) (a b : key) : Prop :=
  if reverse then bytes_lt b a else bytes_lt a b.

Lemma key_before_trans (reverse : bool) a b c :
  key_before reverse a b -> key_before reverse b c -> key_before reverse a c.
Proof. destruct reverse; cbn; intros H1 H2; eapply bytes_lt_trans; eauto. Qed.

Lemma key_before_irrefl (reverse : bool) a : ~ key_before reverse a a.
Proof. destruct reverse; apply bytes_lt_irrefl. Qed.

Lemma key_before_total (reverse : bool) a b : key_before reverse a b \/ a = b \/ key_before reverse b a.
Proof.
  assert (H : bytes_lt a b \/ a = b \/ bytes_lt b a).
  { unfold bytes_lt. rewrite (bytes_cmp_antisym a b).
    destruct (bytes_cmp a b) eqn:E; [right; left; by apply bytes_cmp_eq|by left|by right; right]. }
  destruct reverse; cbn; tauto.
Qed.

Lemma in_order_before {A} (reverse : bool) (m : gmap key A) :
  strictly (fun a b => key_before reverse a.1 b.1) (in_order reverse (btree_iter m)).
Proof. pose proof (in_order_strictly reverse m) as H. by destruct reverse. Qed.

(** In a listing that holds [n] keys before [k], the first [n] entries lie before [k]. *)
Lemma first_before {A} (reverse : bool) (l : list (key * A)) (ks : list key) (k : key) (n : nat) :
  strictly (fun a b => key_before reverse a.1 b.1) l -> NoDup ks -> (n <= length ks)%nat ->
  (forall x, x ∈ ks -> key_before reverse x k /\ x ∈ map fst l) ->
  (n <= length l)%nat /\ Forall (fun b => key_before reverse b.1 k) (take n l).
Proof.
  intros Hs Hnd Hn Hks. split.
  - assert (Hsub : ks ⊆+ map fst l) by (apply NoDup_submseteq; [done|intros x Hx; by apply Hks]).
    apply submseteq_length in Hsub. rewrite length_map in Hsub. lia.
  - apply Forall_lookup. intros i b [Hb Hi]%lookup_take_Some.
    destruct (key_before_total reverse b.1 k) as [?|Hge]; [done|]. exfalso.
    assert (Hsub : ks ⊆+ map fst (take i l)).
    { apply NoDup_submseteq; [done|]. intros x Hx. destruct (Hks x Hx) as [Hxk Hxl].
      apply list_elem_of_fmap in Hxl as (c & -> & Hc). apply list_elem_of_lookup in Hc as [j Hj].
      apply list_elem_of_fmap. exists c. split; [done|].
      apply list_elem_of_lookup. exists j. apply lookup_take_Some. split; [done|].
      destruct (decide (j < i)%nat) as [?|Hji]; [done|]. exfalso.
      assert (Hbc : b.1 = c.1 \/ key_before reverse b.1 c.1).
      { destruct (decide (j = i)) as [->|?]; [left; congruence|right].
        apply (strictly_lookup _ l i j b c Hs); [lia|done|done]. }
      assert (key_before reverse b.1 k) as Hbk
        by (destruct Hbc as [->|?]; [done|by eapply key_before_trans]).
      destruct Hge as [He|He]; [rewrite He in Hbk; by apply key_before_irrefl in Hbk|].
      eapply key_before_irrefl, key_before_trans; eauto. }
    apply submseteq_length in Hsub. rewrite length_map, length_take in Hsub. lia.
Qed.
