(* ===== verification/Float.v ===== *)
(** * IEEE 754 values by their bit patterns

    An [f32] or [f64] is the integer of its bits ([to_bits]); comparison and
    arithmetic go through the standard library's executable [SpecFloat].  The
    order-preserving key transform of [encode_ordered_f32] and
    [encode_ordered_f64] (src/src/storage_layout/tuple_codec.rs, and the copies
    in src/src/codec.rs) is stated once at any width, with the theorems that it
    is invertible and monotone for the IEEE order. *)

From Stdlib Require Import SpecFloat.
From S2P Require Import Prelude.

Section Format.
(** Mantissa bits and exponent bits of the format. *)
Context (mw ew : Z) (Hmw : 0 < mw) (Hew : 1 < ew).

Definition fprec : Z := mw + 1.
Definition femax : Z := 2 ^ (ew - 1).
Definition fwidth : Z := 1 + ew + mw.
Definition femin : Z := 3 - femax - fprec.

(** [from_bits]: the IEEE datum a bit pattern denotes. *)
Definition fdecode (bits : Z) : spec_float :=
  let s := 2 ^ (ew + mw) <=? bits in
  let mag := bits mod 2 ^ (ew + mw) in
  let e := mag / 2 ^ mw in
  let m := mag mod 2 ^ mw in
  if e =? 2 ^ ew - 1 then
    if m =? 0 then S754_infinity s else S754_nan
  else if e =? 0 then
    if m =? 0 then S754_zero s else S754_finite s (Z.to_pos m) femin
  else S754_finite s (Z.to_pos (m + 2 ^ mw)) (femin + e - 1).

(** [to_bits], NaN giving the canonical quiet NaN. *)
Definition fencode (x : spec_float) : Z :=
  let sign s := if s : bool then 2 ^ (ew + mw) else 0 in
  match x with
  | S754_zero s => sign s
  | S754_infinity s => sign s + (2 ^ ew - 1) * 2 ^ mw
  | S754_nan => (2 ^ ew - 1) * 2 ^ mw + 2 ^ (mw - 1)
  | S754_finite s m e =>
      if Zpos m <? 2 ^ mw then sign s + Zpos m
      else sign s + (e - femin + 1) * 2 ^ mw + (Zpos m - 2 ^ mw)
  end.

Definition fis_nan (bits : Z) : bool :=
  match fdecode bits with S754_nan => true | _ => false end.

(** [partial_cmp] and [==]. *)
Definition fcompare (a b : Z) : option comparison := SFcompare (fdecode a) (fdecode b).
Definition feqb (a b : Z) : bool := SFeqb (fdecode a) (fdecode b).

Definition fadd (a b : Z) : Z := fencode (SFadd fprec femax (fdecode a) (fdecode b)).
Definition fdiv (a b : Z) : Z := fencode (SFdiv fprec femax (fdecode a) (fdecode b)).

(** [v as fN] for an integer [v]: round to nearest even. *)
Definition fof_Z (v : Z) : Z := fencode (binary_normalize fprec femax v 0 false).

(** The key transform: set the sign bit of a non-negative pattern, complement
    a negative one. *)
Definition ordered_bits (bits : Z) : Z :=
  if Z.land bits (2 ^ (fwidth - 1)) =? 0
  then Z.lxor bits (2 ^ (fwidth - 1))
  else 2 ^ fwidth - 1 - bits.

Definition unordered_bits (ordered : Z) : Z :=
  if negb (Z.land ordered (2 ^ (fwidth - 1)) =? 0)
  then Z.lxor ordered (2 ^ (fwidth - 1))
  else 2 ^ fwidth - 1 - ordered.

#[local] Abbreviation half := (2 ^ (ew + mw)).

Lemma half_pos : 0 < half.
Proof. apply Z.pow_pos_nonneg; lia. Qed.

Lemma fwidth_pow : 2 ^ fwidth = 2 * half.
Proof. unfold fwidth. rewrite <- Z.pow_succ_r by lia. f_equal; lia. Qed.

Lemma fwidth_sign : 2 ^ (fwidth - 1) = half.
Proof. unfold fwidth. f_equal; lia. Qed.

(** The sign-bit test of the source is a comparison with [2^(w-1)]. *)
Lemma land_signbit bits :
  in_unsigned fwidth bits -> (Z.land bits (2 ^ (fwidth - 1)) =? 0) = (bits <? half).
Proof.
  intros [Hlo Hhi]. rewrite fwidth_pow in Hhi. rewrite fwidth_sign.
  pose proof half_pos.
  assert (Hbit : Z.testbit bits (ew + mw) = negb (bits <? half)).
  { rewrite Z.testbit_eqb by lia.
    destruct (Z.ltb_spec bits half) as [Hb|Hb]; cbn.
    - by rewrite Z.div_small by lia.
    - by replace (bits / half) with 1 by (apply Z.div_unique with (bits - half); lia). }
  destruct (Z.ltb_spec bits half) as [Hb|Hb]; cbn in Hbit.
  - apply Z.eqb_eq, Z.bits_inj'. intros i Hi. rewrite Z.land_spec, Z.bits_0.
    rewrite Z.pow2_bits_eqb by lia.
    destruct (Z.eqb_spec (ew + mw) i) as [<-|]; [by rewrite Hbit|apply andb_false_r].
  - apply Z.eqb_neq. intros Heq. apply (f_equal (fun z => Z.testbit z (ew + mw))) in Heq.
    rewrite Z.land_spec, Z.bits_0, Hbit, Z.pow2_bits_true in Heq by lia. done.
Qed.

(** [ordered_bits] in arithmetic form. *)
Lemma ordered_bits_eq bits :
  in_unsigned fwidth bits ->
  ordered_bits bits = if bits <? half then bits + half else 2 * half - 1 - bits.
Proof.
  intros H. unfold ordered_bits. rewrite land_signbit by done.
  rewrite lxor_signbit by (unfold fwidth; first [lia|done]).
  rewrite fwidth_pow, fwidth_sign. by destruct (bits <? half).
Qed.

Lemma ordered_bits_range bits :
  in_unsigned fwidth bits -> in_unsigned fwidth (ordered_bits bits).
Proof.
  intros H. rewrite ordered_bits_eq by done. unfold in_unsigned in *.
  rewrite fwidth_pow in *. pose proof half_pos. destruct (Z.ltb_spec bits half); lia.
Qed.

Lemma unordered_ordered bits :
  in_unsigned fwidth bits -> unordered_bits (ordered_bits bits) = bits.
Proof.
  intros H. pose proof (ordered_bits_range _ H) as Hr. unfold unordered_bits.
  rewrite land_signbit, lxor_signbit by (unfold fwidth; first [lia|done]).
  rewrite ordered_bits_eq by done. rewrite fwidth_pow, fwidth_sign.
  unfold in_unsigned in H. rewrite fwidth_pow in H.
  destruct (Z.ltb_spec bits half).
  - destruct (Z.ltb_spec (bits + half) half); cbn; lia.
  - destruct (Z.ltb_spec (2 * half - 1 - bits) half); cbn; lia.
Qed.

Lemma unordered_bits_range o :
  in_unsigned fwidth o -> in_unsigned fwidth (unordered_bits o).
Proof.
  intros H. unfold unordered_bits.
  rewrite land_signbit, lxor_signbit by (unfold fwidth; first [lia|done]).
  unfold in_unsigned in *. rewrite fwidth_pow, fwidth_sign in *. pose proof half_pos.
  destruct (Z.ltb_spec o half); cbn; lia.
Qed.

(** The IEEE order read off sign and magnitude. *)
Definition fsign (bits : Z) : bool := half <=? bits.
Definition fmag (bits : Z) : Z := bits mod half.

Lemma fdecode_view x :
  fis_nan x = false ->
  exists e m, fmag x = e * 2 ^ mw + m /\ 0 <= m < 2 ^ mw /\ 0 <= e <= 2 ^ ew - 1 /\
    ((fdecode x = S754_infinity (fsign x) /\ e = 2 ^ ew - 1 /\ m = 0) \/
     (fdecode x = S754_zero (fsign x) /\ e = 0 /\ m = 0) \/
     (exists p, fdecode x = S754_finite (fsign x) p femin /\
        e = 0 /\ e < 2 ^ ew - 1 /\ Zpos p = m) \/
     (exists p, fdecode x = S754_finite (fsign x) p (femin + e - 1) /\
        1 <= e < 2 ^ ew - 1 /\ Zpos p = m + 2 ^ mw)).
Proof.
  pose proof half_pos as Hh.
  assert (Hmwp : 0 < 2 ^ mw) by (apply Z.pow_pos_nonneg; lia).
  assert (Hewp : 2 ^ 1 < 2 ^ ew) by (apply Z.pow_lt_mono_r; lia).
  pose proof (Z.mod_pos_bound x half Hh) as Hmag. fold (fmag x) in Hmag.
  pose proof (Z.div_mod (fmag x) (2 ^ mw) ltac:(lia)).
  pose proof (Z.mod_pos_bound (fmag x) (2 ^ mw) Hmwp).
  rewrite Z.pow_add_r in Hmag by lia.
  assert (0 <= fmag x / 2 ^ mw) by (apply Z.div_pos; lia).
  assert (fmag x / 2 ^ mw < 2 ^ ew) by (apply Z.div_lt_upper_bound; lia).
  unfold fis_nan, fdecode. fold (fmag x). fold (fsign x).
  set (e := fmag x / 2 ^ mw) in *. set (m := fmag x mod 2 ^ mw) in *.
  intros Hx. exists e, m. split; [lia|]. split; [done|]. split; [lia|].
  destruct (Z.eqb_spec e (2 ^ ew - 1)); [destruct (Z.eqb_spec m 0); [by left|discriminate]|].
  destruct (Z.eqb_spec e 0).
  - destruct (Z.eqb_spec m 0); [right; by left|]. right; right; left.
    exists (Z.to_pos m). rewrite Z2Pos.id by lia. repeat split; try done; lia.
  - do 3 right. exists (Z.to_pos (m + 2 ^ mw)). rewrite Z2Pos.id by lia.
    repeat split; try done; lia.
Qed.

(** Comparing sign, exponent and significand is comparing sign and magnitude. *)
Lemma fcompare_sign_mag a b :
  fis_nan a = false -> fis_nan b = false ->
  fcompare a b =
    Some (match fsign a, fsign b with
          | false, false => fmag a ?= fmag b
          | true, true => fmag b ?= fmag a
          | true, false => if (fmag a =? 0) && (fmag b =? 0) then Eq else Lt
          | false, true => if (fmag a =? 0) && (fmag b =? 0) then Eq else Gt
          end).
Proof.
  intros Ha Hb. unfold fcompare.
  apply fdecode_view in Ha as (ea & ma & Ea & Ra & Sa & Ca).
  apply fdecode_view in Hb as (eb & mb & Eb & Rb & Sb & Cb).
  assert (Hewp : 2 ^ 1 < 2 ^ ew) by (apply Z.pow_lt_mono_r; lia).
  rewrite Ea, Eb. set (P := 2 ^ mw) in *. clearbody P. clear Ea Eb.
  destruct Ca as [(->&->&->)|[(->&->&->)|[(pa&->&->&?&?)|(pa&->&?&?)]]],
    Cb as [(->&->&->)|[(->&->&->)|[(pb&->&->&?&?)|(pb&->&?&?)]]];
    cbn [SFcompare]; change Pos.compare_cont with Pos.compare_cont;
    f_equal; destruct (fsign a), (fsign b).
  all: repeat match goal with
    | |- context [(?x =? 0) && (?y =? 0)] =>
        destruct (Z.eqb_spec x 0), (Z.eqb_spec y 0); cbn [andb]
    | |- context [Pos.compare_cont Eq ?p ?q] =>
        change (Pos.compare_cont Eq p q) with (Zpos p ?= Zpos q)
    | |- context [match ?x ?= ?y with _ => _ end] =>
        destruct (Z.compare_spec x y)
    | |- CompOpp (?x ?= ?y) = _ => rewrite <- (Z.compare_antisym x y)
    | |- (?x ?= ?y) = (?z ?= ?w) =>
        destruct (Z.compare_spec x y)
    end; try reflexivity; try nia;
    symmetry;
    first [apply Z.compare_eq_iff; nia|apply Z.compare_lt_iff; nia|apply Z.compare_gt_iff; nia].
Qed.

(** The IEEE order as an order of integers: both zeros are [0]. *)
Definition fval (bits : Z) : Z := if fsign bits then - fmag bits else fmag bits.

Lemma fcompare_nan a b : fis_nan a = true \/ fis_nan b = true -> fcompare a b = None.
Proof.
  unfold fis_nan, fcompare. intros [H|H].
  - by destruct (fdecode a).
  - destruct (fdecode b); try done. by destruct (fdecode a).
Qed.

Lemma fcompare_val a b :
  fis_nan a = false -> fis_nan b = false -> fcompare a b = Some (fval a ?= fval b).
Proof.
  intros Ha Hb. rewrite fcompare_sign_mag by done. f_equal. unfold fval.
  pose proof (Z.mod_pos_bound a half half_pos). pose proof (Z.mod_pos_bound b half half_pos).
  fold (fmag a) (fmag b) in *.
  destruct (fsign a), (fsign b); try done.
  - by rewrite Z.compare_opp.
  - destruct (Z.eqb_spec (fmag a) 0), (Z.eqb_spec (fmag b) 0); cbn [andb]; symmetry;
      first [apply Z.compare_eq_iff; lia|apply Z.compare_lt_iff; lia].
  - destruct (Z.eqb_spec (fmag a) 0), (Z.eqb_spec (fmag b) 0); cbn [andb]; symmetry;
      first [apply Z.compare_eq_iff; lia|apply Z.compare_gt_iff; lia].
Qed.

Lemma fcompare_antisym a b : fcompare b a = CompOpp <$> fcompare a b.
Proof.
  destruct (fis_nan a) eqn:Ha; [by rewrite !fcompare_nan by auto|].
  destruct (fis_nan b) eqn:Hb; [by rewrite !fcompare_nan by auto|].
  rewrite !fcompare_val by done. cbn. by rewrite <- Z.compare_antisym.
Qed.

(** Strictly smaller floats get strictly smaller keys. *)
Lemma ordered_bits_lt a b :
  in_unsigned fwidth a -> in_unsigned fwidth b ->
  fcompare a b = Some Lt -> ordered_bits a < ordered_bits b.
Proof.
  intros Ha Hb Hlt.
  assert (Hna : fis_nan a = false).
  { unfold fis_nan, fcompare in *. destruct (fdecode a); done. }
  assert (Hnb : fis_nan b = false).
  { unfold fis_nan, fcompare in *. destruct (fdecode b); try done.
    destruct (fdecode a); done. }
  rewrite fcompare_sign_mag in Hlt by done. injection Hlt as Hlt.
  rewrite !ordered_bits_eq by done.
  unfold fsign, fmag, in_unsigned in *. rewrite fwidth_pow in *. pose proof half_pos.
  assert (Hm : forall x, 0 <= x < 2 * half ->
    x mod half = if half <=? x then x - half else x).
  { intros x Hx. destruct (Z.leb_spec half x); [|apply Z.mod_small; lia].
    symmetry. apply Z.mod_unique_pos with 1; lia. }
  rewrite !Hm in Hlt by lia. clear Hm. set (h := half) in *. clearbody h.
  destruct (Z.leb_spec h a), (Z.leb_spec h b), (Z.ltb_spec a h), (Z.ltb_spec b h);
    try lia; try (apply (proj1 (Z.compare_lt_iff _ _)) in Hlt; lia).
  by destruct ((a =? 0) && _).
Qed.

(** Equal keys come from the same bits: the transform loses nothing. *)
Lemma ordered_bits_inj a b :
  in_unsigned fwidth a -> in_unsigned fwidth b ->
  ordered_bits a = ordered_bits b -> a = b.
Proof.
  intros Ha Hb H. rewrite <- (unordered_ordered a), <- (unordered_ordered b) by done.
  by rewrite H.
Qed.
End Format.

(** ** The two formats of the source *)

Abbreviation f32_compare := (fcompare 23 8).
Abbreviation f64_compare := (fcompare 52 11).
Abbreviation f32_eqb := (feqb 23 8).
Abbreviation f64_eqb := (feqb 52 11).
Abbreviation f64_add := (fadd 52 11).
Abbreviation f64_div := (fdiv 52 11).
Abbreviation f32_of_Z := (fof_Z 23 8).
Abbreviation f64_of_Z := (fof_Z 52 11).

(** [v as f64] for an [f32]: exact, NaN staying NaN. *)
Definition f64_of_f32 (bits : Z) : Z :=
  fencode 52 11
    (match fdecode 23 8 bits with
     | S754_finite s m e => binary_normalize (fprec 52) (femax 11) (cond_Zopp s (Zpos m)) e s
     | x => x
     end).

Example f64_of_Z_3 : f64_of_Z 3 = 4613937818241073152.
Proof. vm_compute. reflexivity. Qed.
Example f64_add_1_2 : f64_add (f64_of_Z 1) (f64_of_Z 2) = f64_of_Z 3.
Proof. vm_compute. reflexivity. Qed.
Example f64_div_1_3 : f64_div (f64_of_Z 1) (f64_of_Z 3) = 4599676419421066581.
Proof. vm_compute. reflexivity. Qed.
Example f64_of_f32_half : f64_of_f32 1056964608 = 4602678819172646912.
Proof. vm_compute. reflexivity. Qed.
Example f64_of_f32_nan : fis_nan 52 11 (f64_of_f32 2143289344) = true.
Proof. vm_compute. reflexivity. Qed.
