(* ===== verification/Types.v ===== *)
(** * Column values, data types and table schemas

    The data of src/src/types: [ColumnValue] (column_value.rs), [DataType] and
    [MySqlIntKind] (data_type.rs), the schema structs (schema.rs) and [RowMap]
    (row.rs).  Machine integers are [Z], an [f32]/[f64] is the integer of its
    bits, a [String] is the [string] of its bytes; [wf_value] states the ranges
    a Rust value satisfies by construction. *)

From S2P Require Import Prelude Float.

(** ** Column values *)

Inductive ColumnValue : Type :=
  | Null
  | Int16 (v : Z)
  | Int32 (v : Z)
  | Int64 (v : Z)
  | Float32 (bits : Z)
  | Float64 (bits : Z)
  | Numeric (v : string)
  | Text (v : string)
  | Boolean (v : bool)
  | Date (v : string)
  | Timestamp (v : string)
  | TimestampTz (v : string)
  | Uuid (v : string)
  | Bytea (v : list byte)
  | Json (v : string)
  | Jsonb (v : string)
  | Array (values : list ColumnValue).

(** [ColumnValue::is_null]. *)
Definition is_null (v : ColumnValue) : bool :=
  match v with Null => true | _ => false end.

(** Induction through the nested list of [Array]. *)
Section ColumnValueInduction.
Context (P : ColumnValue -> Prop).
Hypothesis Harray : forall vs, Forall P vs -> P (Array vs).
Hypothesis Hother : forall v, (forall vs, v <> Array vs) -> P v.

Fixpoint ColumnValue_nested_ind (v : ColumnValue) : P v.
Proof.
  destruct v; try (apply Hother; intros ?; discriminate).
  apply Harray. induction values as [|v vs IH]; constructor; [|exact IH].
  apply ColumnValue_nested_ind.
Defined.
End ColumnValueInduction.

(** What a value of the Rust type satisfies: integers and bit patterns in
    range, strings valid UTF-8, and the lengths the encoders write as [u32]
    below [2^32]. *)
Definition wf_bytes (l : list byte) : Prop := len l < 2 ^ 32.
Definition wf_text (s : string) : Prop := wf_string s /\ wf_bytes (as_bytes s).

Fixpoint wf_value (v : ColumnValue) : Prop :=
  match v with
  | Null | Boolean _ => True
  | Int16 v => in_signed 16 v
  | Int32 v => in_signed 32 v
  | Int64 v => in_signed 64 v
  | Float32 b => in_unsigned 32 b
  | Float64 b => in_unsigned 64 b
  | Numeric s | Text s | Date s | Timestamp s | TimestampTz s | Uuid s
  | Json s | Jsonb s => wf_text s
  | Bytea l => wf_bytes l
  | Array vs => len vs < 2 ^ 32 /\ foldr (fun v acc => wf_value v /\ acc) True vs
  end.

Lemma wf_array vs : wf_value (Array vs) <-> len vs < 2 ^ 32 /\ Forall wf_value vs.
Proof.
  cbn. enough (foldr (fun v acc => wf_value v /\ acc) True vs <-> Forall wf_value vs)
    by tauto.
  induction vs as [|v vs IH]; cbn; [by split|]. rewrite Forall_cons, IH. done.
Qed.

(** Nesting depth, the fuel the recursive decoders need. *)
Fixpoint value_depth (v : ColumnValue) : nat :=
  match v with
  | Array vs => S (foldr (fun v acc => Nat.max (value_depth v) acc) O vs)
  | _ => O
  end.

Lemma value_depth_array vs v :
  v ∈ vs -> (value_depth v < value_depth (Array vs))%nat.
Proof. cbn. induction 1; cbn in *; lia. Qed.

(** ** Data types *)

Inductive MySqlIntKind : Type := Tiny | Small | Medium | KInt | Big.

#[export] Instance MySqlIntKind_eq_dec : EqDecision MySqlIntKind.
Proof. solve_decision. Defined.

Module DT.
Inductive DataType : Type :=
  | Int16
  | Int32
  | Int64
  | MySqlInt (kind : MySqlIntKind) (unsigned : bool)
  | Float32
  | Float64
  | MySqlFloat (precision : option Z)
  | MySqlDouble (precision : option Z)
  | Numeric (precision scale : option Z)
  | Text
  | MySqlText (max_len : option Z) (type_name : string)
  | VarChar (n : option Z)
  | Char (n : option Z)
  | Binary (n : option Z)
  | VarBinary (n : option Z)
  | Blob (max_len : option Z) (type_name : string)
  | Boolean
  | Bit (n : option Z)
  | Year
  | Date
  | Time
  | MySqlTime (fsp : option Z)
  | TimeTz
  | Interval
  | Timestamp
  | MySqlDateTime (fsp : option Z)
  | MySqlTimestamp (fsp : option Z)
  | TimestampTz
  | Uuid
  | Bytea
  | Json
  | Jsonb
  | Array (inner : DataType)
  | Domain (name : string)
  | Enum (values : list string)
  | Set_ (values : list string)
  | Geometry (name : string).
End DT.
Abbreviation DataType := DT.DataType.

#[export] Instance DataType_eq_dec : EqDecision DataType.
Proof. solve_decision. Defined.

(** ** Schemas *)

Record ColumnSchema : Type := {
  column_id : Z;
  col_name : string;
  data_type : DataType;
  primary_key_col : bool;
  nullable : bool;
  col_default : option string;
  on_update : option string;
  character_set : option string;
  collation : option string;
}.

Record CheckConstraintSchema : Type := { check_name : string; check_expr : string }.

Record UniqueConstraintSchema : Type := {
  uniq_name : string;
  uniq_columns : list string;
  uniq_primary_key : bool;
}.

Record ForeignKeyConstraintSchema : Type := {
  fk_name : string;
  fk_columns : list string;
  foreign_table : string;
  referred_columns : list string;
}.

Record TableSchema : Type := {
  table_name : string;
  table_id : Z;
  schema_version : Z;
  table_epoch : Z;
  primary_key : string;
  check_constraints : list CheckConstraintSchema;
  unique_constraints : list UniqueConstraintSchema;
  foreign_keys : list ForeignKeyConstraintSchema;
  columns : list ColumnSchema;
}.

(** [HashMap<String, ColumnValue>]. *)
Abbreviation RowMap := (gmap string ColumnValue).

(** [row.get(name).cloned().unwrap_or(ColumnValue::Null)]. *)
Definition row_get (row : RowMap) (name : string) : ColumnValue :=
  default Null (row !! name).

(** [apply_assignments]. *)
Definition apply_assignments (row : RowMap) (assignments : list (string * ColumnValue))
    : RowMap :=
  foldl (fun row a => <[a.1 := a.2]> row) row assignments.

Definition set_column_id (c : ColumnSchema) (id : Z) : ColumnSchema :=
  {| column_id := id; col_name := col_name c; data_type := data_type c;
     primary_key_col := primary_key_col c; nullable := nullable c;
     col_default := col_default c; on_update := on_update c;
     character_set := character_set c; collation := collation c |}.

Definition set_columns (s : TableSchema) (cols : list ColumnSchema) : TableSchema :=
  {| table_name := table_name s; table_id := table_id s;
     schema_version := schema_version s; table_epoch := table_epoch s;
     primary_key := primary_key s; check_constraints := check_constraints s;
     unique_constraints := unique_constraints s; foreign_keys := foreign_keys s;
     columns := cols |}.

(** [TableSchema::normalize_descriptor]; [idx as u32 + 1] wraps in the cast only. *)
Definition normalize_descriptor (s : TableSchema) : TableSchema :=
  {| table_name := table_name s; table_id := table_id s;
     schema_version := if schema_version s =? 0 then 1 else schema_version s;
     table_epoch := if table_epoch s =? 0 then 1 else table_epoch s;
     primary_key := primary_key s; check_constraints := check_constraints s;
     unique_constraints := unique_constraints s; foreign_keys := foreign_keys s;
     columns :=
       imap (fun idx c =>
         if column_id c =? 0 then set_column_id c (Z.of_nat idx mod 2 ^ 32 + 1) else c)
         (columns s) |}.

(** [TableSchema::pk_data_type], with [INTERNAL_ROWID_TYPE]. *)
Definition pk_data_type (s : TableSchema) : DataType :=
  match List.find primary_key_col (columns s) with
  | Some c => data_type c
  | None => DT.Int64
  end.

(** [TableSchema::find_column], [find_column_by_id], [column_names],
    [has_user_primary_key]. *)
Definition find_column (s : TableSchema) (name : string) : option ColumnSchema :=
  List.find (fun c => bool_decide (col_name c = name)) (columns s).
Definition find_column_by_id (s : TableSchema) (id : Z) : option ColumnSchema :=
  List.find (fun c => column_id c =? id) (columns s).
Definition column_names (s : TableSchema) : list string := map col_name (columns s).
Definition has_user_primary_key (s : TableSchema) : bool :=
  existsb primary_key_col (columns s).

(** Header fields within their widths. *)
Definition wf_schema (s : TableSchema) : Prop :=
  in_unsigned 32 (table_id s) /\ in_unsigned 32 (schema_version s) /\
  in_unsigned 64 (table_epoch s) /\ len (columns s) < 2 ^ 32 /\
  Forall (fun c => in_unsigned 32 (column_id c)) (columns s).

(** Column names and identifiers are unique. *)
Definition schema_unique (s : TableSchema) : Prop :=
  NoDup (map col_name (columns s)) /\ NoDup (map column_id (columns s)).

Lemma apply_assignments_lookup row assignments name :
  apply_assignments row assignments !! name =
    match List.find (fun a => bool_decide (a.1 = name)) (rev assignments) with
    | Some a => Some a.2
    | None => row !! name
    end.
Proof.
  unfold apply_assignments. revert row.
  induction assignments as [|[c v] r IH]; intros row; cbn; [done|].
  rewrite IH. clear IH.
  induction (rev r) as [|[c' v'] l IHl]; cbn.
  - case_bool_decide; [subst; by rewrite lookup_insert_eq|by rewrite lookup_insert_ne].
  - case_bool_decide; [done|exact IHl].
Qed.

Lemma find_column_name s name c : find_column s name = Some c -> col_name c = name.
Proof.
  unfold find_column. intros H. apply find_some in H as [_ H].
  by apply bool_decide_eq_true in H.
Qed.
