(* ===== verification/Cursor.v ===== *)
(** * The byte cursor

    [Cursor] of src/src/storage_layout/cursor.rs with the length-prefixed byte
    segments of src/src/storage_layout/tuple_codec.rs it reads.  A method that
    takes [&mut self] is a [reader]: it returns the new cursor with its result.
    [remaining] is the abstraction the lemmas use: what a reader returns depends
    on the unread bytes only. *)

From S2P Require Import Prelude Float Types.

Record Cursor : Type := MkCursor { bytes : list byte; pos : nat }.

Definition reader (A : Type) : Type := Cursor -> PgWireResult (A * Cursor).

#[export] Instance reader_ret : MRet reader := fun A a c => Ok (a, c).
#[export] Instance reader_bind : MBind reader := fun A B k m c =>
  match m c with
  | Ok (a, c') => k a c'
  | Err e => Err e
  | Panic => Panic
  | OutOfFuel => OutOfFuel
  end.
#[export] Instance reader_fmap : FMap reader := fun A B f m c =>
  match m c with
  | Ok (a, c') => Ok (f a, c')
  | Err e => Err e
  | Panic => Panic
  | OutOfFuel => OutOfFuel
  end.

Definition reader_error {A} (code message : string) : reader A :=
  fun _ => user_error code message.

(** Runs a computation that does not touch the cursor. *)
Definition lift {A} (m : PgWireResult A) : reader A := fun c =>
  a ← m; Ok (a, c).

Definition remaining (c : Cursor) : list byte := drop (pos c) (bytes c).
Definition advance (n : nat) (c : Cursor) : Cursor := MkCursor (bytes c) (pos c + n).

Module Cursor_.
(** [Cursor::new]. *)
Definition new (l : list byte) : Cursor := MkCursor l 0.

(** [Cursor::is_done]. *)
Definition is_done (c : Cursor) : bool := Nat.eqb (pos c) (length (bytes c)).

(** [Cursor::u8]. *)
Definition u8 : reader Z := fun c =>
  match bytes c !! pos c with
  | Some b => Ok (u8_to_Z b, advance 1 c)
  | None => user_error "XX000" "truncated u8"
  end.

(** The shared body of the fixed-width readers:
    [bytes[pos..pos + n]] as a big-endian integer. *)
Definition be_int (n : nat) (what : string) : reader Z := fun c =>
  if (length (bytes c) <? pos c + n)%nat then user_error "XX000" what
  else value ← sub_slice (bytes c) (pos c) (pos c + n); Ok (from_be value, advance n c).

Definition u32 : reader Z := be_int 4 "truncated u32".
Definition u64 : reader Z := be_int 8 "truncated u64".
Definition i16 : reader Z := to_signed 16 <$> be_int 2 "truncated i16".
Definition i32 : reader Z := to_signed 32 <$> be_int 4 "truncated i32".
Definition i64 : reader Z := to_signed 64 <$> be_int 8 "truncated i64".
Definition f32 : reader Z := be_int 4 "truncated f32".
Definition f64 : reader Z := be_int 8 "truncated f64".
End Cursor_.

(** [push_bytes_segment]: the bytes appended to the buffer. *)
Definition push_bytes_segment (l : list byte) : list byte := to_be 4 (len l) ++ l.

(** [read_bytes_segment]. *)
Definition read_bytes_segment (l : list byte) : PgWireResult (list byte * nat) :=
  if (length l <? 4)%nat then user_error "XX000" "truncated bytes segment length"
  else
    prefix ← sub_slice l 0 4;
    let n := from_be prefix in
    if len l <? 4 + n then user_error "XX000" "truncated bytes segment"
    else segment ← sub_slice l 4 (4 + Z.to_nat n); Ok (segment, (4 + Z.to_nat n)%nat).

(** [&self.bytes[self.pos..]]. *)
Definition rest_of (c : Cursor) : PgWireResult (list byte) := slice_from (bytes c) (pos c).

(** [Cursor::bytes_segment], [Cursor::skip], [Cursor::skip_bytes_segment]. *)
Definition bytes_segment : reader (list byte) := fun c =>
  rest ← rest_of c;
  '(l, consumed) ← read_bytes_segment rest;
  Ok (l, advance consumed c).

Definition skip (n : nat) : reader unit := fun c =>
  if (length (bytes c) <? pos c + n)%nat then user_error "XX000" "truncated tuple value"
  else Ok (tt, advance n c).

Definition skip_bytes_segment : reader unit := fun c =>
  rest ← rest_of c;
  '(_, consumed) ← read_bytes_segment rest;
  Ok (tt, advance consumed c).

(** ** The slices behind their length checks *)

Lemma be_int_eq (n : nat) (what : string) (c : Cursor) :
  Cursor_.be_int n what c =
    if (length (bytes c) <? pos c + n)%nat then user_error "XX000" what
    else Ok (from_be (slice (bytes c) (pos c) (pos c + n)), advance n c).
Proof.
  unfold Cursor_.be_int. destruct (Nat.ltb_spec (length (bytes c)) (pos c + n)); [done|].
  by rewrite sub_slice_ok by lia.
Qed.

Lemma read_bytes_segment_eq (l : list byte) :
  read_bytes_segment l =
    if (length l <? 4)%nat then user_error "XX000" "truncated bytes segment length"
    else
      let n := from_be (slice l 0 4) in
      if len l <? 4 + n then user_error "XX000" "truncated bytes segment"
      else Ok (slice l 4 (4 + Z.to_nat n), (4 + Z.to_nat n)%nat).
Proof.
  unfold read_bytes_segment. destruct (Nat.ltb_spec (length l) 4); [done|]. rewrite sub_slice_ok, bind_ok by lia.
  cbv zeta. pose proof (from_be_range (slice l 0 4)).
  destruct (Z.ltb_spec (len l) (4 + from_be (slice l 0 4))); [done|]. unfold len in *. by rewrite sub_slice_ok by lia.
Qed.

Lemma rest_of_ok (c : Cursor) : (pos c <= length (bytes c))%nat -> rest_of c = Ok (remaining c).
Proof. apply slice_from_ok. Qed.

(** ** Reading what was written *)

Lemma reader_bind_ok {A B} (m : reader A) (k : A -> reader B) c a c' :
  m c = Ok (a, c') -> (mbind k m : reader B) c = k a c'.
Proof. intros H. unfold mbind, reader_bind. by rewrite H. Qed.

Lemma remaining_advance n c : remaining (advance n c) = drop n (remaining c).
Proof. unfold remaining, advance; cbn. by rewrite drop_drop. Qed.

Lemma remaining_app_length c x r :
  remaining c = x ++ r -> x <> [] \/ (pos c <= length (bytes c))%nat ->
  (pos c + length x <= length (bytes c))%nat.
Proof.
  intros H Hne. apply (f_equal length) in H. unfold remaining in H.
  rewrite length_drop, length_app in H.
  destruct x; cbn in *; destruct Hne; try done; lia.
Qed.

Lemma advance_advance n m c : advance m (advance n c) = advance (n + m) c.
Proof. unfold advance; cbn. f_equal. lia. Qed.

Lemma slice_remaining c n r x :
  remaining c = x ++ r -> length x = n -> slice (bytes c) (pos c) (pos c + n) = x.
Proof.
  intros H <-. unfold slice. fold (remaining c). rewrite H.
  replace (pos c + length x - pos c)%nat with (length x) by lia. apply take_app_length.
Qed.

(** [reads m x a]: on a cursor whose unread bytes start with [x], [m] returns
    [a] and moves past [x]. *)
Definition reads {A} (m : reader A) (x : list byte) (a : A) : Prop :=
  forall c r, remaining c = x ++ r -> (pos c <= length (bytes c))%nat ->
    m c = Ok (a, advance (length x) c).

Lemma reads_ret {A} (a : A) : reads (mret a) [] a.
Proof. intros c r H _. unfold advance; cbn. rewrite Nat.add_0_r. by destruct c. Qed.

Lemma reads_bind {A B} (m : reader A) (k : A -> reader B) x y a b :
  reads m x a -> reads (k a) y b -> reads (mbind k m) (x ++ y) b.
Proof.
  intros Hm Hk c r H Hpos. rewrite <- app_assoc in H.
  rewrite (reader_bind_ok _ _ _ _ _ (Hm c _ H Hpos)).
  rewrite (Hk _ r).
  - by rewrite advance_advance, length_app.
  - rewrite remaining_advance, H. apply drop_app_length.
  - cbn. apply (remaining_app_length _ _ _ H). by right.
Qed.

Lemma reads_bind_end {A B} (m : reader A) (k : A -> reader B) x a b :
  reads m x a -> reads (k a) [] b -> reads (mbind k m) x b.
Proof. intros Hm Hk. rewrite <- (app_nil_r x). by eapply reads_bind. Qed.

Lemma reads_fmap {A B} (f : A -> B) (m : reader A) x a :
  reads m x a -> reads (f <$> m) x (f a).
Proof. intros Hm c r H Hpos. unfold fmap, reader_fmap. by rewrite (Hm c r H Hpos). Qed.

Lemma reads_lift {A} (m : PgWireResult A) a : m = Ok a -> reads (lift m) [] a.
Proof. intros -> c r H _. unfold lift, advance; cbn. rewrite Nat.add_0_r. by destruct c. Qed.

Lemma reads_be_int n what z :
  in_unsigned (8 * Z.of_nat n) z -> reads (Cursor_.be_int n what) (to_be n z) z.
Proof.
  intros Hz c r H Hpos. rewrite be_int_eq.
  pose proof (remaining_app_length _ _ _ H (or_intror Hpos)) as Hl.
  rewrite length_to_be in Hl.
  destruct (Nat.ltb_spec (length (bytes c)) (pos c + n)); [lia|].
  rewrite (slice_remaining _ _ _ _ H) by apply length_to_be.
  by rewrite from_be_to_be_small, length_to_be.
Qed.

Lemma reads_be_int_mod n what z :
  reads (Cursor_.be_int n what) (to_be n z) (z mod 2 ^ (8 * Z.of_nat n)).
Proof.
  rewrite <- to_be_mod. apply reads_be_int. apply Z.mod_pos_bound, Z.pow_pos_nonneg; lia.
Qed.

Lemma reads_u8 b : reads Cursor_.u8 [b] (u8_to_Z b).
Proof.
  intros c r H Hpos. unfold Cursor_.u8.
  assert (bytes c !! pos c = Some b) as ->; [|done].
  rewrite <- (Nat.add_0_r (pos c)), <- lookup_drop. fold (remaining c). by rewrite H.
Qed.

Lemma reads_u32 z : in_unsigned 32 z -> reads Cursor_.u32 (to_be 4 z) z.
Proof. apply (reads_be_int 4). Qed.
Lemma reads_u64 z : in_unsigned 64 z -> reads Cursor_.u64 (to_be 8 z) z.
Proof. apply (reads_be_int 8). Qed.
Lemma reads_f32 z : in_unsigned 32 z -> reads Cursor_.f32 (to_be 4 z) z.
Proof. apply (reads_be_int 4). Qed.
Lemma reads_f64 z : in_unsigned 64 z -> reads Cursor_.f64 (to_be 8 z) z.
Proof. apply (reads_be_int 8). Qed.

Lemma reads_signed n w what v :
  w = 8 * Z.of_nat n -> 0 < w -> in_signed w v ->
  reads (to_signed w <$> Cursor_.be_int n what) (to_be n v) v.
Proof.
  intros -> Hw Hv. erewrite <- (to_signed_small _ v) at 2 by done.
  rewrite <- to_signed_mod by done. apply reads_fmap, reads_be_int_mod.
Qed.

Lemma reads_i16 v : in_signed 16 v -> reads Cursor_.i16 (to_be 2 v) v.
Proof. by apply (reads_signed 2). Qed.
Lemma reads_i32 v : in_signed 32 v -> reads Cursor_.i32 (to_be 4 v) v.
Proof. by apply (reads_signed 4). Qed.
Lemma reads_i64 v : in_signed 64 v -> reads Cursor_.i64 (to_be 8 v) v.
Proof. by apply (reads_signed 8). Qed.

Lemma length_push_bytes_segment l : length (push_bytes_segment l) = (4 + length l)%nat.
Proof. unfold push_bytes_segment. by rewrite length_app, length_to_be. Qed.

Lemma read_push_bytes_segment l r :
  wf_bytes l ->
  read_bytes_segment (push_bytes_segment l ++ r) = Ok (l, (4 + length l)%nat).
Proof.
  unfold wf_bytes, len. intros Hl. rewrite read_bytes_segment_eq.
  assert (Hlen : length (push_bytes_segment l ++ r) = (4 + length l + length r)%nat)
    by (rewrite length_app, length_push_bytes_segment; done).
  assert (Hs : slice (push_bytes_segment l ++ r) 0 4 = to_be 4 (len l)).
  { unfold push_bytes_segment. rewrite <- app_assoc. apply (slice_app [] (to_be 4 (len l))). }
  unfold len at 1. rewrite Hs, Hlen.
  rewrite from_be_to_be_small by (unfold in_unsigned, len; cbn in *; lia).
  destruct (Nat.ltb_spec (4 + length l + length r) 4); [lia|]. unfold len.
  destruct (Z.ltb_spec (Z.of_nat (4 + length l + length r)) (4 + Z.of_nat (length l)));
    [lia|].
  rewrite Nat2Z.id. do 2 f_equal. unfold push_bytes_segment. rewrite <- app_assoc.
  apply (slice_app (to_be 4 (len l)) l r).
Qed.

Lemma reads_bytes_segment l : wf_bytes l -> reads bytes_segment (push_bytes_segment l) l.
Proof.
  intros Hl c r H Hpos. unfold bytes_segment. rewrite length_push_bytes_segment, rest_of_ok, bind_ok by done.
  by rewrite H, read_push_bytes_segment by done.
Qed.

Lemma reads_skip_bytes_segment l :
  wf_bytes l -> reads skip_bytes_segment (push_bytes_segment l) tt.
Proof.
  intros Hl c r H Hpos. unfold skip_bytes_segment. rewrite length_push_bytes_segment, rest_of_ok, bind_ok by done.
  by rewrite H, read_push_bytes_segment by done.
Qed.

Lemma reads_skip x : reads (skip (length x)) x tt.
Proof.
  intros c r H Hpos. unfold skip.
  pose proof (remaining_app_length _ _ _ H (or_intror Hpos)).
  by destruct (Nat.ltb_spec (length (bytes c)) (pos c + length x)); [lia|].
Qed.

(** Element-wise reading of a concatenation. *)
Lemma reads_repeat {A} (m : reader A) (enc : A -> list byte) (l : list A) :
  Forall (fun a => reads m (enc a) a) l ->
  reads (repeat_m (length l) m) (concat (map enc l)) l.
Proof.
  induction 1 as [|a l Ha _ IH]; cbn; [apply reads_ret|].
  eapply reads_bind; [exact Ha|]. eapply reads_bind_end; [exact IH|]. apply reads_ret.
Qed.

(** Reading a whole buffer leaves a cursor that [is_done]. *)
Lemma reads_all {A} (m : reader A) x a :
  reads m x a -> m (Cursor_.new x) = Ok (a, MkCursor x (length x)).
Proof.
  intros H. rewrite (H (Cursor_.new x) []); [done| |cbn; lia].
  unfold remaining; cbn. by rewrite app_nil_r.
Qed.

Lemma is_done_end x : Cursor_.is_done (MkCursor x (length x)) = true.
Proof. apply Nat.eqb_refl. Qed.

#[export] Hint Resolve reads_ret reads_u8 reads_u32 reads_u64 reads_f32 reads_f64
  reads_i16 reads_i32 reads_i64 reads_bytes_segment reads_skip_bytes_segment : uni.

(** ** Every reader settles and stays inside the buffer *)

(** [confined_from b p m]: on a cursor over [b] at or after [p], [m] neither
    panics nor runs out of fuel, and on success it moved forward inside [b]. *)
Definition confined_from {A} (b : list byte) (p : nat) (m : reader A) : Prop :=
  forall c, bytes c = b -> (p <= pos c <= length b)%nat ->
    match m c with
    | Ok (_, c') => bytes c' = b /\ (pos c <= pos c' <= length b)%nat
    | Err _ => True
    | Panic | OutOfFuel => False
    end.

Definition confined {A} (m : reader A) : Prop := forall b p, confined_from b p m.

Lemma confined_confined_from {A} b p (m : reader A) : confined m -> confined_from b p m.
Proof. auto. Qed.

Lemma confined_from_bind {A B} b p (m : reader A) (k : A -> reader B) :
  confined_from b p m -> (forall a, confined_from b p (k a)) -> confined_from b p (mbind k m).
Proof.
  intros Hm Hk c Hb Hc. unfold mbind, reader_bind. specialize (Hm c Hb Hc).
  destruct (m c) as [[a c']| | |]; try done. destruct Hm as [Hb' Hp].
  specialize (Hk a c' Hb' ltac:(lia)).
  destruct (k a c') as [[b' c'']| | |]; try done. split; [tauto|lia].
Qed.

Lemma confined_ret {A} (a : A) : confined (mret a).
Proof. intros b p c Hb Hc. cbn. auto with lia. Qed.

Lemma confined_from_repeat {A} b p (m : reader A) n :
  confined_from b p m -> confined_from b p (repeat_m n m).
Proof.
  intros Hm. induction n; cbn; [apply confined_ret|].
  apply confined_from_bind; [done|]. intros a. apply confined_from_bind; [done|].
  intros l. apply confined_ret.
Qed.

Lemma confined_error {A} code msg : confined (reader_error (A:=A) code msg).
Proof. intros b p c Hb Hc. done. Qed.

Lemma confined_bind {A B} (m : reader A) (k : A -> reader B) :
  confined m -> (forall a, confined (k a)) -> confined (mbind k m).
Proof. intros Hm Hk b p. apply confined_from_bind; [apply Hm|]. intros a. apply Hk. Qed.

Lemma confined_repeat {A} (m : reader A) n : confined m -> confined (repeat_m n m).
Proof. intros Hm b p. apply confined_from_repeat, Hm. Qed.

Lemma confined_fmap {A B} (f : A -> B) (m : reader A) : confined m -> confined (f <$> m).
Proof.
  intros Hm b p c Hb Hc. unfold fmap, reader_fmap. specialize (Hm b p c Hb Hc).
  by destruct (m c) as [[a c']| | |].
Qed.

Lemma confined_from_fmap {A B} b p (f : A -> B) (m : reader A) :
  confined_from b p m -> confined_from b p (f <$> m).
Proof.
  intros Hm c Hb Hc. unfold fmap, reader_fmap. specialize (Hm c Hb Hc).
  by destruct (m c) as [[a c']| | |].
Qed.

Lemma confined_lift {A} (m : PgWireResult A) : settles m -> confined (lift m).
Proof.
  intros Hm b p c Hb Hc. unfold lift. destruct m; cbn in *; try done. auto with lia.
Qed.

Lemma confined_u8 : confined Cursor_.u8.
Proof.
  intros b p c Hb Hc. unfold Cursor_.u8. destruct (bytes c !! pos c) eqn:E; [|done].
  apply lookup_lt_Some in E. cbn. subst. auto with lia.
Qed.

Lemma confined_be_int n what : confined (Cursor_.be_int n what).
Proof.
  intros b p c Hb Hc. rewrite be_int_eq. subst.
  destruct (Nat.ltb_spec (length (bytes c)) (pos c + n)); cbn; auto with lia.
Qed.

Lemma read_bytes_segment_bound l x n :
  read_bytes_segment l = Ok (x, n) -> (n <= length l)%nat.
Proof.
  rewrite read_bytes_segment_eq. cbv zeta. destruct (_ <? 4)%nat; [discriminate|].
  destruct (Z.ltb_spec (len l) (4 + from_be (slice l 0 4))); [discriminate|].
  intros [= <- <-]. unfold len in *.
  pose proof (from_be_range (slice l 0 4)). lia.
Qed.

Lemma read_bytes_segment_settles l : settles (read_bytes_segment l).
Proof. rewrite read_bytes_segment_eq. cbv zeta. by repeat case_match. Qed.

Lemma confined_bytes_segment : confined bytes_segment.
Proof.
  intros b p c Hb Hc. unfold bytes_segment. subst. rewrite rest_of_ok, bind_ok by lia.
  pose proof (read_bytes_segment_settles (remaining c)).
  destruct (read_bytes_segment (remaining c)) as [[x n]| | |] eqn:E; try done.
  apply read_bytes_segment_bound in E. unfold remaining in E. rewrite length_drop in E.
  cbn. auto with lia.
Qed.

Lemma confined_skip_bytes_segment : confined skip_bytes_segment.
Proof.
  intros b p c Hb Hc. unfold skip_bytes_segment. subst. rewrite rest_of_ok, bind_ok by lia.
  pose proof (read_bytes_segment_settles (remaining c)).
  destruct (read_bytes_segment (remaining c)) as [[x n]| | |] eqn:E; try done.
  apply read_bytes_segment_bound in E. unfold remaining in E. rewrite length_drop in E.
  cbn. auto with lia.
Qed.

Lemma confined_skip n : confined (skip n).
Proof.
  intros b p c Hb Hc. unfold skip. subst.
  destruct (Nat.ltb_spec (length (bytes c)) (pos c + n)); cbn; auto with lia.
Qed.

Lemma confined_u32 : confined Cursor_.u32. Proof. apply confined_be_int. Qed.
Lemma confined_u64 : confined Cursor_.u64. Proof. apply confined_be_int. Qed.
Lemma confined_f32 : confined Cursor_.f32. Proof. apply confined_be_int. Qed.
Lemma confined_f64 : confined Cursor_.f64. Proof. apply confined_be_int. Qed.
Lemma confined_i16 : confined Cursor_.i16. Proof. apply confined_fmap, confined_be_int. Qed.
Lemma confined_i32 : confined Cursor_.i32. Proof. apply confined_fmap, confined_be_int. Qed.
Lemma confined_i64 : confined Cursor_.i64. Proof. apply confined_fmap, confined_be_int. Qed.

#[export] Hint Resolve confined_ret confined_error confined_bind confined_fmap confined_lift
  confined_u8 confined_be_int confined_bytes_segment confined_skip_bytes_segment
  confined_skip confined_repeat confined_u32 confined_u64 confined_f32 confined_f64
  confined_i16 confined_i32 confined_i64 : uni.

(** ** Success fixes the bytes read

    [m c = Ok (a, c')] moved [c] forward by what it consumed. *)
Lemma u8_inv c z c' :
  Cursor_.u8 c = Ok (z, c') ->
  exists b, bytes c !! pos c = Some b /\ z = u8_to_Z b /\ c' = advance 1 c.
Proof.
  unfold Cursor_.u8. destruct (bytes c !! pos c) as [b|]; [|discriminate].
  intros [= <- <-]. eauto.
Qed.

Lemma reader_bind_inv {A B} (m : reader A) (k : A -> reader B) c b c'' :
  (mbind k m : reader B) c = Ok (b, c'') ->
  exists a c', m c = Ok (a, c') /\ k a c' = Ok (b, c'').
Proof.
  unfold mbind, reader_bind. destruct (m c) as [[a c']| | |]; try discriminate. eauto.
Qed.
