(* ===== verification/TupleCodec.v ===== *)
(** * Tuple values

    src/src/storage_layout/tuple_codec.rs: the self-describing encoding of a
    [ColumnValue] (a tag byte and a payload), the fixed-width encoding used in
    the fixed region of a row, zone maps, and [next_prefix]. *)

From S2P Require Import Prelude Float Types Cursor.

(** ** Tagged values *)

Definition u8_of_bool (b : bool) : byte := if b then x01 else x00.

(** [encode_tuple_value]: the bytes appended to the buffer. *)
Fixpoint encode_tuple_value (value : ColumnValue) : list byte :=
  match value with
  | Null => [x00]
  | Boolean v => [x01; u8_of_bool v]
  | Int16 v => x10 :: to_be 2 v
  | Int32 v => x02 :: to_be 4 v
  | Int64 v => x03 :: to_be 8 v
  | Text v => x04 :: push_bytes_segment (as_bytes v)
  | Float32 v => x05 :: to_be 4 v
  | Float64 v => x06 :: to_be 8 v
  | Bytea v => x07 :: push_bytes_segment v
  | Array values => x08 :: to_be 4 (len values) ++ concat (map encode_tuple_value values)
  | Numeric v => x09 :: push_bytes_segment (as_bytes v)
  | Date v => x0a :: push_bytes_segment (as_bytes v)
  | Timestamp v => x0b :: push_bytes_segment (as_bytes v)
  | TimestampTz v => x0c :: push_bytes_segment (as_bytes v)
  | Uuid v => x0d :: push_bytes_segment (as_bytes v)
  | Json v => x0e :: push_bytes_segment (as_bytes v)
  | Jsonb v => x0f :: push_bytes_segment (as_bytes v)
  end.

(** [decode_tuple_string]; the [Utf8Error] detail of the message is left out. *)
Definition decode_tuple_string : reader string :=
  l ← bytes_segment;
  lift (ok_or (PgError "XX000" "invalid UTF-8 in tuple") (from_utf8 l)).

(** [decode_tuple_value], one unit of fuel per nesting level. *)
Fixpoint decode_tuple_value_fuel (fuel : nat) : reader ColumnValue :=
  match fuel with
  | O => fun _ => OutOfFuel
  | S fuel =>
    tag ← Cursor_.u8;
    match tag with
    | 0 => mret Null
    | 1 => b ← Cursor_.u8; mret (Boolean (negb (b =? 0)))
    | 16 => Int16 <$> Cursor_.i16
    | 2 => Int32 <$> Cursor_.i32
    | 3 => Int64 <$> Cursor_.i64
    | 4 => Text <$> decode_tuple_string
    | 5 => Float32 <$> Cursor_.f32
    | 6 => Float64 <$> Cursor_.f64
    | 7 => Bytea <$> bytes_segment
    | 8 =>
        count ← Cursor_.u32;
        values ← repeat_m (Z.to_nat count) (decode_tuple_value_fuel fuel);
        mret (Array values)
    | 9 => Numeric <$> decode_tuple_string
    | 10 => Date <$> decode_tuple_string
    | 11 => Timestamp <$> decode_tuple_string
    | 12 => TimestampTz <$> decode_tuple_string
    | 13 => Uuid <$> decode_tuple_string
    | 14 => Json <$> decode_tuple_string
    | 15 => Jsonb <$> decode_tuple_string
    | _ => reader_error "XX000" "unknown tuple value tag"
    end
  end.

(** Every level reads a tag byte, so the unread length bounds the nesting. *)
Definition decode_tuple_value : reader ColumnValue := fun c =>
  decode_tuple_value_fuel (S (length (remaining c))) c.

(** [skip_tuple_value]. *)
Fixpoint skip_tuple_value_fuel (fuel : nat) : reader unit :=
  match fuel with
  | O => fun _ => OutOfFuel
  | S fuel =>
    tag ← Cursor_.u8;
    match tag with
    | 0 => mret tt
    | 1 => skip 1
    | 16 => skip 2
    | 2 => skip 4
    | 3 => skip 8
    | 4 | 7 | 9 | 10 | 11 | 12 | 13 | 14 | 15 => skip_bytes_segment
    | 5 => skip 4
    | 6 => skip 8
    | 8 =>
        count ← Cursor_.u32;
        _ ← repeat_m (Z.to_nat count) (skip_tuple_value_fuel fuel);
        mret tt
    | _ => reader_error "XX000" "unknown tuple value tag"
    end
  end.

Definition skip_tuple_value : reader unit := fun c =>
  skip_tuple_value_fuel (S (length (remaining c))) c.

(** [FastNumericValue] of src/src/storage_layout/row_codec.rs. *)
Inductive FastNumericValue : Type :=
  | FNull
  | I64 (v : Z)
  | F64 (bits : Z).

(** [decode_tuple_numeric_value]. *)
Definition decode_tuple_numeric_value : reader FastNumericValue :=
  tag ← Cursor_.u8;
  match tag with
  | 0 => mret FNull
  | 16 => I64 <$> Cursor_.i16
  | 2 => I64 <$> Cursor_.i32
  | 3 => I64 <$> Cursor_.i64
  | 5 => (fun b => F64 (f64_of_f32 b)) <$> Cursor_.f32
  | 6 => F64 <$> Cursor_.f64
  | _ => reader_error "XX000" "tuple value is not numeric"
  end.

(** ** Fixed-width values *)

(** [fixed_width]: the first arm that matches, in the source's order. *)
Definition fixed_width (t : DataType) : option nat :=
  match t with
  | DT.Boolean => Some 1%nat
  | DT.Int16 => Some 2%nat
  | DT.MySqlInt (Tiny | Small) false => Some 2%nat
  | DT.Int32 => Some 4%nat
  | DT.MySqlInt KInt true => Some 8%nat
  | DT.MySqlInt (Tiny | Small | Medium) _ => Some 4%nat
  | DT.Int64 => Some 8%nat
  | DT.MySqlInt Big false => Some 8%nat
  | DT.MySqlInt Big true => None
  | DT.Year => Some 4%nat
  | DT.Bit _ => Some 8%nat
  | DT.Float32 => Some 4%nat
  | DT.MySqlFloat _ => Some 4%nat
  | DT.Float64 => Some 8%nat
  | DT.MySqlDouble _ => Some 8%nat
  | _ => None
  end.

(** The [map] of [fixed_offsets_for_columns], its captured [offset] threaded. *)
Fixpoint fixed_offsets_from (offset : nat) (cols : list ColumnSchema) : list (option nat) :=
  match cols with
  | [] => []
  | c :: r =>
      match fixed_width (data_type c) with
      | Some width => Some offset :: fixed_offsets_from (offset + width) r
      | None => None :: fixed_offsets_from offset r
      end
  end.

Definition fixed_offsets_for_columns (cols : list ColumnSchema) : list (option nat) :=
  fixed_offsets_from 0 cols.
Definition fixed_offsets (s : TableSchema) : list (option nat) :=
  fixed_offsets_for_columns (columns s).

(** [variable_positions_for_columns], its captured [position] threaded. *)
Fixpoint variable_positions_from (position : nat) (cols : list ColumnSchema)
    : list (option nat) :=
  match cols with
  | [] => []
  | c :: r =>
      match fixed_width (data_type c) with
      | Some _ => None :: variable_positions_from position r
      | None => Some position :: variable_positions_from (S position) r
      end
  end.

Definition variable_positions_for_columns (cols : list ColumnSchema) : list (option nat) :=
  variable_positions_from 0 cols.

(** [encode_fixed_value]: the new contents of [dst]; a value whose width is not
    [dst.len()], or that has no fixed form, leaves [dst] as it was. *)
Definition encode_fixed_value (dst : list byte) (value : ColumnValue) : list byte :=
  match value with
  | Boolean v => if (length dst =? 1)%nat then [u8_of_bool v] else dst
  | Int16 v => if (length dst =? 2)%nat then to_be 2 v else dst
  | Int32 v => if (length dst =? 4)%nat then to_be 4 v else dst
  | Int64 v => if (length dst =? 8)%nat then to_be 8 v else dst
  | Float32 v => if (length dst =? 4)%nat then to_be 4 v else dst
  | Float64 v => if (length dst =? 8)%nat then to_be 8 v else dst
  | _ => dst
  end.

Definition i16_from_be (l : list byte) : Z := to_signed 16 (from_be l).
Definition i32_from_be (l : list byte) : Z := to_signed 32 (from_be l).
Definition i64_from_be (l : list byte) : Z := to_signed 64 (from_be l).

(** [decode_mysql_fixed_int]. *)
Definition decode_mysql_fixed_int (kind : MySqlIntKind) (unsigned : bool) (l : list byte)
    : PgWireResult ColumnValue :=
  match kind, unsigned, length l with
  | Tiny, false, 2%nat | Small, false, 2%nat => Ok (Int16 (i16_from_be l))
  | Tiny, true, 4%nat | Small, true, 4%nat | Medium, _, 4%nat | KInt, false, 4%nat =>
      Ok (Int32 (i32_from_be l))
  | KInt, true, 8%nat | Big, false, 8%nat => Ok (Int64 (i64_from_be l))
  | _, _, _ => user_error "XX000" "fixed MySQL integer type/width mismatch"
  end.

(** [decode_fixed_value]. *)
Definition decode_fixed_value (t : DataType) (l : list byte) : PgWireResult ColumnValue :=
  let mismatch := user_error "XX000" "fixed value type/width mismatch" in
  match t with
  | DT.Boolean =>
      match l with [b] => Ok (Boolean (negb (u8_to_Z b =? 0))) | _ => mismatch end
  | DT.MySqlInt kind unsigned => decode_mysql_fixed_int kind unsigned l
  | DT.Bit _ => if (length l =? 8)%nat then Ok (Int64 (i64_from_be l)) else mismatch
  | DT.Year => if (length l =? 4)%nat then Ok (Int32 (i32_from_be l)) else mismatch
  | DT.Int16 => if (length l =? 2)%nat then Ok (Int16 (i16_from_be l)) else mismatch
  | DT.Int32 => if (length l =? 4)%nat then Ok (Int32 (i32_from_be l)) else mismatch
  | DT.Int64 => if (length l =? 8)%nat then Ok (Int64 (i64_from_be l)) else mismatch
  | DT.Float32 | DT.MySqlFloat _ =>
      if (length l =? 4)%nat then Ok (Float32 (from_be l)) else mismatch
  | DT.Float64 | DT.MySqlDouble _ =>
      if (length l =? 8)%nat then Ok (Float64 (from_be l)) else mismatch
  | _ => mismatch
  end.

(** [decode_fixed_numeric_value]. *)
Definition decode_fixed_numeric_value (t : DataType) (l : list byte)
    : PgWireResult FastNumericValue :=
  let mismatch := user_error "XX000" "fixed numeric type/width mismatch" in
  match t with
  | DT.MySqlInt kind unsigned =>
      value ← decode_mysql_fixed_int kind unsigned l;
      match value with
      | Int16 v | Int32 v | Int64 v => Ok (I64 v)
      | _ => mismatch
      end
  | DT.Bit _ => if (length l =? 8)%nat then Ok (I64 (i64_from_be l)) else mismatch
  | DT.Year => if (length l =? 4)%nat then Ok (I64 (i32_from_be l)) else mismatch
  | DT.Int16 => if (length l =? 2)%nat then Ok (I64 (i16_from_be l)) else mismatch
  | DT.Int32 => if (length l =? 4)%nat then Ok (I64 (i32_from_be l)) else mismatch
  | DT.Int64 => if (length l =? 8)%nat then Ok (I64 (i64_from_be l)) else mismatch
  | DT.Float32 | DT.MySqlFloat _ =>
      if (length l =? 4)%nat then Ok (F64 (f64_of_f32 (from_be l))) else mismatch
  | DT.Float64 | DT.MySqlDouble _ =>
      if (length l =? 8)%nat then Ok (F64 (from_be l)) else mismatch
  | _ => mismatch
  end.

(** The [as i64]/[as f64] view of a value the numeric fast path stands for. *)
Definition fast_numeric_of (v : ColumnValue) : option FastNumericValue :=
  match v with
  | Null => Some FNull
  | Int16 v | Int32 v | Int64 v => Some (I64 v)
  | Float32 b => Some (F64 (f64_of_f32 b))
  | Float64 b => Some (F64 b)
  | _ => None
  end.

(** ** Order-preserving floats *)

Definition encode_ordered_f32 (value : Z) : list byte := to_be 4 (ordered_bits 23 8 value).
Definition decode_ordered_f32 (l : list byte) : Z := unordered_bits 23 8 (from_be l).
Definition encode_ordered_f64 (value : Z) : list byte := to_be 8 (ordered_bits 52 11 value).
Definition decode_ordered_f64 (l : list byte) : Z := unordered_bits 52 11 (from_be l).

(** ** Zone maps *)

Record ColumnZoneMap : Type := {
  zone_column_id : Z;
  null_count : Z;
  zone_min : option ColumnValue;
  zone_max : option ColumnValue;
}.

Definition encode_zone_bound (o : option ColumnValue) : list byte :=
  match o with
  | Some value => x01 :: encode_tuple_value value
  | None => [x00]
  end.

Definition encode_zone_map (zone : ColumnZoneMap) : list byte :=
  to_be 4 (zone_column_id zone) ++ to_be 8 (null_count zone) ++
  encode_zone_bound (zone_min zone) ++ encode_zone_bound (zone_max zone).

(** [encode_zone_maps]: the bytes appended to the buffer. *)
Definition encode_zone_maps (zones : list ColumnZoneMap) : list byte :=
  to_be 4 (len zones) ++ concat (map encode_zone_map zones).

Definition decode_zone_bound (what : string) : reader (option ColumnValue) :=
  tag ← Cursor_.u8;
  match tag with
  | 0 => mret None
  | 1 => Some <$> decode_tuple_value
  | _ => reader_error "XX000" what
  end.

(** The loop body of [decode_zone_maps]. *)
Definition decode_zone_map : reader ColumnZoneMap :=
  column_id ← Cursor_.u32;
  null_count ← Cursor_.u64;
  min ← decode_zone_bound "unknown zone min tag";
  max ← decode_zone_bound "unknown zone max tag";
  mret {| zone_column_id := column_id; null_count := null_count;
          zone_min := min; zone_max := max |}.

Definition decode_zone_maps : reader (list ColumnZoneMap) :=
  count ← Cursor_.u32;
  repeat_m (Z.to_nat count) decode_zone_map.

(** ** [next_prefix] *)

(** The reverse loop: increment the last byte below [0xFF] and cut after it. *)
Fixpoint next_prefix_rev (l : list byte) : option (list byte) :=
  match l with
  | [] => None
  | b :: r => if u8_to_Z b =? 255 then next_prefix_rev r
              else Some (rev (u8_of_Z (u8_to_Z b + 1) :: r))
  end.

Definition next_prefix (prefix : list byte) : option (list byte) :=
  next_prefix_rev (rev prefix).

(** ** Lemmas *)

Lemma reads_tag {A} (b : byte) (k : Z -> reader A) x a :
  reads (k (u8_to_Z b)) x a -> reads (z ← Cursor_.u8; k z) (b :: x) a.
Proof. intros H. apply (reads_bind _ _ [b] x _ _ (reads_u8 b) H). Qed.

(** Evaluates the tag test that follows a [reads_tag]. *)
Ltac eval_tag :=
  apply reads_tag;
  match goal with
  | |- context [u8_to_Z ?b] =>
      let z := eval vm_compute in (u8_to_Z b) in change (u8_to_Z b) with z; cbv iota beta
  end.

Lemma reads_decode_tuple_string s :
  wf_text s -> reads decode_tuple_string (push_bytes_segment (as_bytes s)) s.
Proof.
  intros [Hu Hl]. unfold decode_tuple_string.
  eapply reads_bind_end; [by apply reads_bytes_segment|].
  apply reads_lift. by rewrite from_utf8_as_bytes.
Qed.

Lemma in_unsigned_len {A} (l : list A) : len l < 2 ^ 32 -> in_unsigned 32 (len l).
Proof. unfold in_unsigned, len. lia. Qed.

#[export] Hint Resolve reads_decode_tuple_string reads_fmap in_unsigned_len : uni.

(** The tuple decoder reads back an encoded value, given fuel for its depth. *)
Lemma reads_tuple_fuel v : forall fuel,
  wf_value v -> (value_depth v < fuel)%nat ->
  reads (decode_tuple_value_fuel fuel) (encode_tuple_value v) v.
Proof.
  induction v as [vs IH|v Hv] using ColumnValue_nested_ind; intros [|fuel] Hwf Hd;
    try lia; cbn [decode_tuple_value_fuel].
  - apply wf_array in Hwf as [Hlen Hwf]. cbn [encode_tuple_value]. eval_tag.
    eapply reads_bind; [by apply reads_u32, in_unsigned_len|].
    unfold len. rewrite Nat2Z.id. eapply reads_bind_end; [|apply reads_ret].
    apply reads_repeat. rewrite Forall_forall in *. intros v Hin.
    apply IH; [done|by apply Hwf|].
    pose proof (value_depth_array vs v Hin). lia.
  - destruct v; try (by edestruct Hv); cbn [encode_tuple_value wf_value] in *;
      eval_tag; try solve [auto with uni]; try (destruct Hwf; eauto with uni).
    apply (reads_bind_end _ _ [u8_of_bool v] (u8_to_Z (u8_of_bool v))); [apply reads_u8|].
    by destruct v; apply reads_ret.
Qed.

Lemma value_depth_le_length v : (value_depth v <= length (encode_tuple_value v))%nat.
Proof.
  induction v as [vs IH|v Hv] using ColumnValue_nested_ind; [|destruct v; cbn; try lia; by edestruct Hv].
  cbn [encode_tuple_value value_depth length]. apply le_n_S. rewrite length_app, length_to_be.
  induction IH as [|v vs Hv _ IH]; cbn [foldr map concat length]; [lia|].
  rewrite length_app. lia.
Qed.

Lemma reads_tuple_value v :
  wf_value v -> reads decode_tuple_value (encode_tuple_value v) v.
Proof.
  intros Hwf c r H Hpos. unfold decode_tuple_value.
  eapply reads_tuple_fuel; [done| |exact H|done].
  pose proof (value_depth_le_length v). apply (f_equal length) in H.
  rewrite length_app in H. lia.
Qed.

Lemma confined_decode_tuple_string : confined decode_tuple_string.
Proof.
  apply confined_bind; [auto with uni|]. intros l. apply confined_lift.
  unfold ok_or. by destruct (from_utf8 l).
Qed.
#[export] Hint Resolve confined_decode_tuple_string : uni.

(** A loop body that follows a tag byte and may recurse with less fuel. *)
Lemma confined_after_tag {A} (b : list byte) (p : nat) (k : Z -> reader A) c :
  bytes c = b -> (p <= pos c <= length b)%nat ->
  (forall z, confined_from b (S (pos c)) (k z)) ->
  match (z ← Cursor_.u8; k z) c with
  | Ok (_, c') => bytes c' = b /\ (pos c <= pos c' <= length b)%nat
  | Err _ => True
  | Panic | OutOfFuel => False
  end.
Proof.
  intros Hb Hc Hk. unfold mbind, reader_bind.
  pose proof (confined_u8 b (pos c) c Hb ltac:(lia)) as Hu.
  destruct (Cursor_.u8 c) as [[z c']| | |] eqn:E; try done.
  apply u8_inv in E as (x & Hx & -> & ->).
  apply lookup_lt_Some in Hx. subst b.
  specialize (Hk (u8_to_Z x) (advance 1 c) eq_refl ltac:(cbn; lia)).
  destruct (k _ _) as [[a c']| | |]; try done. cbn in Hk. destruct Hk. split; [done|lia].
Qed.

(** Splits on a tag: one goal per arm of the match, and the default. *)
Ltac split_tag :=
  repeat match goal with
  | |- context [match ?z with Z0 => _ | Zpos _ => _ | Zneg _ => _ end] => destruct z
  | |- context [match ?p with xI _ => _ | xO _ => _ | xH => _ end] => destruct p
  end.

(** With more fuel than unread bytes the decoders settle. *)
Lemma decode_tuple_fuel_confined b fuel : forall p,
  (length b < p + fuel)%nat -> (p <= length b)%nat ->
  confined_from b p (decode_tuple_value_fuel fuel).
Proof.
  induction fuel as [|fuel IH]; intros p Hf Hp c Hb Hc; [lia|].
  cbn [decode_tuple_value_fuel]. apply (confined_after_tag b p); [done|done|].
  intros z.
  split_tag; try solve [apply confined_confined_from; auto 6 with uni].
  apply confined_from_bind; [apply confined_u32|]. intros n.
  apply confined_from_bind; [apply confined_from_repeat|intros; apply confined_ret].
  destruct (decide (S (pos c) <= length b)%nat); [apply IH; lia|intros ? ? ?; lia].
Qed.

Lemma skip_tuple_fuel_confined b fuel : forall p,
  (length b < p + fuel)%nat -> (p <= length b)%nat ->
  confined_from b p (skip_tuple_value_fuel fuel).
Proof.
  induction fuel as [|fuel IH]; intros p Hf Hp c Hb Hc; [lia|].
  cbn [skip_tuple_value_fuel]. apply (confined_after_tag b p); [done|done|].
  intros z.
  split_tag; try solve [apply confined_confined_from; auto 6 with uni].
  apply confined_from_bind; [apply confined_u32|]. intros n.
  apply confined_from_bind; [apply confined_from_repeat|intros; apply confined_ret].
  destruct (decide (S (pos c) <= length b)%nat); [apply IH; lia|intros ? ? ?; lia].
Qed.

Lemma confined_tuple_value : confined decode_tuple_value.
Proof.
  intros b p c Hb Hc. unfold decode_tuple_value.
  apply (decode_tuple_fuel_confined b _ (pos c)); [|lia|done|lia].
  unfold remaining. subst. rewrite length_drop. lia.
Qed.

Lemma confined_skip_tuple_value : confined skip_tuple_value.
Proof.
  intros b p c Hb Hc. unfold skip_tuple_value.
  apply (skip_tuple_fuel_confined b _ (pos c)); [|lia|done|lia].
  unfold remaining. subst. rewrite length_drop. lia.
Qed.

Lemma confined_tuple_numeric_value : confined decode_tuple_numeric_value.
Proof.
  unfold decode_tuple_numeric_value. apply confined_bind; [auto with uni|].
  intros z. split_tag; auto with uni.
Qed.

#[export] Hint Resolve reads_tuple_value confined_tuple_value confined_skip_tuple_value
  confined_tuple_numeric_value : uni.

(** [follows m s]: wherever [m] succeeds, [s] succeeds with the same cursor. *)
Definition follows {A B} (m : reader A) (s : reader B) : Prop :=
  forall c a c', m c = Ok (a, c') -> exists u, s c = Ok (u, c').

Lemma follows_bind {A B C} (m : reader A) (k : A -> reader B) (k' : A -> reader C) :
  (forall a, follows (k a) (k' a)) -> follows (mbind k m) (mbind k' m).
Proof.
  intros Hk c b c'' H. apply reader_bind_inv in H as (a & c' & Hm & H).
  apply Hk in H as [u H]. exists u. unfold mbind, reader_bind. by rewrite Hm.
Qed.

Lemma follows_fmap {A A' B} (f : A -> A') (m : reader A) (s : reader B) :
  follows m s -> follows (f <$> m) s.
Proof.
  intros H c a c'. unfold fmap, reader_fmap.
  destruct (m c) as [[x c1]| | |] eqn:E; try discriminate. intros [= <- <-]. eauto.
Qed.

Lemma follows_be_int n what : follows (Cursor_.be_int n what) (skip n).
Proof.
  intros c a c'. rewrite be_int_eq. unfold skip.
  destruct (_ <? _)%nat; [discriminate|]. intros [= _ <-]. eauto.
Qed.

Lemma follows_u8_ret {A} (f : Z -> A) : follows (b ← Cursor_.u8; mret (f b)) (skip 1).
Proof.
  intros c a c' H. apply reader_bind_inv in H as (z & c1 & Hu & [= _ <-]).
  apply u8_inv in Hu as (b & Hb & _ & ->). exists tt. unfold skip.
  apply lookup_lt_Some in Hb. destruct (Nat.ltb_spec (length (bytes c)) (pos c + 1)); [lia|done].
Qed.

Lemma follows_segment : follows bytes_segment skip_bytes_segment.
Proof.
  intros c a c'. unfold bytes_segment, skip_bytes_segment.
  destruct (rest_of c) as [r| | |]; try discriminate. rewrite !bind_ok.
  destruct (read_bytes_segment r) as [[l n]| | |]; try discriminate. intros [= _ <-]. by exists tt.
Qed.

Lemma follows_string : follows decode_tuple_string skip_bytes_segment.
Proof.
  intros c a c' H. apply reader_bind_inv in H as (l & c1 & Hl & H).
  unfold lift in H. destruct (from_utf8 l); [|discriminate]. injection H as _ <-.
  by eapply follows_segment.
Qed.

Lemma follows_ret {A B} (a : A) (b : B) : follows (mret a) (mret b).
Proof. intros c x c' [= _ <-]. by exists b. Qed.

Lemma follows_repeat {A B} (m : reader A) (s : reader B) n :
  follows m s -> follows (repeat_m n m) (repeat_m n s).
Proof.
  intros H. induction n as [|n IH]; cbn; [apply follows_ret|].
  intros c l c' Hl. apply reader_bind_inv in Hl as (a & c1 & Ha & Hl).
  apply reader_bind_inv in Hl as (l' & c2 & Hl' & [= _ <-]).
  apply H in Ha as [u Ha]. apply IH in Hl' as [us Hl'].
  exists (u :: us).
  by rewrite (reader_bind_ok _ _ _ _ _ Ha), (reader_bind_ok _ _ _ _ _ Hl').
Qed.

Lemma follows_none {A B} (s : reader B) code msg : follows (reader_error (A:=A) code msg) s.
Proof. intros c a c' H. discriminate H. Qed.

Lemma follows_array {A B C} (m : reader A) (f : list A -> C) (s : reader B) n :
  follows m s ->
  follows (l ← repeat_m n m; mret (f l)) (_ ← repeat_m n s; mret tt).
Proof.
  intros H c a c' Ha. apply reader_bind_inv in Ha as (l & c1 & Hl & [= _ <-]).
  apply (follows_repeat _ _ _ H) in Hl as [us Hl].
  exists tt. by rewrite (reader_bind_ok _ _ _ _ _ Hl).
Qed.

Lemma follows_i16 : follows Cursor_.i16 (skip 2). Proof. apply follows_fmap, follows_be_int. Qed.
Lemma follows_i32 : follows Cursor_.i32 (skip 4). Proof. apply follows_fmap, follows_be_int. Qed.
Lemma follows_i64 : follows Cursor_.i64 (skip 8). Proof. apply follows_fmap, follows_be_int. Qed.
Lemma follows_f32 : follows Cursor_.f32 (skip 4). Proof. apply follows_be_int. Qed.
Lemma follows_f64 : follows Cursor_.f64 (skip 8). Proof. apply follows_be_int. Qed.

#[export] Hint Resolve follows_i16 follows_i32 follows_i64 follows_f32 follows_f64 @follows_fmap follows_be_int @follows_u8_ret follows_segment follows_string
  @follows_ret @follows_none : uni.

Lemma follows_tuple_fuel fuel :
  follows (decode_tuple_value_fuel fuel) (skip_tuple_value_fuel fuel).
Proof.
  induction fuel as [|fuel IH]; [intros c a c' H; discriminate H|].
  cbn [decode_tuple_value_fuel skip_tuple_value_fuel]. apply follows_bind.
  intros z. split_tag; try solve [auto 6 with uni].
  apply follows_bind. intros n. by apply follows_array.
Qed.

Lemma skip_follows_decode c c' v :
  decode_tuple_value c = Ok (v, c') -> skip_tuple_value c = Ok (tt, c').
Proof.
  unfold decode_tuple_value, skip_tuple_value. intros H.
  apply follows_tuple_fuel in H as [[] H]. exact H.
Qed.

(** ** Zone maps *)

Definition wf_zone_map (z : ColumnZoneMap) : Prop :=
  in_unsigned 32 (zone_column_id z) /\ in_unsigned 64 (null_count z) /\
  (forall v, zone_min z = Some v -> wf_value v) /\
  (forall v, zone_max z = Some v -> wf_value v).

Lemma reads_zone_bound what o :
  (forall v, o = Some v -> wf_value v) ->
  reads (decode_zone_bound what) (encode_zone_bound o) o.
Proof. intros H. destruct o as [v|]; cbn [encode_zone_bound]; eval_tag; auto with uni. Qed.

Lemma reads_zone_map z : wf_zone_map z -> reads decode_zone_map (encode_zone_map z) z.
Proof.
  intros (Hid & Hn & Hmin & Hmax). unfold decode_zone_map, encode_zone_map.
  eapply reads_bind; [by apply reads_u32|]. eapply reads_bind; [by apply reads_u64|].
  eapply reads_bind; [by apply reads_zone_bound|].
  eapply reads_bind_end; [by apply reads_zone_bound|]. destruct z. apply reads_ret.
Qed.

Lemma reads_zone_maps zones :
  len zones < 2 ^ 32 -> Forall wf_zone_map zones ->
  reads decode_zone_maps (encode_zone_maps zones) zones.
Proof.
  intros Hl Hwf. unfold decode_zone_maps, encode_zone_maps.
  eapply reads_bind; [by apply reads_u32, in_unsigned_len|].
  unfold len. rewrite Nat2Z.id. apply reads_repeat.
  eapply Forall_impl; [exact Hwf|]. apply reads_zone_map.
Qed.

Lemma confined_zone_maps : confined decode_zone_maps.
Proof.
  unfold decode_zone_maps, decode_zone_map, decode_zone_bound.
  apply confined_bind; [auto with uni|]. intros n. apply confined_repeat.
  do 4 (apply confined_bind;
    [first [solve [auto with uni]
           |apply confined_bind; [auto with uni|intros; split_tag; auto with uni]]|intros]).
  auto with uni.
Qed.
#[export] Hint Resolve reads_zone_maps confined_zone_maps : uni.

(** ** Fixed-width values *)

(** The value constructor the fixed region stores for a column type. *)
Definition fixed_typed (t : DataType) (v : ColumnValue) : bool :=
  match t, v with
  | DT.Boolean, Boolean _ => true
  | DT.Int16, Int16 _ | DT.MySqlInt (Tiny | Small) false, Int16 _ => true
  | DT.Int32, Int32 _ | DT.Year, Int32 _
  | DT.MySqlInt (Tiny | Small) true, Int32 _ | DT.MySqlInt Medium _, Int32 _
  | DT.MySqlInt KInt false, Int32 _ => true
  | DT.Int64, Int64 _ | DT.Bit _, Int64 _
  | DT.MySqlInt KInt true, Int64 _ | DT.MySqlInt Big false, Int64 _ => true
  | DT.Float32, Float32 _ | DT.MySqlFloat _, Float32 _ => true
  | DT.Float64, Float64 _ | DT.MySqlDouble _, Float64 _ => true
  | _, _ => false
  end.

Lemma length_encode_fixed_value dst v : length (encode_fixed_value dst v) = length dst.
Proof.
  destruct v; cbn [encode_fixed_value]; try done;
    destruct (Nat.eqb_spec (length dst) 1), (Nat.eqb_spec (length dst) 2),
      (Nat.eqb_spec (length dst) 4), (Nat.eqb_spec (length dst) 8);
    rewrite ?length_to_be; cbn; congruence.
Qed.

Lemma i16_from_be_to_be v : in_signed 16 v -> i16_from_be (to_be 2 v) = v.
Proof. by apply (signed_be_roundtrip 2). Qed.
Lemma i32_from_be_to_be v : in_signed 32 v -> i32_from_be (to_be 4 v) = v.
Proof. by apply (signed_be_roundtrip 4). Qed.
Lemma i64_from_be_to_be v : in_signed 64 v -> i64_from_be (to_be 8 v) = v.
Proof. by apply (signed_be_roundtrip 8). Qed.
Lemma u32_from_be_to_be v : in_unsigned 32 v -> from_be (to_be 4 v) = v.
Proof. by apply (from_be_to_be_small 4). Qed.
Lemma u64_from_be_to_be v : in_unsigned 64 v -> from_be (to_be 8 v) = v.
Proof. by apply (from_be_to_be_small 8). Qed.

#[export] Hint Rewrite @length_replicate i16_from_be_to_be i32_from_be_to_be i64_from_be_to_be
  u32_from_be_to_be u64_from_be_to_be using done : uni.

Lemma fixed_value_roundtrip t w v :
  fixed_width t = Some w -> fixed_typed t v = true -> wf_value v ->
  decode_fixed_value t (encode_fixed_value (replicate w x00) v) = Ok v.
Proof.
  intros Hw Ht Hv.
  destruct t; try destruct kind, unsigned; try discriminate Hw;
    destruct v; try discriminate Ht; injection Hw as <-; cbn [wf_value] in Hv;
    cbn [encode_fixed_value]; autorewrite with uni; cbn [Nat.eqb];
    cbn [decode_fixed_value]; unfold decode_mysql_fixed_int; rewrite ?length_to_be;
    cbn [Nat.eqb]; autorewrite with uni; try done.
  by destruct v.
Qed.

(** The numeric fast path is the ordinary decoder followed by a widening. *)
Lemma fixed_numeric_agrees t l v n :
  decode_fixed_value t l = Ok v -> fast_numeric_of v = Some n ->
  decode_fixed_numeric_value t l = Ok n.
Proof.
  destruct t; cbn [decode_fixed_value decode_fixed_numeric_value]; try discriminate;
    try (destruct (_ =? _)%nat; [|discriminate]; intros [= <-]; cbn; congruence).
  - intros H Hn. rewrite H, bind_ok. unfold decode_mysql_fixed_int in H.
    repeat case_match; try discriminate H; injection H as <-; cbn in Hn; congruence.
  - destruct l as [|b [|]]; try discriminate. intros [= <-] [=].
Qed.

Lemma tuple_numeric_agrees c c' v n :
  decode_tuple_value c = Ok (v, c') -> fast_numeric_of v = Some n ->
  decode_tuple_numeric_value c = Ok (n, c').
Proof.
  unfold decode_tuple_value, decode_tuple_numeric_value. cbn [decode_tuple_value_fuel].
  intros H Hn. apply reader_bind_inv in H as (z & c1 & Hu & H).
  rewrite (reader_bind_ok _ _ _ _ _ Hu). revert H. clear Hu.
  assert (Hmap : forall A B (m : reader A) (f : A -> ColumnValue) (g : A -> B) a,
    (f <$> m) c1 = Ok (a, c') -> exists x, a = f x /\ (g <$> m) c1 = Ok (g x, c')).
  { intros A B m f g a. unfold fmap, reader_fmap.
    destruct (m c1) as [[x c2]| | |]; try discriminate. intros [= <- <-]. eauto. }
  split_tag; intros H; try discriminate H;
    try (edestruct (Hmap _ FastNumericValue _ _ (fun _ => FNull) _ H) as (x & -> & _); discriminate Hn).
  all: try (injection H as <- <-; cbn in Hn; injection Hn as <-; reflexivity).
  all: try (destruct (Hmap _ _ _ _ I64 _ H) as (x & -> & Hg);
    cbn in Hn; injection Hn as <-; exact Hg).
  all: try (destruct (Hmap _ _ _ _ F64 _ H) as (x & -> & Hg);
    cbn in Hn; injection Hn as <-; exact Hg).
  all: try (destruct (Hmap _ _ _ _ (fun b => F64 (f64_of_f32 b)) _ H) as (x & -> & Hg);
    cbn in Hn; injection Hn as <-; exact Hg).
  all: apply reader_bind_inv in H as (y & c2 & _ & H);
    try (injection H as <- _; discriminate Hn).
  apply reader_bind_inv in H as (? & ? & _ & [= <- _]). discriminate Hn.
Qed.

(** ** [next_prefix] *)

Lemma next_prefix_inv p :
  match next_prefix p with
  | Some u => exists q b n, p = q ++ b :: replicate n xff /\ u8_to_Z b < 255 /\
                            u = q ++ [u8_of_Z (u8_to_Z b + 1)]
  | None => p = replicate (length p) xff
  end.
Proof.
  unfold next_prefix. pose proof (rev_involutive p) as Hp. set (r := rev p) in *. clearbody r.
  subst p. rewrite length_rev. induction r as [|b r IH]; cbn [next_prefix_rev]; [done|].
  destruct (Z.eqb_spec (u8_to_Z b) 255) as [Hb|Hb].
  - assert (b = xff) as -> by (by apply u8_to_Z_inj).
    destruct (next_prefix_rev r) as [u|].
    + destruct IH as (q & b & n & Hr & Hb' & Hu). exists q, b, (S n).
      split; [|done]. cbn [rev]. rewrite Hr, <- app_assoc. f_equal.
      cbn [app]. f_equal. symmetry. apply (replicate_S_end n).
    + cbn [rev length]. rewrite IH. symmetry. apply (replicate_S_end (length r)).
  - exists (rev r), b, 0%nat. cbn. pose proof (u8_to_Z_range b). split; [done|]. split; [lia|done].
Qed.

Lemma bytes_leb_app_cancel q x k y :
  bytes_leb (q ++ x) k = true -> bytes_ltb k (q ++ y) = true ->
  exists r, k = q ++ r /\ bytes_leb x r = true /\ bytes_ltb r y = true.
Proof.
  revert k. induction q as [|c q IH]; intros k; cbn; [eauto|].
  destruct k as [|h k]; [done|]. unfold bytes_leb, bytes_ltb; cbn.
  destruct (Z.compare_spec (u8_to_Z c) (u8_to_Z h)) as [E|L|G]; [| |done].
  - rewrite E, Z.compare_refl. apply u8_to_Z_inj in E as ->. intros H1 H2.
    destruct (IH k H1 H2) as (r & -> & ?). eauto.
  - rewrite (proj2 (Z.compare_gt_iff (u8_to_Z h) (u8_to_Z c))) by lia. intros _ [=].
Qed.

Lemma bytes_leb_ff n k :
  bytes_leb (replicate n xff) k = true -> exists r, k = replicate n xff ++ r.
Proof.
  revert k. induction n as [|n IH]; intros k; cbn [replicate app]; [eauto|].
  destruct k as [|h k]; [done|]. unfold bytes_leb; cbn [bytes_cmp replicate].
  change (u8_to_Z xff) with 255.
  pose proof (u8_to_Z_range h).
  destruct (Z.compare_spec 255 (u8_to_Z h)) as [E|L|G]; [|lia|done].
  intros H'. destruct (IH k H') as [r ->]. exists r. f_equal. by apply u8_to_Z_inj.
Qed.

Lemma bytes_leb_prefix p r : bytes_leb p (p ++ r) = true.
Proof.
  unfold bytes_leb. rewrite <- (app_nil_r p) at 1. rewrite bytes_cmp_app. by destruct r.
Qed.

(** Being in [[p, next_prefix p)] is starting with [p]. *)
Lemma next_prefix_range p k :
  bytes_leb p k && match next_prefix p with Some u => bytes_ltb k u | None => true end
  = starts_with k p.
Proof.
  apply eq_true_iff_eq. rewrite starts_with_spec, andb_true_iff.
  pose proof (next_prefix_inv p) as Hinv. destruct (next_prefix p) as [u|].
  - destruct Hinv as (q & b & n & -> & Hb & ->). pose proof (u8_to_Z_range b). split.
    + intros [Hle Hlt]. destruct (bytes_leb_app_cancel _ _ _ _ Hle Hlt) as (r & -> & Hle' & Hlt').
      destruct r as [|h r]; [done|]. unfold bytes_leb, bytes_ltb in Hle', Hlt'.
      cbn [bytes_cmp] in Hle', Hlt'. rewrite u8_to_of, Z.mod_small in Hlt' by lia.
      assert (u8_to_Z b = u8_to_Z h) as E.
      { destruct (Z.compare_spec (u8_to_Z b) (u8_to_Z h)),
          (Z.compare_spec (u8_to_Z h) (u8_to_Z b + 1)); try done; try lia.
        by destruct r. }
      rewrite E, Z.compare_refl in Hle'. apply u8_to_Z_inj in E as ->.
      destruct (bytes_leb_ff n r Hle') as [r' ->]. exists r'. by rewrite <- app_assoc.
    + intros [r ->]. split; [apply bytes_leb_prefix|].
      unfold bytes_ltb. rewrite <- !app_assoc, bytes_cmp_app. cbn.
      rewrite u8_to_of, Z.mod_small, (proj2 (Z.compare_lt_iff _ _)) by lia. done.
  - split.
    + intros [Hle _]. rewrite Hinv in Hle |- *. by apply bytes_leb_ff.
    + intros [r ->]. split; [apply bytes_leb_prefix|done].
Qed.

(** ** Properties *)

(** C29. The self-describing value encoding is invertible in any context: from
    a cursor whose unread bytes begin with [encode_tuple_value v],
    [decode_tuple_value] returns exactly [v] and stops right behind it, whatever
    follows.  (So the encoding is prefix-free and injective.) *)
Theorem tuple_value_roundtrip (v : ColumnValue) (pre post : list byte) :
  wf_value v ->
  decode_tuple_value (MkCursor (pre ++ encode_tuple_value v ++ post) (length pre)) =
    Ok (v, MkCursor (pre ++ encode_tuple_value v ++ post)
             (length pre + length (encode_tuple_value v))).
Proof.
  intros Hwf. apply (reads_tuple_value v Hwf (MkCursor _ (length pre)) post).
  - unfold remaining; cbn. apply drop_app_length.
  - cbn. rewrite length_app. lia.
Qed.

Lemma tuple_value_roundtrip_witness :
  decode_tuple_value
    (MkCursor ([xff] ++ encode_tuple_value (Array [Int16 (-2); Text "a"; Null]) ++ [x07]) 1) =
    Ok (Array [Int16 (-2); Text "a"; Null],
        MkCursor ([xff] ++ encode_tuple_value (Array [Int16 (-2); Text "a"; Null]) ++ [x07]) 16).
Proof.
  apply (tuple_value_roundtrip (Array [Int16 (-2); Text "a"; Null]) [xff] [x07]).
  repeat split; reflexivity || discriminate.
Defined.

(** On arbitrary bytes [skip_tuple_value] moves the cursor exactly as far
    as [decode_tuple_value] does, whenever the value decodes. *)
Theorem skip_agrees_with_decode (c c' : Cursor) (v : ColumnValue) :
  decode_tuple_value c = Ok (v, c') -> skip_tuple_value c = Ok (tt, c').
Proof. apply skip_follows_decode. Qed.

Lemma skip_agrees_with_decode_witness :
  skip_tuple_value (Cursor_.new (encode_tuple_value (Array [Boolean true; Int64 7]))) =
  Ok (tt, MkCursor (encode_tuple_value (Array [Boolean true; Int64 7])) 16).
Proof. apply (skip_agrees_with_decode _ _ (Array [Boolean true; Int64 7])). vm_compute. reflexivity. Defined.

(** Decoding any byte string settles: [decode_tuple_value] and
    [skip_tuple_value] always return, never index outside the buffer, and leave
    the cursor inside it, at or after where it started. *)
Theorem tuple_decoders_settle (c : Cursor) :
  (pos c <= length (bytes c))%nat ->
  match decode_tuple_value c with
  | Ok (_, c') => bytes c' = bytes c /\ (pos c <= pos c' <= length (bytes c))%nat
  | Err _ => True
  | Panic | OutOfFuel => False
  end /\
  match skip_tuple_value c with
  | Ok (_, c') => bytes c' = bytes c /\ (pos c <= pos c' <= length (bytes c))%nat
  | Err _ => True
  | Panic | OutOfFuel => False
  end.
Proof.
  intros Hc. split.
  - apply (confined_tuple_value (bytes c) (pos c)); [done|lia].
  - apply (confined_skip_tuple_value (bytes c) (pos c)); [done|lia].
Qed.

Lemma tuple_decoders_settle_witness :
  let c := Cursor_.new [x08; x00; x00; x00; x02; x00] in
  match skip_tuple_value c with
  | Ok (_, c') => bytes c' = bytes c /\ (pos c <= pos c' <= length (bytes c))%nat
  | Err _ => True
  | Panic | OutOfFuel => False
  end.
Proof. apply tuple_decoders_settle. apply Nat.le_0_l. Defined.

(** [next_prefix p] is the exclusive upper bound of the keys starting with
    [p]: a key lies in the half-open range [[p, next_prefix p)] (in [[p, ..)] when
    [p] is all [0xFF] and there is no bound) exactly when it starts with [p].  So a
    range scan over it is a prefix scan. *)
Theorem next_prefix_scans_prefix (p k : list byte) :
  (bytes_leb p k && match next_prefix p with Some u => bytes_ltb k u | None => true end) =
  starts_with k p.
Proof. apply next_prefix_range. Qed.

(** Zone maps survive encoding: the decoder returns the list that was
    written and consumes exactly its bytes. *)
Theorem zone_maps_roundtrip (zones : list ColumnZoneMap) :
  len zones < 2 ^ 32 -> Forall wf_zone_map zones ->
  decode_zone_maps (Cursor_.new (encode_zone_maps zones)) =
    Ok (zones, MkCursor (encode_zone_maps zones) (length (encode_zone_maps zones))).
Proof. intros Hl Hwf. by apply reads_all, reads_zone_maps. Qed.

Lemma zone_maps_roundtrip_witness :
  let z := {| zone_column_id := 1; null_count := 2; zone_min := Some (Int32 (-5));
              zone_max := None |} in
  decode_zone_maps (Cursor_.new (encode_zone_maps [z])) =
    Ok ([z], MkCursor (encode_zone_maps [z]) (length (encode_zone_maps [z]))).
Proof.
  apply zone_maps_roundtrip; [reflexivity|].
  repeat constructor; cbn; try (intros v [= <-]; cbn; width); discriminate || reflexivity.
Defined.

(** The numeric fast path agrees with the ordinary decoders: where a tuple
    value or a fixed-region value decodes to an integer, a float or NULL, the
    numeric reader returns its [i64]/[f64] widening and the same cursor. *)
Theorem numeric_decoders_agree (c c' : Cursor) (t : DataType) (l : list byte)
    (v w : ColumnValue) (n m : FastNumericValue) :
  decode_tuple_value c = Ok (v, c') -> fast_numeric_of v = Some n ->
  decode_fixed_value t l = Ok w -> fast_numeric_of w = Some m ->
  decode_tuple_numeric_value c = Ok (n, c') /\ decode_fixed_numeric_value t l = Ok m.
Proof. intros Hv Hn Hw Hm. split; [by eapply tuple_numeric_agrees|by eapply fixed_numeric_agrees]. Qed.

Lemma numeric_decoders_agree_witness :
  decode_tuple_numeric_value (Cursor_.new (encode_tuple_value (Int32 (-3)))) =
    Ok (I64 (-3), MkCursor (encode_tuple_value (Int32 (-3))) 5) /\
  decode_fixed_numeric_value DT.Int16 [xff; xfe] = Ok (I64 (-2)).
Proof.
  apply (numeric_decoders_agree _ _ _ _ (Int32 (-3)) (Int16 (-2))); vm_compute; reflexivity.
Defined.

(** A value of the constructor its column type stores survives the fixed
    region of a row: written into a zeroed slot of the type's width and read back,
    it is unchanged. *)
Theorem fixed_slot_roundtrip (t : DataType) (w : nat) (v : ColumnValue) :
  fixed_width t = Some w -> fixed_typed t v = true -> wf_value v ->
  decode_fixed_value t (encode_fixed_value (replicate w x00) v) = Ok v.
Proof. apply fixed_value_roundtrip. Qed.

Lemma fixed_slot_roundtrip_witness :
  decode_fixed_value (DT.MySqlInt KInt true)
    (encode_fixed_value (replicate 8 x00) (Int64 4294967295)) = Ok (Int64 4294967295).
Proof. apply fixed_slot_roundtrip; [reflexivity|reflexivity|cbn; width]. Defined.
