(* ===== verification/Values.v ===== *)
(** * Column values: equality, order and text

    src/src/types/column_value.rs: the derived [PartialEq], the hand-written
    [PartialOrd] with its decimal comparison, and the text forms that need no
    float formatting.  The release profile is modelled: [i64] arithmetic outside
    the checked operations wraps. *)

From stdpp Require Import pretty.
From S2P Require Import Prelude Float Types.

(** ** [derive(PartialEq)] *)

Fixpoint cv_eqb (a b : ColumnValue) : bool :=
  match a, b with
  | Null, Null => true
  | Int16 x, Int16 y | Int32 x, Int32 y | Int64 x, Int64 y => x =? y
  | Float32 x, Float32 y => f32_eqb x y
  | Float64 x, Float64 y => f64_eqb x y
  | Numeric x, Numeric y | Text x, Text y | Date x, Date y | Timestamp x, Timestamp y
  | TimestampTz x, TimestampTz y | Uuid x, Uuid y | Json x, Json y | Jsonb x, Jsonb y =>
      bool_decide (x = y)
  | Boolean x, Boolean y => Bool.eqb x y
  | Bytea x, Bytea y => bool_decide (x = y)
  | Array xs, Array ys =>
      (fix go xs ys :=
         match xs, ys with
         | [], [] => true
         | x :: xs, y :: ys => cv_eqb x y && go xs ys
         | _, _ => false
         end) xs ys
  | _, _ => false
  end.

(** ** [str::trim] and [str::parse::<i64>] of the standard library *)

(** The byte sequences of the characters with the [White_Space] property; a
    prefix of the unread bytes, the length it takes. *)
Definition whitespace_at (l : list byte) : nat :=
  match map u8_to_Z (take 3 l) with
  | a :: r =>
      if ((9 <=? a) && (a <=? 13)) || (a =? 32) then 1%nat
      else match r with
      | b :: r' =>
          if (a =? 194) && ((b =? 133) || (b =? 160)) then 2%nat
          else match r' with
          | c :: _ =>
              if ((a =? 225) && (b =? 154) && (c =? 128)) ||
                 ((a =? 226) && (b =? 128) &&
                    (((128 <=? c) && (c <=? 138)) || (c =? 168) || (c =? 169) || (c =? 175))) ||
                 ((a =? 226) && (b =? 129) && (c =? 159)) ||
                 ((a =? 227) && (b =? 128) && (c =? 128))
              then 3%nat else 0%nat
          | [] => 0%nat
          end
      | [] => 0%nat
      end
  | [] => 0%nat
  end.

Fixpoint trim_start_fuel (fuel : nat) (l : list byte) : list byte :=
  match fuel with
  | O => l
  | S fuel =>
      match whitespace_at l with
      | O => l
      | n => trim_start_fuel fuel (drop n l)
      end
  end.

(** Each round drops a byte at least, so the length is enough fuel. *)
Definition trim_start (l : list byte) : list byte := trim_start_fuel (length l) l.

(** The length of the whitespace character that ends [l]: a lead byte is never a
    continuation byte, so the last one, two or three bytes decide. *)
Definition whitespace_before (l : list byte) : nat :=
  let n := length l in
  if (whitespace_at (drop (n - 1) l) =? 1)%nat && (1 <=? n)%nat then 1%nat
  else if (whitespace_at (drop (n - 2) l) =? 2)%nat && (2 <=? n)%nat then 2%nat
  else if (whitespace_at (drop (n - 3) l) =? 3)%nat && (3 <=? n)%nat then 3%nat
  else 0%nat.

Fixpoint trim_end_fuel (fuel : nat) (l : list byte) : list byte :=
  match fuel with
  | O => l
  | S fuel =>
      match whitespace_before l with
      | O => l
      | n => trim_end_fuel fuel (take (length l - n) l)
      end
  end.

Definition trim_end (l : list byte) : list byte := trim_end_fuel (length l) l.

(** [str::trim]. *)
Definition trim (l : list byte) : list byte := trim_end (trim_start l).

Definition is_digit (b : byte) : bool := (48 <=? u8_to_Z b) && (u8_to_Z b <=? 57).
Definition digit_value (b : byte) : Z := u8_to_Z b - 48.

(** The integer a digit string denotes. *)
Definition digits_value (l : list byte) : Z :=
  foldl (fun acc b => acc * 10 + digit_value b) 0 l.

(** [parse::<i64>]: an optional sign, at least one digit, no overflow. *)
Definition parse_i64 (l : list byte) : option Z :=
  let '(negative, ds) :=
    match l with
    | x2d :: r => (true, r)
    | x2b :: r => (false, r)
    | _ => (false, l)
    end in
  if bool_decide (ds = []) || negb (forallb is_digit ds) then None
  else i64_checked (if negative : bool then - digits_value ds else digits_value ds).

(** ** [NormalizedDecimal] *)

Record NormalizedDecimal : Type := {
  nd_sign : Z;
  nd_digits : list byte;
  nd_scale : Z;
}.

(** The mantissa loop: digits read, fraction length and the two flags. *)
Record MantissaState : Type := {
  ms_digits : list byte;
  ms_frac_len : Z;
  ms_saw_dot : bool;
  ms_saw_digit : bool;
}.

Definition mantissa_step (st : MantissaState) (b : byte) : option MantissaState :=
  if is_digit b then
    frac_len ← (if ms_saw_dot st then i64_checked_add (ms_frac_len st) 1 else Some (ms_frac_len st));
    Some {| ms_digits := ms_digits st ++ [b]; ms_frac_len := frac_len;
            ms_saw_dot := ms_saw_dot st; ms_saw_digit := true |}
  else if bool_decide (b = x2e) && negb (ms_saw_dot st) then
    Some {| ms_digits := ms_digits st; ms_frac_len := ms_frac_len st; ms_saw_dot := true;
            ms_saw_digit := ms_saw_digit st |}
  else None.

Fixpoint read_mantissa (st : MantissaState) (l : list byte) : option MantissaState :=
  match l with
  | [] => Some st
  | b :: r => st ← mantissa_step st b; read_mantissa st r
  end.

(** [while digits.last() == Some(&b'0')]: pop a digit and lower the scale. *)
Fixpoint pop_zeros (rev_digits : list byte) (scale : Z) : option (list byte * Z) :=
  match rev_digits with
  | b :: r =>
      if bool_decide (b = x30) then
        scale ← i64_checked_sub scale 1;
        pop_zeros r scale
      else Some (rev rev_digits, scale)
  | [] => Some ([], scale)
  end.

(** [digits.drain(..first_non_zero)]. *)
Fixpoint drop_zeros (digits : list byte) : list byte :=
  match digits with
  | b :: r => if bool_decide (b = x30) then drop_zeros r else digits
  | [] => []
  end.

(** [rest.find(['e', 'E'])] with the two sides of it. *)
Fixpoint split_exponent (l : list byte) : list byte * option (list byte) :=
  match l with
  | [] => ([], None)
  | b :: r =>
      if bool_decide (b = x65) || bool_decide (b = x45) then ([], Some r)
      else let '(m, e) := split_exponent r in (b :: m, e)
  end.

(** [NormalizedDecimal::parse]. *)
Definition nd_parse (raw : string) : option NormalizedDecimal :=
  let raw := trim (as_bytes raw) in
  match raw with
  | [] => None
  | first :: tail =>
      let '(sign, rest) :=
        if bool_decide (first = x2d) then (-1, tail)
        else if bool_decide (first = x2b) then (1, tail)
        else (1, raw) in
      let '(mantissa, exponent_text) := split_exponent rest in
      exponent ← match exponent_text with Some e => parse_i64 e | None => Some 0 end;
      st ← read_mantissa {| ms_digits := []; ms_frac_len := 0; ms_saw_dot := false;
                            ms_saw_digit := false |} mantissa;
      if negb (ms_saw_digit st) then None
      else
        scale ← i64_checked_sub (ms_frac_len st) exponent;
        match drop_zeros (ms_digits st) with
        | [] => Some {| nd_sign := 1; nd_digits := []; nd_scale := 0 |}
        | digits =>
            '(digits, scale) ← pop_zeros (rev digits) scale;
            Some {| nd_sign := sign; nd_digits := digits; nd_scale := scale |}
        end
  end.

(** The digit loop of [cmp_abs]: the shorter side reads as zeros. *)
Fixpoint cmp_zeros (b : list byte) : comparison :=
  match b with
  | [] => Eq
  | y :: b' => match 48 ?= u8_to_Z y with Eq => cmp_zeros b' | c => c end
  end.

Fixpoint cmp_digits (a b : list byte) : comparison :=
  match a with
  | [] => cmp_zeros b
  | x :: a' =>
      match u8_to_Z x ?= match b with y :: _ => u8_to_Z y | [] => 48 end with
      | Eq => cmp_digits a' (tail b)
      | c => c
      end
  end.

(** [digits.len() as i64 - scale], which wraps. *)
Definition nd_exp (d : NormalizedDecimal) : Z :=
  to_signed 64 (len (nd_digits d) - nd_scale d).

(** [NormalizedDecimal::cmp_abs]. *)
Definition nd_cmp_abs (a b : NormalizedDecimal) : comparison :=
  match nd_exp a ?= nd_exp b with
  | Eq => cmp_digits (nd_digits a) (nd_digits b)
  | c => c
  end.

(** [Ord::cmp] of [NormalizedDecimal]. *)
Definition nd_cmp (a b : NormalizedDecimal) : comparison :=
  match nd_digits a, nd_digits b with
  | [], [] => Eq
  | [], _ :: _ => 0 ?= nd_sign b
  | _ :: _, [] => nd_sign a ?= 0
  | _ :: _, _ :: _ =>
      match nd_sign a ?= nd_sign b with
      | Eq => if nd_sign a <? 0 then nd_cmp_abs b a else nd_cmp_abs a b
      | c => c
      end
  end.

(** [numeric_cmp]. *)
Definition numeric_cmp (a b : string) : option comparison :=
  match nd_parse a, nd_parse b with
  | Some a, Some b => Some (nd_cmp a b)
  | _, _ => Some (str_cmp a b)
  end.

Definition bool_cmp (a b : bool) : comparison :=
  match a, b with
  | false, true => Lt
  | true, false => Gt
  | _, _ => Eq
  end.

(** [PartialOrd::partial_cmp] of [ColumnValue]. *)
Definition cv_partial_cmp (a b : ColumnValue) : option comparison :=
  match a, b with
  | Int16 a, Int16 b | Int16 a, Int32 b | Int32 a, Int16 b | Int16 a, Int64 b
  | Int64 a, Int16 b | Int32 a, Int32 b | Int64 a, Int64 b | Int32 a, Int64 b
  | Int64 a, Int32 b => Some (a ?= b)
  | Float32 a, Float32 b => f32_compare a b
  | Float64 a, Float64 b => f64_compare a b
  | Float32 a, Float64 b => f64_compare (f64_of_f32 a) b
  | Float64 a, Float32 b => f64_compare a (f64_of_f32 b)
  | Int16 a, Float32 b | Int32 a, Float32 b => f32_compare (f32_of_Z a) b
  | Float32 a, Int16 b | Float32 a, Int32 b => f32_compare a (f32_of_Z b)
  | Int16 a, Float64 b | Int64 a, Float64 b => f64_compare (f64_of_Z a) b
  | Float64 a, Int16 b | Float64 a, Int64 b => f64_compare a (f64_of_Z b)
  | Numeric a, Numeric b => numeric_cmp a b
  | Text a, Text b | Date a, Date b | Timestamp a, Timestamp b
  | TimestampTz a, TimestampTz b | Uuid a, Uuid b => Some (str_cmp a b)
  | Boolean a, Boolean b => Some (bool_cmp a b)
  | Bytea a, Bytea b => Some (bytes_cmp a b)
  | _, _ => None
  end.

(** [Ordering::is_gt], [is_lt] under [is_some_and]. *)
Definition is_gt (o : option comparison) : bool := match o with Some Gt => true | _ => false end.
Definition is_lt (o : option comparison) : bool := match o with Some Lt => true | _ => false end.
Definition is_ge (o : option comparison) : bool := match o with Some (Gt | Eq) => true | _ => false end.
Definition is_le (o : option comparison) : bool := match o with Some (Lt | Eq) => true | _ => false end.

(** ** [to_text]

    The decimal rendering of floats is the standard library's shortest-digits
    algorithm; it is a parameter here. *)

(** [hex_encode]. *)
Definition hex_digit (n : Z) : byte := u8_of_Z (if n <? 10 then 48 + n else 87 + n).
Definition hex_encode (l : list byte) : list byte :=
  flat_map (fun b => [hex_digit (Z.shiftr (u8_to_Z b) 4); hex_digit (Z.land (u8_to_Z b) 15)]) l.

(** [value.chars().any(char::is_whitespace)]. *)
Fixpoint has_whitespace (l : list byte) : bool :=
  match l with
  | [] => false
  | _ :: r => negb (whitespace_at l =? 0)%nat || has_whitespace r
  end.

(** [escape_array_text]. *)
Definition escape_array_text (value : list byte) : list byte :=
  if bool_decide (value = []) || existsb (fun b => bool_decide (b ∈ [x2c; x7b; x7d; x22; x5c])) value
     || has_whitespace value
  then [x22] ++ flat_map (fun b => if bool_decide (b ∈ [x5c; x22]) then [x5c; b] else [b]) value ++ [x22]
  else value.

(** [Vec<String>::join]. *)
Fixpoint join_bytes (sep : list byte) (l : list (list byte)) : list byte :=
  match l with
  | [] => []
  | [x] => x
  | x :: r => x ++ sep ++ join_bytes sep r
  end.

Section Text.
Context (display_f32 display_f64 : Z -> string).

(** [ColumnValue::to_text], as bytes. *)
Fixpoint to_text (v : ColumnValue) : option (list byte) :=
  match v with
  | Null => None
  | Int16 z | Int32 z | Int64 z => Some (as_bytes (pretty z))
  | Float32 b => Some (as_bytes (display_f32 b))
  | Float64 b => Some (as_bytes (display_f64 b))
  | Numeric s | Text s | Date s | Timestamp s | TimestampTz s | Uuid s | Json s | Jsonb s =>
      Some (as_bytes s)
  | Boolean b => Some (as_bytes (if b then "true" else "false")%string)
  | Bytea l => Some ([x5c; x78] ++ hex_encode l)
  | Array vs =>
      Some ([x7b] ++ join_bytes [x2c]
        (map (fun v => match to_text v with
                       | Some t => escape_array_text t
                       | None => as_bytes "NULL"
                       end) vs) ++ [x7d])
  end.
End Text.

Example to_text_array :
  to_text (fun _ => ""%string) (fun _ => ""%string) (Array [Text "a b"; Null; Int32 (-5); Bytea [xfe]])
  = Some (as_bytes "{" ++ [x22] ++ as_bytes "a b" ++ [x22] ++ as_bytes ",NULL,-5," ++
          [x22] ++ as_bytes "\\xfe" ++ [x22] ++ as_bytes "}").
Proof. vm_compute. reflexivity. Qed.

(** ** Decimals: what they denote *)

Definition wf_decimal (d : NormalizedDecimal) : Prop :=
  forallb is_digit (nd_digits d) = true /\
  (nd_sign d = 1 \/ nd_sign d = -1) /\
  match nd_digits d with
  | [] => nd_sign d = 1
  | b :: _ => b <> x30
  end /\
  in_signed 64 (len (nd_digits d) - nd_scale d).

(** The number times [10 ^ m]; an integer as soon as [nd_scale d <= m]. *)
Definition nd_scaled (m : Z) (d : NormalizedDecimal) : Z :=
  nd_sign d * digits_value (nd_digits d) * 10 ^ (m - nd_scale d).

Lemma foldl_digits acc l :
  foldl (fun acc b => acc * 10 + digit_value b) acc l = acc * 10 ^ len l + digits_value l.
Proof.
  unfold digits_value. revert acc. induction l as [|b l IH]; intros acc; cbn [foldl].
  - unfold len; cbn. lia.
  - rewrite IH, (IH (0 * 10 + _)). unfold len. cbn [length].
    rewrite Nat2Z.inj_succ, Z.pow_succ_r by lia. lia.
Qed.

Lemma digits_value_cons b l : digits_value (b :: l) = digit_value b * 10 ^ len l + digits_value l.
Proof. unfold digits_value at 1. cbn [foldl]. by rewrite foldl_digits, Z.mul_0_l, Z.add_0_l. Qed.

Lemma digits_value_app a b : digits_value (a ++ b) = digits_value a * 10 ^ len b + digits_value b.
Proof. unfold digits_value at 1. rewrite foldl_app. apply foldl_digits. Qed.

Lemma is_digit_range b : is_digit b = true -> 0 <= digit_value b <= 9.
Proof. unfold is_digit, digit_value. lia. Qed.

Lemma pow10_pos n : 0 <= n -> 0 < 10 ^ n.
Proof. intros. apply Z.pow_pos_nonneg; lia. Qed.

Lemma digits_value_range l :
  forallb is_digit l = true -> 0 <= digits_value l < 10 ^ len l.
Proof.
  induction l as [|b l IH]; cbn [forallb]; [intros _; vm_compute; split; congruence|].
  intros [Hb Hl]%andb_true_iff. apply is_digit_range in Hb. specialize (IH Hl).
  rewrite digits_value_cons. unfold len in *. cbn [length].
  rewrite Nat2Z.inj_succ, Z.pow_succ_r by lia. nia.
Qed.

(** A leading digit other than zero bounds the value from below. *)
Lemma digits_value_lead b l :
  forallb is_digit (b :: l) = true -> b <> x30 -> 10 ^ len l <= digits_value (b :: l).
Proof.
  cbn [forallb]. intros [Hb Hl]%andb_true_iff Hne.
  assert (1 <= digit_value b).
  { unfold is_digit, digit_value in *. assert (u8_to_Z b <> 48); [|lia].
    intros E. apply Hne. by apply u8_to_Z_inj. }
  pose proof (digits_value_range l Hl). rewrite digits_value_cons.
  pose proof (pow10_pos (len l) ltac:(unfold len; lia)). nia.
Qed.

Lemma compare_mul_pos a b p : 0 < p -> (a * p ?= b * p) = (a ?= b).
Proof. intros Hp. symmetry. apply Zmult_compare_compat_r. lia. Qed.

(** [cmp_digits] compares the digit strings padded with zeros to one length. *)
Lemma cmp_digits_zeros_r a :
  forallb is_digit a = true -> cmp_digits a [] = (digits_value a ?= 0).
Proof.
  intros Ha.
  induction a as [|b a IH]; [done|]. cbn [cmp_digits forallb tail] in *.
  apply andb_true_iff in Ha as [Hb Ha]. specialize (IH Ha). rewrite IH. clear IH.
  pose proof (digits_value_range a Ha). apply is_digit_range in Hb as Hr.
  unfold digit_value in Hr. rewrite digits_value_cons. unfold digit_value.
  pose proof (pow10_pos (len a) ltac:(unfold len; lia)).
  destruct (Z.compare_spec (u8_to_Z b) 48) as [E|L|G]; [|lia|].
  - by rewrite E.
  - symmetry. apply Z.compare_gt_iff. nia.
Qed.

Lemma cmp_digits_antisym a : forall b, cmp_digits b a = CompOpp (cmp_digits a b).
Proof.
  assert (Hz : forall b, cmp_zeros b = CompOpp (cmp_digits b [])).
  { induction b as [|y b IH]; [done|]. cbn [cmp_digits cmp_zeros tail].
    rewrite (Z.compare_antisym (u8_to_Z y) 48), IH. by destruct (u8_to_Z y ?= 48). }
  induction a as [|x a IH]; intros [|y b].
  - done.
  - cbn [cmp_digits]. rewrite Hz. by rewrite CompOpp_involutive.
  - apply Hz.
  - cbn [cmp_digits tail]. rewrite (Z.compare_antisym (u8_to_Z x) (u8_to_Z y)), IH.
    by destruct (u8_to_Z x ?= u8_to_Z y).
Qed.

Lemma cmp_digits_value a : forall b n,
  forallb is_digit a = true -> forallb is_digit b = true -> len a <= n -> len b <= n ->
  cmp_digits a b = (digits_value a * 10 ^ (n - len a) ?= digits_value b * 10 ^ (n - len b)).
Proof.
  assert (Hz : forall a n, forallb is_digit a = true -> len a <= n ->
    cmp_digits a [] = (digits_value a * 10 ^ (n - len a) ?= 0)).
  { intros a' n Ha Hn. rewrite cmp_digits_zeros_r by done.
    rewrite <- (compare_mul_pos _ _ (10 ^ (n - len a'))) by (apply pow10_pos; lia).
    by rewrite Z.mul_0_l. }
  induction a as [|x a IH]; intros [|y b] n Ha Hb Hla Hlb.
  - symmetry. apply Z.compare_eq_iff. done.
  - rewrite cmp_digits_antisym, (Hz _ n) by done. change (digits_value []) with 0.
    rewrite Z.mul_0_l. symmetry. apply Z.compare_antisym.
  - change (digits_value []) with 0. rewrite Z.mul_0_l. by apply Hz.
  - cbn [forallb] in *. apply andb_true_iff in Ha as [Hx Ha], Hb as [Hy Hb].
    cbn [cmp_digits tail]. unfold len in Hla, Hlb. cbn [length] in Hla, Hlb.
    rewrite (IH b (n - 1)) by (unfold len in *; try done; lia).
    assert (Hshift : forall (z : byte) (l : list byte), Z.of_nat (S (length l)) <= n ->
      digits_value (z :: l) * 10 ^ (n - len (z :: l)) =
      digit_value z * 10 ^ (n - 1) + digits_value l * 10 ^ (n - 1 - len l)).
    { intros z l Hl. rewrite digits_value_cons. unfold len. cbn [length].
      replace (n - Z.of_nat (S (length l))) with (n - 1 - Z.of_nat (length l)) by lia.
      rewrite Z.mul_add_distr_r, <- Z.mul_assoc, <- Z.pow_add_r by lia. do 3 f_equal. lia. }
    rewrite !Hshift by done. clear Hshift.
    assert (Hb1 : forall l, forallb is_digit l = true -> Z.of_nat (S (length l)) <= n ->
      0 <= digits_value l * 10 ^ (n - 1 - len l) < 10 ^ (n - 1)).
    { intros l Hl Hn. pose proof (digits_value_range l Hl). unfold len in *.
      pose proof (pow10_pos (n - 1 - Z.of_nat (length l)) ltac:(lia)).
      assert (E : 10 ^ (n - 1) = 10 ^ (Z.of_nat (length l) + (n - 1 - Z.of_nat (length l))))
        by (f_equal; lia). rewrite E.
      rewrite Z.pow_add_r by lia. nia. }
    pose proof (Hb1 a Ha Hla). pose proof (Hb1 b Hb Hlb). unfold digit_value.
    destruct (Z.compare_spec (u8_to_Z x) (u8_to_Z y)) as [E|L|G].
    + by rewrite E, Z.add_compare_mono_l.
    + symmetry. apply Z.compare_lt_iff. nia.
    + symmetry. apply Z.compare_gt_iff. nia.
Qed.

Lemma nd_exp_small d : wf_decimal d -> nd_exp d = len (nd_digits d) - nd_scale d.
Proof. intros (_ & _ & _ & H). by apply to_signed_small. Qed.

Lemma nd_digits_lead d b l :
  wf_decimal d -> nd_digits d = b :: l ->
  10 ^ (len (nd_digits d) - 1) <= digits_value (nd_digits d) < 10 ^ len (nd_digits d).
Proof.
  intros (Hd & _ & Hl & _) E. split; [|by apply digits_value_range].
  rewrite E in *. unfold len. cbn [length].
  replace (Z.of_nat (S (length l)) - 1) with (len l) by (unfold len; lia).
  by apply digits_value_lead.
Qed.

(** [cmp_abs] compares the absolute values. *)
Lemma nd_cmp_abs_spec m a b :
  wf_decimal a -> wf_decimal b -> nd_digits a <> [] -> nd_digits b <> [] ->
  nd_scale a <= m -> nd_scale b <= m ->
  nd_cmp_abs a b =
    (digits_value (nd_digits a) * 10 ^ (m - nd_scale a) ?=
     digits_value (nd_digits b) * 10 ^ (m - nd_scale b)).
Proof.
  intros Ha Hb Hna Hnb Hma Hmb. unfold nd_cmp_abs. rewrite !nd_exp_small by done.
  destruct (nd_digits a) as [|xa la] eqn:Ea; [done|]. destruct (nd_digits b) as [|xb lb] eqn:Eb; [done|].
  pose proof (nd_digits_lead a xa la Ha Ea) as Ra. pose proof (nd_digits_lead b xb lb Hb Eb) as Rb.
  rewrite Ea in Ra. rewrite Eb in Rb. set (da := xa :: la) in *. set (db := xb :: lb) in *.
  assert (Hla : 1 <= len da) by (unfold da, len; cbn; lia).
  assert (Hlb : 1 <= len db) by (unfold db, len; cbn; lia).
  set (sa := nd_scale a) in *. set (sb := nd_scale b) in *.
  assert (Hlt : forall x y lx ly sx sy, 1 <= lx -> 1 <= ly -> sx <= m -> sy <= m ->
    0 <= x < 10 ^ lx -> 10 ^ (ly - 1) <= y -> lx - sx < ly - sy ->
    x * 10 ^ (m - sx) < y * 10 ^ (m - sy)).
  { clear. intros x y lx ly sx sy Hx Hy Hsx Hsy Rx Ry He.
    pose proof (pow10_pos (m - sx) ltac:(lia)). pose proof (pow10_pos (m - sy) ltac:(lia)).
    apply (Z.lt_le_trans _ (10 ^ lx * 10 ^ (m - sx))); [nia|].
    apply (Z.le_trans _ (10 ^ (ly - 1) * 10 ^ (m - sy))); [|nia].
    rewrite <- !Z.pow_add_r by lia. apply Z.pow_le_mono_r; lia. }
  destruct (Z.compare_spec (len da - sa) (len db - sb)) as [E|L|G].
  - pose proof (proj1 Ha) as Hda. pose proof (proj1 Hb) as Hdb. rewrite Ea in Hda. rewrite Eb in Hdb.
    set (n := Z.max (len da) (len db)).
    rewrite (cmp_digits_value da db n) by (unfold n; first [done|lia]).
    rewrite <- (compare_mul_pos _ _ (10 ^ (m + (len da - sa) - n))) by (apply pow10_pos; unfold n; lia).
    rewrite <- !Z.mul_assoc, <- !Z.pow_add_r by (unfold n; lia).
    f_equal; do 2 f_equal; lia.
  - symmetry. apply Z.compare_lt_iff. by apply (Hlt _ _ (len da) (len db)); lia.
  - symmetry. apply Z.compare_gt_iff. by apply (Hlt _ _ (len db) (len da)); lia.
Qed.

(** [cmp] compares the numbers. *)
Lemma nd_cmp_spec m a b :
  wf_decimal a -> wf_decimal b -> nd_scale a <= m -> nd_scale b <= m ->
  nd_cmp a b = (nd_scaled m a ?= nd_scaled m b).
Proof.
  intros Ha Hb Hma Hmb. unfold nd_cmp, nd_scaled.
  assert (Hpos : forall d x l, wf_decimal d -> nd_digits d = x :: l -> 0 < digits_value (x :: l)).
  { intros d x l Hd E. pose proof (nd_digits_lead d x l Hd E) as [Hl _]. rewrite E in Hl.
    pose proof (pow10_pos (len (x :: l) - 1) ltac:(unfold len; cbn; lia)). lia. }
  pose proof (pow10_pos (m - nd_scale a) ltac:(lia)) as Pa.
  pose proof (pow10_pos (m - nd_scale b) ltac:(lia)) as Pb.
  pose proof (proj1 (proj2 Ha)) as Sa. pose proof (proj1 (proj2 Hb)) as Sb.
  destruct (nd_digits a) as [|xa la] eqn:Ea, (nd_digits b) as [|xb lb] eqn:Eb.
  - symmetry. apply Z.compare_eq_iff. change (digits_value []) with 0. lia.
  - pose proof (Hpos b xb lb Hb Eb). change (digits_value []) with 0.
    rewrite Z.mul_0_r, Z.mul_0_l.
    destruct Sb as [-> | ->]; symmetry; [apply Z.compare_lt_iff|apply Z.compare_gt_iff]; nia.
  - pose proof (Hpos a xa la Ha Ea). change (digits_value []) with 0.
    rewrite Z.mul_0_r, Z.mul_0_l.
    destruct Sa as [-> | ->]; symmetry; [apply Z.compare_gt_iff|apply Z.compare_lt_iff]; nia.
  - pose proof (Hpos a xa la Ha Ea) as Da. pose proof (Hpos b xb lb Hb Eb) as Db.
    rewrite !(nd_cmp_abs_spec m) by (done || congruence). rewrite Ea, Eb.
    set (x := digits_value (xa :: la)) in *. set (y := digits_value (xb :: lb)) in *.
    destruct Sa as [-> | ->], Sb as [-> | ->]; cbn [Z.compare Z.ltb Pos.compare Pos.compare_cont].
    + by rewrite !Z.mul_1_l.
    + symmetry. apply Z.compare_gt_iff. nia.
    + symmetry. apply Z.compare_lt_iff. nia.
    + replace (-1 * x * 10 ^ (m - nd_scale a)) with (- (x * 10 ^ (m - nd_scale a))) by lia.
      replace (-1 * y * 10 ^ (m - nd_scale b)) with (- (y * 10 ^ (m - nd_scale b))) by lia.
      by rewrite Z.compare_opp.
Qed.

(** ** Parsing *)

Lemma drop_zeros_value l : digits_value (drop_zeros l) = digits_value l.
Proof.
  induction l as [|b l IH]; [done|]. cbn [drop_zeros]. case_bool_decide as H; [|done].
  subst. rewrite digits_value_cons, IH. by rewrite Z.mul_0_l.
Qed.

Lemma drop_zeros_digits l : forallb is_digit l = true -> forallb is_digit (drop_zeros l) = true.
Proof.
  induction l as [|b l IH]; [done|]. cbn [drop_zeros forallb]. intros [Hb Hl]%andb_true_iff.
  case_bool_decide; [by apply IH|]. cbn [forallb]. by rewrite Hb, Hl.
Qed.

Lemma drop_zeros_lead l b r : drop_zeros l = b :: r -> b <> x30.
Proof.
  induction l as [|a l IH]; [done|]. cbn [drop_zeros]. case_bool_decide; [done|]. by intros [= -> _].
Qed.

Lemma pop_zeros_spec l : forall scale ds s,
  pop_zeros l scale = Some (ds, s) ->
  exists n : nat, rev l = ds ++ replicate n x30 /\ s = scale - Z.of_nat n.
Proof.
  induction l as [|b l IH]; intros scale ds s; cbn [pop_zeros].
  - intros [= <- <-]. exists 0%nat. split; [done|lia].
  - case_bool_decide as H.
    + unfold i64_checked_sub, i64_checked. destruct (_ && _); [|discriminate]. cbn.
      intros (n & Hr & Hs)%IH. exists (S n). subst b. rewrite Hr, <- app_assoc.
      split; [|lia]. f_equal. symmetry. apply (replicate_S_end n).
    + intros [= <- <-]. exists 0%nat. rewrite app_nil_r. split; [done|lia].
Qed.

Lemma digits_value_zeros n : digits_value (replicate n x30) = 0.
Proof.
  induction n as [|n IH]; [done|]. cbn [replicate]. rewrite digits_value_cons, IH.
  change (digit_value x30) with 0. lia.
Qed.

(** What the last part of [parse] makes of the digits read. *)
Lemma normalize_digits sign digits scale ds s m :
  forallb is_digit digits = true -> drop_zeros digits <> [] -> scale <= m ->
  pop_zeros (rev (drop_zeros digits)) scale = Some (ds, s) ->
  let d := {| nd_sign := sign; nd_digits := ds; nd_scale := s |} in
  forallb is_digit ds = true /\ (exists b r, ds = b :: r /\ b <> x30) /\ s <= scale /\
  nd_scaled m d = sign * digits_value digits * 10 ^ (m - scale).
Proof.
  intros Hd Hne Hm H d. apply pop_zeros_spec in H as (n & Hr & Hs). rewrite rev_involutive in Hr.
  pose proof (drop_zeros_digits _ Hd) as Hd'. pose proof (drop_zeros_value digits) as Hv.
  rewrite Hr in Hd', Hv. rewrite forallb_app in Hd'. apply andb_true_iff in Hd' as [Hds _].
  split; [done|]. split; [|split; [lia|]].
  - destruct ds as [|b r].
    + exfalso. destruct n; cbn in Hr; [done|]. by apply drop_zeros_lead in Hr.
    + exists b, r. split; [done|]. by apply (drop_zeros_lead digits b (r ++ replicate n x30)).
  - unfold nd_scaled, d. cbn [nd_sign nd_digits nd_scale].
    rewrite digits_value_app, digits_value_zeros, Z.add_0_r in Hv. rewrite <- Hv.
    unfold len. rewrite length_replicate. subst s.
    replace (m - (scale - Z.of_nat n)) with (Z.of_nat n + (m - scale)) by lia.
    rewrite Z.pow_add_r by lia. lia.
Qed.

(** ** Plain decimal literals

    [sign? digits . digits], the form the server writes decimals in. *)

Definition plain_ascii (b : byte) : bool := (33 <=? u8_to_Z b) && (u8_to_Z b <=? 127).

Lemma whitespace_at_plain b l : plain_ascii b = true -> whitespace_at (b :: l) = 0%nat.
Proof.
  unfold plain_ascii. intros H. unfold whitespace_at. cbn [take map].
  destruct (take 2 l) as [|b1 [|b2 r]]; cbn [map];
    repeat match goal with
    | |- context [u8_to_Z b <=? ?n] => destruct (Z.leb_spec (u8_to_Z b) n); try lia
    | |- context [?n <=? u8_to_Z b] => destruct (Z.leb_spec n (u8_to_Z b)); try lia
    | |- context [u8_to_Z b =? ?n] => destruct (Z.eqb_spec (u8_to_Z b) n); try lia
    end; done.
Qed.

Lemma trim_start_plain b l : plain_ascii b = true -> trim_start (b :: l) = b :: l.
Proof. intros H. unfold trim_start. cbn [length trim_start_fuel]. by rewrite whitespace_at_plain. Qed.

Lemma whitespace_before_plain l b : plain_ascii b = true -> whitespace_before (l ++ [b]) = 0%nat.
Proof.
  unfold plain_ascii. intros Hb. unfold whitespace_before. rewrite length_app. cbn [length].
  assert (H1 : drop (length l + 1 - 1) (l ++ [b]) = [b]).
  { replace (length l + 1 - 1)%nat with (length l) by lia. apply drop_app_length. }
  rewrite H1, whitespace_at_plain by done. cbn [Nat.eqb andb].
  assert (Hk : forall k, (whitespace_at (drop (length l + 1 - k) (l ++ [b])) =? k)%nat &&
    (k <=? length l + 1)%nat = false \/ k = 0%nat \/ k = 1%nat \/ (4 <= k)%nat).
  { intros k. destruct (decide (k = 0 \/ k = 1 \/ 4 <= k)%nat) as [?|Hk]; [tauto|left].
    destruct (Nat.leb_spec k (length l + 1)) as [Hle|]; [|apply andb_false_r]. rewrite andb_true_r.
    rewrite drop_app_le by lia.
    destruct (drop (length l + 1 - k) l) as [|x r] eqn:E.
    { apply (f_equal length) in E. rewrite length_drop in E. cbn in E. lia. }
    apply (f_equal length) in E. rewrite length_drop in E. cbn [length] in E.
    unfold whitespace_at. destruct r as [|y r]; cbn [app take map].
    - cbn [length] in E. assert (k = 2%nat) as -> by lia.
      repeat case_match; first [done | exfalso; lia].
    - destruct r as [|z r]; [|cbn [length] in E; lia]. cbn [length] in E.
      assert (k = 3%nat) as -> by lia. cbn [app take map].
      repeat case_match; first [done | exfalso; lia]. }
  destruct (Hk 2%nat) as [-> | [?|[?|?]]]; try lia.
  destruct (Hk 3%nat) as [-> | [?|[?|?]]]; try lia.
Qed.

Lemma trim_plain b l c r :
  b :: l = r ++ [c] -> plain_ascii b = true -> plain_ascii c = true -> trim (b :: l) = b :: l.
Proof.
  intros E Hb Hc. unfold trim. rewrite trim_start_plain by done. unfold trim_end.
  cbn [length trim_end_fuel]. rewrite E, whitespace_before_plain by done. done.
Qed.

Lemma is_digit_plain b : is_digit b = true -> plain_ascii b = true.
Proof. unfold is_digit, plain_ascii. lia. Qed.

(** The mantissa loop over digits. *)
Lemma read_mantissa_digits l : forall st r,
  forallb is_digit l = true -> 0 <= ms_frac_len st -> ms_frac_len st + len l <= i64_max ->
  read_mantissa st (l ++ r) =
  read_mantissa {| ms_digits := ms_digits st ++ l;
                   ms_frac_len := ms_frac_len st + (if ms_saw_dot st then len l else 0);
                   ms_saw_dot := ms_saw_dot st;
                   ms_saw_digit := ms_saw_digit st || negb (bool_decide (l = [])) |} r.
Proof.
  induction l as [|b l IH]; intros st r Hd H0 Hm.
  - cbn [app]. f_equal. destruct st; cbn. rewrite app_nil_r, orb_false_r. f_equal.
    destruct ms_saw_dot0; unfold len; cbn; lia.
  - cbn [forallb] in Hd. apply andb_true_iff in Hd as [Hb Hd].
    assert (Hl : len (b :: l) = 1 + len l) by (unfold len; cbn [length]; lia).
    rewrite Hl in Hm. assert (0 <= len l) by (unfold len; lia).
    cbn [app read_mantissa]. unfold mantissa_step. rewrite Hb.
    assert (Hs : (if ms_saw_dot st then i64_checked_add (ms_frac_len st) 1 else Some (ms_frac_len st)) =
      Some (ms_frac_len st + (if ms_saw_dot st then 1 else 0))).
    { destruct (ms_saw_dot st); [|by rewrite Z.add_0_r].
      apply i64_checked_ok. unfold in_signed, i64_max in *. lia. }
    rewrite Hs. cbn [mbind option_bind]. rewrite IH; cbn [ms_digits ms_frac_len ms_saw_dot ms_saw_digit].
    + rewrite Hl, <- app_assoc, orb_true_r. cbn [app orb]. do 2 f_equal.
      destruct (ms_saw_dot st); lia.
    + done.
    + destruct (ms_saw_dot st); lia.
    + destruct (ms_saw_dot st); lia.
Qed.

Lemma split_exponent_none l :
  forallb (fun b => is_digit b || bool_decide (b = x2e)) l = true -> split_exponent l = (l, None).
Proof.
  induction l as [|b l IH]; [done|]. cbn [forallb split_exponent]. intros [Hb Hl]%andb_true_iff.
  rewrite IH by done.
  assert (b <> x65 /\ b <> x45) as [? ?] by (split; intros ->; discriminate Hb).
  by rewrite !bool_decide_eq_false_2.
Qed.

Lemma pop_zeros_some l : forall scale,
  i64_min <= scale - len l -> scale <= i64_max -> is_Some (pop_zeros l scale).
Proof.
  induction l as [|b l IH]; intros scale Hlo Hhi; cbn [pop_zeros]; [eauto|].
  assert (Hl : len (b :: l) = 1 + len l) by (unfold len; cbn [length]; lia).
  assert (0 <= len l) by (unfold len; lia).
  case_bool_decide; [|eauto]. unfold i64_checked_sub, i64_checked.
  destruct (Z.leb_spec i64_min (scale - 1)), (Z.leb_spec (scale - 1) i64_max); cbn [andb];
    try lia. cbn [mbind option_bind]. apply IH; lia.
Qed.

(** The literal with sign [negative], integer part [ip] and fraction [fp]. *)
Definition plain_literal (negative : bool) (ip fp : list byte) : string :=
  of_bytes ((if negative then [x2d] else []) ++ ip ++ x2e :: fp).

Definition plain_parts (ip fp : list byte) : Prop :=
  forallb is_digit ip = true /\ forallb is_digit fp = true /\ ip <> [] /\ fp <> [] /\
  len (ip ++ fp) < 2 ^ 62.

Lemma trim_literal (negative : bool) (ip fp : list byte) :
  plain_parts ip fp ->
  trim ((if negative then [x2d] else []) ++ ip ++ x2e :: fp) =
  (if negative then [x2d] else []) ++ ip ++ x2e :: fp.
Proof.
  intros (Hip & Hfp & Hni & Hnf & _). destruct (exists_last Hnf) as (fr & fl & ->).
  rewrite forallb_app in Hfp. apply andb_true_iff in Hfp as [_ Hfl]. cbn in Hfl.
  rewrite andb_true_r in Hfl. apply is_digit_plain in Hfl.
  destruct ip as [|i0 ip]; [done|]. apply andb_true_iff in Hip as [Hi0 _].
  apply is_digit_plain in Hi0. destruct negative; cbn [app].
  - apply (trim_plain _ _ fl (x2d :: i0 :: ip ++ x2e :: fr)); [|done|done].
    cbn [app]. by rewrite <- app_assoc.
  - apply (trim_plain _ _ fl (i0 :: ip ++ x2e :: fr)); [|done|done].
    cbn [app]. by rewrite <- app_assoc.
Qed.

Lemma split_exponent_literal ip fp :
  plain_parts ip fp -> split_exponent (ip ++ x2e :: fp) = (ip ++ x2e :: fp, None).
Proof.
  intros (Hip & Hfp & _). apply split_exponent_none. rewrite forallb_app. cbn [forallb].
  assert (Hmono : forall l, forallb is_digit l = true ->
    forallb (fun b => is_digit b || bool_decide (b = x2e)) l = true).
  { intros l. rewrite !forallb_forall. intros Hl b Hb. by rewrite (Hl b Hb). }
  by rewrite !Hmono by done.
Qed.

Lemma read_mantissa_literal ip fp :
  plain_parts ip fp ->
  read_mantissa {| ms_digits := []; ms_frac_len := 0; ms_saw_dot := false; ms_saw_digit := false |}
    (ip ++ x2e :: fp) =
  Some {| ms_digits := ip ++ fp; ms_frac_len := len fp; ms_saw_dot := true; ms_saw_digit := true |}.
Proof.
  intros (Hip & Hfp & Hni & Hnf & Hlen). rewrite len_app in Hlen.
  pose proof (len_nonneg ip). pose proof (len_nonneg fp).
  rewrite read_mantissa_digits by (cbn [ms_frac_len]; unfold i64_max; first [done|lia]).
  cbn [ms_digits ms_frac_len ms_saw_dot ms_saw_digit app orb read_mantissa].
  unfold mantissa_step. change (is_digit x2e) with false.
  rewrite (bool_decide_eq_true_2 (x2e = x2e)) by done.
  cbn [andb negb ms_saw_dot mbind option_bind ms_digits ms_frac_len ms_saw_digit].
  rewrite <- (app_nil_r fp) at 1.
  rewrite read_mantissa_digits by (cbn [ms_frac_len]; unfold i64_max; first [done|lia]).
  cbn [ms_digits ms_frac_len ms_saw_dot ms_saw_digit read_mantissa].
  by rewrite (bool_decide_eq_false_2 (ip = [])).
Qed.

(** The sign test of [parse]. *)
Lemma sign_literal (negative : bool) (ip fp : list byte) :
  plain_parts ip fp ->
  exists h t, (if negative then [x2d] else []) ++ ip ++ x2e :: fp = h :: t /\
    (if bool_decide (h = x2d) then (-1, t) else if bool_decide (h = x2b) then (1, t) else (1, h :: t)) =
    (if negative then -1 else 1, ip ++ x2e :: fp).
Proof.
  intros (Hip & _ & Hni & _). destruct ip as [|i0 ip]; [done|]. destruct negative.
  - exists x2d, ((i0 :: ip) ++ x2e :: fp). by rewrite bool_decide_eq_true_2.
  - exists i0, (ip ++ x2e :: fp). split; [done|]. apply andb_true_iff in Hip as [Hi0 _].
    rewrite !bool_decide_eq_false_2; [done|by intros ->|by intros ->].
Qed.

Lemma len_drop_zeros l : len (drop_zeros l) <= len l.
Proof.
  induction l as [|b l IH]; [done|]. cbn [drop_zeros]. case_bool_decide; [|done].
  rewrite len_cons. lia.
Qed.

Lemma nd_parse_plain negative ip fp m :
  plain_parts ip fp -> len fp <= m ->
  exists d, nd_parse (plain_literal negative ip fp) = Some d /\ wf_decimal d /\ nd_scale d <= len fp /\
    nd_scaled m d = (if negative then -1 else 1) * digits_value (ip ++ fp) * 10 ^ (m - len fp).
Proof.
  intros Hparts Hm. unfold nd_parse, plain_literal. rewrite as_of_bytes, trim_literal by done.
  destruct (sign_literal negative ip fp Hparts) as (h & t & -> & ->).
  rewrite split_exponent_literal by done. cbn [mbind option_bind].
  rewrite read_mantissa_literal by done.
  cbn [mbind option_bind ms_saw_digit negb ms_frac_len ms_digits].
  destruct Hparts as (Hip & Hfp & Hni & Hnf & Hlen). rewrite len_app in Hlen.
  pose proof (len_nonneg ip). pose proof (len_nonneg fp).
  assert (Hsc : i64_checked_sub (len fp) 0 = Some (len fp)).
  { unfold i64_checked_sub. rewrite Z.sub_0_r. apply i64_checked_ok. unfold in_signed. lia. }
  rewrite Hsc. cbn [mbind option_bind].
  assert (Hall : forallb is_digit (ip ++ fp) = true) by (by rewrite forallb_app, Hip, Hfp).
  pose proof (len_drop_zeros (ip ++ fp)) as Hzl. rewrite len_app in Hzl.
  destruct (drop_zeros (ip ++ fp)) as [|z zs] eqn:Ez.
  - eexists. split; [done|]. split; [|split; [cbn; lia|]].
    + repeat split; try done; [by left|..]; cbn; lia.
    + pose proof (drop_zeros_value (ip ++ fp)) as Hv. rewrite Ez in Hv. rewrite <- Hv.
      unfold nd_scaled. cbn [nd_sign nd_digits nd_scale]. change (digits_value []) with 0. lia.
  - destruct (pop_zeros_some (rev (z :: zs)) (len fp)) as [[ds s] Hp].
    { unfold len, i64_min in *. rewrite length_rev. lia. }
    { unfold i64_max. lia. }
    rewrite Hp. cbn [mbind option_bind]. rewrite <- Ez in Hp.
    destruct (normalize_digits (if negative then -1 else 1) (ip ++ fp) (len fp) ds s m Hall
      ltac:(by rewrite Ez) Hm Hp) as (Hds & (b & r & Hb & Hb0) & Hs & Hval).
    eexists. split; [done|]. split; [|split; [done|exact Hval]].
    apply pop_zeros_spec in Hp as (n & Hr & Hs'). rewrite rev_involutive, Ez in Hr.
    apply (f_equal len) in Hr. rewrite len_app in Hr. unfold len in Hr at 3.
    rewrite length_replicate in Hr.
    split; [done|]. split; [by destruct negative; [right|left]|]. cbn [nd_digits nd_sign nd_scale].
    split; [by rewrite Hb|]. unfold in_signed. pose proof (len_nonneg ds). lia.
Qed.

(** ** Order *)

Lemma nd_cmp_antisym a b : nd_cmp b a = CompOpp (nd_cmp a b).
Proof.
  assert (Habs : forall x y, nd_cmp_abs y x = CompOpp (nd_cmp_abs x y)).
  { intros x y. unfold nd_cmp_abs. rewrite (Z.compare_antisym (nd_exp x)), cmp_digits_antisym.
    by destruct (nd_exp x ?= nd_exp y). }
  unfold nd_cmp. destruct (nd_digits a), (nd_digits b);
    [done|by rewrite (Z.compare_antisym 0)|by rewrite (Z.compare_antisym (nd_sign a))|].
  rewrite (Z.compare_antisym (nd_sign a)), (Habs a b).
  destruct (Z.compare_spec (nd_sign a) (nd_sign b)) as [->| |]; cbn [CompOpp]; [|done..].
  by destruct (nd_sign b <? 0); rewrite ?CompOpp_involutive.
Qed.

Lemma numeric_cmp_antisym a b : numeric_cmp b a = CompOpp <$> numeric_cmp a b.
Proof.
  unfold numeric_cmp, str_cmp. destruct (nd_parse a), (nd_parse b); cbn [fmap option_fmap option_map];
    f_equal; first [apply nd_cmp_antisym | apply bytes_cmp_antisym].
Qed.

Lemma bool_cmp_antisym a b : bool_cmp b a = CompOpp (bool_cmp a b).
Proof. by destruct a, b. Qed.

Lemma cv_cmp_antisym a b : cv_partial_cmp b a = CompOpp <$> cv_partial_cmp a b.
Proof.
  destruct a, b; cbn [cv_partial_cmp]; try done;
    first [ apply fcompare_antisym; lia
          | apply numeric_cmp_antisym
          | cbn [fmap option_fmap option_map]; f_equal;
            first [apply Z.compare_antisym | apply bytes_cmp_antisym | apply bool_cmp_antisym] ].
Qed.

(** ** Equality *)

Lemma feqb_compare (mw ew a b : Z) :
  feqb mw ew a b = match fcompare mw ew a b with Some Eq => true | _ => false end.
Proof. unfold feqb, fcompare, SpecFloat.SFeqb. by destruct (SpecFloat.SFcompare _ _) as [[]|]. Qed.

Lemma feqb_sym (mw ew a b : Z) : 0 < mw -> 1 < ew -> feqb mw ew a b = feqb mw ew b a.
Proof.
  intros Hm He. rewrite !feqb_compare, (fcompare_antisym mw ew Hm He a b).
  by destruct (fcompare mw ew a b) as [[]|].
Qed.

Lemma bool_decide_eq_sym {A} `{EqDecision A} (x y : A) : bool_decide (x = y) = bool_decide (y = x).
Proof. apply bool_decide_ext. split; congruence. Qed.

Lemma cv_eqb_sym (a : ColumnValue) : forall b : ColumnValue, cv_eqb a b = cv_eqb b a.
Proof.
  induction a as [vs IH|a Ha] using ColumnValue_nested_ind; intros b.
  - destruct b as [| | | | | | | | | | | | | | | |ws]; try done. cbn [cv_eqb].
    revert ws. induction IH as [|v vs Hv _ IH]; intros [|w ws]; try done.
    rewrite Hv. f_equal. apply IH.
  - destruct a; try (by destruct (Ha values)); destruct b; try done; cbn [cv_eqb];
      first [apply Z.eqb_sym | by apply feqb_sym | apply bool_decide_eq_sym | by destruct v, v0].
Qed.

(** ** Comparable values

    Within one class [cv_partial_cmp] is a total order: that of the integers for
    numbers, that of the bytes for texts.  NUMERIC, JSON, arrays and NaN are in no
    class. *)

Definition value_class (v : ColumnValue) : option nat :=
  match v with
  | Int16 _ | Int32 _ | Int64 _ => Some 0%nat
  | Float32 b => if fis_nan 23 8 b then None else Some 1%nat
  | Float64 b => if fis_nan 52 11 b then None else Some 2%nat
  | Boolean _ => Some 3%nat
  | Text _ => Some 4%nat
  | Date _ => Some 5%nat
  | Timestamp _ => Some 6%nat
  | TimestampTz _ => Some 7%nat
  | Uuid _ => Some 8%nat
  | Bytea _ => Some 9%nat
  | _ => None
  end.

Definition value_rank (v : ColumnValue) : Z :=
  match v with
  | Int16 z | Int32 z | Int64 z => z
  | Float32 b => fval 23 8 b
  | Float64 b => fval 52 11 b
  | Boolean b => if b then 1 else 0
  | _ => 0
  end.

Definition value_bytes (v : ColumnValue) : list byte :=
  match v with
  | Text s | Date s | Timestamp s | TimestampTz s | Uuid s => as_bytes s
  | Bytea l => l
  | _ => []
  end.

(** The order of a class: ranks first, bytes where the ranks are all 0. *)
Definition class_compare (a b : ColumnValue) : comparison :=
  match value_rank a ?= value_rank b with
  | Eq => bytes_cmp (value_bytes a) (value_bytes b)
  | c => c
  end.

Lemma class_cmp (k : nat) (a b : ColumnValue) :
  value_class a = Some k -> value_class b = Some k -> cv_partial_cmp a b = Some (class_compare a b).
Proof.
  unfold class_compare. destruct a, b; cbn [value_class];
    repeat match goal with |- context [if fis_nan ?m ?e ?x then _ else _] =>
      destruct (fis_nan m e x) eqn:? end;
    try congruence; intros _ _; cbn [cv_partial_cmp value_rank value_bytes bytes_cmp];
    first [ rewrite fcompare_val by (done || lia); by destruct (_ ?= _)
          | by destruct v, v0
          | by destruct (_ ?= _)
          | done ].
Qed.

Lemma class_compare_antisym (a b : ColumnValue) : class_compare b a = CompOpp (class_compare a b).
Proof.
  unfold class_compare. rewrite (Z.compare_antisym (value_rank a)), (bytes_cmp_antisym (value_bytes a)).
  by destruct (value_rank a ?= value_rank b).
Qed.

Lemma bytes_cmp_not_gt (a b : list byte) : bytes_cmp a b <> Gt <-> bytes_leb a b = true.
Proof. unfold bytes_leb. by destruct (bytes_cmp a b). Qed.

Lemma class_compare_trans (a b c : ColumnValue) :
  class_compare a b <> Gt -> class_compare b c <> Gt -> class_compare a c <> Gt.
Proof.
  unfold class_compare.
  destruct (Z.compare_spec (value_rank a) (value_rank b)) as [E1|L1|G1]; [| |done];
    destruct (Z.compare_spec (value_rank b) (value_rank c)) as [E2|L2|G2]; try done;
    destruct (Z.compare_spec (value_rank a) (value_rank c)); try lia; try done.
  rewrite !bytes_cmp_not_gt. apply bytes_leb_trans.
Qed.

(** ** Properties *)

(** NUMERIC values are compared exactly, whatever their length: for two
    literals [±ip.fp] the order is that of the integers [±(ip fp) * 10 ^ (m - |fp|)]
    at any common scale [m], with no rounding and no overflow. *)
Theorem decimal_comparison_exact (na nb : bool) (ipa fpa ipb fpb : list byte) (m : Z) :
  plain_parts ipa fpa -> plain_parts ipb fpb -> len fpa <= m -> len fpb <= m ->
  cv_partial_cmp (Numeric (plain_literal na ipa fpa)) (Numeric (plain_literal nb ipb fpb)) =
    Some ((if na then -1 else 1) * digits_value (ipa ++ fpa) * 10 ^ (m - len fpa) ?=
          (if nb then -1 else 1) * digits_value (ipb ++ fpb) * 10 ^ (m - len fpb)).
Proof.
  intros Ha Hb Hma Hmb. cbn [cv_partial_cmp]. unfold numeric_cmp.
  destruct (nd_parse_plain na ipa fpa m Ha Hma) as (a & -> & Wa & Sa & Va).
  destruct (nd_parse_plain nb ipb fpb m Hb Hmb) as (b & -> & Wb & Sb & Vb).
  rewrite (nd_cmp_spec m) by (done || lia). by rewrite Va, Vb.
Qed.

Lemma decimal_comparison_exact_witness :
  cv_partial_cmp (Numeric "-12.50") (Numeric "-12.5") = Some Eq.
Proof.
  apply (decimal_comparison_exact true true [x31; x32] [x35; x30] [x31; x32] [x35] 2);
    repeat split; vm_compute; congruence.
Defined.

(** The order of column values is antisymmetric across every pair of types:
    swapping the operands reverses the answer, and two values are incomparable
    (NaN, NULL, JSON, arrays, unrelated types) in both orders or in neither. *)
Theorem value_order_antisymmetric (a b : ColumnValue) :
  cv_partial_cmp b a = CompOpp <$> cv_partial_cmp a b.
Proof. apply cv_cmp_antisym. Qed.
