(* ===== verification/Text.v ===== *)
(** * String methods of the standard library

    The [str] methods the server parses commands, defaults and names with, on the
    bytes of the string.  The patterns are ASCII throughout, so a match on bytes is a
    match on characters. *)

From stdpp Require Import pretty.
From S2P Require Import Prelude Values.

(** [s == "..."] and the like. *)
Definition str_is (l : list byte) (s : string) : bool := bool_decide (l = as_bytes s).

Definition lower (l : list byte) : list byte := map ascii_lower_byte l.

Definition ascii_upper_byte (b : byte) : byte :=
  if (97 <=? u8_to_Z b) && (u8_to_Z b <=? 122) then u8_of_Z (u8_to_Z b - 32) else b.
Definition upper (l : list byte) : list byte := map ascii_upper_byte l.

(** [str::eq_ignore_ascii_case]. *)
Definition eq_ignore_ascii_case (a b : list byte) : bool := bool_decide (lower a = lower b).

Definition has_prefix (l : list byte) (p : string) : bool := starts_with l (as_bytes p).
Definition without_prefix (l : list byte) (p : string) : option (list byte) := strip_prefix (as_bytes p) l.

(** [str::contains] of a string. *)
Fixpoint contains (l p : list byte) : bool :=
  starts_with l p || match l with [] => false | _ :: r => contains r p end.
Definition has (l : list byte) (p : string) : bool := contains l (as_bytes p).

(** [char] patterns are predicates on bytes. *)
Fixpoint trim_start_matches (p : byte -> bool) (l : list byte) : list byte :=
  match l with b :: r => if p b then trim_start_matches p r else l | [] => [] end.
Definition trim_end_matches (p : byte -> bool) (l : list byte) : list byte :=
  rev (trim_start_matches p (rev l)).
Definition trim_matches (p : byte -> bool) (l : list byte) : list byte :=
  trim_end_matches p (trim_start_matches p l).
Definition is_byte (c b : byte) : bool := bool_decide (b = c).

(** [str::trim_end_matches] of a string. *)
Fixpoint trim_end_string_fuel (fuel : nat) (p l : list byte) : list byte :=
  match fuel with
  | O => l
  | S fuel =>
      if (length p =? 0)%nat then l
      else match strip_prefix (rev p) (rev l) with
      | Some r => trim_end_string_fuel fuel p (rev r)
      | None => l
      end
  end.
(** Each round drops the pattern, so the length is enough fuel. *)
Definition trim_end_string (p : string) (l : list byte) : list byte :=
  trim_end_string_fuel (length l) (as_bytes p) l.

(** [str::replace] of a character by another. *)
Definition replace_byte (a b : byte) (l : list byte) : list byte :=
  map (fun c => if bool_decide (c = a) then b else c) l.

(** [str::split_once]. *)
Fixpoint split_once (c : byte) (l : list byte) : option (list byte * list byte) :=
  match l with
  | [] => None
  | b :: r =>
      if bool_decide (b = c) then Some ([], r)
      else match split_once c r with Some (x, y) => Some (b :: x, y) | None => None end
  end.

(** [str::rsplit_once]. *)
Definition rsplit_once (c : byte) (l : list byte) : option (list byte * list byte) :=
  match split_once c (rev l) with Some (y, x) => Some (rev x, rev y) | None => None end.

(** [str::strip_suffix]. *)
Definition strip_suffix (p l : list byte) : option (list byte) :=
  match strip_prefix (rev p) (rev l) with Some r => Some (rev r) | None => None end.

(** [str::split] on a character. *)
Fixpoint split_on (c : byte) (l : list byte) : list (list byte) :=
  match l with
  | [] => [[]]
  | b :: r =>
      if bool_decide (b = c) then [] :: split_on c r
      else match split_on c r with x :: xs => (b :: x) :: xs | [] => [[b]] end
  end.

(** [str::split_whitespace]: the word up to the next white space, then the rest. *)
Fixpoint split_whitespace_fuel (fuel : nat) (word l : list byte) : list (list byte) :=
  let flush := match word with [] => [] | _ => [rev word] end in
  match fuel with
  | O => flush
  | S fuel =>
      match whitespace_at l, l with
      | _, [] => flush
      | O, b :: r => split_whitespace_fuel fuel (b :: word) r
      | n, _ => flush ++ split_whitespace_fuel fuel [] (drop n l)
      end
  end.
Definition split_whitespace (l : list byte) : list (list byte) :=
  split_whitespace_fuel (S (length l)) [] l.

(** [parse::<i32>] and [parse::<u64>]. *)
Definition parse_i32 (l : list byte) : option Z :=
  z ← parse_i64 l; if (-2 ^ 31 <=? z) && (z <? 2 ^ 31) then Some z else None.
Definition parse_u64 (l : list byte) : option Z :=
  let ds := match l with x2b :: r => r | _ => l end in
  if bool_decide (ds = []) || negb (forallb is_digit ds) then None
  else let z := digits_value ds in if z <=? u64_max then Some z else None.

Definition parse_u32 (l : list byte) : option Z :=
  z ← parse_u64 l; if z <=? u32_max then Some z else None.

(** [slice::join]. *)
Fixpoint join_with (sep : list byte) (parts : list (list byte)) : list byte :=
  match parts with
  | [] => []
  | [p] => p
  | p :: rest => p ++ sep ++ join_with sep rest
  end.

(** ** Facts *)

Lemma as_bytes_app (s t : string) : as_bytes (s +:+ t)%string = as_bytes s ++ as_bytes t.
Proof.
  unfold as_bytes. induction s as [|c s IH]; [done|].
  change (String c s +:+ t)%string with (String c (s +:+ t)%string). cbn. f_equal. exact IH.
Qed.

Lemma split_on_nonempty c l : exists x xs, split_on c l = x :: xs.
Proof.
  destruct l as [|b r]; cbn; [by repeat eexists|]. destruct (bool_decide (b = c)); [by repeat eexists|].
  destruct (split_on c r); by repeat eexists.
Qed.

Lemma split_on_none c l : c ∉ l -> split_on c l = [l].
Proof.
  induction l as [|b r IH]; [done|]. intros [Hb Hr]%not_elem_of_cons. cbn.
  rewrite bool_decide_false by done. by rewrite IH.
Qed.

Lemma split_on_app c a r : c ∉ a -> split_on c (a ++ c :: r) = a :: split_on c r.
Proof.
  induction a as [|b a IH]; cbn.
  - intros _. by rewrite bool_decide_true.
  - intros [Hb Ha]%not_elem_of_cons. rewrite bool_decide_false by done. by rewrite IH.
Qed.

Lemma contains_byte (c : byte) (l : list byte) : contains l [c] = bool_decide (c ∈ l).
Proof.
  induction l as [|b r IH]; [done|]. cbn [contains]. rewrite IH. unfold starts_with. cbn.
  destruct (decide (c = b)) as [->|Hb]; [cbn; symmetry; apply bool_decide_eq_true; constructor|].
  cbn. apply bool_decide_ext. rewrite elem_of_cons. naive_solver.
Qed.

Lemma length_lower l : length (lower l) = length l.
Proof. apply length_map. Qed.

Lemma strip_suffix_app p l : strip_suffix p (l ++ p) = Some l.
Proof.
  unfold strip_suffix. rewrite rev_app_distr, strip_prefix_app. f_equal. apply rev_involutive.
Qed.

(** Two suffixes of one length differ in the last byte. *)
Lemma strip_suffix_last p c l d : c <> d -> strip_suffix (p ++ [c]) (l ++ [d]) = None.
Proof. intros H. unfold strip_suffix. rewrite !rev_app_distr. cbn. by rewrite decide_False. Qed.

Lemma strip_suffix1_last c l d : c <> d -> strip_suffix1 c (l ++ [d]) = None.
Proof. intros H. unfold strip_suffix1. rewrite last_snoc. by rewrite decide_False. Qed.

Lemma split_once_app c a r : c ∉ a -> split_once c (a ++ c :: r) = Some (a, r).
Proof.
  induction a as [|b a IH]; cbn.
  - intros _. by rewrite bool_decide_true.
  - intros [Hb Ha]%not_elem_of_cons. rewrite bool_decide_false by done. by rewrite IH.
Qed.

Lemma rsplit_once_app c a r : c ∉ r -> rsplit_once c (a ++ c :: r) = Some (a, r).
Proof.
  intros Hr. unfold rsplit_once. rewrite rev_app_distr. cbn [rev]. rewrite <- app_assoc. cbn [app].
  rewrite split_once_app.
  - by rewrite !rev_involutive.
  - by rewrite list_elem_of_In, <- in_rev, <- list_elem_of_In.
Qed.

Lemma contains_missing b p l : b ∉ l -> contains l (b :: p) = false.
Proof.
  induction l as [|c l IH]; [done|]. intros [Hb Hl]%not_elem_of_cons. cbn [contains].
  rewrite IH by done. unfold starts_with. cbn. by rewrite decide_False.
Qed.

(** ** Visible characters

    Printable ASCII other than the space: no byte of a white-space character. *)

Definition visible (b : byte) : bool := (33 <=? u8_to_Z b) && (u8_to_Z b <=? 126).

Lemma whitespace_at_visible b l : visible b = true -> whitespace_at (b :: l) = 0%nat.
Proof.
  unfold visible, whitespace_at. intros H. cbn [take map]. set (a := u8_to_Z b) in *.
  assert (((9 <=? a) && (a <=? 13)) || (a =? 32) = false) as -> by lia.
  destruct (map u8_to_Z (take 2 l)) as [|x r]; [done|].
  assert ((a =? 194) = false) as -> by lia. destruct r as [|c r]; [done|].
  assert ((a =? 225) = false) as -> by lia. assert ((a =? 226) = false) as -> by lia.
  assert ((a =? 227) = false) as -> by lia. done.
Qed.

Lemma trim_start_visible b l : visible b = true -> trim_start (b :: l) = b :: l.
Proof. intros H. unfold trim_start. cbn [length trim_start_fuel]. by rewrite whitespace_at_visible. Qed.

(** A white-space character does not end in a visible byte. *)
Lemma whitespace_at_end b l n : visible b = true -> length l = n -> (n < 3)%nat ->
  whitespace_at (l ++ [b]) <> S n.
Proof.
  unfold visible, whitespace_at. intros Hb <- Hn. set (z := u8_to_Z b) in *.
  destruct l as [|b1 [|b2 [|b3 l]]]; cbn [app take map length] in *; fold z; try lia.
  - assert (((9 <=? z) && (z <=? 13)) || (z =? 32) = false) as -> by lia. done.
  - destruct (((9 <=? u8_to_Z b1) && _) || _); [lia|].
    assert ((z =? 133) || (z =? 160) = false) as -> by lia. rewrite andb_false_r. done.
  - destruct (((9 <=? u8_to_Z b1) && _) || _); [lia|].
    destruct ((u8_to_Z b1 =? 194) && _); [lia|].
    assert ((z =? 128) = false) as -> by lia.
    assert ((128 <=? z) = false) as -> by lia. assert ((z =? 159) = false) as -> by lia.
    assert ((z =? 168) = false) as -> by lia. assert ((z =? 169) = false) as -> by lia.
    assert ((z =? 175) = false) as -> by lia. cbn [andb orb].
    rewrite !andb_false_r. cbn [orb]. lia.
Qed.

Lemma drop_end {A} (l : list A) b k : (k <= length l)%nat -> exists x, drop k (l ++ [b]) = x ++ [b] /\ length x = (length l - k)%nat.
Proof.
  intros Hk. exists (drop k l). rewrite drop_app_le by done. split; [done|]. by rewrite length_drop.
Qed.

Lemma whitespace_before_visible b l : visible b = true -> whitespace_before (l ++ [b]) = 0%nat.
Proof.
  intros Hb. unfold whitespace_before. rewrite length_app. cbn [length].
  assert (forall k, (1 <= k)%nat -> (k <= 3)%nat ->
    ((whitespace_at (drop (length l + 1 - k) (l ++ [b])) =? k)%nat && (k <=? length l + 1)%nat) = false) as H.
  { intros k H1 H3. destruct (Nat.leb_spec k (length l + 1)) as [Hk|]; [|by rewrite andb_false_r].
    rewrite andb_true_r. apply Nat.eqb_neq.
    destruct (drop_end l b (length l + 1 - k)) as (x & -> & Hx); [lia|].
    destruct k as [|k]; [lia|]. apply whitespace_at_end; [done|lia..]. }
  by rewrite !H by lia.
Qed.

(** Text between visible bytes is not trimmed. *)
Lemma trim_visible b l r c : b :: l = r ++ [c] -> visible b = true -> visible c = true ->
  trim (b :: l) = b :: l.
Proof.
  intros E Hb Hc. unfold trim. rewrite trim_start_visible by done. rewrite E. unfold trim_end.
  rewrite length_app. cbn [length]. replace (length r + 1)%nat with (S (length r)) by lia.
  cbn [trim_end_fuel]. by rewrite whitespace_before_visible.
Qed.

Lemma split_whitespace_word_fuel l : forall fuel word, (length l < fuel)%nat -> forallb visible l = true ->
  rev word ++ l <> [] -> split_whitespace_fuel fuel word l = [rev word ++ l].
Proof.
  induction l as [|b l IH]; intros [|fuel] word Hf Hv Hne; cbn [length] in *; try lia.
  - cbn. rewrite app_nil_r in *. by destruct word as [|w word].
  - cbn [forallb] in Hv. apply andb_true_iff in Hv as [Hb Hv].
    cbn [split_whitespace_fuel]. rewrite whitespace_at_visible by done. rewrite IH; [|lia|done|].
    + cbn [rev]. by rewrite <- app_assoc.
    + cbn [rev]. rewrite <- app_assoc. by destruct (rev word).
Qed.

Lemma split_whitespace_word l : l <> [] -> forallb visible l = true -> split_whitespace l = [l].
Proof. intros Hl Hv. unfold split_whitespace. apply (split_whitespace_word_fuel l _ []); [lia|done..]. Qed.

(** ** Decimal numbers *)

Lemma pretty_go_digits x : forall s, exists ds, as_bytes (pretty_N_go x s) = ds ++ as_bytes s /\
  forallb is_digit ds = true /\ digits_value ds = Z.of_N x /\ ((0 < x)%N -> ds <> []).
Proof.
  induction (N.lt_wf_0 x) as [x _ IH]; intros s.
  destruct (decide (x = 0%N)) as [->|Hx].
  - exists []. rewrite pretty_N_go_0. repeat split; [done..|lia].
  - rewrite pretty_N_go_step by lia.
    destruct (IH (x / 10)%N ltac:(apply N.div_lt; lia) (String (pretty_N_char (x mod 10)) s)) as (ds & E & Hd & Hv & _).
    assert (exists d, as_bytes (String (pretty_N_char (x mod 10)) s) = d :: as_bytes s /\ is_digit d = true /\
      digit_value d = Z.of_N (x mod 10)) as (d & Ed & Hdig & Hdv).
    { assert (x mod 10 < 10)%N as Hm by (apply N.mod_lt; lia). revert Hm.
      generalize (x mod 10)%N. intros m Hm.
      assert (m = 0 \/ m = 1 \/ m = 2 \/ m = 3 \/ m = 4 \/ m = 5 \/ m = 6 \/ m = 7 \/ m = 8 \/ m = 9)%N
        as Hc by lia.
      repeat destruct Hc as [->|Hc]; [..|subst m]; eexists; (split; [reflexivity|by vm_compute]). }
    exists (ds ++ [d]). rewrite E, Ed, <- app_assoc. split; [done|]. split.
    { rewrite forallb_app, Hd. cbn. by rewrite Hdig. }
    split; [|by destruct ds].
    rewrite digits_value_app, Hv. unfold len, digits_value. cbn [foldl length]. rewrite Hdv.
    pose proof (N.div_mod x 10). lia.
Qed.

Lemma pretty_digits n : 0 <= n -> forallb is_digit (as_bytes (pretty n)) = true /\
  digits_value (as_bytes (pretty n)) = n /\ as_bytes (pretty n) <> [].
Proof.
  intros Hn. destruct n as [|p|p]; [by vm_compute|..|lia].
  change (pretty (Z.pos p)) with (pretty (N.pos p)). unfold pretty, pretty_N.
  rewrite decide_False by done.
  destruct (pretty_go_digits (N.pos p) "") as (ds & -> & Hd & Hv & Hne). cbn [as_bytes].
  change (as_bytes "") with (@nil byte). rewrite app_nil_r. split; [done|]. split; [done|]. by apply Hne.
Qed.

Lemma parse_u32_pretty n : in_unsigned 32 n -> parse_u32 (as_bytes (pretty n)) = Some n.
Proof.
  intros Hn. destruct (pretty_digits n) as (Hd & Hv & Hne); [width|]. unfold parse_u32, parse_u64.
  destruct (as_bytes (pretty n)) as [|b r] eqn:E; [done|].
  assert ((match b :: r with x2b :: r0 => r0 | _ => b :: r end) = b :: r) as ->.
  { pose proof Hd as Hb. cbn [forallb] in Hb. apply andb_true_iff in Hb as [Hb _]. by destruct b. }
  rewrite Hd, Hv. rewrite bool_decide_false by done. cbn [negb orb].
  assert ((n <=? u64_max) = true) as -> by (unfold u64_max; width). cbn.
  assert ((n <=? u32_max) = true) as -> by (unfold u32_max; width). done.
Qed.

Lemma digit_visible b : is_digit b = true -> visible b = true.
Proof. unfold is_digit, visible. lia. Qed.

Lemma digits_visible l : forallb is_digit l = true -> forallb visible l = true.
Proof. rewrite !forallb_forall. eauto using digit_visible. Qed.

Lemma digits_avoid c l : is_digit c = false -> forallb is_digit l = true -> c ∉ l.
Proof.
  rewrite forallb_forall. intros Hc Hl Hin. apply list_elem_of_In, Hl in Hin. congruence.
Qed.
