(* ===== verification/Mode.v ===== *)
(** * The gateway's mode

    src/src/mode.rs: whether the gateway speaks PostgreSQL or MySQL.  The environment
    is a parameter. *)

From S2P Require Import Prelude Float Types Values Text.

Inductive GatewayMode : Type := Postgres | MySql.

#[export] Instance gateway_mode_eq_dec : EqDecision GatewayMode.
Proof. solve_decision. Defined.

(** [GatewayMode::as_str], and its [Display]. *)
Definition mode_as_str (mode : GatewayMode) : string :=
  match mode with Postgres => "postgres" | MySql => "mysql" end.

(** [FromStr]. *)
Definition parse_mode (value : string) : option GatewayMode :=
  let word := lower (trim (as_bytes value)) in
  if str_is word "postgres" || str_is word "postgresql" || str_is word "pg" then Some Postgres
  else if str_is word "mysql" || str_is word "my" then Some MySql
  else None.

(** [GatewayMode::from_env], over the variables of the environment. *)
Definition mode_from_env (var : string -> option string) : result string GatewayMode :=
  let named :=
    match var "PG_GATEWAY_MODE" with
    | Some value => Some ("PG_GATEWAY_MODE"%string, value)
    | None =>
        match var "PG_GATEWAY_PROTOCOL" with
        | Some value => Some ("PG_GATEWAY_PROTOCOL"%string, value)
        | None => None
        end
    end in
  match named with
  | None => Ok Postgres
  | Some (name, value) =>
      ok_or (name +:+ " must be one of postgres, postgresql, pg, mysql, or my; got '" +:+ value +:+ "'")%string
        (parse_mode value)
  end.

Lemma parse_mode_as_str mode : parse_mode (mode_as_str mode) = Some mode.
Proof. by destruct mode. Qed.
