(* ===== verification/DataTypes.v ===== *)
(** * The SQL spelling of data types

    src/src/types/data_type.rs: [DataType::from_sql] and [from_mysql_sql], which read
    the text of a column definition, [to_str], which the catalog stores, and
    [to_pg_type]; with the MySQL spellings of src/src/core/server/shared.rs.  The
    catalog reads back what [to_str] wrote with [from_sql]: [stored_type] says what
    comes back. *)

From stdpp Require Import pretty.
From S2P Require Import Prelude Types Values Text.

(** ** Lists of quoted strings *)

Definition unquote_item (current : list byte) : list byte :=
  trim_matches (is_byte x22) (trim current).

(** The loop of [parse_mysql_string_list] over the text between the parentheses. *)
Fixpoint string_list_items (l current : list byte) (in_quote escaped : bool) (values : list (list byte))
    : list (list byte) * list byte :=
  match l with
  | [] => (values, current)
  | ch :: r =>
      if escaped then string_list_items r (current ++ [ch]) in_quote false values
      else if is_byte x5c ch then string_list_items r current in_quote true values
      else if is_byte x27 ch then string_list_items r current (negb in_quote) escaped values
      else if is_byte x2c ch && negb in_quote then
        string_list_items r [] in_quote escaped (values ++ [unquote_item current])
      else string_list_items r (current ++ [ch]) in_quote escaped values
  end.

Definition parse_mysql_string_list (raw : list byte) : list string :=
  match split_once x28 raw with
  | None => []
  | Some (_, rest) =>
      match rsplit_once x29 rest with
      | None => []
      | Some (inner, _) =>
          let '(values, current) := string_list_items inner [] false false [] in
          map of_bytes
            (if negb (bool_decide (current = [])) || bool_decide (last inner = Some x2c)
             then values ++ [unquote_item current] else values)
      end
  end.

(** [value.replace('\\', "\\\\").replace('\'', "\\'")]. *)
Definition escape_byte (b : byte) : list byte :=
  if is_byte x5c b then [x5c; x5c] else if is_byte x27 b then [x5c; x27] else [b].
Definition quote_item (value : list byte) : list byte := x27 :: concat (map escape_byte value) ++ [x27].
Definition quote_mysql_string_list (values : list string) : list byte :=
  join_with [x2c] (map (fun v => quote_item (as_bytes v)) values).

(** ** Numbers in parentheses *)

Definition mysql_type_numbers (raw : list byte) : list Z :=
  match split_once x28 raw with
  | None => []
  | Some (_, rest) =>
      match split_once x29 rest with
      | None => []
      | Some (inner, _) => omap (fun part => parse_u32 (trim part)) (split_on x2c inner)
      end
  end.

(** [upper.split_whitespace().next().unwrap_or("").split('(').next().unwrap_or("")]. *)
Definition type_word (upper : list byte) : list byte :=
  default [] (head (split_on x28 (default [] (head (split_whitespace upper))))).

(** ** [from_sql] *)

Definition geometry_names : list string :=
  ["GEOMETRY"; "POINT"; "LINESTRING"; "POLYGON"; "MULTIPOINT"; "MULTILINESTRING"; "MULTIPOLYGON";
   "GEOMETRYCOLLECTION"]%string.

(** The [match normalized]; [raw] is the trimmed text and [upper] its upper case. *)
Definition scalar_type (raw upper : list byte) (normalized : list byte) (numbers : list Z)
    (unsigned mysql_mode : bool) : DataType :=
  let first_number := head numbers in
  let has_numbers := negb (bool_decide (numbers = [])) in
  let len_after (prefixes : list string) : option Z :=
    if existsb (has_prefix upper) prefixes then first_number else None in
  let named (name : string) : bool := str_is normalized name in
  let or_else (o : option Z) (d : Z) : option Z := match o with Some n => Some n | None => Some d end in
  if named "TINYINT" || named "UTINYINT" then DT.MySqlInt Tiny (unsigned || named "UTINYINT")
  else if named "SMALLINT" && (mysql_mode || unsigned) then DT.MySqlInt Small unsigned
  else if named "MEDIUMINT" then DT.MySqlInt Medium unsigned
  else if (named "INT" || named "INTEGER") && (mysql_mode || unsigned) then DT.MySqlInt KInt unsigned
  else if named "BIGINT" && (mysql_mode || unsigned) then DT.MySqlInt Big unsigned
  else if named "SMALLINT" || named "INT2" || named "SMALLSERIAL" || named "SERIAL2" then DT.Int16
  else if named "INT" || named "INTEGER" || named "INT4" || named "SERIAL" then DT.Int32
  else if named "BIGINT" || named "INT8" || named "BIGSERIAL" then DT.Int64
  else if named "FLOAT" && has_numbers then DT.MySqlFloat first_number
  else if named "REAL" || named "FLOAT" || named "FLOAT4" then DT.Float32
  else if named "DOUBLE" && has_numbers then DT.MySqlDouble first_number
  else if named "DOUBLE" || named "DOUBLEPRECISION" || named "FLOAT8" then DT.Float64
  else if named "DECIMAL" || named "NUMERIC" then DT.Numeric first_number (numbers !! 1%nat)
  else if named "BOOL" || named "BOOLEAN" then DT.Boolean
  else if named "TEXT" || named "STRING" then DT.Text
  else if named "MYSQL_TEXT" then DT.MySqlText (Some 65535) "text"
  else if named "TINYTEXT" then DT.MySqlText (Some 255) "tinytext"
  else if named "MEDIUMTEXT" then DT.MySqlText (Some 16777215) "mediumtext"
  else if named "LONGTEXT" then DT.MySqlText (Some 4294967295) "longtext"
  else if named "VARCHAR" then DT.VarChar (len_after ["VARCHAR("; "CHARACTER VARYING("])
  else if named "CHAR" || named "CHARACTER" || named "BPCHAR" then
    DT.Char (or_else (len_after ["CHAR("; "CHARACTER("; "BPCHAR("]) 1)
  else if named "BINARY" then DT.Binary (or_else (len_after ["BINARY("]) 1)
  else if named "VARBINARY" then DT.VarBinary (len_after ["VARBINARY("])
  else if named "BIT" then DT.Bit (or_else first_number 1)
  else if named "YEAR" then DT.Year
  else if named "TIME" then
    if has upper "WITH TIME ZONE" then DT.TimeTz
    else if has_numbers then DT.MySqlTime first_number else DT.Time
  else if named "TIMETZ" then DT.TimeTz
  else if named "INTERVAL" then DT.Interval
  else if named "DATE" then DT.Date
  else if named "DATETIME" then DT.MySqlDateTime first_number
  else if named "TIMESTAMP" then
    if has upper "WITH TIME ZONE" then DT.TimestampTz
    else if has_numbers then DT.MySqlTimestamp first_number else DT.Timestamp
  else if named "TIMESTAMPTZ" then DT.TimestampTz
  else if named "UUID" then DT.Uuid
  else if named "BYTEA" then DT.Bytea
  else if named "TINYBLOB" then DT.Blob (Some 255) "tinyblob"
  else if named "BLOB" then DT.Blob (Some 65535) "blob"
  else if named "MEDIUMBLOB" then DT.Blob (Some 16777215) "mediumblob"
  else if named "LONGBLOB" then DT.Blob (Some 4294967295) "longblob"
  else if named "JSON" then DT.Json
  else if named "JSONB" then DT.Jsonb
  else if existsb named geometry_names then DT.Geometry (of_bytes (lower normalized))
  else DT.Domain (of_bytes raw).

(** [from_sql_with_mode].  Each level of an array takes a byte at least, so one more
    than the bytes is enough fuel. *)
Fixpoint from_sql_fuel (fuel : nat) (sql_type : list byte) (mysql_mode : bool) : DataType :=
  match fuel with
  | O => DT.Domain ""
  | S fuel =>
      let raw := trim sql_type in
      match strip_prefix (as_bytes "DOMAIN(") raw ≫= strip_suffix1 x29 with
      | Some inner => DT.Domain (of_bytes inner)
      | None =>
          match strip_suffix (as_bytes "[]") raw with
          | Some inner => DT.Array (from_sql_fuel fuel inner mysql_mode)
          | None =>
              let upper := upper raw in
              if has_prefix upper "ENUM(" then DT.Enum (parse_mysql_string_list raw)
              else if has_prefix upper "SET(" then DT.Set_ (parse_mysql_string_list raw)
              else if has_prefix upper "ARRAY<" && bool_decide (last upper = Some x3e) then
                DT.Array (from_sql_fuel fuel (slice raw 6 (length raw - 1)) mysql_mode)
              else if has_prefix upper "_" then DT.Array (from_sql_fuel fuel (drop 1 raw) mysql_mode)
              else
                scalar_type raw upper (type_word upper) (mysql_type_numbers raw)
                  (existsb (fun part => str_is part "UNSIGNED") (split_whitespace upper)) mysql_mode
          end
      end
  end.

Definition from_sql_with_mode (sql_type : string) (mysql_mode : bool) : DataType :=
  from_sql_fuel (S (length (as_bytes sql_type))) (as_bytes sql_type) mysql_mode.
Definition from_sql (sql_type : string) : DataType := from_sql_with_mode sql_type false.
Definition from_mysql_sql (sql_type : string) : DataType := from_sql_with_mode sql_type true.

(** ** [to_str] *)

Definition as_mysql_name (kind : MySqlIntKind) : string :=
  match kind with
  | Tiny => "TINYINT"
  | Small => "SMALLINT"
  | Medium => "MEDIUMINT"
  | KInt => "INT"
  | Big => "BIGINT"
  end.

(** [format!("{name}({n})")], or the name alone. *)
Definition sized (name : string) (n : option Z) : list byte :=
  match n with
  | Some n => as_bytes name ++ x28 :: as_bytes (pretty n) ++ [x29]
  | None => as_bytes name
  end.

Definition upper_name (name : string) : list byte := upper (as_bytes name).

Fixpoint to_str_bytes (t : DataType) : list byte :=
  match t with
  | DT.Int16 => as_bytes "INT2"
  | DT.Int32 => as_bytes "INT4"
  | DT.Int64 => as_bytes "INT8"
  | DT.MySqlInt kind unsigned =>
      as_bytes (as_mysql_name kind) ++ (if unsigned then as_bytes " UNSIGNED" else [])
  | DT.Float32 => as_bytes "FLOAT4"
  | DT.Float64 => as_bytes "FLOAT8"
  | DT.MySqlFloat precision => sized "FLOAT" precision
  | DT.MySqlDouble precision => sized "DOUBLE" precision
  | DT.Numeric (Some precision) (Some scale) =>
      as_bytes "NUMERIC" ++ x28 :: as_bytes (pretty precision) ++ x2c :: as_bytes (pretty scale) ++ [x29]
  | DT.Numeric (Some precision) None => sized "NUMERIC" (Some precision)
  | DT.Numeric None _ => as_bytes "NUMERIC"
  | DT.Text => as_bytes "TEXT"
  | DT.MySqlText _ type_name =>
      if bool_decide (type_name = "text"%string) then as_bytes "MYSQL_TEXT" else upper_name type_name
  | DT.VarChar n => sized "VARCHAR" n
  | DT.Char n => sized "CHAR" n
  | DT.Binary n => sized "BINARY" n
  | DT.VarBinary n => sized "VARBINARY" n
  | DT.Blob _ type_name => upper_name type_name
  | DT.Boolean => as_bytes "BOOL"
  | DT.Bit n => sized "BIT" n
  | DT.Year => as_bytes "YEAR"
  | DT.Date => as_bytes "DATE"
  | DT.Time => as_bytes "TIME"
  | DT.MySqlTime fsp => sized "TIME" fsp
  | DT.TimeTz => as_bytes "TIMETZ"
  | DT.Interval => as_bytes "INTERVAL"
  | DT.Timestamp => as_bytes "TIMESTAMP"
  | DT.MySqlDateTime fsp => sized "DATETIME" fsp
  | DT.MySqlTimestamp fsp => sized "TIMESTAMP" fsp
  | DT.TimestampTz => as_bytes "TIMESTAMPTZ"
  | DT.Uuid => as_bytes "UUID"
  | DT.Bytea => as_bytes "BYTEA"
  | DT.Json => as_bytes "JSON"
  | DT.Jsonb => as_bytes "JSONB"
  | DT.Array inner => to_str_bytes inner ++ as_bytes "[]"
  | DT.Domain name => as_bytes "DOMAIN(" ++ as_bytes name ++ [x29]
  | DT.Enum values => as_bytes "ENUM(" ++ quote_mysql_string_list values ++ [x29]
  | DT.Set_ values => as_bytes "SET(" ++ quote_mysql_string_list values ++ [x29]
  | DT.Geometry name => upper_name name
  end.

(** [DataType::to_str]. *)
Definition to_str (t : DataType) : string := of_bytes (to_str_bytes t).

(** ** The types of the wire protocol *)

(** [pgwire::api::Type], the types and array types the gateway names. *)
Inductive PgType : Type :=
  | BOOL | BYTEA | INT2 | INT4 | INT8 | FLOAT4 | FLOAT8 | NUMERIC | TEXT | VARCHAR | BPCHAR | BIT
  | DATE | TIME | TIMETZ | INTERVAL | TIMESTAMP | TIMESTAMPTZ | UUID | JSON | JSONB
  | BOOL_ARRAY | BYTEA_ARRAY | INT2_ARRAY | INT4_ARRAY | INT8_ARRAY | FLOAT4_ARRAY | FLOAT8_ARRAY
  | NUMERIC_ARRAY | TEXT_ARRAY | DATE_ARRAY | TIME_ARRAY | TIMETZ_ARRAY | INTERVAL_ARRAY
  | TIMESTAMP_ARRAY | TIMESTAMPTZ_ARRAY | UUID_ARRAY | JSON_ARRAY | JSONB_ARRAY.

Definition to_pg_array_type (t : DataType) : PgType :=
  match t with
  | DT.Boolean => BOOL_ARRAY
  | DT.Bytea => BYTEA_ARRAY
  | DT.Int16 | DT.MySqlInt (Tiny | Small) false => INT2_ARRAY
  | DT.Int32 => INT4_ARRAY
  | DT.Text | DT.MySqlText _ _ | DT.VarChar _ | DT.Char _ | DT.Binary _ | DT.VarBinary _ | DT.Blob _ _
  | DT.Domain _ | DT.Enum _ | DT.Set_ _ | DT.Geometry _ => TEXT_ARRAY
  | DT.Int64 | DT.MySqlInt Big _ => INT8_ARRAY
  | DT.MySqlInt _ _ | DT.Year | DT.Bit _ => INT4_ARRAY
  | DT.Float32 | DT.MySqlFloat _ => FLOAT4_ARRAY
  | DT.Float64 | DT.MySqlDouble _ => FLOAT8_ARRAY
  | DT.Time | DT.MySqlTime _ => TIME_ARRAY
  | DT.TimeTz => TIMETZ_ARRAY
  | DT.Date => DATE_ARRAY
  | DT.Timestamp | DT.MySqlDateTime _ | DT.MySqlTimestamp _ => TIMESTAMP_ARRAY
  | DT.TimestampTz => TIMESTAMPTZ_ARRAY
  | DT.Interval => INTERVAL_ARRAY
  | DT.Numeric _ _ => NUMERIC_ARRAY
  | DT.Uuid => UUID_ARRAY
  | DT.Json => JSON_ARRAY
  | DT.Jsonb => JSONB_ARRAY
  | DT.Array _ => TEXT_ARRAY
  end.

Definition to_pg_type (t : DataType) : PgType :=
  match t with
  | DT.Int16 | DT.MySqlInt (Tiny | Small) false => INT2
  | DT.Int32 => INT4
  | DT.Int64 | DT.MySqlInt Big _ => INT8
  | DT.MySqlInt _ _ => INT4
  | DT.Float32 | DT.MySqlFloat _ => FLOAT4
  | DT.Float64 | DT.MySqlDouble _ => FLOAT8
  | DT.Numeric _ _ => NUMERIC
  | DT.Text | DT.MySqlText _ _ => TEXT
  | DT.VarChar _ => VARCHAR
  | DT.Char _ => BPCHAR
  | DT.Binary _ | DT.VarBinary _ | DT.Blob _ _ | DT.Bytea => BYTEA
  | DT.Boolean => BOOL
  | DT.Bit _ => BIT
  | DT.Year => INT4
  | DT.Date => DATE
  | DT.Time | DT.MySqlTime _ => TIME
  | DT.TimeTz => TIMETZ
  | DT.Interval => INTERVAL
  | DT.Timestamp | DT.MySqlDateTime _ | DT.MySqlTimestamp _ => TIMESTAMP
  | DT.TimestampTz => TIMESTAMPTZ
  | DT.Uuid => UUID
  | DT.Json => JSON
  | DT.Jsonb => JSONB
  | DT.Array inner => to_pg_array_type inner
  | DT.Domain _ | DT.Enum _ | DT.Set_ _ | DT.Geometry _ => TEXT
  end.

(** ** MySQL spellings (shared.rs) *)

Definition mysql_type_precision (raw : string) : option Z :=
  '(_, rest) ← split_once x28 (as_bytes raw);
  '(inner, _) ← split_once x29 rest;
  parse_u32 (trim inner).

Definition mysql_mode_data_type (raw_data_type : string) : DataType :=
  let parsed := from_mysql_sql raw_data_type in
  let upper := upper (trim (as_bytes raw_data_type)) in
  let normalized := type_word upper in
  if str_is normalized "TEXT" then DT.MySqlText (Some 65535) "text"
  else if str_is normalized "TIME" then
    if has upper "WITH TIME ZONE" then parsed else DT.MySqlTime (mysql_type_precision raw_data_type)
  else if str_is normalized "TIMESTAMP" then
    if has upper "WITH TIME ZONE" then parsed else DT.MySqlTimestamp (mysql_type_precision raw_data_type)
  else parsed.

Definition is_serial_type (raw_data_type : string) : bool :=
  let upper := upper (trim (as_bytes raw_data_type)) in
  str_is upper "SERIAL" || str_is upper "SERIAL4" || str_is upper "BIGSERIAL" || str_is upper "SERIAL8".

Definition mysql_column_type_name (t : DataType) : list byte :=
  match t with
  | DT.Int16 => as_bytes "smallint"
  | DT.Int32 => as_bytes "int"
  | DT.Int64 => as_bytes "bigint"
  | DT.MySqlInt kind unsigned =>
      lower (as_bytes (as_mysql_name kind)) ++ (if unsigned then as_bytes " unsigned" else [])
  | DT.Float32 => as_bytes "float"
  | DT.Float64 => as_bytes "double"
  | DT.MySqlFloat precision => sized "float" precision
  | DT.MySqlDouble precision => sized "double" precision
  | DT.Numeric (Some precision) (Some scale) =>
      as_bytes "decimal" ++ x28 :: as_bytes (pretty precision) ++ x2c :: as_bytes (pretty scale) ++ [x29]
  | DT.Numeric (Some precision) None => sized "decimal" (Some precision)
  | DT.Numeric None _ => as_bytes "decimal"
  | DT.Text | DT.Interval => as_bytes "text"
  | DT.MySqlText _ type_name | DT.Blob _ type_name => as_bytes type_name
  | DT.VarChar n => sized "varchar" n
  | DT.Char n => sized "char" n
  | DT.Binary n => sized "binary" n
  | DT.VarBinary n => sized "varbinary" n
  | DT.Boolean => as_bytes "tinyint(1)"
  | DT.Bit n => sized "bit" n
  | DT.Year => as_bytes "year"
  | DT.Date => as_bytes "date"
  | DT.Time | DT.TimeTz => as_bytes "time"
  | DT.MySqlTime fsp => sized "time" fsp
  | DT.Timestamp | DT.TimestampTz => as_bytes "datetime"
  | DT.MySqlDateTime fsp => sized "datetime" fsp
  | DT.MySqlTimestamp fsp => sized "timestamp" fsp
  | DT.Uuid => as_bytes "char(36)"
  | DT.Bytea => as_bytes "blob"
  | DT.Json | DT.Jsonb | DT.Array _ => as_bytes "json"
  | DT.Domain name => lower (as_bytes name)
  | DT.Enum values => as_bytes "enum(" ++ quote_mysql_string_list values ++ [x29]
  | DT.Set_ values => as_bytes "set(" ++ quote_mysql_string_list values ++ [x29]
  | DT.Geometry name => as_bytes name
  end.

(** ** What the catalog reads back *)

(** What [from_sql] makes of the text of a type: the signed MySQL integers come back
    as the PostgreSQL ones outside MySQL mode, and some types without a length come
    back as another type or with the length one. *)
Fixpoint stored_type (mysql_mode : bool) (t : DataType) : DataType :=
  match t with
  | DT.MySqlInt Small false => if mysql_mode then t else DT.Int16
  | DT.MySqlInt KInt false => if mysql_mode then t else DT.Int32
  | DT.MySqlInt Big false => if mysql_mode then t else DT.Int64
  | DT.MySqlFloat None => DT.Float32
  | DT.MySqlDouble None => DT.Float64
  | DT.Numeric None (Some _) => DT.Numeric None None
  | DT.Char None => DT.Char (Some 1)
  | DT.Binary None => DT.Binary (Some 1)
  | DT.Bit None => DT.Bit (Some 1)
  | DT.MySqlTime None => DT.Time
  | DT.MySqlTimestamp None => DT.Timestamp
  | DT.Array inner => DT.Array (stored_type mysql_mode inner)
  | _ => t
  end.

Definition text_names : list (Z * string) :=
  [(65535, "text"); (255, "tinytext"); (16777215, "mediumtext"); (4294967295, "longtext")]%string.
Definition blob_names : list (Z * string) :=
  [(65535, "blob"); (255, "tinyblob"); (16777215, "mediumblob"); (4294967295, "longblob")]%string.

Definition size_ok (n : option Z) : Prop := match n with Some n => in_unsigned 32 n | None => True end.

(** Items that [parse_mysql_string_list] gives back: no white space or double quote at
    an end, and the last one not empty. *)
Definition item_ok (v : string) : Prop := unquote_item (as_bytes v) = as_bytes v.
Definition items_ok (values : list string) : Prop := Forall item_ok values /\ last values <> Some ""%string.

(** The types [from_sql] can produce, and the ones the code builds beside it. *)
Fixpoint describable (t : DataType) : Prop :=
  match t with
  | DT.MySqlFloat n | DT.MySqlDouble n | DT.VarChar n | DT.Char n | DT.Binary n | DT.VarBinary n | DT.Bit n
  | DT.MySqlTime n | DT.MySqlDateTime n | DT.MySqlTimestamp n => size_ok n
  | DT.Numeric p s => size_ok p /\ size_ok s
  | DT.MySqlText (Some n) name => (n, name) ∈ text_names
  | DT.Blob (Some n) name => (n, name) ∈ blob_names
  | DT.MySqlText None _ | DT.Blob None _ => False
  | DT.Enum values | DT.Set_ values => items_ok values
  | DT.Geometry name => name ∈ map to_ascii_lowercase geometry_names
  | DT.Array inner => describable inner
  | _ => True
  end.

(** *** Quoted lists *)

(** Decides the comparisons of constant bytes in the goal. *)
Ltac constant_bytes :=
  unfold is_byte;
  repeat match goal with
  | |- context [bool_decide (?a = ?b :> byte)] =>
      first [change (bool_decide (a = b)) with true | change (bool_decide (a = b)) with false]
  end; cbn [negb andb orb].

Lemma string_list_escaped v : forall r current values,
  string_list_items (concat (map escape_byte v) ++ r) current true false values =
  string_list_items r (current ++ v) true false values.
Proof.
  induction v as [|b v IH]; intros r current values; cbn [map concat app].
  - by rewrite app_nil_r.
  - assert (forall rest, string_list_items (escape_byte b ++ rest) current true false values =
      string_list_items rest (current ++ [b]) true false values) as Hb.
    { intros rest. unfold escape_byte, is_byte. destruct (decide (b = x5c)) as [->|H5].
      { constant_bytes. cbn [app string_list_items]. by constant_bytes. }
      rewrite (bool_decide_false (b = x5c)) by done. destruct (decide (b = x27)) as [->|H2].
      { constant_bytes. cbn [app string_list_items]. by constant_bytes. }
      rewrite (bool_decide_false (b = x27)) by done. cbn [app string_list_items]. unfold is_byte.
      rewrite (bool_decide_false (b = x5c)), (bool_decide_false (b = x27)) by done. cbn [negb].
      by rewrite andb_false_r. }
    rewrite <- app_assoc, Hb, IH. by rewrite <- app_assoc.
Qed.

Lemma string_list_quoted v r values :
  string_list_items (quote_item v ++ r) [] false false values = string_list_items r v false false values.
Proof.
  unfold quote_item. cbn [app string_list_items]. constant_bytes.
  rewrite <- app_assoc, string_list_escaped. cbn [app string_list_items]. by constant_bytes.
Qed.

Lemma string_list_joined vs v values :
  string_list_items (join_with [x2c] (map quote_item (vs ++ [v]))) [] false false values =
  (values ++ map unquote_item vs, v).
Proof.
  revert values. induction vs as [|w vs IH]; intros values.
  - cbn [map app join_with]. rewrite <- (app_nil_r (quote_item v)), string_list_quoted. cbn.
    by rewrite app_nil_r.
  - rewrite <- app_comm_cons. cbn [map].
    assert (exists x xs, map quote_item (vs ++ [v]) = x :: xs) as (x & xs & E).
    { destruct vs; cbn; by repeat eexists. }
    cbn [join_with]. rewrite E, string_list_quoted. cbn [app string_list_items]. constant_bytes.
    rewrite <- E, IH. by rewrite <- app_assoc.
Qed.

Lemma parse_quoted_list (prefix : list byte) values : x28 ∉ prefix -> items_ok values ->
  parse_mysql_string_list (prefix ++ x28 :: quote_mysql_string_list values ++ [x29]) = values.
Proof.
  intros Hp [Hv Hl]. unfold parse_mysql_string_list. rewrite split_once_app by done.
  rewrite rsplit_once_app by (intros H; by apply elem_of_nil in H).
  destruct values as [|v vs _] using rev_ind; [done|].
  unfold quote_mysql_string_list. rewrite <- (map_map as_bytes quote_item), map_app.
  change (map as_bytes [v]) with [as_bytes v]. rewrite string_list_joined.
  apply Forall_app in Hv as [Hvs Hv]. apply Forall_cons in Hv as [Hv _].
  assert (as_bytes v <> []) as Hne.
  { intros E. apply Hl. rewrite last_snoc. f_equal. rewrite <- (of_as_bytes v), E. done. }
  rewrite bool_decide_false by done. cbn [negb orb app]. rewrite map_app. cbn [map]. rewrite Hv, of_as_bytes.
  f_equal. rewrite map_map. clear Hl. induction vs as [|w vs IH]; [done|]. cbn [map].
  apply Forall_cons in Hvs as [Hw Hvs]. rewrite Hw, of_as_bytes. f_equal. by apply IH.
Qed.

(** *** Words with arguments *)

Lemma trim_all_visible l : forallb visible l = true -> trim l = l.
Proof.
  destruct l as [|b l]; [done|]. intros Hv.
  destruct (exists_last (l := b :: l)) as (r & c & E); [done|]. apply (trim_visible b l r c E).
  - cbn in Hv. by apply andb_true_iff in Hv as [? _].
  - rewrite E, forallb_app in Hv. cbn in Hv. apply andb_true_iff in Hv as [_ Hv]. by rewrite andb_true_r in Hv.
Qed.

Lemma trim_ends r b c : head (r ++ [c]) = Some b -> visible b = true -> visible c = true ->
  trim (r ++ [c]) = r ++ [c].
Proof.
  intros Hh Hb Hc. destruct (r ++ [c]) as [|b' l] eqn:E; [done|]. injection Hh as ->.
  by apply (trim_visible b l r c).
Qed.

Definition is_upper_letter (b : byte) : bool := (65 <=? u8_to_Z b) && (u8_to_Z b <=? 90).
Definition argument_byte (b : byte) : bool := is_digit b || is_byte x2c b.

Lemma argument_digits l : forallb is_digit l = true -> forallb argument_byte l = true.
Proof. rewrite !forallb_forall. unfold argument_byte. intros H b Hb. by rewrite H. Qed.

Lemma starts_with_missing l p b : b ∈ p -> b ∉ l -> starts_with l p = false.
Proof.
  intros Hp Hl. destruct (starts_with l p) eqn:E; [|done]. apply starts_with_spec in E as [r ->].
  destruct Hl. apply elem_of_app. by left.
Qed.

(** [NAME(arguments)]. *)
Definition call (name args : list byte) : list byte := name ++ x28 :: args ++ [x29].

Lemma call_not_in name args b : forallb is_upper_letter name = true -> forallb argument_byte args = true ->
  is_upper_letter b = false -> argument_byte b = false -> b <> x28 -> b <> x29 -> b ∉ call name args.
Proof.
  rewrite !forallb_forall. intros Hn Ha Hb1 Hb2 H1 H2 Hin. unfold call in Hin.
  apply elem_of_app in Hin as [Hin|Hin]; [apply list_elem_of_In, Hn in Hin; congruence|].
  apply elem_of_cons in Hin as [->|Hin]; [done|]. apply elem_of_app in Hin as [Hin|Hin].
  - apply list_elem_of_In, Ha in Hin. congruence.
  - by apply list_elem_of_singleton in Hin.
Qed.

Lemma call_bytes (p : byte -> bool) name args : (forall b, is_upper_letter b = true -> p b = true) ->
  (forall b, argument_byte b = true -> p b = true) -> p x28 = true -> p x29 = true ->
  forallb is_upper_letter name = true -> forallb argument_byte args = true -> forallb p (call name args) = true.
Proof.
  intros H1 H2 H3 H4 Hn Ha. unfold call. rewrite forallb_app. cbn [forallb]. rewrite forallb_app. cbn [forallb].
  rewrite H3, H4. rewrite forallb_forall in Hn, Ha. apply andb_true_iff. split; [apply forallb_forall; eauto|].
  cbn [andb]. rewrite !andb_true_r. apply forallb_forall. eauto.
Qed.

Lemma upper_letter_visible b : is_upper_letter b = true -> visible b = true.
Proof. unfold is_upper_letter, visible. lia. Qed.
Lemma argument_visible b : argument_byte b = true -> visible b = true.
Proof. unfold argument_byte, is_byte. intros [H| ->%bool_decide_eq_true]%orb_true_iff; [by apply digit_visible|done]. Qed.

Lemma upper_fixed l : forallb (fun b => negb ((97 <=? u8_to_Z b) && (u8_to_Z b <=? 122))) l = true -> upper l = l.
Proof.
  induction l as [|b l IH]; [done|]. cbn [forallb]. intros [Hb Hl]%andb_true_iff. unfold upper in *. cbn [map].
  rewrite IH by done. unfold ascii_upper_byte. apply negb_true_iff in Hb. by rewrite Hb.
Qed.

Lemma from_sql_call name args f m : forallb is_upper_letter name = true -> forallb argument_byte args = true ->
  name <> [] -> name <> as_bytes "DOMAIN" -> name <> as_bytes "ENUM" -> name <> as_bytes "SET" ->
  from_sql_fuel (S f) (call name args) m =
  scalar_type (call name args) (call name args) name (mysql_type_numbers (call name args)) false m.
Proof.
  intros Hn Ha Hne Hd He Hs. cbn [from_sql_fuel].
  assert (Hvis : forallb visible (call name args) = true).
  { apply call_bytes; auto using upper_letter_visible, argument_visible. }
  assert (Hup : upper (call name args) = call name args).
  { apply upper_fixed, call_bytes; try done; intros b; unfold is_upper_letter, argument_byte, is_digit, is_byte.
    - lia.
    - intros [H| ->%bool_decide_eq_true]%orb_true_iff; [lia|done]. }
  rewrite (trim_all_visible _ Hvis), Hup.
  assert (Hpre : forall p, x28 ∉ p -> name <> p -> strip_prefix (p ++ [x28]) (call name args) = None).
  { intros p Hp Hnp. assert (Hx : x28 ∉ name).
    { intros Hin. rewrite forallb_forall in Hn. apply list_elem_of_In, Hn in Hin. done. }
    unfold call. clear Hvis Hup Hn Hne Hd He Hs. revert p Hp Hnp.
    induction name as [|b name IH]; intros [|c p] Hp Hnp; cbn [app strip_prefix].
    - done.
    - case_decide as Hc; [subst c; destruct Hp; constructor|done].
    - case_decide as Hc; [subst b; destruct Hx; constructor|done].
    - case_decide as Hc; [subst c|done]. apply not_elem_of_cons in Hp as [_ Hp], Hx as [_ Hx].
      apply IH; [done..|congruence]. }
  change (as_bytes "DOMAIN(") with (as_bytes "DOMAIN" ++ [x28]). rewrite Hpre; [|by vm_compute; set_solver|done].
  cbn [mbind option_bind].
  assert (strip_suffix (as_bytes "[]") (call name args) = None) as ->.
  { unfold call. rewrite app_comm_cons, app_assoc. change (as_bytes "[]") with ([x5b] ++ [x5d]). by apply strip_suffix_last. }
  unfold has_prefix. change (as_bytes "ENUM(") with (as_bytes "ENUM" ++ [x28]).
  change (as_bytes "SET(") with (as_bytes "SET" ++ [x28]). unfold starts_with at 1 2.
  rewrite !Hpre by first [done|by vm_compute; set_solver].
  rewrite (starts_with_missing _ (as_bytes "ARRAY<") x3c); [|by vm_compute; set_solver|by apply call_not_in].
  rewrite (starts_with_missing _ (as_bytes "_") x5f); [|by vm_compute; set_solver|by apply call_not_in].
  cbn [andb]. unfold type_word. rewrite split_whitespace_word; [|by destruct name|done]. cbn [head default existsb id].
  assert (str_is (call name args) "UNSIGNED" = false) as ->.
  { apply bool_decide_eq_false. intros E. assert (x28 ∈ call name args) as Hin.
    { unfold call. apply elem_of_app. right. constructor. }
    rewrite E in Hin. vm_compute in Hin. set_solver. }
  assert (split_on x28 (call name args) = name :: split_on x28 (args ++ [x29])) as ->; [|done].
  apply split_on_app. intros Hin. rewrite forallb_forall in Hn. by apply list_elem_of_In, Hn in Hin.
Qed.

Lemma numbers_call name args : x28 ∉ name -> x29 ∉ args ->
  mysql_type_numbers (call name args) = omap (fun part => parse_u32 (trim part)) (split_on x2c args).
Proof.
  intros Hn Ha. unfold mysql_type_numbers, call. rewrite split_once_app by done. by rewrite split_once_app.
Qed.

Lemma upper_letters_avoid name b : forallb is_upper_letter name = true -> is_upper_letter b = false -> b ∉ name.
Proof. rewrite forallb_forall. intros Hn Hb Hin. apply list_elem_of_In, Hn in Hin. congruence. Qed.

Lemma pretty_part n : in_unsigned 32 n -> parse_u32 (trim (as_bytes (pretty n))) = Some n.
Proof.
  intros Hn. destruct (pretty_digits n) as (Hd & _); [width|]. rewrite trim_all_visible by (by apply digits_visible).
  by apply parse_u32_pretty.
Qed.

(** [NAME(n)]. *)
Lemma from_sql_sized name n f m : forallb is_upper_letter (as_bytes name) = true -> as_bytes name <> [] ->
  as_bytes name <> as_bytes "DOMAIN" -> as_bytes name <> as_bytes "ENUM" -> as_bytes name <> as_bytes "SET" ->
  in_unsigned 32 n ->
  let raw := call (as_bytes name) (as_bytes (pretty n)) in
  from_sql_fuel (S f) (sized name (Some n)) m = scalar_type raw raw (as_bytes name) [n] false m /\
  (x57 ∉ as_bytes name -> has raw "WITH TIME ZONE" = false).
Proof.
  intros Hu Hne Hd He Hs Hn raw. destruct (pretty_digits n) as (Hdig & _); [width|].
  assert (Harg : forallb argument_byte (as_bytes (pretty n)) = true) by (by apply argument_digits).
  change (sized name (Some n)) with raw. split.
  - unfold raw. rewrite from_sql_call by done. rewrite numbers_call.
    + rewrite split_on_none by (by apply digits_avoid). cbn. by rewrite pretty_part.
    + by apply upper_letters_avoid.
    + by apply digits_avoid.
  - intros Hw. unfold has. apply contains_missing. unfold raw, call.
    rewrite elem_of_app, elem_of_cons, elem_of_app, list_elem_of_singleton. intros [?|[?|[Hin|?]]]; try done.
    revert Hin. by apply digits_avoid.
Qed.

(** [NUMERIC(p,s)]. *)
Lemma from_sql_numeric p s f m : in_unsigned 32 p -> in_unsigned 32 s ->
  from_sql_fuel (S f) (to_str_bytes (DT.Numeric (Some p) (Some s))) m = DT.Numeric (Some p) (Some s).
Proof.
  intros Hp Hs. destruct (pretty_digits p) as (Hdp & _); [width|]. destruct (pretty_digits s) as (Hds & _); [width|].
  cbn [to_str_bytes]. set (args := as_bytes (pretty p) ++ x2c :: as_bytes (pretty s)).
  assert (as_bytes "NUMERIC" ++ x28 :: as_bytes (pretty p) ++ x2c :: as_bytes (pretty s) ++ [x29] =
    call (as_bytes "NUMERIC") args) as ->.
  { unfold call, args. by rewrite <- app_assoc. }
  assert (Harg : forallb argument_byte args = true).
  { unfold args. rewrite forallb_app. cbn [forallb]. by rewrite !argument_digits. }
  rewrite from_sql_call by done. rewrite numbers_call.
  - unfold args. rewrite split_on_app by (by apply digits_avoid). rewrite split_on_none by (by apply digits_avoid).
    cbn [omap list_omap]. rewrite !pretty_part by done. by vm_compute.
  - by apply upper_letters_avoid.
  - unfold args. rewrite elem_of_app, elem_of_cons. intros [Hin|[?|Hin]]; [|done|];
      revert Hin; by apply digits_avoid.
Qed.

Lemma sized_head name n : (exists b l, as_bytes name = b :: l /\ visible b = true) ->
  exists b l, sized name n = b :: l /\ visible b = true.
Proof.
  intros (b & l & E & Hb). exists b. destruct n as [n|]; cbn [sized]; rewrite E; cbn; by eexists.
Qed.

Lemma geometry_upper name : name ∈ map to_ascii_lowercase geometry_names ->
  exists upper, upper ∈ geometry_names /\ upper_name name = as_bytes upper /\ name = to_ascii_lowercase upper.
Proof.
  intros (up & -> & Hin)%list_elem_of_fmap. exists up. split; [done|]. split; [|done].
  unfold geometry_names in Hin. repeat (apply elem_of_cons in Hin as [->|Hin]; [by vm_compute|]). by apply elem_of_nil in Hin.
Qed.

Lemma to_str_head t : describable t -> exists b l, to_str_bytes t = b :: l /\ visible b = true.
Proof.
  induction t; cbn [describable to_str_bytes]; intros Hd;
    try (by repeat eexists); try (apply sized_head; by repeat eexists).
  - destruct kind; cbn; by repeat eexists.
  - destruct precision as [p|], scale as [s|]; cbn; by repeat eexists.
  - case_bool_decide; [by repeat eexists|]. destruct max_len as [n|]; [|done]. unfold text_names in Hd.
    repeat (apply elem_of_cons in Hd as [[= -> ->]|Hd]; [by repeat eexists|]). by apply elem_of_nil in Hd.
  - destruct max_len as [n|]; [|done]. unfold blob_names in Hd.
    repeat (apply elem_of_cons in Hd as [[= -> ->]|Hd]; [by repeat eexists|]). by apply elem_of_nil in Hd.
  - destruct (IHt Hd) as (b & l & -> & Hb). cbn. by repeat eexists.
  - destruct (geometry_upper name Hd) as (up & Hin & -> & _). unfold geometry_names in Hin.
    repeat (apply elem_of_cons in Hin as [->|Hin]; [by repeat eexists|]). by apply elem_of_nil in Hin.
Qed.

(** ENUM and SET. *)
Lemma from_sql_list (name : string) (build : list string -> DataType) values f m : items_ok values ->
  (name, build) = ("ENUM"%string, DT.Enum) \/ (name, build) = ("SET"%string, DT.Set_) ->
  from_sql_fuel (S f) (as_bytes name ++ x28 :: quote_mysql_string_list values ++ [x29]) m = build values.
Proof.
  intros Hv Hn. set (raw := as_bytes name ++ x28 :: quote_mysql_string_list values ++ [x29]).
  assert (trim raw = raw) as Htrim.
  { unfold raw. rewrite app_comm_cons, app_assoc. destruct Hn as [[= -> ->]|[= -> ->]].
    - by apply (trim_ends _ x45 x29).
    - by apply (trim_ends _ x53 x29). }
  assert (strip_suffix (as_bytes "[]") raw = None) as Hs.
  { unfold raw. rewrite app_comm_cons, app_assoc. change (as_bytes "[]") with ([x5b] ++ [x5d]). by apply strip_suffix_last. }
  assert (parse_mysql_string_list raw = values) as Hp.
  { apply parse_quoted_list; [|done]. destruct Hn as [[= -> ->]|[= -> ->]]; vm_compute; set_solver. }
  cbn [from_sql_fuel]. rewrite Htrim, Hs. revert Hp. generalize (parse_mysql_string_list raw). intros vs ->.
  destruct Hn as [[= -> ->]|[= -> ->]]; reflexivity.
Qed.

Lemma from_sql_domain name f m :
  from_sql_fuel (S f) (to_str_bytes (DT.Domain name)) m = DT.Domain name.
Proof.
  assert (to_str_bytes (DT.Domain name) = as_bytes "DOMAIN(" ++ as_bytes name ++ [x29]) as E by done.
  assert (trim (to_str_bytes (DT.Domain name)) = to_str_bytes (DT.Domain name)) as Ht.
  { rewrite E, app_assoc. by apply (trim_ends _ x44 x29). }
  cbn [from_sql_fuel]. rewrite Ht, E, strip_prefix_app. cbn [mbind option_bind]. rewrite strip_suffix1_app.
  by rewrite of_as_bytes.
Qed.

Lemma from_sql_array inner f m : (exists b l, inner = b :: l /\ visible b = true) ->
  from_sql_fuel (S f) (inner ++ as_bytes "[]") m = DT.Array (from_sql_fuel f inner m).
Proof.
  intros (b & l & -> & Hb). cbn [from_sql_fuel].
  assert (trim ((b :: l) ++ as_bytes "[]") = (b :: l) ++ as_bytes "[]") as ->.
  { change (as_bytes "[]") with ([x5b] ++ [x5d]). rewrite app_assoc. by apply (trim_ends _ b x5d). }
  rewrite strip_suffix_app.
  destruct (strip_prefix (as_bytes "DOMAIN(") ((b :: l) ++ as_bytes "[]")) as [r|] eqn:E; cbn [mbind option_bind]; [|done].
  destruct (strip_suffix1 x29 r) as [r'|] eqn:Es; [|done]. exfalso.
  apply strip_prefix_inv in E. unfold strip_suffix1 in Es.
  assert (last (as_bytes "DOMAIN(" ++ r) = Some x5d) as Hl.
  { rewrite <- E. change (as_bytes "[]") with ([x5b] ++ [x5d]). by rewrite app_assoc, last_snoc. }
  destruct (last r) as [c|] eqn:Ec; [|done]. rewrite last_app, Ec in Hl. injection Hl as ->. by case_decide.
Qed.

Ltac sized_case name n Hd f m :=
  destruct n as [n|]; [|destruct m; vm_compute; reflexivity];
  destruct (from_sql_sized name n f m eq_refl ltac:(discriminate) ltac:(discriminate) ltac:(discriminate)
    ltac:(discriminate) Hd) as [Es Htz]; rewrite Es; 
  specialize (Htz ltac:(refine (bool_decide_eq_false_1 _ _); vm_compute; reflexivity));
  unfold scalar_type; rewrite ?Htz; clear Es Htz; generalize (as_bytes (pretty n)); intros; vm_compute; reflexivity.

Lemma sized_numeric p f m : in_unsigned 32 p ->
  from_sql_fuel (S f) (sized "NUMERIC" (Some p)) m = DT.Numeric (Some p) None.
Proof.
  intros Hp. destruct (from_sql_sized "NUMERIC" p f m eq_refl ltac:(discriminate) ltac:(discriminate)
    ltac:(discriminate) ltac:(discriminate) Hp) as [Es _]. by rewrite Es.
Qed.

Lemma from_sql_to_str t m : describable t -> forall fuel, (length (to_str_bytes t) < fuel)%nat ->
  from_sql_fuel fuel (to_str_bytes t) m = stored_type m t.
Proof.
  induction t; intros Hd fuel Hf; (destruct fuel as [|f]; [lia|]); 
    try (match goal with |- context [to_str_bytes ?t] => is_constructor t end; destruct m; vm_compute; reflexivity);
    cbn [describable] in Hd; cbn [to_str_bytes].
  - destruct kind, unsigned, m; vm_compute; reflexivity.
  - sized_case "FLOAT"%string precision Hd f m.
  - sized_case "DOUBLE"%string precision Hd f m.
  - destruct precision as [p|], scale as [s|].
    + destruct Hd. by apply from_sql_numeric.
    + destruct Hd as [Hd _]. by apply (sized_numeric p f m).
    + destruct m; vm_compute; reflexivity.
    + destruct m; vm_compute; reflexivity.
  - destruct max_len as [n|]; [|done]. unfold text_names in Hd.
    repeat (apply elem_of_cons in Hd as [[= -> ->]|Hd]; [destruct m; vm_compute; reflexivity|]).
    by apply elem_of_nil in Hd.
  - sized_case "VARCHAR"%string n Hd f m.
  - sized_case "CHAR"%string n Hd f m.
  - sized_case "BINARY"%string n Hd f m.
  - sized_case "VARBINARY"%string n Hd f m.
  - destruct max_len as [n|]; [|done]. unfold blob_names in Hd.
    repeat (apply elem_of_cons in Hd as [[= -> ->]|Hd]; [destruct m; vm_compute; reflexivity|]).
    by apply elem_of_nil in Hd.
  - sized_case "BIT"%string n Hd f m.
  - sized_case "TIME"%string fsp Hd f m.
  - sized_case "DATETIME"%string fsp Hd f m.
  - sized_case "TIMESTAMP"%string fsp Hd f m.
  - rewrite from_sql_array by (by apply to_str_head). cbn [stored_type]. f_equal. apply IHt; [done|].
    cbn [to_str_bytes] in Hf. rewrite length_app in Hf. change (length (as_bytes "[]")) with 2%nat in Hf. lia.
  - by apply from_sql_domain.
  - apply (from_sql_list "ENUM"%string DT.Enum); [done|by left].
  - apply (from_sql_list "SET"%string DT.Set_); [done|by right].
  - destruct (geometry_upper name Hd) as (up & Hin & -> & ->). unfold geometry_names in Hin.
    repeat (apply elem_of_cons in Hin as [->|Hin]; [destruct m; vm_compute; reflexivity|]).
    by apply elem_of_nil in Hin.
Qed.

Lemma type_text t m : describable t -> from_sql_with_mode (to_str t) m = stored_type m t.
Proof.
  intros Hd. unfold from_sql_with_mode, to_str. rewrite as_of_bytes. apply from_sql_to_str; [done|lia].
Qed.

(** C30. The catalog stores a column's type as text and reads it back with [from_sql]: for
    the types the server builds, what comes back is [stored_type].
*)
Theorem data_type_roundtrip t mysql_mode : describable t ->
  from_sql_with_mode (to_str t) mysql_mode = stored_type mysql_mode t.
Proof. apply type_text. Qed.

Lemma data_type_roundtrip_witness :
  from_sql_with_mode "ENUM('a','it\'s')[]" false = DT.Array (DT.Enum ["a"; "it's"]%string) /\
  from_sql_with_mode "NUMERIC(10,2)" true = DT.Numeric (Some 10) (Some 2).
Proof.
  split.
  - refine (data_type_roundtrip (DT.Array (DT.Enum ["a"; "it's"]%string)) false _). split.
    + by repeat constructor.
    + discriminate.
  - refine (data_type_roundtrip (DT.Numeric (Some 10) (Some 2)) true _). split; split; vm_compute; done.
Defined.

(** Reading a second time changes nothing more. *)
Lemma stored_type_idempotent m t : stored_type m (stored_type m t) = stored_type m t.
Proof.
  induction t; cbn [stored_type]; repeat case_match; cbn [stored_type]; congruence.
Qed.

(** *** What the spellings do on the edges *)

(** A signed MySQL integer column comes back as a PostgreSQL one: [parse_column_schema]
    reads the catalog without the MySQL mode. *)
Example mysql_int_comes_back_as_int4 :
  from_sql (to_str (from_mysql_sql "INT")) = DT.Int32 /\ from_mysql_sql "INT" = DT.MySqlInt KInt false.
Proof. split; vm_compute; reflexivity. Qed.

(** [CHARACTER VARYING(10)] is read as a one-character type: the first word is
    [CHARACTER], which the branch of [CHAR] takes. *)
Example character_varying_is_char : from_sql "CHARACTER VARYING(10)" = DT.Char (Some 1).
Proof. vm_compute. reflexivity. Qed.

(** [SERIAL4] and [SERIAL8] get a sequence but no integer type; [SERIAL2] the type but
    no sequence. *)
Example serial_spellings :
  map (fun t => (is_serial_type t, from_sql t)) ["SERIAL"; "BIGSERIAL"; "SERIAL4"; "SERIAL8"; "SERIAL2"]%string =
  [(true, DT.Int32); (true, DT.Int64); (true, DT.Domain "SERIAL4"); (true, DT.Domain "SERIAL8"); (false, DT.Int16)].
Proof. vm_compute. reflexivity. Qed.

(** A doubled quote, SQL's own escape, is lost, and an empty last item too. *)
Example doubled_quote_is_lost :
  from_sql "ENUM('it''s')" = DT.Enum ["its"]%string /\ from_sql "ENUM('')" = DT.Enum [].
Proof. split; vm_compute; reflexivity. Qed.
