(* ===== verification/Json.v ===== *)
(** * JSON values

    The [serde_json] values that the catalog and the JSON rows are built from: the
    constructors of [json!], the accessors, and the crate's [to_vec] and [from_slice]
    as a class whose law is that a document is read back as it was written. *)

From stdpp Require Import countable.
From S2P Require Import Prelude.

(** [serde_json::Value].  A number is an integer or the bits of a double; the fields
    of an object are kept in the order of the crate's [BTreeMap]. *)
Inductive Value : Type :=
  | JNull
  | JBool (b : bool)
  | JNumber (z : Z)
  | JFloat (bits : Z)
  | JString (s : string)
  | JArray (items : list Value)
  | JObject (fields : list (string * Value)).

(** *** Maps *)

Definition name_cmp (a b : string) : comparison := bytes_cmp (as_bytes a) (as_bytes b).

(** [Map::insert] of an ordered map. *)
Fixpoint map_insert (name : string) (v : Value) (fields : list (string * Value)) : list (string * Value) :=
  match fields with
  | [] => [(name, v)]
  | (n, w) :: r =>
      match name_cmp name n with
      | Lt => (name, v) :: fields
      | Eq => (name, v) :: r
      | Gt => (n, w) :: map_insert name v r
      end
  end.

Definition map_get (name : string) (fields : list (string * Value)) : option Value :=
  match List.find (fun f => bool_decide (f.1 = name)) fields with
  | Some f => Some f.2
  | None => None
  end.

(** [json!({ name: value, ... })]. *)
Definition json (fields : list (string * Value)) : Value :=
  JObject (foldl (fun m f => map_insert f.1 f.2 m) [] fields).

(** [json!] of an [Option<String>] and of a [Vec<String>]. *)
Definition json_option (o : option string) : Value :=
  match o with Some s => JString s | None => JNull end.
Definition json_strings (l : list string) : Value := JArray (map JString l).

(** *** Accessors *)

Definition get (name : string) (v : Value) : option Value :=
  match v with JObject fields => map_get name fields | _ => None end.
Definition as_u64 (v : Value) : option Z :=
  match v with JNumber z => if (0 <=? z) then Some z else None | _ => None end.
Definition as_str (v : Value) : option string :=
  match v with JString s => Some s | _ => None end.
Definition as_bool (v : Value) : option bool :=
  match v with JBool b => Some b | _ => None end.
Definition as_array (v : Value) : option (list Value) :=
  match v with JArray items => Some items | _ => None end.

(** *** Lookups in a [json!] object *)

Lemma name_cmp_eq a b : name_cmp a b = Eq -> a = b.
Proof.
  unfold name_cmp. intros H%bytes_cmp_eq. rewrite <- (of_as_bytes a), H. apply of_as_bytes.
Qed.
Lemma name_cmp_refl a : name_cmp a a = Eq.
Proof. apply bytes_cmp_refl. Qed.

Lemma map_get_insert name n v fields :
  map_get name (map_insert n v fields) = if bool_decide (n = name) then Some v else map_get name fields.
Proof.
  unfold map_get. induction fields as [|[m w] r IH]; cbn [map_insert List.find fst].
  - by case_bool_decide.
  - destruct (name_cmp n m) eqn:Hc; cbn [List.find fst].
    + apply name_cmp_eq in Hc as ->. by case_bool_decide.
    + by case_bool_decide.
    + destruct (bool_decide_reflect (m = name)) as [->|Hm]; [|exact IH].
      rewrite bool_decide_false; [done|]. intros ->. by rewrite name_cmp_refl in Hc.
Qed.

Lemma get_json name fields :
  get name (json fields) = foldl (fun o f => if bool_decide (f.1 = name) then Some f.2 else o) None fields.
Proof.
  unfold json, get. change (@None Value) with (map_get name []) at 1. generalize (@nil (string * Value)).
  induction fields as [|f r IH]; intros m; [done|]. cbn [foldl]. by rewrite IH, map_get_insert.
Qed.

(** ** Documents *)

(** Sorted by name, without duplicates. *)
Fixpoint sorted_fields {A} (fields : list (string * A)) : bool :=
  match fields with
  | [] => true
  | f :: r =>
      match r with
      | [] => true
      | g :: _ => bool_decide (name_cmp f.1 g.1 = Lt)
      end && sorted_fields r
  end.

(** The values the crate writes and reads back as they are: objects as [BTreeMap]
    keeps them and integers of [u64] or [i64].  (Doubles may change in their last
    bit.) *)
Fixpoint canonical (v : Value) : bool :=
  match v with
  | JNull | JBool _ | JString _ => true
  | JNumber z => (- 2 ^ 63 <=? z) && (z <? 2 ^ 64)
  | JFloat _ => false
  | JArray items => forallb canonical items
  | JObject fields => sorted_fields fields && forallb (fun f => canonical f.2) fields
  end.

Lemma sorted_fields_cons {A} (f : string * A) r :
  sorted_fields (f :: r) = match r with [] => true | g :: _ => bool_decide (name_cmp f.1 g.1 = Lt) end && sorted_fields r.
Proof. done. Qed.

Lemma name_cmp_gt a b : name_cmp a b = Gt -> name_cmp b a = Lt.
Proof. unfold name_cmp. intros H. by rewrite bytes_cmp_antisym, H. Qed.

Lemma map_insert_sorted name v fields : sorted_fields fields = true -> sorted_fields (map_insert name v fields) = true.
Proof.
  induction fields as [|[n w] r IH]; [done|]. intros Hs. cbn [map_insert].
  destruct (name_cmp name n) eqn:Hc.
  - apply name_cmp_eq in Hc as ->. exact Hs.
  - rewrite sorted_fields_cons, Hs. cbn [fst]. by rewrite bool_decide_true.
  - rewrite sorted_fields_cons in Hs. apply andb_true_iff in Hs as [Hh Hr]. rewrite sorted_fields_cons, IH by done.
    apply name_cmp_gt in Hc. destruct r as [|[m x] r]; cbn [map_insert].
    + cbn [fst]. by rewrite bool_decide_true.
    + cbn [fst] in *. destruct (name_cmp name m) eqn:Hm; cbn [fst]; rewrite ?bool_decide_true by done; try done.
      by rewrite Hh.
Qed.

Lemma map_insert_canonical name v fields : canonical v = true ->
  forallb (fun f => canonical f.2) fields = true -> forallb (fun f => canonical f.2) (map_insert name v fields) = true.
Proof.
  intros Hv. induction fields as [|[n w] r IH]; cbn [map_insert forallb snd]; intros Hr; [by rewrite Hv|].
  apply andb_true_iff in Hr as [Hw Hr].
  destruct (name_cmp name n); cbn [forallb snd]; by rewrite ?Hv, ?Hw, ?Hr, ?IH.
Qed.

Lemma json_canonical fields : forallb (fun f => canonical f.2) fields = true -> canonical (json fields) = true.
Proof.
  intros Hf. unfold json. cbn [canonical]. apply andb_true_iff.
  assert (forall m, sorted_fields m = true -> forallb (fun f => canonical f.2) m = true ->
    sorted_fields (foldl (fun m f => map_insert f.1 f.2 m) m fields) = true /\
    forallb (fun f => canonical f.2) (foldl (fun m f => map_insert f.1 f.2 m) m fields) = true) as H; [|by apply H].
  induction fields as [|f r IH]; intros m Hs Hm; [done|]. cbn [forallb] in Hf. apply andb_true_iff in Hf as [Hv Hr].
  cbn [foldl]. apply IH; [done|by apply map_insert_sorted|by apply map_insert_canonical].
Qed.

Lemma json_option_canonical o : canonical (json_option o) = true.
Proof. by destruct o. Qed.
Lemma json_strings_canonical l : canonical (json_strings l) = true.
Proof. unfold json_strings. cbn [canonical]. rewrite forallb_forall. by intros v (s & <- & _)%in_map_iff. Qed.

Lemma json_array_canonical {A} (f : A -> Value) l : (forall a, a ∈ l -> canonical (f a) = true) ->
  canonical (JArray (map f l)) = true.
Proof.
  intros H. cbn [canonical]. rewrite forallb_forall. intros v (a & <- & Ha)%in_map_iff. apply H. by apply list_elem_of_In.
Qed.

(** ** The crate *)

(** [serde_json::to_vec] and [serde_json::from_slice]; an error is its text.  Both
    answer on every input. *)
Class SerdeJson := {
  to_vec : Value -> result string (list byte);
  from_slice : list byte -> result string Value;
}.

Class SerdeJsonLaws `{SerdeJson} := {
  law_json : forall v, canonical v = true -> exists bytes, to_vec v = Ok bytes /\ from_slice bytes = Ok v;
  law_to_vec : forall v, settles (to_vec v);
  law_from_slice : forall bytes, settles (from_slice bytes);
}.

(** *** An instance

    Some coding of the values as bytes: it shows that the law can hold. *)

Section Coding.
Local Abbreviation leaf := (unit + bool + Z + (Z + string))%type.

Fixpoint value_tree (v : Value) : gen_tree leaf :=
  match v with
  | JNull => GenLeaf (inl (inl (inl tt)))
  | JBool b => GenLeaf (inl (inl (inr b)))
  | JNumber z => GenLeaf (inl (inr z))
  | JFloat z => GenLeaf (inr (inl z))
  | JString s => GenLeaf (inr (inr s))
  | JArray items => GenNode 0 (map value_tree items)
  | JObject fields => GenNode 1 (map (fun f => GenNode 2 [GenLeaf (inr (inr f.1)); value_tree f.2]) fields)
  end.

Fixpoint tree_value (t : gen_tree leaf) : Value :=
  match t with
  | GenLeaf (inl (inl (inl _))) => JNull
  | GenLeaf (inl (inl (inr b))) => JBool b
  | GenLeaf (inl (inr z)) => JNumber z
  | GenLeaf (inr (inl z)) => JFloat z
  | GenLeaf (inr (inr s)) => JString s
  | GenNode 0 items => JArray (map tree_value items)
  | GenNode _ fields =>
      JObject (map (fun f => match f with
                             | GenNode _ [GenLeaf (inr (inr name)); v] => (name, tree_value v)
                             | _ => (""%string, JNull)
                             end) fields)
  end.

Lemma tree_value_tree : forall v, tree_value (value_tree v) = v.
Proof.
  fix IH 1. intros [| | | | |items|fields]; cbn [value_tree tree_value]; try done.
  - f_equal. induction items as [|v r IHr]; [done|]. cbn [map]. by rewrite IH, IHr.
  - f_equal. induction fields as [|[n v] r IHr]; [done|]. cbn [map fst snd]. by rewrite IH, IHr.
Qed.

Fixpoint positive_bytes (p : positive) : list byte :=
  match p with xH => [] | xO p => x00 :: positive_bytes p | xI p => x01 :: positive_bytes p end.
Fixpoint bytes_positive (l : list byte) : positive :=
  match l with [] => xH | x00 :: l => xO (bytes_positive l) | _ :: l => xI (bytes_positive l) end.
Lemma bytes_positive_bytes p : bytes_positive (positive_bytes p) = p.
Proof. by induction p as [p IH|p IH|]; cbn; rewrite ?IH. Qed.
End Coding.

#[export] Instance coded_json : SerdeJson := {|
  to_vec v := Ok (positive_bytes (encode (value_tree v)));
  from_slice bytes :=
    match decode (bytes_positive bytes) with
    | Some t => Ok (tree_value t)
    | None => Err "expected value at line 1 column 1"%string
    end;
|}.

#[export] Instance coded_json_laws : SerdeJsonLaws.
Proof.
  split; [|done|].
  - intros v _. eexists. split; [reflexivity|]. cbn [from_slice coded_json].
    by rewrite bytes_positive_bytes, decode_encode, tree_value_tree.
  - intros bytes. cbn. by destruct (decode _).
Qed.
