(* ===== verification/KeyCodec.v ===== *)
(** * Typed keys and the key space

    [encode_key_value] and [decode_key_value] of
    src/src/storage_layout/olap_stats.rs and every key builder of
    src/src/storage_layout/keys.rs: row keys, row-version keys, index entries,
    OLAP chunks, statistics and catalog descriptors, with their range scans. *)

From S2P Require Import Prelude Float Types Cursor TupleCodec.

(** ** Key values *)

(** [(v as uN) ^ signbit], big-endian: the order-preserving integer form. *)
Definition flip16 (v : Z) : Z := Z.lxor (v mod 2 ^ 16) (2 ^ 15).
Definition flip32 (v : Z) : Z := Z.lxor (v mod 2 ^ 32) (2 ^ 31).
Definition flip64 (v : Z) : Z := Z.lxor (v mod 2 ^ 64) (2 ^ 63).

(** [encode_key_value]. *)
Fixpoint encode_key_value (value : ColumnValue) : list byte :=
  match value with
  | Null => [x00]
  | Boolean false => [x01; x00]
  | Boolean true => [x01; x01]
  | Int16 v => x10 :: to_be 2 (flip16 v)
  | Int32 v => x02 :: to_be 4 (flip32 v)
  | Int64 v => x03 :: to_be 8 (flip64 v)
  | Float32 v => x05 :: encode_ordered_f32 v
  | Float64 v => x06 :: encode_ordered_f64 v
  | Numeric v | Text v | Date v | Timestamp v | TimestampTz v | Uuid v | Json v | Jsonb v =>
      x04 :: push_bytes_segment (as_bytes v)
  | Bytea v => x07 :: push_bytes_segment v
  | Array values =>
      x08 :: to_be 4 (len values) ++
        concat (map (fun v => push_bytes_segment (encode_key_value v)) values)
  end.

(** The constructor a text key gets back from its column type. *)
Definition text_value (t : DataType) (s : string) : ColumnValue :=
  match t with
  | DT.Numeric _ _ => Numeric s
  | DT.Date => Date s
  | DT.Timestamp | DT.MySqlDateTime _ | DT.MySqlTimestamp _ => Timestamp s
  | DT.TimestampTz => TimestampTz s
  | DT.Uuid => Uuid s
  | DT.Json => Json s
  | DT.Jsonb => Jsonb s
  | _ => Text s
  end.

Definition key_mismatch {A} : PgWireResult A :=
  user_error "XX000" "typed key value does not match column type".

(** [decode_mysql_int_key_value], its recursive call a parameter. *)
Definition decode_mysql_int_key_value
    (decode_key_value : DataType -> list byte -> PgWireResult (ColumnValue * nat))
    (tag : Z) (kind : MySqlIntKind) (unsigned : bool) (l : list byte)
    : PgWireResult (ColumnValue * nat) :=
  let mismatch :=
    user_error "XX000" "typed key value does not match MySQL integer type" in
  match kind, unsigned with
  | Tiny, false | Small, false =>
      if tag =? 16 then decode_key_value DT.Int16 l else mismatch
  | Tiny, true | Small, true | Medium, _ | KInt, false =>
      if tag =? 2 then decode_key_value DT.Int32 l else mismatch
  | KInt, true | Big, false =>
      if tag =? 3 then decode_key_value DT.Int64 l else mismatch
  | Big, true =>
      if tag =? 4 then decode_key_value (DT.Numeric None None) l else mismatch
  end.

(** The element loop of the [Array] arm: each element is a segment that must
    decode completely; [offset] is where the next one starts. *)
Fixpoint decode_key_elements
    (decode_inner : list byte -> PgWireResult (ColumnValue * nat))
    (count : nat) (l : list byte) (offset : nat)
    : PgWireResult (list ColumnValue * nat) :=
  match count with
  | O => Ok ([], offset)
  | S count =>
      '(encoded, consumed) ← read_bytes_segment (drop offset l);
      '(value, value_consumed) ← decode_inner encoded;
      if negb (value_consumed =? length encoded)%nat
      then user_error "XX000" "trailing bytes in ARRAY key element"
      else
        '(values, offset') ← decode_key_elements decode_inner count l (offset + consumed);
        Ok (value :: values, offset')
  end.

(** The text arms of [decode_key_value]. *)
Definition decode_text_key (t : DataType) (l : list byte) : PgWireResult (ColumnValue * nat) :=
  '(text, consumed) ← read_bytes_segment (drop 1 l);
  text ← ok_or (PgError "XX000" "invalid UTF-8 in v2 key") (from_utf8 text);
  Ok (text_value t text, (consumed + 1)%nat).

(** [decode_key_value]; the arms of the source are selected by tag and type
    together, here by type and then tag.  One unit of fuel per recursive call. *)
Fixpoint decode_key_value_fuel (fuel : nat) (t : DataType) (l : list byte)
    : PgWireResult (ColumnValue * nat) :=
  match fuel with
  | O => OutOfFuel
  | S fuel =>
    match l with
    | [] => user_error "XX000" "empty typed key value"
    | tagb :: _ =>
      let tag := u8_to_Z tagb in
      if tag =? 0 then Ok (Null, 1%nat) else
      match t with
      | DT.Boolean =>
          if tag =? 1 then
            match l !! 1%nat with
            | Some b => Ok (Boolean (negb (u8_to_Z b =? 0)), 2%nat)
            | None => user_error "XX000" "truncated BOOL key value"
            end
          else key_mismatch
      | DT.MySqlInt kind unsigned =>
          decode_mysql_int_key_value (decode_key_value_fuel fuel) tag kind unsigned l
      | DT.Int16 =>
          if tag =? 16 then
            if (length l <? 3)%nat then user_error "XX000" "truncated INT2 key value"
            else Ok (Int16 (to_signed 16 (Z.lxor (from_be (slice l 1 3)) (2 ^ 15))), 3%nat)
          else key_mismatch
      | DT.Int32 =>
          if tag =? 2 then
            if (length l <? 5)%nat then user_error "XX000" "truncated INT4 key value"
            else Ok (Int32 (to_signed 32 (Z.lxor (from_be (slice l 1 5)) (2 ^ 31))), 5%nat)
          else key_mismatch
      | DT.Int64 =>
          if tag =? 3 then
            if (length l <? 9)%nat then user_error "XX000" "truncated INT8 key value"
            else Ok (Int64 (to_signed 64 (Z.lxor (from_be (slice l 1 9)) (2 ^ 63))), 9%nat)
          else key_mismatch
      | DT.Text | DT.MySqlText _ _ | DT.VarChar _ | DT.Char _ | DT.Time | DT.TimeTz
      | DT.Interval | DT.Numeric _ _ | DT.Date | DT.MySqlTime _ | DT.Timestamp
      | DT.MySqlDateTime _ | DT.MySqlTimestamp _ | DT.TimestampTz | DT.Uuid | DT.Json
      | DT.Jsonb | DT.Domain _ | DT.Enum _ | DT.Set_ _ | DT.Geometry _ =>
          if tag =? 4 then decode_text_key t l else key_mismatch
      | DT.Float32 | DT.MySqlFloat _ =>
          if tag =? 5 then
            if (length l <? 5)%nat then user_error "XX000" "truncated FLOAT4 key value"
            else Ok (Float32 (decode_ordered_f32 (slice l 1 5)), 5%nat)
          else key_mismatch
      | DT.Float64 | DT.MySqlDouble _ =>
          if tag =? 6 then
            if (length l <? 9)%nat then user_error "XX000" "truncated FLOAT8 key value"
            else Ok (Float64 (decode_ordered_f64 (slice l 1 9)), 9%nat)
          else key_mismatch
      | DT.Bytea | DT.Binary _ | DT.VarBinary _ | DT.Blob _ _ =>
          if tag =? 7 then
            '(value, consumed) ← read_bytes_segment (drop 1 l);
            Ok (Bytea value, (consumed + 1)%nat)
          else key_mismatch
      | DT.Array inner =>
          if tag =? 8 then
            if (length l <? 5)%nat then user_error "XX000" "truncated ARRAY key value"
            else
              '(values, offset) ← decode_key_elements (decode_key_value_fuel fuel inner)
                                    (Z.to_nat (from_be (slice l 1 5))) l 5;
              Ok (Array values, offset)
          else key_mismatch
      | DT.Bit _ | DT.Year => key_mismatch
      end
    end
  end.

(** How many nested calls a type can cause. *)
Fixpoint type_depth (t : DataType) : nat :=
  match t with
  | DT.Array inner => S (type_depth inner)
  | DT.MySqlInt _ _ => 1
  | _ => 0
  end.

Definition decode_key_value (t : DataType) (l : list byte) : PgWireResult (ColumnValue * nat) :=
  decode_key_value_fuel (S (type_depth t)) t l.

(** ** Key builders (keys.rs) *)

Definition VERSION : byte := x02.
Definition FAST_ROW_VERSION : byte := x03.
Definition FIXED_ROW_VERSION : byte := x04.
Definition ROW_PREFIX : byte := x72.
Definition ROW_VERSION_PREFIX : byte := x76.
Definition INDEX_PREFIX : byte := x69.
Definition OLAP_PREFIX : byte := x6f.
Definition STATS_PREFIX : byte := x73.
Definition CATALOG_PREFIX : byte := x63.
Definition DESC_VERSION_MAX : Z := u64_max.

Record RangeScan : Type := {
  rs_start : list byte;
  rs_end : option (list byte);
  rs_limit : option nat;
  rs_reverse : bool;
}.

Definition catalog_descriptor_key (kind : string) (id : Z) : list byte :=
  [VERSION; CATALOG_PREFIX] ++ push_bytes_segment (as_bytes kind) ++ to_be 4 id.

Definition row_prefix (table_id table_epoch : Z) : list byte :=
  [VERSION; ROW_PREFIX] ++ to_be 4 table_id ++ to_be 8 table_epoch.

Definition row_key (table_id table_epoch : Z) (pk_value : ColumnValue) : list byte :=
  row_prefix table_id table_epoch ++ encode_key_value pk_value.

Definition row_version_prefix (table_id table_epoch : Z) (pk_value : ColumnValue) : list byte :=
  [VERSION; ROW_VERSION_PREFIX] ++ to_be 4 table_id ++ to_be 8 table_epoch ++
  encode_key_value pk_value.

Definition row_version_key (table_id table_epoch : Z) (pk_value : ColumnValue) (version : Z)
    : list byte :=
  row_version_prefix table_id table_epoch pk_value ++ to_be 8 (DESC_VERSION_MAX - version).

(** The [RangeScan] over the keys that start with [prefix]. *)
Definition prefix_range (start : list byte) (limit : option nat) : RangeScan :=
  {| rs_start := start; rs_end := next_prefix start; rs_limit := limit; rs_reverse := false |}.

Definition row_version_range (table_id table_epoch : Z) (pk_value : ColumnValue)
    (limit : option nat) : RangeScan :=
  prefix_range (row_version_prefix table_id table_epoch pk_value) limit.

Definition row_versions_range (table_id table_epoch : Z) (limit : option nat) : RangeScan :=
  prefix_range ([VERSION; ROW_VERSION_PREFIX] ++ to_be 4 table_id ++ to_be 8 table_epoch) limit.

Definition decode_pk_from_row_version_key (key : list byte) (table_id table_epoch : Z)
    (t : DataType) : PgWireResult (ColumnValue * Z) :=
  let prefix := [VERSION; ROW_VERSION_PREFIX] ++ to_be 4 table_id ++ to_be 8 table_epoch in
  suffix ← ok_or (PgError "XX000" "v2 row version key missing expected prefix")
             (strip_prefix prefix key);
  '(value, consumed) ← decode_key_value t suffix;
  if negb (length suffix =? consumed + 8)%nat
  then user_error "XX000" "malformed v2 row version key suffix"
  else Ok (value, DESC_VERSION_MAX - from_be (slice suffix consumed (consumed + 8))).

Definition decode_pk_from_row_key (key : list byte) (table_id table_epoch : Z) (t : DataType)
    : PgWireResult ColumnValue :=
  suffix ← ok_or (PgError "XX000" "v2 row key missing expected prefix")
             (strip_prefix (row_prefix table_id table_epoch) key);
  '(value, consumed) ← decode_key_value t suffix;
  if negb (consumed =? length suffix)%nat
  then user_error "XX000" "malformed v2 row key suffix"
  else Ok value.

Definition row_range (table_id table_epoch : Z) (limit : option nat) : RangeScan :=
  prefix_range (row_prefix table_id table_epoch) limit.

(** [row_range_between]; a bound is a value and whether it is inclusive. *)
Definition row_range_between (table_id table_epoch : Z)
    (lower upper : option (ColumnValue * bool)) (limit : option nat) : RangeScan :=
  {| rs_start :=
       match lower with
       | Some (value, true) => row_key table_id table_epoch value
       | Some (value, false) => row_key table_id table_epoch value ++ [x00]
       | None => row_prefix table_id table_epoch
       end;
     rs_end :=
       match upper with
       | Some (value, true) => Some (row_key table_id table_epoch value ++ [x00])
       | Some (value, false) => Some (row_key table_id table_epoch value)
       | None => next_prefix (row_prefix table_id table_epoch)
       end;
     rs_limit := limit;
     rs_reverse := false |}.

Definition index_prefix (index_id : Z) (index_value : ColumnValue) : list byte :=
  [VERSION; INDEX_PREFIX] ++ to_be 4 index_id ++ encode_key_value index_value.

Definition index_all_prefix (index_id : Z) : list byte :=
  [VERSION; INDEX_PREFIX] ++ to_be 4 index_id.

Definition index_entry_key (index_id : Z) (index_value pk_value : ColumnValue) : list byte :=
  index_prefix index_id index_value ++ encode_key_value pk_value.

Definition decode_pk_from_index_entry_key (key : list byte) (index_id : Z)
    (index_value : ColumnValue) (pk_data_type : DataType) : PgWireResult ColumnValue :=
  suffix ← ok_or (PgError "XX000" "v2 index key missing expected prefix")
             (strip_prefix (index_prefix index_id index_value) key);
  '(value, consumed) ← decode_key_value pk_data_type suffix;
  if negb (consumed =? length suffix)%nat
  then user_error "XX000" "malformed v2 index key suffix"
  else Ok value.

Definition olap_chunk_meta_prefix (table_id table_epoch : Z) : list byte :=
  [VERSION; OLAP_PREFIX; x6d] ++ to_be 4 table_id ++ to_be 8 table_epoch.

Definition olap_chunk_meta_key (table_id table_epoch chunk_id : Z) : list byte :=
  [VERSION; OLAP_PREFIX; x6d] ++ to_be 4 table_id ++ to_be 8 table_epoch ++ to_be 8 chunk_id.

Definition olap_chunk_column_prefix (table_id table_epoch : Z) : list byte :=
  [VERSION; OLAP_PREFIX; x63] ++ to_be 4 table_id ++ to_be 8 table_epoch.

Definition olap_chunk_meta_range (table_id table_epoch : Z) : RangeScan :=
  prefix_range (olap_chunk_meta_prefix table_id table_epoch) None.

Definition olap_chunk_column_key (table_id table_epoch chunk_id column_id : Z) : list byte :=
  [VERSION; OLAP_PREFIX; x63] ++ to_be 4 table_id ++ to_be 8 table_epoch ++
  to_be 8 chunk_id ++ to_be 4 column_id.

Definition stats_prefix (table_id table_epoch : Z) : list byte :=
  [VERSION; STATS_PREFIX] ++ to_be 4 table_id ++ to_be 8 table_epoch.

Definition stats_key (table_id table_epoch : Z) (column_id : option Z) : list byte :=
  [VERSION; STATS_PREFIX] ++ to_be 4 table_id ++ to_be 8 table_epoch ++
  to_be 4 (default 0 column_id).

(** Membership in the half-open range of a [RangeScan], as the store tests it. *)
Definition in_range (r : RangeScan) (key : list byte) : bool :=
  bytes_leb (rs_start r) key &&
  match rs_end r with Some e => bytes_ltb key e | None => true end.

(** ** Integer and float keys *)

Lemma flip_eq w v :
  0 < w -> in_signed w v -> Z.lxor (v mod 2 ^ w) (2 ^ (w - 1)) = v + 2 ^ (w - 1).
Proof.
  intros Hw [Hlo Hhi].
  assert (Hp : 2 ^ w = 2 * 2 ^ (w - 1))
    by (rewrite <- Z.pow_succ_r by lia; f_equal; lia).
  assert (0 < 2 ^ (w - 1)) by (apply Z.pow_pos_nonneg; lia).
  rewrite lxor_signbit; [|done|unfold in_unsigned; apply Z.mod_pos_bound; lia].
  destruct (decide (0 <= v)).
  - rewrite Z.mod_small by lia. destruct (Z.ltb_spec v (2 ^ (w - 1))); lia.
  - rewrite <- (Z.mod_unique_pos v (2 ^ w) (-1) (v + 2 ^ w)) by lia.
    destruct (Z.ltb_spec (v + 2 ^ w) (2 ^ (w - 1))); lia.
Qed.

Lemma unflip_eq w v :
  0 < w -> in_signed w v -> to_signed w (Z.lxor (v + 2 ^ (w - 1)) (2 ^ (w - 1))) = v.
Proof.
  intros Hw Hv. rewrite <- flip_eq by done.
  rewrite Z.lxor_assoc, Z.lxor_nilpotent, Z.lxor_0_r, to_signed_mod by done.
  by apply to_signed_small.
Qed.

Lemma flip_range w v :
  0 < w -> in_signed w v -> in_unsigned w (v + 2 ^ (w - 1)).
Proof.
  intros Hw [Hlo Hhi].
  assert (Hp : 2 ^ w = 2 * 2 ^ (w - 1))
    by (rewrite <- Z.pow_succ_r by lia; f_equal; lia).
  unfold in_unsigned. lia.
Qed.

Lemma flip_be n w v :
  w = 8 * Z.of_nat n -> 0 < w -> in_signed w v ->
  to_signed w (Z.lxor (from_be (to_be n (Z.lxor (v mod 2 ^ w) (2 ^ (w - 1))))) (2 ^ (w - 1))) = v.
Proof.
  intros -> Hw Hv. rewrite flip_eq, from_be_to_be_small by (first [done|by apply flip_range]).
  by apply unflip_eq.
Qed.

Lemma unflip16 v :
  in_signed 16 v -> to_signed 16 (Z.lxor (from_be (to_be 2 (flip16 v))) (2 ^ 15)) = v.
Proof. by apply (flip_be 2 16). Qed.
Lemma unflip32 v :
  in_signed 32 v -> to_signed 32 (Z.lxor (from_be (to_be 4 (flip32 v))) (2 ^ 31)) = v.
Proof. by apply (flip_be 4 32). Qed.
Lemma unflip64 v :
  in_signed 64 v -> to_signed 64 (Z.lxor (from_be (to_be 8 (flip64 v))) (2 ^ 63)) = v.
Proof. by apply (flip_be 8 64). Qed.

Lemma flip_cmp n w a b :
  w = 8 * Z.of_nat n -> 0 < w -> in_signed w a -> in_signed w b ->
  bytes_cmp (to_be n (Z.lxor (a mod 2 ^ w) (2 ^ (w - 1))))
            (to_be n (Z.lxor (b mod 2 ^ w) (2 ^ (w - 1)))) = (a ?= b).
Proof.
  intros -> Hw Ha Hb. rewrite !flip_eq, to_be_cmp by (first [done|by apply flip_range]).
  destruct (Z.compare_spec a b);
    [apply Z.compare_eq_iff|apply Z.compare_lt_iff|apply Z.compare_gt_iff]; lia.
Qed.

Lemma decode_encode_ordered_f32 v :
  in_unsigned 32 v -> decode_ordered_f32 (encode_ordered_f32 v) = v.
Proof.
  intros H. unfold decode_ordered_f32, encode_ordered_f32.
  rewrite (from_be_to_be_small 4); [|by apply (ordered_bits_range 23 8)].
  by apply (unordered_ordered 23 8).
Qed.

Lemma decode_encode_ordered_f64 v :
  in_unsigned 64 v -> decode_ordered_f64 (encode_ordered_f64 v) = v.
Proof.
  intros H. unfold decode_ordered_f64, encode_ordered_f64.
  rewrite (from_be_to_be_small 8); [|by apply (ordered_bits_range 52 11)].
  by apply (unordered_ordered 52 11).
Qed.

(** ** Typing of keys *)

(** The value constructors [decode_key_value] can return for a column type. *)
Fixpoint key_typed (t : DataType) (v : ColumnValue) : bool :=
  match v with
  | Null => true
  | Boolean _ => bool_decide (t = DT.Boolean)
  | Int16 _ => match t with DT.Int16 | DT.MySqlInt (Tiny | Small) false => true | _ => false end
  | Int32 _ =>
      match t with
      | DT.Int32 | DT.MySqlInt (Tiny | Small) true | DT.MySqlInt Medium _
      | DT.MySqlInt KInt false => true
      | _ => false
      end
  | Int64 _ =>
      match t with
      | DT.Int64 | DT.MySqlInt KInt true | DT.MySqlInt Big false => true
      | _ => false
      end
  | Float32 _ => match t with DT.Float32 | DT.MySqlFloat _ => true | _ => false end
  | Float64 _ => match t with DT.Float64 | DT.MySqlDouble _ => true | _ => false end
  | Numeric _ => match t with DT.Numeric _ _ | DT.MySqlInt Big true => true | _ => false end
  | Text _ =>
      match t with
      | DT.Text | DT.MySqlText _ _ | DT.VarChar _ | DT.Char _ | DT.Time | DT.TimeTz
      | DT.Interval | DT.MySqlTime _ | DT.Domain _ | DT.Enum _ | DT.Set_ _
      | DT.Geometry _ => true
      | _ => false
      end
  | Date _ => bool_decide (t = DT.Date)
  | Timestamp _ =>
      match t with
      | DT.Timestamp | DT.MySqlDateTime _ | DT.MySqlTimestamp _ => true
      | _ => false
      end
  | TimestampTz _ => bool_decide (t = DT.TimestampTz)
  | Uuid _ => bool_decide (t = DT.Uuid)
  | Json _ => bool_decide (t = DT.Json)
  | Jsonb _ => bool_decide (t = DT.Jsonb)
  | Bytea _ =>
      match t with
      | DT.Bytea | DT.Binary _ | DT.VarBinary _ | DT.Blob _ _ => true
      | _ => false
      end
  | Array vs => match t with DT.Array inner => forallb (key_typed inner) vs | _ => false end
  end.

(** Like [wf_value]; the encoded elements of an array also fit a [u32] length. *)
Fixpoint wf_key (v : ColumnValue) : Prop :=
  match v with
  | Array vs =>
      len vs < 2 ^ 32 /\
      foldr (fun v acc => (wf_key v /\ wf_bytes (encode_key_value v)) /\ acc) True vs
  | _ => wf_value v
  end.

Lemma wf_key_array vs :
  wf_key (Array vs) <->
  len vs < 2 ^ 32 /\ Forall (fun v => wf_key v /\ wf_bytes (encode_key_value v)) vs.
Proof.
  cbn. enough (foldr (fun v acc => (wf_key v /\ wf_bytes (encode_key_value v)) /\ acc) True vs
    <-> Forall (fun v => wf_key v /\ wf_bytes (encode_key_value v)) vs) by tauto.
  induction vs as [|v vs IH]; cbn; [by split|]. rewrite Forall_cons, IH. done.
Qed.

Lemma wf_key_other v : wf_key v -> (forall vs, v <> Array vs) -> wf_value v.
Proof. destruct v; cbn; auto. intros _ H. by edestruct H. Qed.

(** ** Round trip *)

Lemma drop1_cons (b : byte) l : drop 1 (b :: l) = l.
Proof. reflexivity. Qed.

Lemma slice_tag x n r b : length x = n -> slice (b :: x ++ r) 1 (1 + n) = x.
Proof. intros <-. apply (slice_app [b] x r). Qed.

Lemma decode_text_key_encode t s r :
  wf_text s ->
  decode_text_key t (x04 :: push_bytes_segment (as_bytes s) ++ r) =
    Ok (text_value t s, length (x04 :: push_bytes_segment (as_bytes s))).
Proof.
  intros [Hu Hl]. unfold decode_text_key. rewrite drop1_cons.
  rewrite read_push_bytes_segment, bind_ok by done.
  rewrite from_utf8_as_bytes by done. cbn [ok_or]. rewrite bind_ok.
  cbn [length]. rewrite length_push_bytes_segment. do 2 f_equal. lia.
Qed.

Lemma decode_key_elements_encode decode_inner vs : forall pre r,
  Forall (fun v => decode_inner (encode_key_value v) = Ok (v, length (encode_key_value v)) /\
                   wf_bytes (encode_key_value v)) vs ->
  decode_key_elements decode_inner (length vs)
    (pre ++ concat (map (fun v => push_bytes_segment (encode_key_value v)) vs) ++ r) (length pre) =
  Ok (vs, (length pre +
           length (concat (map (fun v => push_bytes_segment (encode_key_value v)) vs)))%nat).
Proof.
  induction vs as [|v vs IH]; intros pre r Hall.
  - cbn. by rewrite Nat.add_0_r.
  - apply Forall_cons in Hall as [[Hv Hl] Hall].
    cbn [length map concat decode_key_elements]. rewrite drop_app_length, <- app_assoc.
    rewrite read_push_bytes_segment, bind_ok by done.
    rewrite Hv, bind_ok, Nat.eqb_refl. cbn [negb].
    rewrite (app_assoc pre).
    replace (length pre + (4 + length (encode_key_value v)))%nat
      with (length (pre ++ push_bytes_segment (encode_key_value v)))
      by (rewrite length_app, length_push_bytes_segment; done).
    rewrite IH, bind_ok by done. rewrite !length_app. do 2 f_equal. lia.
Qed.

Lemma type_depth_array_lt inner : (type_depth inner < type_depth (DT.Array inner))%nat.
Proof. cbn. lia. Qed.

(** Evaluates the outer tag and length tests of [decode_key_value] on an
    encoded value whose tag is concrete. *)
Lemma key_value_fuel_roundtrip v : forall t fuel r,
  key_typed t v = true -> wf_key v -> (type_depth t < fuel)%nat ->
  decode_key_value_fuel fuel t (encode_key_value v ++ r) = Ok (v, length (encode_key_value v)).
Proof.
  induction v as [vs IH|v Hv] using ColumnValue_nested_ind; intros t fuel r Ht Hwf Hf.
  - destruct t; try discriminate Ht. cbn [type_depth] in Hf.
    destruct fuel as [|fuel]; [lia|]. apply wf_key_array in Hwf as [Hlen Hwf].
    cbn [encode_key_value app decode_key_value_fuel].
    change (u8_to_Z x08 =? 0) with false. change (u8_to_Z x08 =? 8) with true. cbv iota.
    rewrite <- app_assoc, slice_tag by apply length_to_be.
    cbn [length]. rewrite !length_app, length_to_be. cbn [Nat.add Nat.ltb Nat.leb].
    rewrite (from_be_to_be_small 4) by (by apply in_unsigned_len).
    unfold len. rewrite Nat2Z.id.
    rewrite (decode_key_elements_encode _ vs (x08 :: to_be 4 (Z.of_nat (length vs))) r).
    + rewrite bind_ok. cbn [length]. by rewrite length_to_be.
    + cbn [key_typed] in Ht. rewrite forallb_forall in Ht. rewrite Forall_forall in *.
      intros v Hin. destruct (Hwf v Hin) as [Hwv Hlv]. split; [|done].
      rewrite <- (app_nil_r (encode_key_value v)) at 1.
      apply IH; [done|apply Ht; by apply list_elem_of_In|done|lia].
  - apply wf_key_other in Hwf; [|done]. destruct fuel as [|fuel]; [lia|].
    destruct v; try (by edestruct Hv); cbn [wf_value] in Hwf.
    all: destruct t; try discriminate Ht; try destruct kind, unsigned; try discriminate Ht.
    all: try (destruct fuel as [|fuel]; [cbn in Hf; lia|]).
    all: cbn [encode_key_value app decode_key_value_fuel decode_mysql_int_key_value length
              Nat.ltb Nat.leb].
    all: repeat match goal with
      | |- context [u8_to_Z ?b =? ?z] =>
          let v := eval vm_compute in (u8_to_Z b =? z) in
          change (u8_to_Z b =? z) with v; cbv iota
      end.
    all: try (rewrite decode_text_key_encode by done; done).
    all: try done.
    all: try (by destruct v).
    all: try (rewrite length_app, ?length_to_be; cbn [Nat.add Nat.ltb Nat.leb];
      unfold encode_ordered_f32, encode_ordered_f64;
      rewrite ?length_to_be; cbn [Nat.add Nat.ltb Nat.leb];
      rewrite slice_tag by apply length_to_be).
    all: try (by rewrite unflip16).
    all: try (by rewrite unflip32).
    all: try (by rewrite unflip64).
    all: try (fold (encode_ordered_f32 bits); by rewrite decode_encode_ordered_f32).
    all: try (fold (encode_ordered_f64 bits); by rewrite decode_encode_ordered_f64).
    all: rewrite drop1_cons, read_push_bytes_segment, bind_ok by done;
      rewrite length_push_bytes_segment; do 2 f_equal; lia.
Qed.

Lemma key_value_roundtrip_app t v r :
  key_typed t v = true -> wf_key v ->
  decode_key_value t (encode_key_value v ++ r) = Ok (v, length (encode_key_value v)).
Proof. intros. apply key_value_fuel_roundtrip; [done|done|lia]. Qed.

(** ** Keys are self-delimiting *)

(** The payload length of the tags whose payload has a fixed one. *)
Definition key_fixed_body (tag : byte) : option nat :=
  match u8_to_Z tag with
  | 0 => Some 0%nat | 1 => Some 1%nat | 16 => Some 2%nat | 2 => Some 4%nat
  | 3 => Some 8%nat | 5 => Some 4%nat | 6 => Some 8%nat | _ => None
  end.

Lemma key_shape v :
  wf_key v ->
  (exists tag body n, encode_key_value v = tag :: body /\ key_fixed_body tag = Some n /\
     length body = n) \/
  (exists tag l, encode_key_value v = tag :: push_bytes_segment l /\ wf_bytes l /\
     (tag = x04 \/ tag = x07)) \/
  (exists vs, v = Array vs).
Proof.
  destruct v; intros Hwf; cbn [encode_key_value];
    lazymatch goal with
    | |- _ \/ _ \/ exists _, Array _ = _ => right; right; eauto
    | |- _ \/ (exists _ _, _ :: push_bytes_segment _ = _ /\ _) \/ _ =>
        right; left; do 2 eexists; split; [reflexivity|];
        (split; [first [exact (proj2 Hwf) | exact Hwf]|auto])
    | _ =>
        left; try match goal with b : bool |- _ => destruct b end;
        do 3 eexists; (split; [reflexivity|]); (split; [reflexivity|]);
        unfold encode_ordered_f32, encode_ordered_f64; by rewrite ?length_to_be
    end.
Qed.

Lemma push_segment_inj a b r s :
  wf_bytes a -> wf_bytes b ->
  push_bytes_segment a ++ r = push_bytes_segment b ++ s -> a = b /\ r = s.
Proof.
  intros Ha Hb H. pose proof (read_push_bytes_segment a r Ha) as Hr.
  rewrite H, read_push_bytes_segment in Hr by done. injection Hr as Hab _. subst b.
  split; [done|]. by apply app_inv_head in H.
Qed.

Lemma push_segments_inj vs : forall ws r s,
  length vs = length ws -> Forall wf_bytes vs -> Forall wf_bytes ws ->
  concat (map push_bytes_segment vs) ++ r = concat (map push_bytes_segment ws) ++ s ->
  vs = ws /\ r = s.
Proof.
  induction vs as [|v vs IH]; intros [|w ws] r s; cbn; try done.
  intros [= Hl] Hv Hw. apply Forall_cons in Hv as [? ?]. apply Forall_cons in Hw as [? ?].
  rewrite <- !app_assoc. intros H'. apply push_segment_inj in H' as [-> H']; [|done|done].
  apply IH in H' as [-> ->]; auto.
Qed.

Lemma to_be_inj n a b :
  in_unsigned (8 * Z.of_nat n) a -> in_unsigned (8 * Z.of_nat n) b ->
  to_be n a = to_be n b -> a = b.
Proof.
  intros Ha Hb H. rewrite <- (from_be_to_be_small n a), <- (from_be_to_be_small n b) by done.
  by rewrite H.
Qed.

Lemma app_inv_length {A} (a b r s : list A) :
  length a = length b -> a ++ r = b ++ s -> a = b /\ r = s.
Proof. intros Hl H. by apply app_inj_1 in H. Qed.

Lemma encode_key_array vs :
  encode_key_value (Array vs) =
  x08 :: to_be 4 (len vs) ++ concat (map push_bytes_segment (map encode_key_value vs)).
Proof. cbn [encode_key_value]. by rewrite map_map. Qed.

Lemma cons_inv {A} (x y : A) a b : x :: a = y :: b -> x = y /\ a = b.
Proof. intros H. by simplify_eq. Qed.

(** No key is a proper prefix of another: the first key of a concatenation can
    be read off without knowing its type. *)
Lemma key_prefix_free v w r s :
  wf_key v -> wf_key w ->
  encode_key_value v ++ r = encode_key_value w ++ s ->
  encode_key_value v = encode_key_value w /\ r = s.
Proof.
  intros Hv Hw.
  destruct (key_shape v Hv) as [(t&b&n&->&Ht&Hl)|[(t&l&->&Hwf&Ht)|[vs ->]]],
    (key_shape w Hw) as [(t'&b'&n'&->&Ht'&Hl')|[(t'&l'&->&Hwf'&Ht')|[ws ->]]];
    rewrite ?encode_key_array; cbn [app]; intros [Htag H]%cons_inv.
  - subst t'. rewrite Ht in Ht'. injection Ht' as ->. subst n'.
    apply app_inv_length in H as [-> ->]; done.
  - destruct Ht' as [-> | ->]; subst t; discriminate Ht.
  - subst t; discriminate Ht.
  - destruct Ht as [-> | ->]; subst t'; discriminate Ht'.
  - apply push_segment_inj in H as [-> ->]; [|done|done]. by subst.
  - destruct Ht as [-> | ->]; discriminate Htag.
  - subst t'; discriminate Ht'.
  - destruct Ht' as [-> | ->]; discriminate Htag.
  - apply wf_key_array in Hv as [Hlv Hv], Hw as [Hlw Hw].
    rewrite <- !app_assoc in H. apply app_inv_length in H as [Hn H]; [|by rewrite !length_to_be].
    apply to_be_inj in Hn; [|by apply in_unsigned_len..]. unfold len in Hn.
    apply push_segments_inj in H as [Heq ->].
    + split; [|done]. f_equal. f_equal; [by unfold len; rewrite Hn|by rewrite Heq].
    + rewrite !length_map. lia.
    + apply Forall_map. eapply Forall_impl; [exact Hv|]. by intros ? [].
    + apply Forall_map. eapply Forall_impl; [exact Hw|]. by intros ? [].
Qed.

Lemma starts_with_key_prefix p v w r :
  wf_key v -> wf_key w ->
  starts_with (p ++ encode_key_value w ++ r) (p ++ encode_key_value v) =
  bool_decide (encode_key_value w = encode_key_value v).
Proof.
  intros Hv Hw. apply eq_true_iff_eq. rewrite starts_with_spec, bool_decide_eq_true. split.
  - intros [s H]. rewrite <- app_assoc in H. apply app_inv_head in H.
    apply key_prefix_free in H as [H _]; done.
  - intros ->. exists r. by rewrite <- app_assoc.
Qed.

(** Bytes of a key outside the range scan of another prefix. *)
Lemma in_prefix_range p limit k : in_range (prefix_range p limit) k = starts_with k p.
Proof. apply next_prefix_range. Qed.

(** ** Order of keys *)

Lemma row_key_cmp tid epoch v w :
  bytes_cmp (row_key tid epoch v) (row_key tid epoch w) =
  bytes_cmp (encode_key_value v) (encode_key_value w).
Proof. unfold row_key. apply bytes_cmp_app. Qed.

Lemma bytes_cmp_cons b x y : bytes_cmp (b :: x) (b :: y) = bytes_cmp x y.
Proof. apply (bytes_cmp_app [b]). Qed.

Lemma int16_key_cmp a b :
  in_signed 16 a -> in_signed 16 b ->
  bytes_cmp (encode_key_value (Int16 a)) (encode_key_value (Int16 b)) = (a ?= b).
Proof. intros. cbn [encode_key_value]. rewrite bytes_cmp_cons. by apply (flip_cmp 2 16). Qed.
Lemma int32_key_cmp a b :
  in_signed 32 a -> in_signed 32 b ->
  bytes_cmp (encode_key_value (Int32 a)) (encode_key_value (Int32 b)) = (a ?= b).
Proof. intros. cbn [encode_key_value]. rewrite bytes_cmp_cons. by apply (flip_cmp 4 32). Qed.
Lemma int64_key_cmp a b :
  in_signed 64 a -> in_signed 64 b ->
  bytes_cmp (encode_key_value (Int64 a)) (encode_key_value (Int64 b)) = (a ?= b).
Proof. intros. cbn [encode_key_value]. rewrite bytes_cmp_cons. by apply (flip_cmp 8 64). Qed.

Lemma float32_key_lt a b :
  in_unsigned 32 a -> in_unsigned 32 b -> f32_compare a b = Some Lt ->
  bytes_lt (encode_key_value (Float32 a)) (encode_key_value (Float32 b)).
Proof.
  intros Ha Hb H. unfold bytes_lt. cbn [encode_key_value]. rewrite bytes_cmp_cons.
  unfold encode_ordered_f32.
  rewrite (to_be_cmp 4); [|by apply (ordered_bits_range 23 8)..].
  apply Z.compare_lt_iff. by apply (ordered_bits_lt 23 8).
Qed.
Lemma float64_key_lt a b :
  in_unsigned 64 a -> in_unsigned 64 b -> f64_compare a b = Some Lt ->
  bytes_lt (encode_key_value (Float64 a)) (encode_key_value (Float64 b)).
Proof.
  intros Ha Hb H. unfold bytes_lt. cbn [encode_key_value]. rewrite bytes_cmp_cons.
  unfold encode_ordered_f64.
  rewrite (to_be_cmp 8); [|by apply (ordered_bits_range 52 11)..].
  apply Z.compare_lt_iff. by apply (ordered_bits_lt 52 11).
Qed.

(** A text key is compared by length before content. *)
Lemma text_key_cmp s t :
  wf_bytes (as_bytes s) -> wf_bytes (as_bytes t) ->
  bytes_cmp (encode_key_value (Text s)) (encode_key_value (Text t)) =
  match len (as_bytes s) ?= len (as_bytes t) with
  | Eq => str_cmp s t
  | c => c
  end.
Proof.
  intros Hs Ht. cbn [encode_key_value]. rewrite bytes_cmp_cons. unfold push_bytes_segment.
  assert (Hc : bytes_cmp (to_be 4 (len (as_bytes s))) (to_be 4 (len (as_bytes t))) =
    (len (as_bytes s) ?= len (as_bytes t)))
    by (apply to_be_cmp; by apply in_unsigned_len).
  destruct (Z.compare_spec (len (as_bytes s)) (len (as_bytes t))) as [E|L|G].
  - rewrite E. apply bytes_cmp_app.
  - rewrite bytes_cmp_app_ne; rewrite ?length_to_be, ?Hc; done.
  - rewrite bytes_cmp_app_ne; rewrite ?length_to_be, ?Hc; done.
Qed.

(** Appending a zero byte gives the immediate successor of a key, so a bound
    followed by [0] turns [<] into [<=]. *)
Lemma bytes_ltb_succ a b : bytes_ltb a (b ++ [x00]) = bytes_leb a b.
Proof.
  revert b. induction a as [|x a IH]; intros [|y b].
  - done.
  - done.
  - unfold bytes_ltb, bytes_leb. cbn. change (u8_to_Z x00) with 0. pose proof (u8_to_Z_range x).
    destruct (Z.compare_spec (u8_to_Z x) 0); [by destruct a|lia|done].
  - specialize (IH b). unfold bytes_ltb, bytes_leb in *. cbn. by destruct (_ ?= _).
Qed.


Lemma bytes_lt_next_prefix p x e : next_prefix p = Some e -> bytes_lt (p ++ x) e.
Proof.
  intros H. pose proof (in_prefix_range p None (p ++ x)) as Hr.
  unfold in_range in Hr; cbn [rs_start rs_end prefix_range] in Hr. rewrite H in Hr.
  rewrite (proj2 (starts_with_spec _ _)) in Hr by eauto.
  apply andb_true_iff in Hr as [_ Hr]. by apply bytes_ltb_lt.
Qed.

Lemma bytes_ltb_leb_trans a b c : bytes_ltb a b = true -> bytes_leb b c = true -> bytes_ltb a c = true.
Proof.
  rewrite !bytes_ltb_lt, bytes_leb_le. intros H1 [H2 | <-]; [|done].
  by eapply bytes_lt_trans.
Qed.

Lemma bytes_leb_app p x : bytes_leb p (p ++ x) = true.
Proof. rewrite <- (app_nil_r p) at 1. unfold bytes_leb. rewrite bytes_cmp_app. by destruct x. Qed.

(** Any scan between two keys with a prefix stays under that prefix. *)
Lemma in_range_under p lo hi limit reverse k :
  (exists x, lo = p ++ x) ->
  (hi = next_prefix p \/ exists y, hi = Some (p ++ y)) ->
  in_range {| rs_start := lo; rs_end := hi; rs_limit := limit; rs_reverse := reverse |} k = true ->
  starts_with k p = true.
Proof.
  intros [x ->] Hhi. unfold in_range; cbn [rs_start rs_end].
  rewrite <- (in_prefix_range p None). unfold in_range; cbn [rs_start rs_end prefix_range].
  rewrite !andb_true_iff. intros [Hlo Hup]. split.
  - eapply bytes_leb_trans; [apply bytes_leb_app|exact Hlo].
  - destruct Hhi as [-> | [y ->]]; [done|].
    destruct (next_prefix p) as [e|] eqn:He; [|done].
    eapply bytes_ltb_leb_trans; [exact Hup|]. apply bytes_leb_le. left.
    by apply bytes_lt_next_prefix.
Qed.

(** ** The decoder terminates and never panics *)

Lemma settles_ok_or {E A} (e : E) (o : option A) : settles (ok_or e o).
Proof. by destruct o. Qed.

Lemma settles_read_bytes_segment l : settles (read_bytes_segment l).
Proof. rewrite read_bytes_segment_eq. cbv zeta. by repeat case_match. Qed.

Lemma settles_decode_key_elements dec n : forall l off,
  (forall e, settles (dec e)) -> settles (decode_key_elements dec n l off).
Proof.
  induction n as [|n IH]; intros l off Hdec; cbn [decode_key_elements]; [done|].
  apply settles_bind; [apply settles_read_bytes_segment|]. intros [enc cons] _.
  apply settles_bind; [done|]. intros [v c] _. case_match; [done|].
  apply settles_bind; [by apply IH|]. by intros [vs o] _.
Qed.

Lemma settles_decode_text_key t l : settles (decode_text_key t l).
Proof.
  unfold decode_text_key. apply settles_bind; [apply settles_read_bytes_segment|].
  intros [x c] _. apply settles_bind; [apply settles_ok_or|]. done.
Qed.

(** Splits the tests in front of a decoder and closes the error branches. *)
Ltac settle :=
  repeat first
    [ done
    | apply settles_decode_text_key
    | match goal with
      | |- settles (if ?b then _ else _) => destruct b
      | |- settles (match ?o with Some _ => _ | None => _ end) => destruct o
      | |- settles (read_bytes_segment _ ≫= _) =>
          apply settles_bind; [apply settles_read_bytes_segment|intros [] _]
      end ].

Lemma settles_decode_key_value_fuel t : forall fuel l,
  (type_depth t < fuel)%nat -> settles (decode_key_value_fuel fuel t l).
Proof.
  induction t; intros fuel l Hf; (destruct fuel as [|fuel]; [lia|]);
    cbn [decode_key_value_fuel]; (destruct l as [|b l]; [done|]); cbv zeta;
    (case_match; [done|]); settle.
  - cbn [type_depth] in Hf. destruct fuel as [|fuel]; [lia|].
    unfold decode_mysql_int_key_value.
    destruct kind, unsigned; settle; cbn [decode_key_value_fuel]; cbv zeta; settle.
  - cbn [type_depth] in Hf. apply settles_bind; [|by intros [] _].
    apply settles_decode_key_elements. intros e. apply IHt. lia.
Qed.

Lemma settles_decode_key_value t l : settles (decode_key_value t l).
Proof. apply settles_decode_key_value_fuel. lia. Qed.

(** ** Properties of keys *)

Lemma decode_whole_key t v :
  key_typed t v = true -> wf_key v ->
  decode_key_value t (encode_key_value v) = Ok (v, length (encode_key_value v)).
Proof. intros. rewrite <- (app_nil_r (encode_key_value v)) at 1. by apply key_value_roundtrip_app. Qed.

(** C28. What the storage engine reads back from a key it wrote: the primary key
    of a row key, the primary key of an index entry, and the primary key and
    version of a row version, for every value of the column's type (YEAR and BIT apart,
    which [key_typed] leaves out). *)
Theorem stored_keys_roundtrip table_id table_epoch index_id index_value t pk version :
  key_typed t pk = true -> wf_key pk -> in_unsigned 64 version ->
  decode_pk_from_row_key (row_key table_id table_epoch pk) table_id table_epoch t = Ok pk /\
  decode_pk_from_index_entry_key (index_entry_key index_id index_value pk)
    index_id index_value t = Ok pk /\
  decode_pk_from_row_version_key (row_version_key table_id table_epoch pk version)
    table_id table_epoch t = Ok (pk, version).
Proof.
  intros Ht Hwf Hv. repeat split.
  - unfold decode_pk_from_row_key, row_key. rewrite strip_prefix_app. cbn [ok_or].
    by rewrite bind_ok, decode_whole_key, bind_ok, Nat.eqb_refl.
  - unfold decode_pk_from_index_entry_key, index_entry_key. rewrite strip_prefix_app.
    cbn [ok_or]. by rewrite bind_ok, decode_whole_key, bind_ok, Nat.eqb_refl.
  - unfold decode_pk_from_row_version_key, row_version_key, row_version_prefix.
    replace (([VERSION; ROW_VERSION_PREFIX] ++ to_be 4 table_id ++ to_be 8 table_epoch ++
        encode_key_value pk) ++ to_be 8 (DESC_VERSION_MAX - version))
      with (([VERSION; ROW_VERSION_PREFIX] ++ to_be 4 table_id ++ to_be 8 table_epoch) ++
        encode_key_value pk ++ to_be 8 (DESC_VERSION_MAX - version)) by (by rewrite <- !app_assoc).
    rewrite strip_prefix_app. cbn [ok_or].
    rewrite bind_ok, key_value_roundtrip_app, bind_ok by done.
    rewrite length_app, length_to_be, Nat.eqb_refl. cbn [negb].
    pose proof (slice_app (encode_key_value pk) (to_be 8 (DESC_VERSION_MAX - version)) []) as Hs.
    rewrite length_to_be, app_nil_r in Hs. rewrite Hs.
    unfold DESC_VERSION_MAX, u64_max, in_unsigned in *.
    rewrite (from_be_to_be_small 8) by (unfold in_unsigned; cbn [Z.of_nat]; lia).
    do 2 f_equal. lia.
Qed.

Lemma stored_keys_roundtrip_witness :
  decode_pk_from_row_key (row_key 7 1 (Int64 (-5))) 7 1 DT.Int64 = Ok (Int64 (-5)) /\
  decode_pk_from_index_entry_key (index_entry_key 3 (Text "a") (Int64 (-5))) 3 (Text "a") DT.Int64
    = Ok (Int64 (-5)) /\
  decode_pk_from_row_version_key (row_version_key 7 1 (Int64 (-5)) 42) 7 1 DT.Int64
    = Ok (Int64 (-5), 42).
Proof.
  apply (stored_keys_roundtrip 7 1 3 (Text "a") DT.Int64 (Int64 (-5)) 42);
    [reflexivity|split; vm_compute; congruence|split; vm_compute; congruence].
Defined.

(** C6. A scan of [index_prefix] sees exactly the entries of that index whose
    value has the same encoding, whatever primary key follows: no entry of
    another value is mistaken for a duplicate, and none is missed. *)
Theorem index_scan_selects_value index_id index_id' value value' pk limit :
  wf_key value -> wf_key value' -> in_unsigned 32 index_id -> in_unsigned 32 index_id' ->
  in_range (prefix_range (index_prefix index_id value) limit)
    (index_entry_key index_id' value' pk) =
  bool_decide (index_id = index_id' /\ encode_key_value value = encode_key_value value').
Proof.
  intros Hv Hv' Hi Hi'. rewrite in_prefix_range. apply eq_true_iff_eq.
  rewrite starts_with_spec, bool_decide_eq_true. unfold index_entry_key, index_prefix. split.
  - intros [r H]. rewrite <- !app_assoc in H. apply app_inv_head in H.
    apply app_inv_length in H as [Hid H]; [|by rewrite !length_to_be].
    apply to_be_inj in Hid; [|done..]. apply key_prefix_free in H as [H _]; done.
  - intros [<- <-]. eexists. by rewrite <- !app_assoc.
Qed.

Lemma index_scan_selects_value_witness :
  in_range (prefix_range (index_prefix 3 (Text "ab")) None)
    (index_entry_key 3 (Text "abc") (Int32 1)) = false.
Proof.
  rewrite (index_scan_selects_value 3 3 (Text "ab") (Text "abc") (Int32 1) None);
    [reflexivity|..]; repeat split; vm_compute; congruence.
Defined.

(** The decoder of keys returns a value or an error on every input: it
    never panics and its recursion always ends. *)
Theorem key_decoder_settles t l : settles (decode_key_value t l).
Proof. apply settles_decode_key_value. Qed.

(** Two primary keys of the same column type have the same key exactly when
    they are the same value. *)
Theorem key_injective t v w :
  key_typed t v = true -> key_typed t w = true -> wf_key v -> wf_key w ->
  encode_key_value v = encode_key_value w -> v = w.
Proof.
  intros Hv Hw Wv Ww H. pose proof (decode_whole_key t v Hv Wv) as E.
  rewrite H, (decode_whole_key t w Hw Ww) in E. by injection E.
Qed.

Lemma key_injective_witness :
  encode_key_value (Int32 5) = encode_key_value (Int32 5) /\ Int32 5 = Int32 5.
Proof.
  split; [reflexivity|].
  apply (key_injective DT.Int32); try reflexivity; split; vm_compute; congruence.
Defined.

(** The integer keys, with the value they compare by. *)
Definition int_of_key (v : ColumnValue) : option Z :=
  match v with Int16 z | Int32 z | Int64 z => Some z | _ => None end.

Definition same_int_width (v w : ColumnValue) : bool :=
  match v, w with
  | Int16 _, Int16 _ | Int32 _, Int32 _ | Int64 _, Int64 _ => true
  | _, _ => false
  end.

Lemma int_key_cmp v w a b :
  same_int_width v w = true -> wf_key v -> wf_key w ->
  int_of_key v = Some a -> int_of_key w = Some b ->
  bytes_cmp (encode_key_value v) (encode_key_value w) = (a ?= b).
Proof.
  destruct v, w; try discriminate; cbn [int_of_key]; intros _ Hv Hw [= <-] [= <-];
    [by apply int16_key_cmp|by apply int32_key_cmp|by apply int64_key_cmp].
Qed.

(** Whether integer [a] meets a lower or an upper bound of a range scan. *)
Definition above (lower : option (ColumnValue * bool)) (a : Z) : bool :=
  match lower with
  | None => true
  | Some (v, inclusive) =>
      match int_of_key v with
      | Some b => if inclusive : bool then b <=? a else b <? a
      | None => false
      end
  end.

Definition below (upper : option (ColumnValue * bool)) (a : Z) : bool :=
  match upper with
  | None => true
  | Some (v, inclusive) =>
      match int_of_key v with
      | Some b => if inclusive : bool then a <=? b else a <? b
      | None => false
      end
  end.

Lemma cmp_leb a b x y : bytes_cmp x y = (a ?= b) -> bytes_leb x y = (a <=? b).
Proof. unfold bytes_leb. intros ->. unfold Z.leb. by destruct (a ?= b). Qed.
Lemma cmp_ltb a b x y : bytes_cmp x y = (a ?= b) -> bytes_ltb x y = (a <? b).
Proof. unfold bytes_ltb. intros ->. unfold Z.ltb. by destruct (a ?= b). Qed.

(** A range scan over integer keys, as the pushdown of filters uses it. *)
Lemma row_range_between_int table_id table_epoch lower upper limit v a :
  wf_key v -> int_of_key v = Some a ->
  match lower with Some (l, _) => wf_key l /\ same_int_width l v = true | None => True end ->
  match upper with Some (u, _) => wf_key u /\ same_int_width v u = true | None => True end ->
  in_range (row_range_between table_id table_epoch lower upper limit)
    (row_key table_id table_epoch v) = above lower a && below upper a.
Proof.
  intros Hwf Ha Hl Hu.
  pose proof (proj2 (starts_with_spec (row_key table_id table_epoch v)
    (row_prefix table_id table_epoch)) ltac:(by eexists)) as Hp.
  rewrite <- (in_prefix_range _ None) in Hp.
  unfold in_range in *; cbn [rs_start rs_end prefix_range row_range_between] in *.
  apply andb_true_iff in Hp as [Hp1 Hp2]. f_equal.
  - destruct lower as [[l inc]|]; [|done]. destruct Hl as [Hwl Hw].
    assert (exists b, int_of_key l = Some b) as [b Hb] by (destruct l, v; try done; eauto).
    cbn [above]. rewrite Hb. pose proof (int_key_cmp _ _ _ _ Hw Hwl Hwf Hb Ha) as Hc.
    destruct inc.
    + apply cmp_leb. by rewrite row_key_cmp.
    + rewrite bytes_leb_ltb, bytes_ltb_succ, bytes_leb_ltb, negb_involutive.
      apply cmp_ltb. by rewrite row_key_cmp.
  - destruct upper as [[u inc]|]; [|done]. destruct Hu as [Hwu Hw].
    assert (exists b, int_of_key u = Some b) as [b Hb] by (destruct u, v; try done; eauto).
    cbn [below]. rewrite Hb. pose proof (int_key_cmp _ _ _ _ Hw Hwf Hwu Ha Hb) as Hc.
    destruct inc.
    + rewrite bytes_ltb_succ. apply cmp_leb. by rewrite row_key_cmp.
    + apply cmp_ltb. by rewrite row_key_cmp.
Qed.

(** On an integer primary key the range scan of [row_range_between] sees
    exactly the rows of the table whose key satisfies both bounds, exclusive
    bounds included (the [0] byte appended to a key is its successor). *)
Theorem row_range_between_exact table_id table_epoch lower upper limit v a :
  wf_key v -> int_of_key v = Some a ->
  match lower with Some (l, _) => wf_key l /\ same_int_width l v = true | None => True end ->
  match upper with Some (u, _) => wf_key u /\ same_int_width v u = true | None => True end ->
  in_range (row_range_between table_id table_epoch lower upper limit)
    (row_key table_id table_epoch v) = above lower a && below upper a.
Proof. apply row_range_between_int. Qed.

Lemma row_range_between_exact_witness :
  in_range (row_range_between 7 1 (Some (Int32 (-3), false)) (Some (Int32 4, true)) None)
    (row_key 7 1 (Int32 4)) = true.
Proof.
  apply (row_range_between_exact 7 1 (Some (Int32 (-3), false)) (Some (Int32 4, true)) None
    (Int32 4) 4); try reflexivity; repeat split; vm_compute; congruence.
Defined.

(** Scans of one table stay in it: whatever the bounds, every key a
    [row_range_between] scan can see is a row key prefix of that table and
    epoch, and a row key of another table or epoch is never one of them. *)
Theorem row_scan_stays_in_table table_id table_epoch lower upper limit key :
  in_range (row_range_between table_id table_epoch lower upper limit) key = true ->
  starts_with key (row_prefix table_id table_epoch) = true /\
  forall table_id' table_epoch' v,
    in_unsigned 32 table_id -> in_unsigned 32 table_id' ->
    in_unsigned 64 table_epoch -> in_unsigned 64 table_epoch' ->
    key = row_key table_id' table_epoch' v ->
    table_id' = table_id /\ table_epoch' = table_epoch.
Proof.
  intros Hin.
  assert (Hp : starts_with key (row_prefix table_id table_epoch) = true).
  { eapply in_range_under; [| |exact Hin].
    - destruct lower as [[l []]|]; unfold row_key; rewrite <- ?app_assoc; eauto.
    - destruct upper as [[u []]|]; unfold row_key; rewrite <- ?app_assoc; eauto. }
  split; [done|]. intros t' e' v Ht Ht' He He' ->.
  apply starts_with_spec in Hp as [r Hr]. unfold row_key, row_prefix in Hr.
  rewrite <- !app_assoc in Hr. apply app_inv_head in Hr.
  apply app_inv_length in Hr as [Hid Hr]; [|by rewrite !length_to_be].
  apply app_inv_length in Hr as [Hep _]; [|by rewrite !length_to_be].
  split; [by apply (to_be_inj 4)|by apply (to_be_inj 8)].
Qed.

Lemma row_scan_stays_in_table_witness :
  starts_with (row_key 7 1 (Int32 4)) (row_prefix 7 1) = true.
Proof.
  apply (row_scan_stays_in_table 7 1 (Some (Int32 (-3), false)) None None). reflexivity.
Defined.

(** The versions of a row are stored newest first: among the keys of one
    primary key, the larger version has the smaller key, and every one of them
    lies in [row_version_range]. *)
Theorem row_versions_newest_first table_id table_epoch pk v1 v2 limit :
  in_unsigned 64 v1 -> in_unsigned 64 v2 ->
  bytes_cmp (row_version_key table_id table_epoch pk v1)
            (row_version_key table_id table_epoch pk v2) = (v2 ?= v1) /\
  in_range (row_version_range table_id table_epoch pk limit)
    (row_version_key table_id table_epoch pk v1) = true.
Proof.
  intros H1 H2. split.
  - unfold row_version_key. rewrite bytes_cmp_app.
    unfold DESC_VERSION_MAX, u64_max, in_unsigned in *.
    rewrite (to_be_cmp 8) by (unfold in_unsigned; cbn [Z.of_nat]; lia).
    destruct (Z.compare_spec v2 v1);
      [apply Z.compare_eq_iff|apply Z.compare_lt_iff|apply Z.compare_gt_iff]; lia.
  - unfold row_version_range. rewrite in_prefix_range. apply starts_with_spec. by eexists.
Qed.

Lemma row_versions_newest_first_witness :
  bytes_cmp (row_version_key 7 1 (Int32 1) 5) (row_version_key 7 1 (Int32 1) 9) = (9 ?= 5).
Proof.
  apply (row_versions_newest_first 7 1 (Int32 1) 5 9 None); split; vm_compute; congruence.
Defined.

(** The key order of text is by length first and content second, so it is
    not the order of the values: the scan for keys below ['b'] sees ['a'] and
    does not see ['aa'], although ['aa'] is less than ['b']. *)
Theorem text_key_order_is_shortlex s t :
  wf_bytes (as_bytes s) -> wf_bytes (as_bytes t) ->
  bytes_cmp (encode_key_value (Text s)) (encode_key_value (Text t)) =
    match len (as_bytes s) ?= len (as_bytes t) with Eq => str_cmp s t | c => c end /\
  (str_cmp "aa" "b" = Lt /\
   in_range (row_range_between 7 1 None (Some (Text "b", false)) None)
     (row_key 7 1 (Text "a")) = true /\
   in_range (row_range_between 7 1 None (Some (Text "b", false)) None)
     (row_key 7 1 (Text "aa")) = false).
Proof. intros Hs Ht. split; [by apply text_key_cmp|by vm_compute]. Qed.

Lemma text_key_order_is_shortlex_witness :
  bytes_cmp (encode_key_value (Text "zz")) (encode_key_value (Text "aaa")) = Lt.
Proof.
  destruct (text_key_order_is_shortlex "zz" "aaa") as [H _]; [by vm_compute..|].
  rewrite H. by vm_compute.
Defined.

(** A [YEAR] or [BIT] column has no key decoder: its values are written as
    integer keys that every decode of the column rejects. *)
Theorem year_and_bit_keys_unreadable v n :
  v <> Null ->
  is_ok (decode_key_value DT.Year (encode_key_value v)) = false /\
  is_ok (decode_key_value (DT.Bit n) (encode_key_value v)) = false.
Proof.
  intros Hv. destruct v; try congruence;
    try match goal with b : bool |- _ => destruct b end; by split.
Qed.

Lemma year_and_bit_keys_unreadable_witness :
  is_ok (decode_key_value DT.Year (encode_key_value (Int32 2026))) = false.
Proof. apply (year_and_bit_keys_unreadable (Int32 2026) None). discriminate. Defined.
