(* ===== verification/LegacyCodec.v ===== *)
(** * The first storage layout

    src/src/codec.rs: cells, row markers and index entries under textual keys.  Rows
    are no longer written this way (except by ALTER TABLE .. ADD PRIMARY KEY), but
    still read where a table has no row records, and every index keeps an entry in
    this layout beside the typed one of [KeyCodec].

    [i32::from_be_bytes(bytes[..4])] and the like are [be_int]; the codec has its own
    copy of the ordered float encoding, the same as [TupleCodec]'s, which is used here. *)

From S2P Require Import Prelude Float Types Cursor TupleCodec KeyCodec.

Definition SCHEMA_PREFIX : string := "__schema__:".
Definition TABLE_DATA_PREFIX : string := "__table__".
Definition INDEX_DATA_PREFIX : string := "__index__".
Definition ROW_MARKER_COLUMN : string := "__row__".

(** ** Cells *)

Definition push_bytes (bytes : list byte) : list byte := to_be 4 (len bytes) ++ bytes.

Fixpoint encode_non_null_column_value (value : ColumnValue) : list byte :=
  match value with
  | Int16 v => to_be 2 v
  | Int32 v => to_be 4 v
  | Int64 v => to_be 8 v
  | Float32 v => to_be 4 v
  | Float64 v => to_be 8 v
  | Numeric v | Text v | Date v | Timestamp v | TimestampTz v | Uuid v | Json v | Jsonb v =>
      push_bytes (as_bytes v)
  | Bytea v => push_bytes v
  | Boolean v => [if v then x01 else x00]
  | Array values =>
      to_be 4 (len values) ++
      concat (map (fun value => push_bytes (match value with
                | Null => [x00]
                | other => x01 :: encode_non_null_column_value other
                end)) values)
  | Null => []
  end.

Definition encode_cell_value (value : ColumnValue) : list byte :=
  match value with
  | Null => [x00]
  | other => x01 :: encode_non_null_column_value other
  end.

Definition read_bytes (bytes : list byte) : PgWireResult (list byte * nat) :=
  if (length bytes <? 4)%nat then user_error "XX000" "truncated value length"
  else
    let n := Z.to_nat (from_be (take 4 bytes)) in
    if (length bytes <? 4 + n)%nat then user_error "XX000" "truncated value bytes"
    else Ok (slice bytes 4 (4 + n), (4 + n)%nat).

Definition read_string (bytes : list byte) : PgWireResult (string * nat) :=
  '(bytes, consumed) ← read_bytes bytes;
  s ← ok_or (PgError "XX000" "invalid UTF-8") (from_utf8 bytes);
  Ok (s, consumed).

(** [iN::from_be_bytes(bytes[..n])] behind its length check. *)
Definition be_int (n : nat) (what : string) (bytes : list byte) : PgWireResult (Z * nat) :=
  if (length bytes <? n)%nat then user_error "XX000" what
  else Ok (to_signed (8 * Z.of_nat n) (from_be (take n bytes)), n).

(** [fN::from_be_bytes], the bits of the float. *)
Definition be_bits (n : nat) (what : string) (bytes : list byte) : PgWireResult (Z * nat) :=
  if (length bytes <? n)%nat then user_error "XX000" what
  else Ok (from_be (take n bytes), n).

Definition decode_mysql_int_value (kind : MySqlIntKind) (unsigned : bool) (bytes : list byte)
    : PgWireResult (ColumnValue * nat) :=
  let what := "truncated MySQL integer value"%string in
  match kind, unsigned with
  | Tiny, false | Small, false => '(v, n) ← be_int 2 what bytes; Ok (Int16 v, n)
  | Tiny, true | Small, true | Medium, _ | KInt, false => '(v, n) ← be_int 4 what bytes; Ok (Int32 v, n)
  | KInt, true | Big, false => '(v, n) ← be_int 8 what bytes; Ok (Int64 v, n)
  | Big, true => '(s, n) ← read_string bytes; Ok (Numeric s, n)
  end.

(** [decode_cell_value], the decoder of its type a parameter. *)
Definition decode_cell_with (decode : list byte -> PgWireResult (ColumnValue * nat)) (bytes : list byte)
    : PgWireResult ColumnValue :=
  match bytes with
  | [] => user_error "XX000" "empty cell data"
  | tag :: rest =>
      if u8_to_Z tag =? 0 then Ok Null
      else
        '(value, consumed) ← decode rest;
        if negb (consumed + 1 =? length bytes)%nat then user_error "XX000" "malformed cell data"
        else Ok value
  end.

(** The element loop of the [Array] arm. *)
Fixpoint decode_cell_elements (decode_cell : list byte -> PgWireResult ColumnValue) (count : nat)
    (bytes : list byte) (offset : nat) : PgWireResult (list ColumnValue * nat) :=
  match count with
  | O => Ok ([], offset)
  | S count =>
      '(encoded, consumed) ← read_bytes (drop offset bytes);
      value ← decode_cell encoded;
      '(values, offset) ← decode_cell_elements decode_cell count bytes (offset + consumed);
      Ok (value :: values, offset)
  end.

Fixpoint decode_non_null_column_value (t : DataType) (bytes : list byte)
    : PgWireResult (ColumnValue * nat) :=
  match t with
  | DT.MySqlInt kind unsigned => decode_mysql_int_value kind unsigned bytes
  | DT.Bit _ => '(v, n) ← be_int 8 "truncated BIT value" bytes; Ok (Int64 v, n)
  | DT.Year => '(v, n) ← be_int 4 "truncated YEAR value" bytes; Ok (Int32 v, n)
  | DT.Int16 => '(v, n) ← be_int 2 "truncated INT2 value" bytes; Ok (Int16 v, n)
  | DT.Int32 => '(v, n) ← be_int 4 "truncated INT4 value" bytes; Ok (Int32 v, n)
  | DT.Int64 => '(v, n) ← be_int 8 "truncated INT8 value" bytes; Ok (Int64 v, n)
  | DT.Float32 | DT.MySqlFloat _ => '(v, n) ← be_bits 4 "truncated FLOAT4 value" bytes; Ok (Float32 v, n)
  | DT.Float64 | DT.MySqlDouble _ => '(v, n) ← be_bits 8 "truncated FLOAT8 value" bytes; Ok (Float64 v, n)
  | DT.Numeric _ _ | DT.Text | DT.MySqlText _ _ | DT.VarChar _ | DT.Char _ | DT.Date | DT.Time
  | DT.MySqlTime _ | DT.TimeTz | DT.Interval | DT.Timestamp | DT.MySqlDateTime _ | DT.MySqlTimestamp _
  | DT.TimestampTz | DT.Uuid | DT.Json | DT.Jsonb | DT.Domain _ | DT.Enum _ | DT.Set_ _ | DT.Geometry _ =>
      '(s, consumed) ← read_string bytes;
      Ok (match t with
          | DT.Numeric _ _ => Numeric s
          | DT.Date => Date s
          | DT.Timestamp | DT.MySqlDateTime _ | DT.MySqlTimestamp _ => Timestamp s
          | DT.TimestampTz => TimestampTz s
          | DT.Uuid => Uuid s
          | DT.Json => Json s
          | DT.Jsonb => Jsonb s
          | _ => Text s
          end, consumed)
  | DT.Boolean =>
      match bytes with
      | [] => user_error "XX000" "truncated BOOL value"
      | b :: _ => Ok (Boolean (negb (u8_to_Z b =? 0)), 1%nat)
      end
  | DT.Bytea | DT.Binary _ | DT.VarBinary _ | DT.Blob _ _ =>
      '(value, consumed) ← read_bytes bytes; Ok (Bytea value, consumed)
  | DT.Array inner =>
      if (length bytes <? 4)%nat then user_error "XX000" "truncated ARRAY length"
      else
        '(values, offset) ← decode_cell_elements (decode_cell_with (decode_non_null_column_value inner))
                              (Z.to_nat (from_be (take 4 bytes))) bytes 4;
        Ok (Array values, offset)
  end.

Definition decode_cell_value (t : DataType) (bytes : list byte) : PgWireResult ColumnValue :=
  decode_cell_with (decode_non_null_column_value t) bytes.

(** ** Primary-key segments *)

(** [encode_primary_key_segment]; it panics on the types that are no key. *)
Definition encode_primary_key_segment (pk_value : ColumnValue) : PgWireResult (list byte) :=
  match pk_value with
  | Int32 v => Ok (to_be 4 (flip32 v))
  | Int16 v => Ok (to_be 2 (flip16 v))
  | Int64 v => Ok (to_be 8 (flip64 v))
  | Float32 v => Ok (encode_ordered_f32 v)
  | Float64 v => Ok (encode_ordered_f64 v)
  | Text v | Numeric v | Date v | Timestamp v | TimestampTz v | Uuid v | Json v | Jsonb v =>
      Ok (as_bytes v ++ [x00])
  | Bytea v => Ok (v ++ [x00])
  | Boolean _ | Array _ | Null => Panic
  end.

Definition encode_index_value_segment (value : ColumnValue) : list byte :=
  match value with
  | Null => [x00]
  | other => x01 :: encode_non_null_column_value other
  end.

(** The fixed-width arms: the whole segment, its sign bit flipped back. *)
Definition int_segment (n : nat) (what : string) (bytes : list byte) : PgWireResult Z :=
  if negb (length bytes =? n)%nat then user_error "XX000" what
  else
    let w := 8 * Z.of_nat n in
    Ok (to_signed w (Z.lxor (from_be bytes) (2 ^ (w - 1)))).
Definition int16_segment (bytes : list byte) : PgWireResult ColumnValue :=
  v ← int_segment 2 "malformed INT2 primary key segment" bytes; Ok (Int16 v).
Definition int32_segment (bytes : list byte) : PgWireResult ColumnValue :=
  v ← int_segment 4 "malformed INT4 primary key segment" bytes; Ok (Int32 v).
Definition int64_segment (bytes : list byte) : PgWireResult ColumnValue :=
  v ← int_segment 8 "malformed INT8 primary key segment" bytes; Ok (Int64 v).

(** The text arm; [text_value] chooses the constructor of the column's type. *)
Definition text_segment (t : DataType) (bytes : list byte) : PgWireResult ColumnValue :=
  text ← ok_or (PgError "XX000" "malformed TEXT primary key segment") (strip_suffix1 x00 bytes);
  s ← ok_or (PgError "XX000" "invalid UTF-8 in key") (from_utf8 text);
  Ok (text_value t s).

Definition decode_mysql_int_key (kind : MySqlIntKind) (unsigned : bool) (bytes : list byte)
    : PgWireResult ColumnValue :=
  match kind, unsigned with
  | Tiny, false | Small, false => int16_segment bytes
  | Tiny, true | Small, true | Medium, _ | KInt, false => int32_segment bytes
  | KInt, true | Big, false => int64_segment bytes
  | Big, true => text_segment (DT.Numeric None None) bytes
  end.

Definition decode_primary_key_segment (t : DataType) (bytes : list byte) : PgWireResult ColumnValue :=
  match t with
  | DT.MySqlInt kind unsigned => decode_mysql_int_key kind unsigned bytes
  | DT.Int32 => int32_segment bytes
  | DT.Int16 => int16_segment bytes
  | DT.Int64 => int64_segment bytes
  | DT.Float32 | DT.MySqlFloat _ =>
      if negb (length bytes =? 4)%nat then user_error "XX000" "malformed FLOAT4 primary key segment"
      else Ok (Float32 (decode_ordered_f32 bytes))
  | DT.Float64 | DT.MySqlDouble _ =>
      if negb (length bytes =? 8)%nat then user_error "XX000" "malformed FLOAT8 primary key segment"
      else Ok (Float64 (decode_ordered_f64 bytes))
  | DT.Text | DT.MySqlText _ _ | DT.VarChar _ | DT.Char _ | DT.Numeric _ _ | DT.Date | DT.Time
  | DT.MySqlTime _ | DT.TimeTz | DT.Interval | DT.Timestamp | DT.MySqlDateTime _ | DT.MySqlTimestamp _
  | DT.TimestampTz | DT.Uuid | DT.Json | DT.Jsonb | DT.Domain _ | DT.Enum _ | DT.Set_ _ | DT.Geometry _ =>
      text_segment t bytes
  | DT.Bytea | DT.Binary _ | DT.VarBinary _ | DT.Blob _ _ =>
      value ← ok_or (PgError "XX000" "malformed BYTEA primary key segment") (strip_suffix1 x00 bytes);
      Ok (Bytea value)
  | DT.Bit _ => int64_segment bytes
  | DT.Year => int32_segment bytes
  | DT.Boolean | DT.Array _ =>
      user_error "XX000" "primary key type is not supported for key encoding"
  end.

(** ** Keys *)

(** [format!("{a}:{b}:..")], each part followed by a colon. *)
Definition path (parts : list string) : list byte :=
  as_bytes (foldr (fun part acc => part +:+ ":" +:+ acc)%string ""%string parts).

Definition table_data_prefix (database_name schema_name table_name : string) : list byte :=
  path [TABLE_DATA_PREFIX; database_name; schema_name; table_name].

Definition row_marker_prefix (database_name schema_name table_name : string) : list byte :=
  path [TABLE_DATA_PREFIX; database_name; schema_name; table_name; ROW_MARKER_COLUMN].

Definition row_marker_key (database_name schema_name table_name : string) (pk_value : ColumnValue)
    : PgWireResult (list byte) :=
  segment ← encode_primary_key_segment pk_value;
  Ok (row_marker_prefix database_name schema_name table_name ++ segment).

Definition cell_prefix (database_name schema_name table_name column_name : string) : list byte :=
  path [TABLE_DATA_PREFIX; database_name; schema_name; table_name; column_name].

Definition cell_key (database_name schema_name table_name column_name : string) (pk_value : ColumnValue)
    : PgWireResult (list byte) :=
  segment ← encode_primary_key_segment pk_value;
  Ok (cell_prefix database_name schema_name table_name column_name ++ segment).

Definition index_entry_prefix (database_name schema_name table_name index_name : string)
    (index_value : ColumnValue) : list byte :=
  path [INDEX_DATA_PREFIX; database_name; schema_name; table_name; index_name] ++
  encode_index_value_segment index_value ++ as_bytes ":".

Definition index_table_prefix (database_name schema_name table_name : string) : list byte :=
  path [INDEX_DATA_PREFIX; database_name; schema_name; table_name].

Definition index_entry_key (database_name schema_name table_name index_name : string)
    (index_value pk_value : ColumnValue) : PgWireResult (list byte) :=
  segment ← encode_primary_key_segment pk_value;
  Ok (index_entry_prefix database_name schema_name table_name index_name index_value ++ segment).

Definition schema_key (table_name : string) : string := (SCHEMA_PREFIX +:+ table_name)%string.

Definition decode_pk_from_row_marker_key (key : list byte)
    (database_name schema_name table_name : string) (t : DataType) : PgWireResult ColumnValue :=
  suffix ← ok_or (PgError "XX000" "row marker key missing expected prefix")
             (strip_prefix (row_marker_prefix database_name schema_name table_name) key);
  decode_primary_key_segment t suffix.

Definition decode_pk_from_cell_key (key : list byte)
    (database_name schema_name table_name column_name : string) (t : DataType)
    : PgWireResult ColumnValue :=
  suffix ← ok_or (PgError "XX000" "cell key missing expected prefix")
             (strip_prefix (cell_prefix database_name schema_name table_name column_name) key);
  decode_primary_key_segment t suffix.

Definition decode_pk_from_index_entry_key (key : list byte)
    (database_name schema_name table_name index_name : string) (index_value : ColumnValue)
    (pk_data_type : DataType) : PgWireResult ColumnValue :=
  suffix ← ok_or (PgError "XX000" "index entry key missing expected prefix")
             (strip_prefix (index_entry_prefix database_name schema_name table_name index_name
                index_value) key);
  decode_primary_key_segment pk_data_type suffix.

(** ** Round trips of cells *)

(** The values a cell of a column type reads back. *)
Fixpoint cell_typed (t : DataType) (v : ColumnValue) : bool :=
  match v with
  | Int32 _ => match t with DT.Year => true | _ => key_typed t v end
  | Int64 _ => match t with DT.Bit _ => true | _ => key_typed t v end
  | Array vs => match t with DT.Array inner => forallb (cell_typed inner) vs | _ => false end
  | _ => key_typed t v
  end.

(** Like [wf_value]; the cells of an array's elements also fit a [u32] length. *)
Fixpoint wf_cell (v : ColumnValue) : Prop :=
  match v with
  | Array vs =>
      len vs < 2 ^ 32 /\
      foldr (fun v acc => (wf_cell v /\ wf_bytes (encode_cell_value v)) /\ acc) True vs
  | _ => wf_value v
  end.

Lemma wf_cell_array (vs : list ColumnValue) :
  wf_cell (Array vs) -> len vs < 2 ^ 32 /\ Forall (fun v => wf_cell v /\ wf_bytes (encode_cell_value v)) vs.
Proof. cbn. intros [Hl H]. split; [done|]. induction vs as [|v vs IH]; [done|]. destruct H. constructor; auto.
  apply IH; [|done]. unfold len in *. cbn in Hl. lia. Qed.

Lemma read_push_bytes (l r : list byte) : wf_bytes l ->
  read_bytes (push_bytes l ++ r) = Ok (l, length (push_bytes l)).
Proof.
  intros Hl. unfold read_bytes, push_bytes. rewrite <- app_assoc.
  assert (Hn : length (to_be 4 (len l) ++ l ++ r) = (4 + (length l + length r))%nat)
    by (by rewrite !length_app, length_to_be).
  rewrite Hn, take_app_length' by (by rewrite length_to_be).
  rewrite from_be_to_be_small by (by apply in_unsigned_len).
  assert (Hz : Z.to_nat (len l) = length l) by (unfold len; by rewrite Nat2Z.id).
  rewrite Hz. rewrite (proj2 (Nat.ltb_ge _ _)) by lia.
  rewrite (proj2 (Nat.ltb_ge _ _)) by lia.
  rewrite length_app, length_to_be.
  pose proof (slice_app (to_be 4 (len l)) l r) as Hs. rewrite length_to_be in Hs. by rewrite Hs.
Qed.

Lemma read_push_string (s : string) (r : list byte) : wf_text s ->
  read_string (push_bytes (as_bytes s) ++ r) = Ok (s, length (push_bytes (as_bytes s))).
Proof.
  intros [Hu Hl]. unfold read_string. rewrite read_push_bytes, bind_ok by done.
  by rewrite from_utf8_as_bytes.
Qed.

Lemma be_int_encode (n : nat) (what : string) (v : Z) (r : list byte) :
  (0 < n)%nat -> in_signed (8 * Z.of_nat n) v -> be_int n what (to_be n v ++ r) = Ok (v, n).
Proof.
  intros Hn Hv. unfold be_int. rewrite length_app, length_to_be.
  destruct (Nat.ltb_spec (n + length r) n); [lia|]. rewrite take_app_length' by (by rewrite length_to_be).
  by rewrite (signed_be_roundtrip n (8 * Z.of_nat n)) by (done || lia).
Qed.

Lemma be_bits_encode (n : nat) (what : string) (v : Z) (r : list byte) :
  in_unsigned (8 * Z.of_nat n) v -> be_bits n what (to_be n v ++ r) = Ok (v, n).
Proof.
  intros Hv. unfold be_bits. rewrite length_app, length_to_be.
  destruct (Nat.ltb_spec (n + length r) n); [lia|]. rewrite take_app_length' by (by rewrite length_to_be).
  by rewrite from_be_to_be_small.
Qed.

Lemma encode_non_null_array (vs : list ColumnValue) :
  encode_non_null_column_value (Array vs) =
  to_be 4 (len vs) ++ concat (map (fun v => push_bytes (encode_cell_value v)) vs).
Proof. done. Qed.

Lemma decode_cell_with_encode (decode : list byte -> PgWireResult (ColumnValue * nat)) (v : ColumnValue) :
  (v <> Null -> decode (encode_non_null_column_value v) = Ok (v, length (encode_non_null_column_value v))) ->
  decode_cell_with decode (encode_cell_value v) = Ok v.
Proof.
  intros H. assert (Hn : v = Null \/ v <> Null) by (destruct v; (by left) || (by right)).
  destruct Hn as [->|Hn]; [done|]. specialize (H Hn).
  assert (E : encode_cell_value v = x01 :: encode_non_null_column_value v) by (by destruct v).
  rewrite E. unfold decode_cell_with. change (u8_to_Z x01 =? 0) with false. cbv iota.
  rewrite H, bind_ok. cbn [length]. by rewrite Nat.add_1_r, Nat.eqb_refl.
Qed.

Lemma decode_cell_elements_encode (decode_cell : list byte -> PgWireResult ColumnValue)
    (vs : list ColumnValue) : forall pre r : list byte,
  Forall (fun v => decode_cell (encode_cell_value v) = Ok v /\ wf_bytes (encode_cell_value v)) vs ->
  decode_cell_elements decode_cell (length vs)
    (pre ++ concat (map (fun v => push_bytes (encode_cell_value v)) vs) ++ r) (length pre) =
  Ok (vs, (length pre + length (concat (map (fun v => push_bytes (encode_cell_value v)) vs)))%nat).
Proof.
  induction vs as [|v vs IH]; intros pre r Hall.
  - cbn. by rewrite Nat.add_0_r.
  - apply Forall_cons in Hall as [[Hv Hl] Hall]. cbn [length map concat decode_cell_elements].
    rewrite drop_app_length, <- app_assoc, read_push_bytes, bind_ok by done. rewrite Hv, bind_ok.
    rewrite (app_assoc pre). rewrite <- (length_app pre), IH, bind_ok by done.
    rewrite !length_app. do 2 f_equal. lia.
Qed.

Lemma non_null_roundtrip (v : ColumnValue) : forall (t : DataType) (r : list byte),
  v <> Null -> cell_typed t v = true -> wf_cell v ->
  decode_non_null_column_value t (encode_non_null_column_value v ++ r) =
    Ok (v, length (encode_non_null_column_value v)).
Proof.
  induction v as [vs IH|v Hv] using ColumnValue_nested_ind; intros t r Hn Ht Hwf.
  - destruct t; try discriminate Ht. apply wf_cell_array in Hwf as [Hlen Hwf].
    rewrite encode_non_null_array. cbn [decode_non_null_column_value].
    rewrite <- app_assoc, !length_app, length_to_be. cbn [Nat.add Nat.ltb Nat.leb].
    rewrite take_app_length' by (by rewrite length_to_be).
    rewrite from_be_to_be_small by (by apply in_unsigned_len). unfold len. rewrite Nat2Z.id.
    pose proof (decode_cell_elements_encode (decode_cell_with (decode_non_null_column_value t)) vs
      (to_be 4 (Z.of_nat (length vs))) r) as E. rewrite length_to_be in E. rewrite E; [done|].
    cbn [cell_typed] in Ht. rewrite forallb_forall in Ht. rewrite Forall_forall in *.
    intros v Hin. destruct (Hwf v Hin) as [Hwv Hlv]. split; [|done].
    apply decode_cell_with_encode. intros Hnv. rewrite <- (app_nil_r (encode_non_null_column_value v)) at 1.
    apply IH; [done|done|apply Ht; by apply list_elem_of_In|done].
  - assert (Hw : wf_value v) by (destruct v; try done; by destruct (Hv values)).
    destruct v; try (by destruct (Hv values)); try done; cbn [wf_value] in Hw.
    all: destruct t; try discriminate Ht; try destruct kind, unsigned; try discriminate Ht.
    all: cbn [encode_non_null_column_value decode_non_null_column_value decode_mysql_int_value].
    all: rewrite ?be_int_encode, ?be_bits_encode, ?read_push_string, ?read_push_bytes by (done || lia).
    all: rewrite ?bind_ok, ?length_to_be; try done.
    by destruct v.
Qed.

(** ** Round trips of keys *)

Definition segment_typed (t : DataType) (v : ColumnValue) : bool :=
  match v with Null | Boolean _ | Array _ => false | _ => cell_typed t v end.

Lemma int_segment_encode (n : nat) (what : string) (v : Z) : (0 < n)%nat ->
  in_signed (8 * Z.of_nat n) v ->
  int_segment n what (to_be n (Z.lxor (v mod 2 ^ (8 * Z.of_nat n)) (2 ^ (8 * Z.of_nat n - 1)))) = Ok v.
Proof.
  intros Hn Hv. unfold int_segment. rewrite length_to_be, Nat.eqb_refl. cbn [negb].
  f_equal. apply flip_be; done || lia.
Qed.

Lemma text_segment_encode (t : DataType) (s : string) : wf_text s ->
  text_segment t (as_bytes s ++ [x00]) = Ok (text_value t s).
Proof.
  intros [Hu _]. unfold text_segment. rewrite strip_suffix1_app. cbn [ok_or]. rewrite bind_ok.
  rewrite from_utf8_as_bytes by done. done.
Qed.

Lemma segment_roundtrip (t : DataType) (v : ColumnValue) : segment_typed t v = true -> wf_value v ->
  exists segment, encode_primary_key_segment v = Ok segment /\ decode_primary_key_segment t segment = Ok v.
Proof.
  intros Ht Hw. destruct v; try discriminate Ht; cbn [wf_value] in Hw; eexists; (split; [reflexivity|]).
  all: destruct t; try discriminate Ht; try destruct kind, unsigned; try discriminate Ht.
  all: cbn [decode_primary_key_segment decode_mysql_int_key].
  all: try (by rewrite text_segment_encode).
  all: unfold int16_segment, int32_segment, int64_segment, flip16, flip32, flip64.
  all: try (rewrite (int_segment_encode 2) by (done || lia); done).
  all: try (rewrite (int_segment_encode 4) by (done || lia); done).
  all: try (rewrite (int_segment_encode 8) by (done || lia); done).
  all: try (rewrite decode_encode_ordered_f32 by done).
  all: try (rewrite decode_encode_ordered_f64 by done).
  all: unfold encode_ordered_f32, encode_ordered_f64; rewrite ?length_to_be; try done.
  all: by rewrite strip_suffix1_app.
Qed.

(** ** Properties *)

Lemma segment_not_panic (v : ColumnValue) :
  encode_primary_key_segment v = Panic <-> v = Null \/ (exists b, v = Boolean b) \/ exists vs, v = Array vs.
Proof.
  split; [|by intros [->|[[b ->]|[vs ->]]]].
  destruct v; cbn [encode_primary_key_segment]; try discriminate; intros _;
    [by left|right; left; by eexists|right; right; by eexists].
Qed.

(** What the first layout writes it reads back: the value of a cell of the
    column's type, NULLs and arrays included, and the primary key of a row marker, of
    a cell key and of an index entry. *)
Theorem legacy_layout_roundtrip (database schema table column index : string) (t pk_type : DataType)
    (v index_value pk : ColumnValue) :
  cell_typed t v = true -> wf_cell v -> segment_typed pk_type pk = true -> wf_value pk ->
  decode_cell_value t (encode_cell_value v) = Ok v /\
  (k ← row_marker_key database schema table pk;
   decode_pk_from_row_marker_key k database schema table pk_type) = Ok pk /\
  (k ← cell_key database schema table column pk;
   decode_pk_from_cell_key k database schema table column pk_type) = Ok pk /\
  (k ← index_entry_key database schema table index index_value pk;
   decode_pk_from_index_entry_key k database schema table index index_value pk_type) = Ok pk.
Proof.
  intros Ht Hwf Hpt Hpw. split.
  - apply decode_cell_with_encode. intros Hn. rewrite <- (app_nil_r (encode_non_null_column_value v)) at 1.
    by apply non_null_roundtrip.
  - destruct (segment_roundtrip pk_type pk Hpt Hpw) as (segment & E & D).
    unfold row_marker_key, cell_key, index_entry_key. rewrite E, !bind_ok.
    unfold decode_pk_from_row_marker_key, decode_pk_from_cell_key, decode_pk_from_index_entry_key.
    rewrite !strip_prefix_app. cbn [ok_or]. by rewrite !bind_ok.
Qed.

Lemma legacy_layout_roundtrip_witness :
  decode_cell_value (DT.Array DT.Text) (encode_cell_value (Array [Text "a"; Null])) =
    Ok (Array [Text "a"; Null]) /\
  (k ← row_marker_key "db" "public" "t" (Int32 (-5));
   decode_pk_from_row_marker_key k "db" "public" "t" DT.Int32) = Ok (Int32 (-5)) /\
  (k ← cell_key "db" "public" "t" "c" (Int32 (-5));
   decode_pk_from_cell_key k "db" "public" "t" "c" DT.Int32) = Ok (Int32 (-5)) /\
  (k ← index_entry_key "db" "public" "t" "i" (Text "x") (Int32 (-5));
   decode_pk_from_index_entry_key k "db" "public" "t" "i" (Text "x") DT.Int32) = Ok (Int32 (-5)).
Proof.
  apply (legacy_layout_roundtrip "db" "public" "t" "c" "i" (DT.Array DT.Text) DT.Int32
    (Array [Text "a"; Null]) (Text "x") (Int32 (-5))).
  - reflexivity.
  - split; [vm_compute; reflexivity|]. repeat split; vm_compute; reflexivity.
  - reflexivity.
  - split; vm_compute; congruence.
Defined.

(** A scan of a legacy index prefix sees exactly the entries of its value: for
    values of one column type, an entry starts with the prefix of [value] exactly when
    it is an entry of [value], whatever primary key follows. *)
Theorem legacy_index_scan_selects_value (database schema table index : string) (t : DataType)
    (value value' pk : ColumnValue) (k : list byte) :
  cell_typed t value = true -> wf_cell value -> cell_typed t value' = true -> wf_cell value' ->
  index_entry_key database schema table index value' pk = Ok k ->
  starts_with k (index_entry_prefix database schema table index value) = true <-> value' = value.
Proof.
  intros Ht Hw Ht' Hw' Hk. unfold index_entry_key in Hk.
  apply bind_inv in Hk as (segment & _ & Hk).
  assert (E : index_entry_prefix database schema table index value' ++ segment = k) by congruence.
  rewrite <- E. clear E Hk. rewrite starts_with_spec. split.
  - intros [r Hr]. unfold index_entry_prefix in Hr. revert Hr.
    generalize (path [INDEX_DATA_PREFIX; database; schema; table; index]), (as_bytes ":"). intros p sep Hr.
    rewrite <- !app_assoc in Hr. apply app_inv_head in Hr.
    assert (Hseg : forall v, v = Null \/ (v <> Null /\
        encode_index_value_segment v = x01 :: encode_non_null_column_value v)).
    { intros v. destruct v; (by left) || (by right). }
    destruct (Hseg value) as [->|[Hn E]], (Hseg value') as [->|[Hn' E']]; try done.
    + by rewrite E' in Hr.
    + by rewrite E in Hr.
    + rewrite E, E' in Hr. cbn [app] in Hr. injection Hr as Hr.
      pose proof (non_null_roundtrip value' t (sep ++ segment) Hn' Ht' Hw') as D'.
      rewrite Hr, (non_null_roundtrip value t (sep ++ r) Hn Ht Hw) in D'. by injection D'.
  - intros ->. by exists segment.
Qed.

Lemma legacy_index_scan_selects_value_witness :
  starts_with (index_entry_prefix "db" "public" "t" "i" (Text "ab") ++ to_be 4 (flip32 5))
    (index_entry_prefix "db" "public" "t" "i" (Text "a")) = true <-> Text "ab" = Text "a".
Proof.
  apply (legacy_index_scan_selects_value "db" "public" "t" "i" DT.Text (Text "a") (Text "ab") (Int32 5));
    try reflexivity; split; vm_compute; reflexivity.
Defined.

(** A boolean primary key, which the typed keys store, makes the first layout panic:
    [write_row_at] builds a row marker for every row it writes. *)
Example boolean_key_panics : row_marker_key "db" "public" "t" (Boolean true) = Panic.
Proof. reflexivity. Qed.
