(* ===== verification/Coerce.v ===== *)
(** * Values of a column's type

    src/src/sql/values/: what a text or a value of another type becomes in a column
    (coercion.rs, text_parse.rs, scalar_parsers.rs, mysql.rs).  Reading and printing
    floats is the standard library's, the JSON parser is the crate's; both are
    parameters. *)

From Stdlib Require Import SpecFloat.
From stdpp Require Import pretty.
From S2P Require Import Prelude Float Types TupleCodec Values Text Json KeyCodec.
From S2P Require LegacyCodec.

#[local] Open Scope string_scope.
#[local] Open Scope list_scope.
#[local] Open Scope Z_scope.

(** ** The standard library's texts of floats, and [Debug] *)

Class ValueTexts := {
  parse_f32 : string -> option Z;
  parse_f64 : string -> option Z;
  display_f32 : Z -> string;
  display_f64 : Z -> string;
  debug_value : ColumnValue -> string;
}.

(** [parse::<i16>] and [parse::<i128>]. *)
Definition parse_i16 (l : list byte) : option Z :=
  z ← parse_i64 l; if (-2 ^ 15 <=? z) && (z <? 2 ^ 15) then Some z else None.

Definition parse_i128 (l : list byte) : option Z :=
  let '(negative, ds) :=
    match l with x2d :: r => (true, r) | x2b :: r => (false, r) | _ => (false, l) end in
  if bool_decide (ds = []) || negb (forallb is_digit ds) then None
  else
    let z := if negative : bool then - digits_value ds else digits_value ds in
    if (-2 ^ 127 <=? z) && (z <? 2 ^ 127) then Some z else None.

(** [v as iN] for a float: towards zero, saturating, 0 for NaN. *)
Definition trunc_clamped (lo hi : Z) (x : spec_float) : Z :=
  match x with
  | S754_nan | S754_zero _ => 0
  | S754_infinity s => if s then lo else hi
  | S754_finite s m e =>
      let a := if 0 <=? e then Zpos m * 2 ^ e else Zpos m / 2 ^ (- e) in
      Z.max lo (Z.min hi (if s then - a else a))
  end.
Definition f32_as (lo hi bits : Z) : Z := trunc_clamped lo hi (fdecode 23 8 bits).
Definition f64_as (lo hi bits : Z) : Z := trunc_clamped lo hi (fdecode 52 11 bits).

(** [v as f32] for an [f64]: to nearest, ties to even. *)
Definition f32_of_f64 (bits : Z) : Z :=
  fencode 23 8
    (match fdecode 52 11 bits with
     | S754_finite s m e => binary_normalize (fprec 23) (femax 8) (cond_Zopp s (Zpos m)) e s
     | x => x
     end).

(** [str::chars().count()]. *)
Definition char_count (l : list byte) : Z := len (List.filter (fun b => negb (utf8_cont b)) l).

(** [&raw[a..b]]: outside the text or inside a character panics. *)
Definition is_char_boundary (l : list byte) (i : nat) : bool :=
  match l !! i with Some b => negb (utf8_cont b) | None => (i =? length l)%nat end.
Definition str_slice (l : list byte) (a b : nat) : PgWireResult (list byte) :=
  if (a <=? b)%nat && (b <=? length l)%nat && is_char_boundary l a && is_char_boundary l b
  then Ok (slice l a b) else Panic.

Fixpoint take_while (p : byte -> bool) (l : list byte) : list byte :=
  match l with b :: l => if p b then b :: take_while p l else [] | [] => [] end.

(** ** Scalars (scalar_parsers.rs) *)

Definition invalid_input {A} (code : string) (kind raw : string) : PgWireResult A :=
  user_error code ("invalid input for " +:+ kind +:+ ": '" +:+ raw +:+ "'").

Definition parse_int16_text (raw : string) : PgWireResult ColumnValue :=
  match parse_i16 (as_bytes raw) with Some z => Ok (Int16 z) | None => invalid_input "22P02" "INT2" raw end.
Definition parse_int32_text (raw : string) : PgWireResult ColumnValue :=
  match parse_i32 (as_bytes raw) with Some z => Ok (Int32 z) | None => invalid_input "22P02" "INT4" raw end.
Definition parse_int64_text (raw : string) : PgWireResult ColumnValue :=
  match parse_i64 (as_bytes raw) with Some z => Ok (Int64 z) | None => invalid_input "22P02" "INT8" raw end.

Definition parse_bool_text (raw : string) : PgWireResult ColumnValue :=
  if bool_decide (raw ∈ ["t"; "T"; "true"; "TRUE"; "True"; "1"; "yes"; "YES"; "Yes"; "on"; "ON"; "On"])
  then Ok (Boolean true)
  else if bool_decide (raw ∈ ["f"; "F"; "false"; "FALSE"; "False"; "0"; "no"; "NO"; "No"; "off"; "OFF"; "Off"])
  then Ok (Boolean false)
  else
    let lowered := to_ascii_lowercase raw in
    if bool_decide (lowered ∈ ["true"; "yes"; "on"]) then Ok (Boolean true)
    else if bool_decide (lowered ∈ ["false"; "no"; "off"]) then Ok (Boolean false)
    else invalid_input "22P02" "BOOL" raw.

Definition validate_decimal_precision (value : string) (precision scale : option Z) : PgWireResult unit :=
  let trimmed := trim_start_matches (fun b => is_byte x2b b || is_byte x2d b) (as_bytes value) in
  let parts := split_on x2e trimmed in
  let int := default [] (parts !! 0%nat) in
  let frac := default [] (parts !! 1%nat) in
  let digit_count := len (List.filter is_digit int) + len (List.filter is_digit frac) in
  match scale with
  | Some scale =>
      if scale <? len frac
      then user_error "22003" ("numeric scale exceeds DECIMAL scale " +:+ pretty scale +:+ ": '" +:+ value +:+ "'")
      else Ok tt
  | None => Ok tt
  end ≫= fun _ =>
  match precision with
  | Some precision =>
      if precision <? digit_count
      then user_error "22003"
             ("numeric precision exceeds DECIMAL precision " +:+ pretty precision +:+ ": '" +:+ value +:+ "'")
      else Ok tt
  | None => Ok tt
  end.

Definition coerce_varchar (value : string) (limit : option Z) : PgWireResult ColumnValue :=
  match limit with
  | Some limit =>
      if limit <? char_count (as_bytes value)
      then user_error "22001" ("value too long for type character varying(" +:+ pretty limit +:+ ")")
      else Ok (Text value)
  | None => Ok (Text value)
  end.

Definition coerce_char (value : string) (limit : option Z) : PgWireResult ColumnValue :=
  match limit with
  | None => Ok (Text value)
  | Some limit =>
      let n := char_count (as_bytes value) in
      if limit <? n then user_error "22001" ("value too long for type character(" +:+ pretty limit +:+ ")")
      else Ok (Text (of_bytes (as_bytes value ++ replicate (Z.to_nat (limit - n)) x20)))
  end.

Definition coerce_binary (value : list byte) (limit : option Z) : PgWireResult ColumnValue :=
  let limit := default 1 limit in
  if limit <? len value then user_error "22001" ("value too long for type binary(" +:+ pretty limit +:+ ")")
  else Ok (Bytea (value ++ replicate (Z.to_nat (limit - len value)) x00)).

Definition coerce_varbinary (value : list byte) (limit : option Z) : PgWireResult ColumnValue :=
  match limit with
  | Some limit =>
      if limit <? len value
      then user_error "22001" ("value too long for type varbinary(" +:+ pretty limit +:+ ")")
      else Ok (Bytea value)
  | None => Ok (Bytea value)
  end.

(** [coerce_blob] and [coerce_mysql_text] test a length in bytes. *)
Definition within_max_len (length : Z) (max_len : option Z) (type_name : string) (v : ColumnValue)
    : PgWireResult ColumnValue :=
  match max_len with
  | Some max_len =>
      if max_len <? length then user_error "22001" ("value too long for type " +:+ type_name) else Ok v
  | None => Ok v
  end.
Definition coerce_blob (value : list byte) (max_len : option Z) (type_name : string) : PgWireResult ColumnValue :=
  within_max_len (len value) max_len type_name (Bytea value).
Definition coerce_mysql_text (value : string) (max_len : option Z) (type_name : string)
    : PgWireResult ColumnValue :=
  within_max_len (len (as_bytes value)) max_len type_name (Text value).

(** ** Dates and times *)

Definition is_leap_year (year : Z) : bool :=
  ((Z.rem year 4 =? 0) && negb (Z.rem year 100 =? 0)) || (Z.rem year 400 =? 0).

Definition month_days (year month : Z) : Z :=
  match month with
  | 1 | 3 | 5 | 7 | 8 | 10 | 12 => 31
  | 4 | 6 | 9 | 11 => 30
  | 2 => if is_leap_year year then 29 else 28
  | _ => 0
  end.

Definition invalid_value {A} (code kind raw : string) : PgWireResult A :=
  user_error code ("invalid " +:+ kind +:+ " value '" +:+ raw +:+ "'").

(** [bytes.iter().enumerate().all(..)] *)
Definition all_indexed (p : nat -> byte -> bool) (l : list byte) : bool := forallb id (imap p l).

Definition dated (l : list byte) : bool :=
  (length l =? 10)%nat && bool_decide (l !! 4%nat = Some x2d) && bool_decide (l !! 7%nat = Some x2d) &&
  all_indexed (fun idx b => (idx =? 4)%nat || (idx =? 7)%nat || is_digit b) l.

Definition validate_date (l : list byte) : PgWireResult unit :=
  let invalid := invalid_value "22007" "DATE" (of_bytes l) in
  if negb (dated l) then invalid
  else
    year ← str_slice l 0 4;
    match parse_i32 year with
    | None => invalid
    | Some year =>
        month ← str_slice l 5 7;
        match parse_u32 month with
        | None => invalid
        | Some month =>
            day ← str_slice l 8 10;
            match parse_u32 day with
            | None => invalid
            | Some day =>
                if (year =? 0) || negb ((1 <=? month) && (month <=? 12)) then invalid
                else if (day =? 0) || (month_days year month <? day) then invalid
                else Ok tt
            end
        end
    end.

Definition validate_timestamp (raw : string) : PgWireResult unit :=
  if (10 <=? length (as_bytes raw))%nat then
    date ← str_slice (as_bytes raw) 0 10; validate_date date
  else invalid_value "22007" "TIMESTAMP" raw.

Definition validate_time (raw : string) (allow_tz : bool) : PgWireResult unit :=
  let invalid := invalid_value "22007" "TIME" raw in
  let l := as_bytes raw in
  let time := match split_whitespace l with w :: _ => w | [] => l end in
  let parts := split_on x3a time in
  if (length parts <? 2)%nat || (3 <? length parts)%nat then invalid
  else
    let below (n : Z) (o : option Z) := match o with Some v => v <? n | None => false end in
    let hour := parse_u32 (default [] (parts !! 0%nat)) in
    let minute := parse_u32 (default [] (parts !! 1%nat)) in
    let second_part := default [x30] (parts !! 2%nat) in
    let second_digits := take_while (fun b => negb (bool_decide (b ∈ [x2e; x2b; x2d; x5a]))) second_part in
    if below 24 hour && below 60 minute && below 60 (parse_u32 second_digits) &&
       (allow_tz || (negb (bool_decide (x2b ∈ l)) && negb (bool_decide (last l = Some x5a))))
    then Ok tt else invalid.

Definition validate_interval (raw : string) : PgWireResult unit :=
  if bool_decide (trim (as_bytes raw) = []) then user_error "22007" "invalid INTERVAL value" else Ok tt.

Definition is_hexdigit (b : byte) : bool :=
  is_digit b || ((65 <=? u8_to_Z b) && (u8_to_Z b <=? 70)) || ((97 <=? u8_to_Z b) && (u8_to_Z b <=? 102)).

Definition validate_uuid (raw : string) : PgWireResult unit :=
  let l := as_bytes raw in
  let dashes := [8; 13; 18; 23]%nat in
  if (length l =? 36)%nat && forallb (fun idx => bool_decide (l !! idx = Some x2d)) dashes &&
     all_indexed (fun idx b => bool_decide (idx ∈ dashes) || is_hexdigit b) l
  then Ok tt else invalid_value "22P02" "UUID" raw.

(** ** Bytes *)

Definition hex_value (b : byte) : option Z :=
  let z := u8_to_Z b in
  if is_digit b then Some (z - 48)
  else if (65 <=? z) && (z <=? 70) then Some (z - 55)
  else if (97 <=? z) && (z <=? 102) then Some (z - 87)
  else None.

(** [u8::from_str_radix(.., 16)] of two bytes; a leading plus is a sign. *)
Definition u8_from_hex (a b : byte) : option byte :=
  if is_byte x2b a then u8_of_Z <$> hex_value b
  else x ← hex_value a; y ← hex_value b; Some (u8_of_Z (16 * x + y)).

Fixpoint hex_pairs (raw : string) (hex : list byte) : PgWireResult (list byte) :=
  match hex with
  | a :: b :: rest =>
      if utf8_cont a || match rest with c :: _ => utf8_cont c | [] => false end then Panic
      else match u8_from_hex a b with
           | Some v => bytes ← hex_pairs raw rest; Ok (v :: bytes)
           | None => user_error "22P02" ("invalid BYTEA hex value '" +:+ raw +:+ "'")
           end
  | _ => Ok []
  end.

Definition parse_bytea (raw : string) : PgWireResult (list byte) :=
  match as_bytes raw with
  | x5c :: x78 :: hex | x5c :: x58 :: hex =>
      if negb (length hex mod 2 =? 0)%nat
      then user_error "22P02" ("invalid BYTEA hex value '" +:+ raw +:+ "'")
      else hex_pairs raw hex
  | l => Ok l
  end.

(** ** Arrays as text *)

Inductive ArrayItem : Type := ItemNull | ItemValue (value : list byte).

Definition array_item_from_text (value : list byte) (quoted : bool) : ArrayItem :=
  if quoted then ItemValue value
  else
    let value := trim value in
    if eq_ignore_ascii_case value (as_bytes "NULL") then ItemNull else ItemValue value.

(** The locals of the loop of [parse_array_items]. *)
Record ItemState : Type := {
  it_items : list ArrayItem;
  it_current : list byte;
  it_in_quotes : bool;
  it_quoted : bool;
  it_escaped : bool;
  it_depth : Z;
}.

Definition item_start : ItemState :=
  {| it_items := []; it_current := []; it_in_quotes := false; it_quoted := false; it_escaped := false;
     it_depth := 0 |}.

Definition item_push (ch : byte) (st : ItemState) : ItemState :=
  {| it_items := it_items st; it_current := it_current st ++ [ch]; it_in_quotes := it_in_quotes st;
     it_quoted := it_quoted st; it_escaped := false; it_depth := it_depth st |}.
Definition item_depth (by_ : Z) (st : ItemState) : ItemState :=
  {| it_items := it_items st; it_current := it_current st; it_in_quotes := it_in_quotes st;
     it_quoted := it_quoted st; it_escaped := it_escaped st; it_depth := it_depth st + by_ |}.

Definition item_step (raw : string) (st : ItemState) (ch : byte) : PgWireResult ItemState :=
  if it_escaped st then Ok (item_push ch st)
  else if is_byte x5c ch then
    Ok {| it_items := it_items st; it_current := it_current st; it_in_quotes := it_in_quotes st;
          it_quoted := it_quoted st; it_escaped := true; it_depth := it_depth st |}
  else if is_byte x22 ch then
    Ok {| it_items := it_items st; it_current := it_current st; it_in_quotes := negb (it_in_quotes st);
          it_quoted := true; it_escaped := false; it_depth := it_depth st |}
  else if it_in_quotes st then Ok (item_push ch st)
  else if is_byte x7b ch then Ok (item_push ch (item_depth 1 st))
  else if is_byte x7d ch then
    if it_depth st =? 0 then invalid_value "22P02" "ARRAY" raw
    else Ok (item_push ch (item_depth (-1) st))
  else if is_byte x2c ch && (it_depth st =? 0) then
    Ok {| it_items := it_items st ++ [array_item_from_text (it_current st) (it_quoted st)];
          it_current := []; it_in_quotes := false; it_quoted := false; it_escaped := false;
          it_depth := it_depth st |}
  else Ok (item_push ch st).

Definition item_end (raw : string) (st : ItemState) : PgWireResult (list ArrayItem) :=
  if it_escaped st || it_in_quotes st || negb (it_depth st =? 0) then invalid_value "22P02" "ARRAY" raw
  else Ok (it_items st ++ [array_item_from_text (it_current st) (it_quoted st)]).

Definition parse_array_items (body : list byte) (raw : string) : PgWireResult (list ArrayItem) :=
  st ← fold_m (item_step raw) item_start body; item_end raw st.

(** [parse_text_for_type] on the items is its argument. *)
Definition parse_array_text (parse : string -> PgWireResult ColumnValue) (raw : string)
    : PgWireResult ColumnValue :=
  match (l ← strip_prefix [x7b] (as_bytes raw); strip_suffix [x7d] l) with
  | None => invalid_value "22P02" "ARRAY" raw
  | Some [] => Ok (Array [])
  | Some body =>
      items ← parse_array_items body raw;
      Array <$> map_m (fun item => match item with
                                   | ItemNull => Ok Null
                                   | ItemValue value => parse (of_bytes value)
                                   end) items
  end.

(** ** MySQL's types (mysql.rs) *)

Definition mysql_integer_range (kind : MySqlIntKind) (unsigned : bool) : Z * Z * string :=
  match kind, unsigned with
  | Tiny, false => (-128, 127, "TINYINT")
  | Tiny, true => (0, 255, "TINYINT UNSIGNED")
  | Small, false => (-32768, 32767, "SMALLINT")
  | Small, true => (0, 65535, "SMALLINT UNSIGNED")
  | Medium, false => (-8388608, 8388607, "MEDIUMINT")
  | Medium, true => (0, 16777215, "MEDIUMINT UNSIGNED")
  | KInt, false => (-2147483648, 2147483647, "INT")
  | KInt, true => (0, 4294967295, "INT UNSIGNED")
  | Big, false => (-9223372036854775808, 9223372036854775807, "BIGINT")
  | Big, true => (0, 18446744073709551615, "BIGINT UNSIGNED")
  end.

Definition mysql_integer_from_i128 (value : Z) (kind : MySqlIntKind) (unsigned : bool)
    : PgWireResult ColumnValue :=
  let '(min, max, type_name) := mysql_integer_range kind unsigned in
  if (value <? min) || (max <? value)
  then user_error "22003" ("value '" +:+ pretty value +:+ "' out of range for " +:+ type_name)
  else Ok match kind, unsigned with
          | (Tiny | Small), false => Int16 value
          | (Tiny | Small), true | Medium, _ | KInt, false => Int32 value
          | KInt, true | Big, false => Int64 value
          | Big, true => Numeric (pretty value)
          end.

Definition parse_mysql_integer (raw : string) (kind : MySqlIntKind) (unsigned : bool)
    : PgWireResult ColumnValue :=
  match parse_i128 (as_bytes raw) with
  | None => user_error "22P02" ("invalid integer value '" +:+ raw +:+ "'")
  | Some value => mysql_integer_from_i128 value kind unsigned
  end.

Definition bits_value (bits : list byte) : Z := foldl (fun acc b => 2 * acc + digit_value b) 0 bits.

Definition parse_bit_value (raw : string) (limit : option Z) : PgWireResult ColumnValue :=
  let max_bits := Z.min (default 1 limit) 64 in
  let invalid {A} : PgWireResult A := invalid_value "22003" "BIT" raw in
  value ← (match (l ← strip_prefix (as_bytes "b'") (as_bytes raw); strip_suffix [x27] l) with
           | Some bits =>
               if (max_bits <? len bits) || negb (forallb (fun b => bool_decide (b = x30 \/ b = x31)) bits)
               then invalid
               else match bits with [] => invalid | _ => Ok (bits_value bits) end
           | None =>
               match parse_u64 (as_bytes raw) with
               | None => invalid
               | Some value =>
                   let upper_bound := if max_bits =? 64 then u64_max else 2 ^ max_bits - 1 in
                   if upper_bound <? value
                   then user_error "22003"
                          ("value '" +:+ raw +:+ "' out of range for BIT(" +:+ pretty max_bits +:+ ")")
                   else Ok value
               end
           end);
  if i64_max <? value then user_error "22003" "BIT(64) values above signed BIGINT are not supported yet"
  else Ok (Int64 value).

Definition parse_year_value (raw : string) : PgWireResult ColumnValue :=
  match parse_i32 (as_bytes raw) with
  | None => invalid_value "22007" "YEAR" raw
  | Some year =>
      let normalized := if (0 <=? year) && (year <=? 69) then 2000 + year
                        else if (70 <=? year) && (year <=? 99) then 1900 + year
                        else year in
      if (normalized =? 0) || ((1901 <=? normalized) && (normalized <=? 2155)) then Ok (Int32 normalized)
      else user_error "22007" ("YEAR value '" +:+ raw +:+ "' out of range")
  end.

Definition coerce_enum (value : string) (allowed : list string) : PgWireResult ColumnValue :=
  if bool_decide (value ∈ allowed) then Ok (Text value) else invalid_value "22007" "ENUM" value.

(** The loop over the items of a SET value, with the items already seen. *)
Fixpoint set_items (allowed : list string) (seen : list string) (items : list string) : bool :=
  match items with
  | [] => true
  | item :: items =>
      bool_decide (item ∈ allowed) && negb (bool_decide (item ∈ seen)) &&
      set_items allowed (item :: seen) items
  end.

Definition coerce_set (value : string) (allowed : list string) : PgWireResult ColumnValue :=
  if bool_decide (value = "") then Ok (Text value)
  else if set_items allowed [] (map of_bytes (split_on x2c (as_bytes value))) then Ok (Text value)
  else invalid_value "22007" "SET" value.

Definition validate_mysql_temporal_date (value type_name : string) : PgWireResult unit :=
  let l := as_bytes value in
  if (10 <=? length l)%nat && is_char_boundary l 10 then
    let date := take 10 l in
    if str_is date "0000-00-00" then user_error "22007" ("zero date is not accepted for " +:+ type_name)
    else validate_date date
  else invalid_value "22007" type_name value.

Definition coerce_mysql_temporal_fraction (value type_name : string) (fsp : option Z) : PgWireResult string :=
  let fsp := default 0 fsp in
  if 6 <? fsp
  then user_error "22007" (type_name +:+ " fractional seconds precision must be between 0 and 6")
  else match split_once x2e (as_bytes value) with
  | Some (prefix, frac) =>
      if fsp <? len (take_while is_digit frac)
      then user_error "22007"
             (type_name +:+ " value exceeds fractional seconds precision " +:+ pretty fsp)
      else if fsp =? 0 then Ok (of_bytes prefix) else Ok value
  | None => Ok value
  end.

Definition coerce_mysql_temporal (value type_name : string) (fsp : option Z) : PgWireResult string :=
  _ ← validate_timestamp value;
  _ ← validate_mysql_temporal_date value type_name;
  coerce_mysql_temporal_fraction value type_name fsp.

(** ** Texts and values of a type (text_parse.rs, coercion.rs) *)

Section Coercion.
Context `{ValueTexts, SerdeJson}.

Definition parse_float32_text (raw : string) : PgWireResult ColumnValue :=
  match parse_f32 raw with Some b => Ok (Float32 b) | None => invalid_input "22P02" "FLOAT4" raw end.
Definition parse_float64_text (raw : string) : PgWireResult ColumnValue :=
  match parse_f64 raw with Some b => Ok (Float64 b) | None => invalid_input "22P02" "FLOAT8" raw end.

Definition coerce_decimal_text (value : string) (t : DataType) : PgWireResult ColumnValue :=
  match parse_f64 value with
  | None => invalid_input "22P02" "NUMERIC" value
  | Some _ =>
      match t with
      | DT.Numeric precision scale =>
          _ ← validate_decimal_precision value precision scale; Ok (Numeric value)
      | _ => Ok (Numeric value)
      end
  end.

Definition validate_json (raw : string) : PgWireResult unit :=
  map_err (fun e => PgError "22P02" ("invalid JSON value: " +:+ e)%string)
    (from_slice (as_bytes raw) ≫= fun _ => Ok tt).

Fixpoint parse_text_for_type (t : DataType) (raw : string) : PgWireResult ColumnValue :=
  match t with
  | DT.MySqlInt kind unsigned => parse_mysql_integer raw kind unsigned
  | DT.Int16 => parse_int16_text raw
  | DT.Int32 => parse_int32_text raw
  | DT.Int64 => parse_int64_text raw
  | DT.Float32 | DT.MySqlFloat _ => parse_float32_text raw
  | DT.Float64 | DT.MySqlDouble _ => parse_float64_text raw
  | DT.Numeric _ _ => coerce_decimal_text raw t
  | DT.Boolean => parse_bool_text raw
  | DT.Date => _ ← validate_date (as_bytes raw); Ok (Date raw)
  | DT.Timestamp => _ ← validate_timestamp raw; Ok (Timestamp raw)
  | DT.MySqlDateTime fsp => Timestamp <$> coerce_mysql_temporal raw "DATETIME" fsp
  | DT.MySqlTimestamp fsp => Timestamp <$> coerce_mysql_temporal raw "TIMESTAMP" fsp
  | DT.TimestampTz => _ ← validate_timestamp raw; Ok (TimestampTz raw)
  | DT.Time => _ ← validate_time raw false; Ok (Text raw)
  | DT.MySqlTime fsp =>
      _ ← validate_time raw false; Text <$> coerce_mysql_temporal_fraction raw "TIME" fsp
  | DT.TimeTz => _ ← validate_time raw true; Ok (Text raw)
  | DT.Interval => _ ← validate_interval raw; Ok (Text raw)
  | DT.Uuid => _ ← validate_uuid raw; Ok (Uuid (to_ascii_lowercase raw))
  | DT.Bytea => Bytea <$> parse_bytea raw
  | DT.Binary limit => bytes ← parse_bytea raw; coerce_binary bytes limit
  | DT.VarBinary limit => bytes ← parse_bytea raw; coerce_varbinary bytes limit
  | DT.Blob max_len type_name => bytes ← parse_bytea raw; coerce_blob bytes max_len type_name
  | DT.Bit limit => parse_bit_value raw limit
  | DT.Year => parse_year_value raw
  | DT.Json => _ ← validate_json raw; Ok (Json raw)
  | DT.Jsonb => _ ← validate_json raw; Ok (Jsonb raw)
  | DT.Array inner => parse_array_text (parse_text_for_type inner) raw
  | DT.VarChar limit => coerce_varchar raw limit
  | DT.Char limit => coerce_char raw limit
  | DT.Enum values => coerce_enum raw values
  | DT.Set_ values => coerce_set raw values
  | DT.Geometry _ | DT.Text | DT.Domain _ => Ok (Text raw)
  | DT.MySqlText max_len type_name => coerce_mysql_text raw max_len type_name
  end.

(** The types a number or a boolean becomes a text in, and those a date does. *)
Definition takes_number_text (t : DataType) : bool :=
  match t with
  | DT.Text | DT.MySqlText _ _ | DT.VarChar _ | DT.Char _ | DT.Enum _ | DT.Set_ _ | DT.Geometry _ => true
  | _ => false
  end.
Definition takes_date_text (t : DataType) : bool :=
  match t with DT.Text | DT.VarChar _ | DT.Char _ | DT.Geometry _ => true | _ => false end.

Definition out_of_range {A} (value kind : string) : PgWireResult A :=
  user_error "22003" ("value '" +:+ value +:+ "' out of range for " +:+ kind).

Definition unsupported_coercion (v : ColumnValue) : PgWireResult ColumnValue :=
  user_error "0A000" ("unsupported cast/coercion for value " +:+ debug_value v).

Definition coerce_mysql_integer (value : ColumnValue) (kind : MySqlIntKind) (unsigned : bool)
    : PgWireResult ColumnValue :=
  let of_int (z : Z) := mysql_integer_from_i128 z kind unsigned in
  match value with
  | Int16 v | Int32 v | Int64 v => of_int v
  | Float32 v => of_int (f32_as (-2 ^ 127) (2 ^ 127 - 1) v)
  | Float64 v => of_int (f64_as (-2 ^ 127) (2 ^ 127 - 1) v)
  | Numeric v | Text v => parse_mysql_integer v kind unsigned
  | Boolean v => of_int (if v then 1 else 0)
  | other => user_error "0A000" ("cannot coerce " +:+ debug_value other +:+ " to MySQL integer")
  end.

(** The arms of [coerce_column_value] for an integer [v]. *)
Definition coerce_int (v : Z) (self : ColumnValue) (t : DataType) : PgWireResult ColumnValue :=
  match t with
  | DT.Int16 => if (-2 ^ 15 <=? v) && (v <? 2 ^ 15) then Ok (Int16 v) else out_of_range (pretty v) "INT2"
  | DT.Int32 => if (-2 ^ 31 <=? v) && (v <? 2 ^ 31) then Ok (Int32 v) else out_of_range (pretty v) "INT4"
  | DT.Int64 => Ok (Int64 v)
  | DT.Float32 => Ok (Float32 (f32_of_Z v))
  | DT.Float64 => Ok (Float64 (f64_of_Z v))
  | DT.Numeric _ _ => coerce_decimal_text (pretty v) t
  | DT.Domain _ => Ok (Text (pretty v))
  | _ => if takes_number_text t then Ok (Text (pretty v)) else unsupported_coercion self
  end.

Definition f32_outside (lo hi v : Z) : bool :=
  is_lt (f32_compare v (f32_of_Z lo)) || is_gt (f32_compare v (f32_of_Z hi)).
Definition f64_outside (lo hi v : Z) : bool :=
  is_lt (f64_compare v (f64_of_Z lo)) || is_gt (f64_compare v (f64_of_Z hi)).

Definition coerce_f32 (v : Z) (t : DataType) : PgWireResult ColumnValue :=
  match t with
  | DT.Float32 | DT.MySqlFloat _ => Ok (Float32 v)
  | DT.Int16 => if f32_outside (-2 ^ 15) (2 ^ 15 - 1) v then out_of_range (display_f32 v) "INT2"
                else Ok (Int16 (f32_as (-2 ^ 15) (2 ^ 15 - 1) v))
  | DT.Int32 => if f32_outside (-2 ^ 31) (2 ^ 31 - 1) v then out_of_range (display_f32 v) "INT4"
                else Ok (Int32 (f32_as (-2 ^ 31) (2 ^ 31 - 1) v))
  | DT.Int64 => Ok (Int64 (f32_as i64_min i64_max v))
  | DT.Float64 => Ok (Float64 (f64_of_f32 v))
  | DT.Numeric _ _ => coerce_decimal_text (display_f32 v) t
  | DT.Domain _ => Ok (Text (display_f32 v))
  | _ => if takes_number_text t then Ok (Text (display_f32 v)) else unsupported_coercion (Float32 v)
  end.

Definition coerce_f64 (v : Z) (t : DataType) : PgWireResult ColumnValue :=
  match t with
  | DT.Float64 | DT.MySqlDouble _ => Ok (Float64 v)
  | DT.Int16 => if f64_outside (-2 ^ 15) (2 ^ 15 - 1) v then out_of_range (display_f64 v) "INT2"
                else Ok (Int16 (f64_as (-2 ^ 15) (2 ^ 15 - 1) v))
  | DT.Int32 => if f64_outside (-2 ^ 31) (2 ^ 31 - 1) v then out_of_range (display_f64 v) "INT4"
                else Ok (Int32 (f64_as (-2 ^ 31) (2 ^ 31 - 1) v))
  | DT.Int64 => Ok (Int64 (f64_as i64_min i64_max v))
  | DT.Float32 | DT.MySqlFloat _ => Ok (Float32 (f32_of_f64 v))
  | DT.Numeric _ _ => coerce_decimal_text (display_f64 v) t
  | DT.Domain _ => Ok (Text (display_f64 v))
  | _ => if takes_number_text t then Ok (Text (display_f64 v)) else unsupported_coercion (Float64 v)
  end.

Definition coerce_numeric (v : string) (t : DataType) : PgWireResult ColumnValue :=
  match t with
  | DT.Numeric _ _ => coerce_decimal_text v t
  | DT.Float64 =>
      match parse_f64 v with Some b => Ok (Float64 b) | None => invalid_input "22P02" "FLOAT8" v end
  | DT.MySqlDouble _ =>
      match parse_f64 v with Some b => Ok (Float64 b) | None => invalid_input "22P02" "DOUBLE" v end
  | DT.Float32 | DT.MySqlFloat _ =>
      match parse_f32 v with Some b => Ok (Float32 b) | None => invalid_input "22P02" "FLOAT4" v end
  | DT.Domain _ => Ok (Text v)
  | _ => if takes_number_text t then Ok (Text v) else unsupported_coercion (Numeric v)
  end.

Definition domain_text (v : ColumnValue) : PgWireResult ColumnValue :=
  match to_text display_f32 display_f64 v with
  | Some text => Ok (Text (of_bytes text))
  | None => user_error "0A000" "domain values cannot be NULL here"
  end.

(** A date, a time stamp or a UUID: kept by its own type, a text elsewhere. *)
Definition coerce_dated (keep : DataType -> option (PgWireResult ColumnValue)) (v : string)
    (self : ColumnValue) (t : DataType) : PgWireResult ColumnValue :=
  match keep t with
  | Some r => r
  | None =>
      if takes_date_text t then Ok (Text v)
      else match t with DT.Domain _ => Ok (Text v) | _ => unsupported_coercion self end
  end.

Definition coerce_boolean (v : bool) (t : DataType) : PgWireResult ColumnValue :=
  match t with
  | DT.Boolean => Ok (Boolean v)
  | DT.Domain _ => domain_text (Boolean v)
  | _ => if takes_number_text t then Ok (Text (if v then "true" else "false"))
         else unsupported_coercion (Boolean v)
  end.

Definition coerce_bytes (v : list byte) (t : DataType) : PgWireResult ColumnValue :=
  match t with
  | DT.Bytea => Ok (Bytea v)
  | DT.Binary limit => coerce_binary v limit
  | DT.VarBinary limit => coerce_varbinary v limit
  | DT.Blob max_len type_name => coerce_blob v max_len type_name
  | DT.Domain _ => domain_text (Bytea v)
  | _ => unsupported_coercion (Bytea v)
  end.

Definition coerce_json (v : string) (self : ColumnValue) (t : DataType) : PgWireResult ColumnValue :=
  match t with
  | DT.Json => Ok (Json v)
  | DT.Jsonb => Ok (Jsonb v)
  | DT.Domain _ => domain_text self
  | _ => unsupported_coercion self
  end.

(** Every arm but the one that coerces the elements of an array.  The arms for a text
    repeat those of [parse_text_for_type]. *)
Definition coerce_single (value : ColumnValue) (t : DataType) : PgWireResult ColumnValue :=
  match value with
  | Null => Ok Null
  | Int16 v | Int32 v | Int64 v => coerce_int v value t
  | Float32 v => coerce_f32 v t
  | Float64 v => coerce_f64 v t
  | Numeric v => coerce_numeric v t
  | Text v => parse_text_for_type t v
  | Boolean v => coerce_boolean v t
  | Date v => coerce_dated (fun t => match t with DT.Date => Some (Ok (Date v)) | _ => None end) v value t
  | Timestamp v =>
      coerce_dated (fun t => match t with
        | DT.Timestamp => Some (Ok (Timestamp v))
        | DT.MySqlDateTime fsp => Some (Timestamp <$> coerce_mysql_temporal v "DATETIME" fsp)
        | DT.MySqlTimestamp fsp => Some (Timestamp <$> coerce_mysql_temporal v "TIMESTAMP" fsp)
        | _ => None
        end) v value t
  | TimestampTz v =>
      coerce_dated (fun t => match t with DT.TimestampTz => Some (Ok (TimestampTz v)) | _ => None end) v value t
  | Uuid v => coerce_dated (fun t => match t with DT.Uuid => Some (Ok (Uuid v)) | _ => None end) v value t
  | Bytea v => coerce_bytes v t
  | Json v | Jsonb v => coerce_json v value t
  | Array _ => match t with DT.Domain _ => domain_text value | _ => unsupported_coercion value end
  end.

Fixpoint coerce_column_value (value : ColumnValue) (t : DataType) {struct t} : PgWireResult ColumnValue :=
  match t with
  | DT.MySqlInt kind unsigned => if is_null value then Ok Null else coerce_mysql_integer value kind unsigned
  | DT.Array inner =>
      match value with
      | Array values => Array <$> map_m (fun value => coerce_column_value value inner) values
      | _ => coerce_single value t
      end
  | _ => coerce_single value t
  end.
End Coercion.

(** ** The type of the answer *)

(** Integers within their widths. *)
Fixpoint ints_in_range (v : ColumnValue) : Prop :=
  match v with
  | Int16 z => in_signed 16 z
  | Int32 z => in_signed 32 z
  | Int64 z => in_signed 64 z
  | Array vs => foldr (fun v acc => ints_in_range v /\ acc) True vs
  | _ => True
  end.

Lemma ints_in_range_array (vs : list ColumnValue) :
  ints_in_range (Array vs) <-> Forall ints_in_range vs.
Proof.
  cbn. induction vs as [|v vs IH]; cbn; [by split|]. by rewrite Forall_cons, IH.
Qed.

Definition typed_value (t : DataType) (v : ColumnValue) : Prop :=
  LegacyCodec.cell_typed t v = true /\ ints_in_range v.

(** An answer is of the type, an error is any. *)
Definition answers_typed (t : DataType) (r : PgWireResult ColumnValue) : Prop :=
  forall v, r = Ok v -> typed_value t v.

Lemma answers_ok (t : DataType) (v : ColumnValue) : typed_value t v -> answers_typed t (Ok v).
Proof. by intros Hv w [= <-]. Qed.
Lemma answers_error (t : DataType) (code message : string) : answers_typed t (user_error code message).
Proof. intros v H. discriminate H. Qed.
Lemma answers_bind {A : Type} (t : DataType) (m : PgWireResult A) (k : A -> PgWireResult ColumnValue) :
  (forall a, m = Ok a -> answers_typed t (k a)) -> answers_typed t (m ≫= k).
Proof. intros Hk v Hv. apply bind_inv in Hv as (a & Ha & Hv). by apply (Hk a Ha v). Qed.
Lemma answers_fmap {A : Type} (t : DataType) (m : PgWireResult A) (f : A -> ColumnValue) :
  (forall a, m = Ok a -> typed_value t (f a)) -> answers_typed t (f <$> m).
Proof. intros Hf v Hv. destruct m; try discriminate Hv. injection Hv as <-. by apply Hf. Qed.

Lemma parse_i64_range (l : list byte) (z : Z) : parse_i64 l = Some z -> in_signed 64 z.
Proof.
  unfold parse_i64. destruct (match l with x2d :: r => _ | _ => _ end) as [neg ds].
  destruct (_ || _); [done|]. unfold i64_checked. destruct (_ && _) eqn:E; [|done]. intros [= <-].
  apply andb_true_iff in E. unfold i64_min, i64_max in E. width.
Qed.

Lemma parse_i32_range (l : list byte) (z : Z) : parse_i32 l = Some z -> in_signed 32 z.
Proof.
  unfold parse_i32. destruct (parse_i64 l) as [x|]; [|done]. cbn [mbind option_bind].
  destruct (_ && _) eqn:E; [|done]. intros [= <-]. apply andb_true_iff in E. width.
Qed.

Lemma parse_i16_range (l : list byte) (z : Z) : parse_i16 l = Some z -> in_signed 16 z.
Proof.
  unfold parse_i16. destruct (parse_i64 l) as [x|]; [|done]. cbn [mbind option_bind].
  destruct (_ && _) eqn:E; [|done]. intros [= <-]. apply andb_true_iff in E. width.
Qed.

Lemma trunc_clamped_range (lo hi : Z) (x : spec_float) : lo <= 0 <= hi -> lo <= trunc_clamped lo hi x <= hi.
Proof. destruct x as [s|s| |s m e]; cbn [trunc_clamped]; try (destruct s); lia. Qed.

Lemma mysql_integer_typed (z : Z) (kind : MySqlIntKind) (unsigned : bool) :
  answers_typed (DT.MySqlInt kind unsigned) (mysql_integer_from_i128 z kind unsigned).
Proof.
  unfold mysql_integer_from_i128.
  destruct kind, unsigned; cbn [mysql_integer_range];
    match goal with |- context [if ?c then _ else _] => destruct c eqn:E end;
    try apply answers_error; apply answers_ok; (split; [done|]); cbn; width.
Qed.

Lemma parse_mysql_integer_typed (raw : string) (kind : MySqlIntKind) (unsigned : bool) :
  answers_typed (DT.MySqlInt kind unsigned) (parse_mysql_integer raw kind unsigned).
Proof.
  unfold parse_mysql_integer. destruct (parse_i128 _); [apply mysql_integer_typed|apply answers_error].
Qed.

(** Splits a definition into its answers and closes the errors and the values whose type
    shows. *)
Ltac answers :=
  repeat match goal with
  | |- answers_typed _ (match ?x with _ => _ end) => destruct x eqn:?
  | |- answers_typed _ (_ ≫= _) => apply answers_bind; intros ? _
  | |- answers_typed _ (_ <$> _) => apply answers_fmap; intros ? _
  end;
  try apply answers_error; try (apply answers_ok; done); try done.

Lemma bits_value_range (bits : list byte) :
  forallb (fun b => bool_decide (b = x30 \/ b = x31)) bits = true ->
  0 <= bits_value bits < 2 ^ len bits.
Proof.
  unfold bits_value. intros Hb.
  assert (Hg : forall acc k, 0 <= k -> 0 <= acc < 2 ^ k ->
    0 <= foldl (fun acc b => 2 * acc + digit_value b) acc bits < 2 ^ (k + len bits)).
  { revert Hb. induction bits as [|b bits IH]; intros Hb acc k Hk Hacc; cbn [foldl].
    - unfold len. cbn. by rewrite Z.add_0_r.
    - cbn [forallb] in Hb. apply andb_true_iff in Hb as [Hd Hb]. apply bool_decide_eq_true in Hd.
      replace (k + len (b :: bits)) with (k + 1 + len bits) by (unfold len; cbn; lia).
      apply IH; [done|lia|]. rewrite Z.pow_add_r by lia.
      assert (digit_value b = 0 \/ digit_value b = 1) by (destruct Hd as [-> | ->]; [by left|by right]). lia. }
  specialize (Hg 0 0). cbn in Hg. apply Hg; lia.
Qed.

Lemma parse_u64_range (l : list byte) (z : Z) : parse_u64 l = Some z -> 0 <= z <= u64_max.
Proof.
  unfold parse_u64. destruct (_ || _) eqn:E; [done|]. apply orb_false_iff in E as [_ E].
  apply negb_false_iff in E. destruct (Z.leb_spec (digits_value match l with x2b :: r => r | _ => l end) u64_max) as [Hle|];
    [|done]. intros [= <-]. pose proof (digits_value_range _ E). lia.
Qed.

(** A BIT value fits its bits. *)
Lemma bit_value_fits (raw : string) (limit : option Z) (v : ColumnValue) :
  parse_bit_value raw limit = Ok v ->
  exists z, v = Int64 z /\ 0 <= z < 2 ^ Z.min (default 1 limit) 64 /\ z <= i64_max.
Proof.
  unfold parse_bit_value. intros Hv. apply bind_inv in Hv as (z & Hz & Hv).
  destruct (Z.ltb_spec i64_max z) as [|Hmax]; [discriminate|]. injection Hv as <-. exists z.
  split; [done|]. split; [|done].
  set (n := Z.min (default 1 limit) 64) in *.
  destruct (strip_prefix (as_bytes "b'") (as_bytes raw) ≫= strip_suffix [x27]) as [bits|].
  - destruct (Z.ltb_spec n (len bits)) as [|Hn]; [discriminate|]. cbn [orb] in Hz.
    destruct (forallb _ bits) eqn:Hb; [|discriminate]. cbn [negb] in Hz.
    assert (z = bits_value bits) as -> by (destruct bits; [discriminate|congruence]).
    pose proof (bits_value_range bits Hb).
    assert (2 ^ len bits <= 2 ^ n) by (apply Z.pow_le_mono_r; lia). lia.
  - destruct (parse_u64 (as_bytes raw)) as [u|] eqn:Hu; [|discriminate].
    apply parse_u64_range in Hu.
    destruct (Z.eqb_spec n 64) as [->|Hn64].
    + destruct (_ <? _); [discriminate|]. injection Hz as <-. unfold u64_max in Hu. lia.
    + destruct (Z.ltb_spec (2 ^ n - 1) u); [discriminate|]. injection Hz as <-. lia.
Qed.

Section Typed.
Context `{ValueTexts, SerdeJson}.

Lemma decimal_typed (raw : string) (t : DataType) :
  match t with DT.Numeric _ _ => True | _ => False end -> answers_typed t (coerce_decimal_text raw t).
Proof.
  destruct t; try done. intros _. unfold coerce_decimal_text.
  destruct (parse_f64 raw); [|apply answers_error]. apply answers_bind. intros _ _. by apply answers_ok.
Qed.

Lemma array_text_typed (inner : DataType) (parse : string -> PgWireResult ColumnValue) (raw : string) :
  (forall raw, answers_typed inner (parse raw)) -> answers_typed (DT.Array inner) (parse_array_text parse raw).
Proof.
  intros Hp. unfold parse_array_text.
  destruct (strip_prefix [x7b] (as_bytes raw) ≫= strip_suffix [x7d]) as [[|b body]|];
    [by apply answers_ok|cbn [mbind]|apply answers_error].
  apply answers_bind. intros items _. apply answers_fmap. intros vs Hvs.
  enough (Hall : Forall (typed_value inner) vs).
  { split.
    - cbn [LegacyCodec.cell_typed]. apply forallb_forall. intros v Hv. apply list_elem_of_In in Hv.
      by eapply Forall_forall in Hall as [Hv' _].
    - apply ints_in_range_array. eapply Forall_impl; [exact Hall|]. by intros ? []. }
  revert vs Hvs. induction items as [|item items IH]; intros vs Hvs; cbn [map_m] in Hvs.
  - injection Hvs as <-. constructor.
  - apply bind_inv in Hvs as (v & Hv & Hvs). apply bind_inv in Hvs as (rest & Hrest & [= <-]).
    constructor; [|by apply IH]. destruct item; [injection Hv as <-; by destruct inner|by apply (Hp _ _ Hv)].
Qed.

Lemma year_typed (raw : string) : answers_typed DT.Year (parse_year_value raw).
Proof.
  unfold parse_year_value. destruct (parse_i32 _) as [year|] eqn:Hy; [|apply answers_error].
  apply parse_i32_range in Hy. cbn zeta. destruct (_ || _) eqn:E; [|apply answers_error].
  apply answers_ok. split; [done|]. cbn [ints_in_range].
  destruct (_ && _) eqn:E1; [|destruct (_ && _) eqn:E2]; width.
Qed.

Lemma parse_text_typed (t : DataType) : forall raw : string, answers_typed t (parse_text_for_type t raw).
Proof.
  induction t; intros raw; cbn [parse_text_for_type];
    unfold parse_int16_text, parse_int32_text, parse_int64_text, parse_float32_text, parse_float64_text,
      parse_bool_text, coerce_mysql_text, coerce_varchar, coerce_char, coerce_blob, coerce_binary,
      coerce_varbinary, within_max_len, coerce_enum, coerce_set; answers.
  - apply answers_ok. split; [done|]. by apply parse_i16_range in Heqo.
  - apply answers_ok. split; [done|]. by apply parse_i32_range in Heqo.
  - apply answers_ok. split; [done|]. by apply parse_i64_range in Heqo.
  - apply parse_mysql_integer_typed.
  - by apply decimal_typed.
  - intros v Hv. apply bit_value_fits in Hv as (z & -> & Hz). split; [done|].
    cbn [ints_in_range]. unfold i64_max in Hz. width.
  - apply year_typed.
  - by apply array_text_typed.
Qed.

(** The arms by the value that is coerced. *)
Lemma coerce_int_typed (v : Z) (self : ColumnValue) (t : DataType) : in_signed 64 v ->
  answers_typed t (coerce_int v self t).
Proof.
  intros Hv. destruct t; cbn [coerce_int takes_number_text]; try (by apply answers_ok);
    try apply answers_error; try (by apply decimal_typed);
    destruct (_ && _) eqn:E; try apply answers_error; apply answers_ok; (split; [done|]); cbn; width.
Qed.

Lemma coerce_f32_typed (v : Z) (t : DataType) : answers_typed t (coerce_f32 v t).
Proof.
  destruct t; cbn [coerce_f32 takes_number_text]; try (by apply answers_ok); try apply answers_error;
    try (by apply decimal_typed); try (destruct (f32_outside _ _ _); [apply answers_error|]);
    apply answers_ok; (split; [done|]); cbn [ints_in_range]; unfold f32_as, i64_min, i64_max;
    match goal with |- in_signed _ (trunc_clamped ?lo ?hi ?x) =>
      pose proof (trunc_clamped_range lo hi x ltac:(lia)) end; width.
Qed.

Lemma coerce_f64_typed (v : Z) (t : DataType) : answers_typed t (coerce_f64 v t).
Proof.
  destruct t; cbn [coerce_f64 takes_number_text]; try (by apply answers_ok); try apply answers_error;
    try (by apply decimal_typed); try (destruct (f64_outside _ _ _); [apply answers_error|]);
    apply answers_ok; (split; [done|]); cbn [ints_in_range]; unfold f64_as, i64_min, i64_max;
    match goal with |- in_signed _ (trunc_clamped ?lo ?hi ?x) =>
      pose proof (trunc_clamped_range lo hi x ltac:(lia)) end; width.
Qed.

Lemma coerce_numeric_typed (v : string) (t : DataType) : answers_typed t (coerce_numeric v t).
Proof. destruct t; cbn [coerce_numeric takes_number_text]; answers; by apply decimal_typed. Qed.

Lemma coerce_mysql_integer_typed (v : ColumnValue) (kind : MySqlIntKind) (unsigned : bool) :
  answers_typed (DT.MySqlInt kind unsigned) (coerce_mysql_integer v kind unsigned).
Proof.
  destruct v; cbn [coerce_mysql_integer]; try apply answers_error; try apply mysql_integer_typed;
    apply parse_mysql_integer_typed.
Qed.

Lemma domain_typed (v : ColumnValue) (name : string) : answers_typed (DT.Domain name) (domain_text v).
Proof. unfold domain_text. answers. Qed.

Lemma in_signed_64 (w z : Z) : 0 < w <= 64 -> in_signed w z -> in_signed 64 z.
Proof.
  intros Hw Hz. unfold in_signed in *. assert (2 ^ (w - 1) <= 2 ^ (64 - 1)) by (apply Z.pow_le_mono_r; lia). lia.
Qed.

Lemma coerce_single_typed (v : ColumnValue) (t : DataType) : ints_in_range v ->
  (forall vs inner, v = Array vs -> t <> DT.Array inner) -> answers_typed t (coerce_single v t).
Proof.
  intros Hv Ha. destruct v; cbn [coerce_single ints_in_range] in *;
    try (apply coerce_int_typed;
      first [exact Hv|apply (in_signed_64 16); [lia|exact Hv]|apply (in_signed_64 32); [lia|exact Hv]]);
    try apply coerce_f32_typed; try apply coerce_f64_typed; try apply coerce_numeric_typed;
    try apply parse_text_typed;
    try (destruct t; apply answers_ok; split; [reflexivity|exact I]);
    unfold coerce_boolean, coerce_bytes, coerce_json, coerce_dated, coerce_binary, coerce_varbinary, coerce_blob,
        within_max_len; destruct t; cbn [takes_number_text takes_date_text];
    try apply domain_typed; answers.
Qed.

Lemma coerce_typed (t : DataType) : forall v : ColumnValue,
  ints_in_range v -> answers_typed t (coerce_column_value v t).
Proof.
  induction t; intros v Hv; cbn [coerce_column_value]; try (by apply coerce_single_typed).
  - destruct (is_null v) eqn:Hn; [destruct v; try discriminate; by apply answers_ok|].
    apply coerce_mysql_integer_typed.
  - destruct v; try (by apply coerce_single_typed).
    apply answers_fmap. intros vs Hvs. apply ints_in_range_array in Hv.
    enough (Hall : Forall (typed_value t) vs).
    { split.
      - cbn [LegacyCodec.cell_typed]. apply forallb_forall. intros v Hx. apply list_elem_of_In in Hx.
        by eapply Forall_forall in Hall as [Hv' _].
      - apply ints_in_range_array. eapply Forall_impl; [exact Hall|]. by intros ? []. }
    revert vs Hvs. induction Hv as [|v values Hv Hvals IHv]; intros vs Hvs; cbn [map_m] in Hvs.
    + injection Hvs as <-. constructor.
    + apply bind_inv in Hvs as (w & Hw & Hvs). apply bind_inv in Hvs as (rest & Hrest & [= <-]).
      constructor; [by apply (IHt v Hv)|by apply IHv].
Qed.
End Typed.

(** ** Dates *)

(** [width] decimal digits of [z]. *)
Fixpoint dec (width : nat) (z : Z) : list byte :=
  match width with O => [] | S width => dec width (z / 10) ++ [u8_of_Z (48 + z mod 10)] end.

Definition date_text (year month day : Z) : list byte :=
  dec 4 year ++ [x2d] ++ dec 2 month ++ [x2d] ++ dec 2 day.

(** A day of the proleptic Gregorian calendar in the years 1 to 9999. *)
Definition calendar_day (year month day : Z) : Prop :=
  1 <= year <= 9999 /\ 1 <= month <= 12 /\ 1 <= day <= month_days year month.

Lemma length_dec (width : nat) : forall z : Z, length (dec width z) = width.
Proof. induction width as [|w IH]; intros z; [done|]. cbn [dec]. rewrite length_app, IH. cbn. lia. Qed.

Lemma dec_digits (width : nat) : forall z : Z, forallb is_digit (dec width z) = true.
Proof.
  induction width as [|w IH]; intros z; [done|]. cbn [dec]. rewrite forallb_app, IH. cbn [forallb].
  pose proof (Z.mod_pos_bound z 10 ltac:(lia)). unfold is_digit. rewrite u8_to_of.
  rewrite Z.mod_small by lia. rewrite andb_true_r. cbn [andb]. apply andb_true_iff. lia.
Qed.

Lemma digits_value_dec (width : nat) : forall z : Z, 0 <= z < 10 ^ Z.of_nat width -> digits_value (dec width z) = z.
Proof.
  induction width as [|w IH]; intros z Hz; cbn [dec].
  - cbn in Hz. assert (z = 0) as -> by lia. done.
  - rewrite digits_value_app, IH.
    + unfold len. cbn [length]. rewrite digits_value_cons. unfold len. cbn [length].
      unfold digit_value. rewrite u8_to_of. pose proof (Z.mod_pos_bound z 10 ltac:(lia)).
      rewrite (Z.mod_small (48 + _)) by lia. change (digits_value []) with 0.
      pose proof (Z.div_mod z 10 ltac:(lia)). change (10 ^ Z.of_nat 1) with 10. change (10 ^ Z.of_nat 0) with 1. lia.
    + rewrite Nat2Z.inj_succ, Z.pow_succ_r in Hz by lia.
      split; [apply Z.div_pos; lia|apply Z.div_lt_upper_bound; lia].
Qed.

Lemma dec_digits_value (ds : list byte) : forallb is_digit ds = true -> dec (length ds) (digits_value ds) = ds.
Proof.
  induction ds as [|b ds IH] using rev_ind; intros Hd; [done|].
  rewrite forallb_app in Hd. apply andb_true_iff in Hd as [Hd Hb]. cbn [forallb] in Hb.
  rewrite andb_true_r in Hb. rewrite length_app. cbn [length]. rewrite Nat.add_1_r. cbn [dec].
  rewrite digits_value_app. unfold len. cbn [length]. change (10 ^ Z.of_nat 1) with 10.
  assert (Hv : digits_value [b] = digit_value b) by (unfold digits_value; cbn; lia). rewrite Hv.
  pose proof (is_digit_range b Hb) as Hr.
  rewrite Z.add_comm, Z.div_add, Z.mod_add by lia. rewrite (Z.div_small (digit_value b)), (Z.mod_small (digit_value b)) by lia.
  rewrite Z.add_0_l, IH by done. do 2 f_equal. apply u8_to_Z_inj. rewrite u8_to_of. unfold digit_value.
  pose proof (u8_to_Z_range b). rewrite Z.mod_small; lia.
Qed.

Lemma parse_i64_digits (ds : list byte) : ds <> [] -> forallb is_digit ds = true -> digits_value ds <= i64_max ->
  parse_i64 ds = Some (digits_value ds).
Proof.
  intros Hn Hd Hv. unfold parse_i64.
  assert (match ds with x2d :: r => (true, r) | x2b :: r => (false, r) | _ => (false, ds) end = (false, ds)) as ->.
  { destruct ds as [|b r]; [done|]. cbn [forallb] in Hd. apply andb_true_iff in Hd as [Hb _].
    destruct b; try done; discriminate Hb. }
  rewrite bool_decide_eq_false_2 by done. rewrite Hd. cbn [negb orb]. unfold i64_checked.
  pose proof (digits_value_range ds Hd). rewrite (proj2 (andb_true_iff _ _)); [done|].
  unfold i64_min. split; apply Z.leb_le; lia.
Qed.

Lemma parse_u64_digits (ds : list byte) : ds <> [] -> forallb is_digit ds = true -> digits_value ds <= u64_max ->
  parse_u64 ds = Some (digits_value ds).
Proof.
  intros Hn Hd Hv. unfold parse_u64.
  assert (match ds with x2b :: r => r | _ => ds end = ds) as ->.
  { destruct ds as [|b r]; [done|]. cbn [forallb] in Hd. apply andb_true_iff in Hd as [Hb _].
    destruct b; try done; discriminate Hb. }
  rewrite bool_decide_eq_false_2 by done. rewrite Hd. cbn [negb orb]. by rewrite (proj2 (Z.leb_le _ _)).
Qed.

(** The ten bytes of a dated text. *)
Lemma dated_split (l : list byte) : dated l = true <->
  exists y m d, l = y ++ [x2d] ++ m ++ [x2d] ++ d /\ length y = 4%nat /\ length m = 2%nat /\ length d = 2%nat /\
    forallb is_digit y = true /\ forallb is_digit m = true /\ forallb is_digit d = true.
Proof.
  split.
  - unfold dated. intros [[[Hl H4]%andb_true_iff H7]%andb_true_iff Ha]%andb_true_iff.
    apply Nat.eqb_eq in Hl. apply bool_decide_eq_true in H4, H7.
    do 10 (destruct l as [|? l]; [discriminate Hl|]). destruct l; [|discriminate Hl].
    cbn in H4, H7. injection H4 as ->. injection H7 as ->.
    cbn in Ha. repeat (apply andb_true_iff in Ha as [? Ha]). unfold id in *. clear Ha.
    exists [b; b0; b1; b2], [b4; b5], [b7; b8]. cbn [forallb].
    repeat match goal with Hx : is_digit _ = true |- _ => rewrite Hx; clear Hx end. by split_and!.
  - intros (y & m & d & -> & Hy & Hm & Hd & Dy & Dm & Dd).
    do 4 (destruct y as [|? y]; [discriminate Hy|]). destruct y; [|discriminate Hy].
    do 2 (destruct m as [|? m]; [discriminate Hm|]). destruct m; [|discriminate Hm].
    do 2 (destruct d as [|? d]; [discriminate Hd|]). destruct d; [|discriminate Hd].
    cbn in Dy, Dm, Dd. repeat (apply andb_true_iff in Dy as [? Dy]).
    repeat (apply andb_true_iff in Dm as [? Dm]). repeat (apply andb_true_iff in Dd as [? Dd]).
    unfold dated, all_indexed. cbn [app length imap forallb Nat.eqb orb andb]. unfold id, compose.
    cbn [imap forallb Nat.eqb orb andb].
    repeat match goal with Hx : is_digit _ = true |- _ => rewrite Hx; clear Hx end. done.
Qed.

Lemma date_parts (y m d : list byte) :
  length y = 4%nat -> length m = 2%nat -> length d = 2%nat ->
  forallb is_digit y = true -> forallb is_digit m = true -> forallb is_digit d = true ->
  let l := y ++ [x2d] ++ m ++ [x2d] ++ d in
  parse_i32 (slice l 0 4) = Some (digits_value y) /\ parse_u32 (slice l 5 7) = Some (digits_value m) /\
  parse_u32 (slice l 8 10) = Some (digits_value d) /\
  0 <= digits_value y <= 9999 /\ 0 <= digits_value m <= 99 /\ 0 <= digits_value d <= 99.
Proof.
  intros Hy Hm Hd Dy Dm Dd. cbn zeta.
  assert (slice (y ++ [x2d] ++ m ++ [x2d] ++ d) 0 4 = y /\ slice (y ++ [x2d] ++ m ++ [x2d] ++ d) 5 7 = m /\
          slice (y ++ [x2d] ++ m ++ [x2d] ++ d) 8 10 = d) as (-> & -> & ->).
  { do 4 (destruct y as [|? y]; [discriminate Hy|]). destruct y; [|discriminate Hy].
    do 2 (destruct m as [|? m]; [discriminate Hm|]). destruct m; [|discriminate Hm].
    do 2 (destruct d as [|? d]; [discriminate Hd|]). by destruct d; [|discriminate Hd]. }
  pose proof (digits_value_range y Dy) as Ry. pose proof (digits_value_range m Dm) as Rm.
  pose proof (digits_value_range d Dd) as Rd. unfold len in Ry, Rm, Rd. rewrite Hy in Ry. rewrite Hm in Rm.
  rewrite Hd in Rd. change (10 ^ Z.of_nat 4) with 10000 in Ry. change (10 ^ Z.of_nat 2) with 100 in Rm, Rd.
  unfold parse_i32, parse_u32.
  rewrite parse_i64_digits, !parse_u64_digits by first [done|by intros ->|unfold i64_max, u64_max; lia].
  cbn [mbind option_bind]. unfold u32_max.
  rewrite !(proj2 (Z.leb_le _ _)), (proj2 (Z.ltb_lt _ _)) by lia. cbn [andb]. split_and!; (done || lia).
Qed.

Lemma month_days_range (year month : Z) : 0 <= month_days year month <= 31.
Proof. unfold month_days. repeat case_match; lia. Qed.

(** The three slices of a dated text are inside it and between characters. *)
Lemma dated_slices (l : list byte) : dated l = true ->
  str_slice l 0 4 = Ok (slice l 0 4) /\ str_slice l 5 7 = Ok (slice l 5 7) /\
  str_slice l 8 10 = Ok (slice l 8 10).
Proof.
  intros (y & m & d & -> & Hy & Hm & Hd & Dy & Dm & Dd)%dated_split.
  do 4 (destruct y as [|? y]; [discriminate Hy|]). destruct y; [|discriminate Hy].
  do 2 (destruct m as [|? m]; [discriminate Hm|]). destruct m; [|discriminate Hm].
  do 2 (destruct d as [|? d]; [discriminate Hd|]). destruct d; [|discriminate Hd].
  assert (Hc : forall x, is_digit x = true -> utf8_cont x = false).
  { intros x. unfold is_digit, utf8_cont. lia. }
  cbn [forallb] in Dy, Dm, Dd. repeat (apply andb_true_iff in Dy as [? Dy]).
  repeat (apply andb_true_iff in Dm as [? Dm]). repeat (apply andb_true_iff in Dd as [? Dd]).
  unfold str_slice, is_char_boundary. cbn [app length lookup list_lookup Nat.leb andb Nat.eqb].
  by rewrite (Hc b), (Hc b3), (Hc b5) by done.
Qed.

Lemma validate_date_eq (l : list byte) :
  validate_date l =
  if negb (dated l) then invalid_value "22007" "DATE" (of_bytes l)
  else match parse_i32 (slice l 0 4), parse_u32 (slice l 5 7), parse_u32 (slice l 8 10) with
  | Some year, Some month, Some day =>
      if (year =? 0) || negb ((1 <=? month) && (month <=? 12)) then invalid_value "22007" "DATE" (of_bytes l)
      else if (day =? 0) || (month_days year month <? day) then invalid_value "22007" "DATE" (of_bytes l)
      else Ok tt
  | _, _, _ => invalid_value "22007" "DATE" (of_bytes l)
  end.
Proof.
  unfold validate_date. destruct (dated l) eqn:Hd; cbn [negb]; [|done].
  destruct (dated_slices l Hd) as (-> & -> & ->). rewrite bind_ok.
  destruct (parse_i32 _); [|done]. rewrite bind_ok. destruct (parse_u32 _); [|done]. rewrite bind_ok.
  by destruct (parse_u32 _).
Qed.

(** A refused date is the error 22007 about it, never a panic. *)
Lemma validate_date_settles (l : list byte) :
  validate_date l = Ok tt \/ validate_date l = invalid_value "22007" "DATE" (of_bytes l).
Proof. rewrite validate_date_eq. repeat case_match; auto. Qed.

Lemma validate_date_spec (l : list byte) :
  validate_date l = Ok tt <-> exists year month day, calendar_day year month day /\ l = date_text year month day.
Proof.
  rewrite validate_date_eq. split.
  - destruct (dated l) eqn:Hd; cbn [negb]; [|discriminate].
    apply dated_split in Hd as (y & m & d & -> & Hy & Hm & Hd & Dy & Dm & Dd).
    destruct (date_parts y m d Hy Hm Hd Dy Dm Dd) as (-> & -> & -> & Ry & Rm & Rd).
    destruct (Z.eqb_spec (digits_value y) 0) as [|Hy0]; [discriminate|]. cbn [orb].
    destruct (_ && _) eqn:Em; [|discriminate]. apply andb_true_iff in Em as [Em1 Em2]. cbn [negb].
    destruct (Z.eqb_spec (digits_value d) 0) as [|Hd0]; [discriminate|]. cbn [orb].
    destruct (Z.ltb_spec (month_days (digits_value y) (digits_value m)) (digits_value d)) as [|Hday]; [discriminate|].
    intros _. exists (digits_value y), (digits_value m), (digits_value d). split; [split; lia|].
    unfold date_text. pose proof (dec_digits_value y Dy) as Ey. pose proof (dec_digits_value m Dm) as Em.
    pose proof (dec_digits_value d Dd) as Ed. rewrite Hy in Ey. rewrite Hm in Em. rewrite Hd in Ed.
    by rewrite Ey, Em, Ed.
  - intros (year & month & day & (Hy & Hm & Hd) & ->). pose proof (month_days_range year month) as Hr.
    assert (Ha : dated (date_text year month day) = true).
    { apply dated_split. exists (dec 4 year), (dec 2 month), (dec 2 day).
      rewrite !length_dec, !dec_digits. done. }
    rewrite Ha. cbn [negb]. unfold date_text.
    destruct (date_parts (dec 4 year) (dec 2 month) (dec 2 day)) as (-> & -> & -> & _);
      try (by rewrite ?length_dec, ?dec_digits).
    rewrite !digits_value_dec by (cbn; lia).
    destruct (Z.eqb_spec year 0); [lia|]. destruct (Z.eqb_spec day 0); [lia|]. cbn [orb].
    rewrite (proj2 (andb_true_iff _ _)) by lia. cbn [negb]. by rewrite (proj2 (Z.ltb_ge _ _)) by lia.
Qed.

(** ** The limits of a type *)

(** What the type says of a value that came from a text. *)
Fixpoint value_fits (t : DataType) (v : ColumnValue) : Prop :=
  match t, v with
  | DT.MySqlInt kind unsigned, _ =>
      exists z, (mysql_integer_range kind unsigned).1.1 <= z <= (mysql_integer_range kind unsigned).1.2 /\
        (v = Int16 z \/ v = Int32 z \/ v = Int64 z \/ v = Numeric (pretty z))
  | DT.VarChar (Some n), Text s => char_count (as_bytes s) <= n
  | DT.Char (Some n), Text s => char_count (as_bytes s) = n
  | DT.Binary n, Bytea l => len l = default 1 n
  | DT.VarBinary (Some n), Bytea l => len l <= n
  | DT.Blob (Some n) _, Bytea l => len l <= n
  | DT.MySqlText (Some n) _, Text s => len (as_bytes s) <= n
  | DT.Bit n, Int64 z => 0 <= z < 2 ^ Z.min (default 1 n) 64
  | DT.Year, Int32 z => z = 0 \/ 1901 <= z <= 2155
  | DT.Enum values, Text s => s ∈ values
  | DT.Set_ values, Text s =>
      s = ""%string \/
      let items := map of_bytes (split_on x2c (as_bytes s)) in Forall (fun i => i ∈ values) items /\ NoDup items
  | DT.Date, Date s =>
      exists year month day, calendar_day year month day /\ as_bytes s = date_text year month day
  | DT.Timestamp, Timestamp s | DT.TimestampTz, TimestampTz s =>
      exists year month day rest,
        calendar_day year month day /\ as_bytes s = date_text year month day ++ rest
  | DT.Uuid, Uuid s => length (as_bytes s) = 36%nat /\ to_ascii_lowercase s = s
  | DT.Array inner, Array vs => foldr (fun v acc => (v = Null \/ value_fits inner v) /\ acc) True vs
  | _, _ => True
  end.

Lemma set_items_spec (allowed items : list string) : forall seen,
  set_items allowed seen items = true ->
  Forall (fun i => i ∈ allowed) items /\ NoDup items /\ Forall (fun i => i ∉ seen) items.
Proof.
  induction items as [|item items IH]; intros seen; cbn [set_items]; [by repeat constructor|].
  intros [[Ha Hs]%andb_true_iff Hr]%andb_true_iff. apply bool_decide_eq_true in Ha.
  apply negb_true_iff, bool_decide_eq_false in Hs. destruct (IH _ Hr) as (Hall & Hnd & Hns).
  split_and!; [by constructor| |].
  - constructor; [|done]. intros Hi. rewrite Forall_forall in Hns. apply (Hns item Hi). by left.
  - constructor; [done|]. eapply Forall_impl; [exact Hns|]. intros i Hi Hin. apply Hi. by right.
Qed.

Lemma char_count_app (l r : list byte) : char_count (l ++ r) = char_count l + char_count r.
Proof. unfold char_count, len. rewrite List.filter_app, length_app. lia. Qed.

Lemma char_count_spaces (n : nat) : char_count (replicate n x20) = Z.of_nat n.
Proof.
  induction n as [|n IH]; [done|]. change (replicate (S n) x20) with ([x20] ++ replicate n x20).
  rewrite char_count_app, IH. change (char_count [x20]) with 1. lia.
Qed.

Lemma validate_timestamp_spec (raw : string) : validate_timestamp raw = Ok tt ->
  exists year month day rest, calendar_day year month day /\ as_bytes raw = date_text year month day ++ rest.
Proof.
  unfold validate_timestamp. destruct (10 <=? length (as_bytes raw))%nat; [|discriminate].
  intros Hv. apply bind_inv in Hv as (date & Hs & Hv). unfold str_slice in Hs.
  destruct (_ && _); [|discriminate]. injection Hs as <-. unfold slice in Hv. rewrite drop_0 in Hv.
  apply validate_date_spec in Hv as (y & m & d & Hday & Hd).
  exists y, m, d, (drop 10 (as_bytes raw)). split; [done|]. by rewrite <- Hd, take_drop.
Qed.

Section Fits.
Context `{ValueTexts, SerdeJson}.

Lemma mysql_integer_fits (z : Z) (kind : MySqlIntKind) (unsigned : bool) (v : ColumnValue) :
  mysql_integer_from_i128 z kind unsigned = Ok v -> value_fits (DT.MySqlInt kind unsigned) v.
Proof.
  unfold mysql_integer_from_i128. intros Hv. cbn [value_fits]. exists z.
  destruct kind, unsigned; cbn [mysql_integer_range fst snd] in *;
    match type of Hv with context [if ?c then _ else _] => destruct c eqn:E end; try discriminate Hv;
    injection Hv as <-; (split; [lia|tauto]).
Qed.

Lemma fits_fmap {A : Type} (m : PgWireResult A) (f : A -> ColumnValue) (v : ColumnValue) :
  f <$> m = Ok v -> exists a, m = Ok a /\ v = f a.
Proof. destruct m; try discriminate. intros [= <-]. by eexists. Qed.

Lemma parse_text_fits (t : DataType) : forall (raw : string) (v : ColumnValue),
  parse_text_for_type t raw = Ok v -> value_fits t v.
Proof.
  induction t; intros raw v; cbn [parse_text_for_type];
    try (intros Hv; cbn [value_fits]; destruct v; exact I).
  - unfold parse_mysql_integer. destruct (parse_i128 _); [apply mysql_integer_fits|discriminate].
  - unfold coerce_mysql_text, within_max_len. destruct max_len as [m|]; [|by intros [= <-]].
    destruct (Z.ltb_spec m (len (as_bytes raw))); [discriminate|]. by intros [= <-].
  - unfold coerce_varchar. destruct n as [n|]; [|by intros [= <-]].
    destruct (Z.ltb_spec n (char_count (as_bytes raw))); [discriminate|]. by intros [= <-].
  - unfold coerce_char. destruct n as [n|]; [|by intros [= <-]].
    destruct (Z.ltb_spec n (char_count (as_bytes raw))); [discriminate|]. intros [= <-]. cbn [value_fits].
    rewrite as_of_bytes, char_count_app, char_count_spaces. lia.
  - intros (bytes & _ & Hv)%bind_inv. unfold coerce_binary in Hv.
    destruct (Z.ltb_spec (default 1 n) (len bytes)); [discriminate|]. injection Hv as <-. cbn [value_fits].
    unfold len in *. rewrite length_app, length_replicate. lia.
  - intros (bytes & _ & Hv)%bind_inv. unfold coerce_varbinary in Hv. destruct n as [n|]; [|by injection Hv as <-].
    destruct (Z.ltb_spec n (len bytes)); [discriminate|]. by injection Hv as <-.
  - intros (bytes & _ & Hv)%bind_inv. unfold coerce_blob, within_max_len in Hv.
    destruct max_len as [m|]; [|by injection Hv as <-].
    destruct (Z.ltb_spec m (len bytes)); [discriminate|]. by injection Hv as <-.
  - intros (z & -> & Hz & _)%bit_value_fits. done.
  - unfold parse_year_value. destruct (parse_i32 _) as [year|]; [|discriminate]. cbn zeta.
    destruct (_ || _) eqn:E; [|discriminate]. intros [= <-]. cbn [value_fits].
    apply orb_true_iff in E as [E|E]; [left|right]; lia.
  - intros (u & Hu & [= <-])%bind_inv. cbn [value_fits]. destruct u. by apply validate_date_spec.
  - intros (u & Hu & [= <-])%bind_inv. cbn [value_fits]. destruct u. by apply validate_timestamp_spec.
  - intros (u & Hu & [= <-])%bind_inv. cbn [value_fits]. destruct u. by apply validate_timestamp_spec.
  - intros (u & Hu & [= <-])%bind_inv. cbn [value_fits]. unfold validate_uuid in Hu.
    destruct ((length (as_bytes raw) =? 36)%nat) eqn:Hl; [|discriminate]. apply Nat.eqb_eq in Hl.
    split; [|by rewrite to_ascii_lowercase_idem]. unfold to_ascii_lowercase.
    rewrite as_of_bytes, length_map. done.
  - unfold parse_array_text.
    destruct (strip_prefix [x7b] (as_bytes raw) ≫= strip_suffix [x7d]) as [[|b body]|]; [by intros [= <-]| |discriminate].
    intros (items & _ & Hv)%bind_inv. apply fits_fmap in Hv as (vs & Hvs & ->). cbn [value_fits].
    revert vs Hvs. induction items as [|item items IHi]; intros vs Hvs; cbn [map_m] in Hvs.
    + by injection Hvs as <-.
    + apply bind_inv in Hvs as (w & Hw & Hvs). apply bind_inv in Hvs as (rest & Hrest & [= <-]).
      cbn [foldr]. split; [|by apply IHi]. destruct item; [left; by injection Hw as <-|right; by apply (IHt _ _ Hw)].
  - unfold coerce_enum. destruct (bool_decide _) eqn:E; [|discriminate]. intros [= <-].
    by apply bool_decide_eq_true in E.
  - unfold coerce_set. destruct (bool_decide (raw = "")) eqn:E.
    + intros [= <-]. left. by apply bool_decide_eq_true in E.
    + destruct (set_items _ _ _) eqn:Es; [|discriminate]. intros [= <-]. right.
      apply set_items_spec in Es as (Ha & Hn & _). by split.
Qed.

Lemma coerce_text (raw : string) (t : DataType) : coerce_column_value (Text raw) t = parse_text_for_type t raw.
Proof. by destruct t. Qed.
End Fits.

(** ** Decimal integers read back *)

(** The sign and the digits of a printed integer. *)
Lemma pretty_signed (z : Z) : exists ds, forallb is_digit ds = true /\ ds <> [] /\ digits_value ds = Z.abs z /\
  as_bytes (pretty z) = if z <? 0 then x2d :: ds else ds.
Proof.
  destruct (Z.ltb_spec z 0) as [Hz|Hz].
  - destruct (pretty_digits (- z)) as (Hd & Hv & Hn); [lia|]. exists (as_bytes (pretty (- z))).
    split_and!; [done|done|lia|]. by destruct z.
  - destruct (pretty_digits z Hz) as (Hd & Hv & Hn). exists (as_bytes (pretty z)). split_and!; [done|done|lia|done].
Qed.

(** The sign a parser strips off a digit string, or a negated one. *)
Lemma sign_of_digits (ds : list byte) : forallb is_digit ds = true ->
  match ds with x2d :: r => (true, r) | x2b :: r => (false, r) | _ => (false, ds) end = (false, ds).
Proof.
  destruct ds as [|b r]; [done|]. cbn [forallb]. intros [Hb _]%andb_true_iff.
  destruct b; try done; discriminate Hb.
Qed.

Lemma parse_i64_pretty (z : Z) : in_signed 64 z -> parse_i64 (as_bytes (pretty z)) = Some z.
Proof.
  intros Hz. destruct (pretty_signed z) as (ds & Hd & Hn & Hv & ->). unfold parse_i64.
  destruct (Z.ltb_spec z 0); [|rewrite sign_of_digits by done];
    rewrite bool_decide_eq_false_2 by done; rewrite Hd, Hv; cbn [negb orb]; unfold i64_checked;
    rewrite (proj2 (andb_true_iff _ _)); try (f_equal; lia);
    unfold i64_min, i64_max; (split; apply Z.leb_le; width).
Qed.

Lemma parse_i128_pretty (z : Z) : -2 ^ 127 <= z < 2 ^ 127 -> parse_i128 (as_bytes (pretty z)) = Some z.
Proof.
  intros Hz. destruct (pretty_signed z) as (ds & Hd & Hn & Hv & ->). unfold parse_i128.
  destruct (Z.ltb_spec z 0); [|rewrite sign_of_digits by done];
    rewrite bool_decide_eq_false_2 by done; rewrite Hd, Hv; cbn [negb orb];
    rewrite (proj2 (andb_true_iff _ _)) by lia; f_equal; lia.
Qed.

(** ** Arrays as text read back *)

Definition is_special (b : byte) : bool := bool_decide (b ∈ [x2c; x7b; x7d; x22; x5c]).

(** An item that is written bare. *)
Definition bare (l : list byte) : bool :=
  negb (bool_decide (l = [])) && negb (existsb is_special l) && negb (has_whitespace l).

Lemma escape_array_text_eq (l : list byte) : escape_array_text l =
  if bare l then l
  else [x22] ++ flat_map (fun b => if bool_decide (b ∈ [x5c; x22]) then [x5c; b] else [b]) l ++ [x22].
Proof.
  unfold escape_array_text, bare. change (fun b => bool_decide (b ∈ _)) with is_special at 1.
  by destruct (bool_decide (l = [])), (existsb is_special l), (has_whitespace l).
Qed.

Lemma no_whitespace_drop (l : list byte) : forall n : nat, has_whitespace l = false -> whitespace_at (drop n l) = 0%nat.
Proof.
  induction l as [|b l IH]; intros n Hw; [by rewrite drop_nil|].
  assert (whitespace_at (b :: l) = 0%nat /\ has_whitespace l = false) as [Hb Hl].
  { cbn [has_whitespace] in Hw. apply orb_false_iff in Hw as [Hb Hl].
    apply negb_false_iff, Nat.eqb_eq in Hb. done. }
  destruct n as [|n]; [done|]. cbn [drop]. by apply IH.
Qed.

Lemma trim_no_whitespace (l : list byte) : has_whitespace l = false -> trim l = l.
Proof.
  intros Hw. assert (Hs : trim_start l = l).
  { unfold trim_start. destruct (length l) as [|n]; [done|]. cbn [trim_start_fuel].
    pose proof (no_whitespace_drop l 0 Hw) as H0. rewrite drop_0 in H0. by rewrite H0. }
  unfold trim. rewrite Hs. unfold trim_end. destruct (length l) as [|n] eqn:Hn; [done|].
  cbn [trim_end_fuel]. unfold whitespace_before. cbn zeta. rewrite !no_whitespace_drop by done. done.
Qed.

Definition items_at (items : list ArrayItem) (current : list byte) (in_quotes quoted escaped : bool) : ItemState :=
  {| it_items := items; it_current := current; it_in_quotes := in_quotes; it_quoted := quoted;
     it_escaped := escaped; it_depth := 0 |}.

Lemma special_false (b c : byte) : is_special b = false -> c ∈ [x2c; x7b; x7d; x22; x5c] -> is_byte c b = false.
Proof.
  unfold is_special, is_byte. intros Hs Hc. apply bool_decide_eq_false in Hs. apply bool_decide_eq_false.
  by intros ->.
Qed.

(** Plain bytes are taken as they are, quoted or not. *)
Lemma item_step_plain (raw : string) (items : list ArrayItem) (current : list byte) (q q' : bool) (b : byte) :
  is_special b = false ->
  item_step raw (items_at items current q q' false) b = Ok (items_at items (current ++ [b]) q q' false).
Proof.
  intros Hs. unfold item_step, items_at. cbn [it_escaped it_in_quotes it_depth].
  rewrite !(special_false b) by first [done|set_solver]. by destruct q.
Qed.

Lemma steps_bare (raw : string) (items : list ArrayItem) (l : list byte) : forall current rest,
  existsb is_special l = false ->
  fold_m (item_step raw) (items_at items current false false false) (l ++ rest) =
  fold_m (item_step raw) (items_at items (current ++ l) false false false) rest.
Proof.
  induction l as [|b l IH]; intros current rest Hl; [by rewrite app_nil_r|].
  cbn [existsb] in Hl. apply orb_false_iff in Hl as [Hb Hl]. cbn [app fold_m].
  rewrite item_step_plain, bind_ok by done. rewrite IH by done. by rewrite <- app_assoc.
Qed.

Lemma item_step_quoted (raw : string) (items : list ArrayItem) (current : list byte) (b : byte) :
  b ∉ [x5c; x22] ->
  item_step raw (items_at items current true true false) b = Ok (items_at items (current ++ [b]) true true false).
Proof.
  intros Hb. unfold item_step, items_at, is_byte. cbn [it_escaped it_in_quotes it_depth].
  by rewrite !bool_decide_eq_false_2 by set_solver.
Qed.

Lemma steps_escaped (raw : string) (items : list ArrayItem) (l : list byte) : forall current rest,
  fold_m (item_step raw) (items_at items current true true false)
    (flat_map (fun b => if bool_decide (b ∈ [x5c; x22]) then [x5c; b] else [b]) l ++ rest) =
  fold_m (item_step raw) (items_at items (current ++ l) true true false) rest.
Proof.
  induction l as [|b l IH]; intros current rest; [by rewrite app_nil_r|].
  cbn [flat_map]. rewrite <- app_assoc.
  destruct (bool_decide (b ∈ [x5c; x22])) eqn:Hb; cbn [app fold_m].
  - change (item_step raw (items_at items current true true false) x5c) with
      (Ok (E := pg_error) (items_at items current true true true)). rewrite bind_ok.
    change (item_step raw (items_at items current true true true) b) with
      (Ok (E := pg_error) (items_at items (current ++ [b]) true true false)).
    by rewrite bind_ok, IH, <- app_assoc.
  - apply bool_decide_eq_false in Hb. rewrite item_step_quoted, bind_ok by done. by rewrite IH, <- app_assoc.
Qed.

(** An item's text, bare or quoted, up to the end of the item. *)
Lemma steps_item (raw : string) (items : list ArrayItem) (l rest : list byte) :
  exists quoted,
    fold_m (item_step raw) (items_at items [] false false false) (escape_array_text l ++ rest) =
    fold_m (item_step raw) (items_at items l false quoted false) rest /\
    (eq_ignore_ascii_case l (as_bytes "NULL") = false -> array_item_from_text l quoted = ItemValue l).
Proof.
  rewrite escape_array_text_eq. destruct (bare l) eqn:Hb.
  - unfold bare in Hb. apply andb_true_iff in Hb as [[_ Hs]%andb_true_iff Hw].
    apply negb_true_iff in Hs, Hw. exists false. split; [by rewrite steps_bare|].
    intros Hn. unfold array_item_from_text. by rewrite trim_no_whitespace, Hn.
  - exists true. split; [|done]. rewrite <- !app_assoc. cbn [app fold_m].
    change (item_step raw (items_at items [] false false false) x22) with
      (Ok (E := pg_error) (items_at items [] true true false)). rewrite bind_ok, steps_escaped.
    reflexivity.
Qed.

Section ArrayText.
Context `{ValueTexts} (parse : string -> PgWireResult ColumnValue).

(** An element whose text reads back. *)
Definition reads_back (v : ColumnValue) : Prop :=
  v = Null \/
  exists text, to_text display_f32 display_f64 v = Some text /\
    eq_ignore_ascii_case text (as_bytes "NULL") = false /\ parse (of_bytes text) = Ok v.

Definition element_text (v : ColumnValue) : list byte :=
  match to_text display_f32 display_f64 v with Some t => escape_array_text t | None => as_bytes "NULL" end.

Definition item_parse (item : ArrayItem) : PgWireResult ColumnValue :=
  match item with ItemNull => Ok Null | ItemValue value => parse (of_bytes value) end.

(** The state after an element's text. *)
Lemma steps_element (raw : string) (v : ColumnValue) (items : list ArrayItem) (rest : list byte) : reads_back v ->
  exists current quoted,
    fold_m (item_step raw) (items_at items [] false false false) (element_text v ++ rest) =
    fold_m (item_step raw) (items_at items current false quoted false) rest /\
    item_parse (array_item_from_text current quoted) = Ok v.
Proof.
  intros [->|(text & Ht & Hn & Hp)]; unfold element_text.
  - exists (as_bytes "NULL"), false. split; [|done]. cbn [to_text]. by rewrite steps_bare.
  - rewrite Ht. destruct (steps_item raw items text rest) as (quoted & Hs & Hi).
    exists text, quoted. by rewrite Hi.
Qed.

Lemma steps_elements (raw : string) (vs : list ColumnValue) : forall (v : ColumnValue) (items : list ArrayItem),
  Forall reads_back (v :: vs) ->
  exists items', (st ← fold_m (item_step raw) (items_at items [] false false false)
                     (join_bytes [x2c] (map element_text (v :: vs))); item_end raw st) = Ok (items ++ items') /\
    map_m item_parse items' = Ok (v :: vs).
Proof.
  induction vs as [|w vs IH]; intros v items [Hv Hvs]%Forall_cons.
  - cbn [map join_bytes]. destruct (steps_element raw v items [] Hv) as (current & quoted & Hs & Hp).
    rewrite app_nil_r in Hs. rewrite Hs. cbn [fold_m]. exists [array_item_from_text current quoted].
    split; [done|]. cbn [map_m]. by rewrite Hp.
  - change (map element_text (v :: w :: vs)) with (element_text v :: map element_text (w :: vs)).
    change (join_bytes [x2c] (element_text v :: map element_text (w :: vs))) with
      (element_text v ++ [x2c] ++ join_bytes [x2c] (map element_text (w :: vs))).
    destruct (steps_element raw v items ([x2c] ++ join_bytes [x2c] (map element_text (w :: vs))) Hv)
      as (current & quoted & Hs & Hp).
    rewrite Hs. cbn [app fold_m].
    change (item_step raw (items_at items current false quoted false) x2c) with
      (Ok (E := pg_error) (items_at (items ++ [array_item_from_text current quoted]) [] false false false)).
    rewrite bind_ok. destruct (IH w (items ++ [array_item_from_text current quoted]) Hvs) as (items' & Hi & Hm).
    rewrite Hi. exists (array_item_from_text current quoted :: items'). split; [by rewrite <- app_assoc|].
    cbn [map_m]. by rewrite Hp, bind_ok, Hm.
Qed.

Lemma element_text_nonempty (v : ColumnValue) : element_text v <> [].
Proof.
  unfold element_text. destruct (to_text _ _ v) as [text|]; [|done]. rewrite escape_array_text_eq.
  destruct (bare text) eqn:Hb; [|done]. unfold bare in Hb. by destruct text.
Qed.

Lemma array_text_reads_back (vs : list ColumnValue) : Forall reads_back vs ->
  exists text, to_text display_f32 display_f64 (Array vs) = Some text /\
    parse_array_text parse (of_bytes text) = Ok (Array vs).
Proof.
  intros Hvs. eexists. split; [reflexivity|]. cbn [to_text]. unfold parse_array_text. rewrite as_of_bytes.
  change (map _ vs) with (map element_text vs). rewrite strip_prefix_app. cbn [mbind option_bind].
  rewrite strip_suffix_app. destruct vs as [|v vs]; [done|].
  set (raw := of_bytes _).
  destruct (steps_elements raw vs v [] Hvs) as (items & Hi & Hm).
  assert (Hne : join_bytes [x2c] (map element_text (v :: vs)) <> []).
  { pose proof (element_text_nonempty v). cbn [map join_bytes].
    destruct (map element_text vs); [done|]. by destruct (element_text v). }
  destruct (join_bytes [x2c] (map element_text (v :: vs))) as [|b body]; [done|].
  unfold parse_array_items. change item_start with (items_at [] [] false false false). rewrite Hi, bind_ok. cbn [app]. change (fun item => _) with item_parse. by rewrite Hm.
Qed.
End ArrayText.

(** Values whose text reads back: a text that is not the word NULL, integers in range,
    booleans, and arrays of these. *)
Fixpoint text_safe (t : DataType) (v : ColumnValue) : Prop :=
  match t, v with
  | DT.Text, Text s => eq_ignore_ascii_case (as_bytes s) (as_bytes "NULL") = false
  | DT.Int16, Int16 z => in_signed 16 z
  | DT.Int32, Int32 z => in_signed 32 z
  | DT.Int64, Int64 z => in_signed 64 z
  | DT.Boolean, Boolean _ => True
  | DT.Array inner, Array vs => foldr (fun v acc => (v = Null \/ text_safe inner v) /\ acc) True vs
  | _, _ => False
  end.

Lemma pretty_not_null (z : Z) : eq_ignore_ascii_case (as_bytes (pretty z)) (as_bytes "NULL") = false.
Proof.
  destruct (pretty_signed z) as (ds & Hd & Hn & _ & ->). apply bool_decide_eq_false.
  destruct (z <? 0); [done|]. destruct ds as [|b ds]; [done|]. cbn [forallb] in Hd.
  apply andb_true_iff in Hd as [Hb _]. intros E. cbn in E. injection E as E _. by destruct b.
Qed.

Section TextSafe.
Context `{ValueTexts, SerdeJson}.

Lemma text_safe_reads_back (t : DataType) : forall v : ColumnValue, text_safe t v ->
  exists text, to_text display_f32 display_f64 v = Some text /\
    eq_ignore_ascii_case text (as_bytes "NULL") = false /\ parse_text_for_type t (of_bytes text) = Ok v.
Proof.
  induction t; intros v Hv; destruct v; try done; cbn [text_safe] in Hv; cbn [to_text].
  - eexists. split; [done|]. split; [apply pretty_not_null|]. rewrite of_as_bytes. cbn [parse_text_for_type].
    unfold parse_int16_text, parse_i16. rewrite parse_i64_pretty by (apply (in_signed_64 16); [lia|done]).
    cbn [mbind option_bind]. by rewrite (proj2 (andb_true_iff _ _)) by (split; [apply Z.leb_le|apply Z.ltb_lt]; width).
  - eexists. split; [done|]. split; [apply pretty_not_null|]. rewrite of_as_bytes. cbn [parse_text_for_type].
    unfold parse_int32_text, parse_i32. rewrite parse_i64_pretty by (apply (in_signed_64 32); [lia|done]).
    cbn [mbind option_bind]. by rewrite (proj2 (andb_true_iff _ _)) by (split; [apply Z.leb_le|apply Z.ltb_lt]; width).
  - eexists. split; [done|]. split; [apply pretty_not_null|]. rewrite of_as_bytes. cbn [parse_text_for_type].
    unfold parse_int64_text. by rewrite parse_i64_pretty.
  - eexists. split; [done|]. split; [done|]. by rewrite of_as_bytes.
  - eexists. split; [done|]. by destruct v.
  - destruct (array_text_reads_back (parse_text_for_type t) values) as (text & Ht & Hp).
    + induction values as [|v vs IH]; [constructor|]. destruct Hv as [Hv Hvs]. constructor; [|by apply IH].
      destruct Hv as [->|Hv]; [by left|]. right. by apply IHt.
    + exists text. cbn [to_text] in Ht. split; [done|]. split; [|done]. injection Ht as <-. done.
Qed.
End TextSafe.

(** ** Assigning a stored value to its own column *)

Definition settled_type (t : DataType) : bool :=
  match t with
  | DT.Bit _ | DT.Year | DT.MySqlTime _ | DT.MySqlDateTime _ | DT.MySqlTimestamp _ | DT.Array _ => false
  | _ => true
  end.

Section Settled.
Context `{ValueTexts, SerdeJson}.

Lemma mysql_integer_settled (z : Z) (kind : MySqlIntKind) (unsigned : bool) (v : ColumnValue) :
  mysql_integer_from_i128 z kind unsigned = Ok v ->
  coerce_column_value v (DT.MySqlInt kind unsigned) = Ok v.
Proof.
  intros Hv. pose proof Hv as Hv'. unfold mysql_integer_from_i128 in Hv.
  destruct kind, unsigned; cbn [mysql_integer_range] in Hv;
    match type of Hv with context [if ?c then _ else _] => destruct c eqn:E end; try discriminate Hv;
    injection Hv as <-; cbn [coerce_column_value is_null coerce_mysql_integer]; try exact Hv'.
  unfold parse_mysql_integer. rewrite parse_i128_pretty; [exact Hv'|].
  apply orb_false_iff in E as [E1 E2]. apply Z.ltb_ge in E1, E2. lia.
Qed.

Lemma char_settled (raw : string) (limit : option Z) (v : ColumnValue) :
  coerce_char raw limit = Ok v -> coerce_column_value v (DT.Char limit) = Ok v.
Proof.
  intros Hv. pose proof (parse_text_fits (DT.Char limit) raw v Hv) as Hf. unfold coerce_char in Hv.
  destruct limit as [n|]; [|by injection Hv as <-].
  destruct (_ <? _); [discriminate|]. injection Hv as <-. cbn [value_fits] in Hf.
  rewrite coerce_text. cbn [parse_text_for_type]. unfold coerce_char. rewrite Hf, Z.ltb_irrefl, Z.sub_diag.
  cbn [Z.to_nat replicate]. by rewrite app_nil_r, of_as_bytes.
Qed.

Lemma binary_settled (l : list byte) (limit : option Z) (v : ColumnValue) :
  coerce_binary l limit = Ok v -> coerce_column_value v (DT.Binary limit) = Ok v.
Proof.
  unfold coerce_binary. destruct (Z.ltb_spec (default 1 limit) (len l)) as [|Hl]; [discriminate|]. intros [= <-].
  cbn [coerce_column_value coerce_single coerce_bytes]. unfold coerce_binary.
  assert (len (l ++ replicate (Z.to_nat (default 1 limit - len l)) x00) = default 1 limit) as ->.
  { unfold len in *. rewrite length_app, length_replicate. lia. }
  rewrite Z.ltb_irrefl, Z.sub_diag. cbn [Z.to_nat replicate]. by rewrite app_nil_r.
Qed.

Lemma parsed_int_settled (t : DataType) (raw : string) (v : ColumnValue) :
  match t with DT.Int16 | DT.Int32 | DT.Int64 => True | _ => False end ->
  parse_text_for_type t raw = Ok v -> coerce_column_value v t = Ok v.
Proof.
  intros Ht Hv. destruct (parse_text_typed t raw v Hv) as [Hc Hr].
  destruct t; try done; destruct v; try discriminate Hc; try done;
    cbn [coerce_column_value coerce_single coerce_int ints_in_range] in *;
    try (by rewrite (proj2 (andb_true_iff _ _)) by (split; [apply Z.leb_le|apply Z.ltb_lt]; width)).
Qed.

Lemma parsed_settled (t : DataType) : forall (raw : string) (v : ColumnValue), settled_type t = true ->
  parse_text_for_type t raw = Ok v -> coerce_column_value v t = Ok v.
Proof.
  destruct t; intros raw v Hs Hv; try discriminate Hs; try (by eapply parsed_int_settled).
  all: try (cbn [parse_text_for_type] in Hv;
    first [ injection Hv as <-; by rewrite coerce_text
          | pose proof Hv as Hv'; apply bind_inv in Hv' as ([] & _ & [= <-]); by first [rewrite coerce_text|done]]).
  all: cbn [parse_text_for_type] in Hv.
  - unfold parse_mysql_integer in Hv. destruct (parse_i128 _); [|discriminate]. by eapply mysql_integer_settled.
  - unfold parse_float32_text in Hv. destruct (parse_f32 raw); [|discriminate]. by injection Hv as <-.
  - unfold parse_float64_text in Hv. destruct (parse_f64 raw); [|discriminate]. by injection Hv as <-.
  - unfold parse_float32_text in Hv. destruct (parse_f32 raw); [|discriminate]. by injection Hv as <-.
  - unfold parse_float64_text in Hv. destruct (parse_f64 raw); [|discriminate]. by injection Hv as <-.
  - assert (v = Numeric raw) as ->; [|exact Hv]. unfold coerce_decimal_text in Hv.
    destruct (parse_f64 raw); [|discriminate]. by apply bind_inv in Hv as ([] & _ & [= <-]).
  - assert (v = Text raw) as ->; [|by rewrite coerce_text]. unfold coerce_mysql_text, within_max_len in Hv.
    destruct max_len as [n|]; [destruct (_ <? _); [discriminate|]|]; by injection Hv as <-.
  - assert (v = Text raw) as ->; [|by rewrite coerce_text]. unfold coerce_varchar in Hv.
    destruct n as [n|]; [destruct (_ <? _); [discriminate|]|]; by injection Hv as <-.
  - by eapply char_settled.
  - apply bind_inv in Hv as (l & _ & Hv). by eapply binary_settled.
  - apply bind_inv in Hv as (l & _ & Hv). assert (v = Bytea l) as ->; [|exact Hv]. unfold coerce_varbinary in Hv.
    destruct n as [n|]; [destruct (_ <? _); [discriminate|]|]; by injection Hv as <-.
  - apply bind_inv in Hv as (l & _ & Hv). assert (v = Bytea l) as ->; [|exact Hv].
    unfold coerce_blob, within_max_len in Hv.
    destruct max_len as [n|]; [destruct (_ <? _); [discriminate|]|]; by injection Hv as <-.
  - destruct (parse_text_typed DT.Boolean raw v Hv) as [Hc _]. destruct v; try discriminate Hc; done.
  - assert (v = Text raw) as ->; [|by rewrite coerce_text]. unfold coerce_enum in Hv.
    destruct (bool_decide _); [|discriminate]. by injection Hv as <-.
  - assert (v = Text raw) as ->; [|by rewrite coerce_text]. unfold coerce_set in Hv.
    destruct (bool_decide _); [by injection Hv as <-|]. destruct (set_items _ _ _); [|discriminate]. by injection Hv as <-.
Qed.
End Settled.

(** * What the module promises *)

Section Promises.
Context `{ValueTexts, SerdeJson}.

(** C19. Whatever value is coerced to a column's type, the answer, when there is one, is a
    value the type's cells hold: of the constructor the row codecs expect for the type (or
    NULL), element by element for an array, with every integer inside its width. *)
Theorem coerced_value_typed (v v' : ColumnValue) (t : DataType) : ints_in_range v ->
  coerce_column_value v t = Ok v' -> LegacyCodec.cell_typed t v' = true /\ ints_in_range v'.
Proof. intros Hr Hc. exact (coerce_typed t v Hr v' Hc). Qed.

(** C18. A text read for a type obeys what the type says: the length of CHAR, VARCHAR, BINARY,
    the range of the MySQL integers and of YEAR, the width of BIT, membership and no
    repetition for ENUM and SET, a day of the calendar for dates and time stamps, and so on
    for the elements of arrays; and for every type but BIT, YEAR, MySQL's TIME, DATETIME and
    TIMESTAMP and the arrays the value is then assigned unchanged to a column of that type. *)
Theorem parsed_text_fits (raw : string) (v : ColumnValue) (t : DataType) :
  parse_text_for_type t raw = Ok v ->
  value_fits t v /\ (settled_type t = true -> coerce_column_value v t = Ok v).
Proof. intros Hv. split; [by eapply parse_text_fits|]. intros Hs. by eapply parsed_settled. Qed.

(** C31. The text of an array of texts, integers, booleans or arrays of these, NULL elements
    included, reads back as the array, whatever characters the texts hold: the quoting of
    [escape_array_text] and the scanner of [parse_array_items] undo each other.  The one
    exception is a text element that spells NULL, which is not quoted. *)
Theorem array_text_roundtrip (inner : DataType) (vs : list ColumnValue) :
  text_safe (DT.Array inner) (Array vs) ->
  exists text, to_text display_f32 display_f64 (Array vs) = Some text /\
    parse_text_for_type (DT.Array inner) (of_bytes text) = Ok (Array vs).
Proof.
  intros Hv. destruct (text_safe_reads_back _ _ Hv) as (text & Ht & _ & Hp). by exists text.
Qed.
End Promises.

(** C32. [validate_date] accepts exactly the days of the proleptic Gregorian calendar from
    the year 1 to 9999, written as four digits, two and two, with dashes; any other
    text is the error 22007 that quotes it, and no slice of it panics. *)
Theorem date_accepted_exactly (l : list byte) :
  (validate_date l = Ok tt /\
   exists year month day, calendar_day year month day /\ l = date_text year month day) \/
  (validate_date l = invalid_value "22007" "DATE" (of_bytes l) /\
   forall year month day, calendar_day year month day -> l <> date_text year month day).
Proof.
  destruct (validate_date_settles l) as [E|E]; [left|right].
  - split; [done|]. by apply validate_date_spec.
  - split; [done|]. intros year month day Hd Hl.
    assert (E' : validate_date l = Ok tt) by (apply validate_date_spec; eauto).
    rewrite E in E'. discriminate E'.
Qed.

(** ** At concrete inputs *)

(** Floats as their bits in decimal: enough to evaluate the definitions. *)
Definition bits_texts : ValueTexts := {|
  parse_f32 := fun raw => parse_u64 (as_bytes raw) ≫= fun z => if z <? 2 ^ 32 then Some z else None;
  parse_f64 := fun raw => parse_u64 (as_bytes raw);
  display_f32 := pretty;
  display_f64 := pretty;
  debug_value := fun _ => "";
|}.
#[local] Existing Instance bits_texts.
#[local] Existing Instance coded_json.

Lemma coerced_value_typed_witness :
  coerce_column_value (Text "{1,NULL,-3}") (DT.Array DT.Int16) = Ok (Array [Int16 1; Null; Int16 (-3)]) /\
  LegacyCodec.cell_typed (DT.Array DT.Int16) (Array [Int16 1; Null; Int16 (-3)]) = true /\
  ints_in_range (Array [Int16 1; Null; Int16 (-3)]).
Proof.
  assert (E : coerce_column_value (Text "{1,NULL,-3}") (DT.Array DT.Int16) = Ok (Array [Int16 1; Null; Int16 (-3)]))
    by (vm_compute; reflexivity).
  split; [exact E|]. apply (coerced_value_typed (Text "{1,NULL,-3}") _ _); [exact I|exact E].
Defined.

Lemma parsed_text_fits_witness :
  parse_text_for_type (DT.Char (Some 4)) "ab" = Ok (Text "ab  ") /\
  value_fits (DT.Char (Some 4)) (Text "ab  ") /\
  coerce_column_value (Text "ab  ") (DT.Char (Some 4)) = Ok (Text "ab  ").
Proof.
  assert (E : parse_text_for_type (DT.Char (Some 4)) "ab" = Ok (Text "ab  ")) by (vm_compute; reflexivity).
  destruct (parsed_text_fits _ _ _ E) as [Hf Hs].
  split; [exact E|]. split; [exact Hf|]. apply Hs. reflexivity.
Defined.

Lemma array_text_roundtrip_witness :
  exists text, to_text display_f32 display_f64 (Array [Text "a,b"; Null; Text ""]) = Some text /\
    parse_text_for_type (DT.Array DT.Text) (of_bytes text) = Ok (Array [Text "a,b"; Null; Text ""]).
Proof.
  apply (array_text_roundtrip DT.Text).
  split; [right; vm_compute; reflexivity|]. split; [left; reflexivity|].
  split; [right; vm_compute; reflexivity|exact I].
Defined.

(** The 29th of February. *)
Example leap_days :
  validate_date (as_bytes "2024-02-29") = Ok tt /\ validate_date (as_bytes "1900-02-29") <> Ok tt /\
  validate_date (as_bytes "2000-02-29") = Ok tt.
Proof. split; [vm_compute; reflexivity|]. split; [by vm_compute|vm_compute; reflexivity]. Qed.

(** The text element NULL is written without quotes and read back as no value. *)
Example null_text_lost :
  to_text display_f32 display_f64 (Array [Text "NULL"]) = Some (as_bytes "{NULL}") /\
  parse_text_for_type (DT.Array DT.Text) "{NULL}" = Ok (Array [Null]).
Proof. split; vm_compute; reflexivity. Qed.

(** A number is not measured against the limit of a VARCHAR, nor looked up in an ENUM. *)
Example number_skips_limits :
  coerce_column_value (Int32 123456) (DT.VarChar (Some 3)) = Ok (Text "123456") /\
  coerce_column_value (Text "123456") (DT.VarChar (Some 3)) <> Ok (Text "123456") /\
  coerce_column_value (Int32 7) (DT.Enum ["a"; "b"]) = Ok (Text "7").
Proof. split; [vm_compute; reflexivity|]. split; [by vm_compute|vm_compute; reflexivity]. Qed.

(** The tenth byte of the text lies inside a character: slicing panics. *)
Definition accented_stamp : string := of_bytes (as_bytes "2024-02-2" ++ [xc3; xa9]).

Example timestamp_slice_panics : validate_timestamp accented_stamp = Panic.
Proof. vm_compute; reflexivity. Qed.

(** A value that came out of a BIT or YEAR column cannot go back into one. *)
Example bit_and_year_not_settled :
  parse_text_for_type (DT.Bit (Some 4)) "5" = Ok (Int64 5) /\
  coerce_column_value (Int64 5) (DT.Bit (Some 4)) = unsupported_coercion (Int64 5) /\
  parse_text_for_type DT.Year "24" = Ok (Int32 2024) /\
  coerce_column_value (Int32 2024) DT.Year = unsupported_coercion (Int32 2024).
Proof. repeat split; vm_compute; reflexivity. Qed.

(** NaN is outside no range: as a SMALLINT it is 0. *)
Example nan_is_zero : coerce_column_value (Float32 2143289344) DT.Int16 = Ok (Int16 0).
Proof. vm_compute; reflexivity. Qed.
