(* ===== verification/Operators.v ===== *)
(** * Operators on values

    src/src/sql/operators.rs: negation, arithmetic and comparison of column values, the
    number MySQL reads in a text, and [value_to_i64] of sql/json.rs.  Integers are checked,
    floats are the bits of IEEE numbers. *)

From Stdlib Require Import SpecFloat.
From stdpp Require Import pretty.
From S2P Require Import Prelude Float Types TupleCodec Values Text Coerce.

#[local] Open Scope string_scope.
#[local] Open Scope list_scope.
#[local] Open Scope Z_scope.

(** The operators of [sqlparser::ast::BinaryOperator] the code matches on. *)
Module BinOp.
Inductive BinaryOperator : Type :=
  | Plus | Minus | Multiply | Divide | Modulo | MyIntegerDivide
  | And | Or | Xor
  | BitwiseAnd | BitwiseOr | BitwiseXor
  | Eq | NotEq | Gt | GtEq | Lt | LtEq | Spaceship
  | Arrow | LongArrow | AtArrow | Question | Regexp
  | OtherOperator.
End BinOp.
Abbreviation BinaryOperator := BinOp.BinaryOperator.

#[export] Instance binary_operator_eq_dec : EqDecision BinaryOperator.
Proof. solve_decision. Defined.

(** ** Float arithmetic *)

Section FloatOps.
Context (mw ew : Z).

(** [-v] flips the sign bit, [abs] clears it. *)
Definition fneg (bits : Z) : Z := Z.lxor bits (2 ^ (ew + mw)).
Definition fabs (bits : Z) : Z := bits mod 2 ^ (ew + mw).

Definition fsub (a b : Z) : Z := fencode mw ew (SFsub (fprec mw) (femax ew) (fdecode mw ew a) (fdecode mw ew b)).
Definition fmul (a b : Z) : Z := fencode mw ew (SFmul (fprec mw) (femax ew) (fdecode mw ew a) (fdecode mw ew b)).

(** [a % b]: the exact remainder of the division towards zero. *)
Definition frem (a b : Z) : Z :=
  match fdecode mw ew a, fdecode mw ew b with
  | S754_nan, _ | _, S754_nan | S754_infinity _, _ | _, S754_zero _ => fencode mw ew S754_nan
  | S754_zero _, _ | S754_finite _ _ _, S754_infinity _ => a
  | S754_finite s m e, S754_finite _ n f =>
      let low := Z.min e f in
      let r := (Zpos m * 2 ^ (e - low)) mod (Zpos n * 2 ^ (f - low)) in
      fencode mw ew (binary_normalize (fprec mw) (femax ew) (if s : bool then - r else r) low s)
  end.
End FloatOps.

Definition f64_sub := fsub 52 11.
Definition f64_mul := fmul 52 11.
Definition f64_rem := frem 52 11.
Definition f64_neg := fneg 52 11.
Definition f64_abs := fabs 52 11.
Definition f64_zero (bits : Z) : bool := f64_eqb bits 0.

Definition unsupported {A} (message : string) : PgWireResult A := user_error "0A000" message.
Definition division_by_zero {A} : PgWireResult A := user_error "22012" "division by zero".
Definition numeric_out_of_range {A} : PgWireResult A := user_error "22003" "numeric out of range".

(** ** Numbers of values *)

(** The digits and the first dot of the scan, and whether a digit was seen. *)
Fixpoint scan_mantissa (saw_dot saw_digit : bool) (l : list byte) : list byte * bool * list byte :=
  match l with
  | b :: r =>
      if is_digit b then
        let '(m, d, rest) := scan_mantissa saw_dot true r in (b :: m, d, rest)
      else if is_byte x2e b && negb saw_dot then
        let '(m, d, rest) := scan_mantissa true saw_digit r in (b :: m, d, rest)
      else ([], saw_digit, l)
  | [] => ([], saw_digit, [])
  end.

(** The sign at the head of a text. *)
Definition scan_sign (l : list byte) : list byte * list byte :=
  match l with
  | b :: r => if is_byte x2b b || is_byte x2d b then ([b], r) else ([], l)
  | [] => ([], [])
  end.

(** The exponent after the digits: nothing when it has no digit. *)
Definition scan_exponent (l : list byte) : list byte :=
  match l with
  | b :: r =>
      if is_byte x65 b || is_byte x45 b then
        let '(sign, r) := scan_sign r in
        match take_while is_digit r with
        | [] => []
        | ds => b :: sign ++ ds
        end
      else []
  | [] => []
  end.

Section Numbers.
Context `{ValueTexts}.

Definition mysql_text_to_number (value : string) : Z :=
  let '(sign, rest) := scan_sign (trim_start (as_bytes value)) in
  let '(mantissa, saw_digit, rest) := scan_mantissa false false rest in
  if saw_digit : bool then default 0 (parse_f64 (of_bytes (sign ++ mantissa ++ scan_exponent rest)))
  else 0.

Definition mysql_value_to_number (value : ColumnValue) : option Z :=
  match value with
  | Int16 v | Int32 v | Int64 v => Some (f64_of_Z v)
  | Float32 v => Some (f64_of_f32 v)
  | Float64 v => Some v
  | Numeric v | Text v => Some (mysql_text_to_number v)
  | Boolean v => Some (if v then f64_of_Z 1 else 0)
  | _ => None
  end.

Definition mysql_is_numeric_like (value : ColumnValue) : bool :=
  match value with
  | Int16 _ | Int32 _ | Int64 _ | Float32 _ | Float64 _ | Numeric _ | Boolean _ => true
  | _ => false
  end.

Definition value_to_i64 (value : ColumnValue) : PgWireResult Z :=
  match mysql_value_to_number value with
  | Some v => Ok (f64_as i64_min i64_max v)
  | None => unsupported "value is not numeric"
  end.

(** ** Arithmetic *)

Definition negate_value (value : ColumnValue) : PgWireResult ColumnValue :=
  match value with
  | Int16 v => Ok (Int16 (to_signed 16 (- v)))
  | Int32 v => Ok (Int32 (to_signed 32 (- v)))
  | Int64 v => Ok (Int64 (to_signed 64 (- v)))
  | Float32 v => Ok (Float32 (fneg 23 8 v))
  | Float64 v => Ok (Float64 (f64_neg v))
  | Numeric v =>
      match parse_f64 v with
      | Some value => Ok (Numeric (display_f64 (f64_neg value)))
      | None => numeric_out_of_range
      end
  | _ => unsupported "cannot apply unary '-' to non-numeric value"
  end.

(** [checked_add] and its kin at a width. *)
Definition checked (w : Z) (z : Z) (sign : string) (lhs rhs : Z) : PgWireResult Z :=
  if (- 2 ^ (w - 1) <=? z) && (z <? 2 ^ (w - 1)) then Ok z
  else user_error "22003"
         ("numeric value out of range: " +:+ pretty lhs +:+ " " +:+ sign +:+ " " +:+ pretty rhs).

(** [lhs / rhs] and [lhs % rhs]: the least integer divided by -1 panics. *)
Definition int_divide (w : Z) (quotient : Z -> Z -> Z) (lhs rhs : Z) : PgWireResult Z :=
  if rhs =? 0 then division_by_zero
  else if (lhs =? - 2 ^ (w - 1)) && (rhs =? -1) then Panic
  else Ok (quotient lhs rhs).

Definition int_arithmetic (w : Z) (op : BinaryOperator) (lhs rhs : Z) : PgWireResult Z :=
  match op with
  | BinOp.Plus => checked w (lhs + rhs) "+" lhs rhs
  | BinOp.Minus => checked w (lhs - rhs) "-" lhs rhs
  | BinOp.Multiply => checked w (lhs * rhs) "*" lhs rhs
  | BinOp.Divide => int_divide w Z.quot lhs rhs
  | BinOp.Modulo => int_divide w Z.rem lhs rhs
  | _ => unsupported "unsupported arithmetic operator"
  end.

(** [check_rem]: the arms for texts refuse [% 0], those for floats answer NaN. *)
Definition float_arithmetic (mw ew : Z) (check_rem : bool) (op : BinaryOperator) (lhs rhs : Z)
    : PgWireResult Z :=
  let zero := feqb mw ew rhs 0 in
  match op with
  | BinOp.Plus => Ok (fadd mw ew lhs rhs)
  | BinOp.Minus => Ok (fsub mw ew lhs rhs)
  | BinOp.Multiply => Ok (fmul mw ew lhs rhs)
  | BinOp.Divide => if zero then division_by_zero else Ok (fdiv mw ew lhs rhs)
  | BinOp.Modulo => if check_rem && zero then division_by_zero else Ok (frem mw ew lhs rhs)
  | _ => unsupported "unsupported arithmetic operator"
  end.

Definition arith32 (op : BinaryOperator) (lhs rhs : Z) : PgWireResult ColumnValue :=
  Int32 <$> int_arithmetic 32 op lhs rhs.
Definition arith64 (op : BinaryOperator) (lhs rhs : Z) : PgWireResult ColumnValue :=
  Int64 <$> int_arithmetic 64 op lhs rhs.
Definition arith_f32 (op : BinaryOperator) (lhs rhs : Z) : PgWireResult ColumnValue :=
  Float32 <$> float_arithmetic 23 8 false op lhs rhs.
Definition arith_f64 (op : BinaryOperator) (lhs rhs : Z) : PgWireResult ColumnValue :=
  Float64 <$> float_arithmetic 52 11 false op lhs rhs.

Definition arithmetic_row_values (lhs rhs : ColumnValue) (op : BinaryOperator) : PgWireResult ColumnValue :=
  if is_null lhs || is_null rhs then Ok Null
  else match lhs, rhs with
  | Int16 l, (Int16 r | Int32 r) | Int32 l, (Int16 r | Int32 r) => arith32 op l r
  | (Int16 l | Int32 l), Int64 r | Int64 l, (Int16 r | Int32 r | Int64 r) => arith64 op l r
  | Float32 l, Float32 r => arith_f32 op l r
  | Float64 l, Float64 r => arith_f64 op l r
  | (Int16 l | Int32 l), Float32 r => arith_f32 op (f32_of_Z l) r
  | Float32 l, (Int16 r | Int32 r) => arith_f32 op l (f32_of_Z r)
  | (Int16 l | Int32 l | Int64 l), Float64 r => arith_f64 op (f64_of_Z l) r
  | Float64 l, (Int16 r | Int32 r | Int64 r) => arith_f64 op l (f64_of_Z r)
  | Float32 l, Float64 r => arith_f64 op (f64_of_f32 l) r
  | Float64 l, Float32 r => arith_f64 op l (f64_of_f32 r)
  | Numeric l, Numeric r =>
      match parse_f64 l, parse_f64 r with
      | Some l, Some r => (fun v => Numeric (display_f64 v)) <$> float_arithmetic 52 11 true op l r
      | _, _ => numeric_out_of_range
      end
  | _, _ =>
      match mysql_value_to_number lhs, mysql_value_to_number rhs with
      | Some l, Some r => Float64 <$> float_arithmetic 52 11 true op l r
      | _, _ =>
          unsupported ("unsupported value types for arithmetic: " +:+ debug_value lhs +:+ " and " +:+
                       debug_value rhs)
      end
  end.

(** ** Comparison *)

(** The six comparisons of an [==] and a [partial_cmp]. *)
Definition compared (op : BinaryOperator) (equal : bool) (order : option comparison) : bool :=
  match op with
  | BinOp.Eq => equal
  | BinOp.NotEq => negb equal
  | BinOp.Gt => is_gt order
  | BinOp.Lt => is_lt order
  | BinOp.GtEq => is_ge order
  | BinOp.LtEq => is_le order
  | _ => false
  end.

(** The arms after the one for [<=>]. *)
Definition compare_values_plain (lhs rhs : ColumnValue) (op : BinaryOperator) : bool :=
  if is_null lhs || is_null rhs then false
  else match mysql_value_to_number lhs, mysql_value_to_number rhs with
  | Some l, Some r =>
      if mysql_is_numeric_like lhs || mysql_is_numeric_like rhs
      then compared op (f64_eqb l r) (f64_compare l r)
      else compared op (cv_eqb lhs rhs) (cv_partial_cmp lhs rhs)
  | _, _ => compared op (cv_eqb lhs rhs) (cv_partial_cmp lhs rhs)
  end.

Definition compare_row_values (lhs rhs : ColumnValue) (op : BinaryOperator) : bool :=
  match op with
  | BinOp.Spaceship =>
      match is_null lhs, is_null rhs with
      | true, true => true
      | true, false | false, true => false
      | false, false => compare_values_plain lhs rhs BinOp.Eq
      end
  | _ => compare_values_plain lhs rhs op
  end.
End Numbers.

(** ** Small integers as doubles *)

Lemma digits2_log2 (p : positive) : Zpos (digits2_pos p) = Z.log2 (Zpos p) + 1.
Proof.
  induction p as [p IH|p IH|]; cbn [digits2_pos]; [| |reflexivity]; rewrite Pos2Z.inj_succ, IH.
  - replace (Zpos p~1) with (2 * Zpos p + 1) by lia. rewrite Z.log2_succ_double by lia. lia.
  - replace (Zpos p~0) with (2 * Zpos p) by lia. rewrite Z.log2_double by lia. lia.
Qed.

(** The magnitude of the double of [0 < z < 2 ^ 53]: biased exponent, then mantissa. *)
Definition small_magnitude (z : Z) : Z :=
  (Z.log2 z + 1023) * 2 ^ 52 + (z * 2 ^ (52 - Z.log2 z) - 2 ^ 52).

Lemma small_mantissa (z : Z) : 0 < z < 2 ^ 53 ->
  0 <= Z.log2 z <= 52 /\ 2 ^ 52 <= z * 2 ^ (52 - Z.log2 z) < 2 ^ 53.
Proof.
  intros Hz. pose proof (Z.log2_nonneg z). assert (Z.log2 z < 53) by (apply Z.log2_lt_pow2; lia).
  split; [lia|]. destruct (Z.log2_spec z ltac:(lia)) as [Hlo Hhi].
  assert (0 < 2 ^ (52 - Z.log2 z)) by (apply Z.pow_pos_nonneg; lia).
  replace (2 ^ 52) with (2 ^ Z.log2 z * 2 ^ (52 - Z.log2 z)) by (rewrite <- Z.pow_add_r by lia; f_equal; lia).
  replace (2 ^ 53) with (2 ^ Z.succ (Z.log2 z) * 2 ^ (52 - Z.log2 z)) by (rewrite <- Z.pow_add_r by lia; f_equal; lia).
  split; [nia|]. by apply Z.mul_lt_mono_pos_r.
Qed.

Lemma small_magnitude_mono (a b : Z) : 0 < a < 2 ^ 53 -> 0 < b < 2 ^ 53 -> a < b ->
  small_magnitude a < small_magnitude b.
Proof.
  intros Ha Hb Hab. destruct (small_mantissa a Ha) as [La Ma], (small_mantissa b Hb) as [Lb Mb].
  pose proof (Z.log2_le_mono a b ltac:(lia)). unfold small_magnitude.
  destruct (Z.eq_dec (Z.log2 a) (Z.log2 b)) as [->|Hne].
  - assert (0 < 2 ^ (52 - Z.log2 b)) by (apply Z.pow_pos_nonneg; lia). nia.
  - assert (Z.log2 a + 1 <= Z.log2 b) by lia. nia.
Qed.

Lemma shift_pow (p : positive) (n : positive) : Zpos (Pos.iter xO p n) = Zpos p * 2 ^ Zpos n.
Proof.
  revert p. induction n as [|n IH] using Pos.peano_ind; intros p; [cbn; lia|].
  rewrite Pos.iter_succ, Pos2Z.inj_succ, Z.pow_succ_r by lia. rewrite Pos2Z.inj_xO, IH. ring.
Qed.

Lemma round_exact (s : bool) (m : positive) (e : Z) :
  Z.log2 (Zpos m) = 52 -> -1074 <= e <= 971 ->
  binary_round_aux 53 1024 s (Zpos m) e loc_Exact = S754_finite s m e.
Proof.
  intros Hm He. unfold binary_round_aux, shr_fexp. cbn [shr_record_of_loc Zdigits2].
  assert (Hf : fexp 53 1024 (Zpos (digits2_pos m) + e) - e = 0).
  { rewrite digits2_log2, Hm. unfold fexp, emin. lia. }
  rewrite Hf. cbn [shr loc_of_shr_record shr_m round_nearest_even]. cbn [Zdigits2]. rewrite Hf. cbn [shr shr_m].
  by rewrite (proj2 (Z.leb_le _ _)) by lia.
Qed.

Lemma small_normalize (s : bool) (p : positive) : Zpos p < 2 ^ 53 ->
  exists m, Zpos m = Zpos p * 2 ^ (52 - Z.log2 (Zpos p)) /\
    binary_round 53 1024 s p 0 = S754_finite s m (Z.log2 (Zpos p) - 52).
Proof.
  intros Hp. destruct (small_mantissa (Zpos p) ltac:(lia)) as [Hl Hm]. unfold binary_round.
  assert (Hf : fexp 53 1024 (Zpos (digits2_pos p) + 0) = Z.log2 (Zpos p) - 52).
  { rewrite digits2_log2. unfold fexp, emin. lia. }
  rewrite Hf. unfold shl_align. rewrite Z.sub_0_r. destruct (Z.log2 (Zpos p) - 52) as [|q|q] eqn:E.
  - replace (52 - Z.log2 (Zpos p)) with 0 in * by lia. exists p. split; [lia|]. rewrite round_exact; [done|lia|lia].
  - lia.
  - assert (Hq : 52 - Z.log2 (Zpos p) = Zpos q) by lia. rewrite Hq in *. exists (Pos.iter xO p q).
    split; [by apply shift_pow|]. rewrite round_exact; [done| |lia].
    apply Z.log2_unique; rewrite ?shift_pow; lia.
Qed.

Lemma small_bits (s : bool) (p : positive) : Zpos p < 2 ^ 53 ->
  fencode 52 11 (binary_round 53 1024 s p 0) = (if s then 2 ^ 63 else 0) + small_magnitude (Zpos p) /\
  0 < small_magnitude (Zpos p) < 2047 * 2 ^ 52.
Proof.
  intros Hp. destruct (small_mantissa (Zpos p) ltac:(lia)) as [Hl Hm].
  destruct (small_normalize s p Hp) as (m & Hmv & ->). cbn [fencode]. rewrite Hmv.
  rewrite (proj2 (Z.ltb_ge _ _)) by lia. change (femin 52 11) with (-1074). unfold small_magnitude.
  split; [|lia]. change (11 + 52) with 63. lia.
Qed.

Definition signed_magnitude (z : Z) : Z := Z.sgn z * small_magnitude (Z.abs z).

Lemma f64_of_small (z : Z) : - 2 ^ 53 < z < 2 ^ 53 ->
  fis_nan 52 11 (f64_of_Z z) = false /\ fval 52 11 (f64_of_Z z) = signed_magnitude z.
Proof.
  intros Hz. unfold fof_Z, binary_normalize. change (fprec 52) with 53. change (femax 11) with 1024.
  destruct z as [|p|p]; [by vm_compute| |].
  - destruct (small_bits false p ltac:(lia)) as [-> Hr]. unfold signed_magnitude. cbn [Z.abs Z.sgn].
    set (k := small_magnitude (Zpos p)) in *. rewrite Z.add_0_l, Z.mul_1_l. unfold fis_nan, fdecode, fval, fsign, fmag; cbv zeta.
    rewrite (Z.mod_small k) by (cbn; lia). change (11 + 52) with 63. rewrite (proj2 (Z.leb_gt _ _)) by lia.
    split; [|done].
    assert (k / 2 ^ 52 < 2047) by (apply Z.div_lt_upper_bound; lia). assert ((k / 2 ^ 52 =? 2 ^ 11 - 1) = false) as -> by (apply Z.eqb_neq; change (2 ^ 11 - 1) with 2047; lia).
    by repeat destruct (_ =? 0).
  - destruct (small_bits true p ltac:(lia)) as [-> Hr]. unfold signed_magnitude. change (Z.abs (Zneg p)) with (Zpos p). change (Z.sgn (Zneg p)) with (-1).
    set (k := small_magnitude (Zpos p)) in *. unfold fis_nan, fdecode, fval, fsign, fmag; cbv zeta. change (11 + 52) with 63.
    assert ((2 ^ 63 + k) mod 2 ^ 63 = k) as ->.
    { rewrite <- (Z.mul_1_l (2 ^ 63)) at 1. rewrite Z.add_comm, Z.mod_add, Z.mod_small by lia. done. }
    rewrite (proj2 (Z.leb_le _ _)) by lia. split; [|cbv beta iota; lia].
    assert (k / 2 ^ 52 < 2047) by (apply Z.div_lt_upper_bound; lia). assert ((k / 2 ^ 52 =? 2 ^ 11 - 1) = false) as -> by (apply Z.eqb_neq; change (2 ^ 11 - 1) with 2047; lia).
    by repeat destruct (_ =? 0).
Qed.

Lemma f64_compare_small (a b : Z) : - 2 ^ 53 < a < 2 ^ 53 -> - 2 ^ 53 < b < 2 ^ 53 ->
  f64_compare (f64_of_Z a) (f64_of_Z b) = Some (a ?= b).
Proof.
  intros Ha Hb. destruct (f64_of_small a Ha) as [Na Va], (f64_of_small b Hb) as [Nb Vb].
  rewrite fcompare_val by (done || lia). rewrite Va, Vb. f_equal.
  assert (Hpos : forall z, 0 < z < 2 ^ 53 -> 0 < small_magnitude z).
  { intros z Hz. destruct (small_mantissa z Hz). unfold small_magnitude. lia. }
  assert (Hmono : forall x y, - 2 ^ 53 < x < 2 ^ 53 -> - 2 ^ 53 < y < 2 ^ 53 -> x < y ->
    signed_magnitude x < signed_magnitude y).
  { intros x y Hx Hy Hxy. unfold signed_magnitude.
    destruct (Z.lt_trichotomy x 0) as [|[->|]], (Z.lt_trichotomy y 0) as [|[->|]]; try lia;
      rewrite ?(Z.sgn_neg x), ?(Z.sgn_neg y), ?(Z.sgn_pos x), ?(Z.sgn_pos y) by lia; cbn [Z.sgn];
      try (pose proof (Hpos (Z.abs x) ltac:(lia))); try (pose proof (Hpos (Z.abs y) ltac:(lia))); try lia.
    - pose proof (small_magnitude_mono (Z.abs y) (Z.abs x) ltac:(lia) ltac:(lia) ltac:(lia)). lia.
    - pose proof (small_magnitude_mono (Z.abs x) (Z.abs y) ltac:(lia) ltac:(lia) ltac:(lia)). lia. }
  destruct (Z.compare_spec a b) as [->|Hlt|Hlt].
  - apply Z.compare_refl.
  - apply Z.compare_lt_iff. by apply Hmono.
  - apply Z.compare_gt_iff. by apply Hmono.
Qed.
