(* ===== verification/Patterns.v ===== *)
(** * Text patterns

    LIKE (src/src/filter.rs, [like_matches], and its copy in sql/json.rs,
    [matches_like]) and the regular expressions of sql/json.rs ([simple_regexp_match]),
    over the characters of a text. *)

From S2P Require Import Prelude Types TupleCodec Values Text.

#[local] Open Scope list_scope.

(** ** Characters *)

(** A character is its UTF-8 bytes: a first byte and the continuation bytes after it. *)
Abbreviation char := (list byte).

(** [str::chars]. *)
Fixpoint chars (l : list byte) : list char :=
  match l with
  | [] => []
  | b :: r =>
      match chars r with
      | (c :: tl) :: rest => if utf8_cont c then (b :: c :: tl) :: rest else [b] :: (c :: tl) :: rest
      | rest => [b] :: rest
      end
  end.

Definition is_char (b : byte) (c : char) : bool := bool_decide (c = [b]).

(** ** LIKE *)

(** [like_match_chars] from [value_idx] and [pattern_idx]: on what is left of the value
    and of the pattern. *)
Fixpoint like_match_chars (escape : option char) (pattern value : list char) {struct pattern} : bool :=
  match pattern with
  | [] => match value with [] => true | _ => false end
  | current :: rest =>
      let plain :=
        if is_char x25 current then
          existsb (fun k => like_match_chars escape rest (drop k value)) (seq 0 (S (length value)))
        else match value with
        | [] => false
        | ch :: value =>
            (is_char x5f current || bool_decide (ch = current)) && like_match_chars escape rest value
        end in
      match rest with
      | next :: rest =>
          if bool_decide (escape = Some current) then
            match value with
            | [] => false
            | ch :: value => bool_decide (ch = next) && like_match_chars escape rest value
            end
          else plain
      | [] => plain
      end
  end.

(** [str::to_lowercase] and [to_uppercase] follow the Unicode tables of the standard
    library. *)
Class UnicodeCase := {
  to_lowercase : list byte -> list byte;
  to_uppercase : list byte -> list byte;
}.

Section Like.
Context `{UnicodeCase}.

Definition like_matches (value pattern : list byte) (escape : option char) (case_insensitive : bool) : bool :=
  let fold (l : list byte) := if case_insensitive then to_lowercase l else l in
  like_match_chars escape (chars (fold pattern)) (chars (fold value)).

Definition matches_like (value pattern : option (list byte)) (escape : option char) (case_insensitive : bool)
    : bool :=
  match value, pattern with
  | Some value, Some pattern => like_matches value pattern escape case_insensitive
  | _, _ => false
  end.
End Like.

(** ** Regular expressions *)

(** [simple_regexp_match_here]: [.*] skips any characters, [.] one; the match is of a
    prefix of the value. *)
Fixpoint simple_regexp_match_here (pattern value : list char) {struct pattern} : bool :=
  match pattern with
  | [] => true
  | pch :: prest =>
      let one :=
        match value with
        | [] => false
        | vch :: vrest => (is_char x2e pch || bool_decide (pch = vch)) && simple_regexp_match_here prest vrest
        end in
      match prest with
      | star :: rest =>
          if is_char x2e pch && is_char x2a star
          then existsb (fun k => simple_regexp_match_here rest (drop k value)) (seq 0 (S (length value)))
          else one
      | [] => one
      end
  end.

(** [regexp_min_len]: the characters left when every [.*] is deleted. *)
Fixpoint regexp_min_len (pattern : list char) : nat :=
  match pattern with
  | [] => 0
  | pch :: prest =>
      match prest with
      | star :: rest =>
          if is_char x2e pch && is_char x2a star then regexp_min_len rest else S (regexp_min_len prest)
      | [] => 1
      end
  end.

Definition simple_regexp_match (value pattern : list byte) : bool :=
  match strip_prefix [x5e] pattern with
  | Some rest => simple_regexp_match_here (chars (default rest (strip_suffix [x24] rest))) (chars value)
  | None =>
      let starts := map (fun k => drop k (chars value)) (seq 0 (S (length (chars value)))) in
      match strip_suffix [x24] pattern with
      | Some inner =>
          existsb (fun value => simple_regexp_match_here (chars inner) value &&
                                (length value =? regexp_min_len (chars inner))%nat) starts
      | None =>
          existsb (simple_regexp_match_here (chars pattern)) (removelast starts) ||
          bool_decide (pattern = [])
      end
  end.

(** * What the patterns mean *)

(** The wildcards of a LIKE pattern once the escapes are read. *)
Inductive LikeToken : Type := AnyString | AnyChar | Exactly (c : char).

Fixpoint like_tokens (escape : option char) (pattern : list char) : list LikeToken :=
  match pattern with
  | [] => []
  | current :: rest =>
      let plain := (if is_char x25 current then AnyString else if is_char x5f current then AnyChar
                    else Exactly current) :: like_tokens escape rest in
      match rest with
      | next :: rest => if bool_decide (escape = Some current) then Exactly next :: like_tokens escape rest else plain
      | [] => plain
      end
  end.

Inductive like_spec : list LikeToken -> list char -> Prop :=
  | like_end : like_spec [] []
  | like_string (skipped value : list char) (ts : list LikeToken) :
      like_spec ts value -> like_spec (AnyString :: ts) (skipped ++ value)
  | like_char (c : char) (value : list char) (ts : list LikeToken) :
      like_spec ts value -> like_spec (AnyChar :: ts) (c :: value)
  | like_exactly (c : char) (value : list char) (ts : list LikeToken) :
      like_spec ts value -> like_spec (Exactly c :: ts) (c :: value).

Lemma like_spec_nil (value : list char) : like_spec [] value <-> value = [].
Proof. split; [by inversion 1|intros ->; constructor]. Qed.
Lemma like_spec_string (ts : list LikeToken) (value : list char) :
  like_spec (AnyString :: ts) value <-> exists k, (k <= length value)%nat /\ like_spec ts (drop k value).
Proof.
  split.
  - inversion 1 as [|skipped v ts' Hs| |]; subst. exists (length skipped). rewrite length_app, drop_app_length.
    split; [lia|done].
  - intros (k & _ & Hk). rewrite <- (take_drop k value). by constructor.
Qed.
Lemma like_spec_char (ts : list LikeToken) (value : list char) :
  like_spec (AnyChar :: ts) value <-> match value with [] => False | _ :: value => like_spec ts value end.
Proof.
  split; [by inversion 1|]. destruct value; [done|]. by constructor.
Qed.
Lemma like_spec_exactly (c : char) (ts : list LikeToken) (value : list char) :
  like_spec (Exactly c :: ts) value <-> match value with [] => False | ch :: value => ch = c /\ like_spec ts value end.
Proof.
  split; [by inversion 1|]. destruct value; [done|]. intros [-> Hs]. by constructor.
Qed.

(** The search over the lengths of a [%]. *)
Lemma some_drop (f : list char -> bool) (value : list char) :
  existsb (fun k => f (drop k value)) (seq 0 (S (length value))) = true <->
  exists k, (k <= length value)%nat /\ f (drop k value) = true.
Proof.
  rewrite existsb_exists. split.
  - intros (k & Hk & Hf). apply in_seq in Hk. exists k. split; [lia|done].
  - intros (k & Hk & Hf). exists k. split; [apply in_seq; lia|done].
Qed.

Lemma is_char_eq (b : byte) (c : char) : is_char b c = true <-> c = [b].
Proof. apply bool_decide_eq_true. Qed.

(** One step of a pattern whose head is not an escape. *)
Lemma like_plain_step (escape : option char) (current : char) (rest : list char) :
  (forall value, like_match_chars escape rest value = true <-> like_spec (like_tokens escape rest) value) ->
  forall value,
  (if is_char x25 current then
     existsb (fun k => like_match_chars escape rest (drop k value)) (seq 0 (S (length value)))
   else match value with
   | [] => false
   | ch :: value => (is_char x5f current || bool_decide (ch = current)) && like_match_chars escape rest value
   end) = true <->
  like_spec ((if is_char x25 current then AnyString else if is_char x5f current then AnyChar
              else Exactly current) :: like_tokens escape rest) value.
Proof.
  intros IH value. destruct (is_char x25 current).
  - rewrite some_drop, like_spec_string. by setoid_rewrite IH.
  - destruct (is_char x5f current).
    + rewrite like_spec_char. destruct value as [|ch value]; [done|]. cbn [orb andb]. apply IH.
    + rewrite like_spec_exactly. destruct value as [|ch value]; [done|]. cbn [orb].
      by rewrite andb_true_iff, bool_decide_eq_true, IH.
Qed.

Lemma like_match_spec (escape : option char) : forall (n : nat) (pattern value : list char),
  (length pattern <= n)%nat ->
  like_match_chars escape pattern value = true <-> like_spec (like_tokens escape pattern) value.
Proof.
  induction n as [|n IH]; intros pattern value Hn.
  - destruct pattern; [|cbn in Hn; lia]. cbn. rewrite like_spec_nil. by destruct value.
  - destruct pattern as [|current rest]; [cbn; rewrite like_spec_nil; by destruct value|].
    cbn [length] in Hn. destruct rest as [|next rest].
    + apply like_plain_step. intros v. cbn. rewrite like_spec_nil. by destruct v.
    + cbn [length] in Hn. cbn [like_match_chars like_tokens]. destruct (bool_decide (escape = Some current)).
      * rewrite like_spec_exactly. destruct value as [|ch value]; [done|].
        rewrite andb_true_iff, bool_decide_eq_true, IH by lia. done.
      * apply (like_plain_step escape current (next :: rest)). intros v. apply IH. cbn [length]. lia.
Qed.

(** C21. LIKE means what SQL says of it: once the escapes are read, [%] stands for any
    characters, [_] for exactly one, and every other character for itself; the match is of
    the whole text. *)
Theorem like_matches_exactly (escape : option char) (pattern value : list char) :
  like_match_chars escape pattern value = true <-> like_spec (like_tokens escape pattern) value.
Proof. by apply (like_match_spec escape (length pattern)). Qed.

(** ** Regular expressions *)

Inductive RegexToken : Type := RSkip | RDot | RChar (c : char).

Fixpoint regex_tokens (pattern : list char) : list RegexToken :=
  match pattern with
  | [] => []
  | pch :: prest =>
      let one := (if is_char x2e pch then RDot else RChar pch) :: regex_tokens prest in
      match prest with
      | star :: rest => if is_char x2e pch && is_char x2a star then RSkip :: regex_tokens rest else one
      | [] => one
      end
  end.

Inductive regex_spec : list RegexToken -> list char -> Prop :=
  | regex_end : regex_spec [] []
  | regex_skip (skipped value : list char) (ts : list RegexToken) :
      regex_spec ts value -> regex_spec (RSkip :: ts) (skipped ++ value)
  | regex_dot (c : char) (value : list char) (ts : list RegexToken) :
      regex_spec ts value -> regex_spec (RDot :: ts) (c :: value)
  | regex_char (c : char) (value : list char) (ts : list RegexToken) :
      regex_spec ts value -> regex_spec (RChar c :: ts) (c :: value).

(** A prefix of the value is matched. *)
Definition regex_prefix (ts : list RegexToken) (value : list char) : Prop :=
  exists matched rest, value = matched ++ rest /\ regex_spec ts matched.

Lemma regex_prefix_nil (value : list char) : regex_prefix [] value.
Proof. exists [], value. split; [done|constructor]. Qed.
Lemma regex_prefix_skip (ts : list RegexToken) (value : list char) :
  regex_prefix (RSkip :: ts) value <-> exists k, (k <= length value)%nat /\ regex_prefix ts (drop k value).
Proof.
  split.
  - intros (m & rest & -> & Hm). inversion Hm as [|skipped v ts' Hs| |]; subst. exists (length skipped).
    rewrite <- app_assoc, drop_app_length, !length_app. split; [lia|]. by exists v, rest.
  - intros (k & Hk & m & rest & Hd & Hm). exists (take k value ++ m), rest.
    rewrite <- app_assoc, <- Hd, take_drop. split; [done|]. by constructor.
Qed.
Lemma regex_prefix_one (pch : char) (ts : list RegexToken) (value : list char) :
  regex_prefix ((if is_char x2e pch then RDot else RChar pch) :: ts) value <->
  match value with
  | [] => False
  | vch :: value => (is_char x2e pch = true \/ pch = vch) /\ regex_prefix ts value
  end.
Proof.
  split.
  - intros (m & rest & -> & Hm). destruct (is_char x2e pch); inversion Hm; subst; cbn [app];
      (split; [by auto|]); by eexists _, rest.
  - destruct value as [|vch value]; [done|]. intros [Hc (m & rest & -> & Hm)]. exists (vch :: m), rest.
    split; [done|]. destruct (is_char x2e pch); [by constructor|]. destruct Hc as [|<-]; [done|]. by constructor.
Qed.

Lemma regexp_one_step (pch : char) (prest : list char) :
  (forall value, simple_regexp_match_here prest value = true <-> regex_prefix (regex_tokens prest) value) ->
  forall value,
  match value with
  | [] => false
  | vch :: vrest => (is_char x2e pch || bool_decide (pch = vch)) && simple_regexp_match_here prest vrest
  end = true <->
  regex_prefix ((if is_char x2e pch then RDot else RChar pch) :: regex_tokens prest) value.
Proof.
  intros IH value. rewrite regex_prefix_one. destruct value as [|vch value]; [done|].
  by rewrite andb_true_iff, orb_true_iff, bool_decide_eq_true, IH.
Qed.

Lemma regexp_here_spec : forall (n : nat) (pattern value : list char), (length pattern <= n)%nat ->
  simple_regexp_match_here pattern value = true <-> regex_prefix (regex_tokens pattern) value.
Proof.
  induction n as [|n IH]; intros pattern value Hn.
  - destruct pattern; [|cbn in Hn; lia]. split; [intros _; apply regex_prefix_nil|done].
  - destruct pattern as [|pch prest]; [split; [intros _; apply regex_prefix_nil|done]|].
    cbn [length] in Hn. destruct prest as [|star rest].
    + apply (regexp_one_step pch []). intros v. split; [intros _; apply regex_prefix_nil|done].
    + cbn [length] in Hn. cbn [simple_regexp_match_here regex_tokens]. destruct (_ && is_char x2a star).
      * rewrite some_drop, regex_prefix_skip. setoid_rewrite IH; [done|lia].
      * apply (regexp_one_step pch (star :: rest)). intros v. apply IH. cbn [length]. lia.
Qed.

(** Tokens that match at the end of a value are all [.*] and match at its start. *)
Lemma regex_prefix_empty (ts : list RegexToken) (value : list char) : regex_prefix ts [] -> regex_prefix ts value.
Proof.
  intros (m & rest & Hm & Hs). symmetry in Hm. apply app_eq_nil in Hm as [-> ->]. exists [], value. split; [done|].
  exact Hs.
Qed.

(** C33. A regular expression without anchors matches a text that is not empty exactly when
    some part of the text is matched by it: [.*] by any characters, [.] by one, every other
    character by itself. *)
Theorem regexp_finds_a_part (value pattern : list byte) : value <> [] ->
  strip_prefix [x5e] pattern = None -> strip_suffix [x24] pattern = None ->
  simple_regexp_match value pattern = true <->
  exists before part after, chars value = before ++ part ++ after /\ regex_spec (regex_tokens (chars pattern)) part.
Proof.
  intros Hv Hhat Hdollar. unfold simple_regexp_match.
  rewrite Hhat.
  rewrite Hdollar. set (vs := chars value).
  assert (Hvs : (0 < length vs)%nat).
  { unfold vs. destruct value as [|b r]; [done|]. cbn [chars].
    destruct (chars r) as [|[|c tl] rest]; [cbn; lia|cbn; lia|]. destruct (utf8_cont c); cbn; lia. }
  assert (removelast (map (fun k => drop k vs) (seq 0 (S (length vs)))) = map (fun k => drop k vs) (seq 0 (length vs))) as ->.
  { rewrite seq_S, map_app. cbn [map]. by rewrite removelast_last. }
  rewrite orb_true_iff, existsb_exists, bool_decide_eq_true. split.
  - intros [(v & Hin & Hm)| ->].
    + apply in_map_iff in Hin as (k & <- & _). apply (regexp_here_spec (length (chars pattern))) in Hm; [|done].
      destruct Hm as (part & after & Hd & Hs). exists (take k vs), part, after. by rewrite <- Hd, take_drop.
    + exists [], [], vs. split; [done|constructor].
  - intros (before & part & after & Hd & Hs). left.
    destruct (decide (length before < length vs)%nat) as [Hlt|Hge].
    + exists (drop (length before) vs). split; [apply in_map_iff; exists (length before); split; [done|apply in_seq; lia]|].
      apply (regexp_here_spec (length (chars pattern))); [done|]. rewrite Hd, drop_app_length. by exists part, after.
    + exists vs. split; [apply in_map_iff; exists 0%nat; split; [done|apply in_seq; lia]|].
      apply (regexp_here_spec (length (chars pattern))); [done|]. apply regex_prefix_empty. exists part, [].
      assert (length (part ++ after) = 0%nat) as Hn by (apply (f_equal length) in Hd; rewrite length_app in Hd; lia).
      apply length_zero_iff_nil, app_eq_nil in Hn as [-> _]. done.
Qed.

Lemma regexp_finds_a_part_witness :
  simple_regexp_match (as_bytes "xabby") (as_bytes "b.*y") = true /\
  exists before part after, chars (as_bytes "xabby") = before ++ part ++ after /\
    regex_spec (regex_tokens (chars (as_bytes "b.*y"))) part.
Proof.
  assert (E : simple_regexp_match (as_bytes "xabby") (as_bytes "b.*y") = true) by reflexivity.
  split; [exact E|].
  apply (regexp_finds_a_part (as_bytes "xabby") (as_bytes "b.*y")); [discriminate|reflexivity|reflexivity|exact E].
Defined.

(** ** At concrete inputs *)

(** After [^] the closing anchor is dropped: a prefix is enough. *)
Example closing_anchor_ignored : simple_regexp_match (as_bytes "ab") (as_bytes "^a$") = true.
Proof. reflexivity. Qed.
(** A [.*] before [$] may only stand for nothing. *)
Example skip_before_anchor_fails : simple_regexp_match (as_bytes "aXb") (as_bytes "a.*b$") = false.
Proof. reflexivity. Qed.
(** The empty text is matched by no pattern but the empty one. *)
Example empty_text_unmatched : simple_regexp_match [] (as_bytes ".*") = false.
Proof. reflexivity. Qed.
(** A character of several bytes is one [_]. *)
Example one_character : like_match_chars None (chars [x5f]) (chars [xc3; xa9]) = true.
Proof. reflexivity. Qed.
(** Without an ESCAPE clause the backslash stands for itself. *)
Example backslash_is_plain :
  like_match_chars None (chars (as_bytes "50\%")) (chars (as_bytes "50%")) = false /\
  like_match_chars (Some [x5c]) (chars (as_bytes "50\%")) (chars (as_bytes "50%")) = true.
Proof. split; reflexivity. Qed.
