(* ===== verification/Dates.v ===== *)
(** * The calendar

    The civil calendar of src/src/sql/values/default_expr.rs and sql/json.rs, and the date
    functions of sql/json.rs and sql/functions.rs.  Arithmetic on [i64] wraps as in the
    release profile. *)

From stdpp Require Import pretty.
From S2P Require Import Prelude Float Types TupleCodec Values Text Coerce Operators.

#[local] Open Scope string_scope.
#[local] Open Scope list_scope.
#[local] Open Scope Z_scope.

Abbreviation i64 := (to_signed 64).

(** ** Days and dates *)

(** [civil_from_days]; the divisions truncate and [as u32] wraps. *)
Definition civil_from_days (days_since_epoch : Z) : Z * Z * Z :=
  let z := i64 (days_since_epoch + 719468) in
  let era := Z.quot (if 0 <=? z then z else i64 (z - 146096)) 146097 in
  let doe := i64 (z - era * 146097) in
  let yoe := Z.quot (i64 (doe - Z.quot doe 1460 + Z.quot doe 36524 - Z.quot doe 146096)) 365 in
  let y := yoe + era * 400 in
  let doy := i64 (doe - (365 * yoe + Z.quot yoe 4 - Z.quot yoe 100)) in
  let mp := Z.quot (i64 (5 * doy + 2)) 153 in
  let d := doy - Z.quot (i64 (153 * mp + 2)) 5 + 1 in
  let m := mp + (if mp <? 10 then 3 else -9) in
  (y + (if m <=? 2 then 1 else 0), m mod 2 ^ 32, d mod 2 ^ 32).

Definition days_from_civil (year month day : Z) : Z :=
  let y := i64 (year - (if month <=? 2 then 1 else 0)) in
  let era := Z.quot (if 0 <=? y then y else i64 (y - 399)) 400 in
  let yoe := i64 (y - era * 400) in
  let doy := Z.quot (153 * (month + (if 2 <? month then -3 else 9)) + 2) 5 + day - 1 in
  let doe := i64 (yoe * 365 + Z.quot yoe 4 - Z.quot yoe 100 + doy) in
  i64 (era * 146097 + doe - 719468).

Definition days_in_month (year month : Z) : Z :=
  match month with
  | 1 | 3 | 5 | 7 | 8 | 10 | 12 => 31
  | 2 => if is_leap_year year then 29 else 28
  | _ => 30
  end.

(** [{:02}] and [{:04}]: zeros between the sign and the digits. *)
Definition padded (width : nat) (z : Z) : list byte :=
  let ds := as_bytes (pretty (Z.abs z)) in
  let sign := if z <? 0 then [x2d] else [] in
  sign ++ replicate (width - length sign - length ds) x30 ++ ds.

Definition date_of (year month day : Z) : list byte :=
  padded 4 year ++ [x2d] ++ padded 2 month ++ [x2d] ++ padded 2 day.

(** The time of the clock, in seconds since the epoch. *)
Class Clock := clock_seconds : Z.

(** [current_timestamp_text]. *)
Definition timestamp_text (seconds : Z) : list byte :=
  let '(year, month, day) := civil_from_days (seconds / 86400) in
  let seconds_of_day := seconds mod 86400 in
  date_of year month day ++ [x20] ++
  padded 2 (seconds_of_day / 3600) ++ [x3a] ++ padded 2 (seconds_of_day mod 3600 / 60) ++ [x3a] ++
  padded 2 (seconds_of_day mod 60).
Definition current_timestamp_text `{Clock} : list byte := timestamp_text clock_seconds.

(** ** Reading dates *)

(** [str::get(a..b)]. *)
Definition str_get (l : list byte) (a b : nat) : option (list byte) :=
  if (a <=? b)%nat && (b <=? length l)%nat && is_char_boundary l a && is_char_boundary l b
  then Some (slice l a b) else None.

Definition parse_ymd (text : list byte) : PgWireResult (Z * Z * Z) :=
  let invalid {A} : PgWireResult A := user_error "22007" ("invalid date '" +:+ of_bytes text +:+ "'") in
  let date := default text (str_get text 0 10) in
  match split_on x2d date with
  | [y; m; d] =>
      match parse_i64 y with
      | None => invalid
      | Some y =>
          match parse_u32 m with
          | None => invalid
          | Some m => match parse_u32 d with None => invalid | Some d => Ok (y, m, d) end
          end
      end
  | _ => invalid
  end.

(** The unit of an interval, [String::to_ascii_lowercase]d. *)
Definition one_of (unit : list byte) (names : list string) : bool := existsb (str_is unit) names.

Definition add_interval_to_date (text interval : list byte) (subtract : bool) : PgWireResult (list byte) :=
  '(y, m, d) ← parse_ymd text;
  let parts := split_whitespace interval in
  match parse_i64 (default [x30] (parts !! 0%nat)) with
  | None => user_error "22007" ("invalid interval '" +:+ of_bytes interval +:+ "'")
  | Some amount =>
      let amount := if subtract then i64 (- amount) else amount in
      let unit := lower (default (as_bytes "DAY") (parts !! 1%nat)) in
      let '(y, m, d) :=
        if one_of unit ["year"; "years"] then (i64 (y + amount), m, d)
        else if one_of unit ["month"; "months"] then
          let total := i64 (y * 12 + m - 1 + amount) in
          let y := total / 12 in
          let m := total mod 12 + 1 in
          (y, m, Z.min d (days_in_month y m))
        else if one_of unit ["week"; "weeks"] then
          civil_from_days (i64 (days_from_civil y m d + i64 (amount * 7)))
        else civil_from_days (i64 (days_from_civil y m d + amount)) in
      Ok (date_of y m d ++ default [] (str_get text 10 (length text)))
  end.

(** ** The date functions (functions.rs) *)

Section DateFunctions.
Context `{ValueTexts, Clock}.

(** [value.to_text().unwrap_or_default()]. *)
Definition text_of (value : ColumnValue) : list byte := default [] (to_text display_f32 display_f64 value).

Definition exactly_one (args : list ColumnValue) (name : string) : PgWireResult ColumnValue :=
  match args with [value] => Ok value | _ => unsupported (name +:+ " requires 1 argument") end.

Definition eval_date_trunc (field : list byte) (value : ColumnValue) : PgWireResult ColumnValue :=
  let text := text_of value in
  let cut (n : nat) (otherwise suffix : string) : PgWireResult (list byte) :=
    Ok (default (as_bytes otherwise) (str_get text 0 n) ++ as_bytes suffix) in
  let unit := lower field in
  result ← (if str_is unit "year" then cut 4%nat "1970" "-01-01 00:00:00"
            else if str_is unit "month" then cut 7%nat "1970-01" "-01 00:00:00"
            else if str_is unit "day" then cut 10%nat "1970-01-01" " 00:00:00"
            else if str_is unit "hour" then cut 13%nat "1970-01-01 00" ":00:00"
            else if str_is unit "minute" then cut 16%nat "1970-01-01 00:00" ":00"
            else if str_is unit "second" then Ok (default text (str_get text 0 19))
            else unsupported ("unsupported date_trunc field '" +:+ of_bytes field +:+ "'"));
  let result := of_bytes result in
  Ok (match value with
      | TimestampTz _ => TimestampTz result
      | Timestamp _ => Timestamp result
      | _ => Text result
      end).

Definition eval_extract (field : string) (value : ColumnValue) : PgWireResult ColumnValue :=
  let text := text_of value in
  let part := lower (as_bytes field) in
  let at_ (a b : nat) : PgWireResult (option Z) := Ok (str_get text a b ≫= parse_i32) in
  parsed ← (if one_of part ["year"; "years"] then at_ 0%nat 4%nat
            else if one_of part ["month"; "months"] then at_ 5%nat 7%nat
            else if one_of part ["day"; "days"] then at_ 8%nat 10%nat
            else if one_of part ["hour"; "hours"] then at_ 11%nat 13%nat
            else if one_of part ["minute"; "minutes"] then at_ 14%nat 16%nat
            else if one_of part ["second"; "seconds"] then at_ 17%nat 19%nat
            else unsupported ("unsupported extract field '" +:+ field +:+ "'"));
  match parsed with
  | Some z => Ok (Int32 z)
  | None => user_error "22007" ("cannot extract " +:+ field +:+ " from '" +:+ of_bytes text +:+ "'")
  end.

Definition eval_date_add_sub (args : list ColumnValue) (subtract : bool) : PgWireResult ColumnValue :=
  match args with
  | [date; interval] =>
      (fun t => Text (of_bytes t)) <$> add_interval_to_date (text_of date) (text_of interval) subtract
  | _ => unsupported "date_add/date_sub requires 2 arguments"
  end.

Definition eval_timestampadd (args : list ColumnValue) : PgWireResult ColumnValue :=
  match args with
  | [unit; amount; date] =>
      (fun t => Text (of_bytes t)) <$>
        add_interval_to_date (text_of date) (text_of amount ++ [x20] ++ text_of unit) false
  | _ => unsupported "timestampadd requires 3 arguments"
  end.

Definition eval_timestampdiff (args : list ColumnValue) : PgWireResult ColumnValue :=
  match args with
  | [unit; start; finish] =>
      let unit := lower (text_of unit) in
      '(y1, m1, d1) ← parse_ymd (text_of start);
      '(y2, m2, d2) ← parse_ymd (text_of finish);
      let days := i64 (days_from_civil y2 m2 d2 - days_from_civil y1 m1 d1) in
      Ok (Int64 (if one_of unit ["day"; "days"] then days
                 else if one_of unit ["week"; "weeks"] then Z.quot days 7
                 else if one_of unit ["month"; "months"] then i64 ((y2 - y1) * 12 + m2 - m1)
                 else if one_of unit ["year"; "years"] then i64 (y2 - y1)
                 else days))
  | _ => unsupported "timestampdiff requires 3 arguments"
  end.

Definition eval_str_to_date (args : list ColumnValue) : PgWireResult ColumnValue :=
  match args with
  | [value; _] => Ok (Text (of_bytes (text_of value)))
  | _ => unsupported "str_to_date requires 2 arguments"
  end.

Definition eval_unix_timestamp (args : list ColumnValue) : PgWireResult ColumnValue :=
  let text := match args with [] => current_timestamp_text | value :: _ => text_of value end in
  '(y, m, d) ← parse_ymd text;
  Ok (Int64 (i64 (days_from_civil y m d * 86400))).

Definition eval_from_unixtime (args : list ColumnValue) : PgWireResult ColumnValue :=
  match args with
  | [] => unsupported "from_unixtime requires an argument"
  | value :: _ => seconds ← value_to_i64 value; Ok (Text (of_bytes (timestamp_text (Z.max seconds 0))))
  end.

Definition eval_last_day (args : list ColumnValue) : PgWireResult ColumnValue :=
  value ← exactly_one args "last_day";
  '(y, m, _) ← parse_ymd (text_of value);
  Ok (Date (of_bytes (padded 4 y ++ [x2d] ++ padded 2 m ++ [x2d] ++ padded 2 (days_in_month y m)))).

Definition eval_week (args : list ColumnValue) : PgWireResult ColumnValue :=
  value ← exactly_one args "week";
  '(y, m, d) ← parse_ymd (text_of value);
  let day_of_year := i64 (days_from_civil y m d - days_from_civil y 1 1) in
  Ok (Int32 (to_signed 32 (Z.quot day_of_year 7))).
End DateFunctions.

(** * The calendar is right *)

(** ** Years of the 400-year cycle, counted from March *)

(** Every day of the cycle is a day [doy] of the year [100 c + 4 q + r]. *)
Definition cycle_day (c q r doy : Z) : Prop :=
  0 <= c <= 3 /\ 0 <= q <= 24 /\ 0 <= r <= 3 /\ 0 <= doy <= 365 /\
  (doy = 365 -> r = 3 /\ (q < 24 \/ c = 3)).

Definition cycle_doe (c q r doy : Z) : Z := 36524 * c + 1461 * q + 365 * r + doy.

Lemma cycle_day_exists (doe : Z) : 0 <= doe <= 146096 ->
  exists c q r doy, cycle_day c q r doy /\ doe = cycle_doe c q r doy.
Proof.
  intros H.
  assert (exists c d1, doe = 36524 * c + d1 /\ 0 <= c <= 3 /\ 0 <= d1 <= 36524 /\ (d1 = 36524 -> c = 3))
    as (c & d1 & -> & Hc & Hd1 & Hl).
  { exists (Z.min (doe / 36524) 3), (doe - 36524 * Z.min (doe / 36524) 3).
    Z.to_euclidean_division_equations. lia. }
  assert (exists q d2, d1 = 1461 * q + d2 /\ 0 <= q <= 24 /\ 0 <= d2 <= 1460 /\ (d2 = 1460 -> q < 24 \/ c = 3))
    as (q & d2 & -> & Hq & Hd2 & Hl2).
  { exists (Z.min (d1 / 1461) 24), (d1 - 1461 * Z.min (d1 / 1461) 24). Z.to_euclidean_division_equations. lia. }
  exists c, q, (Z.min (d2 / 365) 3), (d2 - 365 * Z.min (d2 / 365) 3). unfold cycle_day, cycle_doe.
  Z.to_euclidean_division_equations. lia.
Qed.

Lemma cycle_year (c q r doy : Z) : cycle_day c q r doy ->
  let doe := cycle_doe c q r doy in
  let yoe := 100 * c + 4 * q + r in
  0 <= doe <= 146096 /\ 0 <= yoe <= 399 /\
  (doe - doe / 1460 + doe / 36524 - doe / 146096) / 365 = yoe /\
  doe = 365 * yoe + yoe / 4 - yoe / 100 + doy.
Proof.
  intros (Hc & Hq & Hr & Hd & Hl). cbv zeta. unfold cycle_doe.
  set (doe := 36524 * c + 1461 * q + 365 * r + doy).
  assert (Hdoe : 0 <= doe <= 146096) by lia. split; [done|]. split; [lia|].
  assert (Ha : doe / 36524 - doe / 146096 = c) by (Z.to_euclidean_division_equations; lia).
  split.
  - assert (exists eps, doe / 1460 = 25 * c + q + eps /\ 0 <= doy - eps <= 364) as (eps & He & Heps).
    { exists (doe / 1460 - 25 * c - q). split; [lia|]. Z.to_euclidean_division_equations. lia. }
    symmetry. apply Z.div_unique_pos with (doy - eps); lia.
  - Z.to_euclidean_division_equations. lia.
Qed.

(** ** Dates and days of the cycle *)

Definition calendar_date (y m d : Z) : Prop := 1 <= m <= 12 /\ 1 <= d <= days_in_month y m.

(** The date [y-m-d] is day [doy] of the March year [400 era + 100 c + 4 q + r]. *)
Definition date_in_cycle (era c q r doy y m d : Z) : Prop :=
  exists mp, 0 <= mp <= 11 /\ m = mp + (if mp <? 10 then 3 else -9) /\
    y = 400 * era + 100 * c + 4 * q + r + (if m <=? 2 then 1 else 0) /\
    doy = (153 * mp + 2) / 5 + d - 1.

Lemma cycle_leap (era c q r : Z) : 0 <= c <= 3 -> 0 <= q <= 24 -> 0 <= r <= 3 ->
  is_leap_year (400 * era + 100 * c + 4 * q + r + 1) = true <-> r = 3 /\ (q < 24 \/ c = 3).
Proof.
  intros Hc Hq Hr. unfold is_leap_year. rewrite orb_true_iff, andb_true_iff, negb_true_iff, !Z.eqb_eq, Z.eqb_neq.
  Z.to_euclidean_division_equations. lia.
Qed.

(** The months from March on. *)
Lemma twelve_months (P : Z -> Prop) (mp : Z) : 0 <= mp <= 11 ->
  P 0 -> P 1 -> P 2 -> P 3 -> P 4 -> P 5 -> P 6 -> P 7 -> P 8 -> P 9 -> P 10 -> P 11 -> P mp.
Proof.
  intros H. intros. assert (mp = 0 \/ mp = 1 \/ mp = 2 \/ mp = 3 \/ mp = 4 \/ mp = 5 \/ mp = 6 \/ mp = 7 \/ mp = 8 \/
    mp = 9 \/ mp = 10 \/ mp = 11) as Hmp by lia.
  by repeat (destruct Hmp as [->|Hmp]; [done|]); subst.
Qed.

Lemma month_of_doy (doy : Z) : 0 <= doy <= 365 -> 0 <= (5 * doy + 2) / 153 <= 11.
Proof. intros H. Z.to_euclidean_division_equations. lia. Qed.

(** Evaluate the month and the day of a constant [mp]. *)
Ltac eval_month :=
  match goal with |- context [(153 * ?k + 2) / 5] =>
    let v := eval vm_compute in ((153 * k + 2) / 5) in change ((153 * k + 2) / 5) with v end;
  match goal with |- context [days_in_month (?y + _) ?m] =>
    let v := eval vm_compute in m in change m with v;
    let e := eval vm_compute in (if v <=? 2 then 1 else 0) in
    change (days_in_month _ v) with (days_in_month (y + e) v) end;
  cbn [days_in_month].

Lemma date_of_cycle_day (era c q r doy : Z) : cycle_day c q r doy ->
  let mp := (5 * doy + 2) / 153 in
  let m := mp + (if mp <? 10 then 3 else -9) in
  let d := doy - (153 * mp + 2) / 5 + 1 in
  let y := 400 * era + 100 * c + 4 * q + r + (if m <=? 2 then 1 else 0) in
  date_in_cycle era c q r doy y m d /\ calendar_date y m d.
Proof.
  intros (Hc & Hq & Hr & Hd & Hl). cbv zeta. pose proof (month_of_doy doy Hd) as Hmp.
  pose proof (Z.div_mod (5 * doy + 2) 153 ltac:(lia)) as Heq. pose proof (Z.mod_pos_bound (5 * doy + 2) 153 ltac:(lia)) as Hmod.
  set (mp := (5 * doy + 2) / 153) in *. set (rm := (5 * doy + 2) mod 153) in *. clearbody mp rm.
  split; [exists mp; repeat split; lia|]. revert Heq. unfold calendar_date.
  pattern mp. apply twelve_months; [exact Hmp|..]; intros Heq; (split; [cbn; lia|]); eval_month; try lia.
  destruct (is_leap_year _) eqn:E; [lia|].
  assert (doy <> 365); [|lia]. intros ->. destruct (Hl eq_refl) as [-> Hqc].
  by rewrite (proj2 (cycle_leap era c q 3 ltac:(lia) ltac:(lia) ltac:(lia))) in E.
Qed.

Lemma cycle_day_of_date (y m d : Z) : calendar_date y m d ->
  exists era c q r doy, cycle_day c q r doy /\ date_in_cycle era c q r doy y m d /\ (5 * doy + 2) / 153 = m - (if m <=? 2 then -9 else 3).
Proof.
  intros [Hm Hd]. set (mp := m - (if m <=? 2 then -9 else 3)). set (y' := y - (if m <=? 2 then 1 else 0)).
  assert (Hmp : 0 <= mp <= 11) by (unfold mp; destruct (Z.leb_spec m 2); lia).
  assert (Hm' : m = mp + (if mp <? 10 then 3 else -9)).
  { unfold mp. destruct (Z.leb_spec m 2); case_match; lia. }
  assert (exists era c q r, y' = 400 * era + 100 * c + 4 * q + r /\ 0 <= c <= 3 /\ 0 <= q <= 24 /\ 0 <= r <= 3)
    as (era & c & q & r & Hy & Hc & Hq & Hr).
  { exists (y' / 400), (y' mod 400 / 100), (y' mod 400 mod 100 / 4), (y' mod 400 mod 100 mod 4).
    clearbody y' mp. clear Hd. Z.to_euclidean_division_equations. lia. }
  assert (Hy2 : y = 400 * era + 100 * c + 4 * q + r + (if m <=? 2 then 1 else 0)) by (unfold y' in Hy; lia).
  exists era, c, q, r, ((153 * mp + 2) / 5 + d - 1). clearbody mp. clear y' Hy.
  split; [|split; [exists mp; split; [lia|]; split; [exact Hm'|]; split; [exact Hy2|reflexivity]|]].
  - rewrite Hy2 in Hd. clear Hy2 y. rewrite Hm' in Hd. clear Hm' Hm m. revert Hd.
    unfold cycle_day. pattern mp. apply twelve_months; [exact Hmp|..]; intros Hd;
      match type of Hd with context [days_in_month (?z + _) ?m] =>
        let v := eval vm_compute in m in change m with v in Hd;
        let e := eval vm_compute in (if v <=? 2 then 1 else 0) in
        change (days_in_month _ v) with (days_in_month (z + e) v) in Hd end;
      cbn [days_in_month] in Hd;
      match goal with |- context [(153 * ?k + 2) / 5] =>
        let v := eval vm_compute in ((153 * k + 2) / 5) in change ((153 * k + 2) / 5) with v end; try lia.
    destruct (is_leap_year _) eqn:E; [|lia]. apply cycle_leap in E; lia.
  - rewrite Hm' in Hd. clear Hy2 Hm'. assert (Hd2 : 1 <= d <= days_in_month 0 (mp + (if mp <? 10 then 3 else -9))).
    { revert Hd. unfold days_in_month. change (is_leap_year 0) with true. destruct (is_leap_year y); [done|].
      repeat case_match; lia. }
    clear Hd. revert Hd2. pattern mp. apply twelve_months; [exact Hmp|..]; intros Hd2;
      match type of Hd2 with context [days_in_month 0 ?m] =>
        let v := eval vm_compute in (days_in_month 0 m) in change (days_in_month 0 m) with v in Hd2 end;
      match goal with |- context [(153 * ?k + 2) / 5] =>
        let v := eval vm_compute in ((153 * k + 2) / 5) in change ((153 * k + 2) / 5) with v end;
      Z.to_euclidean_division_equations; lia.
Qed.

(** ** The code computes this calendar *)

Lemma i64_small (z : Z) : - 2 ^ 63 <= z < 2 ^ 63 -> i64 z = z.
Proof. intros H. apply to_signed_small; [lia|]. unfold in_signed. lia. Qed.

Lemma floor_era (z n : Z) : 0 < n -> Z.quot (if 0 <=? z then z else z - (n - 1)) n = z / n.
Proof.
  intros Hn. destruct (Z.leb_spec 0 z) as [Hz|Hz]; [by rewrite Z.quot_div_nonneg by lia|].
  pose proof (Z.div_mod z n ltac:(lia)) as Hd. pose proof (Z.mod_pos_bound z n Hn) as Hm.
  set (k := z / n) in *. set (s := z mod n) in *. clearbody k s. subst z.
  replace (n * k + s - (n - 1)) with (- (n * (- k) + (n - 1 - s))) by lia.
  rewrite Z.quot_opp_l, Z.quot_div_nonneg by nia. rewrite Z.mul_comm, Z.div_add_l, Z.div_small by lia. lia.
Qed.

Definition days_of_cycle (era c q r doy : Z) : Z := era * 146097 + cycle_doe c q r doy - 719468.

Lemma civil_from_cycle (era c q r doy : Z) : cycle_day c q r doy -> - 10 ^ 12 <= era <= 10 ^ 12 ->
  let mp := (5 * doy + 2) / 153 in
  let m := mp + (if mp <? 10 then 3 else -9) in
  civil_from_days (days_of_cycle era c q r doy) =
  (400 * era + 100 * c + 4 * q + r + (if m <=? 2 then 1 else 0), m, doy - (153 * mp + 2) / 5 + 1).
Proof.
  intros Hc He. cbv zeta. destruct (cycle_year c q r doy Hc) as (Hdoe & Hyoe & Hf & Hdoy). cbv zeta in *.
  unfold civil_from_days, days_of_cycle. cbv zeta.
  set (doe := cycle_doe c q r doy) in *. set (yoe := 100 * c + 4 * q + r) in *.
  replace (era * 146097 + doe - 719468 + 719468) with (era * 146097 + doe) by lia.
  rewrite (i64_small (era * 146097 + doe)), (i64_small (era * 146097 + doe - 146096)) by lia.
  assert (Z.quot (if 0 <=? era * 146097 + doe then era * 146097 + doe else era * 146097 + doe - 146096) 146097 = era) as ->.
  { change 146096 with (146097 - 1). rewrite floor_era by lia. rewrite Z.div_add_l, Z.div_small by lia. lia. }
  replace (era * 146097 + doe - era * 146097) with doe by lia. rewrite (i64_small doe) by lia.
  rewrite !(Z.quot_div_nonneg doe) by lia.
  assert (0 <= doe / 1460 <= doe /\ 0 <= doe / 36524 <= 4 /\ 0 <= doe / 146096 <= 1) as Hb
    by (Z.to_euclidean_division_equations; lia).
  assert (0 <= doe - doe / 1460 + doe / 36524 - doe / 146096 <= 146100) by (Z.to_euclidean_division_equations; lia).
  rewrite i64_small, Z.quot_div_nonneg, Hf by lia. rewrite !(Z.quot_div_nonneg yoe) by lia.
  assert (doe - (365 * yoe + yoe / 4 - yoe / 100) = doy) as -> by lia.
  destruct Hc as (Hc & Hq & Hr & Hd & Hl).
  rewrite (i64_small doy), (i64_small (5 * doy + 2)) by lia. rewrite (Z.quot_div_nonneg (5 * doy + 2)) by lia.
  pose proof (month_of_doy doy Hd) as Hmp. set (mp := (5 * doy + 2) / 153) in *.
  rewrite i64_small, (Z.quot_div_nonneg (153 * mp + 2)) by lia.
  assert (Hday : 0 <= (153 * mp + 2) / 5 <= doy).
  { unfold mp. Z.to_euclidean_division_equations. lia. }
  f_equal; [f_equal; [unfold yoe; lia|]|].
  - apply Z.mod_small. destruct (Z.ltb_spec mp 10); lia.
  - apply Z.mod_small. lia.
Qed.

Lemma days_from_cycle (era c q r doy y m d : Z) : cycle_day c q r doy -> date_in_cycle era c q r doy y m d ->
  - 10 ^ 12 <= era <= 10 ^ 12 -> days_from_civil y m d = days_of_cycle era c q r doy.
Proof.
  intros Hc (mp & Hmp & Hm & Hy & Hdoy) He. destruct (cycle_year c q r doy Hc) as (Hdoe & Hyoe & _ & Hyear). cbv zeta in *.
  unfold days_from_civil, days_of_cycle. cbv zeta.
  set (doe := cycle_doe c q r doy) in *. set (yoe := 100 * c + 4 * q + r) in *.
  assert (y - (if m <=? 2 then 1 else 0) = 400 * era + yoe) as -> by (unfold yoe; lia).
  rewrite (i64_small (400 * era + yoe)), (i64_small (400 * era + yoe - 399)) by lia.
  assert (Z.quot (if 0 <=? 400 * era + yoe then 400 * era + yoe else 400 * era + yoe - 399) 400 = era) as ->.
  { change 399 with (400 - 1). rewrite floor_era by lia.
    rewrite (Z.mul_comm 400 era), Z.div_add_l, Z.div_small by lia. lia. }
  replace (400 * era + yoe - era * 400) with yoe by lia. rewrite (i64_small yoe) by lia.
  rewrite !(Z.quot_div_nonneg yoe) by lia.
  assert (m + (if 2 <? m then -3 else 9) = mp) as ->.
  { rewrite Hm. destruct (Z.ltb_spec mp 10); [rewrite (proj2 (Z.ltb_lt _ _)) by lia|rewrite (proj2 (Z.ltb_ge _ _)) by lia]; lia. }
  rewrite (Z.quot_div_nonneg (153 * mp + 2)) by lia. rewrite <- Hdoy.
  assert (yoe * 365 + yoe / 4 - yoe / 100 + doy = doe) as -> by lia.
  rewrite (i64_small doe), i64_small by lia. lia.
Qed.

(** ** The calendar *)

(** Years the [i64] arithmetic holds with a wide margin. *)
Definition year_in_range (y : Z) : Prop := - 10 ^ 14 <= y <= 10 ^ 14.

Lemma cycle_of_date (y m d : Z) : calendar_date y m d -> year_in_range y ->
  exists era c q r doy, cycle_day c q r doy /\ date_in_cycle era c q r doy y m d /\
    (5 * doy + 2) / 153 = m - (if m <=? 2 then -9 else 3) /\ - 10 ^ 12 <= era <= 10 ^ 12.
Proof.
  intros Hd Hy. destruct (cycle_day_of_date y m d Hd) as (era & c & q & r & doy & Hc & Hin & Hmp).
  exists era, c, q, r, doy. repeat (split; [done|]). destruct Hc as (? & ? & ? & _), Hin as (mp & _ & _ & Hyear & _).
  unfold year_in_range in Hy. destruct (m <=? 2); lia.
Qed.

Lemma civil_of_days (y m d : Z) : calendar_date y m d -> year_in_range y ->
  civil_from_days (days_from_civil y m d) = (y, m, d).
Proof.
  intros Hd Hy. destruct (cycle_of_date y m d Hd Hy) as (era & c & q & r & doy & Hc & Hin & Hmp & He).
  rewrite (days_from_cycle era c q r doy) by done. rewrite civil_from_cycle by done. rewrite Hmp.
  destruct Hin as (mp & Hb & Hm & Hyear & Hdoy).
  assert (m - (if m <=? 2 then -9 else 3) = mp) as ->.
  { rewrite Hm. destruct (Z.ltb_spec mp 10); [rewrite (proj2 (Z.leb_gt _ _)) by lia|rewrite (proj2 (Z.leb_le _ _)) by lia]; lia. }
  rewrite <- Hm. f_equal; [f_equal; lia|lia].
Qed.

Lemma days_of_civil (n : Z) : - 10 ^ 14 <= n <= 10 ^ 14 ->
  let '(y, m, d) := civil_from_days n in calendar_date y m d /\ year_in_range y /\ days_from_civil y m d = n.
Proof.
  intros Hn. destruct (cycle_day_exists ((n + 719468) mod 146097)) as (c & q & r & doy & Hc & Hdoe).
  { pose proof (Z.mod_pos_bound (n + 719468) 146097 ltac:(lia)). lia. }
  assert (exists era, n = days_of_cycle era c q r doy /\ - 10 ^ 10 <= era <= 10 ^ 10) as (era & -> & He).
  { exists ((n + 719468) / 146097). unfold days_of_cycle. rewrite <- Hdoe.
    pose proof (Z.div_mod (n + 719468) 146097 ltac:(lia)). split; [lia|]. clear Hdoe.
    Z.to_euclidean_division_equations. lia. }
  rewrite civil_from_cycle by (done || lia). destruct (date_of_cycle_day era c q r doy Hc) as [Hin Hd]. cbv zeta in *.
  split; [exact Hd|]. split; [|apply (days_from_cycle era c q r doy); [done|done|lia]].
  destruct Hc as (? & ? & ? & _). unfold year_in_range. destruct (_ <=? 2); lia.
Qed.

(** The number of a day, without the cycle. *)
Lemma days_formula (y m d : Z) : calendar_date y m d -> year_in_range y ->
  let y' := y - (if m <=? 2 then 1 else 0) in
  let mp := m - (if m <=? 2 then -9 else 3) in
  days_from_civil y m d = 365 * y' + y' / 4 - y' / 100 + y' / 400 + (153 * mp + 2) / 5 + d - 719469.
Proof.
  intros Hd Hy. cbv zeta. destruct (cycle_of_date y m d Hd Hy) as (era & c & q & r & doy & Hc & Hin & Hmp & He).
  rewrite (days_from_cycle era c q r doy) by done. destruct Hin as (mp & Hb & Hm & Hyear & Hdoy).
  assert (m - (if m <=? 2 then -9 else 3) = mp) as ->.
  { rewrite Hm. destruct (Z.ltb_spec mp 10); [rewrite (proj2 (Z.leb_gt _ _)) by lia|rewrite (proj2 (Z.leb_le _ _)) by lia]; lia. }
  assert (y - (if m <=? 2 then 1 else 0) = 400 * era + 100 * c + 4 * q + r) as -> by lia.
  unfold days_of_cycle, cycle_doe. destruct Hc as (Hc & Hq & Hr & _). clear Hm Hyear Hmp Hd Hy.
  set (k := (153 * mp + 2) / 5) in *. clearbody k.
  Z.to_euclidean_division_equations. lia.
Qed.

Definition next_day (y m d : Z) : Z * Z * Z :=
  if d <? days_in_month y m then (y, m, d + 1) else if m <? 12 then (y, m + 1, 1) else (y + 1, 1, 1).

Lemma leap_reflect (y : Z) : is_leap_year y = true <-> (y mod 4 = 0 /\ y mod 100 <> 0) \/ y mod 400 = 0.
Proof.
  unfold is_leap_year. rewrite orb_true_iff, andb_true_iff, negb_true_iff, !Z.eqb_eq, Z.eqb_neq.
  Z.to_euclidean_division_equations. lia.
Qed.

(** Decide the tests on constant months. *)
Ltac eval_month_tests :=
  repeat match goal with |- context [?a <=? 2] =>
    let v := eval vm_compute in (a <=? 2) in change (a <=? 2) with v end;
  cbn [days_in_month]; cbv iota;
  repeat match goal with |- context [(153 * ?k + 2) / 5] =>
    let v := eval vm_compute in ((153 * k + 2) / 5) in change ((153 * k + 2) / 5) with v end.

Lemma days_next_day (y m d : Z) : calendar_date y m d -> year_in_range y -> year_in_range (y + 1) ->
  let '(y2, m2, d2) := next_day y m d in
  calendar_date y2 m2 d2 /\ days_from_civil y2 m2 d2 = days_from_civil y m d + 1.
Proof.
  intros Hd Hy Hy1. pose proof Hd as [Hm Hday]. unfold next_day. destruct (Z.ltb_spec d (days_in_month y m)) as [Hlt|Hge].
  - assert (calendar_date y m (d + 1)) as Hd' by (split; lia). split; [done|]. rewrite !days_formula by done. lia.
  - assert (d = days_in_month y m) as -> by lia.
    assert (Hpos : forall y m, 1 <= days_in_month y m) by (intros; unfold days_in_month; repeat case_match; lia).
    destruct (Z.ltb_spec m 12) as [Hm12|Hm12].
    + assert (calendar_date y (m + 1) 1) as Hd' by (split; [lia|split; [lia|apply Hpos]]). split; [done|].
      rewrite !days_formula by done. clear Hd Hd' Hy Hy1 Hday Hge Hpos.
      assert (m = 1 \/ m = 2 \/ m = 3 \/ m = 4 \/ m = 5 \/ m = 6 \/ m = 7 \/ m = 8 \/ m = 9 \/ m = 10 \/ m = 11) as H by lia.
      clear Hm Hm12. destruct H as [->|[->|H]]; [eval_month_tests; lia| |].
      * cbn [days_in_month]. destruct (is_leap_year y) eqn:E; eval_month_tests;
          [apply leap_reflect in E|apply not_true_iff_false in E; rewrite leap_reflect in E];
          Z.to_euclidean_division_equations; lia.
      * repeat (destruct H as [->|H]; [eval_month_tests; lia|]). subst. eval_month_tests. lia.
    + assert (m = 12) as -> by lia. assert (calendar_date (y + 1) 1 1) as Hd' by (split; [lia|split; [lia|apply Hpos]]).
      split; [done|]. rewrite !days_formula by done. replace (y + 1) with (y + 1 - 1 + 1) by lia. eval_month_tests.
      replace (y + 1 - 1 + 1 - 1) with y by lia. rewrite !Z.sub_0_r. lia.
Qed.

(** C20. The calendar is the proleptic Gregorian one: the first of January 1970 is day 0, the
    day after a date, across the ends of months and years and with the leap years of the
    400-year cycle, has the next number, and [civil_from_days] and [days_from_civil] are
    inverse to each other, for any year of up to fourteen digits. *)
Theorem calendar_bijection (y m d n : Z) :
  calendar_date y m d -> year_in_range y -> year_in_range (y + 1) -> - 10 ^ 14 <= n <= 10 ^ 14 ->
  days_from_civil 1970 1 1 = 0 /\
  (let '(y2, m2, d2) := next_day y m d in
   calendar_date y2 m2 d2 /\ days_from_civil y2 m2 d2 = days_from_civil y m d + 1) /\
  civil_from_days (days_from_civil y m d) = (y, m, d) /\
  (let '(y2, m2, d2) := civil_from_days n in calendar_date y2 m2 d2 /\ days_from_civil y2 m2 d2 = n).
Proof.
  intros Hd Hy Hy1 Hn. split; [reflexivity|]. split; [by apply days_next_day|]. split; [by apply civil_of_days|].
  pose proof (days_of_civil n Hn) as H. destruct (civil_from_days n) as [[y2 m2] d2]. destruct H as (? & _ & ?). done.
Qed.

Lemma calendar_bijection_witness :
  next_day 2024 2 28 = (2024, 2, 29) /\
  civil_from_days (days_from_civil 2024 2 28) = (2024, 2, 28) /\ civil_from_days 19782 = (2024, 2, 29).
Proof.
  destruct (calendar_bijection 2024 2 28 19782) as (_ & _ & Hc & Hn);
    [split; [lia|vm_compute; split; discriminate]|unfold year_in_range; lia|unfold year_in_range; lia|lia|].
  split; [reflexivity|]. split; [exact Hc|reflexivity].
Defined.

(** ** Dates as texts *)

Lemma pretty_go_length (w : nat) : forall (x : N) (s : string), (x < 10 ^ N.of_nat w)%N ->
  (length (as_bytes (pretty_N_go x s)) <= w + length (as_bytes s))%nat.
Proof.
  induction w as [|w IH]; intros x s Hx.
  - assert (x = 0%N) as -> by (cbn in Hx; lia). rewrite pretty_N_go_0. lia.
  - destruct (decide (x = 0%N)) as [->|Hne]; [rewrite pretty_N_go_0; lia|]. rewrite pretty_N_go_step by lia.
    assert (x / 10 < 10 ^ N.of_nat w)%N as Hd.
    { apply N.Div0.div_lt_upper_bound. rewrite Nat2N.inj_succ, N.pow_succ_r' in Hx. lia. }
    pose proof (IH (x / 10)%N (String (pretty_N_char (x mod 10)) s) Hd) as H.
    change (length (as_bytes (String ?c s))) with (S (length (as_bytes s))) in H. lia.
Qed.

Lemma padded_dec (width : nat) (z : Z) : (0 < width)%nat -> 0 <= z < 10 ^ Z.of_nat width -> padded width z = dec width z.
Proof.
  intros Hw Hz. unfold padded. rewrite (proj2 (Z.ltb_ge _ _)) by lia. cbn [length app]. rewrite Nat.sub_0_r, Z.abs_eq by lia.
  destruct (pretty_digits z ltac:(lia)) as (Hd & Hv & _).
  assert (Hlen : (length (as_bytes (pretty z)) <= width)%nat).
  { destruct z as [|p|p]; [cbn; lia| |lia].
    change (pretty (Z.pos p)) with (pretty (N.pos p)). unfold pretty, pretty_N. rewrite decide_False by done.
    pose proof (pretty_go_length width (N.pos p) "" ltac:(lia)) as H. change (length (as_bytes "")) with 0%nat in H. lia. }
  set (ds := as_bytes (pretty z)) in *.
  assert (length (replicate (width - length ds) x30 ++ ds) = width) as Hl by (rewrite length_app, length_replicate; lia).
  rewrite <- (dec_digits_value (replicate (width - length ds) x30 ++ ds)).
  - by rewrite Hl, digits_value_app, digits_value_zeros, Hv.
  - rewrite forallb_app, Hd, andb_true_r. apply forallb_forall. intros b. rewrite <- list_elem_of_In, elem_of_replicate. by intros [-> _].
Qed.

(** A text that is a date followed by the rest of a time stamp. *)
Definition starts_char (l : list byte) : bool := match l with b :: _ => negb (utf8_cont b) | [] => true end.

Definition plain_date (y m d : Z) : Prop := calendar_date y m d /\ 0 <= y <= 9999.

Lemma plain_date_of (y m d : Z) : plain_date y m d -> date_of y m d = date_text y m d.
Proof.
  intros [[Hm Hd] Hy]. unfold date_of, date_text.
  assert (days_in_month y m <= 31) by (unfold days_in_month; repeat case_match; lia).
  by rewrite !padded_dec by (cbn; lia).
Qed.

Lemma date_text_length (y m d : Z) : length (date_text y m d) = 10%nat.
Proof. unfold date_text. by rewrite !length_app, !length_dec. Qed.

Lemma date_text_ascii (y m d : Z) : Forall (fun b => utf8_cont b = false) (date_text y m d).
Proof.
  assert (Hdig : forall l, forallb is_digit l = true -> Forall (fun b => utf8_cont b = false) l).
  { intros l. rewrite forallb_forall. intros Hl. apply Forall_forall. intros b Hb%list_elem_of_In.
    apply Hl in Hb. by destruct b. }
  unfold date_text. rewrite !Forall_app. split_and!; try (by apply Hdig, dec_digits); by constructor.
Qed.

Lemma date_boundaries (y m d : Z) (rest : list byte) : starts_char rest = true ->
  is_char_boundary (date_text y m d ++ rest) 0 = true /\ is_char_boundary (date_text y m d ++ rest) 10 = true /\
  is_char_boundary (date_text y m d ++ rest) (length (date_text y m d ++ rest)) = true.
Proof.
  intros Hr. pose proof (date_text_length y m d) as Hl. pose proof (date_text_ascii y m d) as Ha.
  unfold is_char_boundary. split; [|split].
  - destruct (date_text y m d) as [|b l]; [done|]. apply Forall_cons in Ha as [Hb _]. cbn. by rewrite Hb.
  - rewrite lookup_app_r, Hl by lia. change (10 - 10)%nat with 0%nat. destruct rest as [|b r]; cbn.
    + reflexivity.
    + exact Hr.
  - rewrite lookup_ge_None_2 by lia. apply Nat.eqb_refl.
Qed.

Lemma str_get_date (y m d : Z) (rest : list byte) : starts_char rest = true ->
  str_get (date_text y m d ++ rest) 0 10 = Some (date_text y m d) /\
  str_get (date_text y m d ++ rest) 10 (length (date_text y m d ++ rest)) = Some rest.
Proof.
  intros Hr. destruct (date_boundaries y m d rest Hr) as (B0 & B10 & Bend). unfold str_get. rewrite B0, B10, Bend.
  pose proof (date_text_length y m d) as Hl. rewrite !(proj2 (Nat.leb_le _ _)) by (rewrite ?length_app; lia).
  cbn [andb]. unfold slice. rewrite drop_0. split; f_equal.
  rewrite <- Hl at 2. rewrite drop_app_length, length_app, Hl.
  replace (10 + length rest - 10)%nat with (length rest) by lia. apply firstn_all.
Qed.

Lemma parse_ymd_date (y m d : Z) (rest : list byte) : plain_date y m d -> starts_char rest = true ->
  parse_ymd (date_text y m d ++ rest) = Ok (y, m, d).
Proof.
  intros [[Hm Hd] Hy] Hr. unfold parse_ymd. destruct (str_get_date y m d rest Hr) as [-> _]. cbn [from_option]. unfold id.
  assert (days_in_month y m <= 31) by (unfold days_in_month; repeat case_match; lia).
  assert (date_text y m d = dec 4 y ++ x2d :: dec 2 m ++ x2d :: dec 2 d) as E by reflexivity. rewrite E at 1.
  rewrite split_on_app by (by apply digits_avoid, dec_digits).
  rewrite split_on_app by (by apply digits_avoid, dec_digits).
  rewrite split_on_none by (by apply digits_avoid, dec_digits).
  unfold parse_u32.
  assert (forall w z, (0 < w)%nat -> dec w z <> []) as Hne.
  { intros w z Hw Hnil. apply (f_equal length) in Hnil. rewrite length_dec in Hnil. cbn in Hnil. lia. }
  rewrite parse_i64_digits, !parse_u64_digits
    by (rewrite ?digits_value_dec by (cbn; lia); first [apply dec_digits|apply Hne; lia|unfold i64_max, u64_max; lia]).
  rewrite !digits_value_dec by (cbn; lia). cbn [mbind option_bind]. unfold u32_max.
  by rewrite !(proj2 (Z.leb_le _ _)) by lia.
Qed.

Lemma split_amount (n : Z) : split_whitespace (as_bytes (pretty n)) = [as_bytes (pretty n)].
Proof.
  destruct (pretty_signed n) as (ds & Hd & Hne & _ & E). rewrite E. apply split_whitespace_word.
  - destruct (n <? 0); [done|exact Hne].
  - pose proof (digits_visible ds Hd) as Hv. destruct (n <? 0); [|exact Hv]. cbn [forallb]. by rewrite Hv.
Qed.

(** Adding [n] days. *)
Lemma add_days (y m d n : Z) (rest : list byte) (subtract : bool) :
  plain_date y m d -> starts_char rest = true -> - 10 ^ 13 <= n <= 10 ^ 13 ->
  add_interval_to_date (date_text y m d ++ rest) (as_bytes (pretty n)) subtract =
  Ok (let '(y2, m2, d2) := civil_from_days (days_from_civil y m d + (if subtract then - n else n)) in
      date_of y2 m2 d2 ++ rest).
Proof.
  intros Hp Hr Hn. unfold add_interval_to_date. rewrite parse_ymd_date by done. rewrite bind_ok, split_amount.
  cbn [lookup list_lookup from_option]. unfold id. rewrite parse_i64_pretty by (unfold in_signed; lia).
  change (one_of (lower (as_bytes "DAY")) ["year"; "years"]%string) with false.
  change (one_of (lower (as_bytes "DAY")) ["month"; "months"]%string) with false.
  change (one_of (lower (as_bytes "DAY")) ["week"; "weeks"]%string) with false. cbv iota.
  assert ((if subtract then i64 (- n) else n) = (if subtract then - n else n)) as ->.
  { destruct subtract; [apply i64_small; lia|done]. }
  destruct Hp as [Hd Hy].
  assert (- 10 ^ 8 <= days_from_civil y m d <= 10 ^ 8).
  { rewrite days_formula by (first [done|unfold year_in_range; lia]).
    destruct Hd as [Hm Hd']. assert (days_in_month y m <= 31) by (unfold days_in_month; repeat case_match; lia).
    destruct (m <=? 2); Z.to_euclidean_division_equations; lia. }
  rewrite i64_small by (destruct subtract; lia).
  destruct (civil_from_days _) as [[y2 m2] d2]. destruct (str_get_date y m d rest Hr) as [_ ->]. done.
Qed.

(** Adding a number of days to a date, or to a time stamp that starts with one, gives the
    date that many days later, and subtracting them gives the text back, as long as both years
    have at most four digits. *)
Theorem interval_days_roundtrip (y m d n : Z) (rest : list byte) :
  plain_date y m d -> starts_char rest = true -> - 10 ^ 13 <= n <= 10 ^ 13 ->
  let '(y2, m2, d2) := civil_from_days (days_from_civil y m d + n) in
  0 <= y2 <= 9999 ->
  add_interval_to_date (date_of y m d ++ rest) (as_bytes (pretty n)) false = Ok (date_of y2 m2 d2 ++ rest) /\
  days_from_civil y2 m2 d2 = days_from_civil y m d + n /\
  add_interval_to_date (date_of y2 m2 d2 ++ rest) (as_bytes (pretty n)) true = Ok (date_of y m d ++ rest).
Proof.
  intros Hp Hr Hn.
  assert (Hrange : - 10 ^ 14 <= days_from_civil y m d + n <= 10 ^ 14).
  { destruct Hp as [Hd Hy]. rewrite days_formula by (first [done|unfold year_in_range; lia]).
    destruct Hd as [Hm Hd']. assert (days_in_month y m <= 31) by (unfold days_in_month; repeat case_match; lia).
    destruct (m <=? 2); Z.to_euclidean_division_equations; lia. }
  pose proof (days_of_civil _ Hrange) as Hc. pose proof (add_days y m d n rest false Hp Hr Hn) as Hadd.
  destruct (civil_from_days _) as [[y2 m2] d2]. destruct Hc as (Hd2 & _ & Hdays). intros Hy2.
  assert (Hp2 : plain_date y2 m2 d2) by done.
  rewrite <- plain_date_of in Hadd by done. split; [exact Hadd|]. split; [done|].
  rewrite (plain_date_of y2) by done. rewrite add_days by done. rewrite Hdays.
  replace (days_from_civil y m d + n + - n) with (days_from_civil y m d) by lia.
  destruct Hp as [Hd Hy]. by rewrite civil_of_days by (first [done|unfold year_in_range; lia]).
Qed.

Lemma interval_days_roundtrip_witness :
  add_interval_to_date (as_bytes "2024-02-28 10:00:00") (as_bytes "2") false = Ok (as_bytes "2024-03-01 10:00:00") /\
  add_interval_to_date (as_bytes "2024-03-01 10:00:00") (as_bytes "2") true = Ok (as_bytes "2024-02-28 10:00:00").
Proof.
  assert (Hp : plain_date 2024 2 28) by (split; [split; [lia|vm_compute; split; discriminate]|lia]).
  pose proof (interval_days_roundtrip 2024 2 28 2 (as_bytes " 10:00:00") Hp eq_refl ltac:(lia)) as H.
  assert (E : civil_from_days (days_from_civil 2024 2 28 + 2) = (2024, 3, 1)) by (vm_compute; reflexivity).
  rewrite E in H. destruct (H ltac:(lia)) as (Ha & _ & Hs). split; [exact Ha|exact Hs].
Defined.

(** ** At concrete inputs *)

(** An interval in hours, minutes or seconds is counted in days. *)
Example hour_is_a_day :
  add_interval_to_date (as_bytes "2024-01-01 00:00:00") (as_bytes "1 HOUR") false = Ok (as_bytes "2024-01-02 00:00:00").
Proof. vm_compute. reflexivity. Qed.

(** A year after the 29th of February is not a date. *)
Example leap_day_plus_year :
  add_interval_to_date (as_bytes "2024-02-29") (as_bytes "1 YEAR") false = Ok (as_bytes "2025-02-29") /\
  is_ok (validate_date (as_bytes "2025-02-29")) = false.
Proof. split; vm_compute; reflexivity. Qed.

(** A month after the 31st is the last day of the next month. *)
Example end_of_month :
  add_interval_to_date (as_bytes "2024-01-31") (as_bytes "1 month") false = Ok (as_bytes "2024-02-29").
Proof. vm_compute. reflexivity. Qed.
