(* ===== verification/SqlJson.v ===== *)
(** * JSON operators and functions

    src/src/sql/json.rs over the [serde_json] values of Json.v: extraction, containment,
    paths, mutation. *)

From stdpp Require Import pretty.
From S2P Require Import Prelude Float Types TupleCodec Values Text Json Coerce Operators Dates.

#[local] Open Scope string_scope.
#[local] Open Scope list_scope.
#[local] Open Scope Z_scope.

(** [==] of JSON values: an integer is never equal to a double. *)
Fixpoint json_eqb (a b : Value) {struct a} : bool :=
  match a, b with
  | JNull, JNull => true
  | JBool x, JBool y => Bool.eqb x y
  | JNumber x, JNumber y => x =? y
  | JFloat x, JFloat y => f64_eqb x y
  | JString x, JString y => bool_decide (x = y)
  | JArray xs, JArray ys =>
      (fix all2 (xs ys : list Value) : bool :=
         match xs, ys with
         | [], [] => true
         | x :: xs, y :: ys => json_eqb x y && all2 xs ys
         | _, _ => false
         end) xs ys
  | JObject xs, JObject ys =>
      (fix all2 (xs ys : list (string * Value)) : bool :=
         match xs, ys with
         | [], [] => true
         | (n, x) :: xs, (m, y) :: ys => bool_decide (n = m) && json_eqb x y && all2 xs ys
         | _, _ => false
         end) xs ys
  | _, _ => false
  end.

(** [json_contains].  A key has one value, so looking it up is looking for a field. *)
Fixpoint json_contains (lhs rhs : Value) {struct lhs} : bool :=
  match lhs, rhs with
  | _, JNull => match lhs with JNull => true | _ => false end
  | JObject fields, JObject wanted =>
      forallb (fun w => existsb (fun f => bool_decide (f.1 = w.1) && json_contains f.2 w.2) fields) wanted
  | JArray items, JArray wanted =>
      forallb (fun w => existsb (fun item => json_contains item w) items) wanted
  | JArray items, _ => existsb (fun item => json_contains item rhs) items
  | _, _ => json_eqb lhs rhs
  end.

(** ** Paths *)

Inductive JsonPathToken : Type := PathKey (key : string) | PathIndex (idx : Z).

(** A key up to the next dot or bracket. *)
Definition path_key_end (b : byte) : bool := is_byte x2e b || is_byte x5b b.

Fixpoint json_path_tokens_fuel (fuel : nat) (rest : list byte) : list JsonPathToken :=
  match fuel with
  | O => []
  | S fuel =>
      match rest with
      | x2e :: after_dot =>
          let key := take_while (fun b => negb (path_key_end b)) after_dot in
          PathKey (of_bytes key) :: json_path_tokens_fuel fuel (drop (length key) after_dot)
      | x5b :: after_bracket =>
          match split_once x5d after_bracket with
          | Some (index, rest) =>
              match parse_u64 index with
              | Some idx => PathIndex idx :: json_path_tokens_fuel fuel rest
              | None => json_path_tokens_fuel fuel rest
              end
          | None => []
          end
      | _ => []
      end
  end.

(** Each round takes a byte at least. *)
Definition json_path_tokens (path : list byte) : list JsonPathToken :=
  let path := trim path in
  let rest := default path (strip_prefix [x24] path) in
  json_path_tokens_fuel (length rest) rest.

Definition as_object (v : Value) : option (list (string * Value)) :=
  match v with JObject fields => Some fields | _ => None end.

Fixpoint json_path_walk (tokens : list JsonPathToken) (current : Value) : option Value :=
  match tokens with
  | [] => Some current
  | PathKey key :: tokens => fields ← as_object current; v ← map_get key fields; json_path_walk tokens v
  | PathIndex idx :: tokens => items ← as_array current; v ← items !! Z.to_nat idx; json_path_walk tokens v
  end.
Definition json_path_get (value : Value) (path : list byte) : option Value :=
  json_path_walk (json_path_tokens path) value.

Definition contains_key (key : string) (fields : list (string * Value)) : bool :=
  match map_get key fields with Some _ => true | None => false end.

Definition json_path_set (root : Value) (path : list byte) (value : Value) (replace_only : bool) : Value :=
  match json_path_tokens path with
  | [PathKey key] =>
      match root with
      | JObject fields =>
          if negb replace_only || contains_key key fields then JObject (map_insert key value fields) else root
      | _ => root
      end
  | [PathIndex idx] =>
      match root with
      | JArray items => if idx <? len items then JArray (<[Z.to_nat idx := value]> items) else root
      | _ => root
      end
  | _ => root
  end.

Definition map_remove (key : string) (fields : list (string * Value)) : list (string * Value) :=
  List.filter (fun f => negb (bool_decide (f.1 = key))) fields.

(** Every token is removed from the root. *)
Definition json_path_remove (root : Value) (path : list byte) : Value :=
  foldl (fun root token =>
    match token, root with
    | PathKey key, JObject fields => JObject (map_remove key fields)
    | PathIndex idx, JArray items =>
        if idx <? len items then JArray (delete (Z.to_nat idx) items) else root
    | _, _ => root
    end) root (json_path_tokens path).

(** ** Operators *)

Inductive JsonMutation : Type := SetMutation | ReplaceMutation | RemoveMutation.

Section JsonFunctions.
Context `{ValueTexts, SerdeJson}.

(** [Value::to_string]. *)
Definition json_string (v : Value) : string := of_bytes (default [] (result_ok (to_vec v))).

Definition parse_json (raw : string) : PgWireResult Value :=
  map_err (fun e => PgError "22P02" ("invalid JSON: " +:+ e)%string) (from_slice (as_bytes raw)).

Definition text_or (message : string) (value : ColumnValue) : PgWireResult string :=
  match to_text display_f32 display_f64 value with
  | Some text => Ok (of_bytes text)
  | None => unsupported message
  end.

Definition json_text (value : ColumnValue) : PgWireResult string :=
  match value with
  | Json raw | Jsonb raw | Text raw => Ok raw
  | other => text_or "JSON operator received NULL" other
  end.

Definition json_key (value : ColumnValue) : PgWireResult string :=
  match value with
  | Text raw | Json raw | Jsonb raw | Numeric raw | Uuid raw => Ok raw
  | Int16 v | Int32 v | Int64 v => Ok (pretty v)
  | other => text_or "JSON key operator received NULL" other
  end.

Definition json_extract_value (source key : ColumnValue) (as_text : bool) : PgWireResult ColumnValue :=
  raw ← json_text source;
  parsed ← parse_json raw;
  key ← json_key key;
  let selected :=
    match parsed with
    | JArray values => idx ← parse_u64 (as_bytes key); values !! Z.to_nat idx
    | JObject fields => map_get key fields
    | _ => None
    end in
  match selected with
  | None => Ok Null
  | Some selected =>
      if as_text then
        match selected with
        | JString s => Ok (Text s)
        | JNull => Ok Null
        | other => Ok (Text (json_string other))
        end
      else Ok (Jsonb (json_string selected))
  end.

Definition json_contains_value (source contained : ColumnValue) : PgWireResult bool :=
  lhs ← json_text source;
  lhs ← parse_json lhs;
  rhs ← json_text contained;
  rhs ← parse_json rhs;
  Ok (json_contains lhs rhs).

Definition json_has_key_value (source key : ColumnValue) : PgWireResult bool :=
  raw ← json_text source;
  parsed ← parse_json raw;
  key ← json_key key;
  Ok (match parsed with
      | JObject fields => contains_key key fields
      | JArray values => existsb (fun v => bool_decide (as_str v = Some key)) values
      | _ => false
      end).

(** ** Functions *)

Definition json_unquote_value (value : Value) : string :=
  match value with JString s => s | JNull => "" | other => json_string other end.

(** [JsonValue::from] of a double: NaN and the infinities are null. *)
Definition json_of_f64 (bits : Z) : Value :=
  match fdecode 52 11 bits with
  | SpecFloat.S754_nan | SpecFloat.S754_infinity _ => JNull
  | _ => JFloat bits
  end.

Definition column_value_to_json (value : ColumnValue) : Value :=
  match value with
  | Null => JNull
  | Boolean v => JBool v
  | Int16 v | Int32 v | Int64 v => JNumber v
  | Float32 v => json_of_f64 (f64_of_f32 v)
  | Float64 v => json_of_f64 v
  | Json v | Jsonb v => match from_slice (as_bytes v) with Ok parsed => parsed | _ => JString v end
  | other => JString (of_bytes (text_of other))
  end.

Definition eval_json_extract (args : list ColumnValue) (unquote : bool) : PgWireResult ColumnValue :=
  match args with
  | source :: (_ :: _) as paths =>
      raw ← json_text source;
      parsed ← parse_json raw;
      let selected := omap (fun path => json_path_get parsed (text_of path)) (tl args) in
      match selected with
      | [] => Ok Null
      | _ =>
          let value := match selected with [v] => v | _ => JArray selected end in
          Ok (if unquote then Text (json_unquote_value value) else Json (json_string value))
      end
  | _ => unsupported "json_extract requires at least 2 arguments"
  end.

Definition eval_json_unquote (args : list ColumnValue) : PgWireResult ColumnValue :=
  value ← exactly_one args "json_unquote";
  raw ← json_text value;
  parsed ← parse_json raw;
  Ok (Text (json_unquote_value parsed)).

Definition eval_json_contains (args : list ColumnValue) : PgWireResult ColumnValue :=
  match args with
  | [] | [_] => unsupported "json_contains requires at least 2 arguments"
  | source :: contained :: rest =>
      source ← match rest with path :: _ => eval_json_extract [source; path] false | [] => Ok source end;
      Boolean <$> json_contains_value source contained
  end.

(** The path and value pairs of JSON_SET and JSON_REPLACE. *)
Fixpoint json_set_pairs (replace_only : bool) (root : Value) (args : list ColumnValue) : PgWireResult Value :=
  match args with
  | [] => Ok root
  | [_] => unsupported "json_set/json_replace require path/value pairs"
  | path :: value :: args =>
      json_set_pairs replace_only (json_path_set root (text_of path) (column_value_to_json value) replace_only) args
  end.

Definition eval_json_mutate (args : list ColumnValue) (mode : JsonMutation) : PgWireResult ColumnValue :=
  match args with
  | [] | [_] => unsupported "json mutation requires arguments"
  | source :: args =>
      raw ← json_text source;
      root ← parse_json raw;
      root ← match mode with
             | RemoveMutation => Ok (foldl (fun root path => json_path_remove root (text_of path)) root args)
             | SetMutation => json_set_pairs false root args
             | ReplaceMutation => json_set_pairs true root args
             end;
      Ok (Json (json_string root))
  end.

Fixpoint json_object_fields (fields : list (string * Value)) (args : list ColumnValue) : list (string * Value) :=
  match args with
  | key :: value :: args =>
      json_object_fields (map_insert (of_bytes (text_of key)) (column_value_to_json value) fields) args
  | _ => fields
  end.

Definition eval_json_object (args : list ColumnValue) : PgWireResult ColumnValue :=
  if Nat.odd (length args) then unsupported "json_object requires key/value pairs"
  else Ok (Json (json_string (JObject (json_object_fields [] args)))).

Definition eval_json_array (args : list ColumnValue) : PgWireResult ColumnValue :=
  Ok (Json (json_string (JArray (map column_value_to_json args)))).
End JsonFunctions.
