(* ===== verification/Functions.v ===== *)
(** * Scalar functions

    src/src/sql/functions.rs and [evaluate_scalar_function] of sql/eval_core.rs.  Case
    mapping and the rounding of a printed double are the standard library's. *)

From Stdlib Require Import SpecFloat.
From stdpp Require Import pretty.
From S2P Require Import Prelude Float Types TupleCodec Values Text Json Coerce Operators Patterns Dates SqlJson.

#[local] Open Scope string_scope.
#[local] Open Scope list_scope.
#[local] Open Scope Z_scope.

(** ** Texts *)

(** [str::find] of a text: the first byte where it occurs. *)
Fixpoint find_text (needle l : list byte) : option nat :=
  if starts_with l needle then Some 0%nat
  else match l with [] => None | _ :: r => S <$> find_text needle r end.

(** [str::split] by a text that is not empty. *)
Fixpoint split_text_fuel (fuel : nat) (delim l : list byte) : list (list byte) :=
  match fuel with
  | O => [l]
  | S fuel =>
      match find_text delim l with
      | Some i => take i l :: split_text_fuel fuel delim (drop (i + length delim) l)
      | None => [l]
      end
  end.
Definition split_text (delim l : list byte) : list (list byte) := split_text_fuel (length l) delim l.

(** [str::replace]; the empty text occurs around every character. *)
Definition replace_text (from to l : list byte) : list byte :=
  match from with
  | [] => to ++ concat (map (fun c => c ++ to) (chars l))
  | _ => join_bytes to (split_text from l)
  end.

(** ** Doubles to whole numbers *)

(** A whole magnitude from the quotient and whether, and how far, the division leaves a rest. *)
Definition f64_integral (choose : bool -> Z -> Z -> Z -> Z) (bits : Z) : Z :=
  match fdecode 52 11 bits with
  | S754_finite s m e =>
      if 0 <=? e then bits
      else
        let den := 2 ^ (- e) in
        let z := choose s (Zpos m / den) (Zpos m mod den) den in
        if z =? 0 then fencode 52 11 (S754_zero s) else f64_of_Z (if s then - z else z)
  | _ => bits
  end.
Definition f64_floor : Z -> Z := f64_integral (fun s q r _ => if s && (0 <? r) then q + 1 else q).
Definition f64_ceil : Z -> Z := f64_integral (fun s q r _ => if negb s && (0 <? r) then q + 1 else q).
Definition f64_round : Z -> Z := f64_integral (fun _ q r den => if den <=? 2 * r then q + 1 else q).

(** [TrimWhereField]. *)
Inductive TrimWhereField : Type := TrimBoth | TrimLeading | TrimTrailing.

(** [format!] with a precision. *)
Class FixedTexts := display_f64_fixed : nat -> Z -> string.

Section Functions.
Context `{ValueTexts, SerdeJson, UnicodeCase, FixedTexts, Clock}.

Definition text_value (l : list byte) : ColumnValue := Text (of_bytes l).

Definition unary_text (args : list ColumnValue) (f : list byte -> list byte) : PgWireResult ColumnValue :=
  value ← exactly_one args "text function"; Ok (text_value (f (text_of value))).

(** [filter_map(to_text)]. *)
Definition texts_of (args : list ColumnValue) : list (list byte) := omap (to_text display_f32 display_f64) args.

Definition eval_concat_ws (args : list ColumnValue) : PgWireResult ColumnValue :=
  match args with
  | [] => unsupported "concat_ws requires at least 1 argument"
  | sep :: args => Ok (text_value (join_bytes (text_of sep) (texts_of args)))
  end.

Definition eval_substring_index (args : list ColumnValue) : PgWireResult ColumnValue :=
  match args with
  | [text; delim; count] =>
      count ← value_to_i64 count;
      let delim := text_of delim in
      if bool_decide (delim = []) || (count =? 0) then Ok (text_value [])
      else
        let parts := split_text delim (text_of text) in
        Ok (text_value (join_bytes delim
          (if 0 <? count then take (Z.to_nat count) parts
           else drop (length parts - Z.to_nat (i64 (- count) mod 2 ^ 64)) parts)))
  | _ => unsupported "substring_index requires 3 arguments"
  end.

(** The characters after the first [start - 1]. *)
Definition located (needle haystack : list byte) (start : Z) : Z :=
  let suffix := concat (drop (Z.to_nat (start - 1)) (chars haystack)) in
  match find_text needle suffix with
  | Some idx => start + Z.of_nat (length (chars (take idx suffix)))
  | None => 0
  end.

Definition eval_locate (name : list byte) (args : list ColumnValue) : PgWireResult ColumnValue :=
  '(needle, haystack, start) ←
    match args with
    | [a; b] => Ok (if str_is name "instr" then (text_of b, text_of a, 1) else (text_of a, text_of b, 1))
    | [needle; haystack; start] => z ← value_to_i64 start; Ok (text_of needle, text_of haystack, Z.max z 1)
    | _ => unsupported "locate/instr argument count is invalid"
    end;
  Ok (Int32 (to_signed 32 (located needle haystack start))).

(** One more than the position of the first element that passes; 0 without one. *)
Fixpoint position_from {A} (p : A -> bool) (l : list A) (n : Z) : Z :=
  match l with [] => 0 | a :: l => if p a then n else position_from p l (n + 1) end.

Definition eval_field (args : list ColumnValue) : PgWireResult ColumnValue :=
  match args with
  | [] => unsupported "field requires arguments"
  | needle :: args =>
      let needle := text_of needle in
      Ok (Int32 (to_signed 32
        (position_from (fun v => bool_decide (to_text display_f32 display_f64 v = Some needle)) args 1)))
  end.

Definition eval_elt (args : list ColumnValue) : PgWireResult ColumnValue :=
  match args with
  | [] => unsupported "elt requires arguments"
  | first :: _ =>
      idx ← value_to_i64 first;
      if idx <=? 0 then Ok Null else Ok (default Null (args !! Z.to_nat idx))
  end.

Definition eval_find_in_set (args : list ColumnValue) : PgWireResult ColumnValue :=
  match args with
  | [needle; set] =>
      Ok (Int32 (to_signed 32
        (position_from (fun item => bool_decide (item = text_of needle)) (split_on x2c (text_of set)) 1)))
  | _ => unsupported "find_in_set requires 2 arguments"
  end.

Definition eval_format (args : list ColumnValue) : PgWireResult ColumnValue :=
  match args with
  | value :: decimals :: _ =>
      decimals ← value_to_i64 decimals;
      Ok (Text (display_f64_fixed (Z.to_nat (Z.min 30 (Z.max 0 decimals)))
                                  (default 0 (mysql_value_to_number value))))
  | _ => unsupported "format requires at least 2 arguments"
  end.

Definition eval_regexp_like (args : list ColumnValue) : PgWireResult ColumnValue :=
  match args with
  | value :: pattern :: _ => Ok (Boolean (simple_regexp_match (text_of value) (text_of pattern)))
  | _ => unsupported "regexp_like requires at least 2 arguments"
  end.

Definition eval_regexp_replace (args : list ColumnValue) : PgWireResult ColumnValue :=
  match args with
  | text :: pattern :: repl :: _ =>
      Ok (text_value (replace_text (text_of pattern) (text_of repl) (text_of text)))
  | _ => unsupported "regexp_replace requires at least 3 arguments"
  end.

Definition eval_abs (value : ColumnValue) : PgWireResult ColumnValue :=
  match value with
  | Int16 v => Ok (Int16 (to_signed 16 (Z.abs v)))
  | Int32 v => Ok (Int32 (to_signed 32 (Z.abs v)))
  | Int64 v => Ok (Int64 (to_signed 64 (Z.abs v)))
  | Float32 v => Ok (Float32 (fabs 23 8 v))
  | Float64 v => Ok (Float64 (f64_abs v))
  | Numeric v =>
      match parse_f64 v with
      | Some z => Ok (Numeric (display_f64 (f64_abs z)))
      | None => numeric_out_of_range
      end
  | other => unsupported ("abs does not support " +:+ debug_value other)
  end.

Definition eval_numeric_unary (value : ColumnValue) (f : Z -> Z) : PgWireResult ColumnValue :=
  match value with
  | Int16 v | Int32 v | Int64 v => Ok (Float64 (f (f64_of_Z v)))
  | Float32 v => Ok (Float32 (f32_of_f64 (f (f64_of_f32 v))))
  | Float64 v => Ok (Float64 (f v))
  | Numeric v =>
      match parse_f64 v with
      | Some z => Ok (Numeric (display_f64 (f z)))
      | None => numeric_out_of_range
      end
  | other => unsupported ("numeric function does not support " +:+ debug_value other)
  end.

(** [o.and_then(to_text).and_then(parse)]. *)
Definition parsed_text (parse : list byte -> option Z) (value : option ColumnValue) : option Z :=
  v ← value; text ← to_text display_f32 display_f64 v; parse text.

Definition eval_substring (value : ColumnValue) (from length_ : option ColumnValue) : PgWireResult ColumnValue :=
  let start := Z.max 1 (default 1 (parsed_text parse_i64 from)) - 1 in
  let rest := drop (Z.to_nat start) (chars (text_of value)) in
  let rest := match parsed_text parse_u64 length_ with Some n => take (Z.to_nat n) rest | None => rest end in
  Ok (text_value (concat rest)).

Fixpoint trim_chars (p : char -> bool) (l : list char) : list char :=
  match l with c :: r => if p c then trim_chars p r else l | [] => [] end.

Definition eval_trim (value : ColumnValue) (side : option TrimWhereField) (trimmed : option ColumnValue)
    : PgWireResult ColumnValue :=
  let set := default [x20] (v ← trimmed; to_text display_f32 display_f64 v) in
  let p (c : char) := bool_decide (c ∈ chars set) in
  let front := trim_chars p in
  let back (l : list char) := rev (trim_chars p (rev l)) in
  let l := chars (text_of value) in
  Ok (text_value (concat
    (match default TrimBoth side with
     | TrimBoth => back (front l)
     | TrimLeading => front l
     | TrimTrailing => back l
     end))).

Definition eval_date_format (args : list ColumnValue) : PgWireResult ColumnValue :=
  match args with
  | [value; format] =>
      let text := text_of value in
      '(y, m, d) ← parse_ymd text;
      let hms := default (as_bytes "00:00:00") (str_get text 11 19) in
      let put (pattern : string) (to l : list byte) := replace_text (as_bytes pattern) to l in
      let part (a b : nat) := default (as_bytes "00") (str_get hms a b) in
      Ok (text_value (put "%s" (part 6%nat 8%nat) (put "%i" (part 3%nat 5%nat) (put "%H" (part 0%nat 2%nat)
           (put "%d" (padded 2 d) (put "%m" (padded 2 m) (put "%Y" (padded 4 y) (text_of format))))))))
  | _ => unsupported "date_format requires 2 arguments"
  end.

(** [reduce] with the values that are not NULL: the first extreme one. *)
Definition extreme (better : option comparison -> bool) (args : list ColumnValue) : ColumnValue :=
  match List.filter (fun v => negb (is_null v)) args with
  | [] => Null
  | first :: rest => foldl (fun best v => if better (cv_partial_cmp v best) then v else best) first rest
  end.

(** [evaluate_scalar_function], by the lowercase name. *)
Definition evaluate_scalar_function (name : list byte) (args : list ColumnValue) : PgWireResult ColumnValue :=
  let name := lower name in
  let is_ (n : string) := str_is name n in
  if is_ "lower" then unary_text args to_lowercase
  else if is_ "upper" then unary_text args to_uppercase
  else if is_ "length" then
    value ← exactly_one args "length"; Ok (Int32 (to_signed 32 (Z.of_nat (length (chars (text_of value))))))
  else if is_ "replace" then
    match args with
    | [source; from; to] => Ok (text_value (replace_text (text_of from) (text_of to) (text_of source)))
    | _ => unsupported "replace requires 3 arguments"
    end
  else if is_ "concat" then Ok (text_value (concat (texts_of args)))
  else if is_ "concat_ws" then eval_concat_ws args
  else if is_ "substring_index" then eval_substring_index args
  else if is_ "locate" || is_ "instr" then eval_locate name args
  else if is_ "field" then eval_field args
  else if is_ "elt" then eval_elt args
  else if is_ "find_in_set" then eval_find_in_set args
  else if is_ "format" then eval_format args
  else if is_ "regexp_like" then eval_regexp_like args
  else if is_ "regexp_replace" then eval_regexp_replace args
  else if is_ "charset" then Ok (Text "utf8mb4")
  else if is_ "collation" then Ok (Text "utf8mb4_0900_ai_ci")
  else if is_ "abs" then value ← exactly_one args "abs"; eval_abs value
  else if is_ "round" then value ← exactly_one args "round"; eval_numeric_unary value f64_round
  else if is_ "ceil" || is_ "ceiling" then value ← exactly_one args "ceil"; eval_numeric_unary value f64_ceil
  else if is_ "floor" then value ← exactly_one args "floor"; eval_numeric_unary value f64_floor
  else if is_ "curdate" || is_ "current_date" then
    d ← str_slice current_timestamp_text 0 10; Ok (Date (of_bytes d))
  else if is_ "curtime" || is_ "current_time" then
    t ← str_slice current_timestamp_text 11 19; Ok (text_value t)
  else if is_ "date_add" || is_ "date_sub" then eval_date_add_sub args (is_ "date_sub")
  else if is_ "timestampadd" then eval_timestampadd args
  else if is_ "timestampdiff" then eval_timestampdiff args
  else if is_ "date_format" then eval_date_format args
  else if is_ "str_to_date" then eval_str_to_date args
  else if is_ "unix_timestamp" then eval_unix_timestamp args
  else if is_ "from_unixtime" then eval_from_unixtime args
  else if is_ "last_day" then eval_last_day args
  else if is_ "week" then eval_week args
  else if is_ "date_trunc" then
    match args with
    | [field; value] => eval_date_trunc (text_of field) value
    | _ => unsupported "date_trunc requires 2 arguments"
    end
  else if is_ "json_extract" then eval_json_extract args false
  else if is_ "json_unquote" then eval_json_unquote args
  else if is_ "json_contains" then eval_json_contains args
  else if is_ "json_set" then eval_json_mutate args SetMutation
  else if is_ "json_replace" then eval_json_mutate args ReplaceMutation
  else if is_ "json_remove" then eval_json_mutate args RemoveMutation
  else if is_ "json_object" then eval_json_object args
  else if is_ "json_array" then eval_json_array args
  else if is_ "last_insert_id" || is_ "row_count" || is_ "connection_id" then Ok (Int64 0)
  else if is_ "current_user" || is_ "user" || is_ "session_user" then Ok (Text "root@localhost")
  else if is_ "any_value" then Ok (match args with v :: _ => v | [] => Null end)
  else if is_ "nullif" then
    match args with
    | [a; b] => Ok (if compare_row_values a b BinOp.Eq then Null else a)
    | _ => unsupported "nullif requires 2 arguments"
    end
  else if is_ "greatest" then Ok (extreme is_gt args)
  else if is_ "least" then Ok (extreme is_lt args)
  else unsupported ("function '" +:+ of_bytes name +:+ "' is not supported in fast-path DML expressions").
End Functions.
