(* ===== verification/Expr.v ===== *)
(** * SQL expressions

    The expressions of the [sqlparser] crate that the code looks into, their evaluation on
    a row (src/src/sql/eval_core.rs), the values of literals (sql/values/literal.rs,
    default_expr.rs), and the shape tests of sql/fast_path.rs.  Constructors of the crate
    the code never matches on are [OtherExpr]. *)

From stdpp Require Import pretty.
From S2P Require Import Prelude Float Types TupleCodec Values Text DataTypes Json Coerce Operators Patterns Dates SqlJson Functions.

#[local] Open Scope string_scope.
#[local] Open Scope list_scope.
#[local] Open Scope Z_scope.

(** ** Expressions *)

(** [sqlparser::ast::Value]. *)
Inductive SqlValue : Type :=
  | SqlNumber (text : string)
  | SingleQuotedString (text : string)
  | DoubleQuotedString (text : string)
  | SqlBoolean (value : bool)
  | SqlNull
  | OtherLiteral.

Inductive UnaryOperator : Type := UNot | UPlus | UMinus | UBitwiseNot | OtherUnary.

(** A function's argument: [Unnamed] or [Named] with an expression, or neither. *)
Inductive FunctionArg (E : Type) : Type := Unnamed (expr : E) | Named (expr : E) | OtherArg.
Arguments Unnamed {E} expr.
Arguments Named {E} expr.
Arguments OtherArg {E}.

(** Types, names of functions and fields are carried as they print. *)
Inductive Expr : Type :=
  | Identifier (value : string)
  | CompoundIdentifier (parts : list string)
  | Literal (value : SqlValue)
  | TypedString (value : SqlValue) (data_type : string)
  | Cast (expr : Expr) (data_type : string)
  | Function (name : string) (args : list (FunctionArg Expr))
  | ArrayExpr (elem : list Expr)
  | UnaryOp (op : UnaryOperator) (expr : Expr)
  | BinaryOp (lhs : Expr) (op : BinaryOperator) (rhs : Expr)
  | RLike (negated : bool) (expr pattern : Expr)
  | AnyOp (lhs : Expr) (op : BinaryOperator) (rhs : Expr)
  | AllOp (lhs : Expr) (op : BinaryOperator) (rhs : Expr)
  | InList (expr : Expr) (values : list Expr) (negated : bool)
  | Between (expr : Expr) (negated : bool) (low high : Expr)
  | IsNull (expr : Expr)
  | IsNotNull (expr : Expr)
  | Like (negated : bool) (expr pattern : Expr) (escape_char : option SqlValue)
  | ILike (negated : bool) (expr pattern : Expr) (escape_char : option SqlValue)
  | Substring (expr : Expr) (from for_ : option Expr)
  | Trim (expr : Expr) (side : option TrimWhereField) (what : option Expr) (characters : option (list Expr))
  | Ceil (expr : Expr)
  | FloorExpr (expr : Expr)
  | Extract (field : string) (expr : Expr)
  | Interval (value : Expr) (leading_field : option string)
  | Collate (expr : Expr)
  | Case (operand : option Expr) (conditions : list (Expr * Expr)) (else_result : option Expr)
  | Nested (expr : Expr)
  | OtherExpr.

(** ** Shapes (fast_path.rs) *)

Fixpoint expr_identifier_name (expr : Expr) : PgWireResult string :=
  match expr with
  | Identifier value => Ok value
  | CompoundIdentifier [_; column] => Ok column
  | Cast expr _ => expr_identifier_name expr
  | Nested inner => expr_identifier_name inner
  | _ => unsupported "expected a simple column identifier"
  end.

Fixpoint supports_filter_value (expr : Expr) : bool :=
  match expr with
  | Identifier _ | CompoundIdentifier _ | Literal _ | TypedString _ _ | UnaryOp _ _ | ArrayExpr _ | Function _ _
  | Interval _ _ | Substring _ _ _ | Trim _ _ _ _ | Ceil _ | FloorExpr _ | Extract _ _ | Case _ _ _ => true
  | Collate expr | Cast expr _ | Nested expr => supports_filter_value expr
  | _ => false
  end.

Fixpoint supports_fast_path_filter (expr : Expr) : bool :=
  match expr with
  | BinaryOp lhs op rhs =>
      match op with
      | BinOp.And | BinOp.Or => supports_fast_path_filter lhs && supports_fast_path_filter rhs
      | BinOp.Eq | BinOp.NotEq | BinOp.Gt | BinOp.Lt | BinOp.GtEq | BinOp.LtEq | BinOp.Spaceship | BinOp.Regexp
      | BinOp.MyIntegerDivide | BinOp.Xor | BinOp.BitwiseAnd | BinOp.BitwiseOr | BinOp.BitwiseXor
      | BinOp.AtArrow | BinOp.Question => supports_filter_value lhs && supports_filter_value rhs
      | _ => false
      end
  | RLike _ expr pattern => supports_filter_value expr && supports_filter_value pattern
  | InList expr values _ => is_ok (expr_identifier_name expr) && forallb supports_filter_value values
  | Between expr _ low high =>
      is_ok (expr_identifier_name expr) && supports_filter_value low && supports_filter_value high
  | IsNull expr | IsNotNull expr => supports_filter_value expr
  | Like _ expr pattern _ | ILike _ expr pattern _ => supports_filter_value expr && supports_filter_value pattern
  | AnyOp lhs _ rhs | AllOp lhs _ rhs => supports_filter_value lhs && supports_filter_value rhs
  | Nested inner => supports_fast_path_filter inner
  | Function _ _ => true
  | _ => false
  end.

(** A name up to ASCII case. *)
Definition named (name : string) (n : string) : bool := eq_ignore_ascii_case (as_bytes name) (as_bytes n).

Section Evaluation.
Context `{ValueTexts, SerdeJson, UnicodeCase, FixedTexts, Clock}.

(** ** Literals (literal.rs, default_expr.rs) *)

Definition is_current_timestamp_function (name : string) : bool :=
  named name "current_timestamp" || named name "now".

(** [v.parse::<..>()] for a number's text at the type; other types read the text. *)
Definition number_literal (v : string) (data_type : DataType) : PgWireResult ColumnValue :=
  let out {A} (kind : string) : PgWireResult A := out_of_range v kind in
  match data_type with
  | DT.Int16 => match parse_i16 (as_bytes v) with Some z => Ok (Int16 z) | None => out "INT2" end
  | DT.Int32 => match parse_i32 (as_bytes v) with Some z => Ok (Int32 z) | None => out "INT4" end
  | DT.Int64 => match parse_i64 (as_bytes v) with Some z => Ok (Int64 z) | None => out "INT8" end
  | DT.Float32 => match parse_f32 v with Some b => Ok (Float32 b) | None => out "FLOAT4" end
  | DT.Float64 => match parse_f64 v with Some b => Ok (Float64 b) | None => out "FLOAT8" end
  | _ => parse_text_for_type data_type v
  end.

Definition literal_value (value : SqlValue) (data_type : DataType) : PgWireResult ColumnValue :=
  match value with
  | SqlNumber v => number_literal v data_type
  | SingleQuotedString v | DoubleQuotedString v => parse_text_for_type data_type v
  | SqlBoolean v => coerce_column_value (Boolean v) data_type
  | SqlNull => Ok Null
  | OtherLiteral => unsupported "only literal values are supported"
  end.

Fixpoint sql_expr_to_column_value (expr : Expr) (data_type : DataType) {struct expr} : PgWireResult ColumnValue :=
  let only {A} : PgWireResult A := unsupported "only literal values are supported" in
  match expr with
  | Cast expr cast_type =>
      value ← sql_expr_to_column_value expr (from_sql cast_type);
      coerce_column_value value data_type
  | TypedString value typed =>
      value ← literal_value value (from_sql typed);
      coerce_column_value value data_type
  | Function name _ =>
      if is_current_timestamp_function name
      then coerce_column_value (text_value current_timestamp_text) data_type else only
  | Identifier name =>
      if named name "current_timestamp"
      then coerce_column_value (text_value current_timestamp_text) data_type else only
  | Literal value => literal_value value data_type
  | ArrayExpr elem =>
      match data_type with
      | DT.Array inner => Array <$> map_m (fun expr => sql_expr_to_column_value expr inner) elem
      | _ => unsupported "ARRAY literal requires an array column type"
      end
  | UnaryOp UMinus (Literal (SqlNumber v)) => number_literal ("-" +:+ v) data_type
  | _ => only
  end.

Definition is_default_expr (expr : Expr) : bool :=
  match expr with Identifier value => named value "default" | _ => false end.

(** ** Evaluation (eval_core.rs) *)

(** [evaluate_row_bool] of an evaluated expression. *)
Definition value_bool (value : ColumnValue) : PgWireResult bool :=
  match value with
  | Boolean v => Ok v
  | Null => Ok false
  | Int16 v | Int32 v | Int64 v => Ok (negb (v =? 0))
  | Float32 v => Ok (negb (f32_eqb v 0))
  | Float64 v => Ok (negb (f64_eqb v 0))
  | Numeric v | Text v => Ok (negb (f64_eqb (mysql_text_to_number v) 0))
  | _ => unsupported "expression is not boolean"
  end.

Definition evaluate_literal (value : SqlValue) : PgWireResult ColumnValue :=
  match value with
  | SqlNumber v =>
      match parse_i64 (as_bytes v) with
      | Some z => Ok (Int64 z)
      | None =>
          match parse_f64 v with Some b => Ok (Float64 b) | None => unsupported "invalid numeric literal" end
      end
  | SingleQuotedString v | DoubleQuotedString v => Ok (Text v)
  | SqlBoolean v => Ok (Boolean v)
  | SqlNull => Ok Null
  | OtherLiteral => unsupported "unsupported literal in fast-path DML"
  end.

(** [escape_char_value] of sql/json.rs. *)
Definition escape_char_value (value : option SqlValue) : PgWireResult (option char) :=
  match value with
  | None => Ok None
  | Some (SingleQuotedString raw | DoubleQuotedString raw) =>
      match chars (as_bytes raw) with
      | [] => user_error "22025" "LIKE ESCAPE must not be empty"
      | [ch] => Ok (Some ch)
      | _ => user_error "22025" "LIKE ESCAPE must be a single character"
      end
  | Some _ => user_error "22025" "LIKE ESCAPE must be a string literal"
  end.

Definition column_not_found {A} (column : string) : PgWireResult A :=
  user_error "42703" ("column '" +:+ column +:+ "' not found").

(** [json_] and text operators on the evaluated sides, past AND, OR and XOR. *)
Definition binary_values (op : BinaryOperator) (lhs rhs : ColumnValue) : PgWireResult ColumnValue :=
  match op with
  | BinOp.Plus | BinOp.Minus | BinOp.Multiply | BinOp.Divide | BinOp.Modulo => arithmetic_row_values lhs rhs op
  | BinOp.MyIntegerDivide =>
      divisor ← value_to_i64 rhs;
      if divisor =? 0 then division_by_zero
      else
        dividend ← value_to_i64 lhs;
        if (dividend =? i64_min) && (divisor =? -1) then Panic else Ok (Int64 (Z.quot dividend divisor))
  | BinOp.Eq | BinOp.NotEq | BinOp.Gt | BinOp.GtEq | BinOp.Lt | BinOp.LtEq | BinOp.Spaceship =>
      Ok (Boolean (compare_row_values lhs rhs op))
  | BinOp.Arrow => json_extract_value lhs rhs false
  | BinOp.LongArrow => json_extract_value lhs rhs true
  | BinOp.AtArrow => Boolean <$> json_contains_value lhs rhs
  | BinOp.Question => Boolean <$> json_has_key_value lhs rhs
  | BinOp.Regexp => Ok (Boolean (simple_regexp_match (text_of lhs) (text_of rhs)))
  | _ => unsupported "unsupported binary operator in fast-path expressions"
  end.

Definition unary_value (op : UnaryOperator) (value : ColumnValue) : PgWireResult ColumnValue :=
  match op with
  | UNot => b ← value_bool value; Ok (Boolean (negb b))
  | UPlus => Ok value
  | UMinus => negate_value value
  | UBitwiseNot => z ← value_to_i64 value; Ok (Int64 (Z.lnot z))
  | OtherUnary => unsupported "unsupported unary operator"
  end.

Definition flip (negated matched : bool) : ColumnValue := Boolean (if negated then negb matched else matched).

(** The comparison of a value with each element of an array. *)
Definition array_elements (quantifier : string) (rhs : ColumnValue) : PgWireResult (list ColumnValue) :=
  match rhs with
  | Array values => Ok values
  | _ => unsupported (quantifier +:+ " requires an array expression")
  end.

(** [list.iter().any(..is_ok_and(..))]: an item that fails is passed over. *)
Definition any_equal {A} (eval : A -> PgWireResult ColumnValue) (lhs : ColumnValue) : list A -> PgWireResult bool :=
  fix any (items : list A) : PgWireResult bool :=
    match items with
    | [] => Ok false
    | item :: items =>
        match eval item with
        | Ok value => if cv_eqb value lhs then Ok true else any items
        | Err _ => any items
        | Panic => Panic
        | OutOfFuel => OutOfFuel
        end
    end.

(** The first branch of a CASE whose condition holds. *)
Definition first_branch {A B} (matched : A -> PgWireResult bool) (eval : A -> PgWireResult B) (otherwise : PgWireResult B)
    : list (A * A) -> PgWireResult B :=
  fix go (branches : list (A * A)) : PgWireResult B :=
    match branches with
    | [] => otherwise
    | branch :: branches => b ← matched branch.1; if b : bool then eval branch.2 else go branches
    end.

Definition function_arg {A} (eval : A -> PgWireResult ColumnValue) (arg : FunctionArg A) : PgWireResult ColumnValue :=
  match arg with
  | Unnamed expr | Named expr => eval expr
  | OtherArg => unsupported "unsupported function argument"
  end.

Definition map_option {A B} (f : A -> PgWireResult B) (o : option A) : PgWireResult (option B) :=
  match o with Some a => Some <$> f a | None => Ok None end.

Context (schema : TableSchema) (row : RowMap) (excluded_row : option RowMap).

(** A bare name, and a name with its table or [excluded]. *)
Definition row_column (column : string) : PgWireResult ColumnValue :=
  match row !! column with Some v => Ok v | None => column_not_found column end.

Definition identifier_value (column : string) : PgWireResult ColumnValue :=
  if named column "current_timestamp" || named column "now" then Ok (text_value current_timestamp_text)
  else if named column "excluded" && bool_decide (excluded_row = None)
  then unsupported "reference to EXCLUDED.* requires ON CONFLICT DO UPDATE"
  else row_column column.

Definition compound_value (table column : string) : PgWireResult ColumnValue :=
  if named table "excluded" then
    match (excluded ← excluded_row; excluded !! column) with
    | Some v => Ok v
    | None => user_error "42703" ("column '" +:+ column +:+ "' not found in excluded row")
    end
  else match find_column schema column with
  | None => column_not_found column
  | Some _ => row_column column
  end.

(** VALUES(column) of ON DUPLICATE KEY UPDATE. *)
Definition inserted_value (excluded : RowMap) (args : list (FunctionArg Expr)) : PgWireResult ColumnValue :=
  match args with
  | [Unnamed (Identifier column)] =>
      match excluded !! column with
      | Some v => Ok v
      | None => user_error "42703" ("column '" +:+ column +:+ "' not found in inserted row")
      end
  | _ => unsupported "VALUES() in ON DUPLICATE KEY UPDATE requires one column argument"
  end.

Fixpoint evaluate_row_expression (expr : Expr) : PgWireResult ColumnValue :=
  let bool_of (e : Expr) : PgWireResult bool := v ← evaluate_row_expression e; value_bool v in
  match expr with
  | Cast expr cast_type =>
      value ← evaluate_row_expression expr;
      coerce_column_value value (from_sql cast_type)
  | TypedString value typed =>
      value ← evaluate_literal value;
      coerce_column_value value (from_sql typed)
  | Identifier column => identifier_value column
  | CompoundIdentifier [table; column] => compound_value table column
  | Function name args =>
      match (if named name "values" then excluded_row else None) with
      | Some excluded => inserted_value excluded args
      | None =>
          if is_current_timestamp_function name then
            match args with
            | [] => Ok (text_value current_timestamp_text)
            | _ => unsupported "current_timestamp/now does not accept arguments in fast path"
            end
          else
            values ← map_m (function_arg evaluate_row_expression) args;
            if named name "coalesce"
            then Ok (default Null (List.find (fun v => negb (is_null v)) values))
            else evaluate_scalar_function (as_bytes name) values
      end
  | Literal value => evaluate_literal value
  | UnaryOp op expr =>
      match op with
      | OtherUnary => unsupported "unsupported unary operator"
      | _ => value ← evaluate_row_expression expr; unary_value op value
      end
  | BinaryOp lhs op rhs =>
      match op with
      | BinOp.And => a ← bool_of lhs; if a : bool then Boolean <$> bool_of rhs else Ok (Boolean false)
      | BinOp.Or => a ← bool_of lhs; if a : bool then Ok (Boolean true) else Boolean <$> bool_of rhs
      | BinOp.Xor => a ← bool_of lhs; b ← bool_of rhs; Ok (Boolean (xorb a b))
      | BinOp.BitwiseAnd | BinOp.BitwiseOr | BinOp.BitwiseXor =>
          a ← (v ← evaluate_row_expression lhs; value_to_i64 v);
          b ← (v ← evaluate_row_expression rhs; value_to_i64 v);
          Ok (Int64 (match op with
                     | BinOp.BitwiseAnd => Z.land a b
                     | BinOp.BitwiseOr => Z.lor a b
                     | _ => Z.lxor a b
                     end))
      | BinOp.OtherOperator => unsupported "unsupported binary operator in fast-path expressions"
      | _ => a ← evaluate_row_expression lhs; b ← evaluate_row_expression rhs; binary_values op a b
      end
  | RLike negated expr pattern =>
      value ← evaluate_row_expression expr;
      pattern ← evaluate_row_expression pattern;
      let value := text_of value in
      let pattern := text_of pattern in
      Ok (flip negated (simple_regexp_match value pattern || simple_regexp_match pattern value))
  | AnyOp lhs op rhs =>
      lhs ← evaluate_row_expression lhs;
      rhs ← evaluate_row_expression rhs;
      values ← array_elements "ANY" rhs;
      Ok (Boolean (existsb (fun v => compare_row_values lhs v op) values))
  | AllOp lhs op rhs =>
      lhs ← evaluate_row_expression lhs;
      rhs ← evaluate_row_expression rhs;
      values ← array_elements "ALL" rhs;
      Ok (Boolean (forallb (fun v => compare_row_values lhs v op) values))
  | InList expr values negated =>
      lhs ← evaluate_row_expression expr;
      flip negated <$> any_equal evaluate_row_expression lhs values
  | Between expr negated low high =>
      value ← evaluate_row_expression expr;
      low ← evaluate_row_expression low;
      high ← evaluate_row_expression high;
      Ok (flip negated (compare_row_values value low BinOp.GtEq && compare_row_values value high BinOp.LtEq))
  | IsNull expr => v ← evaluate_row_expression expr; Ok (Boolean (is_null v))
  | IsNotNull expr => v ← evaluate_row_expression expr; Ok (Boolean (negb (is_null v)))
  | Like negated expr pattern escape_char =>
      lhs ← evaluate_row_expression expr;
      pattern ← evaluate_row_expression pattern;
      escape ← escape_char_value escape_char;
      Ok (flip negated (matches_like (to_text display_f32 display_f64 lhs)
                                     (to_text display_f32 display_f64 pattern) escape false))
  | ILike negated expr pattern escape_char =>
      lhs ← evaluate_row_expression expr;
      pattern ← evaluate_row_expression pattern;
      escape ← escape_char_value escape_char;
      Ok (flip negated (matches_like (to_text display_f32 display_f64 lhs)
                                     (to_text display_f32 display_f64 pattern) escape true))
  | Substring expr from for_ =>
      value ← evaluate_row_expression expr;
      from ← map_option evaluate_row_expression from;
      for_ ← map_option evaluate_row_expression for_;
      eval_substring value from for_
  | Trim expr side what characters =>
      value ← evaluate_row_expression expr;
      trimmed ← match what with
                | Some what => Some <$> evaluate_row_expression what
                | None =>
                    match characters with
                    | Some (first :: _) => Some <$> evaluate_row_expression first
                    | _ => Ok None
                    end
                end;
      eval_trim value side trimmed
  | Ceil expr => v ← evaluate_row_expression expr; eval_numeric_unary v f64_ceil
  | FloorExpr expr => v ← evaluate_row_expression expr; eval_numeric_unary v f64_floor
  | Extract field expr => v ← evaluate_row_expression expr; eval_extract field v
  | Interval value leading_field =>
      v ← evaluate_row_expression value;
      Ok (text_value (text_of v ++ [x20] ++ as_bytes (default "DAY" leading_field)))
  | Collate expr => evaluate_row_expression expr
  | Case operand conditions else_result =>
      operand ← map_option evaluate_row_expression operand;
      let matched (condition : Expr) : PgWireResult bool :=
        match operand with
        | Some value => c ← evaluate_row_expression condition; Ok (compare_row_values value c BinOp.Eq)
        | None => bool_of condition
        end in
      first_branch matched evaluate_row_expression
        (match else_result with Some expr => evaluate_row_expression expr | None => Ok Null end) conditions
  | Nested inner => evaluate_row_expression inner
  | ArrayExpr elem => Array <$> map_m evaluate_row_expression elem
  | _ => unsupported "unsupported expression in fast-path DML"
  end.

Definition evaluate_row_bool (expr : Expr) : PgWireResult bool :=
  v ← evaluate_row_expression expr; value_bool v.
End Evaluation.
