(* ===== verification/Filter.v ===== *)
(** * Row filters and access paths

    The filter a scan applies to its rows (src/src/filter.rs), and the key or key range the
    planner reads off a filter (sql/projection.rs, core/server/dml_planner.rs). *)

From stdpp Require Import pretty.
From S2P Require LegacyCodec.
From S2P Require Import Prelude Float Types TupleCodec Values Text DataTypes Json KeyCodec Coerce Operators Patterns Dates SqlJson Functions Expr.

#[local] Open Scope string_scope.
#[local] Open Scope list_scope.
#[local] Open Scope Z_scope.

(** ** Filters (filter.rs) *)

Definition compare_values (lhs rhs : ColumnValue) (op : BinaryOperator) : bool :=
  if is_null lhs || is_null rhs then false else compared op (cv_eqb lhs rhs) (cv_partial_cmp lhs rhs).

Fixpoint literal_pattern (expr : Expr) : option string :=
  match expr with
  | Literal (SingleQuotedString v | DoubleQuotedString v) => Some v
  | Nested inner => literal_pattern inner
  | _ => None
  end.

(** The filter's own [escape_char_value]: anything but one character is no escape. *)
Definition filter_escape (value : option SqlValue) : option char :=
  match value with
  | Some (SingleQuotedString raw | DoubleQuotedString raw) =>
      match chars (as_bytes raw) with [ch] => Some ch | _ => None end
  | _ => None
  end.

(** [.ok()] and its kin on an evaluation, which may still panic. *)
Definition attempt {A} (m : PgWireResult ColumnValue) (otherwise : A) (k : ColumnValue -> A) : PgWireResult A :=
  match m with Ok v => Ok (k v) | Err _ => Ok otherwise | Panic => Panic | OutOfFuel => OutOfFuel end.

Definition value_true (value : ColumnValue) : bool := match value with Boolean v => v | _ => false end.

Section Filter.
Context `{ValueTexts, SerdeJson, UnicodeCase, FixedTexts, Clock}.
Context (row : RowMap) (schema : TableSchema).

Definition column_type (column : string) : DataType :=
  match find_column schema column with Some c => data_type c | None => DT.Text end.

(** The row as the evaluator sees it. *)
Definition evaluate (expr : Expr) : PgWireResult ColumnValue := evaluate_row_expression schema row None expr.

Definition row_text_value (expr : Expr) : option (list byte) :=
  column ← result_ok (expr_identifier_name expr);
  value ← row !! column;
  to_text display_f32 display_f64 value.

Definition like_filter (negated : bool) (expr pattern : Expr) (escape : option SqlValue) (fold : bool) : bool :=
  let matched :=
    match row_text_value expr, literal_pattern pattern with
    | Some value, Some pattern => like_matches value (as_bytes pattern) (filter_escape escape) fold
    | _, _ => false
    end in
  if negated then negb matched else matched.

(** The comparison of a row's value with each item of a list, up to the first that matches. *)
Fixpoint any_literal (row_value : ColumnValue) (t : DataType) (values : list Expr) : PgWireResult bool :=
  match values with
  | [] => Ok false
  | e :: values =>
      matched ← attempt (sql_expr_to_column_value e t) false (fun v => negb (is_null v) && cv_eqb row_value v);
      if matched : bool then Ok true else any_literal row_value t values
  end.

(** A column of the row that is not NULL. *)
Definition present (expr : Expr) (k : string -> ColumnValue -> PgWireResult bool) : PgWireResult bool :=
  match expr_identifier_name expr with
  | Ok column =>
      match row !! column with
      | Some row_value => if is_null row_value then Ok false else k column row_value
      | None => Ok false
      end
  | _ => Ok false
  end.

Definition in_list_filter (expr : Expr) (values : list Expr) (negated : bool) : PgWireResult bool :=
  present expr (fun column row_value =>
    matched ← any_literal row_value (column_type column) values;
    Ok (if negated then negb matched else matched)).

(** [attempt] for a literal, whose failure is the answer [false]. *)
Definition with_literal (e : Expr) (t : DataType) (k : ColumnValue -> PgWireResult bool) : PgWireResult bool :=
  match sql_expr_to_column_value e t with
  | Ok v => k v
  | Err _ => Ok false
  | Panic => Panic
  | OutOfFuel => OutOfFuel
  end.

Definition between_filter (expr : Expr) (negated : bool) (low high : Expr) : PgWireResult bool :=
  present expr (fun column row_value =>
    with_literal low (column_type column) (fun low =>
    with_literal high (column_type column) (fun high =>
    let inside := compare_values row_value low BinOp.GtEq && compare_values row_value high BinOp.LtEq in
    Ok (if negated then negb inside else inside)))).

(** A comparison whose left side is a column. *)
Definition column_filter (column : string) (op : BinaryOperator) (rhs : Expr) : PgWireResult bool :=
  match row !! column with
  | Some row_value =>
      with_literal rhs (column_type column) (fun filter_value => Ok (compare_values row_value filter_value op))
  | None => Ok false
  end.

(** [row_matches_filter]: a failure is the answer [false], a panic is a panic. *)
Fixpoint row_matches_filter (expr : Expr) : PgWireResult bool :=
  let evaluated := attempt (evaluate expr) false value_true in
  match expr with
  | BinaryOp lhs op rhs =>
      match op with
      | BinOp.And => a ← row_matches_filter lhs; if a : bool then row_matches_filter rhs else Ok false
      | BinOp.Or => a ← row_matches_filter lhs; if a : bool then Ok true else row_matches_filter rhs
      | BinOp.Eq | BinOp.NotEq | BinOp.Gt | BinOp.Lt | BinOp.GtEq | BinOp.LtEq =>
          match expr_identifier_name lhs with
          | Ok column => column_filter column op rhs
          | _ => evaluated
          end
      | BinOp.Arrow | BinOp.LongArrow | BinOp.AtArrow | BinOp.Question => evaluated
      | _ => Ok false
      end
  | InList expr values negated => in_list_filter expr values negated
  | Between expr negated low high => between_filter expr negated low high
  | IsNull inner =>
      match expr_identifier_name inner with
      | Ok column => Ok (match row !! column with Some v => is_null v | None => true end)
      | _ => attempt (evaluate inner) false is_null
      end
  | IsNotNull inner =>
      match expr_identifier_name inner with
      | Ok column => Ok (match row !! column with Some v => negb (is_null v) | None => false end)
      | _ => attempt (evaluate inner) false (fun v => negb (is_null v))
      end
  | Like negated expr pattern escape => Ok (like_filter negated expr pattern escape false)
  | ILike negated expr pattern escape => Ok (like_filter negated expr pattern escape true)
  | Nested inner => row_matches_filter inner
  | AnyOp _ _ _ | AllOp _ _ _ => evaluated
  | _ => Ok false
  end.
End Filter.

(** ** Access paths (projection.rs, dml_planner.rs) *)

(** A bound of a key range and whether it belongs to the range. *)
Abbreviation KeyBound := (option (ColumnValue * bool)).

(** [merge_lower_bound] and [merge_upper_bound]: [tighter] is the order in which a candidate
    replaces the bound. *)
Definition merge_bound (tighter : comparison) (current : KeyBound) (candidate : ColumnValue * bool) : KeyBound :=
  match current with
  | None => Some candidate
  | Some (value, inclusive) =>
      match cv_partial_cmp candidate.1 value with
      | Some Eq => Some (value, inclusive && candidate.2)
      | Some order => if bool_decide (order = tighter) then Some candidate else current
      | None => current
      end
  end.
Definition merge_lower_bound : KeyBound -> ColumnValue * bool -> KeyBound := merge_bound Gt.
Definition merge_upper_bound : KeyBound -> ColumnValue * bool -> KeyBound := merge_bound Lt.

(** An index of the catalog: its name and its columns, in the order of the list. *)
Abbreviation IndexColumns := (string * list string)%type.

Section Access.
Context `{ValueTexts, SerdeJson, UnicodeCase, FixedTexts, Clock}.

(** The bounds as they are at the end, and whether the whole filter was read. *)
Abbreviation Bounds := (KeyBound * KeyBound)%type.

Fixpoint collect_column_range_bounds (expr : Expr) (column_name : string) (t : DataType) (bounds : Bounds)
    : PgWireResult (Bounds * bool) :=
  let '(lower, upper) := bounds in
  match expr with
  | BinaryOp lhs BinOp.And rhs =>
      '(bounds, whole) ← collect_column_range_bounds lhs column_name t bounds;
      if whole : bool then collect_column_range_bounds rhs column_name t bounds else Ok (bounds, false)
  | BinaryOp lhs op rhs =>
      match expr_identifier_name lhs with
      | Ok actual =>
          if bool_decide (actual = column_name) then
            value ← sql_expr_to_column_value rhs t;
            match op with
            | BinOp.Gt => Ok (merge_lower_bound lower (value, false), upper, true)
            | BinOp.GtEq => Ok (merge_lower_bound lower (value, true), upper, true)
            | BinOp.Lt => Ok (lower, merge_upper_bound upper (value, false), true)
            | BinOp.LtEq => Ok (lower, merge_upper_bound upper (value, true), true)
            | _ => Ok (bounds, false)
            end
          else Ok (bounds, false)
      | _ => Ok (bounds, false)
      end
  | Between expr false low high =>
      match expr_identifier_name expr with
      | Ok actual =>
          if bool_decide (actual = column_name) then
            low ← sql_expr_to_column_value low t;
            high ← sql_expr_to_column_value high t;
            Ok (merge_lower_bound lower (low, true), merge_upper_bound upper (high, true), true)
          else Ok (bounds, false)
      | _ => Ok (bounds, false)
      end
  | Nested inner => collect_column_range_bounds inner column_name t bounds
  | _ => Ok (bounds, false)
  end.

Definition extract_column_range_filter (selection : option Expr) (column_name : string) (t : DataType)
    : PgWireResult (option Bounds) :=
  match selection with
  | None => Ok None
  | Some expr =>
      '(bounds, whole) ← collect_column_range_bounds expr column_name t (None, None);
      Ok (if whole : bool then Some bounds else None)
  end.

Definition extract_primary_key_range_filter (selection : option Expr) (schema : TableSchema)
    : PgWireResult (option Bounds) :=
  match selection with
  | None => Ok None
  | Some _ =>
      if has_user_primary_key schema
      then extract_column_range_filter selection (primary_key schema) (pk_data_type schema)
      else Ok None
  end.

(** An equation on the primary key; the left side of any equation must be a column. *)
Fixpoint primary_key_equation (expr : Expr) (schema : TableSchema) : PgWireResult (option ColumnValue) :=
  match expr with
  | BinaryOp lhs BinOp.Eq rhs =>
      name ← expr_identifier_name lhs;
      if bool_decide (name = primary_key schema)
      then Some <$> sql_expr_to_column_value rhs (pk_data_type schema)
      else Ok None
  | Nested inner => primary_key_equation inner schema
  | _ => Ok None
  end.
Definition extract_primary_key_filter (selection : option Expr) (schema : TableSchema)
    : PgWireResult (option ColumnValue) :=
  match selection with
  | None => Ok None
  | Some expr => if has_user_primary_key schema then primary_key_equation expr schema else Ok None
  end.

Fixpoint indexable_equation (expr : Expr) (schema : TableSchema) : PgWireResult (option (string * ColumnValue)) :=
  match expr with
  | BinaryOp lhs BinOp.Eq rhs =>
      name ← expr_identifier_name lhs;
      match find_column schema name with
      | None => Ok None
      | Some column => value ← sql_expr_to_column_value rhs (data_type column); Ok (Some (name, value))
      end
  | Nested inner => indexable_equation inner schema
  | _ => Ok None
  end.
Definition extract_indexable_eq_filter (selection : option Expr) (schema : TableSchema)
    : PgWireResult (option (string * ColumnValue)) :=
  match selection with None => Ok None | Some expr => indexable_equation expr schema end.

(** The keys of an IN list, each encoded key once, NULLs left out. *)
Fixpoint in_list_keys (seen : list (list byte)) (values : list Expr) (t : DataType) : PgWireResult (list ColumnValue) :=
  match values with
  | [] => Ok []
  | e :: values =>
      value ← sql_expr_to_column_value e t;
      if is_null value then in_list_keys seen values t
      else
        let encoded := encode_key_value value in
        if bool_decide (encoded ∈ seen) then in_list_keys seen values t
        else keys ← in_list_keys (encoded :: seen) values t; Ok (value :: keys)
  end.

Fixpoint primary_key_in (expr : Expr) (schema : TableSchema) : PgWireResult (option (list ColumnValue)) :=
  match expr with
  | InList expr values false =>
      name ← expr_identifier_name expr;
      if bool_decide (name = primary_key schema) then
        match find_column schema name with
        | None => Ok None
        | Some column => Some <$> in_list_keys [] values (data_type column)
        end
      else Ok None
  | Nested inner => primary_key_in inner schema
  | _ => Ok None
  end.
Definition extract_primary_key_in_filter (selection : option Expr) (schema : TableSchema)
    : PgWireResult (option (list ColumnValue)) :=
  match selection with None => Ok None | Some expr => primary_key_in expr schema end.

(** [fast_path_usize_expr]. *)
Definition fast_path_usize_expr (expr : Expr) (clause : string) : PgWireResult Z :=
  value ← sql_expr_to_column_value expr DT.Int64;
  value ← match value with
          | Int16 v | Int32 v | Int64 v => Ok v
          | _ => unsupported (clause +:+ " expression is not supported in fast path")
          end;
  if value <? 0 then user_error "2201X" (clause +:+ " must not be negative") else Ok value.

(** ** Plans of reads and writes *)

(** [ReadAccess] of types/query_plan.rs; an index is its name. *)
Inductive ReadAccess : Type :=
  | PointLookup (key : ColumnValue)
  | PrimaryKeyInLookup (keys : list ColumnValue)
  | PrimaryKeyRangeScan (lower upper : KeyBound) (filter : option Expr)
  | SecondaryIndexLookup (index_name column_name : string) (key : ColumnValue) (filter : option Expr)
  | SecondaryIndexRangeScan (index_name column_name : string) (lower upper : KeyBound) (filter : option Expr)
  | PrefixScan (filter : option Expr).

Fixpoint extract_indexable_range_filter (selection : option Expr) (schema : TableSchema)
    (indexes : list IndexColumns) : PgWireResult (option (string * string * KeyBound * KeyBound)) :=
  match indexes with
  | [] => Ok None
  | (index_name, [column_name]) :: indexes =>
      if bool_decide (column_name = primary_key schema) then extract_indexable_range_filter selection schema indexes
      else match find_column schema column_name with
      | None => extract_indexable_range_filter selection schema indexes
      | Some column =>
          range ← extract_column_range_filter selection column_name (data_type column);
          match range with
          | Some (lower, upper) => Ok (Some (index_name, column_name, lower, upper))
          | None => extract_indexable_range_filter selection schema indexes
          end
      end
  | _ :: indexes => extract_indexable_range_filter selection schema indexes
  end.

(** The choice of [plan_select] once the filter is supported. *)
Definition select_access (selection : option Expr) (schema : TableSchema) (indexes : list IndexColumns)
    : PgWireResult ReadAccess :=
  key ← extract_primary_key_filter selection schema;
  match key with
  | Some key => Ok (PointLookup key)
  | None =>
      keys ← extract_primary_key_in_filter selection schema;
      match keys with
      | Some keys => Ok (PrimaryKeyInLookup keys)
      | None =>
          range ← extract_primary_key_range_filter selection schema;
          match range with
          | Some (lower, upper) => Ok (PrimaryKeyRangeScan lower upper None)
          | None =>
              equation ← extract_indexable_eq_filter selection schema;
              match (c ← equation; i ← List.find (fun i => bool_decide (i.2 = [c.1])) indexes; Some (c, i)) with
              | Some ((column_name, key), index) => Ok (SecondaryIndexLookup index.1 column_name key selection)
              | None =>
                  range ← extract_indexable_range_filter selection schema indexes;
                  match range with
                  | Some (index_name, column_name, lower, upper) =>
                      Ok (SecondaryIndexRangeScan index_name column_name lower upper selection)
                  | None => Ok (PrefixScan selection)
                  end
              end
          end
      end
  end.
End Access.

(** ** Where the update and delete planners keep the filter *)

(** [WriteAccess] of types/query_plan.rs. *)
Inductive WriteAccess : Type :=
  | WPointLookup (key : ColumnValue)
  | WPrimaryKeyRangeScan (lower upper : KeyBound) (filter : option Expr)
  | WSecondaryIndexLookup (index_name : string) (key : ColumnValue) (filter : option Expr)
  | WSecondaryIndexRangeScan (index_name : string) (lower upper : KeyBound) (filter : option Expr)
  | WPrefixScan (filter : option Expr).

Section WritePlans.
Context `{ValueTexts, SerdeJson, UnicodeCase, FixedTexts, Clock}.

Definition write_access (selection : option Expr) (schema : TableSchema) (indexes : list IndexColumns)
    : PgWireResult WriteAccess :=
  key ← extract_primary_key_filter selection schema;
  match key with
  | Some key => Ok (WPointLookup key)
  | None =>
      range ← extract_primary_key_range_filter selection schema;
      match range with
      | Some (lower, upper) => Ok (WPrimaryKeyRangeScan lower upper selection)
      | None =>
          equation ← extract_indexable_eq_filter selection schema;
          match (c ← equation; i ← List.find (fun i => bool_decide (i.2 = [c.1])) indexes; Some (c, i)) with
          | Some ((_, key), index) => Ok (WSecondaryIndexLookup index.1 key selection)
          | None =>
              range ← extract_indexable_range_filter selection schema indexes;
              match range with
              | Some (index_name, _, lower, upper) => Ok (WSecondaryIndexRangeScan index_name lower upper selection)
              | None => Ok (WPrefixScan selection)
              end
          end
      end
  end.
End WritePlans.

(** ** Ranges of an index (scans.rs) *)

Definition value_in_bounds (value : ColumnValue) (lower upper : KeyBound) : bool :=
  let lower_ok :=
    match lower with
    | Some (bound, inclusive) =>
        match cv_partial_cmp value bound with Some Lt => false | Some Eq => inclusive | _ => true end
    | None => true
    end in
  let upper_ok :=
    match upper with
    | Some (bound, inclusive) =>
        match cv_partial_cmp value bound with Some Gt => false | Some Eq => inclusive | _ => true end
    | None => true
    end in
  lower_ok && upper_ok.

(** The keys [scan_index_row_entries_by_range_at] scans, if any. *)
Definition index_range_start (index_id : Z) (lower : KeyBound) : list byte :=
  match lower with
  | Some (value, true) => index_prefix index_id value
  | Some (value, false) =>
      match next_prefix (index_prefix index_id value) with Some key => key | None => index_prefix index_id value end
  | None => index_all_prefix index_id
  end.
Definition index_range_end (index_id : Z) (upper : KeyBound) : option (list byte) :=
  match upper with
  | Some (value, true) => next_prefix (index_prefix index_id value)
  | Some (value, false) => Some (index_prefix index_id value)
  | None => next_prefix (index_all_prefix index_id)
  end.
Definition index_value_range (index_id : Z) (lower upper : KeyBound) : option RangeScan :=
  let start := index_range_start index_id lower in
  let stop := index_range_end index_id upper in
  if match stop with Some stop => bytes_leb stop start | None => false end then None
  else Some {| rs_start := start; rs_end := stop; rs_limit := None; rs_reverse := false |}.

(** * Typed literals *)

Section Typed.
Context `{ValueTexts, SerdeJson, UnicodeCase, FixedTexts, Clock}.

Lemma number_literal_typed (v : string) (t : DataType) : answers_typed t (number_literal v t).
Proof.
  destruct t; try (apply parse_text_typed); unfold number_literal;
    match goal with |- answers_typed _ (match ?m with _ => _ end) => destruct m as [z|] eqn:E end;
    try apply answers_error; apply answers_ok; (split; [done|]); cbn [ints_in_range];
    first [by apply parse_i16_range in E|by apply parse_i32_range in E|by apply parse_i64_range in E|done].
Qed.

Lemma literal_value_typed (value : SqlValue) (t : DataType) : answers_typed t (literal_value value t).
Proof.
  destruct value; cbn [literal_value].
  - apply number_literal_typed.
  - apply parse_text_typed.
  - apply parse_text_typed.
  - by apply coerce_typed.
  - apply answers_ok. split; [by destruct t|done].
  - apply answers_error.
Qed.

Lemma map_m_typed {A : Type} (f : A -> PgWireResult ColumnValue) (t : DataType) (l : list A) (vs : list ColumnValue) :
  Forall (fun a => answers_typed t (f a)) l -> map_m f l = Ok vs -> Forall (typed_value t) vs.
Proof.
  intros Hl. revert vs. induction Hl as [|a l Ha Hl IH]; intros vs; cbn [map_m]; [by intros [= <-]|].
  intros Hv. apply bind_inv in Hv as (v & Hv & Hvs). apply bind_inv in Hvs as (ws & Hws & [= <-]).
  constructor; [by apply Ha|by apply IH].
Qed.

(** A literal read at a type is of the type, with its integers in range. *)
Lemma sql_expr_typed : forall (e : Expr) (t : DataType), answers_typed t (sql_expr_to_column_value e t).
Proof.
  fix IH 1. intros e t. destruct e; cbn [sql_expr_to_column_value]; try apply answers_error.
  - destruct (named value _); [by apply coerce_typed|apply answers_error].
  - apply literal_value_typed.
  - apply answers_bind. intros v Hv. apply literal_value_typed in Hv as [_ Hr]. by apply coerce_typed.
  - apply answers_bind. intros v Hv. apply IH in Hv as [_ Hr]. by apply coerce_typed.
  - destruct (is_current_timestamp_function name); [by apply coerce_typed|apply answers_error].
  - destruct t; try apply answers_error. apply answers_fmap. intros vs Hvs.
    assert (Hall : forall l, Forall (fun e => answers_typed t (sql_expr_to_column_value e t)) l)
      by (intros l; induction l; constructor; auto).
    eapply map_m_typed in Hvs; [|apply Hall]. split.
    + cbn [LegacyCodec.cell_typed]. apply forallb_forall. intros v Hv%list_elem_of_In.
      rewrite Forall_forall in Hvs. by apply Hvs in Hv as [? _].
    + apply ints_in_range_array. eapply Forall_impl; [exact Hvs|]. by intros v [_ ?].
  - destruct op; try apply answers_error. destruct e; try apply answers_error. destruct value; try apply answers_error.
    apply number_literal_typed.
Qed.
End Typed.
