(* ===== verification/Access.v ===== *)
(** * The access paths of a filter read its rows

    Theorems on Filter.v: whichever access the planners of SELECT, UPDATE and DELETE choose, it
    reads the rows the WHERE clause accepts, on integer keys; and the filter of the scans agrees
    with the evaluator of expressions. *)

From stdpp Require Import pretty.
From S2P Require LegacyCodec.
From S2P Require Import Prelude Float Types TupleCodec Values Text DataTypes Json KeyCodec Coerce Operators Patterns Dates SqlJson Functions Expr Filter.

#[local] Open Scope string_scope.
#[local] Open Scope list_scope.
#[local] Open Scope Z_scope.

(** ** Integer keys *)

(** The types whose values are machine integers in a key. *)
Definition int_type (t : DataType) : bool :=
  match t with
  | DT.Int16 | DT.Int32 | DT.Int64 => true
  | DT.MySqlInt Big true => false
  | DT.MySqlInt _ _ => true
  | _ => false
  end.

(** An integer of the type. *)
Definition int_value_of (t : DataType) (v : ColumnValue) (z : Z) : Prop :=
  int_of_key v = Some z /\ LegacyCodec.cell_typed t v = true /\ ints_in_range v.

Lemma typed_int (t : DataType) (v : ColumnValue) : int_type t = true -> typed_value t v ->
  v = Null \/ exists z, int_value_of t v z.
Proof.
  intros Ht [Hc Hr]. unfold int_value_of.
  destruct v; try (by left); try (right; by eexists); exfalso; destruct t; try discriminate Ht; try discriminate Hc;
    destruct kind, unsigned; try discriminate Ht; try discriminate Hc.
Qed.

Lemma int_value_key (t : DataType) (v : ColumnValue) (z : Z) : int_value_of t v z -> wf_key v /\ is_null v = false.
Proof. intros (Hz & _ & Hr). destruct v; try discriminate Hz; done. Qed.

Lemma int_value_width (t : DataType) (v w : ColumnValue) (a b : Z) : int_type t = true ->
  int_value_of t v a -> int_value_of t w b -> same_int_width v w = true.
Proof.
  intros Ht (Ha & Hv & _) (Hb & Hw & _).
  destruct v, w; try discriminate Ha; try discriminate Hb; try done; exfalso;
    destruct t; try discriminate Ht; try discriminate Hv; try discriminate Hw;
    destruct kind, unsigned; try discriminate Ht; try discriminate Hv; discriminate Hw.
Qed.

Lemma int_compare (v w : ColumnValue) (a b : Z) : int_of_key v = Some a -> int_of_key w = Some b ->
  cv_partial_cmp v w = Some (a ?= b).
Proof. intros Ha Hb. destruct v, w; try discriminate Ha; try discriminate Hb; by injection Ha as <-; injection Hb as <-. Qed.

Lemma int_equal (v w : ColumnValue) (a b : Z) : same_int_width v w = true ->
  int_of_key v = Some a -> int_of_key w = Some b -> cv_eqb v w = (a =? b).
Proof.
  intros Hw Ha Hb. destruct v, w; try discriminate Ha; try discriminate Hb; try discriminate Hw;
    by injection Ha as <-; injection Hb as <-.
Qed.

Lemma compare_values_int (t : DataType) (v w : ColumnValue) (a b : Z) (op : BinaryOperator) : int_type t = true ->
  int_value_of t v a -> int_value_of t w b -> compare_values v w op = compared op (a =? b) (Some (a ?= b)).
Proof.
  intros Ht Hv Hw. unfold compare_values.
  rewrite (int_compare v w a b (proj1 Hv) (proj1 Hw)), (int_equal v w a b (int_value_width t v w a b Ht Hv Hw) (proj1 Hv) (proj1 Hw)).
  by rewrite (proj2 (int_value_key t v a Hv)), (proj2 (int_value_key t w b Hw)).
Qed.

Lemma key_equal_int (t : DataType) (v w : ColumnValue) (a b : Z) : int_type t = true ->
  int_value_of t v a -> int_value_of t w b ->
  bool_decide (encode_key_value v = encode_key_value w) = (a =? b).
Proof.
  intros Ht Hv Hw. pose proof (int_value_width t v w a b Ht Hv Hw) as Hsame.
  pose proof (int_key_cmp v w a b Hsame (proj1 (int_value_key t v a Hv)) (proj1 (int_value_key t w b Hw))
    (proj1 Hv) (proj1 Hw)) as Hc.
  destruct (Z.eqb_spec a b) as [->|Hne].
  - rewrite Z.compare_refl in Hc. apply bytes_cmp_eq in Hc. by apply bool_decide_eq_true.
  - apply bool_decide_eq_false. intros E. rewrite E, bytes_cmp_refl in Hc. symmetry in Hc.
    by apply Z.compare_eq_iff in Hc.
Qed.

(** ** Bounds *)

Definition int_bound (t : DataType) (bound : KeyBound) : Prop :=
  match bound with None => True | Some (v, _) => exists z, int_value_of t v z end.

Lemma merge_lower_int (t : DataType) (lower : KeyBound) (v : ColumnValue) (z p : Z) (inclusive : bool) :
  int_bound t lower -> int_value_of t v z ->
  int_bound t (merge_lower_bound lower (v, inclusive)) /\
  above (merge_lower_bound lower (v, inclusive)) p = above lower p && (if inclusive then z <=? p else z <? p).
Proof.
  intros Hl Hv. unfold merge_lower_bound, merge_bound. destruct lower as [[w inc]|].
  - destruct Hl as [x Hw]. cbn [fst snd]. rewrite (int_compare v w z x (proj1 Hv) (proj1 Hw)).
    destruct (Z.compare_spec z x) as [<-|Hlt|Hgt]; cbn [int_bound above].
    + split; [by exists z|]. rewrite (proj1 Hw). destruct inc, inclusive; cbn [andb]; lia.
    + rewrite bool_decide_eq_false_2 by done. split; [by exists x|]. cbn [above]. rewrite (proj1 Hw).
      destruct inc, inclusive; cbn [andb]; lia.
    + rewrite bool_decide_eq_true_2 by done. split; [by exists z|]. cbn [above]. rewrite (proj1 Hv), (proj1 Hw).
      destruct inc, inclusive; cbn [andb]; lia.
  - split; [by exists z|]. cbn [above]. by rewrite (proj1 Hv).
Qed.

Lemma merge_upper_int (t : DataType) (upper : KeyBound) (v : ColumnValue) (z p : Z) (inclusive : bool) :
  int_bound t upper -> int_value_of t v z ->
  int_bound t (merge_upper_bound upper (v, inclusive)) /\
  below (merge_upper_bound upper (v, inclusive)) p = below upper p && (if inclusive then p <=? z else p <? z).
Proof.
  intros Hl Hv. unfold merge_upper_bound, merge_bound. destruct upper as [[w inc]|].
  - destruct Hl as [x Hw]. cbn [fst snd]. rewrite (int_compare v w z x (proj1 Hv) (proj1 Hw)).
    destruct (Z.compare_spec z x) as [<-|Hlt|Hgt]; cbn [int_bound below].
    + split; [by exists z|]. rewrite (proj1 Hw). destruct inc, inclusive; cbn [andb]; lia.
    + rewrite bool_decide_eq_true_2 by done. split; [by exists z|]. cbn [below]. rewrite (proj1 Hv), (proj1 Hw).
      destruct inc, inclusive; cbn [andb]; lia.
    + rewrite bool_decide_eq_false_2 by done. split; [by exists x|]. cbn [below]. rewrite (proj1 Hw).
      destruct inc, inclusive; cbn [andb]; lia.
  - split; [by exists z|]. cbn [below]. by rewrite (proj1 Hv).
Qed.

(** ** Ranges of an index *)

Lemma int_key_length (v w : ColumnValue) : same_int_width v w = true ->
  length (encode_key_value v) = length (encode_key_value w).
Proof. by destruct v, w. Qed.

Lemma index_prefix_cmp (id : Z) (v w : ColumnValue) (a b : Z) : same_int_width v w = true -> wf_key v -> wf_key w ->
  int_of_key v = Some a -> int_of_key w = Some b -> bytes_cmp (index_prefix id v) (index_prefix id w) = (a ?= b).
Proof. intros Hs Hv Hw Ha Hb. unfold index_prefix. rewrite !bytes_cmp_app. by apply int_key_cmp. Qed.

Lemma entry_key_ge (id : Z) (v w pk : ColumnValue) (a b : Z) : same_int_width v w = true -> wf_key v -> wf_key w ->
  int_of_key v = Some a -> int_of_key w = Some b ->
  bytes_leb (index_prefix id w) (index_entry_key id v pk) = (b <=? a).
Proof.
  intros Hs Hv Hw Ha Hb. pose proof (index_prefix_cmp id v w a b Hs Hv Hw Ha Hb) as Hc. unfold index_entry_key.
  destruct (Z.compare_spec a b) as [->|Hlt|Hgt].
  - apply bytes_cmp_eq in Hc. rewrite <- Hc, Z.leb_refl. apply bytes_leb_app.
  - rewrite (proj2 (Z.leb_gt b a)) by done. rewrite bytes_leb_ltb. apply negb_false_iff. unfold bytes_ltb.
    rewrite <- (app_nil_r (index_prefix id w)), bytes_cmp_app_ne, Hc; [done| |by rewrite Hc].
    unfold index_prefix. rewrite !length_app. by rewrite (int_key_length v w Hs).
  - rewrite (proj2 (Z.leb_le b a)) by lia. rewrite bytes_leb_ltb. apply negb_true_iff. unfold bytes_ltb.
    rewrite <- (app_nil_r (index_prefix id w)), bytes_cmp_app_ne, Hc; [done| |by rewrite Hc].
    unfold index_prefix. rewrite !length_app. by rewrite (int_key_length v w Hs).
Qed.

(** A lookup of an index sees an entry exactly when it is of the value. *)
Lemma index_lookup_key (id : Z) (v w pk : ColumnValue) : wf_key v -> wf_key w ->
  starts_with (index_entry_key id v pk) (index_prefix id w) = bool_decide (encode_key_value v = encode_key_value w).
Proof.
  intros Hv Hw. unfold index_entry_key, index_prefix. rewrite <- !app_assoc, !(app_assoc _ (to_be 4 id)).
  by apply starts_with_key_prefix.
Qed.

(** The successor of a prefix bounds the entries up to its value. *)
Lemma entry_key_below_next (id : Z) (v w pk : ColumnValue) (a b : Z) : same_int_width v w = true -> wf_key v -> wf_key w ->
  int_of_key v = Some a -> int_of_key w = Some b ->
  match next_prefix (index_prefix id w) with Some e => bytes_ltb (index_entry_key id v pk) e = (a <=? b) | None => False end.
Proof.
  intros Hs Hv Hw Ha Hb. pose proof (in_prefix_range (index_prefix id w) None (index_entry_key id v pk)) as Hr.
  unfold KeyCodec.in_range in Hr. cbn [rs_start rs_end prefix_range] in Hr.
  pose proof (next_prefix_inv (index_prefix id w)) as Hinv. destruct (next_prefix (index_prefix id w)) as [e|] eqn:He; [|done].
  rewrite (entry_key_ge id v w pk a b Hs Hv Hw Ha Hb) in Hr.
  rewrite index_lookup_key in Hr by done.
  assert (bool_decide (encode_key_value v = encode_key_value w) = (a =? b)) as E.
  { pose proof (int_key_cmp v w a b Hs Hv Hw Ha Hb) as Hc. destruct (Z.eqb_spec a b) as [->|Hne].
    - rewrite Z.compare_refl in Hc. apply bool_decide_eq_true. by apply bytes_cmp_eq.
    - apply bool_decide_eq_false. intros E. rewrite E, bytes_cmp_refl in Hc. symmetry in Hc. by apply Z.compare_eq_iff in Hc. }
  rewrite E in Hr. destruct (Z.leb_spec b a) as [Hle|Hgt]; cbn [andb] in Hr; [rewrite Hr; lia|].
  rewrite (proj2 (Z.leb_le a b)) by lia. apply (bytes_ltb_leb_trans _ (index_prefix id w)).
  - pose proof (entry_key_ge id v w pk a b Hs Hv Hw Ha Hb) as Hg. rewrite bytes_leb_ltb, (proj2 (Z.leb_gt b a)) in Hg by done.
    by apply negb_false_iff in Hg.
  - apply bytes_leb_le. left. rewrite <- (app_nil_r (index_prefix id w)). by apply bytes_lt_next_prefix.
Qed.

Definition range_of (bounds : KeyBound * KeyBound) (p : Z) : bool :=
  above bounds.1 p && below bounds.2 p.

Definition int_bounds (t : DataType) (bounds : KeyBound * KeyBound) : Prop :=
  int_bound t bounds.1 /\ int_bound t bounds.2.

Lemma value_in_bounds_int (t : DataType) (v : ColumnValue) (p : Z) (lower upper : KeyBound) : int_value_of t v p ->
  int_bound t lower -> int_bound t upper -> value_in_bounds v lower upper = range_of (lower, upper) p.
Proof.
  intros Hv Hl Hu. unfold value_in_bounds, range_of. cbn [fst snd]. f_equal.
  - destruct lower as [[w inc]|]; [|done]. destruct Hl as [z Hw].
    rewrite (int_compare v w p z (proj1 Hv) (proj1 Hw)). cbn [above]. rewrite (proj1 Hw).
    destruct (Z.compare_spec p z), inc; lia.
  - destruct upper as [[w inc]|]; [|done]. destruct Hu as [z Hw].
    rewrite (int_compare v w p z (proj1 Hv) (proj1 Hw)). cbn [below]. rewrite (proj1 Hw).
    destruct (Z.compare_spec p z), inc; lia.
Qed.

Lemma index_range_starts (id : Z) (t : DataType) (v pk : ColumnValue) (p : Z) (lower : KeyBound) : int_type t = true ->
  int_value_of t v p -> int_bound t lower -> above lower p = true ->
  bytes_leb (index_range_start id lower) (index_entry_key id v pk) = true.
Proof.
  intros Ht Hv Hl Ha. destruct lower as [[w inc]|].
  - destruct Hl as [z Hw]. cbn [above] in Ha. rewrite (proj1 Hw) in Ha.
    pose proof (int_value_width t v w p z Ht Hv Hw) as Hs.
    pose proof (proj1 (int_value_key t v p Hv)) as Hkv. pose proof (proj1 (int_value_key t w z Hw)) as Hkw.
    destruct inc; cbn [index_range_start].
    + by rewrite (entry_key_ge id v w pk p z Hs Hkv Hkw (proj1 Hv) (proj1 Hw)).
    + pose proof (entry_key_below_next id v w pk p z Hs Hkv Hkw (proj1 Hv) (proj1 Hw)) as Hn.
      destruct (next_prefix _) as [e|]; [|done]. rewrite bytes_leb_ltb, Hn. lia.
  - cbn [index_range_start]. unfold index_entry_key, index_prefix. rewrite (app_assoc _ (to_be 4 id)), <- app_assoc.
    apply bytes_leb_app.
Qed.

Lemma index_range_ends (id : Z) (t : DataType) (v pk : ColumnValue) (p : Z) (upper : KeyBound) : int_type t = true ->
  int_value_of t v p -> int_bound t upper -> below upper p = true ->
  exists e, index_range_end id upper = Some e /\ bytes_ltb (index_entry_key id v pk) e = true.
Proof.
  intros Ht Hv Hu Hb. destruct upper as [[w inc]|].
  - destruct Hu as [z Hw]. cbn [below] in Hb. rewrite (proj1 Hw) in Hb.
    pose proof (int_value_width t v w p z Ht Hv Hw) as Hs.
    pose proof (proj1 (int_value_key t v p Hv)) as Hkv. pose proof (proj1 (int_value_key t w z Hw)) as Hkw.
    destruct inc; cbn [index_range_end].
    + pose proof (entry_key_below_next id v w pk p z Hs Hkv Hkw (proj1 Hv) (proj1 Hw)) as Hn.
      destruct (next_prefix _) as [e|]; [|done]. exists e. by rewrite Hn.
    + eexists. split; [done|]. pose proof (entry_key_ge id v w pk p z Hs Hkv Hkw (proj1 Hv) (proj1 Hw)) as Hg.
      rewrite bytes_leb_ltb in Hg. destruct (bytes_ltb _ _); [done|]. cbn in Hg. lia.
  - cbn [index_range_end]. pose proof (next_prefix_inv (index_all_prefix id)) as Hinv.
    destruct (next_prefix (index_all_prefix id)) as [e|] eqn:He; [|done]. exists e. split; [done|]. apply bytes_ltb_lt.
    unfold index_entry_key, index_prefix. rewrite (app_assoc _ (to_be 4 id)), <- app_assoc.
    by apply bytes_lt_next_prefix.
Qed.

(** A scan of an index by range keeps an entry exactly when its value is between the bounds. *)
Lemma index_value_range_int (id : Z) (t : DataType) (v pk : ColumnValue) (p : Z) (lower upper : KeyBound) :
  int_type t = true -> int_value_of t v p -> int_bound t lower -> int_bound t upper ->
  match index_value_range id lower upper with
  | Some range => KeyCodec.in_range range (index_entry_key id v pk) && value_in_bounds v lower upper
  | None => false
  end = range_of (lower, upper) p.
Proof.
  intros Ht Hv Hl Hu. rewrite (value_in_bounds_int t v p lower upper Hv Hl Hu). unfold index_value_range.
  destruct (range_of (lower, upper) p) eqn:Hr; [|by case_match; rewrite ?andb_false_r].
  apply andb_true_iff in Hr as [Ha Hb]. cbn [fst snd] in Ha, Hb.
  pose proof (index_range_starts id t v pk p lower Ht Hv Hl Ha) as Hs.
  destruct (index_range_ends id t v pk p upper Ht Hv Hu Hb) as (e & -> & He).
  destruct (bytes_leb e (index_range_start id lower)) eqn:Hle.
  - exfalso. pose proof (bytes_ltb_leb_trans _ _ _ He (bytes_leb_trans _ _ _ Hle Hs)) as Hirr.
    apply bytes_ltb_lt in Hirr. by apply bytes_lt_irrefl in Hirr.
  - unfold KeyCodec.in_range. cbn [rs_start rs_end]. by rewrite Hs, He.
Qed.

(** ** Filters read as ranges *)

Section Ranges.
Context `{ValueTexts, SerdeJson, UnicodeCase, FixedTexts, Clock}.

(** No literal the range compares with is NULL. *)
Fixpoint non_null_literals (expr : Expr) (t : DataType) : Prop :=
  match expr with
  | BinaryOp lhs BinOp.And rhs => non_null_literals lhs t /\ non_null_literals rhs t
  | BinaryOp _ _ rhs => sql_expr_to_column_value rhs t <> Ok Null
  | Between _ _ low high => sql_expr_to_column_value low t <> Ok Null /\ sql_expr_to_column_value high t <> Ok Null
  | Nested inner => non_null_literals inner t
  | _ => True
  end.

(** A column of the row that holds an integer of its type. *)
Definition int_column (row : RowMap) (schema : TableSchema) (column : string) (t : DataType) (v : ColumnValue) (p : Z)
    : Prop :=
  int_type t = true /\ column_type schema column = t /\ row !! column = Some v /\ int_value_of t v p.

Lemma int_literal (e : Expr) (t : DataType) (v : ColumnValue) : int_type t = true ->
  sql_expr_to_column_value e t = Ok v -> v = Null \/ exists z, int_value_of t v z.
Proof. intros Ht Hv. apply typed_int; [done|]. by apply (sql_expr_typed e t). Qed.

(** What reading a filter promises: a part that is read whole narrows the range by what the
    filter says of the row. *)
Definition range_narrows (row : RowMap) (schema : TableSchema) (expr : Expr) (t : DataType) (p : Z)
    (bounds : KeyBound * KeyBound)
    (answer : (KeyBound * KeyBound) * bool) : Prop :=
  int_bounds t answer.1 /\
  (answer.2 = true -> exists b, row_matches_filter row schema expr = Ok b /\ range_of answer.1 p = range_of bounds p && b).

(** A comparison of the column with a literal. *)
Lemma column_comparison (row : RowMap) (schema : TableSchema) (column : string) (t : DataType) (v w : ColumnValue)
    (p z : Z) (op : BinaryOperator) (rhs : Expr) :
  int_column row schema column t v p -> sql_expr_to_column_value rhs t = Ok w -> int_value_of t w z ->
  column_filter row schema column op rhs = Ok (compared op (p =? z) (Some (p ?= z))).
Proof.
  intros (Ht & Hc & Hrow & Hv) Hw Hz. unfold column_filter, with_literal. rewrite Hrow, Hc, Hw.
  by rewrite (compare_values_int t v w p z op Ht Hv Hz).
Qed.

Lemma comparison_range (row : RowMap) (schema : TableSchema) (column : string) (t : DataType) (v : ColumnValue) (p : Z)
    (lhs rhs : Expr) (op : BinaryOperator) (lower upper : KeyBound)
    (answer : (KeyBound * KeyBound) * bool) :
  int_column row schema column t v p -> int_bounds t (lower, upper) -> op <> BinOp.And ->
  sql_expr_to_column_value rhs t <> Ok Null ->
  collect_column_range_bounds (BinaryOp lhs op rhs) column t (lower, upper) = Ok answer ->
  range_narrows row schema (BinaryOp lhs op rhs) t p (lower, upper) answer.
Proof.
  intros Hcol [Hlo Hup] Hand Hnull Hcollect. cbn [fst snd] in Hlo, Hup.
  assert (Hstop : answer = ((lower, upper), false) -> range_narrows row schema (BinaryOp lhs op rhs) t p (lower, upper) answer)
    by (intros ->; by split).
  assert (Hbody : (match expr_identifier_name lhs with
      | Ok actual =>
          if bool_decide (actual = column) then
            value ← sql_expr_to_column_value rhs t;
            match op with
            | BinOp.Gt => Ok (merge_lower_bound lower (value, false), upper, true)
            | BinOp.GtEq => Ok (merge_lower_bound lower (value, true), upper, true)
            | BinOp.Lt => Ok (lower, merge_upper_bound upper (value, false), true)
            | BinOp.LtEq => Ok (lower, merge_upper_bound upper (value, true), true)
            | _ => Ok ((lower, upper), false)
            end
          else Ok ((lower, upper), false)
      | _ => Ok ((lower, upper), false)
      end : PgWireResult _) = Ok answer) by (destruct op; try done; exact Hcollect).
  clear Hcollect. destruct (expr_identifier_name lhs) as [actual| | |] eqn:Hname; try (injection Hbody as <-; by apply Hstop).
  destruct (bool_decide_reflect (actual = column)) as [->|]; [|injection Hbody as <-; by apply Hstop].
  apply bind_inv in Hbody as (w & Hw & Hbody). pose proof Hcol as (Ht & _).
  destruct (int_literal rhs t w Ht Hw) as [->|[z Hz]]; [done|].
  pose proof (fun o => column_comparison row schema column t v w p z o rhs Hcol Hw Hz) as Hf.
  destruct op; try (injection Hbody as <-; by apply Hstop); injection Hbody as <-; unfold range_narrows, int_bounds, range_of;
    cbn [fst snd row_matches_filter]; rewrite Hname, Hf; cbn [compared is_gt is_ge is_lt is_le].
  - destruct (merge_lower_int t lower w z p false Hlo Hz) as [Hb ->]. split; [done|]. intros _. eexists. split; [done|].
    unfold Z.ltb. rewrite (Z.compare_antisym p z). destruct (p ?= z); cbn; by destruct (above _ _), (below _ _).
  - destruct (merge_lower_int t lower w z p true Hlo Hz) as [Hb ->]. split; [done|]. intros _. eexists. split; [done|].
    unfold Z.leb. rewrite (Z.compare_antisym p z). destruct (p ?= z); cbn; by destruct (above _ _), (below _ _).
  - destruct (merge_upper_int t upper w z p false Hup Hz) as [Hb ->]. split; [done|]. intros _. eexists. split; [done|].
    unfold Z.ltb. destruct (p ?= z); cbn; by destruct (above _ _), (below _ _).
  - destruct (merge_upper_int t upper w z p true Hup Hz) as [Hb ->]. split; [done|]. intros _. eexists. split; [done|].
    unfold Z.leb. destruct (p ?= z); cbn; by destruct (above _ _), (below _ _).
Qed.

Lemma between_range (row : RowMap) (schema : TableSchema) (column : string) (t : DataType) (v : ColumnValue) (p : Z)
    (expr low high : Expr) (negated : bool) (lower upper : KeyBound)
    (answer : (KeyBound * KeyBound) * bool) :
  int_column row schema column t v p -> int_bounds t (lower, upper) ->
  sql_expr_to_column_value low t <> Ok Null -> sql_expr_to_column_value high t <> Ok Null ->
  collect_column_range_bounds (Between expr negated low high) column t (lower, upper) = Ok answer ->
  range_narrows row schema (Between expr negated low high) t p (lower, upper) answer.
Proof.
  intros Hcol [Hlo Hup] Hnl Hnh Hbody. cbn [fst snd] in Hlo, Hup. cbn [collect_column_range_bounds] in Hbody.
  destruct negated; [injection Hbody as <-; by split|].
  destruct (expr_identifier_name expr) as [actual| | |] eqn:Hname; try (injection Hbody as <-; by split).
  destruct (bool_decide_reflect (actual = column)) as [->|]; [|injection Hbody as <-; by split].
  apply bind_inv in Hbody as (l & Hl & Hbody). apply bind_inv in Hbody as (h & Hh & [= <-]).
  pose proof Hcol as (Ht & Hc & Hrow & Hv).
  destruct (int_literal low t l Ht Hl) as [->|[a Ha]]; [done|].
  destruct (int_literal high t h Ht Hh) as [->|[b Hb]]; [done|].
  unfold range_narrows, int_bounds, range_of. cbn [fst snd row_matches_filter].
  destruct (merge_lower_int t lower l a p true Hlo Ha) as [Hbl ->].
  destruct (merge_upper_int t upper h b p true Hup Hb) as [Hbh ->]. split; [done|]. intros _.
  unfold between_filter, present. rewrite Hname, Hrow. rewrite (proj2 (int_value_key t v p Hv)). unfold with_literal.
  rewrite Hc, Hl, Hh, (compare_values_int t v l p a _ Ht Hv Ha), (compare_values_int t v h p b _ Ht Hv Hb).
  eexists. split; [done|]. cbn [compared is_ge is_le]. unfold Z.leb. rewrite (Z.compare_antisym p a).
  destruct (p ?= a), (p ?= b); cbn; by destruct (above _ _), (below _ _).
Qed.

Lemma collected_range (row : RowMap) (schema : TableSchema) (column : string) (t : DataType) (v : ColumnValue) (p : Z) :
  int_column row schema column t v p ->
  forall (expr : Expr) (bounds : KeyBound * KeyBound)
    (answer : (KeyBound * KeyBound) * bool),
  non_null_literals expr t -> int_bounds t bounds ->
  collect_column_range_bounds expr column t bounds = Ok answer -> range_narrows row schema expr t p bounds answer.
Proof.
  intros Hcol. induction expr; intros [lower upper] answer Hnn Hb Hcollect;
    try (cbn in Hcollect; injection Hcollect as <-; by split).
  - destruct (decide (op = BinOp.And)) as [->|Hop].
    + destruct Hnn as [Hn1 Hn2]. cbn [collect_column_range_bounds] in Hcollect.
      apply bind_inv in Hcollect as ([mid whole] & Hmid & Hcollect).
      destruct (IHexpr1 _ _ Hn1 Hb Hmid) as [Hbmid Hm]. cbn [fst snd] in Hbmid, Hm.
      destruct whole; [|injection Hcollect as <-; by split].
      destruct (Hm eq_refl) as (b1 & Hf1 & Hr1). destruct (IHexpr2 _ _ Hn2 Hbmid Hcollect) as [Hbend He].
      split; [done|]. intros Hw. destruct (He Hw) as (b2 & Hf2 & Hr2). cbn [row_matches_filter]. rewrite Hf1, bind_ok.
      exists (b1 && b2). split; [by destruct b1|]. by rewrite Hr2, Hr1, andb_assoc.
    + apply (comparison_range row schema column t v p); try done. by destruct op.
  - destruct Hnn as [Hn1 Hn2]. by apply (between_range row schema column t v p).
  - by apply IHexpr.
Qed.
End Ranges.

(** ** The chosen access *)

Section Chosen.
Context `{ValueTexts, SerdeJson, UnicodeCase, FixedTexts, Clock}.
Context (table_id table_epoch : Z) (index_id : string -> Z) (pk_value : ColumnValue).
Context (row : RowMap) (schema : TableSchema).

(** Whether the row is at a key the access looks up. *)
Definition at_key (column : string) (key : ColumnValue) : bool :=
  match row !! column with Some v => bool_decide (encode_key_value v = encode_key_value key) | None => false end.

Definition residual (filter : option Expr) : PgWireResult bool :=
  match filter with None => Ok true | Some expr => row_matches_filter row schema expr end.

Definition then_residual (selected : bool) (filter : option Expr) : PgWireResult bool :=
  if selected then residual filter else Ok false.

(** Whether the row's entry of the index is one a lookup of the key sees. *)
Definition at_entry (name column : string) (key : ColumnValue) : bool :=
  starts_with (index_entry_key (index_id name) (row_get row column) pk_value) (index_prefix (index_id name) key).

(** Whether a scan of an index by range keeps the row's entry: its key is in the range of keys
    and its value between the bounds. *)
Definition entry_in_range (name column : string) (lower upper : KeyBound) : bool :=
  let v := row_get row column in
  match index_value_range (index_id name) lower upper with
  | Some range => KeyCodec.in_range range (index_entry_key (index_id name) v pk_value) && value_in_bounds v lower upper
  | None => false
  end.

(** Whether an access reads the row: its key in the store is one the lookup asks for or lies
    in the scanned range of keys, and the filter kept in the plan accepts it. *)
Definition access_selects (access : ReadAccess) : PgWireResult bool :=
  match access with
  | PointLookup key => Ok (at_key (primary_key schema) key)
  | PrimaryKeyInLookup keys => Ok (existsb (at_key (primary_key schema)) keys)
  | PrimaryKeyRangeScan lower upper filter =>
      match row !! primary_key schema with
      | Some v =>
          then_residual (KeyCodec.in_range (row_range_between table_id table_epoch lower upper None)
                                           (row_key table_id table_epoch v)) filter
      | None => Ok false
      end
  | SecondaryIndexLookup name column key filter => then_residual (at_entry name column key) filter
  | SecondaryIndexRangeScan name column lower upper filter => then_residual (entry_in_range name column lower upper) filter
  | PrefixScan filter => residual filter
  end.

Lemma null_is_no_key (v : ColumnValue) (p : Z) : int_of_key v = Some p ->
  bool_decide (encode_key_value v = encode_key_value Null) = false.
Proof. intros Hp. apply bool_decide_eq_false. by destruct v. Qed.

Lemma equation_at_key (column : string) (t : DataType) (v : ColumnValue) (p : Z) (rhs : Expr) (key : ColumnValue) :
  int_column row schema column t v p -> sql_expr_to_column_value rhs t = Ok key ->
  column_filter row schema column BinOp.Eq rhs = Ok (at_key column key).
Proof.
  intros Hcol Hkey. pose proof Hcol as (Ht & Hc & Hrow & Hv). unfold at_key. rewrite Hrow.
  destruct (int_literal rhs t key Ht Hkey) as [->|[z Hz]].
  - rewrite (null_is_no_key v p (proj1 Hv)). unfold column_filter, with_literal. rewrite Hrow, Hc, Hkey.
    unfold compare_values. cbn [is_null]. by rewrite orb_true_r.
  - rewrite (column_comparison row schema column t v key p z _ rhs Hcol Hkey Hz). cbn [compared].
    by rewrite (key_equal_int t v key p z Ht Hv Hz).
Qed.

Lemma point_lookup_exact (v : ColumnValue) (p : Z) :
  int_column row schema (primary_key schema) (pk_data_type schema) v p ->
  forall (expr : Expr) (key : ColumnValue), primary_key_equation expr schema = Ok (Some key) ->
  row_matches_filter row schema expr = Ok (at_key (primary_key schema) key).
Proof.
  intros Hcol. induction expr; intros key Hk; try discriminate Hk; [|by apply IHexpr].
  destruct op; try discriminate Hk. cbn [primary_key_equation row_matches_filter] in *.
  apply bind_inv in Hk as (name & Hn & Hk). rewrite Hn.
  destruct (bool_decide_reflect (name = primary_key schema)) as [->|]; [|discriminate Hk].
  destruct (sql_expr_to_column_value expr2 (pk_data_type schema)) as [w| | |] eqn:Hw; try discriminate Hk.
  injection Hk as <-. by apply (equation_at_key _ (pk_data_type schema) v p).
Qed.

Lemma index_equation_exact (column : string) (key : ColumnValue) : forall expr : Expr,
  indexable_equation expr schema = Ok (Some (column, key)) ->
  (exists (t : DataType) (v : ColumnValue) (p : Z), int_column row schema column t v p) ->
  row_matches_filter row schema expr = Ok (at_key column key) /\ wf_key key.
Proof.
  induction expr; intros Hk (t & v & p & Hcol); try discriminate Hk; [|apply IHexpr; eauto].
  destruct op; try discriminate Hk. cbn [indexable_equation row_matches_filter] in *.
  apply bind_inv in Hk as (name & Hn & Hk). rewrite Hn.
  destruct (find_column schema name) as [c|] eqn:Hc; [|discriminate Hk].
  apply bind_inv in Hk as (w & Hw & [= <- <-]).
  pose proof Hcol as (Hit & Ht & _). unfold column_type in Ht. rewrite Hc in Ht. rewrite Ht in Hw.
  split; [by apply (equation_at_key _ t v p)|].
  destruct (int_literal expr2 t w Hit Hw) as [->|[z Hz]]; [done|]. exact (proj1 (int_value_key t w z Hz)).
Qed.

Lemma in_list_keys_exact (t : DataType) (v : ColumnValue) (p : Z) (values : list Expr) : int_type t = true ->
  int_value_of t v p -> forall (seen : list (list byte)) (keys : list ColumnValue),
  in_list_keys seen values t = Ok keys -> exists b, any_literal v t values = Ok b /\
    b || bool_decide (encode_key_value v ∈ seen) =
    existsb (fun k => bool_decide (encode_key_value v = encode_key_value k)) keys || bool_decide (encode_key_value v ∈ seen).
Proof.
  intros Ht Hv. induction values as [|e values IH]; intros seen keys Hk; cbn [in_list_keys any_literal] in *.
  - injection Hk as <-. by exists false.
  - apply bind_inv in Hk as (w & Hw & Hk). rewrite Hw. cbn [attempt]. rewrite bind_ok.
    destruct (int_literal e t w Ht Hw) as [->|[z Hz]]; cbn [is_null negb andb] in *; [by apply IH|].
    rewrite (proj2 (int_value_key t w z Hz)) in *. cbn [negb andb] in *.
    pose proof (key_equal_int t v w p z Ht Hv Hz) as Heq.
    rewrite (int_equal v w p z (int_value_width t v w p z Ht Hv Hz) (proj1 Hv) (proj1 Hz)).
    destruct (bool_decide_reflect (encode_key_value w ∈ seen)) as [Hin|Hnin].
    + destruct (IH seen keys Hk) as (b & Hb & Hbk). destruct (Z.eqb_spec p z) as [->|Hne].
      * exists true. split; [done|]. apply bool_decide_eq_true in Heq. rewrite Heq.
        rewrite (bool_decide_eq_true_2 (_ ∈ seen)) by done. by rewrite !orb_true_r.
      * by exists b.
    + apply bind_inv in Hk as (ks & Hks & [= <-]). destruct (IH _ ks Hks) as (b & Hb & Hbk). cbn [existsb].
      destruct (Z.eqb_spec p z) as [->|Hne].
      * exists true. split; [done|]. rewrite Heq. done.
      * exists b. split; [done|]. rewrite Heq. cbn [orb].
        apply bool_decide_eq_false in Heq.
        assert (bool_decide (encode_key_value v ∈ encode_key_value w :: seen) =
                bool_decide (encode_key_value v ∈ seen)) as E; [|by rewrite E in Hbk].
        apply bool_decide_ext. rewrite elem_of_cons. naive_solver.
Qed.

Lemma in_lookup_exact (v : ColumnValue) (p : Z) (t : DataType) :
  int_column row schema (primary_key schema) t v p ->
  forall (expr : Expr) (keys : list ColumnValue), primary_key_in expr schema = Ok (Some keys) ->
  row_matches_filter row schema expr = Ok (existsb (at_key (primary_key schema)) keys).
Proof.
  intros (Ht & Hct & Hrow & Hv). induction expr; intros keys Hk; try discriminate Hk; [|by apply IHexpr].
  cbn [primary_key_in row_matches_filter] in *. destruct negated; [discriminate Hk|].
  apply bind_inv in Hk as (name & Hn & Hk).
  destruct (bool_decide_reflect (name = primary_key schema)) as [->|]; [|discriminate Hk].
  destruct (find_column schema (primary_key schema)) as [c|] eqn:Hc; [|discriminate Hk].
  unfold column_type in Hct. rewrite Hc in Hct. rewrite Hct in Hk.
  destruct (in_list_keys [] values t) as [ks| | |] eqn:Hks; try discriminate Hk. injection Hk as <-.
  destruct (in_list_keys_exact t v p values Ht Hv [] ks Hks) as (b & Hb & Hbk).
  unfold in_list_filter, present. rewrite Hn, Hrow, (proj2 (int_value_key t v p Hv)). unfold column_type. rewrite Hc, Hct, Hb, bind_ok.
  f_equal. cbn in Hbk. rewrite !orb_false_r in Hbk. rewrite Hbk. unfold at_key. by rewrite Hrow.
Qed.
End Chosen.

Section Access.
Context `{ValueTexts, SerdeJson, UnicodeCase, FixedTexts, Clock}.
Context (table_id table_epoch : Z) (index_id : string -> Z) (pk_value : ColumnValue).
Context (row : RowMap) (schema : TableSchema).

(** The row holds an integer under its primary key. *)
Definition int_primary_key (v : ColumnValue) (p : Z) : Prop :=
  int_column row schema (primary_key schema) (pk_data_type schema) v p.

(** The row holds an integer in the column of every index on one column. *)
Definition int_indexes (indexes : list IndexColumns) : Prop :=
  forall name column, (name, [column]) ∈ indexes -> exists t v p, int_column row schema column t v p.

Lemma extracted_range (column : string) (t : DataType) (v : ColumnValue) (p : Z) (f : Expr)
    (lower upper : KeyBound) :
  int_column row schema column t v p -> non_null_literals f t ->
  extract_column_range_filter (Some f) column t = Ok (Some (lower, upper)) ->
  row_matches_filter row schema f = Ok (range_of (lower, upper) p) /\ int_bounds t (lower, upper).
Proof.
  intros Hcol Hnn Hx. unfold extract_column_range_filter in Hx. apply bind_inv in Hx as ([bounds whole] & Hc & Hx).
  destruct whole; [|discriminate Hx]. injection Hx as ->.
  destruct (collected_range row schema column t v p Hcol f (None, None) (lower, upper, true) Hnn) as [Hb Hr]; [by split|exact Hc|].
  cbn [fst snd] in *. destruct (Hr eq_refl) as (b & -> & ->). done.
Qed.

Lemma primary_range (v : ColumnValue) (p : Z) (f : Expr) (lower upper : KeyBound) :
  int_primary_key v p -> non_null_literals f (pk_data_type schema) ->
  extract_primary_key_range_filter (Some f) schema = Ok (Some (lower, upper)) ->
  row_matches_filter row schema f =
    Ok (KeyCodec.in_range (row_range_between table_id table_epoch lower upper None) (row_key table_id table_epoch v)).
Proof.
  intros Hcol Hnn Hx. unfold extract_primary_key_range_filter in Hx. destruct (has_user_primary_key schema); [|discriminate Hx].
  destruct (extracted_range _ _ v p f lower upper Hcol Hnn Hx) as [-> [Hlo Hup]]. f_equal. symmetry.
  destruct Hcol as (Ht & _ & _ & Hv). destruct (int_value_key _ v p Hv) as [Hwf _].
  apply row_range_between_int; [done|exact (proj1 Hv)| |].
  - destruct lower as [[w inc]|]; [|done]. destruct Hlo as [z Hz]. split; [exact (proj1 (int_value_key _ w z Hz))|].
    exact (int_value_width _ w v z p Ht Hz Hv).
  - destruct upper as [[w inc]|]; [|done]. destruct Hup as [z Hz]. split; [exact (proj1 (int_value_key _ w z Hz))|].
    exact (int_value_width _ v w p z Ht Hv Hz).
Qed.

Lemma index_range (indexes : list IndexColumns) (f : Expr) (name column : string)
    (lower upper : KeyBound) :
  int_indexes indexes -> (forall t, int_type t = true -> non_null_literals f t) ->
  extract_indexable_range_filter (Some f) schema indexes = Ok (Some (name, column, lower, upper)) ->
  (name, [column]) ∈ indexes /\ row_matches_filter row schema f = Ok (entry_in_range index_id pk_value row name column lower upper).
Proof.
  intros Hidx Hnn. induction indexes as [|[n cs] indexes IH]; [done|].
  assert (Hidx' : int_indexes indexes) by (intros n' c' Hin; apply (Hidx n' c'); by right).
  assert (Hrest : extract_indexable_range_filter (Some f) schema indexes = Ok (Some (name, column, lower, upper)) ->
    (name, [column]) ∈ (n, cs) :: indexes /\ row_matches_filter row schema f = Ok (entry_in_range index_id pk_value row name column lower upper)).
  { intros Hr. destruct (IH Hidx' Hr) as [Hin Hf]. split; [by right|done]. }
  destruct cs as [|c [|c' cs]]; try exact Hrest. cbn [extract_indexable_range_filter].
  destruct (bool_decide _); [exact Hrest|]. destruct (find_column schema c) as [col|] eqn:Hc; [|exact Hrest].
  intros Hx. apply bind_inv in Hx as ([[lo up]|] & Hr & Hx); [|by apply Hrest].
  injection Hx as -> -> -> ->. split; [by left|].
  destruct (Hidx name column ltac:(by left)) as (t & v & p & Hcol).
  assert (data_type col = t) as Ht. { destruct Hcol as (_ & Ht & _). unfold column_type in Ht. by rewrite Hc in Ht. }
  rewrite Ht in Hr. destruct (extracted_range column t v p f lower upper Hcol (Hnn t (proj1 Hcol)) Hr) as [-> [Hlo Hup]].
  destruct Hcol as (Hit & _ & Hrow & Hv). unfold entry_in_range, row_get. rewrite Hrow. cbn [from_option]. unfold id. f_equal.
  symmetry. by apply (index_value_range_int _ t).
Qed.

Lemma then_residual_same (f : Expr) (b : bool) : row_matches_filter row schema f = Ok b ->
  then_residual row schema b (Some f) = Ok b.
Proof. intros Hf. unfold then_residual, residual. by destruct b. Qed.

(** The index an equation is looked up in. *)
Lemma index_found (f : Expr) (indexes : list IndexColumns) (equation : option (string * ColumnValue))
    (column : string) (key : ColumnValue) (index : string * list string) :
  int_indexes indexes -> extract_indexable_eq_filter (Some f) schema = Ok equation ->
  (c ← equation; i ← List.find (fun i => bool_decide (i.2 = [c.1])) indexes; Some (c, i)) = Some ((column, key), index) ->
  (index.1, [column]) ∈ indexes /\ row_matches_filter row schema f = Ok (at_entry index_id pk_value row index.1 column key).
Proof.
  intros Hidx Heq Hfind. destruct equation as [[c k]|]; [|discriminate Hfind]. cbn [mbind option_bind fst] in Hfind.
  destruct (List.find _ indexes) as [i|] eqn:Hi; [|discriminate Hfind]. injection Hfind as -> -> ->.
  apply find_some in Hi as [Hin Hi]. apply bool_decide_eq_true in Hi. apply list_elem_of_In in Hin.
  destruct index as [n cs]. cbn in Hi. subst cs. split; [done|].
  pose proof (Hidx n column Hin) as Hcol.
  destruct (index_equation_exact row schema column key f Heq Hcol) as [-> Hwf]. f_equal.
  destruct Hcol as (t & v & p & _ & _ & Hrow & Hv). unfold at_entry, at_key, row_get. rewrite Hrow. cbn [from_option]. unfold id.
  symmetry. apply index_lookup_key; [exact (proj1 (int_value_key t v p Hv))|exact Hwf].
Qed.

(** Whatever access the planner of SELECT chooses, a row is read exactly when the WHERE
    clause accepts it: the lookups of one key, of the keys of an IN list, the range of encoded
    keys that replaces the filter altogether, the lookup and the range of an index.  The keys
    are integers and no literal of the filter is NULL. *)
Theorem select_access_exact (f : Expr) (indexes : list IndexColumns) (access : ReadAccess)
    (v : ColumnValue) (p : Z) :
  int_primary_key v p -> int_indexes indexes -> (forall t, int_type t = true -> non_null_literals f t) ->
  select_access (Some f) schema indexes = Ok access ->
  access_selects table_id table_epoch index_id pk_value row schema access = row_matches_filter row schema f.
Proof.
  intros Hpk Hidx Hnn Hx. unfold select_access in Hx.
  apply bind_inv in Hx as ([key|] & Hkey & Hx).
  { injection Hx as <-. unfold extract_primary_key_filter in Hkey. destruct (has_user_primary_key schema); [|discriminate Hkey].
    symmetry. by apply (point_lookup_exact row schema v p). }
  apply bind_inv in Hx as ([keys|] & Hkeys & Hx).
  { injection Hx as <-. symmetry. by apply (in_lookup_exact row schema v p (pk_data_type schema)). }
  apply bind_inv in Hx as ([[lower upper]|] & Hrange & Hx).
  { injection Hx as <-. pose proof Hpk as (Ht & _ & Hrow & _). cbn [access_selects]. rewrite Hrow.
    rewrite (primary_range v p f lower upper Hpk (Hnn _ Ht) Hrange). unfold then_residual, residual.
    by destruct (KeyCodec.in_range _ _). }
  apply bind_inv in Hx as (equation & Heq & Hx).
  destruct (c ← equation; i ← List.find _ indexes; Some (c, i)) as [[[column key] index]|] eqn:Hi.
  { injection Hx as <-. destruct (index_found f indexes equation column key index Hidx Heq Hi) as [_ Hf].
    cbn [access_selects]. rewrite Hf. by apply then_residual_same. }
  apply bind_inv in Hx as ([[[[name column] lower] upper]|] & Hr & Hx); injection Hx as <-; [|done].
  destruct (index_range indexes f name column lower upper Hidx Hnn Hr) as [_ Hf].
  cbn [access_selects]. rewrite Hf. by apply then_residual_same.
Qed.

End Access.

(** * The filter and the evaluator *)

Section Agreement.
Context `{ValueTexts, SerdeJson, UnicodeCase, FixedTexts, Clock}.
Context (row : RowMap) (schema : TableSchema).

(** A name the evaluator takes for a column. *)
Definition plain_name (column : string) : bool :=
  negb (named column "current_timestamp" || named column "now" || named column "excluded").

Definition is_comparison (op : BinaryOperator) : bool :=
  match op with
  | BinOp.Eq | BinOp.NotEq | BinOp.Gt | BinOp.Lt | BinOp.GtEq | BinOp.LtEq => true
  | _ => false
  end.

(** The integers a double tells apart. *)
Definition small (z : Z) : Prop := - 2 ^ 53 < z < 2 ^ 53.

(** Comparisons of an integer or text column with a literal of its kind, NULL tests, and their
    conjunctions and disjunctions. *)
Inductive plain_filter : Expr -> Prop :=
  | plain_integer (column raw : string) (op : BinaryOperator) (t : DataType) (v w : ColumnValue) (z : Z) :
      plain_name column = true -> is_comparison op = true -> row !! column = Some v ->
      column_type schema column = t -> int_type t = true ->
      (v = Null \/ exists p, int_value_of t v p /\ small p) ->
      sql_expr_to_column_value (Literal (SqlNumber raw)) t = Ok w -> int_value_of t w z ->
      parse_i64 (as_bytes raw) = Some z -> small z ->
      plain_filter (BinaryOp (Identifier column) op (Literal (SqlNumber raw)))
  | plain_text (column raw : string) (op : BinaryOperator) (v : ColumnValue) :
      plain_name column = true -> is_comparison op = true -> row !! column = Some v ->
      column_type schema column = DT.Text -> (v = Null \/ exists s, v = Text s) ->
      plain_filter (BinaryOp (Identifier column) op (Literal (SingleQuotedString raw)))
  | plain_null (column : string) (v : ColumnValue) :
      plain_name column = true -> row !! column = Some v -> plain_filter (IsNull (Identifier column))
  | plain_not_null (column : string) (v : ColumnValue) :
      plain_name column = true -> row !! column = Some v -> plain_filter (IsNotNull (Identifier column))
  | plain_and (lhs rhs : Expr) : plain_filter lhs -> plain_filter rhs -> plain_filter (BinaryOp lhs BinOp.And rhs)
  | plain_or (lhs rhs : Expr) : plain_filter lhs -> plain_filter rhs -> plain_filter (BinaryOp lhs BinOp.Or rhs)
  | plain_nested (inner : Expr) : plain_filter inner -> plain_filter (Nested inner).

Lemma plain_identifier (column : string) (v : ColumnValue) : plain_name column = true -> row !! column = Some v ->
  evaluate_row_expression schema row None (Identifier column) = Ok v.
Proof.
  unfold plain_name. rewrite !negb_orb, !andb_true_iff, !negb_true_iff. intros [[Ht Hn] He] Hrow.
  cbn [evaluate_row_expression]. unfold identifier_value, row_column. by rewrite Ht, Hn, He, Hrow.
Qed.

(** A comparison whose sides evaluate. *)
Lemma comparison_bool (lhs rhs : Expr) (op : BinaryOperator) (a b : ColumnValue) : is_comparison op = true ->
  evaluate_row_expression schema row None lhs = Ok a -> evaluate_row_expression schema row None rhs = Ok b ->
  evaluate_row_bool schema row None (BinaryOp lhs op rhs) = Ok (compare_row_values a b op).
Proof.
  intros Hop Ha Hb. unfold evaluate_row_bool. destruct op; try discriminate Hop; cbn [evaluate_row_expression];
    by rewrite Ha, !bind_ok, Hb, !bind_ok.
Qed.

Lemma compare_small (v : ColumnValue) (p z : Z) (op : BinaryOperator) : is_comparison op = true ->
  int_of_key v = Some p -> small p -> small z ->
  compare_row_values v (Int64 z) op = compared op (p =? z) (Some (p ?= z)).
Proof.
  intros Hop Hv Hp Hz.
  assert (compare_values_plain v (Int64 z) op = compared op (p =? z) (Some (p ?= z))) as E.
  { assert (f64_compare (f64_of_Z p) (f64_of_Z z) = Some (p ?= z)) as Hc by (by apply f64_compare_small).
    assert (f64_eqb (f64_of_Z p) (f64_of_Z z) = (p =? z)) as He.
    { rewrite feqb_compare, Hc. destruct (Z.compare_spec p z) as [->|Hlt|Hgt].
      - by rewrite Z.eqb_refl.
      - by rewrite (proj2 (Z.eqb_neq p z)) by lia.
      - by rewrite (proj2 (Z.eqb_neq p z)) by lia. }
    unfold compare_values_plain. destruct v; try discriminate Hv; injection Hv as ->; cbn [is_null orb mysql_value_to_number
      mysql_is_numeric_like]; by rewrite Hc, He. }
  destruct op; try discriminate Hop; exact E.
Qed.

(** C17. On comparisons of an integer column with an integer literal, both below 2^53 in size,
    or of a text column with a text literal, on NULL tests of columns and on AND, OR and
    parentheses of these, the filter of the scans and the evaluator of expressions give the same
    answer and do not fail: a comparison with NULL is false to both, and comparing integers as
    doubles loses nothing below 2^53. *)
Theorem filter_agrees_with_evaluation (f : Expr) : plain_filter f ->
  evaluate_row_bool schema row None f = row_matches_filter row schema f /\ exists b, row_matches_filter row schema f = Ok b.
Proof.
  induction 1 as [column raw op t v w z Hn Hop Hrow Hct Ht Hv Hw Hz Hraw Hsz|column raw op v Hn Hop Hrow Hct Hv
    |column v Hn Hrow|column v Hn Hrow|lhs rhs _ [Hl [bl Hbl]] _ [Hr [br Hbr]]|lhs rhs _ [Hl [bl Hbl]] _ [Hr [br Hbr]]|inner _ IH].
  - rewrite (comparison_bool _ _ op v (Int64 z) Hop (plain_identifier column v Hn Hrow)) by (cbn; by rewrite Hraw).
    assert (row_matches_filter row schema (BinaryOp (Identifier column) op (Literal (SqlNumber raw))) =
            Ok (compare_values v w op)) as ->.
    { destruct op; try discriminate Hop; cbn [row_matches_filter expr_identifier_name]; unfold column_filter, with_literal;
        by rewrite Hrow, Hct, Hw. }
    split; [|by eexists]. f_equal. destruct Hv as [->|(p & Hp & Hsp)]; [by destruct op|].
    rewrite (compare_values_int t v w p z op Ht Hp Hz). by rewrite (compare_small v p z op Hop (proj1 Hp) Hsp Hsz).
  - rewrite (comparison_bool _ _ op v (Text raw) Hop (plain_identifier column v Hn Hrow)) by done.
    assert (row_matches_filter row schema (BinaryOp (Identifier column) op (Literal (SingleQuotedString raw))) =
            Ok (compare_values v (Text raw) op)) as ->.
    { destruct op; try discriminate Hop; cbn [row_matches_filter expr_identifier_name]; unfold column_filter, with_literal;
        by rewrite Hrow, Hct. }
    split; [|by eexists]. f_equal. destruct Hv as [->|[s ->]]; by destruct op.
  - unfold evaluate_row_bool. cbn [evaluate_row_expression row_matches_filter expr_identifier_name].
    pose proof (plain_identifier column v Hn Hrow) as E. cbn [evaluate_row_expression] in E. rewrite E, Hrow. by eauto.
  - unfold evaluate_row_bool. cbn [evaluate_row_expression row_matches_filter expr_identifier_name].
    pose proof (plain_identifier column v Hn Hrow) as E. cbn [evaluate_row_expression] in E. rewrite E, Hrow. by eauto.
  - unfold evaluate_row_bool in *. cbn [evaluate_row_expression row_matches_filter]. rewrite Hl, Hr, Hbl, Hbr, !bind_ok.
    destruct bl; by eauto.
  - unfold evaluate_row_bool in *. cbn [evaluate_row_expression row_matches_filter]. rewrite Hl, Hr, Hbl, Hbr, !bind_ok.
    destruct bl; by eauto.
  - exact IH.
Qed.
End Agreement.

(** * Examples *)

#[local] Existing Instance bits_texts.
#[local] Existing Instance coded_json.
#[local] Instance ascii_case : UnicodeCase :=
  {| to_lowercase := map ascii_lower_byte; to_uppercase := fun text => text |}.
#[local] Instance no_fixed_texts : FixedTexts := fun _ _ => "".
#[local] Instance epoch_clock : Clock := 0.

Definition plain_column (id : Z) (name : string) (t : DataType) (key : bool) : ColumnSchema :=
  {| column_id := id; col_name := name; data_type := t; primary_key_col := key; nullable := negb key; col_default := None;
     on_update := None; character_set := None; collation := None |}.

(** A table of stock: its primary key, an indexed quantity and a label. *)
Definition stock : TableSchema :=
  {| table_name := "stock"; Types.table_id := 7; schema_version := 1; Types.table_epoch := 1; primary_key := "id";
     check_constraints := []; unique_constraints := []; foreign_keys := [];
     columns := [plain_column 1 "id" DT.Int32 true; plain_column 2 "qty" DT.Int64 false; plain_column 3 "label" DT.Text false] |}.

Definition stock_row (id qty : Z) (label : ColumnValue) : RowMap :=
  <["id" := Int32 id]> (<["qty" := Int64 qty]> (<["label" := label]> ∅)).

Definition stock_indexes : list IndexColumns := [("stock_qty", ["qty"])].

Definition col (name : string) : Expr := Identifier name.
Definition num (raw : string) : Expr := Literal (SqlNumber raw).
Definition str (raw : string) : Expr := Literal (SingleQuotedString raw).

Lemma stock_primary_key (id qty : Z) (label : ColumnValue) : in_signed 32 id ->
  int_primary_key (stock_row id qty label) stock (Int32 id) id.
Proof. intros Hid. split; [done|]. split; [done|]. by split. Qed.

Lemma stock_int_indexes (id qty : Z) (label : ColumnValue) : in_signed 64 qty ->
  int_indexes (stock_row id qty label) stock stock_indexes.
Proof.
  intros Hq name column Hin. apply list_elem_of_singleton in Hin as [= -> ->]. exists DT.Int64, (Int64 qty), qty.
  split; [done|]. split; [done|]. by split.
Qed.

(** [qty >= 10 AND qty < 50 AND qty <= 40]. *)
Definition quantities : Expr :=
  BinaryOp (BinaryOp (BinaryOp (col "qty") BinOp.GtEq (num "10")) BinOp.And (BinaryOp (col "qty") BinOp.Lt (num "50")))
           BinOp.And (BinaryOp (col "qty") BinOp.LtEq (num "40")).

(** The literals of a filter, none of them NULL at any integer type. *)
Ltac no_null_literal :=
  let t := fresh "t" in let Ht := fresh "Ht" in
  intros t Ht; destruct t; try discriminate Ht; 
  repeat match goal with k : MySqlIntKind |- _ => destruct k | b : bool |- _ => destruct b end; try discriminate Ht;
  vm_compute; repeat split; discriminate.

Lemma select_access_exact_witness :
  select_access (Some quantities) stock stock_indexes =
    Ok (SecondaryIndexRangeScan "stock_qty" "qty" (Some (Int64 10, true)) (Some (Int64 40, true)) (Some quantities)) /\
  access_selects 7 1 (fun _ => 3) (Int32 5) (stock_row 5 12 Null) stock
    (SecondaryIndexRangeScan "stock_qty" "qty" (Some (Int64 10, true)) (Some (Int64 40, true)) (Some quantities)) =
  row_matches_filter (stock_row 5 12 Null) stock quantities.
Proof.
  split; [vm_compute; reflexivity|].
  apply (select_access_exact 7 1 (fun _ => 3) (Int32 5) (stock_row 5 12 Null) stock quantities stock_indexes _ (Int32 5) 5).
  - apply stock_primary_key. vm_compute. split; congruence.
  - apply stock_int_indexes. vm_compute. split; congruence.
  - no_null_literal.
  - vm_compute. reflexivity.
Defined.

(** [id BETWEEN 2 AND 9]. *)
Definition keys_between : Expr := Between (col "id") false (num "2") (num "9").

(** [qty <> 12 OR (label = 'x' AND id IS NOT NULL)]. *)
Definition labelled : Expr :=
  BinaryOp (BinaryOp (col "qty") BinOp.NotEq (num "12")) BinOp.Or
    (Nested (BinaryOp (BinaryOp (col "label") BinOp.Eq (str "x")) BinOp.And (IsNotNull (col "id")))).

Lemma filter_agrees_with_evaluation_witness :
  evaluate_row_bool stock (stock_row 5 12 (Text "x")) None labelled =
    row_matches_filter (stock_row 5 12 (Text "x")) stock labelled /\
  exists b, row_matches_filter (stock_row 5 12 (Text "x")) stock labelled = Ok b.
Proof.
  apply (filter_agrees_with_evaluation (stock_row 5 12 (Text "x")) stock labelled).
  apply plain_or.
  - apply (plain_integer _ _ "qty" "12" BinOp.NotEq DT.Int64 (Int64 12) (Int64 12) 12); try reflexivity; try done.
    right. exists 12. done.
  - apply plain_nested, plain_and.
    + apply (plain_text _ _ "label" "x" BinOp.Eq (Text "x")); try reflexivity. right. by exists "x".
    + by apply (plain_not_null _ _ "id" (Int32 5)).
Defined.

(** Filters the fast path of SELECT, UPDATE and DELETE accepts but the scans never evaluate:
    RLIKE, REGEXP, the null-safe equality and a function as the whole condition select nothing. *)
Example rlike_selects_nothing :
  let f := RLike false (col "label") (str "abc") in
  let row := stock_row 1 2 (Text "abc") in
  supports_fast_path_filter f = true /\ row_matches_filter row stock f = Ok false /\
  evaluate_row_bool stock row None f = Ok true.
Proof. by vm_compute. Qed.

Example regexp_selects_nothing :
  let f := BinaryOp (col "label") BinOp.Regexp (str "abc") in
  let row := stock_row 1 2 (Text "abc") in
  supports_fast_path_filter f = true /\ row_matches_filter row stock f = Ok false /\
  evaluate_row_bool stock row None f = Ok true.
Proof. by vm_compute. Qed.

Example spaceship_selects_nothing :
  let f := BinaryOp (col "qty") BinOp.Spaceship (num "2") in
  let row := stock_row 1 2 Null in
  supports_fast_path_filter f = true /\ row_matches_filter row stock f = Ok false /\
  evaluate_row_bool stock row None f = Ok true.
Proof. by vm_compute. Qed.

(** NOT LIKE is true of NULL. *)
Example not_like_null :
  row_matches_filter (stock_row 1 2 Null) stock (Like true (col "label") (str "a%") None) = Ok true.
Proof. by vm_compute. Qed.

(** The evaluator compares integers as doubles, the filter of the scans does not. *)
Example big_integers_differ :
  let f := BinaryOp (col "qty") BinOp.Eq (num "9007199254740993") in
  let row := stock_row 1 9007199254740992 Null in
  row_matches_filter row stock f = Ok false /\ evaluate_row_bool stock row None f = Ok true.
Proof. by vm_compute. Qed.

(** A NULL bound does not narrow the range of keys, and SELECT drops the filter with it. *)
Example null_bound_dropped :
  let f := BinaryOp (BinaryOp (col "id") BinOp.Gt (num "5")) BinOp.And (BinaryOp (col "id") BinOp.Gt (Literal SqlNull)) in
  let row := stock_row 7 2 Null in
  select_access (Some f) stock [] = Ok (PrimaryKeyRangeScan (Some (Int32 5, false)) None None) /\
  access_selects 7 1 (fun _ => 0) (Int32 7) row stock (PrimaryKeyRangeScan (Some (Int32 5, false)) None None) = Ok true /\
  row_matches_filter row stock f = Ok false.
Proof. by vm_compute. Qed.

(** The evaluator's IN compares a 32-bit column with a 64-bit literal as different variants. *)
Example in_list_width :
  let f := InList (col "id") [num "5"] false in
  let row := stock_row 5 2 Null in
  row_matches_filter row stock f = Ok true /\ evaluate_row_bool stock row None f = Ok false.
Proof. by vm_compute. Qed.
