(* ===== verification/Catalog.v ===== *)
(** * Catalog records and their keys

    src/src/catalog/types.rs and codec.rs: what the catalog keeps of a database, a
    schema, a table, an index and a view, the JSON documents it is stored as, and the
    keys the documents and the name entries live under.  The crate [serde_json] is the
    class [SerdeJson] of [Json]. *)

From stdpp Require Import pretty.
From S2P Require Import Prelude BTree Types Text DataTypes LegacyCodec Json.

(** ** Records *)

Definition DEFAULT_DATABASE_NAME : string := "defaultdb".
Definition DEFAULT_SCHEMA_NAME : string := "public".

Record DatabaseCatalog : Type := { db_id : Z; db_name : string }.

Record SchemaCatalog : Type := { sc_id : Z; sc_database_id : Z; sc_name : string }.

Record TableCatalog : Type := {
  tc_database_id : Z;
  tc_schema_id : Z;
  tc_schema_name : string;
  tc_table_name : string;
  tc_schema : TableSchema;
}.

Record IndexCatalog : Type := {
  ix_id : Z;
  ix_database_id : Z;
  ix_schema_id : Z;
  ix_table_id : Z;
  ix_schema_name : string;
  ix_table_name : string;
  ix_name : string;
  ix_column_name : string;
  ix_column_names : list string;
  ix_unique : bool;
}.

Record ViewCatalog : Type := {
  vw_id : Z;
  vw_database_id : Z;
  vw_schema_id : Z;
  vw_schema_name : string;
  vw_name : string;
  vw_definition : string;
}.

(** ** Keys *)

Definition NEXT_DATABASE_ID_KEY : key := as_bytes "__catalog__/next_database_id".
Definition NEXT_SCHEMA_ID_KEY : key := as_bytes "__catalog__/next_schema_id".
Definition NEXT_TABLE_ID_KEY : key := as_bytes "__catalog__/next_table_id".
Definition NEXT_INDEX_ID_KEY : key := as_bytes "__catalog__/next_index_id".
Definition NEXT_VIEW_ID_KEY : key := as_bytes "__catalog__/next_view_id".
Definition COMPAT_MODE_KEY : key := as_bytes "__catalog__/compat_mode".

Definition database_by_name_key (database_name : string) : key :=
  as_bytes "__catalog__/databases/by-name/" ++ as_bytes database_name.
Definition database_by_id_key (database_id : Z) : key :=
  as_bytes "__catalog__/databases/by-id/" ++ as_bytes (pretty database_id).
Definition schema_by_name_key (database_id : Z) (schema_name : string) : key :=
  as_bytes "__catalog__/schemas/by-name/" ++ as_bytes (pretty database_id) ++ x2f :: as_bytes schema_name.
Definition schema_by_id_key (schema_id : Z) : key :=
  as_bytes "__catalog__/schemas/by-id/" ++ as_bytes (pretty schema_id).

(** [{database_id}/{schema_id}/{name}]. *)
Definition scoped_name (database_id schema_id : Z) (name : string) : list byte :=
  as_bytes (pretty database_id) ++ x2f :: as_bytes (pretty schema_id) ++ x2f :: as_bytes name.

Definition table_by_name_key (database_id schema_id : Z) (table_name : string) : key :=
  as_bytes "__catalog__/tables/by-name/" ++ scoped_name database_id schema_id table_name.
Definition table_by_id_key (table_id : Z) : key :=
  as_bytes "__catalog__/tables/by-id/" ++ as_bytes (pretty table_id).
Definition index_by_name_key (database_id schema_id : Z) (index_name : string) : key :=
  as_bytes "__catalog__/indexes/by-name/" ++ scoped_name database_id schema_id index_name.
Definition index_by_id_key (index_id : Z) : key :=
  as_bytes "__catalog__/indexes/by-id/" ++ as_bytes (pretty index_id).
Definition index_by_table_prefix (table_id : Z) : key :=
  as_bytes "__catalog__/indexes/by-table/" ++ as_bytes (pretty table_id) ++ [x2f].
Definition index_by_table_key (table_id index_id : Z) : key :=
  index_by_table_prefix table_id ++ as_bytes (pretty index_id).
Definition view_by_name_key (database_id schema_id : Z) (view_name : string) : key :=
  as_bytes "__catalog__/views/by-name/" ++ scoped_name database_id schema_id view_name.
Definition view_by_id_key (view_id : Z) : key :=
  as_bytes "__catalog__/views/by-id/" ++ as_bytes (pretty view_id).

(** [resolve_table_reference]: the text is split at every dot. *)
Definition resolve_table_reference (name : string) : PgWireResult (string * string) :=
  match map of_bytes (split_on x2e (as_bytes name)) with
  | [table] => Ok (DEFAULT_SCHEMA_NAME, table)
  | [schema; table] => Ok (schema, table)
  | _ => user_error "0A000" "only table or schema.table references are supported"
  end.

(** ** Documents *)

Section Documents.
Context `{SerdeJson}.

Definition encode_value (what : string) (v : Value) : PgWireResult (list byte) :=
  map_err (fun e => PgError "XX000" (what +:+ " encode error: " +:+ e)) (to_vec v).
Definition decode_value (what : string) (bytes : list byte) : PgWireResult Value :=
  map_err (fun e => PgError "XX000" (what +:+ " decode error: " +:+ e)) (from_slice bytes).

(** [value.get(name).and_then(Value::as_u64).ok_or_else(...)? as u32] and its like. *)
Definition malformed {A} (what : string) (o : option A) : PgWireResult A :=
  ok_or (PgError "XX000" (what +:+ " malformed")) o.
Definition u32_field (v : Value) (name : string) : PgWireResult Z :=
  z ← malformed ("catalog " +:+ name +:+ " is") (get name v ≫= as_u64); Ok (z mod 2 ^ 32).
Definition str_field (v : Value) (name : string) : PgWireResult string :=
  malformed ("catalog " +:+ name +:+ " is") (get name v ≫= as_str).
Definition u32_or (v : Value) (name : string) (d : Z) : Z :=
  match get name v ≫= as_u64 with Some z => z | None => d end mod 2 ^ 32.
Definition bool_or (v : Value) (name : string) (d : bool) : bool := default d (get name v ≫= as_bool).
Definition str_or (v : Value) (name d : string) : string := default d (get name v ≫= as_str).

(** *** Databases, schemas and views *)

Definition database_value (d : DatabaseCatalog) : Value :=
  json [("database_id", JNumber (db_id d)); ("database_name", JString (db_name d))]%string.
Definition encode_database_catalog (d : DatabaseCatalog) : PgWireResult (list byte) :=
  encode_value "database" (database_value d).
Definition decode_database_catalog (bytes : list byte) : PgWireResult DatabaseCatalog :=
  v ← decode_value "database" bytes;
  id ← u32_field v "database_id";
  name ← str_field v "database_name";
  Ok {| db_id := id; db_name := name |}.

Definition schema_value (s : SchemaCatalog) : Value :=
  json [("schema_id", JNumber (sc_id s)); ("database_id", JNumber (sc_database_id s));
        ("schema_name", JString (sc_name s))]%string.
Definition encode_schema_catalog (s : SchemaCatalog) : PgWireResult (list byte) :=
  encode_value "schema" (schema_value s).
Definition decode_schema_catalog (bytes : list byte) : PgWireResult SchemaCatalog :=
  v ← decode_value "schema" bytes;
  id ← u32_field v "schema_id";
  database_id ← u32_field v "database_id";
  name ← str_field v "schema_name";
  Ok {| sc_id := id; sc_database_id := database_id; sc_name := name |}.

Definition view_value (w : ViewCatalog) : Value :=
  json [("view_id", JNumber (vw_id w)); ("database_id", JNumber (vw_database_id w));
        ("schema_id", JNumber (vw_schema_id w)); ("schema_name", JString (vw_schema_name w));
        ("view_name", JString (vw_name w)); ("definition", JString (vw_definition w))]%string.
Definition encode_view_catalog (w : ViewCatalog) : PgWireResult (list byte) :=
  encode_value "view" (view_value w).
Definition decode_view_catalog (bytes : list byte) : PgWireResult ViewCatalog :=
  v ← decode_value "view" bytes;
  id ← u32_field v "view_id";
  database_id ← u32_field v "database_id";
  schema_id ← u32_field v "schema_id";
  schema_name ← str_field v "schema_name";
  name ← str_field v "view_name";
  definition ← malformed "catalog view definition is" (get "definition" v ≫= as_str);
  Ok {| vw_id := id; vw_database_id := database_id; vw_schema_id := schema_id;
        vw_schema_name := schema_name; vw_name := name; vw_definition := definition |}.

(** *** Indexes *)

Definition index_value (i : IndexCatalog) : Value :=
  json [("index_id", JNumber (ix_id i)); ("database_id", JNumber (ix_database_id i));
        ("schema_id", JNumber (ix_schema_id i)); ("table_id", JNumber (ix_table_id i));
        ("schema_name", JString (ix_schema_name i)); ("table_name", JString (ix_table_name i));
        ("index_name", JString (ix_name i)); ("column_name", JString (ix_column_name i));
        ("column_names", json_strings (ix_column_names i)); ("unique", JBool (ix_unique i))]%string.
Definition encode_index_catalog (i : IndexCatalog) : PgWireResult (list byte) :=
  encode_value "index" (index_value i).

(** A list of strings; [what] is malformed when an item is no string. *)
Definition string_items (what : string) (items : list Value) : PgWireResult (list string) :=
  map_m (fun item => malformed what (as_str item)) items.

Definition decode_index_catalog (bytes : list byte) : PgWireResult IndexCatalog :=
  v ← decode_value "index" bytes;
  id ← u32_field v "index_id";
  database_id ← u32_field v "database_id";
  schema_id ← u32_field v "schema_id";
  table_id ← u32_field v "table_id";
  schema_name ← str_field v "schema_name";
  table_name ← str_field v "table_name";
  index_name ← str_field v "index_name";
  column_name ← str_field v "column_name";
  column_names ← (match get "column_names" v ≫= as_array with
                  | Some items => string_items "catalog column_names is" items
                  | None =>
                      Ok (match get "column_name" v ≫= as_str with Some name => [name] | None => [] end)
                  end);
  Ok {| ix_id := id; ix_database_id := database_id; ix_schema_id := schema_id; ix_table_id := table_id;
        ix_schema_name := schema_name; ix_table_name := table_name; ix_name := index_name;
        ix_column_name := column_name; ix_column_names := column_names;
        ix_unique := bool_or v "unique" false |}.

(** *** Tables *)

Definition column_value (c : ColumnSchema) : Value :=
  json [("column_id", JNumber (column_id c)); ("name", JString (col_name c));
        ("data_type", JString (to_str (data_type c))); ("primary_key", JBool (primary_key_col c));
        ("nullable", JBool (nullable c)); ("default", json_option (col_default c));
        ("on_update", json_option (on_update c)); ("character_set", json_option (character_set c));
        ("collation", json_option (collation c))]%string.
Definition check_value (c : CheckConstraintSchema) : Value :=
  json [("name", JString (check_name c)); ("expr", JString (check_expr c))]%string.
Definition unique_value (c : UniqueConstraintSchema) : Value :=
  json [("name", JString (uniq_name c)); ("columns", json_strings (uniq_columns c));
        ("primary_key", JBool (uniq_primary_key c))]%string.
Definition foreign_key_value (c : ForeignKeyConstraintSchema) : Value :=
  json [("name", JString (fk_name c)); ("columns", json_strings (fk_columns c));
        ("foreign_table", JString (foreign_table c));
        ("referred_columns", json_strings (referred_columns c))]%string.

(** The fields both documents of a table have. *)
Definition table_fields (s : TableSchema) : list (string * Value) :=
  [("table_id", JNumber (table_id s)); ("schema_version", JNumber (schema_version s));
   ("table_epoch", JNumber (table_epoch s)); ("primary_key", JString (primary_key s));
   ("check_constraints", JArray (map check_value (check_constraints s)));
   ("unique_constraints", JArray (map unique_value (unique_constraints s)));
   ("foreign_keys", JArray (map foreign_key_value (foreign_keys s)));
   ("columns", JArray (map column_value (columns s)))]%string.

Definition table_value (t : TableCatalog) : Value :=
  json ([("database_id", JNumber (tc_database_id t)); ("schema_id", JNumber (tc_schema_id t));
         ("schema_name", JString (tc_schema_name t)); ("table_name", JString (tc_table_name t))]%string ++
        table_fields (tc_schema t)).
Definition encode_table_catalog (t : TableCatalog) : PgWireResult (list byte) :=
  encode_value "table" (table_value t).

Definition legacy_table_value (s : TableSchema) : Value :=
  json (("table_name"%string, JString (table_name s)) :: table_fields s).
Definition encode_legacy_table_schema (s : TableSchema) : PgWireResult (list byte) :=
  encode_value "schema" (legacy_table_value s).

(** [parse_column_schema] of schema.rs. *)
Definition parse_column_schema (v : Value) : PgWireResult ColumnSchema :=
  name ← malformed "schema column name is" (get "name" v ≫= as_str);
  Ok {| column_id := u32_or v "column_id" 0; col_name := name;
        data_type := from_sql (str_or v "data_type" "TEXT");
        primary_key_col := bool_or v "primary_key" false; nullable := bool_or v "nullable" true;
        col_default := get "default" v ≫= as_str; on_update := get "on_update" v ≫= as_str;
        character_set := get "character_set" v ≫= as_str; collation := get "collation" v ≫= as_str |}.

Definition parse_string_array (v : option Value) (field : string) : PgWireResult (list string) :=
  match v with
  | None => Ok []
  | Some v =>
      items ← malformed ("catalog " +:+ field +:+ " is") (as_array v);
      string_items ("catalog " +:+ field +:+ " is") items
  end.

(** The items of an array field, read one by one; no array reads as no items. *)
Definition parse_items {A} (v : Value) (field : string) (parse : Value -> PgWireResult A) : PgWireResult (list A) :=
  match get field v ≫= as_array with
  | None => Ok []
  | Some items => map_m parse items
  end.

Definition parse_check_constraints (v : Value) : PgWireResult (list CheckConstraintSchema) :=
  parse_items v "check_constraints" (fun item =>
    expr ← malformed "catalog check constraint is" (get "expr" item ≫= as_str);
    Ok {| check_name := str_or item "name" ""; check_expr := expr |}).

Definition parse_unique_constraints (v : Value) : PgWireResult (list UniqueConstraintSchema) :=
  parse_items v "unique_constraints" (fun item =>
    columns ← parse_string_array (get "columns" item) "unique constraint columns";
    Ok {| uniq_name := str_or item "name" ""; uniq_columns := columns;
          uniq_primary_key := bool_or item "primary_key" false |}).

Definition parse_foreign_keys (v : Value) : PgWireResult (list ForeignKeyConstraintSchema) :=
  parse_items v "foreign_keys" (fun item =>
    columns ← parse_string_array (get "columns" item) "foreign key columns";
    foreign ← malformed "catalog foreign key is" (get "foreign_table" item ≫= as_str);
    referred ← parse_string_array (get "referred_columns" item) "foreign key referred columns";
    Ok {| fk_name := str_or item "name" ""; fk_columns := columns; foreign_table := foreign;
          referred_columns := referred |}).

Definition decode_table_catalog (bytes : list byte) : PgWireResult TableCatalog :=
  v ← decode_value "table" bytes;
  name ← str_field v "table_name";
  table_id ← u32_field v "table_id";
  primary_key ← str_field v "primary_key";
  items ← malformed "catalog columns are" (get "columns" v ≫= as_array);
  columns ← map_m parse_column_schema items;
  check_constraints ← parse_check_constraints v;
  unique_constraints ← parse_unique_constraints v;
  foreign_keys ← parse_foreign_keys v;
  Ok {| tc_database_id := u32_or v "database_id" 1; tc_schema_id := u32_or v "schema_id" 1;
        tc_schema_name := str_or v "schema_name" DEFAULT_SCHEMA_NAME; tc_table_name := name;
        tc_schema := normalize_descriptor
          {| table_name := name; table_id := table_id; schema_version := u32_or v "schema_version" 1;
             table_epoch := default 1 (get "table_epoch" v ≫= as_u64); primary_key := primary_key;
             check_constraints := check_constraints; unique_constraints := unique_constraints;
             foreign_keys := foreign_keys; columns := columns |} |}.

Definition decode_table_schema (_table_name : string) (bytes : list byte) : PgWireResult TableSchema :=
  catalog ← decode_table_catalog bytes; Ok (tc_schema catalog).
End Documents.

(** ** Documents are read back *)

(** A field of a [json!] object whose names are constants. *)
Ltac json_field := rewrite ?get_json; vm_compute; reflexivity.

Lemma in_unsigned_mod w z : in_unsigned w z -> z mod 2 ^ w = z.
Proof. unfold in_unsigned. apply Z.mod_small. Qed.

Section Fields.
Context (v : Value) (name : string).

Lemma u64_value z w : 0 <= w -> in_unsigned w z -> as_u64 (JNumber z) = Some z.
Proof. unfold in_unsigned. intros _ Hz. cbn. by rewrite (proj2 (Z.leb_le 0 z)) by lia. Qed.

Lemma u32_field_ok z : get name v = Some (JNumber z) -> in_unsigned 32 z -> u32_field v name = Ok z.
Proof.
  intros Hg Hz. unfold u32_field. rewrite Hg. cbn [mbind option_bind]. rewrite (u64_value z 32) by done.
  cbn. by rewrite in_unsigned_mod.
Qed.
Lemma u32_or_ok z d : get name v = Some (JNumber z) -> in_unsigned 32 z -> u32_or v name d = z.
Proof.
  intros Hg Hz. unfold u32_or. rewrite Hg. cbn [mbind option_bind]. rewrite (u64_value z 32) by done.
  by rewrite in_unsigned_mod.
Qed.
Lemma str_field_ok s : get name v = Some (JString s) -> str_field v name = Ok s.
Proof. intros Hg. unfold str_field. by rewrite Hg. Qed.
Lemma str_or_ok s d : get name v = Some (JString s) -> str_or v name d = s.
Proof. intros Hg. unfold str_or. by rewrite Hg. Qed.
Lemma bool_or_ok b d : get name v = Some (JBool b) -> bool_or v name d = b.
Proof. intros Hg. unfold bool_or. by rewrite Hg. Qed.
End Fields.

Lemma string_items_ok what l : string_items what (map JString l) = Ok l.
Proof.
  unfold string_items. induction l as [|s l IH]; [done|]. cbn [map map_m]. rewrite IH. done.
Qed.
Lemma parse_string_array_ok field l : parse_string_array (Some (json_strings l)) field = Ok l.
Proof. unfold parse_string_array, json_strings. cbn [malformed as_array ok_or]. apply string_items_ok. Qed.

(** The items of an array of documents, when each is read back. *)
Lemma parse_items_ok {A B} (v : Value) field (write : A -> Value) (parse : Value -> PgWireResult B) (g : A -> B) l :
  get field v = Some (JArray (map write l)) -> (forall a, a ∈ l -> parse (write a) = Ok (g a)) ->
  parse_items v field parse = Ok (map g l).
Proof.
  intros Hg Hp. unfold parse_items. rewrite Hg. cbn [mbind option_bind as_array].
  rewrite <- (map_map write (fun v => v)), map_id. clear Hg. induction l as [|a l IH]; [done|]. cbn [map map_m].
  rewrite Hp by constructor. cbn. rewrite IH; [done|]. intros b Hb. apply Hp. by constructor.
Qed.

Lemma number_canonical w z : in_unsigned w z -> 0 <= w <= 64 -> canonical (JNumber z) = true.
Proof.
  unfold in_unsigned. intros Hz Hw. cbn [canonical]. assert (2 ^ w <= 2 ^ 64) by (apply Z.pow_le_mono_r; lia). lia.
Qed.

Ltac read_u32 name z := rewrite (u32_field_ok _ name%string z); [|json_field|assumption]; cbn [mbind result_bind].
Ltac read_str name s := rewrite (str_field_ok _ name%string s); [|json_field]; cbn [mbind result_bind].

Section RoundTrips.
Context `{SerdeJsonLaws}.

(** What is written is read back as the value it was. *)
Lemma encode_value_ok what v : canonical v = true ->
  exists bytes, encode_value what v = Ok bytes /\ forall what', decode_value what' bytes = Ok v.
Proof.
  intros Hc. destruct (law_json v Hc) as (bytes & Hto & Hfrom). exists bytes. unfold encode_value, decode_value.
  by rewrite Hto, Hfrom.
Qed.

Definition wf_database (d : DatabaseCatalog) : Prop := in_unsigned 32 (db_id d).
Definition wf_schema_catalog (s : SchemaCatalog) : Prop :=
  in_unsigned 32 (sc_id s) /\ in_unsigned 32 (sc_database_id s).
Definition wf_view (w : ViewCatalog) : Prop :=
  in_unsigned 32 (vw_id w) /\ in_unsigned 32 (vw_database_id w) /\ in_unsigned 32 (vw_schema_id w).
Definition wf_index (i : IndexCatalog) : Prop :=
  in_unsigned 32 (ix_id i) /\ in_unsigned 32 (ix_database_id i) /\ in_unsigned 32 (ix_schema_id i) /\
  in_unsigned 32 (ix_table_id i).

Ltac canonical_fields :=
  apply json_canonical; cbn [forallb snd];
  rewrite ?(number_canonical 32), ?(number_canonical 64), ?json_option_canonical, ?json_strings_canonical
    by first [assumption|lia]; cbn [canonical andb]; try reflexivity.

Lemma database_roundtrip d : wf_database d ->
  exists bytes, encode_database_catalog d = Ok bytes /\ decode_database_catalog bytes = Ok d.
Proof.
  intros Hd. destruct (encode_value_ok "database" (database_value d)) as (bytes & He & Hdec); [canonical_fields|].
  exists bytes. split; [exact He|]. unfold decode_database_catalog. rewrite Hdec. cbn [mbind result_bind].
  read_u32 "database_id" (db_id d).
  read_str "database_name" (db_name d). by destruct d.
Qed.

Lemma schema_roundtrip s : wf_schema_catalog s ->
  exists bytes, encode_schema_catalog s = Ok bytes /\ decode_schema_catalog bytes = Ok s.
Proof.
  intros [Hi Hd]. destruct (encode_value_ok "schema" (schema_value s)) as (bytes & He & Hdec); [canonical_fields|].
  exists bytes. split; [exact He|]. unfold decode_schema_catalog. rewrite Hdec. cbn [mbind result_bind].
  read_u32 "schema_id" (sc_id s).
  read_u32 "database_id" (sc_database_id s).
  read_str "schema_name" (sc_name s). by destruct s.
Qed.

Lemma view_roundtrip w : wf_view w ->
  exists bytes, encode_view_catalog w = Ok bytes /\ decode_view_catalog bytes = Ok w.
Proof.
  intros (Hi & Hd & Hs). destruct (encode_value_ok "view" (view_value w)) as (bytes & He & Hdec); [canonical_fields|].
  exists bytes. split; [exact He|]. unfold decode_view_catalog. rewrite Hdec. cbn [mbind result_bind].
  read_u32 "view_id" (vw_id w).
  read_u32 "database_id" (vw_database_id w).
  read_u32 "schema_id" (vw_schema_id w).
  read_str "schema_name" (vw_schema_name w).
  read_str "view_name" (vw_name w).
  assert (get "definition" (view_value w) = Some (JString (vw_definition w))) as -> by json_field. by destruct w.
Qed.

Lemma index_roundtrip i : wf_index i ->
  exists bytes, encode_index_catalog i = Ok bytes /\ decode_index_catalog bytes = Ok i.
Proof.
  intros (Hi & Hd & Hs & Ht). destruct (encode_value_ok "index" (index_value i)) as (bytes & He & Hdec); [canonical_fields|].
  exists bytes. split; [exact He|]. unfold decode_index_catalog. rewrite Hdec. cbn [mbind result_bind].
  read_u32 "index_id" (ix_id i).
  read_u32 "database_id" (ix_database_id i).
  read_u32 "schema_id" (ix_schema_id i).
  read_u32 "table_id" (ix_table_id i).
  read_str "schema_name" (ix_schema_name i).
  read_str "table_name" (ix_table_name i).
  read_str "index_name" (ix_name i).
  read_str "column_name" (ix_column_name i).
  assert (get "column_names" (index_value i) = Some (json_strings (ix_column_names i))) as -> by json_field.
  cbn [mbind option_bind as_array json_strings]. rewrite string_items_ok. cbn [mbind result_bind].
  rewrite (bool_or_ok _ _ (ix_unique i)) by json_field. by destruct i.
Qed.

(** *** Tables *)

(** A column, a schema and a table as they come back from the catalog. *)
Definition stored_column (c : ColumnSchema) : ColumnSchema :=
  {| column_id := column_id c; col_name := col_name c; data_type := stored_type false (data_type c);
     primary_key_col := primary_key_col c; nullable := nullable c; col_default := col_default c;
     on_update := on_update c; character_set := character_set c; collation := collation c |}.
Definition renamed (name : string) (s : TableSchema) : TableSchema :=
  {| table_name := name; table_id := table_id s; schema_version := schema_version s;
     table_epoch := table_epoch s; primary_key := primary_key s;
     check_constraints := check_constraints s; unique_constraints := unique_constraints s;
     foreign_keys := foreign_keys s; columns := columns s |}.
Definition stored_schema (s : TableSchema) : TableSchema :=
  normalize_descriptor (set_columns s (map stored_column (columns s))).
Definition stored_table (t : TableCatalog) : TableCatalog :=
  {| tc_database_id := tc_database_id t; tc_schema_id := tc_schema_id t; tc_schema_name := tc_schema_name t;
     tc_table_name := tc_table_name t; tc_schema := stored_schema (renamed (tc_table_name t) (tc_schema t)) |}.

Definition wf_column (c : ColumnSchema) : Prop := in_unsigned 32 (column_id c) /\ describable (data_type c).
Definition wf_table_schema (s : TableSchema) : Prop :=
  in_unsigned 32 (table_id s) /\ in_unsigned 32 (schema_version s) /\ in_unsigned 64 (table_epoch s) /\
  Forall wf_column (columns s).
Definition wf_table (t : TableCatalog) : Prop :=
  in_unsigned 32 (tc_database_id t) /\ in_unsigned 32 (tc_schema_id t) /\ wf_table_schema (tc_schema t).

Lemma column_roundtrip c : wf_column c -> parse_column_schema (column_value c) = Ok (stored_column c).
Proof.
  intros [Hi Hd]. unfold parse_column_schema.
  assert (get "name" (column_value c) = Some (JString (col_name c))) as -> by json_field. cbn [mbind option_bind as_str].
  cbn [malformed ok_or mbind result_bind].
  rewrite (u32_or_ok _ _ (column_id c)); [|json_field|done].
  rewrite (str_or_ok _ _ (to_str (data_type c))) by json_field.
  rewrite (bool_or_ok _ "primary_key" (primary_key_col c)) by json_field.
  rewrite (bool_or_ok _ "nullable" (nullable c)) by json_field.
  unfold from_sql. rewrite type_text by done. unfold stored_column.
  assert (forall o, as_str (json_option o) = o) as Ho by (by intros []).
  assert (get "default" (column_value c) = Some (json_option (col_default c))) as -> by json_field.
  assert (get "on_update" (column_value c) = Some (json_option (on_update c))) as -> by json_field.
  assert (get "character_set" (column_value c) = Some (json_option (character_set c))) as -> by json_field.
  assert (get "collation" (column_value c) = Some (json_option (collation c))) as -> by json_field.
  cbn [mbind option_bind]. by rewrite !Ho.
Qed.

Lemma checks_roundtrip v l : get "check_constraints" v = Some (JArray (map check_value l)) ->
  parse_check_constraints v = Ok l.
Proof.
  intros Hg. unfold parse_check_constraints. rewrite (parse_items_ok v _ _ _ (fun c => c) l Hg); [by rewrite map_id|].
  intros c _. assert (get "expr" (check_value c) = Some (JString (check_expr c))) as -> by json_field.
  cbn [mbind option_bind as_str malformed ok_or result_bind].
  rewrite (str_or_ok _ _ (check_name c)) by json_field. by destruct c.
Qed.

Lemma uniques_roundtrip v l : get "unique_constraints" v = Some (JArray (map unique_value l)) ->
  parse_unique_constraints v = Ok l.
Proof.
  intros Hg. unfold parse_unique_constraints. rewrite (parse_items_ok v _ _ _ (fun c => c) l Hg); [by rewrite map_id|].
  intros c _. assert (get "columns" (unique_value c) = Some (json_strings (uniq_columns c))) as -> by json_field.
  rewrite parse_string_array_ok. cbn [mbind result_bind].
  rewrite (str_or_ok _ _ (uniq_name c)) by json_field.
  rewrite (bool_or_ok _ _ (uniq_primary_key c)) by json_field. by destruct c.
Qed.

Lemma foreign_keys_roundtrip v l : get "foreign_keys" v = Some (JArray (map foreign_key_value l)) ->
  parse_foreign_keys v = Ok l.
Proof.
  intros Hg. unfold parse_foreign_keys. rewrite (parse_items_ok v _ _ _ (fun c => c) l Hg); [by rewrite map_id|].
  intros c _. assert (get "columns" (foreign_key_value c) = Some (json_strings (fk_columns c))) as -> by json_field.
  assert (get "referred_columns" (foreign_key_value c) = Some (json_strings (referred_columns c))) as -> by json_field.
  rewrite !parse_string_array_ok. cbn [mbind result_bind].
  assert (get "foreign_table" (foreign_key_value c) = Some (JString (foreign_table c))) as -> by json_field.
  cbn [mbind option_bind as_str malformed ok_or result_bind].
  rewrite (str_or_ok _ _ (fk_name c)) by json_field. by destruct c.
Qed.

(** A document with the fields of a table, whatever else it has. *)
Lemma table_document v bytes name s : (forall what, decode_value what bytes = Ok v) ->
  get "table_name" v = Some (JString name) -> Forall (fun f => get f.1 v = Some f.2) (table_fields s) ->
  wf_table_schema s ->
  decode_table_catalog bytes =
  Ok {| tc_database_id := u32_or v "database_id" 1; tc_schema_id := u32_or v "schema_id" 1;
        tc_schema_name := str_or v "schema_name" DEFAULT_SCHEMA_NAME; tc_table_name := name;
        tc_schema := stored_schema (renamed name s) |}.
Proof.
  intros Hb Hn Hf (Hid & Hver & Hep & Hcols). unfold table_fields in Hf. rewrite !Forall_cons in Hf. cbn [fst snd] in Hf.
  destruct Hf as (Gid & Gver & Gep & Gpk & Gchecks & Guniq & Gfk & Gcols & _).
  unfold decode_table_catalog. rewrite Hb. cbn [mbind result_bind].
  rewrite (str_field_ok _ _ _ Hn). cbn [mbind result_bind].
  rewrite (u32_field_ok _ _ _ Gid) by done. cbn [mbind result_bind].
  rewrite (str_field_ok _ _ _ Gpk). cbn [mbind result_bind]. rewrite Gcols. cbn [mbind option_bind as_array].
  cbn [malformed ok_or mbind result_bind].
  assert (map_m parse_column_schema (map column_value (columns s)) = Ok (map stored_column (columns s))) as ->.
  { clear Gcols. induction Hcols as [|c l Hc _ IH]; [done|]. cbn [map map_m]. rewrite column_roundtrip by done.
    cbn [mbind result_bind]. by rewrite IH. }
  cbn [mbind result_bind]. rewrite (checks_roundtrip _ _ Gchecks). cbn [mbind result_bind].
  rewrite (uniques_roundtrip _ _ Guniq). cbn [mbind result_bind]. rewrite (foreign_keys_roundtrip _ _ Gfk).
  cbn [mbind result_bind]. rewrite (u32_or_ok _ _ _ 1 Gver) by done. rewrite Gep. cbn [mbind option_bind].
  rewrite (u64_value _ 64) by done. done.
Qed.

Lemma table_fields_canonical s : wf_table_schema s -> forallb (fun f => canonical f.2) (table_fields s) = true.
Proof.
  intros (Hid & Hver & Hep & Hcols). unfold table_fields. cbn [forallb snd].
  rewrite !(number_canonical 32), (number_canonical 64) by first [assumption|lia].
  rewrite !json_array_canonical; [done| | | |].
  - intros c Hc. rewrite Forall_forall in Hcols. destruct (Hcols c Hc) as [Hci _]. canonical_fields.
  - intros c _. canonical_fields.
  - intros c _. canonical_fields.
  - intros c _. canonical_fields.
Qed.

Lemma table_value_canonical t : wf_table t -> canonical (table_value t) = true.
Proof.
  intros (Hd & Hs & Ht). unfold table_value. apply json_canonical. rewrite forallb_app, table_fields_canonical by done.
  cbn [forallb snd]. by rewrite !(number_canonical 32) by first [assumption|lia].
Qed.

Lemma table_value_fields t : Forall (fun f => get f.1 (table_value t) = Some f.2) (table_fields (tc_schema t)).
Proof. unfold table_fields. repeat (apply Forall_cons; split; [cbn [fst snd]; json_field|]). by apply Forall_nil. Qed.
Lemma legacy_value_fields s : Forall (fun f => get f.1 (legacy_table_value s) = Some f.2) (table_fields s).
Proof. unfold table_fields. repeat (apply Forall_cons; split; [cbn [fst snd]; json_field|]). by apply Forall_nil. Qed.

Lemma table_roundtrip t : wf_table t ->
  exists bytes, encode_table_catalog t = Ok bytes /\ decode_table_catalog bytes = Ok (stored_table t).
Proof.
  intros Ht. destruct (encode_value_ok "table" (table_value t)) as (bytes & He & Hb); [by apply table_value_canonical|].
  exists bytes. split; [exact He|]. destruct Ht as (Hd & Hs & Ht).
  rewrite (table_document (table_value t) bytes (tc_table_name t) (tc_schema t));
    [|exact Hb|json_field|apply table_value_fields|done].
  rewrite (u32_or_ok _ "database_id" (tc_database_id t)); [|json_field|done].
  rewrite (u32_or_ok _ "schema_id" (tc_schema_id t)); [|json_field|done].
  by rewrite (str_or_ok _ _ (tc_schema_name t)) by json_field.
Qed.

(** The document of the first layout reads as a table of the default schema. *)
Lemma legacy_table_roundtrip s : wf_table_schema s ->
  exists bytes, encode_legacy_table_schema s = Ok bytes /\
    decode_table_catalog bytes = Ok {| tc_database_id := 1; tc_schema_id := 1;
      tc_schema_name := DEFAULT_SCHEMA_NAME; tc_table_name := table_name s; tc_schema := stored_schema s |}.
Proof.
  intros Hs. destruct (encode_value_ok "schema" (legacy_table_value s)) as (bytes & He & Hb).
  { unfold legacy_table_value. apply json_canonical. cbn [forallb snd]. by rewrite table_fields_canonical. }
  exists bytes. split; [exact He|].
  rewrite (table_document (legacy_table_value s) bytes (table_name s) s);
    [|exact Hb|json_field|apply legacy_value_fields|done].
  assert (get "database_id" (legacy_table_value s) = None) as Hd by json_field.
  assert (get "schema_id" (legacy_table_value s) = None) as Hi by json_field.
  assert (get "schema_name" (legacy_table_value s) = None) as Hn by json_field.
  unfold u32_or, str_or. rewrite Hd, Hi, Hn. by destruct s.
Qed.
End RoundTrips.

(** ** Reading answers on every document *)

Lemma malformed_settles {A} what (o : option A) : settles (malformed what o).
Proof. by destruct o. Qed.
Lemma u32_field_settles v name : settles (u32_field v name).
Proof. unfold u32_field. apply settles_bind; [apply malformed_settles|done]. Qed.
Lemma str_field_settles v name : settles (str_field v name).
Proof. apply malformed_settles. Qed.
Lemma map_m_settles {E A B} (f : A -> result E B) l : (forall a, settles (f a)) -> settles (map_m f l).
Proof.
  intros Hf. induction l as [|a l IH]; [done|]. cbn [map_m]. apply settles_bind; [done|]. intros b _.
  by apply settles_bind.
Qed.
Lemma string_items_settles what items : settles (string_items what items).
Proof. apply map_m_settles. intros a. apply malformed_settles. Qed.
Lemma parse_string_array_settles v field : settles (parse_string_array v field).
Proof.
  destruct v as [v|]; [|done]. apply settles_bind; [apply malformed_settles|]. intros l _. apply string_items_settles.
Qed.
Lemma parse_items_settles {A} v field (parse : Value -> PgWireResult A) : (forall v, settles (parse v)) ->
  settles (parse_items v field parse).
Proof. intros Hp. unfold parse_items. destruct (_ ≫= _); [by apply map_m_settles|done]. Qed.

Create HintDb document.
#[export] Hint Resolve malformed_settles u32_field_settles str_field_settles string_items_settles
  parse_string_array_settles : document.

Ltac settle_document :=
  repeat first [ solve [auto with document] | apply settles_bind; [|intros ? _] ]; try exact I.

Section Settles.
Context `{SerdeJsonLaws}.

Lemma encode_value_settles what v : settles (encode_value what v).
Proof. unfold encode_value. pose proof (law_to_vec v). by destruct (to_vec v). Qed.
Lemma decode_value_settles what bytes : settles (decode_value what bytes).
Proof. unfold decode_value. pose proof (law_from_slice bytes). by destruct (from_slice bytes). Qed.
#[local] Hint Resolve decode_value_settles : document.

Lemma decode_index_settles bytes : settles (decode_index_catalog bytes).
Proof. unfold decode_index_catalog. settle_document. destruct (_ ≫= _); auto with document. done. Qed.

Lemma decode_table_settles bytes : settles (decode_table_catalog bytes).
Proof.
  unfold decode_table_catalog, parse_check_constraints, parse_unique_constraints, parse_foreign_keys.
  settle_document; try (apply parse_items_settles; intros ?; settle_document).
  apply map_m_settles. intros v. unfold parse_column_schema. settle_document.
Qed.

(** Identifiers are 32 bits wide, whatever the document says. *)
Lemma decode_table_bounds bytes t : decode_table_catalog bytes = Ok t ->
  in_unsigned 32 (tc_database_id t) /\ in_unsigned 32 (tc_schema_id t) /\ in_unsigned 32 (table_id (tc_schema t)).
Proof.
  unfold decode_table_catalog. intros Hd.
  apply bind_inv in Hd as (v & _ & Hd). apply bind_inv in Hd as (name & _ & Hd).
  apply bind_inv in Hd as (id & Hid & Hd). apply bind_inv in Hd as (pk & _ & Hd).
  apply bind_inv in Hd as (items & _ & Hd). apply bind_inv in Hd as (cols & _ & Hd).
  apply bind_inv in Hd as (checks & _ & Hd). apply bind_inv in Hd as (uniq & _ & Hd).
  apply bind_inv in Hd as (fks & _ & Hd). injection Hd as <-. cbn.
  unfold u32_field in Hid. apply bind_inv in Hid as (z & _ & Hid). injection Hid as <-.
  unfold in_unsigned, u32_or. repeat split; apply Z.mod_pos_bound; lia.
Qed.
End Settles.

(** What comes back is normal: normalising and storing it again changes nothing. *)
Lemma stored_schema_normal s : normalize_descriptor (stored_schema s) = stored_schema s.
Proof.
  unfold stored_schema, normalize_descriptor. cbn. f_equal.
  - by destruct (schema_version s =? 0) eqn:E; [|rewrite E].
  - by destruct (table_epoch s =? 0) eqn:E; [|rewrite E].
  - apply list_eq. intros i. rewrite !list_lookup_imap. destruct (map stored_column (columns s) !! i) as [c|]; [|done].
    cbn. f_equal. destruct (column_id c =? 0) eqn:E; cbn; [|by rewrite E].
    assert ((Z.of_nat i mod 2 ^ 32 + 1 =? 0) = false) as ->; [|done].
    pose proof (Z.mod_pos_bound (Z.of_nat i) (2 ^ 32)). lia.
Qed.
