(* ===== verification/RowCodec.v ===== *)
(** * Row records

    The record formats of src/src/storage_layout/row_codec.rs and
    src/src/storage_layout/fast_row_decode.rs with the record types of
    src/src/storage_layout/keys.rs and the visibility tests of
    src/src/storage_layout/olap_stats.rs.  Three formats are read: the tagged
    list of [VERSION], the directory of [FAST_ROW_VERSION] and the fixed layout
    of [FIXED_ROW_VERSION], the only one rows are written in.

    A fixed record is header (33 bytes), NULL bitmap, fixed region, directory of
    the variable columns (8 bytes each), payload.  The encoder sizes the buffer
    first and then writes into it; a write outside it would panic, which
    [encode_row_record_with_mvcc] keeps as [Panic].  [usize] sums of in-memory
    lengths and [u32] fields cannot overflow 64 bits, so they are [nat]. *)

From S2P Require Import Prelude Float Types Cursor TupleCodec KeyCodec.

Record MvccMeta : Type := { xmin : Z; xmax : Z }.
Definition default_mvcc : MvccMeta := {| xmin := 1; xmax := 0 |}.

Record RowRecord : Type := {
  rr_schema_version : Z;
  rr_table_epoch : Z;
  rr_mvcc : MvccMeta;
  rr_values : gmap Z ColumnValue;
}.

(** ** Visibility (olap_stats.rs) *)

Definition is_row_tombstone (record : RowRecord) : bool :=
  negb (xmax (rr_mvcc record) =? 0) && bool_decide (rr_values record = ∅).

Definition is_row_visible (record : RowRecord) (snapshot : Z) : bool :=
  if is_row_tombstone record then xmin (rr_mvcc record) <=? snapshot
  else (xmin (rr_mvcc record) <=? snapshot) &&
       ((xmax (rr_mvcc record) =? 0) || (snapshot <? xmax (rr_mvcc record))).

(** ** The encoder *)

Definition div_ceil (n d : nat) : nat := ((n + (d - 1)) / d)%nat.

(** [buf[start..start + width]] borrowed mutably and rewritten by [f]. *)
Definition update_slice (buf : list byte) (start width : nat) (f : list byte -> list byte)
    : PgWireResult (list byte) :=
  if (length buf <? start + width)%nat then Panic
  else Ok (take start buf ++ f (slice buf start (start + width)) ++ drop (start + width) buf).

(** [buf[i] |= 1 << bit]. *)
Definition set_bit (bit : nat) (dst : list byte) : list byte :=
  map (fun b => u8_of_Z (Z.lor (u8_to_Z b) (Z.shiftl 1 (Z.of_nat bit)))) dst.

(** The widths of the fixed columns, summed. *)
Definition fixed_region_len (cols : list ColumnSchema) : nat :=
  sum_list (omap (fun c => fixed_width (data_type c)) cols).

Definition variable_columns (cols : list ColumnSchema) : list ColumnSchema :=
  filter (fun c => fixed_width (data_type c) = None) cols.

(** Where the encoder's regions start. *)
Record Regions : Type := {
  null_bitmap_start : nat;
  fixed_region_start : nat;
  variable_directory_start : nat;
}.

(** The variables the loop of the encoder updates. *)
Record EncodeState : Type := {
  es_buf : list byte;
  es_fixed_offset : nat;
  es_variable_payload : list byte;
  es_variable_idx : nat;
}.

(** The loop body: one column. *)
Definition encode_column (regions : Regions) (row : RowMap) (st : EncodeState)
    (column_idx : nat) (column : ColumnSchema) : PgWireResult EncodeState :=
  let value := row_get row (col_name column) in
  buf ← (if is_null value
         then update_slice (es_buf st) (null_bitmap_start regions + column_idx / 8) 1
                (set_bit (column_idx mod 8))
         else Ok (es_buf st));
  match fixed_width (data_type column) with
  | Some width =>
      buf ← (if is_null value then Ok buf
             else update_slice buf (fixed_region_start regions + es_fixed_offset st) width
                    (fun dst => encode_fixed_value dst value));
      Ok {| es_buf := buf; es_fixed_offset := es_fixed_offset st + width;
            es_variable_payload := es_variable_payload st;
            es_variable_idx := es_variable_idx st |}
  | None =>
      let offset := len (es_variable_payload st) mod 2 ^ 32 in
      let payload :=
        if is_null value then es_variable_payload st
        else es_variable_payload st ++ encode_tuple_value value in
      let value_len := Z.max 0 (len payload mod 2 ^ 32 - offset) in
      let entry_offset := (variable_directory_start regions + es_variable_idx st * 8)%nat in
      buf ← update_slice buf entry_offset 4 (fun _ => to_be 4 offset);
      buf ← update_slice buf (entry_offset + 4) 4 (fun _ => to_be 4 value_len);
      Ok {| es_buf := buf; es_fixed_offset := es_fixed_offset st;
            es_variable_payload := payload; es_variable_idx := S (es_variable_idx st) |}
  end.

Fixpoint encode_columns (regions : Regions) (row : RowMap) (st : EncodeState)
    (column_idx : nat) (cols : list ColumnSchema) : PgWireResult EncodeState :=
  match cols with
  | [] => Ok st
  | column :: rest =>
      st ← encode_column regions row st column_idx column;
      encode_columns regions row st (S column_idx) rest
  end.

Definition row_header (version : byte) (schema : TableSchema) (mvcc : MvccMeta) (count : Z)
    : list byte :=
  version :: to_be 4 (schema_version schema) ++ to_be 8 (table_epoch schema) ++
  to_be 8 (xmin mvcc) ++ to_be 8 (xmax mvcc) ++ to_be 4 count.

Definition encode_row_record_with_mvcc (schema : TableSchema) (row : RowMap) (mvcc : MvccMeta)
    : PgWireResult (list byte) :=
  let cols := columns schema in
  let buf := row_header FIXED_ROW_VERSION schema mvcc (len cols) in
  let null_start := length buf in
  let buf := buf ++ replicate (div_ceil (length cols) 8) x00 in
  let fixed_start := length buf in
  let buf := buf ++ replicate (fixed_region_len cols) x00 in
  let directory_start := length buf in
  let buf := buf ++ replicate (length (variable_columns cols) * 8) x00 in
  let regions := {| null_bitmap_start := null_start; fixed_region_start := fixed_start;
                    variable_directory_start := directory_start |} in
  st ← encode_columns regions row
         {| es_buf := buf; es_fixed_offset := 0; es_variable_payload := [];
            es_variable_idx := 0 |} 0 cols;
  Ok (es_buf st ++ es_variable_payload st).

Definition encode_row_record (schema : TableSchema) (row : RowMap) : PgWireResult (list byte) :=
  encode_row_record_with_mvcc schema row default_mvcc.

Definition encode_row_tombstone (schema : TableSchema) (version : Z) : list byte :=
  row_header VERSION schema {| xmin := version; xmax := version |} 0.

(** ** Headers *)

(** The fields every record starts with after its version byte:
    schema version, epoch, MVCC and the number of stored columns. *)
Definition read_header : reader (Z * Z * MvccMeta * nat) :=
  schema_version ← Cursor_.u32;
  table_epoch ← Cursor_.u64;
  xmin ← Cursor_.u64;
  xmax ← Cursor_.u64;
  count ← Cursor_.u32;
  mret (schema_version, table_epoch, {| xmin := xmin; xmax := xmax |}, Z.to_nat count).

(** The first byte as an optional version, [bytes.first()]. *)
Definition first_is (version : byte) (l : list byte) : bool :=
  match l with b :: _ => bool_decide (b = version) | [] => false end.

(** [values[i] = v]: out of range panics. *)
Definition set_index {A} (l : list A) (i : nat) (v : A) : PgWireResult (list A) :=
  if (i <? length l)%nat then Ok (<[i := v]> l) else Panic.

(** [for _ in 0..count] over the cursor with an accumulator. *)
Fixpoint read_entries {B} (step : B -> reader B) (count : nat) (acc : B) : reader B :=
  match count with
  | O => mret acc
  | S count => acc ← step acc; read_entries step count acc
  end.

Definition expect_done {A} (message : string) (a : A) : reader A := fun c =>
  if Cursor_.is_done c then Ok (a, c) else user_error "XX000" message.

(** Runs a reader on a whole buffer. *)
Definition run_reader {A} (m : reader A) (l : list byte) : PgWireResult A :=
  '(a, _) ← m (Cursor_.new l); Ok a.

Definition unsupported_version {A} : PgWireResult A :=
  user_error "XX000" "unsupported row record version".

(** ** Directory records ([FAST_ROW_VERSION]) *)

Record FastHeader : Type := {
  fh_schema_version : Z;
  fh_table_epoch : Z;
  fh_mvcc : MvccMeta;
  fh_count : nat;
  fh_directory_start : nat;
  fh_payload_start : nat;
}.

Definition fast_row_header (l : list byte) : PgWireResult FastHeader :=
  '(version, c) ← Cursor_.u8 (Cursor_.new l);
  if negb (version =? u8_to_Z FAST_ROW_VERSION)
  then user_error "XX000" "unsupported fast row record version"
  else
    '(header, c) ← read_header c;
    let '(schema_version, table_epoch, mvcc, count) := header in
    let directory_start := pos c in
    let payload_start := (directory_start + count * 12)%nat in
    if (length l <? payload_start)%nat
    then user_error "XX000" "truncated fast row directory"
    else Ok {| fh_schema_version := schema_version; fh_table_epoch := table_epoch;
               fh_mvcc := mvcc; fh_count := count; fh_directory_start := directory_start;
               fh_payload_start := payload_start |}.

(** [fast_row_directory_entry]: column id, value start and value end. *)
Definition fast_row_directory_entry (l : list byte) (directory_start entry_idx payload_start : nat)
    : PgWireResult (Z * nat * nat) :=
  let start := (directory_start + entry_idx * 12)%nat in
  if (length l <? start + 12)%nat
  then user_error "XX000" "truncated fast row directory entry"
  else
    column_id ← sub_slice l start (start + 4);
    offset ← sub_slice l (start + 4) (start + 8);
    n ← sub_slice l (start + 8) (start + 12);
    let column_id := from_be column_id in
    let offset := Z.to_nat (from_be offset) in
    let n := Z.to_nat (from_be n) in
    let value_start := (payload_start + offset)%nat in
    let value_end := (value_start + n)%nat in
    if (length l <? value_end)%nat
    then user_error "XX000" "truncated fast row payload"
    else Ok (column_id, value_start, value_end).

(** A value that must fill its slot: a fresh cursor over [l[start..end]], one
    read, and the [is_done] test. *)
Definition decode_slot {A} (m : reader A) (message : string) (l : list byte) (start end_ : nat)
    : PgWireResult A :=
  slot ← sub_slice l start end_;
  run_reader (a ← m; expect_done message a) slot.

Definition fast_trailing : string := "trailing bytes in fast row value".

(** The loop over the directory entries with an accumulator. *)
Definition fold_directory {B} (l : list byte) (h : FastHeader)
    (step : B -> Z -> nat -> nat -> PgWireResult B) (acc : B) : PgWireResult B :=
  fold_m (fun acc entry_idx =>
    '(column_id, value_start, value_end) ←
      fast_row_directory_entry l (fh_directory_start h) entry_idx (fh_payload_start h);
    step acc column_id value_start value_end) acc (seq 0 (fh_count h)).

Definition decode_fast_row_record_raw (l : list byte) : PgWireResult RowRecord :=
  h ← fast_row_header l;
  values ← fold_directory l h (fun values column_id s e =>
    value ← decode_slot decode_tuple_value fast_trailing l s e;
    Ok (<[column_id := value]> values)) (∅ : gmap Z ColumnValue);
  Ok {| rr_schema_version := fh_schema_version h; rr_table_epoch := fh_table_epoch h;
        rr_mvcc := fh_mvcc h; rr_values := values |}.

(** ** Tagged records ([VERSION]) *)

Definition trailing_v2 : string := "trailing bytes in v2 row record".

(** The body of a [VERSION] record after the version byte. *)
Definition read_tagged_record : reader RowRecord :=
  header ← read_header;
  let '(schema_version, table_epoch, mvcc, count) := header in
  values ← read_entries (fun values : gmap Z ColumnValue =>
             column_id ← Cursor_.u32;
             value ← decode_tuple_value;
             mret (<[column_id := value]> values)) count ∅;
  expect_done trailing_v2
    {| rr_schema_version := schema_version; rr_table_epoch := table_epoch;
       rr_mvcc := mvcc; rr_values := values |}.

Definition decode_row_record_raw (l : list byte) : PgWireResult RowRecord :=
  '(version, c) ← Cursor_.u8 (Cursor_.new l);
  if version =? u8_to_Z FAST_ROW_VERSION then decode_fast_row_record_raw l
  else if negb (version =? u8_to_Z VERSION) then unsupported_version
  else '(record, _) ← read_tagged_record c; Ok record.

(** ** Fixed records ([FIXED_ROW_VERSION]) *)

Record FixedRowLayout : Type := {
  stored_column_count : nat;
  fl_null_bitmap_start : nat;
  fl_fixed_region_start : nat;
  fl_variable_directory_start : nat;
  variable_payload_start : nat;
  fl_fixed_offsets : list (option nat);
  variable_positions : list (option nat);
}.

Definition fixed_row_layout (schema : TableSchema) (l : list byte) : PgWireResult FixedRowLayout :=
  '(version, c) ← Cursor_.u8 (Cursor_.new l);
  if negb (version =? u8_to_Z FIXED_ROW_VERSION)
  then user_error "XX000" "unsupported fixed row record version"
  else
    '(header, c) ← read_header c;
    let '(_, _, _, count) := header in
    if (length (columns schema) <? count)%nat
    then user_error "XX000" "fixed row schema column count mismatch"
    else
      let null_start := pos c in
      let stored_columns := take count (columns schema) in
      let fixed_start := (null_start + div_ceil count 8)%nat in
      let directory_start := (fixed_start + fixed_region_len stored_columns)%nat in
      let positions := variable_positions_for_columns stored_columns in
      let variable_count := length (filter (fun p => p <> None) positions) in
      let payload_start := (directory_start + variable_count * 8)%nat in
      if (length l <? payload_start)%nat
      then user_error "XX000" "truncated fixed row header"
      else Ok {| stored_column_count := count; fl_null_bitmap_start := null_start;
                 fl_fixed_region_start := fixed_start;
                 fl_variable_directory_start := directory_start;
                 variable_payload_start := payload_start;
                 fl_fixed_offsets := fixed_offsets_for_columns stored_columns;
                 variable_positions := positions |}.

(** [byte & (1 << bit) != 0]. *)
Definition bit_is_set (b : byte) (bit : nat) : bool :=
  negb (Z.land (u8_to_Z b) (Z.shiftl 1 (Z.of_nat bit)) =? 0).

Definition fixed_row_is_null (l : list byte) (layout : FixedRowLayout) (column_idx : nat)
    : PgWireResult bool :=
  if (stored_column_count layout <=? column_idx)%nat then Ok true
  else
    b ← ok_or (PgError "XX000" "truncated fixed row null bitmap")
          (l !! (fl_null_bitmap_start layout + column_idx / 8)%nat);
    Ok (bit_is_set b (column_idx mod 8)).

Definition fixed_trailing : string := "trailing bytes in fixed row variable value".

(** The tail of [decode_fixed_row_column]: a column found through the variable
    directory. *)
Definition decode_variable_column (l : list byte) (layout : FixedRowLayout) (column_idx : nat)
    : PgWireResult ColumnValue :=
  variable_position ←
    ok_or (PgError "XX000" "fixed row missing variable column position")
      (default None (variable_positions layout !! column_idx));
  let entry_start := (fl_variable_directory_start layout + variable_position * 8)%nat in
  if (length l <? entry_start + 8)%nat
  then user_error "XX000" "truncated fixed row variable directory"
  else
    offset ← sub_slice l entry_start (entry_start + 4);
    n ← sub_slice l (entry_start + 4) (entry_start + 8);
    let offset := Z.to_nat (from_be offset) in
    let n := Z.to_nat (from_be n) in
    let value_start := (variable_payload_start layout + offset)%nat in
    let value_end := (value_start + n)%nat in
    if (length l <? value_end)%nat
    then user_error "XX000" "truncated fixed row variable value"
    else decode_slot decode_tuple_value fixed_trailing l value_start value_end.

Definition decode_fixed_row_column (schema : TableSchema) (l : list byte)
    (layout : FixedRowLayout) (column_idx : nat) : PgWireResult ColumnValue :=
  column ← ok_or (PgError "XX000" "fixed row column index out of bounds")
             (columns schema !! column_idx);
  if (stored_column_count layout <=? column_idx)%nat then Ok Null
  else
    null ← fixed_row_is_null l layout column_idx;
    if null : bool then Ok Null
    else
      match default None (fl_fixed_offsets layout !! column_idx) with
      | Some offset =>
          let width := default 0%nat (fixed_width (data_type column)) in
          let start := (fl_fixed_region_start layout + offset)%nat in
          if (length l <? start + width)%nat
          then user_error "XX000" "truncated fixed row fixed value"
          else slot ← sub_slice l start (start + width); decode_fixed_value (data_type column) slot
      | None => decode_variable_column l layout column_idx
      end.

(** [for (column_idx, column) in schema.columns.iter().enumerate()] building a row. *)
Definition fold_columns (step : RowMap -> nat -> ColumnSchema -> PgWireResult RowMap)
    (cols : list ColumnSchema) : PgWireResult RowMap :=
  fold_m (fun row ic => step row ic.1 ic.2) ∅ (imap pair cols).

Definition decode_fixed_row_record (schema : TableSchema) (l : list byte) : PgWireResult RowMap :=
  layout ← fixed_row_layout schema l;
  fold_columns (fun row column_idx column =>
    value ← decode_fixed_row_column schema l layout column_idx;
    Ok (<[col_name column := value]> row)) (columns schema).

(** The row a raw record gives: every column of the schema, absent ones NULL. *)
Definition row_of_record (schema : TableSchema) (record : RowRecord) : RowMap :=
  foldl (fun row column =>
    <[col_name column := default Null (rr_values record !! column_id column)]> row)
    ∅ (columns schema).

Definition decode_row_record (schema : TableSchema) (l : list byte) : PgWireResult RowMap :=
  if first_is FIXED_ROW_VERSION l then decode_fixed_row_record schema l
  else
    record ← decode_row_record_raw l;
    Ok (row_of_record schema record).

(** ** Projection to a row map *)

(** The wanted columns, stably sorted by id and deduplicated by id. *)
Fixpoint dedup_by_id (l : list (Z * string)) : list (Z * string) :=
  match l with
  | a :: ((b :: _) as rest) =>
      match dedup_by_id rest with
      | b' :: rest' => if a.1 =? b'.1 then a :: rest' else a :: b' :: rest'
      | [] => [a]
      end
  | _ => l
  end.

Fixpoint insert_by_id (x : Z * string) (l : list (Z * string)) : list (Z * string) :=
  match l with
  | [] => [x]
  | y :: r => if x.1 <=? y.1 then x :: l else y :: insert_by_id x r
  end.

(** [sort_by_key]: a stable sort. *)
Definition sort_by_id (l : list (Z * string)) : list (Z * string) := foldr insert_by_id [] l.

Definition wanted_columns (schema : TableSchema) (column_indices : list nat)
    : list (Z * string) :=
  dedup_by_id (sort_by_id
    (omap (fun idx => (fun c => (column_id c, col_name c)) <$> columns schema !! idx)
       column_indices)).

(** [wanted.binary_search_by_key(&column_id, ..)] on the strictly sorted list:
    the name of the one entry with that id. *)
Definition wanted_name (wanted : list (Z * string)) (column_id : Z) : option string :=
  snd <$> List.find (fun w => w.1 =? column_id) wanted.

Definition insert_wanted (wanted : list (Z * string)) (column_id : Z) (value : ColumnValue)
    (row : RowMap) : RowMap :=
  match wanted_name wanted column_id with
  | Some name => <[name := value]> row
  | None => row
  end.

Definition decode_fixed_row_record_projected (schema : TableSchema) (wanted : list (Z * string))
    (l : list byte) : PgWireResult RowMap :=
  layout ← fixed_row_layout schema l;
  fold_columns (fun row column_idx column =>
    match wanted_name wanted (column_id column) with
    | Some name =>
        value ← decode_fixed_row_column schema l layout column_idx;
        Ok (<[name := value]> row)
    | None => Ok row
    end) (columns schema).

Definition decode_fast_row_record_projected (wanted : list (Z * string)) (l : list byte)
    : PgWireResult RowMap :=
  h ← fast_row_header l;
  fold_directory l h (fun row column_id s e =>
    match wanted_name wanted column_id with
    | Some name =>
        value ← decode_slot decode_tuple_value fast_trailing l s e;
        Ok (<[name := value]> row)
    | None => Ok row
    end) (∅ : RowMap).

Definition decode_row_record_projected (schema : TableSchema) (l : list byte)
    (column_indices : list nat) : PgWireResult RowMap :=
  let wanted := wanted_columns schema column_indices in
  '(version, c) ← Cursor_.u8 (Cursor_.new l);
  if version =? u8_to_Z FIXED_ROW_VERSION
  then decode_fixed_row_record_projected schema wanted l
  else if version =? u8_to_Z FAST_ROW_VERSION then decode_fast_row_record_projected wanted l
  else if negb (version =? u8_to_Z VERSION) then unsupported_version
  else
    '(row, _) ← (header ← read_header;
                 let '(_, _, _, count) := header in
                 row ← read_entries (fun row : RowMap =>
                         column_id ← Cursor_.u32;
                         value ← decode_tuple_value;
                         mret (insert_wanted wanted column_id value row)) count ∅;
                 expect_done trailing_v2 row) c;
    Ok row.

(** ** Projection to a vector of values *)

(** [vec![None; max_column_id + 1]] filled by the loop over the projection: the
    output slot of each wanted column id.  Shared by the two projectors. *)
Definition column_output_table (schema : TableSchema) (column_indices : list nat)
    : list (option nat) :=
  let max_column_id := foldr Z.max 0 (map column_id (columns schema)) in
  foldl (fun table (oc : nat * nat) =>
    match columns schema !! oc.2 with
    | Some column =>
        let id := Z.to_nat (column_id column) in
        let table := if (length table <=? id)%nat then resize (S id) None table else table in
        <[id := Some oc.1]> table
    | None => table
    end) (replicate (S (Z.to_nat max_column_id)) None) (imap pair column_indices).

(** [output_idx]: [.get(column_id).and_then(|idx| *idx)]. *)
Definition output_slot (table : list (option nat)) (column_id : Z) : option nat :=
  default None (table !! Z.to_nat column_id).

Record RowValueProjector : Type := {
  rp_schema : TableSchema;
  rp_column_id_to_output : list (option nat);
  rp_column_indices : list nat;
  rp_output_len : nat;
}.

Definition new_row_value_projector (schema : TableSchema) (column_indices : list nat)
    : RowValueProjector :=
  {| rp_schema := schema;
     rp_column_id_to_output := column_output_table schema column_indices;
     rp_column_indices := column_indices;
     rp_output_len := length column_indices |}.

Definition rp_output_idx (p : RowValueProjector) (column_id : Z) : option nat :=
  output_slot (rp_column_id_to_output p) column_id.

(** The values vector made all NULL at the projector's length. *)
Definition reset_values (output_len : nat) (values : list ColumnValue) : list ColumnValue :=
  if (length values =? output_len)%nat then map (fun _ => Null) values
  else replicate output_len Null.

Definition decode_fixed_row_record_projected_values_with (p : RowValueProjector)
    (l : list byte) (values : list ColumnValue) : PgWireResult (list ColumnValue) :=
  let values := reset_values (rp_output_len p) values in
  layout ← fixed_row_layout (rp_schema p) l;
  fold_m (fun values (oc : nat * nat) =>
    value ← decode_fixed_row_column (rp_schema p) l layout oc.2;
    set_index values oc.1 value) values (imap pair (rp_column_indices p)).

Definition decode_fast_row_record_projected_values_with (p : RowValueProjector)
    (l : list byte) (values : list ColumnValue) : PgWireResult (list ColumnValue) :=
  h ← fast_row_header l;
  fold_directory l h (fun values column_id s e =>
    match rp_output_idx p column_id with
    | Some output_idx =>
        value ← decode_slot decode_tuple_value fast_trailing l s e;
        set_index values output_idx value
    | None => Ok values
    end) (reset_values (rp_output_len p) values).

(** The entry loop of a tagged record that keeps the wanted columns only. *)
Definition read_wanted_entries {A} (output_idx : Z -> option nat) (decode : reader A)
    (count : nat) (values : list A) : reader (list A) :=
  read_entries (fun values =>
    column_id ← Cursor_.u32;
    match output_idx column_id with
    | Some output_idx => value ← decode; lift (set_index values output_idx value)
    | None => _ ← skip_tuple_value; mret values
    end) count values.

Definition decode_row_record_projected_values_with (p : RowValueProjector)
    (l : list byte) (values : list ColumnValue) : PgWireResult (list ColumnValue) :=
  '(version, c) ← Cursor_.u8 (Cursor_.new l);
  if version =? u8_to_Z FIXED_ROW_VERSION
  then decode_fixed_row_record_projected_values_with p l values
  else if version =? u8_to_Z FAST_ROW_VERSION
  then decode_fast_row_record_projected_values_with p l values
  else if negb (version =? u8_to_Z VERSION) then unsupported_version
  else
    '(values, _) ← (header ← read_header;
                    let '(_, _, _, count) := header in
                    values ← read_wanted_entries (rp_output_idx p) decode_tuple_value count
                               (reset_values (rp_output_len p) values);
                    expect_done trailing_v2 values) c;
    Ok values.

Definition decode_row_record_projected_values (schema : TableSchema) (l : list byte)
    (column_indices : list nat) : PgWireResult (list ColumnValue) :=
  decode_row_record_projected_values_with (new_row_value_projector schema column_indices) l [].

(** ** The numeric fast path *)

Record FastNumericDirectSlot : Type := {
  ds_column_id : Z;
  directory_idx : nat;
  fixed_value_start : option nat;
  ds_fixed_width : option nat;
  null_byte_offset : nat;
  null_bit : nat;
  ds_data_type : DataType;
  ds_output_idx : nat;
}.

Record FastNumericProjector : Type := {
  np_column_id_to_output : list (option nat);
  direct_slots : list FastNumericDirectSlot;
  np_output_len : nat;
}.

Definition row_header_len : nat := 1 + 4 + 8 + 8 + 8 + 4.

(** One direct slot; [null_bit] is the bit's number, the source stores [1 << bit].
    The offsets are those of a record that stores every column of the schema. *)
Definition direct_slot (schema : TableSchema) (output_idx column_idx : nat)
    : option FastNumericDirectSlot :=
  let region_start := (row_header_len + div_ceil (length (columns schema)) 8)%nat in
  column ← columns schema !! column_idx;
  Some {| ds_column_id := column_id column;
          directory_idx := column_idx;
          fixed_value_start :=
            (fun offset => region_start + offset)%nat <$>
              default None (fixed_offsets schema !! column_idx);
          ds_fixed_width := fixed_width (data_type column);
          null_byte_offset := (row_header_len + column_idx / 8)%nat;
          null_bit := column_idx mod 8;
          ds_data_type := data_type column;
          ds_output_idx := output_idx |}.

Definition new_fast_numeric_projector (schema : TableSchema) (column_indices : list nat)
    : FastNumericProjector :=
  {| np_column_id_to_output := column_output_table schema column_indices;
     direct_slots := omap (fun oc => direct_slot schema oc.1 oc.2) (imap pair column_indices);
     np_output_len := length column_indices |}.

Definition np_output_idx (p : FastNumericProjector) (column_id : Z) : option nat :=
  output_slot (np_column_id_to_output p) column_id.

Definition decode_fixed_row_numeric_slot (l : list byte) (values : list FastNumericValue)
    (slot : FastNumericDirectSlot) : PgWireResult (list FastNumericValue) :=
  b ← ok_or (PgError "XX000" "truncated fixed row null bitmap") (l !! null_byte_offset slot);
  if bit_is_set b (null_bit slot) then set_index values (ds_output_idx slot) FNull
  else
    match fixed_value_start slot with
    | None => user_error "XX000" "fixed row fast numeric column is not fixed-width"
    | Some start =>
        let end_ := (start + default 0 (ds_fixed_width slot))%nat in
        if (length l <? end_)%nat then user_error "XX000" "truncated fixed row numeric value"
        else
          bytes ← sub_slice l start end_;
          value ← decode_fixed_numeric_value (ds_data_type slot) bytes;
          set_index values (ds_output_idx slot) value
    end.

Definition decode_fixed_row_record_fast_numeric_with (p : FastNumericProjector)
    (l : list byte) (values : list FastNumericValue) : PgWireResult (list FastNumericValue) :=
  if first_is FIXED_ROW_VERSION l
  then fold_m (decode_fixed_row_numeric_slot l) values (direct_slots p)
  else user_error "XX000" "unsupported fixed row record version".

(** [decode_legacy_row_record_fast_numeric_with], the cursor past the version. *)
Definition decode_legacy_row_record_fast_numeric_with (p : FastNumericProjector)
    (values : list FastNumericValue) : reader (list FastNumericValue) :=
  header ← read_header;
  let '(_, _, _, count) := header in
  values ← read_wanted_entries (np_output_idx p) decode_tuple_numeric_value count values;
  expect_done trailing_v2 values.

(** The direct loop: it stops, and answers [None], at a slot whose directory
    entry belongs to another column. *)
Fixpoint fast_direct_slots (l : list byte) (h : FastHeader) (slots : list FastNumericDirectSlot)
    (values : list FastNumericValue) : PgWireResult (option (list FastNumericValue)) :=
  match slots with
  | [] => Ok (Some values)
  | slot :: rest =>
      '(column_id, s, e) ←
        fast_row_directory_entry l (fh_directory_start h) (directory_idx slot)
          (fh_payload_start h);
      if negb (column_id =? ds_column_id slot) then Ok None
      else
        value ← decode_slot decode_tuple_numeric_value fast_trailing l s e;
        values ← set_index values (ds_output_idx slot) value;
        fast_direct_slots l h rest values
  end.

Definition fast_numeric_directory (p : FastNumericProjector) (l : list byte) (h : FastHeader)
    (values : list FastNumericValue) : PgWireResult (list FastNumericValue) :=
  fold_directory l h (fun values column_id s e =>
    match np_output_idx p column_id with
    | Some output_idx =>
        value ← decode_slot decode_tuple_numeric_value fast_trailing l s e;
        set_index values output_idx value
    | None => Ok values
    end) values.

Definition decode_fast_row_record_fast_numeric_with (p : FastNumericProjector)
    (l : list byte) (values : list FastNumericValue) : PgWireResult (list FastNumericValue) :=
  h ← fast_row_header l;
  if forallb (fun slot => directory_idx slot <? fh_count h)%nat (direct_slots p)
  then
    direct ← fast_direct_slots l h (direct_slots p) values;
    match direct with
    | Some values => Ok values
    | None => fast_numeric_directory p l h (map (fun _ => FNull) values)
    end
  else fast_numeric_directory p l h values.

Definition numeric_length_error {A} : PgWireResult A :=
  user_error "XX000" "fast numeric output length does not match projector".

Definition decode_row_record_fast_numeric_with (p : FastNumericProjector)
    (l : list byte) (values : list FastNumericValue) : PgWireResult (list FastNumericValue) :=
  if negb (length values =? np_output_len p)%nat then numeric_length_error
  else
    match l with
    | [] => user_error "XX000" "empty row record"
    | version :: _ =>
        if bool_decide (version = FIXED_ROW_VERSION)
        then decode_fixed_row_record_fast_numeric_with p l values
        else
          let values := map (fun _ => FNull) values in
          '(_, c) ← Cursor_.u8 (Cursor_.new l);
          if bool_decide (version = VERSION)
          then '(values, _) ← decode_legacy_row_record_fast_numeric_with p values c; Ok values
          else if bool_decide (version = FAST_ROW_VERSION)
          then decode_fast_row_record_fast_numeric_with p l values
          else unsupported_version
    end.

Definition decode_row_record_fast_numeric_slots_with (p : FastNumericProjector)
    (l : list byte) (values : list FastNumericValue) (output_slots : list nat)
    : PgWireResult (list FastNumericValue) :=
  if negb (length values =? np_output_len p)%nat then numeric_length_error
  else if negb (first_is FIXED_ROW_VERSION l)
  then decode_row_record_fast_numeric_with p l values
  else
    fold_m (fun values output_slot =>
      match List.find (fun slot => ds_output_idx slot =? output_slot)%nat (direct_slots p) with
      | Some slot => decode_fixed_row_numeric_slot l values slot
      | None => Ok values
      end) values output_slots.

Definition is_fast_row_record (l : list byte) : bool :=
  first_is FAST_ROW_VERSION l || first_is FIXED_ROW_VERSION l.

Definition reencode_row_record_fast (schema : TableSchema) (l : list byte)
    : PgWireResult (option (list byte)) :=
  if first_is FIXED_ROW_VERSION l then Ok None
  else
    record ← decode_row_record_raw l;
    if is_row_tombstone record then Ok None
    else
      encoded ← encode_row_record_with_mvcc schema (row_of_record schema record)
                  (rr_mvcc record);
      Ok (Some encoded).

(** ** Lemmas: bits and slices *)

Lemma testbit_u8_of_Z z j : (j < 8)%nat ->
  Z.testbit (u8_to_Z (u8_of_Z z)) (Z.of_nat j) = Z.testbit z (Z.of_nat j).
Proof. intros H. rewrite u8_to_of. change 256 with (2 ^ 8). apply Z.mod_pow2_bits_low. lia. Qed.

Lemma bit_is_set_testbit b j : bit_is_set b j = Z.testbit (u8_to_Z b) (Z.of_nat j).
Proof.
  unfold bit_is_set. rewrite Z.shiftl_1_l.
  assert (Hl : Z.land (u8_to_Z b) (2 ^ Z.of_nat j) =
    if Z.testbit (u8_to_Z b) (Z.of_nat j) then 2 ^ Z.of_nat j else 0).
  { apply Z.bits_inj'. intros i Hi. rewrite Z.land_spec, Z.pow2_bits_eqb by lia.
    destruct (Z.eqb_spec (Z.of_nat j) i) as [<-|Hne].
    - destruct (Z.testbit _ _); [|by rewrite Z.bits_0]. cbn. by rewrite Z.pow2_bits_true by lia.
    - rewrite andb_false_r. destruct (Z.testbit _ (Z.of_nat j)); [|by rewrite Z.bits_0].
      by rewrite Z.pow2_bits_false by lia. }
  rewrite Hl. destruct (Z.testbit _ _); [|done].
  assert (0 < 2 ^ Z.of_nat j) by (apply Z.pow_pos_nonneg; lia).
  by destruct (Z.eqb_spec (2 ^ Z.of_nat j) 0); [lia|].
Qed.

(** Bit [j] of a bitmap. *)
Definition bitmap_get (l : list byte) (j : nat) : bool :=
  match l !! (j / 8)%nat with
  | Some b => Z.testbit (u8_to_Z b) (Z.of_nat (j mod 8))
  | None => false
  end.

Lemma bitmap_get_zeros n j : bitmap_get (replicate n x00) j = false.
Proof.
  unfold bitmap_get. destruct (replicate n x00 !! (j / 8)%nat) eqn:E; [|done].
  apply lookup_replicate in E as [-> _]. apply Z.bits_0.
Qed.

Lemma update_slice_app p x r f :
  update_slice (p ++ x ++ r) (length p) (length x) f = Ok (p ++ f x ++ r).
Proof.
  unfold update_slice. rewrite !length_app.
  destruct (Nat.ltb_spec (length p + (length x + length r)) (length p + length x)); [lia|].
  rewrite slice_app. do 2 f_equal.
  - apply take_app_length.
  - f_equal. rewrite <- length_app, app_assoc. apply drop_app_length.
Qed.

Lemma update_slice_at p x r f start width :
  start = length p -> width = length x ->
  update_slice (p ++ x ++ r) start width f = Ok (p ++ f x ++ r).
Proof. intros -> ->. apply update_slice_app. Qed.

(** Setting bit [i] of a bitmap inside a buffer. *)
Lemma set_bitmap_bit p N r i :
  (i / 8 < length N)%nat ->
  exists N', update_slice (p ++ N ++ r) (length p + i / 8) 1 (set_bit (i mod 8)) =
               Ok (p ++ N' ++ r) /\
    length N' = length N /\
    forall j, bitmap_get N' j = bitmap_get N j || (j =? i)%nat.
Proof.
  intros Hi. destruct (lookup_lt_is_Some_2 N (i / 8) Hi) as [b Hb].
  pose proof (take_drop_middle N (i / 8) b Hb) as HN.
  exists (<[(i / 8)%nat := u8_of_Z (Z.lor (u8_to_Z b) (Z.shiftl 1 (Z.of_nat (i mod 8))))]> N).
  rewrite insert_take_drop by done. split; [|split].
  - rewrite <- HN at 1.
    replace (p ++ (take (i / 8) N ++ b :: drop (S (i / 8)) N) ++ r)
      with ((p ++ take (i / 8) N) ++ [b] ++ (drop (S (i / 8)) N ++ r))
      by (by rewrite <- !app_assoc).
    rewrite (update_slice_at _ _ _ _ _ 1);
      [|by rewrite length_app, length_take_le by lia|done].
    cbn [set_bit map app]. by rewrite <- !app_assoc.
  - rewrite length_app, length_take_le by lia. cbn [length]. rewrite length_drop. lia.
  - intros j. rewrite <- insert_take_drop by done. unfold bitmap_get.
    pose proof (Nat.mod_upper_bound i 8 ltac:(lia)).
    pose proof (Nat.mod_upper_bound j 8 ltac:(lia)).
    pose proof (Nat.div_mod i 8 ltac:(lia)). pose proof (Nat.div_mod j 8 ltac:(lia)).
    destruct (decide (i / 8 = j / 8)%nat) as [E|Hne].
    + rewrite <- E, list_lookup_insert_eq, Hb by done.
      rewrite testbit_u8_of_Z, Z.lor_spec, Z.shiftl_1_l, Z.pow2_bits_eqb by lia.
      f_equal. destruct (Nat.eqb_spec j i), (Z.eqb_spec (Z.of_nat (i mod 8)) (Z.of_nat (j mod 8)));
        subst; lia.
    + rewrite list_lookup_insert_ne by done.
      destruct (Nat.eqb_spec j i); [subst; done|by rewrite orb_false_r].
Qed.

(** ** The layout a fixed record has

    What each region holds for a list of columns, as a function of the columns
    alone.  The encoder is shown to build it, the decoders to read it. *)

Section Layout.
Context (row : RowMap).

Definition value_of (c : ColumnSchema) : ColumnValue := row_get row (col_name c).

(** The fixed slot of a column: zeros for NULL. *)
Definition slot_of (c : ColumnSchema) : list byte :=
  match fixed_width (data_type c) with
  | Some w =>
      if is_null (value_of c) then replicate w x00
      else encode_fixed_value (replicate w x00) (value_of c)
  | None => []
  end.

Definition payload_of (c : ColumnSchema) : list byte :=
  match fixed_width (data_type c) with
  | Some _ => []
  | None => if is_null (value_of c) then [] else encode_tuple_value (value_of c)
  end.

Definition fixed_region (cols : list ColumnSchema) : list byte := concat (map slot_of cols).
Definition payload (cols : list ColumnSchema) : list byte := concat (map payload_of cols).

(** The directory of the variable columns, the payload of [cols] starting at [offset]. *)
Fixpoint directory_from (offset : Z) (cols : list ColumnSchema) : list byte :=
  match cols with
  | [] => []
  | c :: r =>
      match fixed_width (data_type c) with
      | Some _ => directory_from offset r
      | None =>
          to_be 4 offset ++ to_be 4 (len (payload_of c)) ++
          directory_from (offset + len (payload_of c)) r
      end
  end.

Lemma payload_app a b : payload (a ++ b) = payload a ++ payload b.
Proof. unfold payload. by rewrite map_app, concat_app. Qed.

Lemma payload_cons c r : payload (c :: r) = payload_of c ++ payload r.
Proof. done. Qed.

Lemma fixed_region_app a b : fixed_region (a ++ b) = fixed_region a ++ fixed_region b.
Proof. unfold fixed_region. by rewrite map_app, concat_app. Qed.

Lemma directory_from_app a b offset :
  directory_from offset (a ++ b) =
  directory_from offset a ++ directory_from (offset + len (payload a)) b.
Proof.
  revert offset. induction a as [|c a IH]; intros offset; cbn [directory_from app].
  - by rewrite Z.add_0_r.
  - rewrite payload_cons, len_app. unfold payload_of at 3 4.
    destruct (fixed_width (data_type c)) eqn:E.
    + rewrite IH. unfold payload_of. rewrite E. done.
    + rewrite IH, <- !app_assoc. unfold payload_of. rewrite E.
      do 3 f_equal. by rewrite Z.add_assoc.
Qed.

Lemma length_slot_of c :
  length (slot_of c) = default 0%nat (fixed_width (data_type c)).
Proof.
  unfold slot_of. destruct (fixed_width (data_type c)); [|done].
  destruct (is_null _); [|rewrite length_encode_fixed_value]; apply length_replicate.
Qed.

Lemma fixed_region_len_cons c r :
  fixed_region_len (c :: r) =
  (default 0 (fixed_width (data_type c)) + fixed_region_len r)%nat.
Proof. unfold fixed_region_len. cbn [omap list_omap]. by destruct (fixed_width _). Qed.

Lemma length_fixed_region cols : length (fixed_region cols) = fixed_region_len cols.
Proof.
  induction cols as [|c r IH]; [done|].
  rewrite fixed_region_len_cons, <- IH, <- length_slot_of. cbn. by rewrite length_app.
Qed.

Lemma variable_columns_cons c r :
  variable_columns (c :: r) =
  match fixed_width (data_type c) with Some _ => variable_columns r | None => c :: variable_columns r end.
Proof.
  unfold variable_columns. rewrite filter_cons. by destruct (fixed_width _) eqn:E; case_decide.
Qed.

Lemma length_directory offset cols :
  length (directory_from offset cols) = (length (variable_columns cols) * 8)%nat.
Proof.
  revert offset. induction cols as [|c r IH]; intros offset; [done|].
  rewrite variable_columns_cons. cbn [directory_from]. destruct (fixed_width _); [done|].
  rewrite !length_app, !length_to_be, IH. cbn [length]. lia.
Qed.

(** The state of the encoder after [done_], with [todo] still to come. *)
Definition encoder_at (H : list byte) (N : list byte) (done_ todo : list ColumnSchema)
    : EncodeState :=
  {| es_buf :=
       H ++ N ++ (fixed_region done_ ++ replicate (fixed_region_len todo) x00) ++
       (directory_from 0 done_ ++ replicate (length (variable_columns todo) * 8) x00);
     es_fixed_offset := fixed_region_len done_;
     es_variable_payload := payload done_;
     es_variable_idx := length (variable_columns done_) |}.

Definition regions_of (H N : list byte) (cols : list ColumnSchema) : Regions :=
  {| null_bitmap_start := length H;
     fixed_region_start := length H + length N;
     variable_directory_start := length H + length N + fixed_region_len cols |}.

(** The NULL bits of [cols], the first at bit [i], on top of bitmap [N]. *)
Definition bitmap_after (N N' : list byte) (i : nat) (cols : list ColumnSchema) : Prop :=
  length N' = length N /\
  forall j, bitmap_get N' j =
    bitmap_get N j ||
    ((i <=? j)%nat && match cols !! (j - i)%nat with
               | Some c => is_null (value_of c)
               | None => false
               end).
End Layout.

(** ** The encoder builds the layout *)

Lemma encoder_null_bit row H N done_ todo c :
  (length done_ / 8 < length N)%nat ->
  let st := encoder_at row H N done_ todo in
  exists N',
    (if is_null (value_of row c)
     then update_slice (es_buf st) (length H + length done_ / 8) 1 (set_bit (length done_ mod 8))
     else Ok (es_buf st)) = Ok (es_buf (encoder_at row H N' done_ todo)) /\
    bitmap_after row N N' (length done_) [c].
Proof.
  intros Hi st. unfold bitmap_after.
  assert (Hbit : forall j, (length done_ <=? j)%nat &&
      match [c] !! (j - length done_)%nat with
      | Some c => is_null (value_of row c)
      | None => false
      end = is_null (value_of row c) && (j =? length done_)%nat).
  { intros j. destruct (Nat.leb_spec (length done_) j), (Nat.eqb_spec j (length done_)); try lia;
      cbn [andb]; rewrite ?andb_false_r, ?andb_true_r; try done.
    - subst. by rewrite Nat.sub_diag.
    - destruct (j - length done_)%nat eqn:E; [lia|done]. }
  setoid_rewrite Hbit. destruct (is_null (value_of row c)).
  - destruct (set_bitmap_bit H N ((fixed_region row done_ ++
      replicate (fixed_region_len todo) x00) ++ (directory_from row 0 done_ ++
      replicate (length (variable_columns todo) * 8) x00)) (length done_) Hi)
      as (N' & Hu & Hl & Hb). by exists N'.
  - exists N. split; [done|]. split; [done|]. intros j. by rewrite orb_false_r.
Qed.

(** The buffer splits around the next fixed slot. *)
Lemma encoder_fixed_slot row H N done_ c todo w cols f :
  fixed_width (data_type c) = Some w ->
  f (replicate w x00) = slot_of row c -> cols = done_ ++ c :: todo ->
  update_slice (es_buf (encoder_at row H N done_ (c :: todo)))
    (fixed_region_start (regions_of H N cols) + fixed_region_len done_) w f =
  Ok (es_buf (encoder_at row H N (done_ ++ [c]) todo)).
Proof.
  intros Hw Hf ->. cbn [es_buf encoder_at regions_of fixed_region_start].
  rewrite fixed_region_len_cons, variable_columns_cons, Hw. cbn [from_option id].
  rewrite replicate_add.
  replace (H ++ N ++ (fixed_region row done_ ++ replicate w x00 ++
      replicate (fixed_region_len todo) x00) ++ directory_from row 0 done_ ++
      replicate (length (variable_columns todo) * 8) x00)
    with ((H ++ N ++ fixed_region row done_) ++ replicate w x00 ++
      (replicate (fixed_region_len todo) x00 ++ directory_from row 0 done_ ++
       replicate (length (variable_columns todo) * 8) x00)) by (by rewrite <- !app_assoc).
  rewrite (update_slice_at (H ++ N ++ fixed_region row done_));
    [|rewrite !length_app, length_fixed_region; lia|by rewrite length_replicate].
  rewrite Hf, fixed_region_app, directory_from_app. cbn [directory_from]. rewrite Hw.
  unfold fixed_region at 3. cbn [map concat]. by rewrite !app_nil_r, <- !app_assoc.
Qed.

Lemma encoder_directory_entry row H N done_ c todo cols :
  fixed_width (data_type c) = None -> cols = done_ ++ c :: todo ->
  let entry := (variable_directory_start (regions_of H N cols) +
                length (variable_columns done_) * 8)%nat in
  (buf ← update_slice (es_buf (encoder_at row H N done_ (c :: todo))) entry 4
           (fun _ => to_be 4 (len (payload row done_)));
   update_slice buf (entry + 4) 4 (fun _ => to_be 4 (len (payload_of row c)))) =
  Ok (es_buf (encoder_at row H N (done_ ++ [c]) todo)).
Proof.
  intros Hw -> entry. cbn [es_buf encoder_at].
  rewrite fixed_region_len_cons, variable_columns_cons, Hw. cbn [from_option id length Nat.add].
  set (Z0 := replicate (length (variable_columns todo) * 8) x00).
  change (S (length (variable_columns todo)) * 8)%nat with (4 + (4 + length (variable_columns todo) * 8))%nat.
  rewrite !replicate_add. fold Z0.
  set (P := H ++ N ++ (fixed_region row done_ ++ replicate (fixed_region_len todo) x00) ++
            directory_from row 0 done_).
  assert (Hp : entry = length P).
  { unfold P, entry. cbn [regions_of variable_directory_start].
    rewrite !length_app, length_fixed_region, length_replicate, length_directory.
    unfold fixed_region_len at 1. rewrite omap_app, sum_list_with_app.
    fold (fixed_region_len done_). fold (fixed_region_len (c :: todo)).
    rewrite fixed_region_len_cons, Hw. cbn [from_option id]. unfold fixed_region_len. lia. }
  replace (H ++ N ++ (fixed_region row done_ ++ replicate (fixed_region_len todo) x00) ++
      directory_from row 0 done_ ++ replicate 4 x00 ++ replicate 4 x00 ++ Z0)
    with (P ++ replicate 4 x00 ++ (replicate 4 x00 ++ Z0))
    by (unfold P; by rewrite <- !app_assoc).
  rewrite (update_slice_at P) by done. rewrite bind_ok, app_assoc.
  rewrite (update_slice_at (P ++ to_be 4 (len (payload row done_))));
    [|by rewrite length_app, length_to_be, Hp|done].
  rewrite fixed_region_app, directory_from_app. cbn [directory_from]. rewrite Hw.
  unfold fixed_region at 2. cbn [map concat]. unfold slot_of. rewrite Hw.
  unfold P. by rewrite Z.add_0_l, !app_nil_r, <- !app_assoc.
Qed.

Lemma bitmap_after_cons row N N1 N2 i c cols :
  bitmap_after row N N1 i [c] -> bitmap_after row N1 N2 (S i) cols ->
  bitmap_after row N N2 i (c :: cols).
Proof.
  intros [Hl1 H1] [Hl2 H2]. split; [congruence|]. intros j. rewrite H2, H1, <- orb_assoc. f_equal.
  destruct (Nat.leb_spec i j), (Nat.leb_spec (S i) j); try lia; cbn [andb].
  - replace (j - i)%nat with (S (j - S i)) by lia. cbn. by rewrite orb_false_l.
  - replace j with i by lia. by rewrite Nat.sub_diag, orb_false_r.
Qed.

(** Rewriting a slice of a buffer to itself. *)
Lemma update_slice_id b start width b' :
  update_slice b start width (fun x => x) = Ok b' -> b' = b.
Proof.
  unfold update_slice. destruct (_ <? _)%nat; [discriminate|]. intros [= <-]. unfold slice.
  replace (start + width - start)%nat with width by lia.
  by rewrite <- (drop_drop b width start), !take_drop.
Qed.

Lemma variable_columns_snoc cols c :
  length (variable_columns (cols ++ [c])) =
  (length (variable_columns cols) + match fixed_width (data_type c) with Some _ => 0 | None => 1 end)%nat.
Proof.
  unfold variable_columns. rewrite filter_app, length_app. fold (variable_columns [c]).
  rewrite variable_columns_cons. by destruct (fixed_width _).
Qed.

Lemma fixed_region_len_snoc cols c :
  fixed_region_len (cols ++ [c]) =
  (fixed_region_len cols + default 0 (fixed_width (data_type c)))%nat.
Proof.
  unfold fixed_region_len. rewrite omap_app, sum_list_with_app. f_equal.
  fold (fixed_region_len [c]). rewrite fixed_region_len_cons. unfold fixed_region_len. cbn. lia.
Qed.

Lemma payload_snoc row cols c : payload row (cols ++ [c]) = payload row cols ++ payload_of row c.
Proof. rewrite payload_app, payload_cons. unfold payload. cbn. by rewrite app_nil_r. Qed.

Lemma encoder_at_eq row H N done_ todo st :
  es_buf st = es_buf (encoder_at row H N done_ todo) ->
  es_fixed_offset st = fixed_region_len done_ -> es_variable_payload st = payload row done_ ->
  es_variable_idx st = length (variable_columns done_) ->
  st = encoder_at row H N done_ todo.
Proof. destruct st; cbn. intros -> -> -> ->. done. Qed.

(** The fixed slot of a column, NULL or not, leaves the layout of one more column. *)
Lemma encoder_fixed_column row H N done_ c todo w cols :
  fixed_width (data_type c) = Some w -> cols = done_ ++ c :: todo ->
  (if is_null (value_of row c) then Ok (es_buf (encoder_at row H N done_ (c :: todo)))
   else update_slice (es_buf (encoder_at row H N done_ (c :: todo)))
     (fixed_region_start (regions_of H N cols) + fixed_region_len done_) w
     (fun dst => encode_fixed_value dst (value_of row c))) =
  Ok (es_buf (encoder_at row H N (done_ ++ [c]) todo)).
Proof.
  intros Hw Hcols. destruct (is_null (value_of row c)) eqn:En.
  - pose proof (encoder_fixed_slot row H N done_ c todo w cols (fun x => x) Hw) as Hs.
    rewrite (update_slice_id _ _ _ _ (Hs ltac:(unfold slot_of; by rewrite Hw, En) Hcols)). done.
  - apply encoder_fixed_slot; [done| |done]. unfold slot_of. by rewrite Hw, En.
Qed.

Lemma encode_column_step row H N done_ c todo cols :
  cols = done_ ++ c :: todo ->
  (length done_ / 8 < length N)%nat -> len (payload row cols) < 2 ^ 32 ->
  exists N',
    encode_column (regions_of H N cols) row (encoder_at row H N done_ (c :: todo))
      (length done_) c = Ok (encoder_at row H N' (done_ ++ [c]) todo) /\
    bitmap_after row N N' (length done_) [c].
Proof.
  intros Hcols Hi Hpay.
  destruct (encoder_null_bit row H N done_ (c :: todo) c Hi) as (N' & Hn & Hb).
  exists N'. split; [|exact Hb]. unfold encode_column. cbv zeta.
  fold (value_of row c). cbn [null_bitmap_start regions_of]. rewrite Hn, bind_ok.
  assert (Hr : regions_of H N cols = regions_of H N' cols)
    by (unfold regions_of; by rewrite (proj1 Hb)).
  rewrite Hr. clear Hn Hr.
  assert (Hlp : len (payload row done_) + len (payload_of row c) < 2 ^ 32).
  { subst cols. rewrite payload_app, payload_cons, !len_app in Hpay. unfold len in *. lia. }
  destruct (fixed_width (data_type c)) as [w|] eqn:Hw.
  - change (es_fixed_offset (encoder_at row H N done_ (c :: todo))) with (fixed_region_len done_).
    rewrite (encoder_fixed_column row H N' done_ c todo w cols Hw Hcols), bind_ok.
    f_equal. apply encoder_at_eq; cbn [es_buf es_fixed_offset es_variable_payload es_variable_idx].
    + done.
    + by rewrite fixed_region_len_snoc, Hw.
    + rewrite payload_snoc. unfold payload_of. by rewrite Hw, app_nil_r.
    + rewrite variable_columns_snoc, Hw. cbn. lia.
  - cbn [es_variable_payload es_variable_idx encoder_at].
    assert (Hpc : (if is_null (value_of row c) then payload row done_
        else payload row done_ ++ encode_tuple_value (value_of row c)) = payload row (done_ ++ [c])).
    { rewrite payload_snoc. unfold payload_of. rewrite Hw.
      by destruct (is_null _); rewrite ?app_nil_r. }
    rewrite Hpc, payload_snoc, len_app, !Z.mod_small by (unfold len in *; lia).
    replace (Z.max 0 (len (payload row done_) + len (payload_of row c) - len (payload row done_)))
      with (len (payload_of row c)) by (unfold len in *; lia).
    pose proof (encoder_directory_entry row H N' done_ c todo cols Hw Hcols) as Hd.
    cbv zeta in Hd. apply bind_inv in Hd as (b1 & H1 & H2). cbn [es_buf encoder_at] in H1 |- *.
    rewrite H1, bind_ok, H2, bind_ok. f_equal.
    apply encoder_at_eq; cbn [es_buf es_fixed_offset es_variable_payload es_variable_idx].
    + done.
    + rewrite fixed_region_len_snoc, Hw. cbn. lia.
    + by rewrite payload_snoc.
    + rewrite variable_columns_snoc, Hw. lia.
Qed.

Lemma encode_columns_at row H todo : forall N done_ cols,
  cols = done_ ++ todo -> (length cols <= length N * 8)%nat -> len (payload row cols) < 2 ^ 32 ->
  exists N',
    encode_columns (regions_of H N cols) row (encoder_at row H N done_ todo) (length done_) todo =
      Ok (encoder_at row H N' cols []) /\
    bitmap_after row N N' (length done_) todo.
Proof.
  induction todo as [|c todo IH]; intros N done_ cols Hcols HN Hpay.
  - exists N. cbn [encode_columns]. rewrite app_nil_r in Hcols. subst. split; [done|].
    split; [done|]. intros j. rewrite lookup_nil, andb_false_r, orb_false_r. done.
  - assert (Hi : (length done_ / 8 < length N)%nat).
    { apply Nat.Div0.div_lt_upper_bound. subst cols. rewrite length_app in HN. cbn in HN. lia. }
    destruct (encode_column_step row H N done_ c todo cols Hcols Hi Hpay) as (N1 & H1 & B1).
    destruct (IH N1 (done_ ++ [c]) cols) as (N2 & H2 & B2);
      [by rewrite <- app_assoc|by rewrite (proj1 B1)|done|].
    exists N2. cbn [encode_columns]. rewrite H1, bind_ok.
    rewrite length_app, Nat.add_1_r in H2, B2. split.
    + rewrite <- H2. unfold regions_of. by rewrite (proj1 B1).
    + by eapply bitmap_after_cons.
Qed.

Definition wf_mvcc (m : MvccMeta) : Prop := in_unsigned 64 (xmin m) /\ in_unsigned 64 (xmax m).

(** The bytes of a fixed record, its bitmap given. *)
Definition fixed_record (s : TableSchema) (m : MvccMeta) (row : RowMap) (N : list byte)
    : list byte :=
  row_header FIXED_ROW_VERSION s m (len (columns s)) ++ N ++ fixed_region row (columns s) ++
  directory_from row 0 (columns s) ++ payload row (columns s).

(** Bitmap [N] says which columns of [cols] are NULL. *)
Definition is_bitmap (row : RowMap) (cols : list ColumnSchema) (N : list byte) : Prop :=
  length N = div_ceil (length cols) 8 /\
  forall j, bitmap_get N j =
    match cols !! j with Some c => is_null (value_of row c) | None => false end.

Lemma div_ceil_8 n : (n <= div_ceil n 8 * 8)%nat.
Proof.
  unfold div_ceil. pose proof (Nat.div_mod (n + (8 - 1)) 8 ltac:(lia)).
  pose proof (Nat.mod_upper_bound (n + (8 - 1)) 8 ltac:(lia)). lia.
Qed.

Lemma div_ceil_lookup i n : (i < n)%nat -> (i / 8 < div_ceil n 8)%nat.
Proof. intros H. apply Nat.Div0.div_lt_upper_bound. pose proof (div_ceil_8 n). lia. Qed.

Lemma encode_row_shape s row m :
  len (payload row (columns s)) < 2 ^ 32 ->
  exists N, encode_row_record_with_mvcc s row m = Ok (fixed_record s m row N) /\
            is_bitmap row (columns s) N.
Proof.
  intros Hpay. unfold encode_row_record_with_mvcc. cbv zeta.
  set (H := row_header FIXED_ROW_VERSION s m (len (columns s))).
  set (N0 := replicate (div_ceil (length (columns s)) 8) x00).
  destruct (encode_columns_at row H (columns s) N0 [] (columns s)) as (N & Hc & Hl & Hb);
    [done|unfold N0; rewrite length_replicate; apply div_ceil_8|done|].
  exists N. split.
  - assert (E : regions_of H N0 (columns s) =
      {| null_bitmap_start := length H; fixed_region_start := length (H ++ N0);
         variable_directory_start :=
           length ((H ++ N0) ++ replicate (fixed_region_len (columns s)) x00) |})
      by (unfold regions_of; by rewrite !length_app, length_replicate).
    rewrite <- E.
    assert (E2 : encoder_at row H N0 [] (columns s) =
      {| es_buf := ((H ++ N0) ++ replicate (fixed_region_len (columns s)) x00) ++
                   replicate (length (variable_columns (columns s)) * 8) x00;
         es_fixed_offset := 0; es_variable_payload := []; es_variable_idx := 0 |})
      by (unfold encoder_at; cbn; by rewrite <- !app_assoc).
    rewrite <- E2. cbn [length] in Hc. rewrite Hc, bind_ok.
    cbn [es_buf es_variable_payload encoder_at]. unfold fixed_record. fold H.
    cbn. rewrite !app_nil_r, <- !app_assoc. done.
  - split; [rewrite Hl; apply length_replicate|]. intros j. rewrite Hb. unfold N0.
    by rewrite bitmap_get_zeros, Nat.sub_0_r.
Qed.

(** ** Reading the header *)

Lemma reads_header sv te m n :
  in_unsigned 32 sv -> in_unsigned 64 te -> wf_mvcc m -> in_unsigned 32 n ->
  reads read_header
    (to_be 4 sv ++ to_be 8 te ++ to_be 8 (xmin m) ++ to_be 8 (xmax m) ++ to_be 4 n)
    (sv, te, m, Z.to_nat n).
Proof.
  intros Hsv Hte [Hmin Hmax] Hn. unfold read_header.
  do 4 (eapply reads_bind; [auto with uni|]).
  eapply reads_bind_end; [by apply reads_u32|]. destruct m. apply reads_ret.
Qed.

Lemma length_row_header v s m n : length (row_header v s m n) = row_header_len.
Proof. unfold row_header. cbn [length]. rewrite !length_app, !length_to_be. done. Qed.

Lemma read_row_header v s m n rest :
  in_unsigned 32 (schema_version s) -> in_unsigned 64 (table_epoch s) -> wf_mvcc m ->
  in_unsigned 32 n ->
  let l := row_header v s m n ++ rest in
  Cursor_.u8 (Cursor_.new l) = Ok (u8_to_Z v, MkCursor l 1) /\
  read_header (MkCursor l 1) =
    Ok (schema_version s, table_epoch s, m, Z.to_nat n, MkCursor l row_header_len).
Proof.
  intros Hsv Hte Hm Hn l. split; [done|].
  rewrite (reads_header _ _ _ _ Hsv Hte Hm Hn _ rest).
  - rewrite !length_app, !length_to_be. done.
  - unfold remaining, l, row_header. cbn [bytes pos app]. by rewrite drop1_cons, <- !app_assoc.
  - unfold l. cbn [bytes pos]. rewrite length_app, length_row_header. unfold row_header_len. lia.
Qed.

(** ** Lookups in the layout *)

Lemma fixed_offsets_lookup cols : forall o j c,
  cols !! j = Some c ->
  fixed_offsets_from o cols !! j =
  Some ((fun _ => o + fixed_region_len (take j cols))%nat <$> fixed_width (data_type c)).
Proof.
  induction cols as [|c0 r IH]; intros o j c Hj; [done|].
  destruct j as [|j]; cbn [lookup list_lookup fixed_offsets_from] in *.
  - injection Hj as ->. unfold fixed_region_len; cbn [take].
    destruct (fixed_width (data_type c)); cbn; by rewrite ?Nat.add_0_r.
  - cbn [take]. rewrite fixed_region_len_cons.
    destruct (fixed_width (data_type c0)) as [w|]; cbn [lookup list_lookup from_option id];
      rewrite (IH _ j c Hj); f_equal; destruct (fixed_width (data_type c)); cbn; try done;
      f_equal; lia.
Qed.

Lemma variable_positions_lookup cols : forall p j c,
  cols !! j = Some c ->
  variable_positions_from p cols !! j =
  Some (match fixed_width (data_type c) with
        | Some _ => None
        | None => Some (p + length (variable_columns (take j cols)))%nat
        end).
Proof.
  induction cols as [|c0 r IH]; intros p j c Hj; [done|].
  destruct j as [|j]; cbn [lookup list_lookup variable_positions_from] in *.
  - injection Hj as ->. destruct (fixed_width (data_type c)); cbn; by rewrite ?Nat.add_0_r.
  - cbn [take]. rewrite variable_columns_cons.
    destruct (fixed_width (data_type c0)) as [w|]; cbn [lookup list_lookup length];
      rewrite (IH _ j c Hj); f_equal; destruct (fixed_width (data_type c)); try done; f_equal; lia.
Qed.

Lemma variable_positions_count cols : forall p,
  length (filter (fun p => p <> None) (variable_positions_from p cols)) =
  length (variable_columns cols).
Proof.
  induction cols as [|c r IH]; intros p; [done|].
  rewrite variable_columns_cons. cbn [variable_positions_from].
  destruct (fixed_width (data_type c)); rewrite filter_cons; case_decide; try done; cbn [length];
    by rewrite IH.
Qed.

(** ** Decoding what the encoder wrote *)

(** A column's value: well formed, and of the column's type where it has a fixed
    slot (the slot stores no tag). *)
Definition column_typed (row : RowMap) (c : ColumnSchema) : Prop :=
  wf_value (value_of row c) /\
  match fixed_width (data_type c) with
  | Some _ => is_null (value_of row c) = true \/ fixed_typed (data_type c) (value_of row c) = true
  | None => True
  end.

Definition wf_header (s : TableSchema) (m : MvccMeta) : Prop :=
  in_unsigned 32 (schema_version s) /\ in_unsigned 64 (table_epoch s) /\ wf_mvcc m /\
  len (columns s) < 2 ^ 32.

(** What a row must satisfy to be stored: typed columns and a payload that the
    [u32] offsets of the directory can address. *)
Definition storable (s : TableSchema) (row : RowMap) : Prop :=
  Forall (column_typed row) (columns s) /\ len (payload row (columns s)) < 2 ^ 32.

Definition layout_of (s : TableSchema) : FixedRowLayout :=
  let cols := columns s in
  let fixed_start := (row_header_len + div_ceil (length cols) 8)%nat in
  let directory_start := (fixed_start + fixed_region_len cols)%nat in
  {| stored_column_count := length cols;
     fl_null_bitmap_start := row_header_len;
     fl_fixed_region_start := fixed_start;
     fl_variable_directory_start := directory_start;
     variable_payload_start := (directory_start + length (variable_columns cols) * 8)%nat;
     fl_fixed_offsets := fixed_offsets_for_columns cols;
     variable_positions := variable_positions_for_columns cols |}.

Lemma fixed_record_layout s s' extra row m N :
  columns s' = columns s ++ extra -> wf_header s m -> is_bitmap row (columns s) N ->
  fixed_row_layout s' (fixed_record s m row N) = Ok (layout_of s).
Proof.
  intros Hs' (Hsv & Hte & Hm & Hn) [HN _]. unfold fixed_row_layout.
  destruct (read_row_header FIXED_ROW_VERSION s m (len (columns s))
    (N ++ fixed_region row (columns s) ++ directory_from row 0 (columns s) ++
     payload row (columns s))) as [Hu Hh]; [done|done|done|by apply in_unsigned_len|].
  fold (fixed_record s m row N) in Hu, Hh.
  rewrite Hu, bind_ok, Hh. unfold len. rewrite Nat2Z.id, bind_ok, Hs', length_app.
  rewrite take_app_length. cbn [Z.eqb negb pos].
  change (negb (u8_to_Z FIXED_ROW_VERSION =? u8_to_Z FIXED_ROW_VERSION)) with false. cbv iota.
  destruct (Nat.ltb_spec (length (columns s) + length extra) (length (columns s))); [lia|].
  unfold variable_positions_for_columns. rewrite variable_positions_count.
  destruct (Nat.ltb_spec (length (fixed_record s m row N))
    (row_header_len + div_ceil (length (columns s)) 8 + fixed_region_len (columns s) +
     length (variable_columns (columns s)) * 8)) as [Hlt|_]; [exfalso|done].
  revert Hlt. unfold fixed_record.
  rewrite !length_app, length_row_header, length_fixed_region, length_directory, HN. lia.
Qed.

Lemma take_drop_columns (cols : list ColumnSchema) j c :
  cols !! j = Some c -> cols = take j cols ++ c :: drop (S j) cols.
Proof. intros H. symmetry. by apply take_drop_middle. Qed.

Lemma slice_at p x r a b : a = length p -> b = (a + length x)%nat -> slice (p ++ x ++ r) a b = x.
Proof. intros -> ->. apply slice_app. Qed.

Lemma fixed_record_null s row m N j c :
  is_bitmap row (columns s) N -> columns s !! j = Some c ->
  fixed_row_is_null (fixed_record s m row N) (layout_of s) j = Ok (is_null (value_of row c)).
Proof.
  intros [HN Hb] Hj. unfold fixed_row_is_null. cbn [stored_column_count layout_of].
  pose proof (lookup_lt_Some _ _ _ Hj) as Hlt.
  destruct (Nat.leb_spec (length (columns s)) j); [lia|]. cbn [fl_null_bitmap_start layout_of].
  pose proof (div_ceil_lookup j _ Hlt) as Hd. rewrite <- HN in Hd.
  unfold fixed_record.
  rewrite lookup_app_r by (rewrite length_row_header; lia). rewrite length_row_header.
  replace (row_header_len + j / 8 - row_header_len)%nat with (j / 8)%nat by lia.
  rewrite lookup_app_l by done. destruct (lookup_lt_is_Some_2 N (j / 8) Hd) as [b Eb].
  rewrite Eb. cbn [ok_or]. rewrite bind_ok, bit_is_set_testbit. f_equal.
  specialize (Hb j). unfold bitmap_get in Hb. by rewrite Eb, Hj in Hb.
Qed.

(** The fixed slot of column [j], where the layout says it is. *)
Lemma fixed_record_slot s row m N j c w :
  is_bitmap row (columns s) N -> columns s !! j = Some c -> fixed_width (data_type c) = Some w ->
  let start := (fl_fixed_region_start (layout_of s) + fixed_region_len (take j (columns s)))%nat in
  (start + w <= length (fixed_record s m row N))%nat /\
  slice (fixed_record s m row N) start (start + w) = slot_of row c.
Proof.
  intros [HN _] Hj Hw start. pose proof (take_drop_columns _ _ _ Hj) as Hcols.
  assert (Hrec : fixed_record s m row N =
    (row_header FIXED_ROW_VERSION s m (len (columns s)) ++ N ++
     fixed_region row (take j (columns s))) ++ slot_of row c ++
    (fixed_region row (drop (S j) (columns s)) ++ directory_from row 0 (columns s) ++
     payload row (columns s))).
  { unfold fixed_record. rewrite Hcols at 2. rewrite fixed_region_app.
    change (fixed_region row (c :: drop (S j) (columns s)))
      with (slot_of row c ++ fixed_region row (drop (S j) (columns s))).
    by rewrite <- !app_assoc. }
  assert (Hst : start = length (row_header FIXED_ROW_VERSION s m (len (columns s)) ++ N ++
     fixed_region row (take j (columns s)))).
  { unfold start. rewrite !length_app, length_row_header, length_fixed_region, HN. cbn. lia. }
  assert (Hl : length (slot_of row c) = w) by (by rewrite length_slot_of, Hw).
  rewrite Hrec. split.
  - rewrite !length_app, Hl, Hst, !length_app. lia.
  - apply slice_at; [done|by rewrite Hl].
Qed.

(** The directory entry of variable column [j] and the payload it points at. *)
Lemma fixed_record_entry s row m N j c :
  is_bitmap row (columns s) N -> columns s !! j = Some c -> fixed_width (data_type c) = None ->
  len (payload row (columns s)) < 2 ^ 32 ->
  let l := fixed_record s m row N in
  let entry := (fl_variable_directory_start (layout_of s) +
                length (variable_columns (take j (columns s))) * 8)%nat in
  let start := (variable_payload_start (layout_of s) + length (payload row (take j (columns s))))%nat in
  (entry + 8 <= length l)%nat /\
  from_be (slice l entry (entry + 4)) = len (payload row (take j (columns s))) /\
  from_be (slice l (entry + 4) (entry + 8)) = len (payload_of row c) /\
  (start + length (payload_of row c) <= length l)%nat /\
  slice l start (start + length (payload_of row c)) = payload_of row c.
Proof.
  intros [HN _] Hj Hw Hpay l entry start. pose proof (take_drop_columns _ _ _ Hj) as Hcols.
  set (A := take j (columns s)) in *. set (B := drop (S j) (columns s)) in *.
  set (Hd := row_header FIXED_ROW_VERSION s m (len (columns s)) ++ N ++ fixed_region row (columns s)).
  assert (HlH : length Hd = fl_variable_directory_start (layout_of s)).
  { unfold Hd. rewrite !length_app, length_row_header, length_fixed_region, HN. cbn. lia. }
  assert (Hp : payload row (columns s) = payload row A ++ payload_of row c ++ payload row B).
  { rewrite Hcols at 1. by rewrite payload_app, payload_cons. }
  assert (Hdir : directory_from row 0 (columns s) =
    directory_from row 0 A ++ to_be 4 (len (payload row A)) ++ to_be 4 (len (payload_of row c)) ++
    directory_from row (len (payload row A) + len (payload_of row c)) B).
  { rewrite Hcols at 1. rewrite directory_from_app. cbn [directory_from]. by rewrite Hw. }
  rewrite Hp, !len_app in Hpay.
  assert (HlD : length (directory_from row 0 (columns s)) = (length (variable_columns (columns s)) * 8)%nat)
    by apply length_directory.
  assert (He1 : l = (Hd ++ directory_from row 0 A) ++ to_be 4 (len (payload row A)) ++
    (to_be 4 (len (payload_of row c)) ++
     directory_from row (len (payload row A) + len (payload_of row c)) B ++
     payload row (columns s))).
  { unfold l, fixed_record, Hd. rewrite Hdir. by rewrite <- !app_assoc. }
  assert (He2 : l = (Hd ++ directory_from row 0 A ++ to_be 4 (len (payload row A))) ++
    to_be 4 (len (payload_of row c)) ++
    (directory_from row (len (payload row A) + len (payload_of row c)) B ++
     payload row (columns s))) by (rewrite He1; by rewrite <- !app_assoc).
  assert (He3 : l = (Hd ++ directory_from row 0 (columns s) ++ payload row A) ++
    payload_of row c ++ payload row B).
  { unfold l, fixed_record, Hd. rewrite Hp. by rewrite <- !app_assoc. }
  assert (Hentry : entry = length (Hd ++ directory_from row 0 A))
    by (unfold entry; rewrite length_app, HlH, length_directory; done).
  assert (Hstart : start = length (Hd ++ directory_from row 0 (columns s) ++ payload row A))
    by (unfold start; rewrite !length_app, HlH, HlD; cbn; lia).
  repeat split.
  - rewrite He1, !length_app, !length_to_be, Hentry, length_app. lia.
  - rewrite He1 at 1. rewrite slice_at; [|done|by rewrite length_to_be].
    apply u32_from_be_to_be. unfold in_unsigned, len in *. lia.
  - rewrite He2 at 1. rewrite slice_at.
    + apply u32_from_be_to_be. unfold in_unsigned, len in *. lia.
    + by rewrite app_assoc, (length_app (Hd ++ _)), length_to_be, Hentry.
    + rewrite length_to_be. lia.
  - rewrite He3, !length_app, Hstart, !length_app. lia.
  - rewrite He3. by apply slice_at.
Qed.

(** The guards before the slices: with them no slice is out of range. *)
Lemma decode_slot_eq {A} (m : reader A) msg l s e :
  (s <= e <= length l)%nat ->
  decode_slot m msg l s e = run_reader (a ← m; expect_done msg a) (slice l s e).
Proof. intros Hs. unfold decode_slot. by rewrite sub_slice_ok, bind_ok by lia. Qed.

Lemma fast_row_directory_entry_eq l directory_start i p :
  fast_row_directory_entry l directory_start i p =
  let start := (directory_start + i * 12)%nat in
  if (length l <? start + 12)%nat
  then user_error "XX000" "truncated fast row directory entry"
  else
    let value_start := (p + Z.to_nat (from_be (slice l (start + 4) (start + 8))))%nat in
    let value_end := (value_start + Z.to_nat (from_be (slice l (start + 8) (start + 12))))%nat in
    if (length l <? value_end)%nat
    then user_error "XX000" "truncated fast row payload"
    else Ok (from_be (slice l start (start + 4)), value_start, value_end).
Proof.
  unfold fast_row_directory_entry. cbv zeta. set (start := (directory_start + i * 12)%nat).
  destruct (Nat.ltb_spec (length l) (start + 12)); [done|].
  by rewrite !sub_slice_ok, !bind_ok by lia.
Qed.

Lemma directory_entry_spec l d i p id s e :
  fast_row_directory_entry l d i p = Ok (id, s, e) -> 0 <= id /\ (s <= e <= length l)%nat.
Proof.
  rewrite fast_row_directory_entry_eq. cbv zeta. destruct (_ <? _)%nat; [discriminate|].
  match goal with |- context [if (_ <? ?x)%nat then _ else _] =>
    destruct (Nat.ltb_spec (length l) x); [discriminate|] end.
  intros [= <- <- <-]. split; [apply from_be_range|lia].
Qed.

Lemma decode_slot_reads {A} (m : reader A) msg l s e x a :
  reads m x a -> slice l s e = x -> (s <= e <= length l)%nat -> decode_slot m msg l s e = Ok a.
Proof.
  intros Hm Hs Hle. rewrite decode_slot_eq by done. unfold run_reader. rewrite Hs.
  rewrite (reader_bind_ok _ _ _ _ _ (reads_all m x a Hm)).
  unfold expect_done. by rewrite is_done_end, bind_ok.
Qed.

Lemma decode_stored_column s s' extra row m N j c :
  columns s' = columns s ++ extra -> is_bitmap row (columns s) N -> storable s row ->
  columns s !! j = Some c ->
  decode_fixed_row_column s' (fixed_record s m row N) (layout_of s) j = Ok (value_of row c).
Proof.
  intros Hs' HN [Hty Hpay] Hj. pose proof (lookup_lt_Some _ _ _ Hj) as Hlt.
  unfold decode_fixed_row_column. rewrite Hs', lookup_app_l, Hj by done. cbn [ok_or]. rewrite bind_ok.
  destruct (Nat.leb_spec (stored_column_count (layout_of s)) j) as [Hle|_]; [cbn in Hle; lia|].
  rewrite (fixed_record_null s row m N j c) by done. rewrite bind_ok.
  assert (Hc : column_typed row c) by (rewrite Forall_lookup in Hty; by eapply Hty).
  destruct Hc as [Hwf Hc].
  destruct (is_null (value_of row c)) eqn:En; [by destruct (value_of row c)|].
  cbn [fl_fixed_offsets layout_of]. unfold fixed_offsets_for_columns.
  rewrite (fixed_offsets_lookup _ _ _ _ Hj).
  destruct (fixed_width (data_type c)) as [w|] eqn:Hw; cbn [fmap option_fmap option_map from_option id].
  - rewrite Nat.add_0_l.
    destruct (fixed_record_slot s row m N j c w HN Hj Hw) as [Hl Hs]. cbv zeta in Hl, Hs.
    destruct (Nat.ltb_spec (length (fixed_record s m row N))
      (fl_fixed_region_start (layout_of s) + fixed_region_len (take j (columns s)) + w)); [lia|].
    rewrite sub_slice_ok, bind_ok by lia. rewrite Hs. unfold slot_of. rewrite Hw, En. destruct Hc as [Hc|Hc]; [done|].
    by apply fixed_value_roundtrip.
  - unfold decode_variable_column. cbn [variable_positions layout_of].
    unfold variable_positions_for_columns. rewrite (variable_positions_lookup _ _ _ _ Hj), Hw.
    cbn [from_option id ok_or]. rewrite bind_ok, Nat.add_0_l.
    destruct (fixed_record_entry s row m N j c HN Hj Hw Hpay) as (Hl & Ho & Hn & Hv & Hs).
    cbv zeta in *. set (entry := (fl_variable_directory_start (layout_of s) + _)%nat) in *.
    destruct (Nat.ltb_spec (length (fixed_record s m row N)) (entry + 8)); [lia|].
    rewrite !sub_slice_ok, !bind_ok by lia. cbv zeta. rewrite Ho, Hn. unfold len. rewrite !Nat2Z.id.
    destruct (Nat.ltb_spec (length (fixed_record s m row N))
      (variable_payload_start (layout_of s) + length (payload row (take j (columns s))) +
       length (payload_of row c))); [lia|].
    eapply decode_slot_reads; [|exact Hs|lia]. unfold payload_of. rewrite Hw, En.
    by apply reads_tuple_value.
Qed.

Lemma decode_added_column s s' extra row m N j c :
  columns s' = columns s ++ extra -> (length (columns s) <= j)%nat -> columns s' !! j = Some c ->
  decode_fixed_row_column s' (fixed_record s m row N) (layout_of s) j = Ok Null.
Proof.
  intros Hs' Hle Hj. unfold decode_fixed_row_column. rewrite Hj. cbn [ok_or]. rewrite bind_ok.
  cbn [stored_column_count layout_of]. by destruct (Nat.leb_spec (length (columns s)) j); [|lia].
Qed.

(** ** Rows built column by column *)

Lemma fold_m_ok {E A B} (f : B -> A -> result E B) (g : B -> A -> B) l acc :
  (forall acc a, a ∈ l -> f acc a = Ok (g acc a)) -> fold_m f acc l = Ok (foldl g acc l).
Proof.
  revert acc. induction l as [|a l IH]; intros acc H; cbn; [done|].
  rewrite H by set_solver. cbn. apply IH. intros. apply H. set_solver.
Qed.

(** The row with value [f i c] for the [i]-th column [c]. *)
Definition row_from (f : nat -> ColumnSchema -> ColumnValue) (cols : list ColumnSchema) : RowMap :=
  foldl (fun row ic => <[col_name ic.2 := f ic.1 ic.2]> row) ∅ (imap pair cols).

Lemma elem_of_imap_pair (cols : list ColumnSchema) ic :
  ic ∈ imap pair cols <-> cols !! ic.1 = Some ic.2.
Proof.
  rewrite list_elem_of_lookup. destruct ic as [i c]. cbn. split.
  - intros [k Hk]. rewrite list_lookup_imap in Hk. destruct (cols !! k) eqn:E; [|done].
    by injection Hk as <- <-.
  - intros H. exists i. by rewrite list_lookup_imap, H.
Qed.

Lemma foldl_insert_lookup (f : nat -> ColumnSchema -> ColumnValue) (l : list (nat * ColumnSchema)) :
  forall (row : RowMap) i c, NoDup (map (fun ic => col_name ic.2) l) -> (i, c) ∈ l ->
  foldl (fun row ic => <[col_name ic.2 := f ic.1 ic.2]> row) row l !! col_name c = Some (f i c).
Proof.
  induction l as [|ic l IH] using rev_ind; intros row i c Hnd Hin; [by apply elem_of_nil in Hin|].
  rewrite map_app in Hnd. apply NoDup_app in Hnd as (Hnd & Hdis & _).
  rewrite foldl_app. cbn. apply elem_of_app in Hin as [Hin|Hin].
  - rewrite lookup_insert_ne; [by apply IH|]. intros Heq.
    apply (Hdis (col_name c)); [|rewrite <- Heq; set_solver].
    apply list_elem_of_fmap. by exists (i, c).
  - apply list_elem_of_singleton in Hin as <-. by rewrite lookup_insert_eq.
Qed.

Lemma row_from_lookup f cols i c :
  NoDup (map col_name cols) -> cols !! i = Some c -> row_from f cols !! col_name c = Some (f i c).
Proof.
  intros Hnd Hi. apply foldl_insert_lookup; [|by apply elem_of_imap_pair].
  replace (map _ (imap pair cols)) with (map col_name cols); [done|].
  apply list_eq. intros k. rewrite !list_lookup_fmap, list_lookup_imap. by destruct (cols !! k).
Qed.

Lemma fold_columns_row_from (step : nat -> ColumnSchema -> PgWireResult ColumnValue) f cols :
  (forall i c, cols !! i = Some c -> step i c = Ok (f i c)) ->
  fold_columns (fun row i c => value ← step i c; Ok (<[col_name c := value]> row)) cols =
  Ok (row_from f cols).
Proof.
  intros H. apply fold_m_ok. intros row [i c] Hin. apply elem_of_imap_pair in Hin.
  cbn in *. by rewrite (H i c Hin).
Qed.

(** What a reader with schema [s'] sees of a row stored with schema [s]: the
    stored columns, and NULL for columns added later. *)
Definition seen_through (s : TableSchema) (row : RowMap) (i : nat) (c : ColumnSchema) : ColumnValue :=
  if (i <? length (columns s))%nat then value_of row c else Null.

Lemma decode_encoded_row s s' extra row m bytes :
  columns s' = columns s ++ extra -> wf_header s m -> storable s row ->
  encode_row_record_with_mvcc s row m = Ok bytes ->
  decode_row_record s' bytes = Ok (row_from (seen_through s row) (columns s')).
Proof.
  intros Hs' Hh Hst He. destruct (encode_row_shape s row m (proj2 Hst)) as (N & Hb & HN).
  rewrite Hb in He. injection He as <-. unfold decode_row_record.
  change (first_is FIXED_ROW_VERSION (fixed_record s m row N)) with true. cbv iota.
  unfold decode_fixed_row_record. rewrite (fixed_record_layout s s' extra) by done.
  rewrite bind_ok. apply fold_columns_row_from. intros i c Hi. unfold seen_through.
  destruct (Nat.ltb_spec i (length (columns s))) as [Hlt|Hge].
  - rewrite Hs', lookup_app_l in Hi by done. by apply (decode_stored_column s s' extra).
  - by apply (decode_added_column s s' extra _ _ _ _ c).
Qed.

(** ** Simulations between loops *)

Lemma fold_m_sim {E A B1 B2} (R : B1 -> B2 -> Prop) (f1 : B1 -> A -> result E B1)
    (f2 : B2 -> A -> result E B2) l :
  (forall a b1 b2 b1', R b1 b2 -> f1 b1 a = Ok b1' -> exists b2', f2 b2 a = Ok b2' /\ R b1' b2') ->
  forall b1 b2 b1', R b1 b2 -> fold_m f1 b1 l = Ok b1' ->
  exists b2', fold_m f2 b2 l = Ok b2' /\ R b1' b2'.
Proof.
  intros Hstep. induction l as [|a l IH]; cbn; intros b1 b2 b1' HR Hf.
  - injection Hf as <-. eauto.
  - apply bind_inv in Hf as (b & Ha & Hf).
    destruct (Hstep a b1 b2 b HR Ha) as (b' & -> & HR'). rewrite bind_ok. eauto.
Qed.

Lemma read_entries_sim {B1 B2} (R : B1 -> B2 -> Prop) (f1 : B1 -> reader B1)
    (f2 : B2 -> reader B2) n :
  (forall b1 b2 c b1' c', R b1 b2 -> f1 b1 c = Ok (b1', c') ->
     exists b2', f2 b2 c = Ok (b2', c') /\ R b1' b2') ->
  forall b1 b2 c b1' c', R b1 b2 -> read_entries f1 n b1 c = Ok (b1', c') ->
  exists b2', read_entries f2 n b2 c = Ok (b2', c') /\ R b1' b2'.
Proof.
  intros Hstep. induction n as [|n IH]; cbn [read_entries]; intros b1 b2 c b1' c' HR Hf.
  - injection Hf as <- <-. by exists b2.
  - apply reader_bind_inv in Hf as (b & c1 & Ha & Hf).
    destruct (Hstep _ _ _ _ _ HR Ha) as (b' & Hb & HR').
    destruct (IH _ b' _ _ _ HR' Hf) as (b2' & H2 & ?). exists b2'.
    by rewrite (reader_bind_ok _ _ _ _ _ Hb).
Qed.

(** ** The output table of the projectors *)

Section OutputTable.
Context (s : TableSchema).
Context (Hids : NoDup (map column_id (columns s))).
Context (Hpos : Forall (fun c => in_unsigned 32 (column_id c)) (columns s)).

Lemma column_id_inj i j c d :
  columns s !! i = Some c -> columns s !! j = Some d ->
  Z.to_nat (column_id c) = Z.to_nat (column_id d) -> i = j.
Proof.
  intros Hi Hj Heq. rewrite Forall_lookup in Hpos.
  pose proof (Hpos i c Hi) as [? _]. pose proof (Hpos j d Hj) as [? _].
  eapply (NoDup_lookup (map column_id (columns s)) i j (column_id c)); [done|..];
    rewrite list_lookup_fmap, ?Hi, ?Hj; cbn; [done|]. f_equal. lia.
Qed.

Lemma imap_pair_snoc {A} (l : list A) x : imap pair (l ++ [x]) = imap pair l ++ [(length l, x)].
Proof. rewrite imap_app. cbn. by rewrite Nat.add_0_r. Qed.

Lemma default_lookup_resize (t : list (option nat)) n k :
  (length t <= n)%nat -> default None (resize n None t !! k) = default None (t !! k).
Proof.
  intros Hl. destruct (decide (k < length t)%nat).
  - by rewrite lookup_resize by lia.
  - rewrite (lookup_ge_None_2 t) by lia. destruct (decide (k < n)%nat).
    + by rewrite lookup_resize_new by lia.
    + by rewrite lookup_resize_old by lia.
Qed.

Lemma output_table_spec idxs : NoDup idxs -> forall k o,
  default None (column_output_table s idxs !! k) = Some o <->
  exists ci c, idxs !! o = Some ci /\ columns s !! ci = Some c /\ Z.to_nat (column_id c) = k.
Proof.
  unfold column_output_table. induction idxs as [|x idxs IH] using rev_ind; intros Hnd k o.
  - cbn [imap foldl]. split.
    + destruct (replicate _ _ !! k) eqn:E; [|done]. by apply lookup_replicate in E as [-> _].
    + intros (ci & c & H & _). by rewrite lookup_nil in H.
  - apply NoDup_app in Hnd as (Hnd & Hdis & _). rewrite imap_pair_snoc, foldl_app. cbn [foldl snd fst].
    specialize (IH Hnd). set (T := foldl _ _ (imap pair idxs)) in *.
    destruct (columns s !! x) as [c|] eqn:Ex.
    + set (id := Z.to_nat (column_id c)).
      set (T' := if (length T <=? id)%nat then resize (S id) None T else T).
      assert (HT' : (id < length T')%nat /\ forall k, default None (T' !! k) = default None (T !! k)).
      { unfold T'. destruct (Nat.leb_spec (length T) id).
        - rewrite length_resize. split; [lia|]. intros j. apply default_lookup_resize. lia.
        - done. }
      destruct HT' as [Hlen HT']. destruct (decide (k = id)) as [->|Hne].
      * rewrite list_lookup_insert_eq by done. cbn [from_option id]. split.
        -- intros [= <-]. exists x, c. split; [|done]. by apply list_lookup_middle.
        -- intros (ci & d & Ho & Hci & Hd). f_equal.
           assert (ci = x) as -> by (by eapply column_id_inj).
           apply lookup_snoc_Some in Ho as [[Hlt Ho]|[-> _]]; [|done].
           exfalso. apply (Hdis x); [by eapply list_elem_of_lookup_2|set_solver].
      * rewrite list_lookup_insert_ne by done. rewrite HT', IH. split.
        -- intros (ci & d & Ho & Hci & Hd). exists ci, d. split; [|done].
           rewrite lookup_app_l; [done|by eapply lookup_lt_Some].
        -- intros (ci & d & Ho & Hci & Hd). exists ci, d. split; [|done].
           apply lookup_snoc_Some in Ho as [[Hlt Ho]|[-> <-]]; [done|].
           rewrite Ex in Hci. injection Hci as <-. done.
    + rewrite IH. split; intros (ci & d & Ho & Hci & Hd); exists ci, d; (split; [|done]).
      * rewrite lookup_app_l; [done|by eapply lookup_lt_Some].
      * apply lookup_snoc_Some in Ho as [[Hlt Ho]|[-> <-]]; [done|congruence].
Qed.
End OutputTable.

(** ** Projected decoding *)

(** The value column [i] has in a decoded row. *)
Definition column_value (s : TableSchema) (row : RowMap) (i : nat) : ColumnValue :=
  match columns s !! i with Some c => row_get row (col_name c) | None => Null end.

(** A projection the planner can ask for: distinct columns of the schema. *)
Definition wf_projection (s : TableSchema) (idxs : list nat) : Prop :=
  NoDup idxs /\ Forall (fun i => i < length (columns s))%nat idxs.

Definition wf_ids (s : TableSchema) : Prop :=
  schema_unique s /\ Forall (fun c => in_unsigned 32 (column_id c)) (columns s).

Lemma row_of_record_row_from s record :
  row_of_record s record =
  row_from (fun _ c => default Null (rr_values record !! column_id c)) (columns s).
Proof.
  unfold row_of_record, row_from.
  assert (H : forall cols (k : nat -> nat) (row : RowMap),
    foldl (fun row column => <[col_name column := default Null (rr_values record !! column_id column)]> row)
      row cols =
    foldl (fun row ic => <[col_name ic.2 := default Null (rr_values record !! column_id ic.2)]> row)
      row (imap (fun i c => (k i, c)) cols)).
  { induction cols as [|c cols IH]; intros k row; cbn; [done|]. apply (IH (fun i => k (S i))). }
  apply (H _ (fun i => i)).
Qed.

Lemma row_of_record_lookup s record i c :
  schema_unique s -> columns s !! i = Some c ->
  row_of_record s record !! col_name c = Some (default Null (rr_values record !! column_id c)).
Proof.
  intros [Hn _] Hi. rewrite row_of_record_row_from.
  by rewrite (row_from_lookup _ _ i).
Qed.

Lemma length_reset_values n values : length (reset_values n values) = n.
Proof.
  unfold reset_values. destruct (Nat.eqb_spec (length values) n) as [<-|_];
    rewrite ?length_map, ?length_replicate; done.
Qed.

Lemma reset_values_eq n values : reset_values n values = replicate n Null.
Proof.
  unfold reset_values. destruct (Nat.eqb_spec (length values) n) as [<-|_]; [|done].
  apply list_eq. intros i. destruct (decide (i < length values)%nat) as [Hlt|Hge].
  - rewrite list_lookup_fmap, lookup_replicate_2 by done.
    by destruct (lookup_lt_is_Some_2 values i Hlt) as [? ->].
  - rewrite !lookup_ge_None_2; rewrite ?length_replicate, ?length_map; (done || lia).
Qed.

(** The values vector and the column map of the raw decoders, entry by entry. *)
Definition values_match (s : TableSchema) (idxs : list nat)
    (m : gmap Z ColumnValue) (values : list ColumnValue) : Prop :=
  length values = length idxs /\
  forall o ci c, idxs !! o = Some ci -> columns s !! ci = Some c ->
    values !! o = Some (default Null (m !! column_id c)).

Lemma values_match_init s idxs : values_match s idxs ∅ (replicate (length idxs) Null).
Proof.
  split; [apply length_replicate|]. intros o ci c Ho _. rewrite lookup_empty.
  apply lookup_replicate_2. by eapply lookup_lt_Some.
Qed.

Lemma values_match_final s idxs record values :
  schema_unique s -> wf_projection s idxs ->
  values_match s idxs (rr_values record) values ->
  values = map (column_value s (row_of_record s record)) idxs.
Proof.
  intros Hu [_ Hin] [Hl Hv]. apply list_eq. intros o. rewrite list_lookup_fmap.
  destruct (idxs !! o) as [ci|] eqn:Eo; cbn.
  - rewrite Forall_lookup in Hin. destruct (lookup_lt_is_Some_2 _ _ (Hin o ci Eo)) as [c Ec].
    rewrite (Hv o ci c Eo Ec). unfold column_value. rewrite Ec. unfold row_get.
    by rewrite (row_of_record_lookup s record ci c).
  - apply lookup_ge_None_2. rewrite Hl. by apply lookup_ge_None_1.
Qed.

Lemma set_index_lt {A} (l : list A) i v : (i < length l)%nat -> set_index l i v = Ok (<[i := v]> l).
Proof. intros H. unfold set_index. by destruct (Nat.ltb_spec i (length l)); [|lia]. Qed.

(** An entry with a wanted id lands in its slot, any other leaves the vector. *)
Lemma values_match_insert s idxs m values id v :
  wf_ids s -> wf_projection s idxs -> 0 <= id -> values_match s idxs m values ->
  match output_slot (column_output_table s idxs) id with
  | Some o => set_index values o v = Ok (<[o := v]> values) /\
              values_match s idxs (<[id := v]> m) (<[o := v]> values)
  | None => values_match s idxs (<[id := v]> m) values
  end.
Proof.
  intros [[_ Hu] Hp] [Hnd _] Hid [Hl Hv]. unfold output_slot.
  pose proof (output_table_spec s Hu Hp idxs Hnd (Z.to_nat id)) as Hspec.
  destruct (default None (column_output_table s idxs !! Z.to_nat id)) as [o|].
  - destruct (proj1 (Hspec o) eq_refl) as (ci & c & Ho & Hc & Hcid).
    pose proof (lookup_lt_Some _ _ _ Ho) as Hlt. rewrite <- Hl in Hlt.
    assert (Hci : column_id c = id).
    { rewrite Forall_lookup in Hp. pose proof (Hp ci c Hc) as [? _]. lia. }
    split; [by apply set_index_lt|]. split; [by rewrite length_insert|].
    intros o' ci' c' Ho' Hc'. destruct (decide (o' = o)) as [->|Hne].
    + rewrite Ho in Ho'. injection Ho' as <-. rewrite Hc in Hc'. injection Hc' as <-.
      by rewrite list_lookup_insert_eq, Hci, lookup_insert_eq by done.
    + rewrite list_lookup_insert_ne by done. rewrite (Hv o' ci' c' Ho' Hc').
      rewrite lookup_insert_ne; [done|]. intros ->. apply Hne.
      assert (ci' = ci) as -> by (eapply column_id_inj; [exact Hu|exact Hp|done|done|congruence]).
      by eapply (NoDup_lookup idxs).
  - split; [done|]. intros o ci c Ho Hc. rewrite (Hv o ci c Ho Hc).
    rewrite lookup_insert_ne; [done|]. intros ->.
    pose proof (proj2 (Hspec o) (ex_intro _ ci (ex_intro _ c (conj Ho (conj Hc eq_refl))))).
    done.
Qed.

Lemma be_int_nonneg n what c z c' : Cursor_.be_int n what c = Ok (z, c') -> 0 <= z.
Proof.
  rewrite be_int_eq. destruct (_ <? _)%nat; [discriminate|]. intros [= <- _].
  apply from_be_range.
Qed.

(** A loop over the directory that only keeps wanted entries follows the one
    that keeps them all. *)
Lemma fold_directory_sim {B1 B2} (R : B1 -> B2 -> Prop) l h
    (f1 : B1 -> Z -> nat -> nat -> PgWireResult B1) (f2 : B2 -> Z -> nat -> nat -> PgWireResult B2) :
  (forall id s e b1 b2 b1', 0 <= id -> R b1 b2 -> f1 b1 id s e = Ok b1' ->
     exists b2', f2 b2 id s e = Ok b2' /\ R b1' b2') ->
  forall b1 b2 b1', R b1 b2 -> fold_directory l h f1 b1 = Ok b1' ->
  exists b2', fold_directory l h f2 b2 = Ok b2' /\ R b1' b2'.
Proof.
  intros Hstep. apply fold_m_sim. intros i b1 b2 b1' HR H.
  apply bind_inv in H as ([[id s] e] & He & H). rewrite He, bind_ok.
  eapply Hstep; [by eapply directory_entry_spec|done..].
Qed.

(** One entry of a tagged record, kept in a map and in a projection. *)
Lemma tagged_entry_step s idxs m1 vals c m1' c' :
  wf_ids s -> wf_projection s idxs -> values_match s idxs m1 vals ->
  (column_id ← Cursor_.u32;
   value ← decode_tuple_value;
   mret (<[column_id := value]> m1) : reader (gmap Z ColumnValue)) c = Ok (m1', c') ->
  exists vals', (column_id ← Cursor_.u32;
     match rp_output_idx (new_row_value_projector s idxs) column_id with
     | Some o => value ← decode_tuple_value; lift (set_index vals o value)
     | None => _ ← skip_tuple_value; mret vals
     end : reader (list ColumnValue)) c = Ok (vals', c') /\ values_match s idxs m1' vals'.
Proof.
  intros Hs Hp HR Hd.
  apply reader_bind_inv in Hd as (id & d1 & Hid & Hd).
  apply reader_bind_inv in Hd as (v & d2 & Hv & [= <- <-]).
  rewrite (reader_bind_ok _ _ _ _ _ Hid). apply be_int_nonneg in Hid.
  pose proof (values_match_insert s idxs m1 vals id v Hs Hp Hid HR) as Hm.
  unfold rp_output_idx. cbn [rp_column_id_to_output new_row_value_projector].
  destruct (output_slot _ id) as [o|].
  - destruct Hm as [Hset Hm]. exists (<[o := v]> vals). split; [|done].
    rewrite (reader_bind_ok _ _ _ _ _ Hv). unfold lift. by rewrite Hset.
  - exists vals. split; [|done]. by rewrite (reader_bind_ok _ _ _ _ _ (skip_follows_decode _ _ _ Hv)).
Qed.

Lemma tagged_projected_values s idxs c record c' :
  wf_ids s -> wf_projection s idxs -> read_tagged_record c = Ok (record, c') ->
  exists values, values_match s idxs (rr_values record) values /\
    (header ← read_header;
     let '(_, _, _, count) := header in
     values ← read_wanted_entries (rp_output_idx (new_row_value_projector s idxs))
                decode_tuple_value count (replicate (length idxs) Null);
     expect_done trailing_v2 values) c = Ok (values, c').
Proof.
  intros Hs Hp H. unfold read_tagged_record in H.
  apply reader_bind_inv in H as ([[[sv te] m] n] & c1 & Hh & H).
  apply reader_bind_inv in H as (vs & c2 & Hr & H).
  eapply (read_entries_sim (values_match s idxs)) in Hr as (values & Hv & HR);
    [|intros; by eapply tagged_entry_step|apply values_match_init].
  exists values. unfold expect_done in H. destruct (Cursor_.is_done c2) eqn:Ed; [|discriminate].
  injection H as <- <-. split; [exact HR|].
  rewrite (reader_bind_ok _ _ _ _ _ Hh). unfold read_wanted_entries.
  rewrite (reader_bind_ok _ _ _ _ _ Hv). unfold expect_done. by rewrite Ed.
Qed.

(** One directory entry, kept in a map and in a projection. *)
Lemma fast_entry_step s idxs l id st e m1 vals m1' :
  wf_ids s -> wf_projection s idxs -> 0 <= id -> values_match s idxs m1 vals ->
  (value ← decode_slot decode_tuple_value fast_trailing l st e;
   Ok (<[id := value]> m1)) = Ok m1' ->
  exists vals', match rp_output_idx (new_row_value_projector s idxs) id with
     | Some o => value ← decode_slot decode_tuple_value fast_trailing l st e; set_index vals o value
     | None => Ok vals
     end = Ok vals' /\ values_match s idxs m1' vals'.
Proof.
  intros Hs Hp Hid HR Hd. apply bind_inv in Hd as (v & Hv & [= <-]).
  pose proof (values_match_insert s idxs m1 vals id v Hs Hp Hid HR) as Hm'.
  unfold rp_output_idx. cbn [rp_column_id_to_output new_row_value_projector].
  destruct (output_slot _ id) as [o|]; [|by exists vals].
  destruct Hm' as [Hset Hm']. exists (<[o := v]> vals). by rewrite Hv, bind_ok, Hset.
Qed.

Lemma fast_projected_values s idxs l record :
  wf_ids s -> wf_projection s idxs -> decode_fast_row_record_raw l = Ok record ->
  exists values, values_match s idxs (rr_values record) values /\
    forall vals0, decode_fast_row_record_projected_values_with
      (new_row_value_projector s idxs) l vals0 = Ok values.
Proof.
  intros Hs Hp H. unfold decode_fast_row_record_raw in H.
  apply bind_inv in H as (h & Hh & H). apply bind_inv in H as (m & Hm & [= <-]).
  unfold decode_fast_row_record_projected_values_with. rewrite Hh.
  eapply (fold_directory_sim (values_match s idxs)) in Hm as (values & Hv & HR);
    [|intros; by eapply fast_entry_step|apply values_match_init].
  exists values. split; [exact HR|]. intros vals0. rewrite bind_ok, reset_values_eq. exact Hv.
Qed.

(** ** Projection of fixed records *)

Lemma fold_m_app {E A B} (f : B -> A -> result E B) l1 l2 b :
  fold_m f b (l1 ++ l2) = (b' ← fold_m f b l1; fold_m f b' l2).
Proof.
  revert b. induction l1 as [|a l1 IH]; intros b; cbn; [done|].
  destruct (f b a); cbn; [apply IH|done..].
Qed.

(** A loop that inserts column by column succeeded: each column decoded, and the
    row holds what it decoded to. *)
Lemma fold_columns_inv (step : nat -> ColumnSchema -> PgWireResult ColumnValue) cols row :
  NoDup (map col_name cols) ->
  fold_columns (fun row i c => value ← step i c; Ok (<[col_name c := value]> row)) cols = Ok row ->
  forall i c, cols !! i = Some c -> exists v, step i c = Ok v /\ row !! col_name c = Some v.
Proof.
  unfold fold_columns. revert row. induction cols as [|d cols IH] using rev_ind;
    intros row Hnd H i c Hi; [by rewrite lookup_nil in Hi|].
  rewrite imap_pair_snoc, fold_m_app in H. apply bind_inv in H as (row1 & H1 & H).
  cbn in H. apply bind_inv in H as (row2 & H2 & [= <-]).
  apply bind_inv in H2 as (v & Hv & [= <-]).
  rewrite map_app in Hnd. apply NoDup_app in Hnd as (Hnd & Hdis & _).
  apply lookup_snoc_Some in Hi as [[Hlt Hi]|[-> <-]].
  - destruct (IH row1 Hnd H1 i c Hi) as (w & Hw & Hr). exists w. split; [done|].
    rewrite lookup_insert_ne; [done|]. intros Heq.
    apply (Hdis (col_name c)); [|rewrite <- Heq; set_solver].
    apply list_elem_of_fmap. exists c. split; [done|]. by eapply list_elem_of_lookup_2.
  - exists v. by rewrite lookup_insert_eq.
Qed.

(** Filling a vector slot by slot. *)
Lemma fold_set_index {A} (g : nat -> PgWireResult A) (h : nat -> A) idxs : forall values,
  (forall i, i ∈ idxs -> g i = Ok (h i)) -> (length idxs <= length values)%nat ->
  fold_m (fun values (oc : nat * nat) => value ← g oc.2; set_index values oc.1 value)
    values (imap pair idxs) = Ok (map h idxs ++ drop (length idxs) values).
Proof.
  induction idxs as [|x idxs IH] using rev_ind; intros values Hg Hl; [done|].
  rewrite imap_pair_snoc, fold_m_app.
  rewrite length_app in Hl |- *. cbn [length] in Hl |- *.
  rewrite IH; [|intros; apply Hg; set_solver|lia]. rewrite bind_ok. cbn [fold_m fst snd].
  rewrite Hg by set_solver. rewrite bind_ok.
  rewrite set_index_lt by (rewrite length_app, length_map, length_drop; lia).
  destruct (lookup_lt_is_Some_2 values (length idxs)) as [y Hy]; [lia|].
  cbn. f_equal. rewrite map_app. cbn [map]. rewrite <- app_assoc. cbn [app].
  rewrite <- (length_map h idxs) at 1. rewrite insert_app_r_alt by lia. rewrite Nat.sub_diag.
  f_equal. rewrite (drop_S values y (length idxs) Hy). cbn. by rewrite Nat.add_1_r.
Qed.

Lemma fixed_record_columns s l row i c :
  schema_unique s -> decode_fixed_row_record s l = Ok row -> columns s !! i = Some c ->
  exists layout, fixed_row_layout s l = Ok layout /\
    decode_fixed_row_column s l layout i = Ok (row_get row (col_name c)).
Proof.
  intros [Hn _] H Hi. unfold decode_fixed_row_record in H.
  apply bind_inv in H as (layout & Hl & H). exists layout. split; [done|].
  apply (fold_columns_inv (fun i _ => decode_fixed_row_column s l layout i)) with (i := i) (c := c)
    in H as (v & Hv & Hr); [|done|done].
  unfold row_get. by rewrite Hr.
Qed.

Lemma fixed_projected_values s idxs l row vals0 :
  schema_unique s -> wf_projection s idxs -> decode_fixed_row_record s l = Ok row ->
  decode_fixed_row_record_projected_values_with (new_row_value_projector s idxs) l vals0 =
    Ok (map (column_value s row) idxs).
Proof.
  intros Hu [_ Hin] H. unfold decode_fixed_row_record_projected_values_with.
  cbn [rp_output_len rp_schema rp_column_indices new_row_value_projector].
  assert (Hl : exists layout, fixed_row_layout s l = Ok layout).
  { unfold decode_fixed_row_record in H. apply bind_inv in H as (layout & ? & _). eauto. }
  destruct Hl as [layout Hl]. rewrite Hl, bind_ok, reset_values_eq.
  rewrite (fold_set_index _ (column_value s row)); [|intros i Hi|by rewrite length_replicate].
  - rewrite drop_ge, app_nil_r by (by rewrite length_replicate). done.
  - rewrite Forall_forall in Hin. destruct (lookup_lt_is_Some_2 _ _ (Hin i Hi)) as [c Hc].
    destruct (fixed_record_columns s l row i c Hu H Hc) as (layout' & Hl' & Hv).
    rewrite Hl in Hl'. injection Hl' as <-. unfold column_value. by rewrite Hc.
Qed.

(** ** Which format a record has *)

Lemma first_byte_cases l :
  (l = [] /\ Cursor_.u8 (Cursor_.new l) = user_error "XX000" "truncated u8") \/
  (exists b r, l = b :: r /\ Cursor_.u8 (Cursor_.new l) = Ok (u8_to_Z b, MkCursor l 1)).
Proof. destruct l as [|b r]; [by left|right]. exists b, r. done. Qed.

Lemma version_eqb b v : (u8_to_Z b =? u8_to_Z v) = bool_decide (b = v).
Proof.
  destruct (Z.eqb_spec (u8_to_Z b) (u8_to_Z v)) as [E|E]; symmetry.
  - apply bool_decide_eq_true. by apply u8_to_Z_inj.
  - apply bool_decide_eq_false. congruence.
Qed.

Lemma projected_values_agree_aux s idxs l row vals0 :
  wf_ids s -> wf_projection s idxs -> decode_row_record s l = Ok row ->
  decode_row_record_projected_values_with (new_row_value_projector s idxs) l vals0 =
    Ok (map (column_value s row) idxs).
Proof.
  intros Hs Hp H. unfold decode_row_record in H. unfold decode_row_record_projected_values_with.
  destruct (first_byte_cases l) as [[-> Hu]|(b & r & -> & Hu)]; [discriminate H|].
  rewrite Hu, bind_ok, !version_eqb. cbn [first_is] in H.
  case_bool_decide as Hb; [by apply fixed_projected_values; [apply Hs|..]|].
  apply bind_inv in H as (record & H & [= <-]). unfold decode_row_record_raw in H.
  rewrite Hu, bind_ok, !version_eqb in H.
  case_bool_decide as Hb2.
  - destruct (fast_projected_values s idxs _ record Hs Hp H) as (values & Hm & Hv).
    rewrite Hv. f_equal. apply values_match_final; [apply Hs|done|done].
  - case_bool_decide as Hb3; [|discriminate H]. cbn [negb] in *.
    apply bind_inv in H as ([rec c'] & Hr & [= <-]).
    destruct (tagged_projected_values s idxs _ rec c' Hs Hp Hr) as (values & Hm & Hv).
    cbn [rp_output_len new_row_value_projector]. rewrite reset_values_eq, Hv, bind_ok.
    f_equal. apply values_match_final; [apply Hs|done|done].
Qed.

(** ** The numeric fast path on fixed records *)

Lemma be_int_inv n what c z c' :
  Cursor_.be_int n what c = Ok (z, c') ->
  c' = advance n c /\ (pos c + n <= length (bytes c))%nat.
Proof.
  rewrite be_int_eq. destruct (Nat.ltb_spec (length (bytes c)) (pos c + n)); [discriminate|].
  intros [= _ <-]. auto.
Qed.

Lemma read_header_pos c h c' :
  read_header c = Ok (h, c') -> bytes c' = bytes c /\ pos c' = (pos c + 32)%nat.
Proof.
  unfold read_header. intros H.
  do 5 (apply reader_bind_inv in H as (? & ? & [-> _]%be_int_inv & H)).
  injection H as _ <-. cbn. split; [done|lia].
Qed.

(** A fixed record that stores every column has the offsets the numeric
    projector computed from the schema. *)
Lemma full_layout s l layout :
  fixed_row_layout s l = Ok layout -> stored_column_count layout = length (columns s) ->
  layout = layout_of s /\ first_is FIXED_ROW_VERSION l = true.
Proof.
  unfold fixed_row_layout. intros H Hn.
  destruct (first_byte_cases l) as [[-> Hu]|(b & r & -> & Hu)]; rewrite Hu in H; [discriminate|].
  rewrite bind_ok, version_eqb in H. case_bool_decide as Hb; [|discriminate H]. cbn [negb] in H.
  apply bind_inv in H as ([[[[sv te] m] n] c] & Hh & H).
  apply read_header_pos in Hh as [_ Hpos]. cbn [pos] in Hpos.
  destruct (_ <? _)%nat; [discriminate H|]. cbv zeta in H.
  destruct (length (b :: r) <? _)%nat; [discriminate H|]. injection H as <-.
  cbn [stored_column_count] in Hn. subst n. split; [|by cbn; rewrite bool_decide_eq_true_2].
  rewrite Hpos, take_ge by lia. unfold layout_of, row_header_len.
  unfold variable_positions_for_columns at 1. by rewrite variable_positions_count.
Qed.

(** Columns the numeric path accepts: fixed width, not BOOLEAN. *)
Definition numeric_column (s : TableSchema) (i : nat) : Prop :=
  match columns s !! i with
  | Some c => fixed_width (data_type c) <> None /\ data_type c <> DT.Boolean
  | None => False
  end.

Definition numeric_value (s : TableSchema) (row : RowMap) (i : nat) : FastNumericValue :=
  default FNull (fast_numeric_of (column_value s row i)).

Lemma fixed_value_numeric t l v :
  t <> DT.Boolean -> decode_fixed_value t l = Ok v -> exists n, fast_numeric_of v = Some n.
Proof.
  intros Hb. destruct t; cbn [decode_fixed_value]; try discriminate; try congruence;
    try (destruct (_ =? _)%nat; [intros [= <-]; cbn; eauto|discriminate]).
  unfold decode_mysql_fixed_int. repeat case_match; try discriminate; intros [= <-]; cbn; eauto.
Qed.

Lemma numeric_slot_agrees s l row o i slot values :
  schema_unique s -> numeric_column s i -> direct_slot s o i = Some slot ->
  fixed_row_layout s l = Ok (layout_of s) -> decode_fixed_row_record s l = Ok row ->
  decode_fixed_row_numeric_slot l values slot = set_index values o (numeric_value s row i).
Proof.
  intros Hu Hnum Hslot Hl H. unfold numeric_column in Hnum.
  destruct (columns s !! i) as [c|] eqn:Hc; [|done]. destruct Hnum as [Hw Hbool].
  destruct (fixed_width (data_type c)) as [w|] eqn:Ew; [clear Hw|done].
  destruct (fixed_record_columns s l row i c Hu H Hc) as (layout & Hl' & Hv).
  rewrite Hl in Hl'. injection Hl' as <-.
  unfold direct_slot in Hslot. rewrite Hc in Hslot. cbn [mbind option_bind] in Hslot.
  unfold fixed_offsets, fixed_offsets_for_columns in Hslot.
  rewrite (fixed_offsets_lookup _ _ _ _ Hc), Ew in Hslot. apply (inj Some) in Hslot as <-.
  unfold numeric_value, column_value. rewrite Hc.
  set (v := row_get row (col_name c)) in *. clearbody v.
  unfold decode_fixed_row_column in Hv. rewrite Hc in Hv. cbn [ok_or] in Hv. rewrite bind_ok in Hv.
  pose proof (lookup_lt_Some _ _ _ Hc) as Hlt. cbn [stored_column_count layout_of] in Hv.
  destruct (Nat.leb_spec (length (columns s)) i) as [Hge|_]; [lia|].
  unfold fixed_row_is_null in Hv. cbn [stored_column_count layout_of] in Hv.
  destruct (Nat.leb_spec (length (columns s)) i) as [Hge|_]; [lia|].
  cbn [fl_null_bitmap_start layout_of] in Hv. unfold decode_fixed_row_numeric_slot.
  cbn [null_byte_offset null_bit ds_output_idx fixed_value_start ds_fixed_width ds_data_type].
  destruct (l !! (row_header_len + i / 8)%nat) as [b|]; [|discriminate Hv].
  cbn [ok_or] in *. rewrite !bind_ok in *.
  destruct (bit_is_set b (i mod 8)); [by injection Hv as <-|].
  cbn [fl_fixed_offsets layout_of] in Hv. unfold fixed_offsets_for_columns in Hv.
  rewrite (fixed_offsets_lookup _ _ _ _ Hc), Ew in Hv.
  cbn [fmap option_fmap option_map from_option id fl_fixed_region_start layout_of] in *.
  destruct (_ <? _)%nat; [discriminate Hv|].
  apply bind_inv in Hv as (x & Hx & Hv). rewrite Hx, bind_ok.
  destruct (fixed_value_numeric _ _ _ Hbool Hv) as [n Hn].
  by rewrite (fixed_numeric_agrees _ _ _ _ Hv Hn), bind_ok, Hn.
Qed.

Lemma fold_m_omap {E A B C} (f : C -> B -> result E C) (g : A -> option B)
    (f' : C -> A -> result E C) l : forall acc,
  (forall a acc, a ∈ l -> exists b, g a = Some b /\ f acc b = f' acc a) ->
  fold_m f acc (omap g l) = fold_m f' acc l.
Proof.
  induction l as [|a l IH]; intros acc H; [done|].
  destruct (H a acc) as (b & Hg & Hf); [set_solver|].
  cbn [omap list_omap]. rewrite Hg. cbn [fold_m]. rewrite Hf.
  destruct (f' acc a); cbn; [|done..]. apply IH. intros. apply H. set_solver.
Qed.

Lemma elem_of_imap_pair_nat (idxs : list nat) oc :
  oc ∈ imap pair idxs <-> idxs !! oc.1 = Some oc.2.
Proof.
  rewrite list_elem_of_lookup. destruct oc as [o i]. cbn. split.
  - intros [k Hk]. rewrite list_lookup_imap in Hk. destruct (idxs !! k) eqn:E; [|done].
    by injection Hk as <- <-.
  - intros H. exists o. by rewrite list_lookup_imap, H.
Qed.

Lemma fixed_numeric_record s idxs l row values layout :
  schema_unique s -> Forall (numeric_column s) idxs ->
  fixed_row_layout s l = Ok layout -> stored_column_count layout = length (columns s) ->
  decode_row_record s l = Ok row -> length values = length idxs ->
  decode_row_record_fast_numeric_with (new_fast_numeric_projector s idxs) l values =
    Ok (map (numeric_value s row) idxs).
Proof.
  intros Hu Hnum Hl Hn H Hlen.
  destruct (full_layout s l layout Hl Hn) as [-> Hf].
  unfold decode_row_record in H. rewrite Hf in H.
  unfold decode_row_record_fast_numeric_with, numeric_length_error.
  cbn [np_output_len new_fast_numeric_projector]. rewrite Hlen, Nat.eqb_refl. cbn [negb].
  destruct l as [|b r]; [discriminate Hf|]. cbn [first_is] in Hf. rewrite Hf.
  unfold decode_fixed_row_record_fast_numeric_with. cbn [first_is direct_slots new_fast_numeric_projector].
  rewrite Hf.
  rewrite (fold_m_omap _ _ (fun values (oc : nat * nat) =>
    value ← Ok (numeric_value s row oc.2); set_index values oc.1 value)).
  - rewrite (fold_set_index (fun i => Ok (numeric_value s row i)) (numeric_value s row)) by (done || lia).
    by rewrite drop_ge, app_nil_r by lia.
  - intros [o i] acc Hin. apply elem_of_imap_pair_nat in Hin. cbn [fst snd] in *.
    rewrite Forall_lookup in Hnum. pose proof (Hnum o i Hin) as Hc.
    assert (Hs : exists slot, direct_slot s o i = Some slot).
    { unfold numeric_column in Hc. unfold direct_slot. destruct (columns s !! i); [|done].
      cbn. eauto. }
    destruct Hs as [slot Hs]. exists slot. split; [done|]. rewrite bind_ok.
    by apply numeric_slot_agrees.
Qed.

(** ** The decoders settle on every input *)

Lemma fold_m_settles {E A B} (f : B -> A -> result E B) l :
  (forall acc a, a ∈ l -> settles (f acc a)) -> forall acc, settles (fold_m f acc l).
Proof.
  intros H. induction l as [|a l IH]; intros acc; cbn; [done|].
  apply settles_bind; [apply H; set_solver|]. intros b _. apply IH. intros. apply H. set_solver.
Qed.

Lemma confined_settles {A} (m : reader A) c :
  confined m -> (pos c <= length (bytes c))%nat -> settles (m c).
Proof.
  intros Hm Hc. specialize (Hm (bytes c) (pos c) c eq_refl ltac:(lia)).
  by destruct (m c) as [[]| | |].
Qed.

Lemma settles_run_reader {A} (m : reader A) l : confined m -> settles (run_reader m l).
Proof.
  intros Hm. unfold run_reader. apply settles_bind; [|by intros []].
  apply confined_settles; [done|cbn; lia].
Qed.

Lemma confined_expect_done {A} msg (a : A) : confined (expect_done msg a).
Proof.
  intros b p c Hb Hc. unfold expect_done. destruct (Cursor_.is_done c); [|done]. auto with lia.
Qed.

Lemma confined_read_entries {B} (step : B -> reader B) n :
  (forall acc, confined (step acc)) -> forall acc, confined (read_entries step n acc).
Proof.
  intros Hs. induction n as [|n IH]; intros acc; cbn [read_entries]; auto with uni.
Qed.

Lemma confined_read_header : confined read_header.
Proof. unfold read_header. repeat (apply confined_bind; [auto with uni|]; intros ?). auto with uni. Qed.

#[export] Hint Resolve @confined_expect_done @confined_read_entries confined_read_header
  confined_tuple_value confined_skip_tuple_value : uni.

Lemma settles_decode_slot {A} (m : reader A) msg l s e :
  confined m -> (s <= e <= length l)%nat -> settles (decode_slot m msg l s e).
Proof. intros Hm Hs. rewrite decode_slot_eq by done. apply settles_run_reader. auto with uni. Qed.

Lemma settles_u8_new l : settles (Cursor_.u8 (Cursor_.new l)).
Proof. by destruct l. Qed.

Lemma u8_new_confined l z c :
  Cursor_.u8 (Cursor_.new l) = Ok (z, c) -> (pos c <= length (bytes c))%nat.
Proof. destruct l; [discriminate|]. intros [= _ <-]. cbn. lia. Qed.

Lemma settles_fast_row_header l : settles (fast_row_header l).
Proof.
  unfold fast_row_header. apply settles_bind; [apply settles_u8_new|]. intros [z c] Hu.
  destruct (negb _); [done|]. apply settles_bind.
  - apply confined_settles; [auto with uni|by eapply u8_new_confined].
  - intros [[[[? ?] ?] ?] c'] _. by destruct (_ <? _)%nat.
Qed.

Lemma settles_directory_entry l d i p : settles (fast_row_directory_entry l d i p).
Proof.
  rewrite fast_row_directory_entry_eq. cbv zeta. destruct (_ <? _)%nat; [done|].
  by destruct (_ <? _)%nat.
Qed.

Lemma settles_fold_directory {B} l h (step : B -> Z -> nat -> nat -> PgWireResult B) :
  (forall acc id s e, (s <= e <= length l)%nat -> settles (step acc id s e)) ->
  forall acc, settles (fold_directory l h step acc).
Proof.
  intros Hs. apply fold_m_settles. intros acc i _.
  apply settles_bind; [apply settles_directory_entry|]. intros [[id s] e] He.
  apply Hs. by eapply directory_entry_spec.
Qed.

Lemma settles_decode_row_record_raw l : settles (decode_row_record_raw l).
Proof.
  unfold decode_row_record_raw. apply settles_bind; [apply settles_u8_new|]. intros [z c] Hu.
  apply u8_new_confined in Hu. destruct (_ =? _).
  - unfold decode_fast_row_record_raw. apply settles_bind; [apply settles_fast_row_header|].
    intros h _. apply settles_bind; [|done]. apply settles_fold_directory. intros.
    apply settles_bind; [|done]. apply settles_decode_slot; [auto with uni|done].
  - destruct (negb _); [done|]. apply settles_bind; [|by intros [] _].
    apply confined_settles; [|done]. unfold read_tagged_record.
    apply confined_bind; [auto with uni|]. intros [[[? ?] ?] ?].
    apply confined_bind; [apply confined_read_entries|]; auto with uni.
Qed.

Lemma settles_fixed_row_layout s l : settles (fixed_row_layout s l).
Proof.
  unfold fixed_row_layout. apply settles_bind; [apply settles_u8_new|]. intros [z c] Hu.
  destruct (negb _); [done|]. apply settles_bind.
  - apply confined_settles; [auto with uni|by eapply u8_new_confined].
  - intros [[[[? ?] ?] ?] c'] _. destruct (_ <? _)%nat; [done|]. cbv zeta. by destruct (_ <? _)%nat.
Qed.

Lemma settles_decode_mysql_fixed_int k u l : settles (decode_mysql_fixed_int k u l).
Proof. unfold decode_mysql_fixed_int. by repeat case_match. Qed.

Lemma settles_decode_fixed_value t l : settles (decode_fixed_value t l).
Proof.
  destruct t; cbn [decode_fixed_value]; try done; try (by destruct (_ =? _)%nat).
  - apply settles_decode_mysql_fixed_int.
  - by destruct l as [|b [|]].
Qed.

Lemma settles_decode_fixed_row_column s l layout i :
  settles (decode_fixed_row_column s l layout i).
Proof.
  unfold decode_fixed_row_column, fixed_row_is_null, decode_variable_column.
  apply settles_bind; [apply settles_ok_or|]. intros c _. destruct (_ <=? _)%nat; [done|].
  apply settles_bind; [apply settles_bind; [apply settles_ok_or|done]|].
  intros [] _; [done|]. destruct (default None _).
  - destruct (Nat.ltb_spec (length l) (fl_fixed_region_start layout + n +
      default 0 (fixed_width (data_type c))))%nat; [done|].
    rewrite sub_slice_ok, bind_ok by lia. apply settles_decode_fixed_value.
  - apply settles_bind; [apply settles_ok_or|]. intros p _. cbv zeta.
    set (entry := (fl_variable_directory_start layout + p * 8)%nat).
    destruct (Nat.ltb_spec (length l) (entry + 8)); [done|].
    rewrite !sub_slice_ok, !bind_ok by lia. cbv zeta.
    match goal with |- context [if (_ <? ?x)%nat then _ else _] =>
      destruct (Nat.ltb_spec (length l) x); [done|] end.
    apply settles_decode_slot; [auto with uni|lia].
Qed.

Lemma settles_decode_row_record s l : settles (decode_row_record s l).
Proof.
  unfold decode_row_record. destruct (first_is _ _).
  - unfold decode_fixed_row_record. apply settles_bind; [apply settles_fixed_row_layout|].
    intros layout _. apply fold_m_settles. intros row [i c] _.
    apply settles_bind; [apply settles_decode_fixed_row_column|done].
  - apply settles_bind; [apply settles_decode_row_record_raw|done].
Qed.

Lemma settles_decode_row_record_projected s l idxs : settles (decode_row_record_projected s l idxs).
Proof.
  unfold decode_row_record_projected. cbv zeta. apply settles_bind; [apply settles_u8_new|].
  intros [z c] Hu. apply u8_new_confined in Hu. destruct (_ =? _); [|destruct (_ =? _)].
  - unfold decode_fixed_row_record_projected. apply settles_bind; [apply settles_fixed_row_layout|].
    intros layout _. apply fold_m_settles. intros row [i d] _. destruct (wanted_name _ _); [|done].
    apply settles_bind; [apply settles_decode_fixed_row_column|done].
  - unfold decode_fast_row_record_projected. apply settles_bind; [apply settles_fast_row_header|].
    intros h _. apply settles_fold_directory. intros. destruct (wanted_name _ _); [|done].
    apply settles_bind; [|done]. apply settles_decode_slot; [auto with uni|done].
  - destruct (negb _); [done|]. apply settles_bind; [|by intros [] _].
    apply confined_settles; [|done]. apply confined_bind; [auto with uni|]. intros [[[? ?] ?] ?].
    apply confined_bind; [apply confined_read_entries|]; auto with uni.
Qed.

(** ** The projections settle too: every output slot is below the output length *)

(** [sized n m]: [m] settles, and what it returns has [n] values. *)
Definition sized {A} (n : nat) (m : PgWireResult (list A)) : Prop :=
  settles m /\ forall values, m = Ok values -> length values = n.

Lemma sized_settles {A} n (m : PgWireResult (list A)) : sized n m -> settles m.
Proof. by intros []. Qed.

Lemma sized_ok {A} n (values : list A) : length values = n -> sized n (Ok values).
Proof. intros Hl. split; [done|]. by intros ? [= <-]. Qed.

Lemma sized_error {A} n e : sized n (Err e : PgWireResult (list A)).
Proof. by split. Qed.

Lemma sized_bind {A B} n (m : PgWireResult A) (k : A -> PgWireResult (list B)) :
  settles m -> (forall a, m = Ok a -> sized n (k a)) -> sized n (mbind k m).
Proof.
  intros Hm Hk. split.
  - apply settles_bind; [done|]. intros a Ha. by apply sized_settles with n, Hk.
  - intros values H. apply bind_inv in H as (a & Ha & H). by eapply Hk.
Qed.

Lemma sized_set_index {A} n (values : list A) i v :
  length values = n -> (i < n)%nat -> sized n (set_index values i v).
Proof.
  intros Hl Hi. rewrite set_index_lt by lia. apply sized_ok. by rewrite length_insert.
Qed.

Lemma sized_fold_m {A B} n (f : list B -> A -> PgWireResult (list B)) l :
  (forall values a, a ∈ l -> length values = n -> sized n (f values a)) ->
  forall values, length values = n -> sized n (fold_m f values l).
Proof.
  intros H. induction l as [|a l IH]; intros values Hl; cbn; [by apply sized_ok|].
  assert (Ha : sized n (f values a)) by (apply H; set_solver).
  apply sized_bind; [by eapply sized_settles|]. intros values' E.
  apply IH; [intros; apply H; set_solver|by apply Ha].
Qed.

Lemma sized_fold_directory {A} n l h
    (step : list A -> Z -> nat -> nat -> PgWireResult (list A)) :
  (forall values id s e, length values = n -> (s <= e <= length l)%nat ->
     sized n (step values id s e)) ->
  forall values, length values = n -> sized n (fold_directory l h step values).
Proof.
  intros Hs. apply sized_fold_m. intros values i _ Hl.
  apply sized_bind; [apply settles_directory_entry|]. intros [[id s] e] He.
  apply Hs; [done|]. by eapply directory_entry_spec.
Qed.

Lemma imap_pair_slot (idxs : list nat) o i : (o, i) ∈ imap pair idxs -> (o < length idxs)%nat.
Proof.
  intros H. apply list_elem_of_lookup in H as [k H]. rewrite list_lookup_imap in H.
  destruct (idxs !! k) eqn:E; [|done]. injection H as <- <-. by eapply lookup_lt_Some.
Qed.

Lemma column_output_table_lt s idxs k o :
  default None (column_output_table s idxs !! k) = Some o -> (o < length idxs)%nat.
Proof.
  unfold column_output_table. revert k o. generalize (S (Z.to_nat (foldr Z.max 0 (map column_id (columns s))))).
  intros w.
  assert (Hf : forall l table,
    (forall o i, (o, i) ∈ l -> (o < length idxs)%nat) ->
    (forall k o, default None (table !! k) = Some o -> (o < length idxs)%nat) ->
    forall k o, default None (foldl (fun table (oc : nat * nat) =>
      match columns s !! oc.2 with
      | Some column =>
          let id := Z.to_nat (column_id column) in
          let table := if (length table <=? id)%nat then resize (S id) None table else table in
          <[id := Some oc.1]> table
      | None => table
      end) table l !! k) = Some o -> (o < length idxs)%nat).
  { intros l. induction l as [|[o' i'] l IH]; intros table Hl Ht; cbn [foldl]; [done|].
    apply IH; [intros o i Hin; apply (Hl o i); set_solver|]. cbn [fst snd].
    assert (Ho' : (o' < length idxs)%nat) by (apply (Hl o' i'); set_solver).
    destruct (columns s !! i') as [c|]; [|done]. cbv zeta. intros k o.
    set (table' := if (_ <=? _)%nat then _ else _).
    assert (Ht' : forall k o, default None (table' !! k) = Some o -> (o < length idxs)%nat).
    { intros k1 o1. unfold table'. destruct (_ <=? _)%nat; [|apply Ht].
      intros H. apply (Ht k1). destruct (decide (k1 < length table)%nat) as [Hlt|Hge].
      - destruct (decide (k1 < S (Z.to_nat (column_id c)))%nat);
          [by rewrite lookup_resize in H by done|by rewrite lookup_resize_old in H by lia].
      - destruct (decide (k1 < S (Z.to_nat (column_id c)))%nat);
          [by rewrite lookup_resize_new in H by lia|by rewrite lookup_resize_old in H by lia]. }
    destruct (decide (k = Z.to_nat (column_id c))) as [->|Hne].
    - destruct (decide (Z.to_nat (column_id c) < length table')%nat) as [Hlt|Hge].
      + rewrite list_lookup_insert_eq by done. by intros [= <-].
      + rewrite list_insert_ge by lia. apply Ht'.
    - rewrite list_lookup_insert_ne by done. apply Ht'. }
  apply Hf; [intros o i; apply imap_pair_slot|].
  intros k o. destruct (replicate w None !! k) eqn:E; [|done].
  apply lookup_replicate in E as [-> _]. done.
Qed.

Lemma output_slot_lt s idxs id o :
  output_slot (column_output_table s idxs) id = Some o -> (o < length idxs)%nat.
Proof. apply column_output_table_lt. Qed.

(** One entry of a tagged record for a projection keeps the vector's length. *)
Definition wanted_entry {A} (output_idx : Z -> option nat) (decode : reader A)
    (values : list A) : reader (list A) :=
  column_id ← Cursor_.u32;
  match output_idx column_id with
  | Some o => value ← decode; lift (set_index values o value)
  | None => _ ← skip_tuple_value; mret values
  end.

Lemma wanted_entry_sized {A} s idxs (decode : reader A) values c :
  confined decode -> length values = length idxs -> (pos c <= length (bytes c))%nat ->
  match wanted_entry (output_slot (column_output_table s idxs)) decode values c with
  | Ok (values', c') => length values' = length idxs /\ (pos c' <= length (bytes c'))%nat
  | Err _ => True
  | Panic | OutOfFuel => False
  end.
Proof.
  intros Hd Hl Hc. unfold wanted_entry, mbind at 1, reader_bind at 1.
  pose proof (confined_u32 (bytes c) (pos c) c eq_refl ltac:(lia)) as Hu.
  destruct (Cursor_.u32 c) as [[id c2]| | |]; try done. destruct Hu as [Hb2 Hp2].
  destruct (output_slot _ id) as [o|] eqn:Eo; unfold mbind, reader_bind.
  - apply output_slot_lt in Eo.
    pose proof (Hd (bytes c2) (pos c2) c2 eq_refl ltac:(rewrite Hb2; lia)) as Hv.
    destruct (decode c2) as [[v c3]| | |]; try done. unfold lift.
    rewrite set_index_lt by lia. cbn. rewrite length_insert. split; [done|].
    destruct Hv as [-> ?]. lia.
  - pose proof (confined_skip_tuple_value (bytes c2) (pos c2) c2 eq_refl
      ltac:(rewrite Hb2; lia)) as Hv.
    destruct (skip_tuple_value c2) as [[v c3]| | |]; try done.
    cbn. split; [done|]. destruct Hv as [-> ?]. lia.
Qed.

Lemma settles_wanted_entries {A} s idxs (decode : reader A) msg n : forall c values,
  confined decode -> length values = length idxs -> (pos c <= length (bytes c))%nat ->
  settles ((values ← read_wanted_entries (output_slot (column_output_table s idxs)) decode n values;
            expect_done msg values) c).
Proof.
  induction n as [|n IH]; intros c values Hd Hl Hc.
  { cbn. unfold mbind, reader_bind, expect_done. cbn. by destruct (Cursor_.is_done c). }
  pose proof (wanted_entry_sized s idxs decode values c Hd Hl Hc) as Hst.
  change (read_wanted_entries ?o decode (S n) values) with
    (mbind (read_wanted_entries o decode n) (wanted_entry o decode values)).
  unfold mbind at 2, reader_bind at 2. unfold mbind at 1, reader_bind at 1.
  destruct (wanted_entry _ decode values c) as [[values' c']| | |]; try done.
  destruct Hst as [Hl' Hc']. by apply IH.
Qed.

(** The entry loop of a tagged record behind its header, for both projectors. *)
Lemma settles_tagged_projection {A} s idxs (decode : reader A) c values :
  confined decode -> (pos c <= length (bytes c))%nat -> length values = length idxs ->
  settles ((header ← read_header;
    let '(_, _, _, count) := (header : Z * Z * MvccMeta * nat) in
    values ← read_wanted_entries (output_slot (column_output_table s idxs)) decode count values;
    expect_done trailing_v2 values) c).
Proof.
  intros Hd Hc Hl. pose proof (confined_read_header _ _ c eq_refl (conj (le_n _) Hc)) as Hr.
  unfold mbind at 1, reader_bind at 1.
  destruct (read_header c) as [[[[[? ?] ?] n] c']| | |]; try done. destruct Hr as [Hb Hp].
  apply settles_wanted_entries; [done..|]. rewrite Hb. lia.
Qed.

Lemma settles_projected_values_with s idxs l values0 :
  settles (decode_row_record_projected_values_with (new_row_value_projector s idxs) l values0).
Proof.
  unfold decode_row_record_projected_values_with. apply settles_bind; [apply settles_u8_new|].
  intros [z c] Hu. apply u8_new_confined in Hu. destruct (_ =? _); [|destruct (_ =? _)].
  - apply sized_settles with (length idxs).
    unfold decode_fixed_row_record_projected_values_with. cbv zeta.
    apply sized_bind; [apply settles_fixed_row_layout|]. intros layout _.
    apply sized_fold_m; [|apply length_reset_values]. intros values [o i] Hin Hl.
    apply imap_pair_slot in Hin. apply sized_bind; [apply settles_decode_fixed_row_column|].
    intros v _. by apply sized_set_index.
  - apply sized_settles with (length idxs).
    unfold decode_fast_row_record_projected_values_with.
    apply sized_bind; [apply settles_fast_row_header|]. intros h _.
    apply sized_fold_directory; [|apply length_reset_values]. intros values id st e Hl Hse.
    unfold rp_output_idx. destruct (output_slot _ id) as [o|] eqn:Eo; [|by apply sized_ok].
    apply output_slot_lt in Eo. apply sized_bind; [apply settles_decode_slot; [auto with uni|done]|].
    intros v _. by apply sized_set_index.
  - destruct (negb _); [done|]. apply settles_bind; [|by intros [] _].
    apply (settles_tagged_projection s idxs); [auto with uni|done|apply length_reset_values].
Qed.

(** ** The numeric fast path settles on every projection *)

Lemma settles_decode_fixed_numeric_value t l : settles (decode_fixed_numeric_value t l).
Proof.
  destruct t; cbn [decode_fixed_numeric_value]; try done; try (by destruct (_ =? _)%nat).
  apply settles_bind; [apply settles_decode_mysql_fixed_int|]. by intros [].
Qed.

Lemma sized_numeric_slot n l values slot :
  length values = n -> (ds_output_idx slot < n)%nat ->
  sized n (decode_fixed_row_numeric_slot l values slot).
Proof.
  intros Hl Ho. unfold decode_fixed_row_numeric_slot.
  apply sized_bind; [apply settles_ok_or|]. intros b _.
  destruct (bit_is_set _ _); [by apply sized_set_index|].
  destruct (fixed_value_start slot) as [start|]; [|apply sized_error]. cbv zeta.
  destruct (Nat.ltb_spec (length l) (start + default 0 (ds_fixed_width slot)))%nat;
    [apply sized_error|].
  rewrite sub_slice_ok, bind_ok by lia.
  apply sized_bind; [apply settles_decode_fixed_numeric_value|]. intros v _.
  by apply sized_set_index.
Qed.

Lemma direct_slots_lt s idxs slot :
  slot ∈ direct_slots (new_fast_numeric_projector s idxs) -> (ds_output_idx slot < length idxs)%nat.
Proof.
  cbn [direct_slots new_fast_numeric_projector]. intros ([o i] & Hin & Hs)%list_elem_of_omap.
  apply imap_pair_slot in Hin. unfold direct_slot in Hs. cbn [fst snd] in Hs.
  destruct (columns s !! i) as [c|]; [|done]. cbn in Hs. by injection Hs as <-.
Qed.

Lemma settles_fast_direct_slots n l h slots : forall values : list FastNumericValue,
  Forall (fun slot => ds_output_idx slot < n)%nat slots -> length values = n ->
  settles (fast_direct_slots l h slots values).
Proof.
  induction slots as [|slot slots IH]; intros values Hs Hl; cbn [fast_direct_slots]; [done|].
  apply Forall_cons in Hs as [Hslot Hs]. apply settles_bind; [apply settles_directory_entry|].
  intros [[id st] e] He. destruct (negb _); [done|].
  apply settles_bind; [apply settles_decode_slot|];
    [apply confined_tuple_numeric_value|by eapply directory_entry_spec|].
  intros v _. rewrite set_index_lt, bind_ok by lia. apply IH; [done|]. by rewrite length_insert.
Qed.

Lemma settles_fast_numeric_directory s idxs l h values :
  length values = length idxs ->
  settles (fast_numeric_directory (new_fast_numeric_projector s idxs) l h values).
Proof.
  intros Hl. apply sized_settles with (length idxs). unfold fast_numeric_directory.
  apply sized_fold_directory; [|done]. intros values' id st e Hl' Hse.
  unfold np_output_idx. destruct (output_slot _ id) as [o|] eqn:Eo; [|by apply sized_ok].
  apply output_slot_lt in Eo.
  apply sized_bind; [apply settles_decode_slot; [apply confined_tuple_numeric_value|done]|].
  intros v _. by apply sized_set_index.
Qed.

Lemma settles_fast_numeric_with s idxs l values :
  settles (decode_row_record_fast_numeric_with (new_fast_numeric_projector s idxs) l values).
Proof.
  unfold decode_row_record_fast_numeric_with.
  destruct (Nat.eqb_spec (length values) (np_output_len (new_fast_numeric_projector s idxs)))
    as [Hl|]; [|done]. cbn [np_output_len new_fast_numeric_projector] in Hl. cbn [negb].
  destruct l as [|version l']; [done|]. set (l := version :: l').
  pose proof (direct_slots_lt s idxs) as Hslots.
  assert (Hall : Forall (fun slot => ds_output_idx slot < length idxs)%nat
    (direct_slots (new_fast_numeric_projector s idxs))) by (by apply Forall_forall).
  case_bool_decide as Hv.
  - unfold decode_fixed_row_record_fast_numeric_with. destruct (first_is _ _); [|done].
    apply sized_settles with (length idxs). apply sized_fold_m; [|done].
    intros values' slot Hin Hl'. apply sized_numeric_slot; [done|by apply Hslots].
  - cbv zeta. apply settles_bind; [apply settles_u8_new|]. intros [z c] Hu.
    apply u8_new_confined in Hu. case_bool_decide as Hv2; [|case_bool_decide as Hv3].
    + apply settles_bind; [|by intros [] _]. unfold decode_legacy_row_record_fast_numeric_with.
      apply (settles_tagged_projection s idxs);
        [apply confined_tuple_numeric_value|done|by rewrite length_map].
    + unfold decode_fast_row_record_fast_numeric_with.
      apply settles_bind; [apply settles_fast_row_header|]. intros h _.
      destruct (forallb _ _).
      * apply settles_bind; [by eapply settles_fast_direct_slots; [|by rewrite length_map]|].
        intros [direct|] _; [done|]. apply settles_fast_numeric_directory. by rewrite !length_map.
      * apply settles_fast_numeric_directory. by rewrite length_map.
    + done.
Qed.

Lemma settles_fast_numeric_slots_with s idxs l values slots :
  settles (decode_row_record_fast_numeric_slots_with (new_fast_numeric_projector s idxs) l values slots).
Proof.
  unfold decode_row_record_fast_numeric_slots_with.
  destruct (Nat.eqb_spec (length values) (np_output_len (new_fast_numeric_projector s idxs)))
    as [Hl|]; [|done]. cbn [np_output_len new_fast_numeric_projector] in Hl. cbn [negb].
  destruct (negb _); [apply settles_fast_numeric_with|].
  apply sized_settles with (length idxs). apply sized_fold_m; [|done].
  intros values' slot _ Hl'. destruct (List.find _ _) as [ds|] eqn:E; [|by apply sized_ok].
  apply List.find_some in E as [Hin _]. apply list_elem_of_In in Hin.
  apply sized_numeric_slot; [done|by apply (direct_slots_lt s idxs)].
Qed.

(** ** Projection to a row map *)

Lemma elem_of_insert_by_id x y l : y ∈ insert_by_id x l <-> y = x \/ y ∈ l.
Proof.
  induction l as [|z r IH]; cbn [insert_by_id]; [set_solver|].
  destruct (_ <=? _); rewrite ?elem_of_cons; [tauto|]. rewrite IH. tauto.
Qed.

Lemma elem_of_sort_by_id y l : y ∈ sort_by_id l <-> y ∈ l.
Proof.
  induction l as [|x l IH]; cbn [sort_by_id foldr]; [done|].
  fold (sort_by_id l). by rewrite elem_of_insert_by_id, IH, elem_of_cons.
Qed.

Lemma dedup_by_id_cons a b l :
  dedup_by_id (a :: b :: l) =
  match dedup_by_id (b :: l) with
  | b' :: rest' => if a.1 =? b'.1 then a :: rest' else a :: b' :: rest'
  | [] => [a]
  end.
Proof. done. Qed.

Lemma dedup_by_id_sub l y : y ∈ dedup_by_id l -> y ∈ l.
Proof.
  induction l as [|a l IH]; [done|]. destruct l as [|b l]; [done|].
  rewrite dedup_by_id_cons. destruct (dedup_by_id (b :: l)) as [|b' rest]; [set_solver|].
  destruct (_ =? _); set_solver.
Qed.

Lemma dedup_by_id_keeps l y : y ∈ l -> exists z, z ∈ dedup_by_id l /\ z.1 = y.1.
Proof.
  induction l as [|a l IH]; [by intros ?%elem_of_nil|]. destruct l as [|b l].
  - intros ->%list_elem_of_singleton. exists a. split; [set_solver|done].
  - rewrite dedup_by_id_cons. destruct (dedup_by_id (b :: l)) as [|b' rest] eqn:E.
      intros [->|Hy]%elem_of_cons; [exists a; set_solver|].
      destruct (IH Hy) as (z & Hz & _). set_solver.
    + intros [->|Hy]%elem_of_cons.
      * destruct (_ =? _); exists a; set_solver.
      * destruct (IH Hy) as (z & [->|Hz]%elem_of_cons & Hk).
        -- destruct (Z.eqb_spec a.1 b'.1); [exists a|exists b']; (split; [set_solver|congruence]).
        -- exists z. destruct (_ =? _); set_solver.
Qed.

Section Wanted.
Context (s : TableSchema) (idxs : list nat).
Context (Hs : wf_ids s).

Lemma wanted_name_spec id name :
  wanted_name (wanted_columns s idxs) id = Some name ->
  exists i c, i ∈ idxs /\ columns s !! i = Some c /\ column_id c = id /\ col_name c = name.
Proof.
  unfold wanted_name. destruct (List.find _ _) as [[k n]|] eqn:E; [|done].
  apply find_some in E as [Hin Hk]. cbn in *. apply Z.eqb_eq in Hk as ->. intros [= <-].
  apply list_elem_of_In in Hin. unfold wanted_columns in Hin.
  apply dedup_by_id_sub, elem_of_sort_by_id, list_elem_of_omap in Hin as (i & Hi & Hc).
  destruct (columns s !! i) as [c|] eqn:Ec; [|done]. injection Hc as <- <-. eauto 10.
Qed.

Lemma wanted_name_some i c :
  i ∈ idxs -> columns s !! i = Some c ->
  wanted_name (wanted_columns s idxs) (column_id c) = Some (col_name c).
Proof.
  intros Hi Hc. destruct (wanted_name _ (column_id c)) as [name|] eqn:E.
  - apply wanted_name_spec in E as (j & d & Hj & Hd & Hid & <-).
    destruct Hs as [[_ Hu] Hp].
    assert (j = i) as -> by (eapply (column_id_inj s Hu Hp); [done|done|congruence]).
    congruence.
  - exfalso. unfold wanted_name in E. destruct (List.find _ _) eqn:F; [done|].
    destruct (dedup_by_id_keeps (sort_by_id (omap (fun idx =>
      (fun c => (column_id c, col_name c)) <$> columns s !! idx) idxs))
      (column_id c, col_name c)) as (z & Hz & Hk).
    { apply elem_of_sort_by_id, list_elem_of_omap. exists i. by rewrite Hc. }
    fold (wanted_columns s idxs) in Hz. apply list_elem_of_In in Hz.
    pose proof (find_none _ _ F z Hz) as Hf. cbn in *. lia.
Qed.

Lemma wanted_name_inj i j c d name :
  columns s !! i = Some c -> columns s !! j = Some d ->
  wanted_name (wanted_columns s idxs) (column_id d) = Some name -> col_name c = name -> i = j.
Proof.
  intros Hc Hd (k & e & _ & He & Hid & Hn)%wanted_name_spec Hname.
  destruct Hs as [[Hnd Hu] Hp].
  assert (k = j) as -> by (eapply (column_id_inj s Hu Hp); [done|done|congruence]).
  eapply (NoDup_lookup (map col_name (columns s)) i j (col_name c)); [done|..];
    rewrite list_lookup_fmap, ?Hc, ?He; cbn; congruence.
Qed.

(** The partial row of a projected decoder against the column map of the full
    one: the wanted columns agree, and there are no others. *)
Definition row_match (m : gmap Z ColumnValue) (row : RowMap) : Prop :=
  (forall i c, i ∈ idxs -> columns s !! i = Some c -> row !! col_name c = m !! column_id c) /\
  (forall name, is_Some (row !! name) ->
     exists i c, i ∈ idxs /\ columns s !! i = Some c /\ col_name c = name).

Lemma row_match_insert m row id v :
  row_match m row ->
  row_match (<[id := v]> m) (insert_wanted (wanted_columns s idxs) id v row).
Proof.
  intros [Hm Hd]. unfold insert_wanted.
  destruct (wanted_name (wanted_columns s idxs) id) as [name|] eqn:E.
  - destruct (wanted_name_spec _ _ E) as (j & d & Hj & Hcd & Hid & Hn). split.
    + intros i c Hi Hc. destruct (decide (col_name c = name)) as [Heq|Hne].
      * assert (i = j) as -> by (eapply wanted_name_inj; [done|done|by rewrite Hid|done]).
        assert (c = d) as -> by congruence. by rewrite Hn, Hid, !lookup_insert_eq.
      * rewrite lookup_insert_ne by congruence. rewrite lookup_insert_ne; [by apply (Hm i)|].
        intros ->. pose proof (wanted_name_some i c Hi Hc). congruence.
    + intros name'. destruct (decide (name' = name)) as [->|Hne].
      * intros _. exists j, d. done.
      * rewrite lookup_insert_ne by congruence. apply Hd.
  - split; [|done]. intros i c Hi Hc. rewrite lookup_insert_ne; [by apply (Hm i)|].
    intros ->. pose proof (wanted_name_some i c Hi Hc). congruence.
Qed.

Lemma row_match_init : row_match ∅ ∅.
Proof. split; [intros; by rewrite !lookup_empty|]. intros name [? H]. by rewrite lookup_empty in H. Qed.
End Wanted.

(** What a projected row must satisfy against the full one. *)
Definition projects (s : TableSchema) (idxs : list nat) (row row' : RowMap) : Prop :=
  (forall i c, i ∈ idxs -> columns s !! i = Some c ->
     row_get row' (col_name c) = row_get row (col_name c)) /\
  (forall name, is_Some (row' !! name) ->
     exists i c, i ∈ idxs /\ columns s !! i = Some c /\ col_name c = name).

Lemma row_match_projects s idxs record row' :
  schema_unique s -> row_match s idxs (rr_values record) row' ->
  projects s idxs (row_of_record s record) row'.
Proof.
  intros Hu [Hm Hd]. split; [|done]. intros i c Hi Hc. unfold row_get.
  rewrite (Hm i c Hi Hc). by rewrite (row_of_record_lookup s record i c Hu Hc).
Qed.

Lemma fixed_projected_row s idxs l row :
  wf_ids s -> decode_fixed_row_record s l = Ok row ->
  exists row', decode_fixed_row_record_projected s (wanted_columns s idxs) l = Ok row' /\
               projects s idxs row row'.
Proof.
  intros Hs H. unfold decode_fixed_row_record_projected.
  assert (Hl : exists layout, fixed_row_layout s l = Ok layout).
  { unfold decode_fixed_row_record in H. apply bind_inv in H as (layout & ? & _). eauto. }
  destruct Hl as [layout Hl]. rewrite Hl, bind_ok. unfold fold_columns.
  rewrite (fold_m_ok _ (fun row' ic =>
    insert_wanted (wanted_columns s idxs) (column_id ic.2) (row_get row (col_name ic.2)) row')).
  2: { intros acc [i c] Hin. apply elem_of_imap_pair in Hin. cbn [fst snd] in *.
    destruct (fixed_record_columns s l row i c (proj1 Hs) H Hin) as (layout' & Hl' & Hv).
    rewrite Hl in Hl'. injection Hl' as <-. unfold insert_wanted.
    destruct (wanted_name _ _); [|done]. by rewrite Hv. }
  eexists. split; [done|].
  assert (Hgen : forall cols m row', row_match s idxs m row' ->
    row_match s idxs
      (foldl (fun m (ic : nat * ColumnSchema) =>
         <[column_id ic.2 := row_get row (col_name ic.2)]> m) m cols)
      (foldl (fun row' (ic : nat * ColumnSchema) =>
         insert_wanted (wanted_columns s idxs) (column_id ic.2) (row_get row (col_name ic.2)) row')
         row' cols)).
  { induction cols as [|ic cols IH]; cbn; [done|]. intros m row' Hm. apply IH.
    by apply row_match_insert. }
  specialize (Hgen (imap pair (columns s)) ∅ ∅ (row_match_init s idxs)).
  destruct Hgen as [Hm Hd]. split; [|done]. intros i c Hi Hc. unfold row_get at 1.
  rewrite (Hm i c Hi Hc). clear Hm Hd.
  assert (Hlook : forall cols i c, NoDup (map (fun ic : nat * ColumnSchema => column_id ic.2) cols) ->
    (i, c) ∈ cols -> forall m : gmap Z ColumnValue,
    foldl (fun m (ic : nat * ColumnSchema) => <[column_id ic.2 := row_get row (col_name ic.2)]> m)
      m cols !! column_id c = Some (row_get row (col_name c))).
  { clear. induction cols as [|ic l IH] using rev_ind; intros i c Hnd Hin m; [by apply elem_of_nil in Hin|].
    rewrite map_app in Hnd. apply NoDup_app in Hnd as (Hnd & Hdis & _).
    rewrite foldl_app. cbn. apply elem_of_app in Hin as [Hin|Hin].
    - rewrite lookup_insert_ne; [by eapply IH|]. intros Heq.
      apply (Hdis (column_id c)); [|rewrite <- Heq; set_solver].
      apply list_elem_of_fmap. by exists (i, c).
    - apply list_elem_of_singleton in Hin as <-. by rewrite lookup_insert_eq. }
  rewrite (Hlook _ i c); [done| |by apply elem_of_imap_pair].
  replace (map _ (imap pair (columns s))) with (map column_id (columns s)); [apply Hs|].
  apply list_eq. intros k. rewrite !list_lookup_fmap, list_lookup_imap. by destruct (columns s !! k).
Qed.

Lemma projected_row_aux s idxs l row :
  wf_ids s -> decode_row_record s l = Ok row ->
  exists row', decode_row_record_projected s l idxs = Ok row' /\ projects s idxs row row'.
Proof.
  intros Hs H. unfold decode_row_record in H. unfold decode_row_record_projected.
  destruct (first_byte_cases l) as [[-> Hu]|(b & r & -> & Hu)]; [discriminate H|].
  rewrite Hu, bind_ok, !version_eqb. cbn [first_is] in H.
  case_bool_decide as Hb; [by apply fixed_projected_row|].
  apply bind_inv in H as (record & H & [= <-]). unfold decode_row_record_raw in H.
  rewrite Hu, bind_ok, !version_eqb in H.
  case_bool_decide as Hb2.
  - unfold decode_fast_row_record_raw in H. unfold decode_fast_row_record_projected.
    apply bind_inv in H as (h & Hh & H). rewrite Hh, bind_ok.
    apply bind_inv in H as (m & Hm & [= <-]).
    eapply (fold_directory_sim (row_match s idxs)) in Hm as (row' & Hv & HR);
      [|intros id st e m1 row1 m1' Hid HR (v & Hv & [= <-])%bind_inv|apply row_match_init].
    + exists row'. split; [exact Hv|]. by apply row_match_projects; [apply Hs|].
    + exists (insert_wanted (wanted_columns s idxs) id v row1). split; [|by apply row_match_insert].
      unfold insert_wanted. destruct (wanted_name _ id); [|done]. by rewrite Hv.
  - case_bool_decide as Hb3; [|discriminate H]. cbn [negb] in *.
    apply bind_inv in H as ([rec c'] & Hr & [= <-]). unfold read_tagged_record in Hr.
    apply reader_bind_inv in Hr as ([[[sv te] m] n] & c1 & Hh & Hr).
    apply reader_bind_inv in Hr as (vs & c2 & Hv & Hr).
    rewrite (reader_bind_ok _ _ _ _ _ Hh).
    eapply (read_entries_sim (row_match s idxs)) in Hv as (row' & Hv & HR);
      [|intros m1 row1 d m1' d' HR Hd|apply row_match_init].
    + rewrite (reader_bind_ok _ _ _ _ _ Hv). unfold expect_done in *.
      destruct (Cursor_.is_done c2); [|discriminate Hr]. injection Hr as <- _.
      exists row'. split; [done|]. by apply row_match_projects; [apply Hs|].
    + apply reader_bind_inv in Hd as (id & d1 & Hid & Hd).
      apply reader_bind_inv in Hd as (v & d2 & Hvd & [= <- <-]).
      exists (insert_wanted (wanted_columns s idxs) id v row1). split; [|by apply row_match_insert].
      by rewrite (reader_bind_ok _ _ _ _ _ Hid), (reader_bind_ok _ _ _ _ _ Hvd).
Qed.

(** ** Re-encoding *)

Lemma row_from_ext f g cols :
  (forall i c, cols !! i = Some c -> f i c = g i c) -> row_from f cols = row_from g cols.
Proof.
  intros H. unfold row_from.
  assert (Hl : forall l (row : RowMap), (forall ic, ic ∈ l -> f ic.1 ic.2 = g ic.1 ic.2) ->
    foldl (fun row ic => <[col_name ic.2 := f ic.1 ic.2]> row) row l =
    foldl (fun row ic => <[col_name ic.2 := g ic.1 ic.2]> row) row l).
  { induction l as [|ic l IH]; intros row Hf; cbn; [done|].
    rewrite Hf by set_solver. apply IH. intros. apply Hf. set_solver. }
  apply Hl. intros [i c] Hin. apply elem_of_imap_pair in Hin. by apply H.
Qed.

Lemma be_int_range n what c z c' :
  Cursor_.be_int n what c = Ok (z, c') -> in_unsigned (8 * Z.of_nat n) z.
Proof.
  rewrite be_int_eq. destruct (Nat.ltb_spec (length (bytes c)) (pos c + n)); [discriminate|].
  intros [= <- _]. pose proof (from_be_range (slice (bytes c) (pos c) (pos c + n))) as Hr.
  rewrite length_slice in Hr by lia. by replace (pos c + n - pos c)%nat with n in Hr by lia.
Qed.

Lemma read_header_mvcc c sv te m n c' : read_header c = Ok (sv, te, m, n, c') -> wf_mvcc m.
Proof.
  unfold read_header. intros H.
  do 2 (apply reader_bind_inv in H as (? & ? & _ & H)).
  apply reader_bind_inv in H as (mn & ? & Hmin%be_int_range & H).
  apply reader_bind_inv in H as (mx & ? & Hmax%be_int_range & H).
  apply reader_bind_inv in H as (? & ? & _ & H). injection H as _ _ <- _ _. by split.
Qed.

Lemma raw_record_mvcc l record : decode_row_record_raw l = Ok record -> wf_mvcc (rr_mvcc record).
Proof.
  unfold decode_row_record_raw. intros H. apply bind_inv in H as ([z c] & _ & H).
  destruct (_ =? _).
  - apply bind_inv in H as (h & Hh & H). apply bind_inv in H as (? & _ & [= <-]). cbn.
    unfold fast_row_header in Hh. apply bind_inv in Hh as ([z' c1] & _ & Hh).
    destruct (negb _); [discriminate|]. apply bind_inv in Hh as ([[[[? ?] ?] ?] c2] & Hr & Hh).
    destruct (_ <? _)%nat; [discriminate|]. injection Hh as <-. by eapply read_header_mvcc.
  - destruct (negb _); [discriminate|]. apply bind_inv in H as ([rec c'] & Hr & [= <-]).
    unfold read_tagged_record in Hr. apply reader_bind_inv in Hr as ([[[? ?] ?] ?] & ? & Hh & Hr).
    apply reader_bind_inv in Hr as (? & ? & _ & Hr). unfold expect_done in Hr.
    destruct (Cursor_.is_done _); [|discriminate]. injection Hr as <- _. by eapply read_header_mvcc.
Qed.

(** ** Properties of row records *)

(** C1. A row is read back as it was written, also through a schema to which
    columns were appended since: encoding never panics, and decoding gives every
    stored column its value and every added column NULL. *)
Theorem row_record_roundtrip (s s' : TableSchema) (extra : list ColumnSchema) (row : RowMap)
    (m : MvccMeta) :
  columns s' = columns s ++ extra -> NoDup (map col_name (columns s')) ->
  wf_header s m -> storable s row ->
  exists bytes row',
    encode_row_record_with_mvcc s row m = Ok bytes /\
    decode_row_record s' bytes = Ok row' /\
    (forall i c, columns s' !! i = Some c ->
       row' !! col_name c =
         Some (if (i <? length (columns s))%nat then row_get row (col_name c) else Null)).
Proof.
  intros Hs' Hnd Hh Hst. destruct (encode_row_shape s row m (proj2 Hst)) as (N & Hb & _).
  exists (fixed_record s m row N), (row_from (seen_through s row) (columns s')).
  split; [done|]. split; [by apply (decode_encoded_row s s' extra row m)|].
  intros i c Hi. by rewrite (row_from_lookup _ _ i).
Qed.

(** A two-column table and the same table with a column added, for the witnesses. *)
Definition sample_column (id : Z) (name : string) (t : DataType) : ColumnSchema :=
  {| column_id := id; col_name := name; data_type := t; primary_key_col := id =? 1;
     nullable := true; col_default := None; on_update := None; character_set := None;
     collation := None |}.
Definition sample_schema (cols : list ColumnSchema) : TableSchema :=
  {| table_name := "t"; table_id := 7; schema_version := 1; table_epoch := 1;
     primary_key := "a"; check_constraints := []; unique_constraints := []; foreign_keys := [];
     columns := cols |}.
Definition sample_cols : list ColumnSchema :=
  [sample_column 1 "a" DT.Int32; sample_column 2 "b" DT.Text].
Definition sample_row : RowMap := <["a" := Int32 (-5)]> (<["b" := Text "xyz"]> ∅).

(** Closes [storable] of a concrete row by evaluation. *)
Ltac storable_eval :=
  split; [|vm_compute; reflexivity];
  repeat (apply Forall_cons; split); try (apply Forall_nil; exact I);
  (split; [vm_compute; repeat split; congruence | vm_compute; auto]).

Lemma storable_sample : storable (sample_schema sample_cols) sample_row.
Proof. storable_eval. Defined.

Lemma wf_header_sample cols m :
  len cols < 2 ^ 32 -> wf_mvcc m -> wf_header (sample_schema cols) m.
Proof.
  intros Hl Hm. refine (conj _ (conj _ (conj Hm Hl))); (split; [discriminate|reflexivity]).
Defined.

Lemma row_record_roundtrip_witness :
  exists bytes row',
    encode_row_record_with_mvcc (sample_schema sample_cols) sample_row default_mvcc = Ok bytes /\
    decode_row_record (sample_schema (sample_cols ++ [sample_column 3 "c" DT.Int64])) bytes = Ok row' /\
    (forall i c, columns (sample_schema (sample_cols ++ [sample_column 3 "c" DT.Int64])) !! i = Some c ->
       row' !! col_name c =
         Some (if (i <? 2)%nat then row_get sample_row (col_name c) else Null)).
Proof.
  apply (row_record_roundtrip (sample_schema sample_cols) _ [sample_column 3 "c" DT.Int64]).
  - reflexivity.
  - apply (bool_decide_eq_true_1 _); vm_compute; reflexivity.
  - apply wf_header_sample; [vm_compute; reflexivity|split; split; vm_compute; congruence].
  - apply storable_sample.
Defined.

(** A deletion marker decodes, in no column, to a tombstone that hides the
    row from the snapshots at or after its version and from no other. *)
Theorem tombstone_roundtrip (s : TableSchema) (version snapshot : Z) :
  wf_header s {| xmin := version; xmax := version |} -> 0 < version ->
  exists record,
    decode_row_record_raw (encode_row_tombstone s version) = Ok record /\
    is_row_tombstone record = true /\ rr_values record = ∅ /\
    is_row_visible record snapshot = (version <=? snapshot).
Proof.
  intros (Hsv & Hte & Hm & _) Hv. unfold decode_row_record_raw, encode_row_tombstone.
  destruct (read_row_header VERSION s {| xmin := version; xmax := version |} 0 [])
    as [Hu Hh]; [done|done|done|split; vm_compute; congruence|].
  rewrite app_nil_r in Hu, Hh. rewrite Hu, bind_ok.
  change (u8_to_Z VERSION =? u8_to_Z FAST_ROW_VERSION) with false.
  change (negb (u8_to_Z VERSION =? u8_to_Z VERSION)) with false. cbv iota.
  unfold read_tagged_record. rewrite (reader_bind_ok _ _ _ _ _ Hh).
  change (Z.to_nat 0) with O. cbn [read_entries].
  rewrite (reader_bind_ok _ _ _ ∅ _ eq_refl). unfold expect_done, Cursor_.is_done.
  cbn [pos bytes]. rewrite length_row_header, Nat.eqb_refl, bind_ok.
  eexists. split; [reflexivity|]. unfold is_row_visible, is_row_tombstone. cbn.
  destruct (Z.eqb_spec version 0); [lia|done].
Qed.

Lemma tombstone_roundtrip_witness :
  exists record,
    decode_row_record_raw (encode_row_tombstone (sample_schema sample_cols) 9) = Ok record /\
    is_row_tombstone record = true /\ rr_values record = ∅ /\
    is_row_visible record 8 = false.
Proof.
  apply (tombstone_roundtrip (sample_schema sample_cols) 9 8); [|reflexivity].
  apply wf_header_sample; [vm_compute; reflexivity|split; split; vm_compute; congruence].
Defined.

(** C10. Projection pushdown is sound: on any bytes the full decoder accepts, in
    any of the three formats, the value decoder of a projection returns exactly the
    projected columns, whatever the vector it was given held, and the row decoder
    returns a row with the projected columns only. *)
Theorem projected_decoders_agree (s : TableSchema) (idxs : list nat) (bytes : list byte)
    (row : RowMap) (values : list ColumnValue) :
  wf_ids s -> wf_projection s idxs -> decode_row_record s bytes = Ok row ->
  decode_row_record_projected_values_with (new_row_value_projector s idxs) bytes values =
    Ok (map (column_value s row) idxs) /\
  exists row', decode_row_record_projected s bytes idxs = Ok row' /\ projects s idxs row row'.
Proof.
  intros Hs Hp H. split; [by apply projected_values_agree_aux|by apply projected_row_aux].
Qed.

Lemma wf_ids_sample : wf_ids (sample_schema sample_cols).
Proof.
  split; [split; (apply (bool_decide_eq_true_1 _); vm_compute; reflexivity)|].
  repeat constructor; vm_compute; congruence.
Defined.

Lemma projected_decoders_agree_witness :
  decode_row_record_projected_values_with
    (new_row_value_projector (sample_schema sample_cols) [1%nat])
    (match encode_row_record (sample_schema sample_cols) sample_row with Ok l => l | _ => [] end) []
  = Ok [Text "xyz"].
Proof.
  refine (proj1 (projected_decoders_agree (sample_schema sample_cols) [1%nat] _ sample_row [] _ _ _)).
  - apply wf_ids_sample.
  - split; [apply (bool_decide_eq_true_1 _); vm_compute; reflexivity|].
    repeat constructor; vm_compute; lia.
  - vm_compute. reflexivity.
Defined.

(** The numeric fast path of the aggregate scans agrees with the ordinary
    decoder on every fixed record that stores all the columns of the schema. *)
Theorem numeric_projection_agrees (s : TableSchema) (idxs : list nat) (bytes : list byte)
    (layout : FixedRowLayout) (row : RowMap) (values : list FastNumericValue) :
  schema_unique s -> Forall (numeric_column s) idxs ->
  fixed_row_layout s bytes = Ok layout -> stored_column_count layout = length (columns s) ->
  decode_row_record s bytes = Ok row -> length values = length idxs ->
  decode_row_record_fast_numeric_with (new_fast_numeric_projector s idxs) bytes values =
    Ok (map (numeric_value s row) idxs).
Proof. apply fixed_numeric_record. Qed.

Lemma numeric_projection_agrees_witness :
  decode_row_record_fast_numeric_with
    (new_fast_numeric_projector (sample_schema sample_cols) [0%nat])
    (match encode_row_record (sample_schema sample_cols) sample_row with Ok l => l | _ => [] end)
    [FNull] = Ok [I64 (-5)].
Proof.
  eapply (numeric_projection_agrees (sample_schema sample_cols) [0%nat] _ _ sample_row).
  - apply wf_ids_sample.
  - repeat constructor; cbn; discriminate.
  - vm_compute. reflexivity.
  - reflexivity.
  - vm_compute. reflexivity.
  - reflexivity.
Defined.

(** C39. Every row decoder of the storage layout - the full row, the raw record,
    the projected row, the projected values into a vector of any content, the
    numeric projection and its slots - returns a result or an error on every
    byte string, whatever columns are asked for: every slice the source takes is
    inside the record (a slice out of range, like an index out of range, is a
    panic of the model) and no loop runs on.  The capacity a decoder reserves
    from a count of the record is not modelled. *)
Theorem row_decoders_settle (s : TableSchema) (bytes : list byte) (idxs : list nat)
    (values : list ColumnValue) (numbers : list FastNumericValue) (slots : list nat) :
  settles (decode_row_record s bytes) /\ settles (decode_row_record_raw bytes) /\
  settles (decode_row_record_projected s bytes idxs) /\
  settles (decode_row_record_projected_values s bytes idxs) /\
  settles (decode_row_record_projected_values_with (new_row_value_projector s idxs) bytes values) /\
  settles (decode_row_record_fast_numeric_with (new_fast_numeric_projector s idxs) bytes numbers) /\
  settles (decode_row_record_fast_numeric_slots_with (new_fast_numeric_projector s idxs)
             bytes numbers slots).
Proof.
  split; [apply settles_decode_row_record|].
  split; [apply settles_decode_row_record_raw|].
  split; [apply settles_decode_row_record_projected|].
  split; [apply settles_projected_values_with|].
  split; [apply settles_projected_values_with|].
  split; [apply settles_fast_numeric_with|apply settles_fast_numeric_slots_with].
Qed.

Lemma reencode_row (s : TableSchema) (bytes : list byte) (row : RowMap) :
  schema_unique s -> wf_header s default_mvcc -> storable s row ->
  decode_row_record s bytes = Ok row ->
  if first_is FIXED_ROW_VERSION bytes then reencode_row_record_fast s bytes = Ok None
  else exists record, decode_row_record_raw bytes = Ok record /\
    if is_row_tombstone record then reencode_row_record_fast s bytes = Ok None
    else exists rest,
      let bytes' := row_header FIXED_ROW_VERSION s (rr_mvcc record) (len (columns s)) ++ rest in
      reencode_row_record_fast s bytes = Ok (Some bytes') /\ decode_row_record s bytes' = Ok row.
Proof.
  intros Hu (Hsv & Hte & _ & Hn) Hst H. unfold reencode_row_record_fast.
  unfold decode_row_record in H. destruct (first_is FIXED_ROW_VERSION bytes) eqn:Hf; [done|].
  apply bind_inv in H as (record & Hr & [= Hrow]). exists record. split; [done|].
  rewrite Hr, bind_ok. destruct (is_row_tombstone record); [done|].
  destruct (encode_row_shape s row (rr_mvcc record) (proj2 Hst)) as (N & He & _).
  pose proof (raw_record_mvcc bytes record Hr) as Hm. rewrite Hrow, He, bind_ok.
  eexists. split; [reflexivity|]. change (row_header _ _ _ _ ++ _) with (fixed_record s (rr_mvcc record) row N).
  rewrite (decode_encoded_row s s [] row (rr_mvcc record) _);
    [|by rewrite app_nil_r|by repeat split; try apply Hm; try apply Hsv; try apply Hte|done|done].
  f_equal. rewrite <- Hrow at 2. rewrite row_of_record_row_from. apply row_from_ext.
  intros i c Hi. unfold seen_through. pose proof (lookup_lt_Some _ _ _ Hi).
  destruct (Nat.ltb_spec i (length (columns s))); [|lia]. unfold value_of, row_get.
  rewrite <- Hrow. by rewrite (row_of_record_lookup s record i c).
Qed.

(** The background rewrite of an old record into the fixed format always
    answers and keeps the row: a fixed record and a tombstone are left alone, any
    other record that decodes becomes a fixed record with the versions the old one
    carried, and that record decodes to the same row. *)
Theorem reencode_preserves_row (s : TableSchema) (bytes : list byte) (row : RowMap) :
  schema_unique s -> wf_header s default_mvcc -> storable s row ->
  decode_row_record s bytes = Ok row ->
  if first_is FIXED_ROW_VERSION bytes then reencode_row_record_fast s bytes = Ok None
  else exists record, decode_row_record_raw bytes = Ok record /\
    if is_row_tombstone record then reencode_row_record_fast s bytes = Ok None
    else exists rest,
      let bytes' := row_header FIXED_ROW_VERSION s (rr_mvcc record) (len (columns s)) ++ rest in
      reencode_row_record_fast s bytes = Ok (Some bytes') /\ decode_row_record s bytes' = Ok row.
Proof. apply reencode_row. Qed.

(** A [VERSION] record of the sample row, as older releases wrote it. *)
Definition sample_legacy_record : list byte :=
  row_header VERSION (sample_schema sample_cols) default_mvcc 2 ++
  to_be 4 1 ++ encode_tuple_value (Int32 (-5)) ++ to_be 4 2 ++ encode_tuple_value (Text "xyz").

Lemma reencode_preserves_row_witness :
  exists record rest,
    decode_row_record_raw sample_legacy_record = Ok record /\
    reencode_row_record_fast (sample_schema sample_cols) sample_legacy_record =
      Ok (Some (row_header FIXED_ROW_VERSION (sample_schema sample_cols) (rr_mvcc record)
                  (len sample_cols) ++ rest)).
Proof.
  destruct (decode_row_record (sample_schema sample_cols) sample_legacy_record) as [row| | |] eqn:H;
    try (vm_compute in H; discriminate H).
  destruct (reencode_preserves_row (sample_schema sample_cols) sample_legacy_record row)
    as (record & Hr & Hre).
  - apply wf_ids_sample.
  - apply wf_header_sample; [vm_compute; reflexivity|split; split; vm_compute; congruence].
  - vm_compute in H. injection H as <-. storable_eval.
  - exact H.
  - destruct (is_row_tombstone record) eqn:Ht.
    + vm_compute in Hr. injection Hr as <-. discriminate Ht.
    + destruct Hre as (rest & Hre & _). by exists record, rest.
Defined.

(** ** What the fixed format does not survive

    [ALTER TABLE .. MODIFY COLUMN] (row_write.rs) stores the new schema and leaves
    the rows as they are.  A fixed record carries no types, so a row written with
    [b INT] cannot be read once [b] is a [BIGINT]. *)
Example modify_column_breaks_rows :
  let old := sample_schema [sample_column 1 "a" DT.Int32; sample_column 2 "b" DT.Int32] in
  let new := sample_schema [sample_column 1 "a" DT.Int32; sample_column 2 "b" DT.Int64] in
  match encode_row_record old (<["a" := Int32 1]> (<["b" := Int32 2]> ∅)) with
  | Ok bytes => decode_row_record new bytes = user_error "XX000" "truncated fixed row header"
  | _ => False
  end.
Proof. vm_compute. reflexivity. Qed.

(** [FastNumericProjector::new] takes the region offsets from the current schema
    while [decode_fixed_row_column] takes them from the count stored in the record:
    a row with fewer columns is read by the latter and not by the former. *)
Example numeric_projection_ignores_stored_count :
  let old := sample_schema [sample_column 1 "a" DT.Int32] in
  let new := sample_schema [sample_column 1 "a" DT.Int32; sample_column 2 "b" DT.Int32] in
  match encode_row_record old (<["a" := Int32 1]> ∅) with
  | Ok bytes =>
      decode_row_record_projected_values new bytes [1%nat] = Ok [Null] /\
      decode_row_record_fast_numeric_with (new_fast_numeric_projector new [1%nat]) bytes [FNull] =
        user_error "XX000" "truncated fixed row numeric value"
  | _ => False
  end.
Proof. vm_compute. split; reflexivity. Qed.
