(* ===== verification/KvStore.v ===== *)
(** * The key-value store and its transactions

    src/src/mem_store.rs ([MemoryKvStore], [MemoryTransaction] and the default
    methods of the [KvStore] and [KvTransaction] traits) and
    src/src/kv_engine_store/transaction.rs ([KvEngineTransaction]).

    The shared [Arc<RwLock<HashMap>>] is a map passed explicitly: the methods take
    the lock for their whole body, so each is one atomic step.  A transaction is
    used by one session at a time, so [pending.try_read()] in [overlay_pending]
    succeeds.  The storage engine behind [KvEngineTransaction] is a separate
    crate; it is the class [Engine]. *)

From S2P Require Import Prelude BTree.

Abbreviation kvmap := (gmap key (list byte)).
(** [BTreeMap<Vec<u8>, Option<Vec<u8>>>]: staged writes, [None] for a deletion. *)
Abbreviation pendmap := (gmap key (option (list byte))).
Abbreviation kvrow := (key * list byte)%type.

(** The store as a transaction with staged writes [p] sees it. *)
Definition view (m : kvmap) (p : pendmap) : kvmap :=
  merge (fun old staged => match staged with Some o => o | None => old end) m p.

Lemma view_lookup m p k :
  view m p !! k = match p !! k with Some o => o | None => m !! k end.
Proof. unfold view. rewrite lookup_merge. by destruct (m !! k), (p !! k). Qed.

(** ** Key ranges *)

Definition range_contains (start : key) (end_ : option key) (k : key) : bool :=
  bytes_leb start k && match end_ with Some e => bytes_ltb k e | None => true end.

(** The entries of a map selected by a condition on the key. *)
Definition rows_where (p : key -> bool) (m : kvmap) : kvmap := filter (fun kv => p kv.1) m.

Lemma rows_where_lookup p m k :
  rows_where p m !! k = if p k then m !! k else None.
Proof.
  unfold rows_where. rewrite map_lookup_filter.
  destruct (m !! k) as [v|], (p k) eqn:E; simplify_option_eq; try done; by rewrite E in *.
Qed.

(** ** [MemoryKvStore] *)

Definition store_put (k : key) (v : list byte) (m : kvmap) : kvmap := <[k := v]> m.
Definition store_put_batch (entries : list kvrow) (m : kvmap) : kvmap :=
  foldl (fun m e => <[e.1 := e.2]> m) m entries.
Definition store_get (m : kvmap) (k : key) : option (list byte) := m !! k.
Definition store_multi_get (m : kvmap) (keys : list key) : list (option (list byte)) :=
  map (fun k => m !! k) keys.
Definition store_delete (k : key) (m : kvmap) : kvmap := delete k m.

Definition store_scan_prefix (m : kvmap) (prefix : key) : list kvrow :=
  btree_iter (rows_where (fun k => starts_with k prefix) m).

Definition store_scan_range (m : kvmap) (start : key) (end_ : option key) (limit : option nat)
    (reverse : bool) : list kvrow :=
  take_limit limit (in_order reverse (btree_iter (rows_where (range_contains start end_) m))).

(** ** Default methods of the traits *)

Inductive KvScanProjection : Type := KeyOnly | KeyValue.

Definition project_row (projection : KvScanProjection) (row : kvrow) : key * option (list byte) :=
  (row.1, match projection with KeyOnly => None | KeyValue => Some row.2 end).

(** [KvStore::scan_range_projected]. *)
Definition store_scan_range_projected (m : kvmap) (start : key) (end_ : option key)
    (limit : option nat) (reverse : bool) (projection : KvScanProjection)
    : list (key * option (list byte)) :=
  map (project_row projection) (store_scan_range m start end_ limit reverse).

(** The loop of [visit_range]: the visitor is a closure with state [S] that
    answers whether to go on. *)
Fixpoint visit_rows {S : Type} (visitor : S -> key -> option (list byte) -> result string (bool * S))
    (s : S) (rows : list (key * option (list byte))) : result string S :=
  match rows with
  | [] => Ok s
  | (k, v) :: r =>
      '(go_on, s) ← visitor s k v;
      if (go_on : bool) then visit_rows visitor s r else Ok s
  end.

(** [KvStore::visit_range]. *)
Definition store_visit_range {S : Type} (m : kvmap) (start : key) (end_ : option key) (reverse : bool)
    (projection : KvScanProjection)
    (visitor : S -> key -> option (list byte) -> result string (bool * S)) (s : S)
    : result string S :=
  visit_rows visitor s (store_scan_range_projected m start end_ None reverse projection).

(** [KvStore::count_range]; [rows.len() as u64]. *)
Definition store_count_range (m : kvmap) (start : key) (end_ : option key) : Z :=
  len (store_scan_range_projected m start end_ None false KeyOnly) mod 2 ^ 64.

(** [KvTransaction]: the methods the server calls, for a transaction type [T]
    over a shared store [W].  [kt_commit] also gives what is left of both. *)
Class KvTransaction (T W : Type) := {
  kt_put : key -> list byte -> T -> T;
  kt_put_batch : list kvrow -> T -> T;
  kt_delete : key -> T -> T;
  kt_get : W -> T -> key -> result string (option (list byte));
  kt_has_pending_key : T -> key -> bool;
  kt_scan_prefix : W -> T -> key -> result string (list kvrow);
  kt_scan_range : W -> T -> key -> option key -> option nat -> bool -> result string (list kvrow);
  kt_commit : W -> T -> result string unit * W * T;
  kt_rollback : T -> T;
  kt_savepoint : string -> T -> result string T;
  kt_rollback_to_savepoint : string -> T -> result string T;
  kt_release_savepoint : string -> T -> result string T;
}.

Definition savepoints_unsupported {A} : result string A :=
  Err "savepoints are not supported by this KV transaction"%string.

(** [KvTransaction::visit_range]. *)
Definition kt_visit_range `{KvTransaction T W} {S : Type} (w : W) (t : T) (start : key)
    (end_ : option key) (reverse : bool) (projection : KvScanProjection)
    (visitor : S -> key -> option (list byte) -> result string (bool * S)) (s : S)
    : result string S :=
  rows ← kt_scan_range w t start end_ None reverse;
  visit_rows visitor s (map (project_row projection) rows).

(** ** [MemoryTransaction] *)

Record MemoryTransaction : Type := {
  mt_snapshot : kvmap;
  mt_pending : pendmap;
  mt_savepoints : list (string * pendmap);
}.

Definition set_pending (t : MemoryTransaction) (p : pendmap) : MemoryTransaction :=
  {| mt_snapshot := mt_snapshot t; mt_pending := p; mt_savepoints := mt_savepoints t |}.

Definition set_savepoints (t : MemoryTransaction) (s : list (string * pendmap)) : MemoryTransaction :=
  {| mt_snapshot := mt_snapshot t; mt_pending := mt_pending t; mt_savepoints := s |}.

(** [MemoryKvStore::begin_transaction]. *)
Definition begin_transaction (inner : kvmap) : MemoryTransaction :=
  {| mt_snapshot := inner; mt_pending := ∅; mt_savepoints := [] |}.

Definition overlay_step (in_range : key -> bool) (rows : kvmap) (e : key * option (list byte))
    : kvmap :=
  if in_range e.1 then
    match e.2 with Some v => <[e.1 := v]> rows | None => delete e.1 rows end
  else rows.

Definition overlay_pending (pending : pendmap) (rows : kvmap) (in_range : key -> bool) : kvmap :=
  foldl (overlay_step in_range) rows (btree_iter pending).

Definition collect_range (rows : kvmap) (limit : option nat) (reverse : bool) : list kvrow :=
  take_limit limit (in_order reverse (btree_iter rows)).

Definition materialize_prefix_of (base : kvmap) (t : MemoryTransaction) (prefix : key)
    : list kvrow :=
  btree_iter (overlay_pending (mt_pending t) (rows_where (fun k => starts_with k prefix) base)
    (fun k => starts_with k prefix)).

Definition materialize_prefix (inner : kvmap) (t : MemoryTransaction) (prefix : key) : list kvrow :=
  materialize_prefix_of inner t prefix.

Definition materialize_snapshot_prefix (t : MemoryTransaction) (prefix : key) : list kvrow :=
  materialize_prefix_of (mt_snapshot t) t prefix.

Definition materialize_range_of (base : kvmap) (t : MemoryTransaction) (start : key)
    (end_ : option key) (limit : option nat) (reverse : bool) : list kvrow :=
  collect_range (overlay_pending (mt_pending t) (rows_where (range_contains start end_) base)
    (range_contains start end_)) limit reverse.

Definition materialize_range (inner : kvmap) (t : MemoryTransaction) (start : key)
    (end_ : option key) (limit : option nat) (reverse : bool) : list kvrow :=
  materialize_range_of inner t start end_ limit reverse.

Definition materialize_snapshot_range (t : MemoryTransaction) (start : key)
    (end_ : option key) (limit : option nat) (reverse : bool) : list kvrow :=
  materialize_range_of (mt_snapshot t) t start end_ limit reverse.

Definition mt_put (k : key) (v : list byte) (t : MemoryTransaction) : MemoryTransaction :=
  set_pending t (<[k := Some v]> (mt_pending t)).

Definition mt_put_batch (entries : list kvrow) (t : MemoryTransaction) : MemoryTransaction :=
  set_pending t (foldl (fun p e => <[e.1 := Some e.2]> p) (mt_pending t) entries).

Definition mt_delete (k : key) (t : MemoryTransaction) : MemoryTransaction :=
  set_pending t (<[k := None]> (mt_pending t)).

Definition mt_get (inner : kvmap) (t : MemoryTransaction) (k : key) : option (list byte) :=
  match mt_pending t !! k with Some o => o | None => inner !! k end.

Definition mt_snapshot_get (t : MemoryTransaction) (k : key) : option (list byte) :=
  match mt_pending t !! k with Some o => o | None => mt_snapshot t !! k end.

Definition mt_has_pending_key (t : MemoryTransaction) (k : key) : bool :=
  match mt_pending t !! k with Some _ => true | None => false end.

Definition mt_commit (inner : kvmap) (t : MemoryTransaction) : kvmap :=
  foldl (overlay_step (fun _ => true)) inner (btree_iter (mt_pending t)).

(** [rollback] only answers; the transaction is dropped by its session. *)
Definition mt_rollback (t : MemoryTransaction) : MemoryTransaction := t.

Definition mt_savepoint (name : string) (t : MemoryTransaction) : MemoryTransaction :=
  set_savepoints t (mt_savepoints t ++ [(to_ascii_lowercase name, mt_pending t)]).

(** [iter().rposition(|(saved, _)| saved == name)]. *)
Fixpoint savepoint_rposition {A} (name : string) (l : list (string * A)) : option nat :=
  match l with
  | [] => None
  | (saved, _) :: r =>
      match savepoint_rposition name r with
      | Some i => Some (S i)
      | None => if decide (saved = name) then Some 0%nat else None
      end
  end.

Definition no_savepoint {A} (name : string) : result string A :=
  Err ("savepoint '" +:+ name +:+ "' does not exist")%string.

Definition mt_rollback_to_savepoint (name : string) (t : MemoryTransaction)
    : result string MemoryTransaction :=
  let name := to_ascii_lowercase name in
  match savepoint_rposition name (mt_savepoints t) with
  | None => no_savepoint name
  | Some pos =>
      match mt_savepoints t !! pos with
      | None => Panic
      | Some (_, saved) =>
          Ok (set_pending (set_savepoints t (take (pos + 1) (mt_savepoints t))) saved)
      end
  end.

Definition mt_release_savepoint (name : string) (t : MemoryTransaction)
    : result string MemoryTransaction :=
  let name := to_ascii_lowercase name in
  match savepoint_rposition name (mt_savepoints t) with
  | None => no_savepoint name
  | Some pos => Ok (set_savepoints t (take pos (mt_savepoints t)))
  end.

#[export] Instance memory_transaction : KvTransaction MemoryTransaction kvmap := {|
  kt_put := mt_put;
  kt_put_batch := mt_put_batch;
  kt_delete := mt_delete;
  kt_get w t k := Ok (mt_get w t k);
  kt_has_pending_key := mt_has_pending_key;
  kt_scan_prefix w t p := Ok (materialize_prefix w t p);
  kt_scan_range w t s e limit reverse := Ok (materialize_range w t s e limit reverse);
  kt_commit w t := (Ok tt, mt_commit w t, t);
  kt_rollback := mt_rollback;
  kt_savepoint name t := Ok (mt_savepoint name t);
  kt_rollback_to_savepoint := mt_rollback_to_savepoint;
  kt_release_savepoint := mt_release_savepoint;
|}.

(** ** [KvEngineTransaction] *)

(** [SchemalessRangeQuery] with the fields the source sets. *)
Record SchemalessRangeQuery : Type := {
  q_start : option key;
  q_end : option key;
  q_scan_prefix : option key;
  q_desc : bool;
  q_max_records_per_batch : option nat;
}.

(** A record of a batch: key and value may be missing. *)
Abbreviation record := (option key * option (list byte))%type.

(** What the source calls of the storage engine.  [range_query] gives the batches
    that [next_batch] answers, up to the one marked exhausted; [write_opt_async]
    applies a [SchemalessWriteBatch] as a whole. *)
Class Engine (W : Type) := {
  get_async : W -> key -> result string (option (list byte));
  range_query : W -> SchemalessRangeQuery -> result string (list (list record));
  write_opt_async : W -> list (key * option (list byte)) -> result string W;
}.

Record KvEngineTransaction : Type := { et_pending : pendmap }.

Definition limit_reached (limit : option nat) (rows : kvmap) : bool :=
  match limit with Some n => (n <=? size rows)%nat | None => false end.

Definition insert_record (rows : kvmap) (r : record) : kvmap :=
  match r with (Some k, Some v) => <[k := v]> rows | _ => rows end.

(** The loop over the records of a batch. *)
Fixpoint take_records (limit : option nat) (rows : kvmap) (records : list record) : kvmap :=
  match records with
  | [] => rows
  | r :: rest =>
      let rows := insert_record rows r in
      if limit_reached limit rows then rows else take_records limit rows rest
  end.

(** The loop over the batches. *)
Fixpoint take_batches (limit : option nat) (rows : kvmap) (batches : list (list record)) : kvmap :=
  match batches with
  | [] => rows
  | b :: rest =>
      let rows := take_records limit rows b in
      if limit_reached limit rows then rows else take_batches limit rows rest
  end.

Definition range_skips (start : key) (end_ : option key) (k : key) : bool :=
  bytes_ltb k start || match end_ with Some e => bytes_leb e k | None => false end.

Section EngineTransaction.
Context {W : Type} `{Engine W}.

Definition et_put (k : key) (v : list byte) (t : KvEngineTransaction) : KvEngineTransaction :=
  {| et_pending := <[k := Some v]> (et_pending t) |}.

Definition et_put_batch (entries : list kvrow) (t : KvEngineTransaction) : KvEngineTransaction :=
  {| et_pending := foldl (fun p e => <[e.1 := Some e.2]> p) (et_pending t) entries |}.

Definition et_delete (k : key) (t : KvEngineTransaction) : KvEngineTransaction :=
  {| et_pending := <[k := None]> (et_pending t) |}.

Definition et_get (table : W) (t : KvEngineTransaction) (k : key)
    : result string (option (list byte)) :=
  match et_pending t !! k with
  | Some o => Ok o
  | None => get_async table k
  end.

Definition et_has_pending_key (t : KvEngineTransaction) (k : key) : bool :=
  match et_pending t !! k with Some _ => true | None => false end.

Definition et_scan_prefix (table : W) (t : KvEngineTransaction) (prefix : key)
    : result string (list kvrow) :=
  batches ← range_query table {| q_start := None; q_end := None; q_scan_prefix := Some prefix;
    q_desc := false; q_max_records_per_batch := None |};
  Ok (btree_iter (foldl (overlay_step (fun k => starts_with k prefix))
    (take_batches None ∅ batches) (btree_iter (et_pending t)))).

Definition et_scan_range (table : W) (t : KvEngineTransaction) (start : key) (end_ : option key)
    (limit : option nat) (reverse : bool) : result string (list kvrow) :=
  batches ← range_query table {| q_start := Some start; q_end := end_; q_scan_prefix := None;
    q_desc := reverse; q_max_records_per_batch := (fun n => Nat.max n 1) <$> limit |};
  let rows := foldl (overlay_step (fun k => negb (range_skips start end_ k)))
    (take_batches limit ∅ batches) (btree_iter (et_pending t)) in
  Ok (take_limit limit (in_order reverse (btree_iter rows))).

(** [std::mem::take] empties the staged writes before the write is attempted. *)
Definition et_commit (table : W) (t : KvEngineTransaction)
    : result string unit * W * KvEngineTransaction :=
  let t' := {| et_pending := ∅ |} in
  if bool_decide (et_pending t = ∅) then (Ok tt, table, t')
  else
    match write_opt_async table (btree_iter (et_pending t)) with
    | Ok table' => (Ok tt, table', t')
    | Err e => (Err e, table, t')
    | Panic => (Panic, table, t')
    | OutOfFuel => (OutOfFuel, table, t')
    end.

Definition et_rollback (t : KvEngineTransaction) : KvEngineTransaction := {| et_pending := ∅ |}.

#[export] Instance engine_transaction : KvTransaction KvEngineTransaction W := {|
  kt_put := et_put;
  kt_put_batch := et_put_batch;
  kt_delete := et_delete;
  kt_get := et_get;
  kt_has_pending_key := et_has_pending_key;
  kt_scan_prefix := et_scan_prefix;
  kt_scan_range := et_scan_range;
  kt_commit := et_commit;
  kt_rollback := et_rollback;
  kt_savepoint _ _ := savepoints_unsupported;
  kt_rollback_to_savepoint _ _ := savepoints_unsupported;
  kt_release_savepoint _ _ := savepoints_unsupported;
|}.
End EngineTransaction.

(** ** What the engine and the transactions promise *)

Definition apply_writes (m : kvmap) (writes : list (key * option (list byte))) : kvmap :=
  foldl (overlay_step (fun _ => true)) m writes.

Definition query_selects (q : SchemalessRangeQuery) (k : key) : bool :=
  range_contains (default [] (q_start q)) (q_end q) k &&
  match q_scan_prefix q with Some p => starts_with k p | None => true end.

(** Documented behaviour of the engine on a table holding [engine_rows]: point
    reads, range reads in key order split into batches, atomic batch writes. *)
Class EngineLaws (W : Type) `{Engine W} := {
  engine_rows : W -> kvmap;
  engine_get : forall w k, get_async w k = Ok (engine_rows w !! k);
  engine_range : forall w q, exists batches, range_query w q = Ok batches /\
    concat batches = map (fun kv => (Some kv.1, Some kv.2))
      (in_order (q_desc q) (btree_iter (rows_where (query_selects q) (engine_rows w))));
  engine_write : forall w writes, exists w', write_opt_async w writes = Ok w' /\
    engine_rows w' = apply_writes (engine_rows w) writes;
}.

(** The contract of a [KvTransaction]: it reads the committed rows overlaid with
    its staged writes, and commit installs the staged writes. *)
Class KvTransactionLaws (T W : Type) `{KvTransaction T W} := {
  committed : W -> kvmap;
  staged : T -> pendmap;
  law_put : forall k v t, staged (kt_put k v t) = <[k := Some v]> (staged t);
  law_delete : forall k t, staged (kt_delete k t) = <[k := None]> (staged t);
  law_put_batch : forall es t,
    staged (kt_put_batch es t) = foldl (fun p e => <[e.1 := Some e.2]> p) (staged t) es;
  law_get : forall w t k, kt_get w t k = Ok (view (committed w) (staged t) !! k);
  law_has_pending_key : forall t k, kt_has_pending_key t k = bool_decide (is_Some (staged t !! k));
  law_scan_prefix : forall w t p, kt_scan_prefix w t p =
    Ok (btree_iter (rows_where (fun k => starts_with k p) (view (committed w) (staged t))));
  law_scan_range : forall w t s e reverse, kt_scan_range w t s e None reverse =
    Ok (in_order reverse (btree_iter (rows_where (range_contains s e)
      (view (committed w) (staged t)))));
  law_commit : forall w t, exists w' t', kt_commit w t = (Ok tt, w', t') /\
    committed w' = view (committed w) (staged t);
}.

(** ** Overlaying staged writes *)

Lemma overlay_fold (in_range : key -> bool) l : forall (rows : kvmap) (k : key),
  NoDup (map fst l) ->
  foldl (overlay_step in_range) rows l !! k =
    if in_range k then
      match list_to_map (M := pendmap) l !! k with Some o => o | None => rows !! k end
    else rows !! k.
Proof.
  induction l as [|[k' o] l IH]; intros rows k Hnd; cbn [foldl list_to_map foldr].
  - rewrite lookup_empty. by destruct (in_range k).
  - cbn in Hnd. apply NoDup_cons in Hnd as [Hn Hnd]. rewrite IH by done. cbn [uncurry].
    destruct (decide (k' = k)) as [->|Hk].
    + rewrite lookup_insert_eq. rewrite (proj1 (not_elem_of_list_to_map l k)) by done.
      unfold overlay_step. cbn [fst snd]. destruct (in_range k); [|done].
      destruct o; [apply lookup_insert_eq|apply lookup_delete_eq].
    + rewrite lookup_insert_ne by done.
      assert (E : overlay_step in_range rows (k', o) !! k = rows !! k); [|by rewrite E].
      unfold overlay_step. cbn [fst snd]. destruct (in_range k'); [|done].
      destruct o; [by apply lookup_insert_ne|by apply lookup_delete_ne].
Qed.

Lemma overlay_lookup (in_range : key -> bool) (rows : kvmap) (p : pendmap) (k : key) :
  foldl (overlay_step in_range) rows (btree_iter p) !! k =
    if in_range k then match p !! k with Some o => o | None => rows !! k end else rows !! k.
Proof.
  rewrite overlay_fold by apply btree_iter_nodup. by rewrite btree_iter_list_to_map.
Qed.

Lemma overlay_all (m : kvmap) (p : pendmap) : apply_writes m (btree_iter p) = view m p.
Proof.
  apply map_eq. intros k. unfold apply_writes. by rewrite overlay_lookup, view_lookup.
Qed.

(** Overlaying the selected rows is selecting from the overlaid rows. *)
Lemma overlay_rows_where (in_range : key -> bool) (m : kvmap) (p : pendmap) :
  foldl (overlay_step in_range) (rows_where in_range m) (btree_iter p) =
  rows_where in_range (view m p).
Proof.
  apply map_eq. intros k. rewrite overlay_lookup, !rows_where_lookup, view_lookup.
  by destruct (in_range k).
Qed.

Lemma range_skips_contains s e k : negb (range_skips s e k) = range_contains s e k.
Proof.
  unfold range_skips, range_contains. rewrite negb_orb, <- bytes_leb_ltb. f_equal.
  destruct e as [e|]; [|done]. by rewrite bytes_leb_ltb, negb_involutive.
Qed.

Lemma materialize_range_view base t s e limit reverse :
  materialize_range_of base t s e limit reverse =
  collect_range (rows_where (range_contains s e) (view base (mt_pending t))) limit reverse.
Proof. unfold materialize_range_of, overlay_pending. by rewrite overlay_rows_where. Qed.

Lemma materialize_prefix_view base t prefix :
  materialize_prefix_of base t prefix =
  btree_iter (rows_where (fun k => starts_with k prefix) (view base (mt_pending t))).
Proof. unfold materialize_prefix_of, overlay_pending. by rewrite overlay_rows_where. Qed.

(** ** The record loops *)

Lemma take_records_all rows l : take_records None rows l = foldl insert_record rows l.
Proof. revert rows. induction l as [|r l IH]; intros rows; [done|]. cbn. apply IH. Qed.

Lemma take_batches_all bs : forall rows, take_batches None rows bs = foldl insert_record rows (concat bs).
Proof.
  induction bs as [|b bs IH]; intros rows; [done|].
  cbn. rewrite IH, take_records_all, foldl_app. done.
Qed.

Lemma take_records_spec limit l : forall rows, exists m,
  take_records limit rows l = foldl insert_record rows (take m l) /\
  ((m < length l)%nat -> limit_reached limit (take_records limit rows l) = true).
Proof.
  induction l as [|r l IH]; intros rows; [exists 0%nat; split; [done|cbn; lia]|].
  cbn [take_records]. destruct (limit_reached limit (insert_record rows r)) eqn:E.
  - exists 1%nat. split; [done|]. by intros _.
  - destruct (IH (insert_record rows r)) as (m & Hm & Hlim). exists (S m). split; [exact Hm|].
    cbn [length]. intros Hlt. apply Hlim. lia.
Qed.

(** The batches are read up to some point, the end unless the limit is reached. *)
Lemma take_batches_spec limit bs : forall rows, exists m,
  take_batches limit rows bs = foldl insert_record rows (take m (concat bs)) /\
  ((m < length (concat bs))%nat -> limit_reached limit (take_batches limit rows bs) = true).
Proof.
  induction bs as [|b bs IH]; intros rows; [exists 0%nat; split; [done|cbn; lia]|].
  cbn [take_batches concat]. destruct (take_records_spec limit b rows) as (m & Hm & Hlt).
  destruct (limit_reached limit (take_records limit rows b)) eqn:E.
  - exists (Nat.min m (length b)). rewrite take_app_le by lia. split; [|done].
    rewrite Hm. f_equal. destruct (decide (m <= length b)%nat).
    + by rewrite Nat.min_l.
    + by rewrite !take_ge by lia.
  - assert (length b <= m)%nat as Hge by (destruct (decide (m < length b)%nat); [naive_solver|lia]).
    rewrite take_ge in Hm by done. destruct (IH (take_records limit rows b)) as (m' & Hm' & Hlt').
    exists (length b + m')%nat. rewrite Hm', Hm, take_app_add, foldl_app. split; [done|].
    rewrite length_app. intros Hl. rewrite <- Hm, <- Hm'. apply Hlt'. lia.
Qed.

Definition some_row (kv : kvrow) : record := (Some kv.1, Some kv.2).

Lemma insert_records_lookup (l : list kvrow) : forall (rows : kvmap) (k : key),
  NoDup (map fst l) ->
  foldl insert_record rows (map some_row l) !! k =
    match list_to_map (M := kvmap) l !! k with Some v => Some v | None => rows !! k end.
Proof.
  induction l as [|[k' v] l IH]; intros rows k Hnd; [done|].
  cbn in Hnd. apply NoDup_cons in Hnd as [Hn Hnd]. cbn [map foldl list_to_map foldr].
  rewrite IH by done. cbn [uncurry some_row insert_record fst snd].
  destruct (decide (k' = k)) as [->|Hk].
  - rewrite (proj1 (not_elem_of_list_to_map l k)) by done. by rewrite !lookup_insert_eq.
  - by rewrite !lookup_insert_ne by done.
Qed.

Lemma in_order_nodup {A} (reverse : bool) (m : gmap key A) :
  NoDup (map fst (in_order reverse (btree_iter m))).
Proof.
  destruct reverse; cbn [in_order]; [|apply btree_iter_nodup].
  rewrite <- (Permutation_rev (btree_iter m)). apply btree_iter_nodup.
Qed.

Lemma insert_records_all (reverse : bool) (m : kvmap) :
  foldl insert_record ∅ (map some_row (in_order reverse (btree_iter m))) = m.
Proof.
  apply map_eq. intros k. rewrite insert_records_lookup by apply in_order_nodup.
  rewrite lookup_empty. destruct (list_to_map _ !! k) as [v|] eqn:E.
  - apply elem_of_list_to_map_2 in E. by rewrite in_order_elem, btree_iter_elem in E.
  - destruct (m !! k) as [v|] eqn:Em; [|done]. exfalso.
    apply not_elem_of_list_to_map in E. apply E, list_elem_of_fmap. exists (k, v).
    split; [done|]. by rewrite in_order_elem, btree_iter_elem.
Qed.

Lemma starts_with_in_range p k : range_contains [] None k && starts_with k p = starts_with k p.
Proof. unfold range_contains, bytes_leb. rewrite bytes_cmp_nil_l. by destruct k. Qed.

Lemma rows_where_ext (p q : key -> bool) (m : kvmap) :
  (forall k, p k = q k) -> rows_where p m = rows_where q m.
Proof. intros H. apply map_eq. intros k. by rewrite !rows_where_lookup, H. Qed.

Lemma overlay_step_ext (p q : key -> bool) (l : list (key * option (list byte))) (rows : kvmap) :
  (forall k, p k = q k) -> foldl (overlay_step p) rows l = foldl (overlay_step q) rows l.
Proof.
  intros H. revert rows. induction l as [|e l IH]; intros rows; [done|].
  cbn. rewrite IH. f_equal. unfold overlay_step. by rewrite H.
Qed.

(** ** The implementations meet the contract *)

#[export] Program Instance memory_transaction_laws : KvTransactionLaws MemoryTransaction kvmap := {|
  committed := id;
  staged := mt_pending;
|}.
Next Obligation. done. Qed.
Next Obligation. done. Qed.
Next Obligation. done. Qed.
Next Obligation. intros w t k. cbn. unfold mt_get. by rewrite view_lookup. Qed.
Next Obligation.
  intros t k. cbn. unfold mt_has_pending_key. destruct (mt_pending t !! k);
    [by rewrite bool_decide_eq_true_2|by rewrite bool_decide_eq_false_2 by (by intros [? ?])].
Qed.
Next Obligation. intros w t p. exact (f_equal Ok (materialize_prefix_view w t p)). Qed.
Next Obligation. intros w t st e reverse. exact (f_equal Ok (materialize_range_view w t st e None reverse)). Qed.
Next Obligation.
  intros w t. cbn. eexists _, _. split; [done|]. apply overlay_all.
Qed.

Section EngineLemmas.
Context {W : Type} `{EngineLaws W}.

Lemma et_scan_range_all w t s e reverse :
  et_scan_range w t s e None reverse =
  Ok (in_order reverse (btree_iter (rows_where (range_contains s e)
    (view (engine_rows w) (et_pending t))))).
Proof.
  unfold et_scan_range. edestruct engine_range as (bs & -> & Hbs). cbn [mbind result_bind].
  rewrite take_batches_all, Hbs. cbn [q_desc take_limit]. fold some_row. do 3 f_equal.
  rewrite (insert_records_all reverse).
  rewrite (overlay_step_ext _ (range_contains s e)) by apply range_skips_contains.
  rewrite <- overlay_rows_where. f_equal. apply rows_where_ext. intros k.
  unfold query_selects. cbn. by rewrite andb_true_r.
Qed.

Lemma et_scan_prefix_all w t p :
  et_scan_prefix w t p =
  Ok (btree_iter (rows_where (fun k => starts_with k p) (view (engine_rows w) (et_pending t)))).
Proof.
  unfold et_scan_prefix. edestruct engine_range as (bs & -> & Hbs). cbn [mbind result_bind].
  rewrite take_batches_all, Hbs. cbn [q_desc]. fold some_row. do 2 f_equal.
  rewrite (insert_records_all false), <- overlay_rows_where. f_equal.
  apply rows_where_ext. apply starts_with_in_range.
Qed.

#[export] Program Instance engine_transaction_laws : KvTransactionLaws KvEngineTransaction W := {|
  committed := engine_rows;
  staged := et_pending;
|}.
Next Obligation. done. Qed.
Next Obligation. done. Qed.
Next Obligation. done. Qed.
Next Obligation.
  intros w t k. cbn. unfold et_get. rewrite view_lookup, engine_get. by destruct (et_pending t !! k).
Qed.
Next Obligation.
  intros t k. cbn. unfold et_has_pending_key. destruct (et_pending t !! k);
    [by rewrite bool_decide_eq_true_2|by rewrite bool_decide_eq_false_2 by (by intros [? ?])].
Qed.
Next Obligation. intros. apply et_scan_prefix_all. Qed.
Next Obligation. intros. apply et_scan_range_all. Qed.
Next Obligation.
  intros w t. cbn. unfold et_commit. case_bool_decide as He.
  - eexists _, _. split; [done|]. rewrite He. apply map_eq. intros k. by rewrite view_lookup.
  - destruct (engine_write w (btree_iter (et_pending t))) as (w' & -> & Hw').
    eexists _, _. split; [done|]. by rewrite Hw', overlay_all.
Qed.
End EngineLemmas.

(** ** Abstract transactions *)

Inductive tx_op : Type :=
  | TPut (k : key) (v : list byte)
  | TPutBatch (entries : list kvrow)
  | TDelete (k : key)
  | TSavepoint (name : string)
  | TRollbackTo (name : string)
  | TRelease (name : string).

(** The outcome of a fallible method: its answer, and the state it leaves. *)
Definition answer {T} (t : T) (r : result string T) : result string unit * T :=
  match r with
  | Ok t' => (Ok tt, t')
  | Err e => (Err e, t)
  | Panic => (Panic, t)
  | OutOfFuel => (OutOfFuel, t)
  end.

(** One client call on a transaction. *)
Definition mt_op (op : tx_op) (t : MemoryTransaction) : result string unit * MemoryTransaction :=
  match op with
  | TPut k v => (Ok tt, mt_put k v t)
  | TPutBatch es => (Ok tt, mt_put_batch es t)
  | TDelete k => (Ok tt, mt_delete k t)
  | TSavepoint name => (Ok tt, mt_savepoint name t)
  | TRollbackTo name => answer t (mt_rollback_to_savepoint name t)
  | TRelease name => answer t (mt_release_savepoint name t)
  end.

Fixpoint run_ops {T} (step : tx_op -> T -> result string unit * T) (ops : list tx_op) (t : T)
    : list (result string unit) * T :=
  match ops with
  | [] => ([], t)
  | op :: r =>
      let '(a, t) := step op t in let '(l, t) := run_ops step r t in (a :: l, t)
  end.

(** The specification: a private copy of the store, and a stack of saved copies
    with the newest first. *)
Record PrivateCopy : Type := { pc_rows : kvmap; pc_saved : list (string * kvmap) }.

Fixpoint find_saved {A} (name : string) (stack : list (string * A))
    : option (A * list (string * A)) :=
  match stack with
  | [] => None
  | (n, m) :: r => if decide (n = name) then Some (m, r) else find_saved name r
  end.

Definition pc_op (op : tx_op) (c : PrivateCopy) : result string unit * PrivateCopy :=
  match op with
  | TPut k v => (Ok tt, {| pc_rows := <[k := v]> (pc_rows c); pc_saved := pc_saved c |})
  | TPutBatch es =>
      (Ok tt, {| pc_rows := store_put_batch es (pc_rows c); pc_saved := pc_saved c |})
  | TDelete k => (Ok tt, {| pc_rows := delete k (pc_rows c); pc_saved := pc_saved c |})
  | TSavepoint name =>
      (Ok tt, {| pc_rows := pc_rows c;
                 pc_saved := (to_ascii_lowercase name, pc_rows c) :: pc_saved c |})
  | TRollbackTo name =>
      let name := to_ascii_lowercase name in
      match find_saved name (pc_saved c) with
      | Some (rows, older) => (Ok tt, {| pc_rows := rows; pc_saved := (name, rows) :: older |})
      | None => (no_savepoint name, c)
      end
  | TRelease name =>
      let name := to_ascii_lowercase name in
      match find_saved name (pc_saved c) with
      | Some (_, older) => (Ok tt, {| pc_rows := pc_rows c; pc_saved := older |})
      | None => (no_savepoint name, c)
      end
  end.

(** ** Savepoint stacks *)

Lemma find_saved_app {A} name (s1 s2 : list (string * A)) :
  find_saved name (s1 ++ s2) =
    match find_saved name s1 with
    | Some (m, r) => Some (m, r ++ s2)
    | None => find_saved name s2
    end.
Proof.
  induction s1 as [|[n m] s1 IH]; [done|]. cbn. case_decide; [done|apply IH].
Qed.

(** The source's search from the end of the vector finds the newest savepoint. *)
Lemma savepoint_rposition_spec {A} name (l : list (string * A)) :
  match savepoint_rposition name l with
  | Some pos => exists m, l !! pos = Some (name, m) /\
      find_saved name (rev l) = Some (m, rev (take pos l))
  | None => find_saved name (rev l) = None
  end.
Proof.
  induction l as [|[n m] l IH]; [done|]. cbn [savepoint_rposition rev].
  rewrite find_saved_app. destruct (savepoint_rposition name l) as [pos|].
  - destruct IH as (m' & Hl & ->). exists m'. split; [done|]. by rewrite firstn_cons.
  - rewrite IH. cbn [find_saved]. case_decide; [|done]. subst. by exists m.
Qed.

Lemma find_saved_fmap {A B} (f : A -> B) name (s : list (string * A)) :
  find_saved name (map (fun e => (e.1, f e.2)) s) =
    match find_saved name s with
    | Some (m, r) => Some (f m, map (fun e => (e.1, f e.2)) r)
    | None => None
    end.
Proof. induction s as [|[n m] s IH]; [done|]. cbn. case_decide; [done|apply IH]. Qed.

(** Both operations on the savepoint vector, in terms of the newest-first stack. *)
Lemma mt_rollback_to_spec name t :
  mt_rollback_to_savepoint name t =
    match find_saved (to_ascii_lowercase name) (rev (mt_savepoints t)) with
    | Some (p, older) =>
        Ok {| mt_snapshot := mt_snapshot t; mt_pending := p;
              mt_savepoints := rev older ++ [(to_ascii_lowercase name, p)] |}
    | None => no_savepoint (to_ascii_lowercase name)
    end.
Proof.
  unfold mt_rollback_to_savepoint.
  pose proof (savepoint_rposition_spec (to_ascii_lowercase name) (mt_savepoints t)) as H.
  destruct (savepoint_rposition _ _) as [pos|]; [|by rewrite H].
  destruct H as (p & Hl & ->). rewrite Hl. unfold set_pending, set_savepoints. cbn.
  rewrite rev_involutive, Nat.add_1_r. by rewrite (take_S_r _ _ _ Hl).
Qed.

Lemma mt_release_spec name t :
  mt_release_savepoint name t =
    match find_saved (to_ascii_lowercase name) (rev (mt_savepoints t)) with
    | Some (p, older) => Ok (set_savepoints t (rev older))
    | None => no_savepoint (to_ascii_lowercase name)
    end.
Proof.
  unfold mt_release_savepoint.
  pose proof (savepoint_rposition_spec (to_ascii_lowercase name) (mt_savepoints t)) as H.
  destruct (savepoint_rposition _ _) as [pos|]; [|by rewrite H].
  destruct H as (p & Hl & ->). by rewrite rev_involutive.
Qed.

(** ** Views of staged writes *)

Lemma view_empty m : view m ∅ = m.
Proof. apply map_eq. intros k. by rewrite view_lookup. Qed.

Lemma view_insert m p k (o : option (list byte)) :
  view m (<[k := o]> p) =
    match o with Some v => <[k := v]> (view m p) | None => delete k (view m p) end.
Proof.
  apply map_eq. intros k'. rewrite view_lookup. destruct (decide (k = k')) as [<-|Hk].
  - rewrite lookup_insert_eq. destruct o; [by rewrite lookup_insert_eq|by rewrite lookup_delete_eq].
  - rewrite lookup_insert_ne by done. destruct o;
      [rewrite lookup_insert_ne by done|rewrite lookup_delete_ne by done]; by rewrite view_lookup.
Qed.

Lemma view_put_batch m es : forall p,
  view m (foldl (fun (p : pendmap) (e : kvrow) => <[e.1 := Some e.2]> p) p es) =
  store_put_batch es (view m p).
Proof.
  induction es as [|e es IH]; intros p; [done|]. cbn. by rewrite IH, view_insert.
Qed.

(** The transaction and the private copy hold the same rows and savepoints. *)
Definition copies (t : MemoryTransaction) (c : PrivateCopy) : Prop :=
  pc_rows c = view (mt_snapshot t) (mt_pending t) /\
  pc_saved c = map (fun e => (e.1, view (mt_snapshot t) e.2)) (rev (mt_savepoints t)).

Lemma copies_begin store : copies (begin_transaction store) {| pc_rows := store; pc_saved := [] |}.
Proof. split; [|done]. cbn. by rewrite view_empty. Qed.

Lemma copies_step op t c :
  copies t c ->
  (mt_op op t).1 = (pc_op op c).1 /\ copies (mt_op op t).2 (pc_op op c).2 /\
  mt_snapshot (mt_op op t).2 = mt_snapshot t.
Proof.
  intros [Hr Hs]. destruct op as [k v|es|k|name|name|name]; cbn [mt_op pc_op].
  - repeat split; [|done]. cbn. by rewrite view_insert, Hr.
  - repeat split; [|done]. cbn. by rewrite view_put_batch, Hr.
  - repeat split; [|done]. cbn. by rewrite view_insert, Hr.
  - repeat split; [done|]. cbn. rewrite rev_app_distr. cbn. by rewrite Hs, Hr.
  - rewrite mt_rollback_to_spec, Hs, find_saved_fmap.
    destruct (find_saved _ _) as [[p older]|]; cbn; [|done].
    repeat split. cbn. rewrite rev_app_distr, rev_involutive. done.
  - rewrite mt_release_spec, Hs, find_saved_fmap.
    destruct (find_saved _ _) as [[p older]|]; cbn; [|done].
    repeat split; cbn; [done|by rewrite rev_involutive].
Qed.

Lemma copies_run ops : forall t c,
  copies t c ->
  (run_ops mt_op ops t).1 = (run_ops pc_op ops c).1 /\
  copies (run_ops mt_op ops t).2 (run_ops pc_op ops c).2 /\
  mt_snapshot (run_ops mt_op ops t).2 = mt_snapshot t.
Proof.
  induction ops as [|op ops IH]; intros t c H; [done|]. cbn.
  destruct (copies_step op t c H) as (Ha & Hc & Hs).
  destruct (mt_op op t) as [a t1], (pc_op op c) as [a' c1]. cbn in *. subst a'.
  destruct (IH t1 c1 Hc) as (Hl & Hc' & Hs').
  destruct (run_ops mt_op ops t1) as [l t2], (run_ops pc_op ops c1) as [l' c2]. cbn in *.
  repeat split; [by rewrite Hl|apply Hc'|apply Hc'|congruence].
Qed.

Lemma copies_reads t c :
  copies t c ->
  (forall k, mt_snapshot_get t k = pc_rows c !! k) /\
  (forall start end_ limit reverse, materialize_snapshot_range t start end_ limit reverse =
     store_scan_range (pc_rows c) start end_ limit reverse) /\
  (forall prefix, materialize_snapshot_prefix t prefix = store_scan_prefix (pc_rows c) prefix).
Proof.
  intros [Hr _]. rewrite Hr. repeat split.
  - intros k. unfold mt_snapshot_get. by rewrite view_lookup.
  - intros. apply materialize_range_view.
  - intros. apply materialize_prefix_view.
Qed.

(** ** Concurrent transactions

    Any interleaving of the sessions' calls: each call holds the locks it takes
    for its whole body. *)

Record System : Type := { sys_store : kvmap; sys_txs : gmap nat MemoryTransaction }.

Inductive sys_call : Type :=
  | SBegin (id : nat)
  | STx (id : nat) (op : tx_op)
  | SCommit (id : nat)
  | SPut (k : key) (v : list byte)
  | SDelete (k : key).

Definition sys_step (sys : System) (call : sys_call) : System :=
  match call with
  | SBegin id =>
      {| sys_store := sys_store sys;
         sys_txs := <[id := begin_transaction (sys_store sys)]> (sys_txs sys) |}
  | STx id op =>
      {| sys_store := sys_store sys;
         sys_txs := alter (fun t => (mt_op op t).2) id (sys_txs sys) |}
  | SCommit id =>
      match sys_txs sys !! id with
      | Some t => {| sys_store := mt_commit (sys_store sys) t; sys_txs := sys_txs sys |}
      | None => sys
      end
  | SPut k v => {| sys_store := store_put k v (sys_store sys); sys_txs := sys_txs sys |}
  | SDelete k => {| sys_store := store_delete k (sys_store sys); sys_txs := sys_txs sys |}
  end.

Definition sys_run (sys : System) (calls : list sys_call) : System := foldl sys_step sys calls.

(** The calls of transaction [id] among those of all sessions. *)
Definition own_ops (id : nat) (calls : list sys_call) : list tx_op :=
  omap (fun c => match c with STx i op => if decide (i = id) then Some op else None | _ => None end)
    calls.

Lemma sys_run_own id calls : forall sys t,
  sys_txs sys !! id = Some t -> SBegin id ∉ calls ->
  sys_txs (sys_run sys calls) !! id = Some (run_ops mt_op (own_ops id calls) t).2.
Proof.
  induction calls as [|call calls IH]; intros sys t Ht Hb; [done|].
  apply not_elem_of_cons in Hb as [Hc Hb]. cbn [sys_run foldl own_ops omap list_omap].
  destruct call as [i|i op|i|k v|k]; cbn [sys_step].
  - apply IH; [|done]. cbn. rewrite lookup_insert_ne by congruence. done.
  - destruct (decide (i = id)) as [->|Hi].
    + rewrite (IH _ (mt_op op t).2); [|by cbn; rewrite lookup_alter_eq, Ht|done].
      cbn [run_ops]. destruct (mt_op op t) as [a t1]. cbn [snd].
      unfold own_ops. by destruct (run_ops mt_op _ t1).
    + apply IH; [|done]. cbn. by rewrite lookup_alter_ne.
  - destruct (sys_txs sys !! i); by apply IH.
  - by apply IH.
  - by apply IH.
Qed.

(** Operations that name none of the given savepoints. *)
Definition stays_inside (name : string) (older : list string) (op : tx_op) : Prop :=
  match op with
  | TSavepoint n => to_ascii_lowercase n <> name
  | TRollbackTo n | TRelease n => to_ascii_lowercase n ∉ name :: older
  | _ => True
  end.

Lemma find_saved_none {A} name (s : list (string * A)) :
  name ∉ map fst s -> find_saved name s = None.
Proof.
  induction s as [|[n m] s IH]; [done|]. cbn. intros [Hn Hs]%not_elem_of_cons.
  rewrite decide_False by congruence. by apply IH.
Qed.

Lemma find_saved_split {A} name (s : list (string * A)) m r :
  find_saved name s = Some (m, r) -> exists newer, s = newer ++ (name, m) :: r.
Proof.
  induction s as [|[n m'] s IH]; [done|]. cbn. case_decide as H.
  - intros [= <- <-]. subst. by exists [].
  - intros (newer & ->)%IH. by exists ((n, m') :: newer).
Qed.

(** [t] still holds savepoint [(name, p)] above [base], unshadowed. *)
Definition holds_savepoint (t : MemoryTransaction) (m : kvmap) (base : list (string * pendmap))
    (name : string) (p : pendmap) : Prop :=
  mt_snapshot t = m /\
  exists newer, rev (mt_savepoints t) = newer ++ (name, p) :: rev base /\ name ∉ map fst newer.

Lemma find_saved_newer {A} n (newer : list (string * A)) name p base m r :
  n ∉ name :: map fst base ->
  find_saved n (newer ++ (name, p) :: rev base) = Some (m, r) ->
  exists newer', r = newer' ++ (name, p) :: rev base /\ (name ∉ map fst newer -> name ∉ map fst newer').
Proof.
  intros [Hn Hb]%not_elem_of_cons. rewrite find_saved_app.
  destruct (find_saved n newer) as [[m' r']|] eqn:E.
  - intros [= <- <-]. apply find_saved_split in E as (between & ->). exists r'.
    split; [done|]. rewrite map_app. cbn. set_solver.
  - cbn. rewrite decide_False by congruence. rewrite find_saved_none; [done|].
    rewrite map_rev. by rewrite <- (Permutation_rev (map fst base)).
Qed.

Lemma holds_savepoint_step op t m base name p :
  stays_inside name (map fst base) op ->
  holds_savepoint t m base name p -> holds_savepoint (mt_op op t).2 m base name p.
Proof.
  intros Hop (Hm & newer & Hs & Hn). unfold holds_savepoint.
  destruct op as [k v|es|k|n|n|n]; cbn [mt_op stays_inside] in *.
  - split; [done|]. by exists newer.
  - split; [done|]. by exists newer.
  - split; [done|]. by exists newer.
  - split; [done|]. exists ((to_ascii_lowercase n, mt_pending t) :: newer). cbn.
    rewrite rev_app_distr, Hs. split; [done|]. by apply not_elem_of_cons.
  - rewrite mt_rollback_to_spec. rewrite Hs.
    destruct (find_saved _ _) as [[q older]|] eqn:E; cbn; [|split; [done|by exists newer]].
    split; [done|]. destruct (find_saved_newer _ _ _ _ _ _ _ Hop E) as (newer' & -> & Hnew).
    exists ((to_ascii_lowercase n, q) :: newer'). cbn.
    rewrite rev_app_distr, rev_involutive. split; [done|].
    apply not_elem_of_cons in Hop as [Hne _]. apply not_elem_of_cons. split; [congruence|].
    by apply Hnew.
  - rewrite mt_release_spec. rewrite Hs.
    destruct (find_saved _ _) as [[q older]|] eqn:E; cbn; [|split; [done|by exists newer]].
    split; [done|]. destruct (find_saved_newer _ _ _ _ _ _ _ Hop E) as (newer' & -> & Hnew).
    exists newer'. rewrite rev_involutive. split; [done|]. by apply Hnew.
Qed.

(** ** A concrete engine: one batch per query *)

#[export] Instance map_engine : Engine kvmap := {|
  get_async m k := Ok (m !! k);
  range_query m q :=
    Ok [map some_row (in_order (q_desc q) (btree_iter (rows_where (query_selects q) m)))];
  write_opt_async m writes := Ok (apply_writes m writes);
|}.

#[export] Program Instance map_engine_laws : EngineLaws kvmap := {| engine_rows := id |}.
Next Obligation. done. Qed.
Next Obligation. intros m q. eexists. split; [done|]. cbn. by rewrite app_nil_r. Qed.
Next Obligation. intros m ws. by eexists. Qed.

(** ** The client's view of a transaction *)

Inductive kv_write : Type :=
  | WPut (k : key) (v : list byte)
  | WPutBatch (entries : list kvrow)
  | WDelete (k : key).

Definition kt_write `{KvTransaction T W} (t : T) (w : kv_write) : T :=
  match w with
  | WPut k v => kt_put k v t
  | WPutBatch es => kt_put_batch es t
  | WDelete k => kt_delete k t
  end.

Definition map_write (m : kvmap) (w : kv_write) : kvmap :=
  match w with
  | WPut k v => store_put k v m
  | WPutBatch es => store_put_batch es m
  | WDelete k => store_delete k m
  end.

Lemma view_writes `{KvTransactionLaws T W} m writes : forall t,
  view m (staged (foldl kt_write t writes)) = foldl map_write (view m (staged t)) writes.
Proof.
  induction writes as [|w writes IH]; intros t; [done|]. cbn. rewrite IH. f_equal.
  destruct w; cbn; rewrite ?law_put, ?law_put_batch, ?law_delete;
    [apply view_insert|apply view_put_batch|apply view_insert].
Qed.

(** What a limited read of the batches collects: the first rows of the listing,
    at least [n] of them unless the listing ends. *)
Lemma limited_read (n : nat) (reverse : bool) (stored : kvmap) bs :
  concat bs = map some_row (in_order reverse (btree_iter stored)) ->
  exists m, let first := take m (in_order reverse (btree_iter stored)) in
    (forall k v, take_batches (Some n) ∅ bs !! k = Some v <-> (k, v) ∈ first) /\
    NoDup (map fst first) /\ ((m < size stored)%nat -> (n <= length first)%nat).
Proof.
  intros Hbs. destruct (take_batches_spec (Some n) bs ∅) as (m & Hm & Hlim). exists m.
  rewrite Hbs in Hm, Hlim. rewrite firstn_map in Hm. rewrite length_map in Hlim.
  set (listed := in_order reverse (btree_iter stored)) in *.
  set (read := take_batches (Some n) ∅ bs) in *.
  assert (Hnd : NoDup (map fst (take m listed))).
  { rewrite <- firstn_map. apply (sublist_NoDup _ (map fst listed));
      [apply in_order_nodup|apply sublist_take]. }
  assert (Hread : forall k v, read !! k = Some v <-> (k, v) ∈ take m listed).
  { intros k v. rewrite Hm, insert_records_lookup, lookup_empty by done.
    rewrite (elem_of_list_to_map (M := gmap key)) by done. by destruct (list_to_map _ !! k). }
  split; [done|]. split; [done|]. intros Hlt.
  assert (Hlen : length listed = size stored).
  { rewrite <- btree_iter_length. unfold listed. destruct reverse; [apply length_rev|done]. }
  specialize (Hlim ltac:(lia)). cbn in Hlim. apply Nat.leb_le in Hlim.
  enough (length (take m listed) = size read) by lia.
  rewrite <- (btree_iter_length read). apply Permutation_length.
  apply NoDup_Permutation; [by apply (NoDup_fmap_1 fst)|apply (NoDup_fmap_1 fst), btree_iter_nodup|].
  intros [x v]. by rewrite btree_iter_elem, Hread.
Qed.

(** Rows read from the front of a listing stand before the rows not read. *)
Lemma unread_after {A} (reverse : bool) (stored : gmap key A) (m : nat) (k : key) (v : A) (x : key) (w : A) :
  let listed := in_order reverse (btree_iter stored) in
  (k, v) ∈ listed -> (k, v) ∉ take m listed -> (x, w) ∈ take m listed ->
  key_before reverse x k /\ (m < size stored)%nat.
Proof.
  intros listed Hin Hnin Hx. apply list_elem_of_lookup in Hin as [j Hj].
  assert (m <= j)%nat as Hmj.
  { destruct (decide (j < m)%nat); [|lia]. destruct Hnin. apply list_elem_of_lookup. exists j.
    by apply lookup_take_Some. }
  apply list_elem_of_lookup in Hx as [i Hi]. apply lookup_take_Some in Hi as [Hi Him]. split.
  - apply (strictly_lookup _ listed i j (x, w) (k, v) (in_order_before reverse stored)); [lia|done|done].
  - apply lookup_lt_Some in Hj. rewrite <- btree_iter_length. unfold listed in Hj.
    destruct reverse; cbn [in_order] in Hj; [rewrite length_rev in Hj|]; lia.
Qed.

(** The first [n] rows of a limited engine scan, when nothing in the range is
    staged for deletion. *)
Lemma et_scan_range_limit `{EngineLaws W} (w : W) t s e (n : nat) (reverse : bool) :
  (forall k, range_contains s e k = true -> et_pending t !! k <> Some None) ->
  et_scan_range w t s e (Some n) reverse =
  Ok (take n (in_order reverse (btree_iter (rows_where (range_contains s e)
    (view (engine_rows w) (et_pending t)))))).
Proof.
  intros Hdel. unfold et_scan_range. edestruct engine_range as (bs & -> & Hbs).
  cbn [mbind result_bind take_limit]. f_equal. cbn [q_desc] in Hbs. fold some_row in Hbs.
  rewrite (overlay_step_ext _ (range_contains s e)) by apply range_skips_contains.
  rewrite (rows_where_ext (query_selects _) (range_contains s e)) in Hbs
    by (intros k; unfold query_selects; cbn; apply andb_true_r).
  destruct (limited_read n reverse _ bs Hbs) as (m & Hread & Hnd & Hlim).
  assert (Hst : forall k v, (k, v) ∈ in_order reverse (btree_iter
      (rows_where (range_contains s e) (engine_rows w))) <->
    range_contains s e k = true /\ engine_rows w !! k = Some v).
  { intros k v. rewrite in_order_elem, btree_iter_elem, rows_where_lookup.
    destruct (range_contains s e k); naive_solver. }
  set (stored := rows_where (range_contains s e) (engine_rows w)) in *.
  set (listed := in_order reverse (btree_iter stored)) in *.
  assert (Hsub : forall k v, (k, v) ∈ take m listed ->
    range_contains s e k = true /\ engine_rows w !! k = Some v).
  { intros k v Hkv. by apply Hst, (subseteq_take m listed). }
  apply (strictly_take (fun a b => key_before reverse a.1 b.1));
    [intros a; apply key_before_irrefl|intros a b c; apply key_before_trans|
     apply in_order_before|apply in_order_before|intros [k v]..];
    rewrite !in_order_elem, !btree_iter_elem, overlay_lookup, rows_where_lookup, view_lookup.
  - destruct (range_contains s e k) eqn:Hk, (et_pending t !! k); try done; rewrite Hread;
      intros Hin; apply Hsub in Hin as [? ?]; congruence.
  - destruct (range_contains s e k) eqn:Hk; [|done].
    destruct (et_pending t !! k) as [o|] eqn:Ho; [naive_solver|]. intros Hw Hr.
    rewrite Hread in Hr. assert (Hin : (k, v) ∈ listed) by (by apply Hst).
    apply (first_before reverse _ (map fst (take m listed)) k); [apply in_order_before|done|..].
    + rewrite length_map. destruct (decide (m < size stored)%nat) as [?|Hge]; [auto|].
      destruct Hr. rewrite take_ge; [done|]. unfold listed. rewrite <- btree_iter_length in Hge.
      destruct reverse; cbn [in_order]; [rewrite length_rev|]; lia.
    + intros x Hx. apply list_elem_of_fmap in Hx as ([x' v'] & -> & Hx).
      split; [by eapply (unread_after reverse stored m k v)|].
      destruct (Hsub x' v' Hx) as [Hxr _]. apply list_elem_of_fmap. apply Hread in Hx.
      exists (x', match et_pending t !! x' with Some (Some v2) => v2 | _ => v' end). split; [done|].
      rewrite in_order_elem, btree_iter_elem, overlay_lookup, Hxr.
      pose proof (Hdel x' Hxr). by destruct (et_pending t !! x') as [[v2|]|].
Qed.

(** ** Properties *)

(** Through the [KvTransaction] interface, whichever implementation stands
    behind it: after any staged writes, point reads, prefix scans and range scans
    (in key order, or reversed) show the committed rows with those writes applied
    in sequence, and commit leaves exactly these rows in the store. *)
Theorem transaction_serves_own_writes `{KvTransactionLaws T W} (w : W) (t : T)
    (writes : list kv_write) (k p start : key) (end_ : option key) (reverse : bool) :
  let t' := foldl kt_write t writes in
  let rows := foldl map_write (view (committed w) (staged t)) writes in
  kt_get w t' k = Ok (rows !! k) /\
  kt_scan_prefix w t' p = Ok (store_scan_prefix rows p) /\
  kt_scan_range w t' start end_ None reverse = Ok (store_scan_range rows start end_ None reverse) /\
  exists w' t'', kt_commit w t' = (Ok tt, w', t'') /\ committed w' = rows.
Proof.
  cbn. rewrite law_get, law_scan_prefix, law_scan_range, view_writes.
  repeat split. destruct (law_commit w (foldl kt_write t writes)) as (w' & t'' & Hc & Hw).
  exists w', t''. by rewrite Hw, view_writes.
Qed.

Lemma transaction_serves_own_writes_witness :
  kt_get (KvTransaction := engine_transaction) (<[[x61] := [x01]]> ∅ : kvmap)
    (foldl kt_write {| et_pending := ∅ |} [WPut [x62] [x02]; WDelete [x61]]) [x61] = Ok None /\
  kt_get (KvTransaction := memory_transaction) (<[[x61] := [x01]]> ∅ : kvmap)
    (foldl kt_write (begin_transaction ∅) [WPut [x62] [x02]; WDelete [x61]]) [x61] = Ok None.
Proof.
  split.
  - refine (proj1 (transaction_serves_own_writes (T := KvEngineTransaction) (W := kvmap)
      (<[[x61] := [x01]]> ∅) {| et_pending := ∅ |} [WPut [x62] [x02]; WDelete [x61]] [x61] [] [] None false)).
  - refine (proj1 (transaction_serves_own_writes (T := MemoryTransaction) (W := kvmap)
      (<[[x61] := [x01]]> ∅) (begin_transaction ∅) [WPut [x62] [x02]; WDelete [x61]] [x61] [] [] None false)).
Defined.

(** C22. Snapshot isolation of [MemoryTransaction]: whatever the other sessions
    do (commits, direct writes, transactions of their own), the snapshot reads of a
    transaction are those of a private copy of the store taken when it began, with
    only its own operations applied, savepoints included. *)
Theorem snapshot_isolation (sys : System) (id : nat) (calls : list sys_call) :
  SBegin id ∉ calls ->
  exists t, sys_txs (sys_run (sys_step sys (SBegin id)) calls) !! id = Some t /\
    let copy := (run_ops pc_op (own_ops id calls)
                   {| pc_rows := sys_store sys; pc_saved := [] |}).2 in
    (forall k, mt_snapshot_get t k = pc_rows copy !! k) /\
    (forall start end_ limit reverse, materialize_snapshot_range t start end_ limit reverse =
       store_scan_range (pc_rows copy) start end_ limit reverse) /\
    (forall prefix, materialize_snapshot_prefix t prefix = store_scan_prefix (pc_rows copy) prefix).
Proof.
  intros Hb. eexists. split; [apply sys_run_own; [cbn; apply lookup_insert_eq|done]|].
  cbn zeta. apply copies_reads, copies_run, copies_begin.
Qed.

Lemma snapshot_isolation_witness :
  exists t, sys_txs (sys_run (sys_step {| sys_store := ∅; sys_txs := ∅ |} (SBegin 0))
    [SPut [x61] [x01]; SBegin 1; STx 0 (TPut [x62] [x02])]) !! 0%nat = Some t /\
    mt_snapshot_get t [x61] = None.
Proof.
  destruct (snapshot_isolation {| sys_store := ∅; sys_txs := ∅ |} 0
    [SPut [x61] [x01]; SBegin 1; STx 0 (TPut [x62] [x02])]) as (t & Ht & Hget & _).
  - do 3 (apply not_elem_of_cons; split; [discriminate|]). apply not_elem_of_nil.
  - exists t. split; [exact Ht|]. rewrite Hget. vm_compute. reflexivity.
Defined.

(** A transaction refines its specification call by call: on any sequence of
    writes, savepoints, rollbacks and releases the answers are those of a private
    copy with a stack of saved copies (an unknown savepoint is an error that changes
    nothing, a rollback keeps its savepoint and drops the newer ones, a release
    drops both), no call panics, and the copy's rows are what the transaction reads. *)
Theorem transaction_refines_private_copy (store : kvmap) (ops : list tx_op) :
  let impl := run_ops mt_op ops (begin_transaction store) in
  let spec := run_ops pc_op ops {| pc_rows := store; pc_saved := [] |} in
  impl.1 = spec.1 /\ Forall settles impl.1 /\ copies impl.2 spec.2 /\
  forall k, mt_snapshot_get impl.2 k = pc_rows spec.2 !! k.
Proof.
  cbn. destruct (copies_run ops _ _ (copies_begin store)) as (Ha & Hc & _).
  rewrite Ha. repeat split; [|apply Hc..|by apply copies_reads].
  generalize {| pc_rows := store; pc_saved := [] |}. clear.
  induction ops as [|op ops IH]; intros c; [constructor|]. cbn.
  assert (Hop : settles (pc_op op c).1).
  { destruct op; cbn; try done; by destruct (find_saved _ _) as [[? ?]|]. }
  destruct (pc_op op c) as [a c1]. specialize (IH c1). destruct (run_ops pc_op ops c1). cbn in *.
  by constructor.
Qed.

(** Rolling back to a savepoint restores the staged writes and the savepoints
    of the moment it was set, case-insensitively in the name, after any operations
    that neither reuse its name nor roll back or release past it; the savepoint
    itself stays, so it can be rolled back to again. *)
Theorem savepoint_rollback_restores (t : MemoryTransaction) (name name' : string) (ops : list tx_op) :
  to_ascii_lowercase name' = to_ascii_lowercase name ->
  Forall (stays_inside (to_ascii_lowercase name) (map fst (mt_savepoints t))) ops ->
  mt_op (TRollbackTo name') (run_ops mt_op ops (mt_savepoint name t)).2 =
    (Ok tt, mt_savepoint name t).
Proof.
  intros Hname Hops.
  assert (Hh : forall t', holds_savepoint t' (mt_snapshot t) (mt_savepoints t)
      (to_ascii_lowercase name) (mt_pending t) ->
    holds_savepoint (run_ops mt_op ops t').2 (mt_snapshot t) (mt_savepoints t)
      (to_ascii_lowercase name) (mt_pending t)).
  { induction Hops as [|op ops Hop Hops IH]; intros t' Ht; [done|]. cbn.
    pose proof (holds_savepoint_step op t' _ _ _ _ Hop Ht) as Ht1.
    destruct (mt_op op t') as [a t1]. specialize (IH t1 Ht1). by destruct (run_ops mt_op ops t1). }
  destruct (Hh (mt_savepoint name t)) as (Hm & newer & Hs & Hn).
  { split; [done|]. exists []. cbn. rewrite rev_app_distr. split; [done|apply not_elem_of_nil]. }
  cbn [mt_op]. rewrite mt_rollback_to_spec, Hname, Hs, find_saved_app, find_saved_none by done.
  cbn [find_saved]. rewrite decide_True by done. cbn. by rewrite Hm, rev_involutive.
Qed.

Lemma savepoint_rollback_restores_witness :
  mt_op (TRollbackTo "SP") (run_ops mt_op [TPut [x61] [x01]; TSavepoint "b"; TRelease "B"]
    (mt_savepoint "sp" (begin_transaction ∅))).2 = (Ok tt, mt_savepoint "sp" (begin_transaction ∅)).
Proof.
  apply (savepoint_rollback_restores (begin_transaction ∅) "sp" "SP"
    [TPut [x61] [x01]; TSavepoint "b"; TRelease "B"]); [vm_compute; reflexivity|].
  repeat constructor; apply (bool_decide_eq_true_1 _); vm_compute; reflexivity.
Defined.

(** A limited scan of [KvEngineTransaction] gives the first rows of the
    transaction's view, provided nothing in the range is staged for deletion: the
    limit is applied to the stored rows before the staged writes are laid over
    them, so a staged deletion inside the first rows would not be made up for. *)
Theorem engine_limited_scan `{EngineLaws W} (w : W) (t : KvEngineTransaction) (start : key)
    (end_ : option key) (n : nat) (reverse : bool) :
  (forall k, range_contains start end_ k = true -> et_pending t !! k <> Some None) ->
  et_scan_range w t start end_ (Some n) reverse =
  Ok (store_scan_range (view (engine_rows w) (et_pending t)) start end_ (Some n) reverse).
Proof. apply et_scan_range_limit. Qed.

Definition sample_table : kvmap := <[[x61] := [x01]]> (<[[x62] := [x02]]> (<[[x63] := [x03]]> ∅)).

Lemma engine_limited_scan_witness :
  et_scan_range sample_table {| et_pending := <[[x60] := Some [x09]]> ∅ |} [] None (Some 2%nat) false =
  Ok [([x60], [x09]); ([x61], [x01])].
Proof.
  rewrite (engine_limited_scan sample_table {| et_pending := <[[x60] := Some [x09]]> ∅ |}
    [] None 2 false); [vm_compute; reflexivity|].
  intros k _. cbn [et_pending]. destruct (decide ([x60] = k)) as [<-|Hk].
  - rewrite lookup_insert_eq. congruence.
  - rewrite lookup_insert_ne by done. rewrite lookup_empty. congruence.
Defined.

(** With a staged deletion the two implementations disagree: the in-memory
    transaction answers row [b], the engine transaction answers no row at all. *)
Example engine_limited_scan_misses_row :
  let staged := <[[x61] := None]> ∅ in
  et_scan_range sample_table {| et_pending := staged |} [] None (Some 1%nat) false = Ok [] /\
  materialize_range sample_table
    {| mt_snapshot := sample_table; mt_pending := staged; mt_savepoints := [] |}
    [] None (Some 1%nat) false = [([x62], [x02])].
Proof. split; vm_compute; reflexivity. Qed.

(** [rollback] of the in-memory transaction leaves the staged writes in place. *)
Example memory_rollback_keeps_staged :
  mt_commit ∅ (mt_rollback (mt_put [x61] [x01] (begin_transaction ∅))) = <[[x61] := [x01]]> ∅.
Proof. vm_compute. reflexivity. Qed.
