(* ===== verification/Stores.v ===== *)
(** * The stores behind the server

    The [KvStore] trait of src/src/mem_store.rs and its two implementations,
    [MemoryKvStore] (the functions [store_*] of [KvStore]) and [KvEngineStore] of
    src/src/kv_engine_store/store.rs, with the contract the server relies on.

    A store is a value of [W]; an operation that writes returns the next one.  The
    storage engine is a parameter ([Engine], [EngineStore]) with its documented
    behaviour as laws.  [usize] and [u64] counters are naturals: none can pass the
    number of rows.  [sync_wal] and [compact_storage] change no row and are left out. *)

From S2P Require Import Prelude BTree Float Types KeyCodec RowCodec KvStore.

(** ** The trait *)

(** [.map_err(|e| user_error(code, e))]. *)
Definition coded {A} (code : string) (r : result string A) : PgWireResult A :=
  map_err (fun e => PgError code e) r.

Class KvStoreApi (W T : Type) := {
  ks_put : key -> list byte -> W -> result string W;
  ks_put_batch : list kvrow -> W -> result string W;
  ks_delete : key -> W -> result string W;
  ks_get : W -> key -> result string (option (list byte));
  ks_multi_get : W -> list key -> result string (list (option (list byte)));
  ks_scan_prefix : W -> key -> result string (list kvrow);
  ks_scan_range : W -> key -> option key -> option nat -> bool -> result string (list kvrow);
  ks_scan_range_projected : W -> key -> option key -> option nat -> bool -> KvScanProjection ->
    result string (list (key * option (list byte)));
  ks_count_range : W -> key -> option key -> result string Z;
  ks_begin_transaction : W -> result string T;
}.

#[export] Instance memory_store : KvStoreApi kvmap MemoryTransaction := {|
  ks_put k v m := Ok (store_put k v m);
  ks_put_batch entries m := Ok (store_put_batch entries m);
  ks_delete k m := Ok (store_delete k m);
  ks_get m k := Ok (store_get m k);
  ks_multi_get m keys := Ok (store_multi_get m keys);
  ks_scan_prefix m p := Ok (store_scan_prefix m p);
  ks_scan_range m s e limit reverse := Ok (store_scan_range m s e limit reverse);
  ks_scan_range_projected m s e limit reverse projection :=
    Ok (store_scan_range_projected m s e limit reverse projection);
  ks_count_range m s e := Ok (store_count_range m s e);
  ks_begin_transaction m := Ok (begin_transaction m);
|}.

(** ** [KvEngineStore] *)

(** What the store calls of the engine beside [Engine].  A query may ask for keys
    only; [scan_ref] hands the records to its callback one by one. *)
Class EngineStore (W : Type) `{Engine W} := {
  put_opt_async : W -> key -> list byte -> result string W;
  delete_opt_async : W -> key -> result string W;
  multi_get_async : W -> list key -> result string (list (option (list byte)));
  range_query_projected : W -> SchemalessRangeQuery -> KvScanProjection ->
    result string (list (list record));
  scan_ref : W -> SchemalessRangeQuery -> KvScanProjection -> result string (list kvrow);
}.

(** [65_536]. *)
Definition batch_records : nat := Z.to_nat 65536.

Definition engine_query (start : option key) (end_ : option key) (scan_prefix : option key) (desc : bool)
    (max_records : option nat) : SchemalessRangeQuery :=
  {| q_start := start; q_end := end_; q_scan_prefix := scan_prefix; q_desc := desc;
     q_max_records_per_batch := max_records |}.

Definition full {A} (limit : option nat) (rows : list A) : bool :=
  match limit with Some n => (n <=? length rows)%nat | None => false end.

(** The loop over the records of a batch; [keep] is what a record adds. *)
Fixpoint collect_records {A} (keep : record -> option A) (limit : option nat) (rows : list A)
    (records : list record) : list A :=
  match records with
  | [] => rows
  | r :: rest =>
      let rows := match keep r with Some a => rows ++ [a] | None => rows end in
      if full limit rows then rows else collect_records keep limit rows rest
  end.

(** The loop over the batches. *)
Fixpoint collect_batches {A} (keep : record -> option A) (limit : option nat) (rows : list A)
    (batches : list (list record)) : list A :=
  match batches with
  | [] => rows
  | b :: rest =>
      let rows := collect_records keep limit rows b in
      if full limit rows then rows else collect_batches keep limit rows rest
  end.

Definition keep_row (r : record) : option kvrow :=
  match r with (Some k, Some v) => Some (k, v) | _ => None end.
Definition keep_key (r : record) : option (key * option (list byte)) :=
  match r with (Some k, v) => Some (k, v) | _ => None end.

Section EngineKvStore.
Context {W : Type} `{EngineStore W}.

Definition es_put (k : key) (v : list byte) (table : W) : result string W := put_opt_async table k v.

(** A [SchemalessWriteBatch] of puts. *)
Definition es_put_batch (entries : list kvrow) (table : W) : result string W :=
  write_opt_async table (map (fun e => (e.1, Some e.2)) entries).

Definition es_delete (k : key) (table : W) : result string W := delete_opt_async table k.
Definition es_get (table : W) (k : key) : result string (option (list byte)) := get_async table k.
Definition es_multi_get (table : W) (keys : list key) : result string (list (option (list byte))) :=
  multi_get_async table keys.

Definition es_scan_prefix (table : W) (prefix : key) : result string (list kvrow) :=
  batches ← range_query table (engine_query None None (Some prefix) false None);
  Ok (collect_batches keep_row None [] batches).

Definition es_scan_range (table : W) (start : key) (end_ : option key) (limit : option nat)
    (reverse : bool) : result string (list kvrow) :=
  batches ← range_query table (engine_query (Some start) end_ None reverse
              ((fun n => Nat.max n 1) <$> limit));
  Ok (collect_batches keep_row limit [] batches).

Definition es_scan_range_projected (table : W) (start : key) (end_ : option key) (limit : option nat)
    (reverse : bool) (projection : KvScanProjection) : result string (list (key * option (list byte))) :=
  batches ← range_query_projected table (engine_query (Some start) end_ None reverse
              (Some (Nat.max (default batch_records limit) 1))) projection;
  Ok (collect_batches keep_key limit [] batches).

(** [KvStore::visit_range] of the engine: the callback gets the bytes of the record
    even where only keys are asked for. *)
Definition es_visit_range {S : Type} (table : W) (start : key) (end_ : option key) (reverse : bool)
    (projection : KvScanProjection) (visitor : S -> key -> option (list byte) -> result string (bool * S))
    (s : S) : result string S :=
  rows ← scan_ref table (engine_query (Some start) end_ None reverse (Some batch_records)) projection;
  visit_rows visitor s (map (fun kv : kvrow => (kv.1, Some kv.2)) rows).

Definition es_count_range (table : W) (start : key) (end_ : option key) : result string Z :=
  batches ← range_query_projected table (engine_query (Some start) end_ None false (Some batch_records)) KeyOnly;
  Ok (foldl (fun count (b : list record) => Z.min (count + len b) u64_max) 0 batches).

Definition es_begin_transaction (table : W) : result string KvEngineTransaction :=
  Ok {| et_pending := ∅ |}.

#[export] Instance engine_store : KvStoreApi W KvEngineTransaction := {|
  ks_put := es_put;
  ks_put_batch := es_put_batch;
  ks_delete := es_delete;
  ks_get := es_get;
  ks_multi_get := es_multi_get;
  ks_scan_prefix := es_scan_prefix;
  ks_scan_range := es_scan_range;
  ks_scan_range_projected := es_scan_range_projected;
  ks_count_range := es_count_range;
  ks_begin_transaction := es_begin_transaction;
|}.

(** *** Rewriting rows to the fixed format *)

Record RewriteState : Type := {
  rw_table : W;
  rw_scanned : nat;
  rw_rewritten : nat;
  rw_pending : list kvrow;
}.

Definition flush_rewrites (st : RewriteState) : result string RewriteState :=
  table ← write_opt_async (rw_table st) (map (fun e => (e.1, Some e.2)) (rw_pending st));
  Ok {| rw_table := table; rw_scanned := rw_scanned st; rw_rewritten := rw_rewritten st;
        rw_pending := [] |}.

Definition rewrite_record (show_error : pg_error -> string) (schema : TableSchema) (batch_size : nat)
    (st : RewriteState) (r : record) : result string RewriteState :=
  match r with
  | (Some k, Some value) =>
      encoded ← map_err show_error (reencode_row_record_fast schema value);
      let st :=
        match encoded with
        | Some encoded =>
            {| rw_table := rw_table st; rw_scanned := S (rw_scanned st);
               rw_rewritten := S (rw_rewritten st); rw_pending := rw_pending st ++ [(k, encoded)] |}
        | None =>
            {| rw_table := rw_table st; rw_scanned := S (rw_scanned st);
               rw_rewritten := rw_rewritten st; rw_pending := rw_pending st |}
        end in
      if (Nat.max batch_size 1 <=? length (rw_pending st))%nat then flush_rewrites st else Ok st
  | _ => Ok st
  end.

(** [rewrite_table_rows_to_fast_format]; the cursor reads the table as it was opened. *)
Definition rewrite_table_rows_to_fast_format (show_error : pg_error -> string) (schema : TableSchema)
    (batch_size : nat) (table : W) : result string (W * (nat * nat)) :=
  let range := row_range (table_id schema) (table_epoch schema) None in
  batches ← range_query table (engine_query (Some (rs_start range)) (rs_end range) None false None);
  st ← fold_m (fun st records => fold_m (rewrite_record show_error schema batch_size) st records)
         {| rw_table := table; rw_scanned := 0; rw_rewritten := 0; rw_pending := [] |} batches;
  st ← (match rw_pending st with [] => Ok st | _ => flush_rewrites st end);
  Ok (rw_table st, (rw_scanned st, rw_rewritten st)).
End EngineKvStore.
Arguments RewriteState : clear implicits.

(** ** The engine's promises and the trait's contract *)

Definition read_record (projection : KvScanProjection) (row : kvrow) : record :=
  (Some row.1, match projection with KeyOnly => None | KeyValue => Some row.2 end).

(** Documented behaviour of the calls of [EngineStore]. *)
Class EngineStoreLaws (W : Type) `{EngineStore W, !EngineLaws W} := {
  engine_put : forall w k v, exists w', put_opt_async w k v = Ok w' /\
    engine_rows w' = <[k := v]> (engine_rows w);
  engine_delete : forall w k, exists w', delete_opt_async w k = Ok w' /\
    engine_rows w' = delete k (engine_rows w);
  engine_multi_get : forall w keys, multi_get_async w keys = Ok (map (fun k => engine_rows w !! k) keys);
  engine_range_projected : forall w q projection, exists batches,
    range_query_projected w q projection = Ok batches /\
    concat batches = map (read_record projection)
      (in_order (q_desc q) (btree_iter (rows_where (query_selects q) (engine_rows w))));
  engine_scan_ref : forall w q projection, exists rows, scan_ref w q projection = Ok rows /\
    map fst rows = map fst (in_order (q_desc q) (btree_iter (rows_where (query_selects q) (engine_rows w)))) /\
    (projection = KeyValue ->
     rows = in_order (q_desc q) (btree_iter (rows_where (query_selects q) (engine_rows w))));
}.

(** The contract of a [KvStore]: an ordered map.  A limit is at least one. *)
Class KvStoreLaws (W T : Type) `{KvStoreApi W T} := {
  store_rows : W -> kvmap;
  law_ks_put : forall k v w, exists w', ks_put k v w = Ok w' /\
    store_rows w' = store_put k v (store_rows w);
  law_ks_put_batch : forall es w, exists w', ks_put_batch es w = Ok w' /\
    store_rows w' = store_put_batch es (store_rows w);
  law_ks_delete : forall k w, exists w', ks_delete k w = Ok w' /\
    store_rows w' = store_delete k (store_rows w);
  law_ks_get : forall w k, ks_get w k = Ok (store_rows w !! k);
  law_ks_multi_get : forall w keys, ks_multi_get w keys = Ok (store_multi_get (store_rows w) keys);
  law_ks_scan_prefix : forall w p, ks_scan_prefix w p = Ok (store_scan_prefix (store_rows w) p);
  law_ks_scan_range : forall w s e limit reverse, limit <> Some 0%nat ->
    ks_scan_range w s e limit reverse = Ok (store_scan_range (store_rows w) s e limit reverse);
  law_ks_scan_range_projected : forall w s e limit reverse projection, limit <> Some 0%nat ->
    ks_scan_range_projected w s e limit reverse projection =
      Ok (store_scan_range_projected (store_rows w) s e limit reverse projection);
  law_ks_count_range : forall w s e, Z.of_nat (size (store_rows w)) <= u64_max ->
    ks_count_range w s e = Ok (len (btree_iter (rows_where (range_contains s e) (store_rows w))));
}.

Lemma rows_where_size p m : (length (btree_iter (rows_where p m)) <= size m)%nat.
Proof.
  rewrite btree_iter_length. unfold rows_where.
  rewrite <- !size_dom. apply subseteq_size. apply dom_filter_subseteq.
Qed.

#[export] Program Instance memory_store_laws : KvStoreLaws kvmap MemoryTransaction := {|
  store_rows := id |}.
Next Obligation. intros. by eexists. Qed.
Next Obligation. intros. by eexists. Qed.
Next Obligation. intros. by eexists. Qed.
Next Obligation. done. Qed.
Next Obligation. done. Qed.
Next Obligation. done. Qed.
Next Obligation. done. Qed.
Next Obligation. done. Qed.
Next Obligation.
  intros w s e Hsize. cbn. f_equal. unfold store_count_range, store_scan_range_projected, store_scan_range, len.
  cbn [take_limit in_order]. rewrite length_map. apply Z.mod_small.
  pose proof (rows_where_size (range_contains s e) w). unfold u64_max in Hsize. cbn in *. lia.
Qed.

(** ** Reading batches *)

Lemma full_app {A} limit (l1 l2 : list A) : full limit l1 = true -> full limit (l1 ++ l2) = true.
Proof.
  destruct limit as [n|]; [|done]. cbn. rewrite length_app, !Nat.leb_le. lia.
Qed.

Lemma take_limit_full {A} limit (l1 l2 : list A) : full limit l1 = true ->
  take_limit limit (l1 ++ l2) = take_limit limit l1.
Proof.
  destruct limit as [n|]; [|done]. cbn. intros Hn%Nat.leb_le. by rewrite take_app_le.
Qed.

Lemma collect_records_spec {A} (keep : record -> option A) (f : kvrow -> A) (g : kvrow -> record) limit l :
  (forall r, keep (g r) = Some (f r)) -> forall rows, full limit rows = false ->
  collect_records keep limit rows (map g l) = take_limit limit (rows ++ map f l).
Proof.
  intros Hk. induction l as [|r l IH]; intros rows Hf.
  - cbn. rewrite app_nil_r. destruct limit as [n|]; [|done]. cbn in *.
    apply Nat.leb_gt in Hf. by rewrite take_ge by lia.
  - cbn [map collect_records]. rewrite Hk.
    replace (rows ++ f r :: map f l) with ((rows ++ [f r]) ++ map f l) by (by rewrite <- app_assoc).
    destruct (full limit (rows ++ [f r])) eqn:E; [|by apply IH].
    rewrite take_limit_full by done. destruct limit as [n|]; [|done]. cbn in *.
    apply Nat.leb_gt in Hf. rewrite length_app in *. cbn in *.
    rewrite take_ge; [done|]. rewrite length_app. cbn. lia.
Qed.

Lemma collect_batches_spec {A} (keep : record -> option A) (f : kvrow -> A) (g : kvrow -> record) limit bs :
  (forall r, keep (g r) = Some (f r)) -> forall rows l, full limit rows = false ->
  concat bs = map g l ->
  collect_batches keep limit rows bs = take_limit limit (rows ++ map f l).
Proof.
  intros Hk. induction bs as [|b bs IH]; intros rows l Hf Hl.
  - cbn in Hl. symmetry in Hl. apply map_eq_nil in Hl as ->. cbn. rewrite app_nil_r.
    destruct limit as [n|]; [|done]. cbn in *. apply Nat.leb_gt in Hf. by rewrite take_ge by lia.
  - cbn in Hl. symmetry in Hl. apply map_eq_app in Hl as (l1 & l2 & -> & Hb & Hbs).
    cbn [collect_batches]. rewrite <- Hb, (collect_records_spec keep f g) by done.
    rewrite map_app, app_assoc.
    destruct (full limit (rows ++ map f l1)) eqn:E.
    + assert (full limit (take_limit limit (rows ++ map f l1)) = true) as ->.
      { destruct limit as [n|]; [|done]. cbn in *. apply Nat.leb_le in E.
        apply Nat.leb_le. rewrite length_take. lia. }
      by rewrite (take_limit_full limit (rows ++ map f l1)).
    + assert (take_limit limit (rows ++ map f l1) = rows ++ map f l1) as Ht.
      { destruct limit as [n|]; [|done]. cbn in *. apply Nat.leb_gt in E. rewrite take_ge; [done|lia]. }
      rewrite Ht, E. by apply IH.
Qed.

Lemma query_selects_range s e k d m : query_selects (engine_query (Some s) e None d m) k = range_contains s e k.
Proof. unfold query_selects. cbn. apply andb_true_r. Qed.

Lemma full_nil {A} limit : limit <> Some 0%nat -> full limit (@nil A) = false.
Proof. destruct limit as [[|n]|]; done. Qed.

Section EngineStoreLemmas.
Context {W : Type} `{EngineStoreLaws W}.

Lemma es_scan_range_spec w s e limit reverse : limit <> Some 0%nat ->
  es_scan_range w s e limit reverse = Ok (store_scan_range (engine_rows w) s e limit reverse).
Proof.
  intros Hl. unfold es_scan_range. edestruct engine_range as (bs & -> & Hbs). cbn [mbind result_bind].
  rewrite (collect_batches_spec keep_row id some_row limit bs ltac:(by intros [? ?]) []
    _ (full_nil limit Hl) Hbs). cbn [app q_desc engine_query]. rewrite map_id. unfold store_scan_range.
  do 4 f_equal. apply rows_where_ext. intros k. apply query_selects_range.
Qed.

Lemma es_scan_prefix_spec w p : es_scan_prefix w p = Ok (store_scan_prefix (engine_rows w) p).
Proof.
  unfold es_scan_prefix. edestruct engine_range as (bs & -> & Hbs). cbn [mbind result_bind].
  rewrite (collect_batches_spec keep_row id some_row None bs ltac:(by intros [? ?]) []
    _ eq_refl Hbs). cbn [app q_desc engine_query take_limit in_order]. rewrite map_id. unfold store_scan_prefix.
  do 2 f_equal. apply rows_where_ext. intros k. apply starts_with_in_range.
Qed.

Lemma es_scan_range_projected_spec w s e limit reverse projection : limit <> Some 0%nat ->
  es_scan_range_projected w s e limit reverse projection =
  Ok (store_scan_range_projected (engine_rows w) s e limit reverse projection).
Proof.
  intros Hl. unfold es_scan_range_projected. edestruct engine_range_projected as (bs & -> & Hbs).
  cbn [mbind result_bind].
  rewrite (collect_batches_spec keep_key (project_row projection) (read_record projection) limit bs
    ltac:(by intros [? ?]; destruct projection) [] _ (full_nil limit Hl) Hbs).
  cbn [app q_desc engine_query]. unfold store_scan_range_projected, store_scan_range.
  rewrite (rows_where_ext _ (range_contains s e)) by (intros k; apply query_selects_range).
  destruct limit as [n|]; cbn [take_limit]; [by rewrite firstn_map|done].
Qed.

Lemma count_batches (bs : list (list record)) : forall c, 0 <= c ->
  foldl (fun count (b : list record) => Z.min (count + len b) u64_max) c bs =
  match bs with [] => c | _ => Z.min (c + len (concat bs)) u64_max end.
Proof.
  induction bs as [|b bs IH]; intros c Hc; [done|]. cbn [foldl concat].
  rewrite IH by (unfold len, u64_max; lia). unfold len. rewrite length_app.
  destruct bs; cbn [concat length]; lia.
Qed.

Lemma es_count_range_spec w s e : Z.of_nat (size (engine_rows w)) <= u64_max ->
  es_count_range w s e = Ok (len (btree_iter (rows_where (range_contains s e) (engine_rows w)))).
Proof.
  intros Hsize. unfold es_count_range. edestruct engine_range_projected as (bs & -> & Hbs).
  cbn [mbind result_bind]. f_equal. rewrite count_batches by lia.
  pose proof (rows_where_size (range_contains s e) (engine_rows w)).
  cbn [q_desc engine_query in_order] in Hbs.
  rewrite (rows_where_ext _ (range_contains s e)) in Hbs by (intros k; apply query_selects_range).
  apply (f_equal length) in Hbs. rewrite length_map in Hbs. unfold len. rewrite <- Hbs.
  destruct bs; [done|]. rewrite Hbs. lia.
Qed.

#[export] Program Instance engine_store_laws : KvStoreLaws W KvEngineTransaction := {|
  store_rows := engine_rows |}.
Next Obligation. intros. apply engine_put. Qed.
Next Obligation.
  intros es w. cbn. unfold es_put_batch. edestruct engine_write as (w' & -> & Hw').
  eexists. split; [done|]. rewrite Hw'. unfold apply_writes, store_put_batch.
  clear Hw'. generalize (engine_rows w). induction es as [|e es IH]; intros m; [done|]. apply IH.
Qed.
Next Obligation. intros. apply engine_delete. Qed.
Next Obligation. intros. apply engine_get. Qed.
Next Obligation. intros. apply engine_multi_get. Qed.
Next Obligation. intros. apply es_scan_prefix_spec. Qed.
Next Obligation. intros. by apply es_scan_range_spec. Qed.
Next Obligation. intros. by apply es_scan_range_projected_spec. Qed.
Next Obligation. intros. by apply es_count_range_spec. Qed.
End EngineStoreLemmas.

(** ** The engine that keeps its rows in a map *)

Definition map_query (m : kvmap) (q : SchemalessRangeQuery) : list kvrow :=
  in_order (q_desc q) (btree_iter (rows_where (query_selects q) m)).

#[export] Instance map_engine_store : EngineStore kvmap := {|
  put_opt_async m k v := Ok (<[k := v]> m);
  delete_opt_async m k := Ok (delete k m);
  multi_get_async m keys := Ok (map (fun k => m !! k) keys);
  range_query_projected m q projection := Ok [map (read_record projection) (map_query m q)];
  scan_ref m q projection := Ok (map_query m q);
|}.

#[export] Instance map_engine_store_laws : EngineStoreLaws kvmap.
Proof.
  constructor.
  - intros. by eexists.
  - intros. by eexists.
  - done.
  - intros m q projection. eexists. split; [done|]. cbn. by rewrite app_nil_r.
  - intros m q projection. eexists. split; [done|]. by split.
Qed.

(** ** Writes and reads of a client *)

Definition ks_write `{KvStoreApi W T} (w : W) (write : kv_write) : result string W :=
  match write with
  | WPut k v => ks_put k v w
  | WPutBatch es => ks_put_batch es w
  | WDelete k => ks_delete k w
  end.

Lemma ks_writes_ok `{KvStoreLaws W T} writes : forall w : W, exists w' : W,
  fold_m ks_write w writes = Ok w' /\ store_rows w' = foldl map_write (store_rows w) writes.
Proof.
  induction writes as [|write writes IH]; intros w; [by exists w|]. cbn [fold_m foldl].
  assert (exists w', ks_write w write = Ok w' /\ store_rows w' = map_write (store_rows w) write)
    as (w1 & -> & <-).
  { destruct write; [apply law_ks_put|apply law_ks_put_batch|apply law_ks_delete]. }
  apply IH.
Qed.

(** C5. The server cannot tell its two stores apart: after any sequence of puts,
    batches of puts and deletes, [KvEngineStore] answers gets, multi-gets, prefix
    scans, range scans and projected range scans (both directions, limits of one or
    more) and counts exactly as [MemoryKvStore] does on the same rows, however the
    engine cuts its answers into batches, and no write fails. *)
Theorem engine_store_refines_memory `{EngineStoreLaws W} (w : W) (writes : list kv_write)
    (k p : key) (keys : list key) (start : key) (end_ : option key) (limit : option nat)
    (reverse : bool) (projection : KvScanProjection) :
  limit <> Some 0%nat ->
  exists (w' : W) (m' : kvmap),
    fold_m ks_write w writes = Ok w' /\ fold_m ks_write (engine_rows w) writes = Ok m' /\
    es_get w' k = ks_get m' k /\ es_multi_get w' keys = ks_multi_get m' keys /\
    es_scan_prefix w' p = ks_scan_prefix m' p /\
    es_scan_range w' start end_ limit reverse = ks_scan_range m' start end_ limit reverse /\
    es_scan_range_projected w' start end_ limit reverse projection =
      ks_scan_range_projected m' start end_ limit reverse projection /\
    (Z.of_nat (size m') <= u64_max -> es_count_range w' start end_ = ks_count_range m' start end_).
Proof.
  intros Hl. destruct (ks_writes_ok (W := W) writes w) as (w' & Hw & Hr).
  destruct (ks_writes_ok (W := kvmap) writes (engine_rows w)) as (m' & Hm & Hr').
  exists w', m'. assert (engine_rows w' = m') as <- by (cbn in *; congruence).
  do 2 (split; [done|]).
  split; [apply engine_get|]. split; [rewrite law_ks_multi_get; apply engine_multi_get|].
  split; [apply es_scan_prefix_spec|]. split; [by apply es_scan_range_spec|].
  split; [by apply es_scan_range_projected_spec|]. intros Hsize.
  rewrite law_ks_count_range by done. by apply es_count_range_spec.
Qed.

Lemma engine_store_refines_memory_witness :
  exists w' m' : kvmap,
    fold_m ks_write sample_table [WDelete [x62]; WPut [x64] [x04]] = Ok w' /\
    fold_m ks_write sample_table [WDelete [x62]; WPut [x64] [x04]] = Ok m' /\
    es_scan_range w' [x61] None (Some 2%nat) true = ks_scan_range m' [x61] None (Some 2%nat) true.
Proof.
  destruct (engine_store_refines_memory sample_table [WDelete [x62]; WPut [x64] [x04]]
    [x61] [] [] [x61] None (Some 2%nat) true KeyOnly) as (w' & m' & H1 & H2 & _ & _ & _ & H3 & _).
  - discriminate.
  - by exists w', m'.
Defined.

(** The one difference: a limit of zero.  The engine's loop checks it after the
    first record, the in-memory store takes no row. *)
Example limit_zero_differs :
  es_scan_range sample_table [] None (Some 0%nat) false = Ok [([x61], [x01])] /\
  ks_scan_range sample_table [] None (Some 0%nat) false = Ok [].
Proof. by vm_compute. Qed.

(** ** Rewriting a table's rows *)

Section Rewriting.
Context {W : Type} `{EngineStoreLaws W}.
Context (show_error : pg_error -> string) (schema : TableSchema) (batch_size : nat).

(** What the rewrite stores for a record. *)
Definition rewritten (v : list byte) : list byte :=
  match reencode_row_record_fast schema v with Ok (Some v') => v' | _ => v end.

Definition rewrite_step (m : kvmap) (kv : kvrow) : kvmap :=
  match reencode_row_record_fast schema kv.2 with Ok (Some v') => <[kv.1 := v']> m | _ => m end.

(** The records the rewrite turns into fixed ones: not in that format yet and not
    tombstones. *)
Definition outdated (v : list byte) : bool :=
  negb (first_is FIXED_ROW_VERSION v) &&
  match decode_row_record_raw v with Ok record => negb (is_row_tombstone record) | _ => true end.

Definition reencodes_to_some (v : list byte) : bool :=
  match reencode_row_record_fast schema v with Ok (Some _) => true | _ => false end.

Definition rewrites (l : list kvrow) : nat :=
  length (List.filter (fun kv : kvrow => reencodes_to_some kv.2) l).

Definition reencodable (v : list byte) : Prop := exists o, reencode_row_record_fast schema v = Ok o.

(** The rows once the pending batch is written. *)
Definition flushed (st : RewriteState W) : kvmap :=
  store_put_batch (rw_pending st) (engine_rows (rw_table st)).

Lemma flush_rewrites_ok (st : RewriteState W) : exists st', flush_rewrites st = Ok st' /\
  rw_pending st' = [] /\ engine_rows (rw_table st') = flushed st /\
  rw_scanned st' = rw_scanned st /\ rw_rewritten st' = rw_rewritten st.
Proof.
  unfold flush_rewrites.
  destruct (law_ks_put_batch (W := W) (rw_pending st) (rw_table st)) as (w' & Hw & Hr).
  cbn in Hw. unfold es_put_batch in Hw. rewrite Hw. by eexists.
Qed.

Lemma rewrite_record_ok (st : RewriteState W) kv : reencodable kv.2 ->
  exists st', rewrite_record show_error schema batch_size st (some_row kv) = Ok st' /\
    flushed st' = rewrite_step (flushed st) kv /\ rw_scanned st' = S (rw_scanned st) /\
    rw_rewritten st' = (rw_rewritten st + rewrites [kv])%nat.
Proof.
  intros [o Ho]. unfold rewrite_record, some_row, rewrite_step, rewrites, reencodes_to_some.
  cbn [List.filter]. rewrite Ho. cbn [map_err mbind result_bind].
  set (st1 := match o with Some encoded => _ | None => _ end).
  assert (flushed st1 = match o with Some v' => <[kv.1 := v']> (flushed st) | None => flushed st end
    /\ rw_scanned st1 = S (rw_scanned st) /\
    rw_rewritten st1 = (rw_rewritten st + length (if match o with Some _ => true | None => false end
                                                 then [kv] else []))%nat) as (Hf & Hs & Hn).
  { subst st1. destruct o as [v'|]; cbn; [|by rewrite Nat.add_0_r]. split; [|split; [done|lia]].
    unfold flushed, store_put_batch. cbn. by rewrite foldl_app. }
  destruct (_ <=? _)%nat; [|by exists st1].
  destruct (flush_rewrites_ok st1) as (st' & -> & Hp & Hr & Hs' & Hn'). exists st'. split; [done|].
  rewrite Hs', Hn', <- Hs, <- Hf, Hn. split; [|done]. unfold flushed at 1. by rewrite Hp.
Qed.

Lemma rewrite_records_ok l : forall (st : RewriteState W), Forall (fun kv : kvrow => reencodable kv.2) l ->
  exists st', fold_m (rewrite_record show_error schema batch_size) st (map some_row l) = Ok st' /\
    flushed st' = foldl rewrite_step (flushed st) l /\
    rw_scanned st' = (rw_scanned st + length l)%nat /\
    rw_rewritten st' = (rw_rewritten st + rewrites l)%nat.
Proof.
  induction l as [|kv l IH]; intros st Hl; [exists st; split; [done|split; [done|cbn; lia]]|].
  apply Forall_cons in Hl as [Hkv Hl].
  destruct (rewrite_record_ok st kv Hkv) as (st1 & Hst1 & Hf & Hs & Hn).
  cbn [map fold_m foldl length]. rewrite Hst1. cbn [mbind result_bind].
  destruct (IH st1 Hl) as (st' & -> & Hf' & Hs' & Hn'). exists st'. rewrite Hf', Hf, Hs', Hs, Hn', Hn.
  split; [done|]. split; [done|]. split; [lia|]. unfold rewrites. cbn [List.filter].
  destruct (reencodes_to_some kv.2); cbn; lia.
Qed.

Lemma fold_batches (bs : list (list record)) : forall st : RewriteState W,
  fold_m (fun st records => fold_m (rewrite_record show_error schema batch_size) st records) st bs =
  fold_m (rewrite_record show_error schema batch_size) st (concat bs).
Proof.
  induction bs as [|b bs IH]; intros st; [done|]. cbn [fold_m concat].
  rewrite fold_m_app. destruct (fold_m _ st b); cbn; auto.
Qed.

Lemma rewrite_table_ok (w : W) :
  let range := row_range (table_id schema) (table_epoch schema) None in
  let l := btree_iter (rows_where (in_range range) (engine_rows w)) in
  Forall (fun kv : kvrow => reencodable kv.2) l ->
  exists w', rewrite_table_rows_to_fast_format show_error schema batch_size w =
      Ok (w', (length l, rewrites l)) /\
    engine_rows w' = foldl rewrite_step (engine_rows w) l.
Proof.
  intros range l Hl. unfold rewrite_table_rows_to_fast_format. fold range.
  edestruct engine_range as (bs & -> & Hbs). cbn [mbind result_bind].
  assert (Hcat : concat bs = map some_row l).
  { rewrite Hbs. cbn [q_desc engine_query in_order]. unfold l. do 2 f_equal. apply rows_where_ext.
    intros k. apply query_selects_range. }
  rewrite fold_batches, Hcat. clear bs Hbs Hcat.
  destruct (rewrite_records_ok l {| rw_table := w; rw_scanned := 0; rw_rewritten := 0; rw_pending := [] |} Hl)
    as (st & -> & Hf & Hs & Hn). cbn [mbind result_bind rw_scanned rw_rewritten] in *.
  destruct (rw_pending st) as [|p ps] eqn:Hp.
  - exists (rw_table st). cbn. rewrite Hs, Hn. split; [done|].
    unfold flushed in Hf at 1. rewrite Hp in Hf. exact Hf.
  - destruct (flush_rewrites_ok st) as (st' & -> & Hp' & Hr' & Hs' & Hn').
    exists (rw_table st'). cbn [mbind result_bind]. rewrite Hs', Hs, Hn', Hn. split; [done|].
    by rewrite Hr', Hf.
Qed.

Lemma rewrite_steps_lookup l : forall (m : kvmap) k, NoDup (map fst l) ->
  (forall kv, kv ∈ l -> m !! kv.1 = Some kv.2) ->
  foldl rewrite_step m l !! k = if decide (k ∈ map fst l) then rewritten <$> m !! k else m !! k.
Proof.
  induction l as [|[k1 v1] l IH]; intros m k Hnd Hin; [done|].
  cbn in Hnd. apply NoDup_cons in Hnd as [Hn Hnd]. cbn [foldl map fst].
  assert (Hm1 : m !! k1 = Some v1) by (apply (Hin (k1, v1)); constructor).
  assert (Hstep : forall x, rewrite_step m (k1, v1) !! x = if decide (x = k1) then Some (rewritten v1) else m !! x).
  { intros x. unfold rewrite_step, rewritten. cbn [fst snd].
    destruct (reencode_row_record_fast schema v1) as [[v'|]| | |], (decide (x = k1)) as [->|?];
      rewrite ?lookup_insert_eq, ?lookup_insert_ne by done; done. }
  rewrite IH; [|done|].
  - rewrite Hstep. destruct (decide (k = k1)) as [->|Hk].
    + rewrite (decide_False (P := k1 ∈ map fst l)) by done.
      rewrite decide_True by constructor. by rewrite Hm1.
    + destruct (decide (k ∈ map fst l)); [rewrite decide_True by (by constructor); done|].
      rewrite decide_False by (by rewrite elem_of_cons; naive_solver). done.
  - intros [x v] Hx. cbn. rewrite Hstep. rewrite decide_False; [apply (Hin (x, v)); by constructor|].
    intros ->. apply Hn, list_elem_of_fmap. by exists (k1, v).
Qed.

Lemma reencodes (v : list byte) (row : RowMap) :
  schema_unique schema -> wf_header schema default_mvcc -> storable schema row ->
  decode_row_record schema v = Ok row ->
  reencodable v /\ decode_row_record schema (rewritten v) = decode_row_record schema v /\
  reencodes_to_some v = outdated v /\
  (if outdated v then first_is FIXED_ROW_VERSION (rewritten v) = true else rewritten v = v).
Proof.
  intros Hu Hh Hst Hd. pose proof (reencode_row schema v row Hu Hh Hst Hd) as Hr.
  unfold reencodable, rewritten, reencodes_to_some, outdated. destruct (first_is FIXED_ROW_VERSION v).
  - rewrite Hr. by split; [exists None|].
  - destruct Hr as (record & -> & Hr). destruct (is_row_tombstone record).
    + rewrite Hr. by split; [exists None|].
    + destruct Hr as (rest & Hr & Hdec). rewrite Hr. split; [by eexists|]. by rewrite Hdec, Hd.
Qed.
End Rewriting.

(** C27. The background rewrite of a table's rows, in batches of any size: if every
    record of the table's key range decodes to a row the schema can store, it
    succeeds and reports how many records the range holds and how many of them were
    outdated.  Every outdated record is now a fixed one that decodes to the same row,
    the fixed records and the tombstones of the range keep their bytes, and so does
    every key outside the range; no key comes or goes. *)
Theorem rewrite_table_preserves_rows `{EngineStoreLaws W} (show_error : pg_error -> string)
    (schema : TableSchema) (batch_size : nat) (w : W) :
  let range := row_range (table_id schema) (table_epoch schema) None in
  let l := btree_iter (rows_where (in_range range) (engine_rows w)) in
  schema_unique schema -> wf_header schema default_mvcc ->
  (forall k v, in_range range k = true -> engine_rows w !! k = Some v ->
     exists row, decode_row_record schema v = Ok row /\ storable schema row) ->
  exists w' : W,
    rewrite_table_rows_to_fast_format show_error schema batch_size w =
      Ok (w', (length l, length (List.filter (fun kv : kvrow => outdated kv.2) l))) /\
    forall k, match engine_rows w !! k with
      | Some v =>
          if in_range range k && outdated v
          then exists v', engine_rows w' !! k = Some v' /\ first_is FIXED_ROW_VERSION v' = true /\
                 decode_row_record schema v' = decode_row_record schema v
          else engine_rows w' !! k = Some v
      | None => engine_rows w' !! k = None
      end.
Proof.
  intros range l Hu Hh Hrows.
  assert (Hre : forall k v, in_range range k = true -> engine_rows w !! k = Some v ->
    reencodable schema v /\ decode_row_record schema (rewritten schema v) = decode_row_record schema v /\
    reencodes_to_some schema v = outdated v /\
    (if outdated v then first_is FIXED_ROW_VERSION (rewritten schema v) = true
     else rewritten schema v = v)).
  { intros k v Hk Hv. destruct (Hrows k v Hk Hv) as (row & Hd & Hst).
    by apply (reencodes schema v row). }
  assert (Hin : forall kv, kv ∈ l -> in_range range kv.1 = true /\ engine_rows w !! kv.1 = Some kv.2).
  { intros [k v] Hkv. unfold l in Hkv. rewrite btree_iter_elem, rows_where_lookup in Hkv. cbn.
    by destruct (in_range range k). }
  destruct (rewrite_table_ok show_error schema batch_size w) as (w' & Hw & Hl).
  { apply Forall_forall. intros kv [Hkr Hkv]%Hin. by apply (Hre kv.1). }
  fold range l in Hw, Hl. exists w'. rewrite Hw. split.
  { do 3 f_equal. unfold rewrites. f_equal. apply List.filter_ext_in.
    intros kv [Hkr Hkv]%list_elem_of_In%Hin. by apply (Hre kv.1). }
  intros k. rewrite Hl, rewrite_steps_lookup; [|apply btree_iter_nodup|intros kv Hkv; by apply Hin].
  pose proof (Hre k) as Hk. destruct (decide _) as [Hd|Hd].
  - apply list_elem_of_fmap in Hd as (kv & -> & Hkv). apply Hin in Hkv as [Hr Hv].
    rewrite Hr, Hv. cbn [andb fmap option_fmap option_map].
    destruct (Hk kv.2 Hr Hv) as (_ & Hdec & _ & Ho).
    destruct (outdated kv.2); [by eexists|by rewrite Ho].
  - destruct (engine_rows w !! k) as [v|] eqn:Ev; [|done].
    destruct (in_range range k) eqn:Er; [|done]. exfalso. apply Hd. apply list_elem_of_fmap.
    exists (k, v). split; [done|]. unfold l. rewrite btree_iter_elem, rows_where_lookup. by rewrite Er.
Qed.

Definition legacy_table : kvmap :=
  <[row_key 7 1 (Int32 (-5)) := sample_legacy_record]> (<[[x00] := [x01]]> ∅).

Lemma rewrite_table_preserves_rows_witness :
  exists w' : kvmap,
    rewrite_table_rows_to_fast_format err_message (sample_schema sample_cols) 1 legacy_table =
      Ok (w', (1%nat, 1%nat)) /\
    w' !! [x00] = Some [x01].
Proof.
  destruct (rewrite_table_preserves_rows err_message (sample_schema sample_cols) 1 legacy_table)
    as (w' & Hw & Hk).
  - apply wf_ids_sample.
  - apply wf_header_sample; [vm_compute; reflexivity|split; split; vm_compute; congruence].
  - intros k v Hin Hv. unfold legacy_table in Hv. cbn in Hv.
    destruct (decide (k = row_key 7 1 (Int32 (-5)))) as [->|Hne].
    + rewrite lookup_insert_eq in Hv. injection Hv as <-.
      destruct (decode_row_record (sample_schema sample_cols) sample_legacy_record) as [row| | |] eqn:Hd;
        try (vm_compute in Hd; discriminate Hd).
      exists row. split; [done|]. vm_compute in Hd. injection Hd as <-. storable_eval.
    + rewrite lookup_insert_ne in Hv by done. destruct (decide (k = [x00])) as [->|Hk0].
      * vm_compute in Hin. discriminate Hin.
      * by rewrite lookup_insert_ne, lookup_empty in Hv by done.
  - exists w'. split; [rewrite Hw; vm_compute; reflexivity|]. exact (Hk [x00]).
Defined.
