(* ===== verification/Aggregate.v ===== *)
(** * Aggregate scans

    src/src/mem_store.rs (predicates, aggregates, the row-at-a-time
    [KvStore::aggregate_scan]) and src/src/kv_engine_store/aggregate_scan.rs,
    projected_aggregate.rs, fast_numeric_plan.rs and fast_numeric_eval.rs (the
    projected, key-only and numeric paths of the engine store).

    A scan is given the rows its cursor visits.  Counts and integer sums are [i64]
    in the release profile and wrap.  Profiling is left out.  Errors keep the
    structured form the storage layer gives them. *)

From stdpp Require Import sorting.
From Stdlib Require Import Floats.SpecFloat.
From S2P Require Import Prelude BTree Float Types TupleCodec Values KeyCodec RowCodec KvStore.

(** [i64] addition in the release profile. *)
Definition i64_add (a b : Z) : Z := to_signed 64 (a + b).

(** ** Plans *)

Inductive KvCompareOp : Type := OpEq | OpNotEq | OpGt | OpGtEq | OpLt | OpLtEq.

Inductive KvPredicate : Type :=
  | ColumnCompare (column_idx : nat) (op : KvCompareOp) (value : ColumnValue)
  | And (predicates : list KvPredicate)
  | Or (predicates : list KvPredicate)
  | Not (predicate : KvPredicate)
  | IsNull (column_idx : nat)
  | IsNotNull (column_idx : nat)
  | Between (column_idx : nat) (low high : ColumnValue) (negated : bool).

Inductive KvAggregateOp : Type :=
  | CountStar
  | CountColumn (column_idx : nat)
  | MaxColumn (column_idx : nat)
  | MinColumn (column_idx : nat)
  | SumColumn (column_idx : nat)
  | AvgColumn (column_idx : nat).

(** [KvAggregateScan] without the range of the cursor, whose rows are given. *)
Record KvAggregateScan : Type := {
  plan_schema : TableSchema;
  filters : list KvPredicate;
  group_indices : list nat;
  aggregates : list KvAggregateOp;
  required_indices : list nat;
  projection : KvScanProjection;
}.

Inductive KvAggregateState : Type :=
  | Count (n : Z)
  | Value (v : ColumnValue)
  | Avg (sum : Z) (count : Z).

Definition kv_aggregate_initial_state (op : KvAggregateOp) : KvAggregateState :=
  match op with
  | CountStar | CountColumn _ => Count 0
  | MaxColumn _ | MinColumn _ | SumColumn _ => Value Null
  | AvgColumn _ => Avg 0 0
  end.

(** ** The row path of src/src/mem_store.rs *)

(** The comparison operators over an optional ordering. *)
Definition ordering_satisfies (op : KvCompareOp) (o : option comparison) : bool :=
  match op, o with
  | _, None => false
  | OpEq, Some c => match c with Eq => true | _ => false end
  | OpNotEq, Some c => match c with Eq => false | _ => true end
  | OpGt, Some c => match c with Gt => true | _ => false end
  | OpGtEq, Some c => match c with Lt => false | _ => true end
  | OpLt, Some c => match c with Lt => true | _ => false end
  | OpLtEq, Some c => match c with Gt => false | _ => true end
  end.

Definition compare_values (left : ColumnValue) (op : KvCompareOp) (right : ColumnValue) : bool :=
  if is_null left || is_null right then false
  else match op with
  | OpEq => cv_eqb left right
  | OpNotEq => negb (cv_eqb left right)
  | _ => ordering_satisfies op (cv_partial_cmp left right)
  end.

Definition row_value (schema : TableSchema) (row : RowMap) (column_idx : nat) : ColumnValue :=
  default Null (column ← columns schema !! column_idx; row !! col_name column).

Definition sum_values (left right : ColumnValue) : option ColumnValue :=
  match left, right with
  | Null, value => Some value
  | Int32 a, Int32 b | Int32 a, Int64 b | Int64 a, Int32 b | Int64 a, Int64 b =>
      Some (Int64 (i64_add a b))
  | Float32 a, Float32 b => Some (Float64 (f64_add (f64_of_f32 a) (f64_of_f32 b)))
  | Float32 a, Float64 b => Some (Float64 (f64_add (f64_of_f32 a) b))
  | Float64 a, Float32 b => Some (Float64 (f64_add a (f64_of_f32 b)))
  | Float64 a, Float64 b => Some (Float64 (f64_add a b))
  | _, _ => None
  end.

Definition numeric_as_f64 (value : ColumnValue) : option Z :=
  match value with
  | Int32 z | Int64 z => Some (f64_of_Z z)
  | Float32 b => Some (f64_of_f32 b)
  | Float64 b => Some b
  | _ => None
  end.

Fixpoint kv_predicate_matches (schema : TableSchema) (row : RowMap) (predicate : KvPredicate) : bool :=
  match predicate with
  | ColumnCompare column_idx op value => compare_values (row_value schema row column_idx) op value
  | And predicates => forallb (kv_predicate_matches schema row) predicates
  | Or predicates => existsb (kv_predicate_matches schema row) predicates
  | Not predicate => negb (kv_predicate_matches schema row predicate)
  | IsNull column_idx => is_null (row_value schema row column_idx)
  | IsNotNull column_idx => negb (is_null (row_value schema row column_idx))
  | Between column_idx low high negated =>
      let value := row_value schema row column_idx in
      let inside := compare_values value OpGtEq low && compare_values value OpLtEq high in
      if negated then negb inside else inside
  end.

Definition kv_row_matches (schema : TableSchema) (row : RowMap) (filters : list KvPredicate) : bool :=
  forallb (kv_predicate_matches schema row) filters.

(** One arm of the loop of [kv_apply_aggregate]; [Some value] is the column's
    value, [None] a column the row does not give. *)
Definition keep_extreme (better : option comparison -> bool) (value : ColumnValue)
    (state : KvAggregateState) : KvAggregateState :=
  match state with
  | Value s => if is_null s || better (cv_partial_cmp value s) then Value value else state
  | _ => state
  end.

Definition count_one (state : KvAggregateState) : KvAggregateState :=
  match state with Count n => Count (i64_add n 1) | _ => state end.

Definition add_sum (value : ColumnValue) (state : KvAggregateState) : KvAggregateState :=
  match state with
  | Value s => match sum_values s value with Some v => Value v | None => state end
  | _ => state
  end.

Definition add_avg (value : Z) (state : KvAggregateState) : KvAggregateState :=
  match state with
  | Avg sum count => Avg (f64_add sum value) (i64_add count 1)
  | _ => state
  end.

Definition kv_apply_one (schema : TableSchema) (row : RowMap) (aggregate : KvAggregateOp)
    (state : KvAggregateState) : KvAggregateState :=
  match aggregate with
  | CountStar => count_one state
  | CountColumn column_idx =>
      if is_null (row_value schema row column_idx) then state else count_one state
  | MaxColumn column_idx =>
      let value := row_value schema row column_idx in
      if is_null value then state else keep_extreme is_gt value state
  | MinColumn column_idx =>
      let value := row_value schema row column_idx in
      if is_null value then state else keep_extreme is_lt value state
  | SumColumn column_idx =>
      let value := row_value schema row column_idx in
      if is_null value then state else add_sum value state
  | AvgColumn column_idx =>
      match numeric_as_f64 (row_value schema row column_idx) with
      | Some value => add_avg value state
      | None => state
      end
  end.

(** The loop over the aggregates; [states] is built with one state for each. *)
Fixpoint apply_each {S} (step : KvAggregateOp -> S -> S) (aggregates : list KvAggregateOp)
    (states : list S) : list S :=
  match aggregates, states with
  | a :: ar, s :: sr => step a s :: apply_each step ar sr
  | _, _ => states
  end.

Definition kv_apply_aggregate (schema : TableSchema) (row : RowMap) (states : list KvAggregateState)
    (aggregates : list KvAggregateOp) : list KvAggregateState :=
  apply_each (kv_apply_one schema row) aggregates states.

Definition kv_finish_aggregate_state (state : KvAggregateState) : ColumnValue :=
  match state with
  | Count n => Int64 n
  | Value v => v
  | Avg sum count => if count =? 0 then Null else Float64 (f64_div sum (f64_of_Z count))
  end.

Definition kv_group_values (schema : TableSchema) (row : RowMap) (group_indices : list nat)
    : list ColumnValue := map (row_value schema row) group_indices.

(** [groups.entry(key).or_insert_with(..)] followed by the update of the states. *)
Definition group_add {S} (groups : gmap key (list ColumnValue * list S)) (group_key : key)
    (group_values : list ColumnValue) (initial : list S) (update : list S -> list S)
    : gmap key (list ColumnValue * list S) :=
  let entry := default (group_values, initial) (groups !! group_key) in
  <[group_key := (entry.1, update entry.2)]> groups.

(** [groups.into_values()] with the states finished. *)
Definition finish_groups (groups : gmap key (list ColumnValue * list KvAggregateState))
    : list (list ColumnValue) :=
  map (fun e => e.2.1 ++ map kv_finish_aggregate_state e.2.2) (btree_iter groups).

Definition initial_states (plan : KvAggregateScan) : list KvAggregateState :=
  map kv_aggregate_initial_state (aggregates plan).

(** [plan.required_indices.iter().all(..)]: only the primary key is needed. *)
Definition pk_only (schema : TableSchema) (required : list nat) : bool :=
  forallb (fun idx =>
    match columns schema !! idx with
    | Some column => bool_decide (col_name column = primary_key schema)
    | None => false
    end) required.

(** The row of a record: the key's primary key alone when nothing else is needed;
    [None] for a record without value, which the loop skips. *)
Definition aggregate_row (plan : KvAggregateScan) (row : key * option (list byte))
    : PgWireResult (option RowMap) :=
  let schema := plan_schema plan in
  if pk_only schema (required_indices plan) then
    pk_value ← decode_pk_from_row_key row.1 (table_id schema) (table_epoch schema) (pk_data_type schema);
    Ok (Some (<[primary_key schema := pk_value]> ∅))
  else
    match row.2 with
    | None => Ok None
    | Some value => row ← decode_row_record schema value; Ok (Some row)
    end.

Section RowPath.
Context (display_f32 display_f64 : Z -> string).

Definition kv_group_key (values : list ColumnValue) : key :=
  join_bytes [x1f] (map (fun v => default (as_bytes "Null") (to_text display_f32 display_f64 v)) values).

(** [KvStore::aggregate_scan] after its scan. *)
Definition kv_aggregate_step (plan : KvAggregateScan)
    (groups : gmap key (list ColumnValue * list KvAggregateState)) (row : key * option (list byte))
    : PgWireResult (gmap key (list ColumnValue * list KvAggregateState)) :=
  o ← aggregate_row plan row;
  match o with
  | None => Ok groups
  | Some row =>
      if kv_row_matches (plan_schema plan) row (filters plan) then
        let group_values := kv_group_values (plan_schema plan) row (group_indices plan) in
        Ok (group_add groups (kv_group_key group_values) group_values (initial_states plan)
              (fun states => kv_apply_aggregate (plan_schema plan) row states (aggregates plan)))
      else Ok groups
  end.

Definition kv_aggregate_scan (plan : KvAggregateScan) (rows : list (key * option (list byte)))
    : PgWireResult (list (list ColumnValue)) :=
  groups ← fold_m (kv_aggregate_step plan) ∅ rows;
  let groups :=
    if bool_decide (groups = ∅) && bool_decide (group_indices plan = [])
    then <[[] := ([], initial_states plan)]> groups else groups in
  Ok (finish_groups groups).

(** [MemoryKvStore] with the trait's default [aggregate_scan]. *)
Definition store_aggregate_scan (m : kvmap) (start : key) (end_ : option key) (plan : KvAggregateScan)
    : PgWireResult (list (list ColumnValue)) :=
  kv_aggregate_scan plan (store_scan_range_projected m start end_ None false (projection plan)).
End RowPath.

(** ** The projected path of the engine store *)

(** [iter().position(|x| *x == v)]. *)
Definition required_slot (plan : KvAggregateScan) (column_idx : nat) : option nat :=
  fst <$> list_find (fun idx => idx = column_idx) (required_indices plan).

Definition projected_value (plan : KvAggregateScan) (row : list ColumnValue) (column_idx : nat)
    : option ColumnValue :=
  slot ← required_slot plan column_idx; row !! slot.

Definition decode_row_pk (schema : TableSchema) (k : key) : PgWireResult ColumnValue :=
  decode_pk_from_row_key k (table_id schema) (table_epoch schema) (pk_data_type schema).

(** One turn of the loop that takes the primary key from the row key. *)
Definition override_pk (schema : TableSchema) (k : key) (values : list ColumnValue)
    (slot_idx : nat * nat) : PgWireResult (list ColumnValue) :=
  match columns schema !! slot_idx.2 with
  | Some column =>
      if bool_decide (col_name column = primary_key schema) then
        pk_value ← decode_row_pk schema k;
        set_index values slot_idx.1 pk_value
      else Ok values
  | None => Ok values
  end.

Definition projected_values_for_aggregate_record (plan : KvAggregateScan) (row : kvrow)
    : PgWireResult (list ColumnValue) :=
  let schema := plan_schema plan in
  let required := required_indices plan in
  if pk_only schema required then map_m (fun _ => decode_row_pk schema row.1) required
  else
    values ← decode_row_record_projected_values schema row.2 required;
    fold_m (override_pk schema row.1) values (imap pair required).

Definition projected_compare (o : option ColumnValue) (op : KvCompareOp) (value : ColumnValue) : bool :=
  match o with Some lhs => compare_values lhs op value | None => false end.

Fixpoint projected_predicate_matches (plan : KvAggregateScan) (row : list ColumnValue)
    (predicate : KvPredicate) : bool :=
  match predicate with
  | ColumnCompare column_idx op value =>
      projected_compare (projected_value plan row column_idx) op value
  | And predicates => forallb (projected_predicate_matches plan row) predicates
  | Or predicates => existsb (projected_predicate_matches plan row) predicates
  | Not predicate => negb (projected_predicate_matches plan row predicate)
  | IsNull column_idx =>
      match projected_value plan row column_idx with Some v => is_null v | None => true end
  | IsNotNull column_idx =>
      match projected_value plan row column_idx with Some v => negb (is_null v) | None => false end
  | Between column_idx low high negated =>
      let inside :=
        match projected_value plan row column_idx with
        | Some value => compare_values value OpGtEq low && compare_values value OpLtEq high
        | None => false
        end in
      if negated then negb inside else inside
  end.

Definition projected_row_matches (plan : KvAggregateScan) (row : list ColumnValue) : bool :=
  forallb (projected_predicate_matches plan row) (filters plan).

Definition projected_group_values (plan : KvAggregateScan) (row : list ColumnValue) : list ColumnValue :=
  map (fun column_idx => default Null (projected_value plan row column_idx)) (group_indices plan).

Definition push_group_key_bytes (tag : byte) (bytes : list byte) : list byte :=
  tag :: to_be 4 (len bytes) ++ bytes.

(** One value of [typed_group_key]. *)
Fixpoint typed_group_value (v : ColumnValue) : list byte :=
  match v with
  | Null => [x00]
  | Int16 z => x0a :: to_be 2 z
  | Int32 z => x01 :: to_be 4 z
  | Int64 z => x02 :: to_be 8 z
  | Float32 b => x03 :: to_be 4 b
  | Float64 b => x04 :: to_be 8 b
  | Numeric s => push_group_key_bytes x05 (as_bytes s)
  | Text s | Date s | Timestamp s | TimestampTz s | Uuid s | Json s | Jsonb s =>
      push_group_key_bytes x06 (as_bytes s)
  | Boolean b => [x07; u8_of_bool b]
  | Bytea l => push_group_key_bytes x08 l
  | Array vs => push_group_key_bytes x09 (flat_map typed_group_value vs)
  end.

Definition typed_group_key (values : list ColumnValue) : key := flat_map typed_group_value values.

Definition projected_apply_one (plan : KvAggregateScan) (row : list ColumnValue)
    (aggregate : KvAggregateOp) (state : KvAggregateState) : KvAggregateState :=
  let with_value (column_idx : nat) (f : ColumnValue -> KvAggregateState) :=
    match projected_value plan row column_idx with
    | Some value => if is_null value then state else f value
    | None => state
    end in
  match aggregate with
  | CountStar => count_one state
  | CountColumn column_idx => with_value column_idx (fun _ => count_one state)
  | MaxColumn column_idx => with_value column_idx (fun value => keep_extreme is_gt value state)
  | MinColumn column_idx => with_value column_idx (fun value => keep_extreme is_lt value state)
  | SumColumn column_idx => with_value column_idx (fun value => add_sum value state)
  | AvgColumn column_idx =>
      match (value ← projected_value plan row column_idx; numeric_as_f64 value) with
      | Some value => add_avg value state
      | None => state
      end
  end.

Definition apply_projected_aggregate (plan : KvAggregateScan) (row : list ColumnValue)
    (states : list KvAggregateState) : list KvAggregateState :=
  apply_each (projected_apply_one plan row) (aggregates plan) states.

(** [reduce_ungrouped_projected_scan] and the loop of [reduce_ungrouped_key_only_scan]. *)
Definition projected_step (plan : KvAggregateScan) (states : list KvAggregateState) (row : kvrow)
    : PgWireResult (list KvAggregateState) :=
  values ← projected_values_for_aggregate_record plan row;
  if projected_row_matches plan values then Ok (apply_projected_aggregate plan values states)
  else Ok states.

Definition reduce_ungrouped_projected_scan (plan : KvAggregateScan) (rows : list kvrow)
    : PgWireResult (list (list ColumnValue)) :=
  states ← fold_m (projected_step plan) (initial_states plan) rows;
  Ok [map kv_finish_aggregate_state states].

(** The grouped loop of [execute_aggregate_scan] and of [reduce_grouped_key_only_scan]. *)
Definition projected_group_step (plan : KvAggregateScan)
    (groups : gmap key (list ColumnValue * list KvAggregateState)) (row : kvrow)
    : PgWireResult (gmap key (list ColumnValue * list KvAggregateState)) :=
  values ← projected_values_for_aggregate_record plan row;
  if projected_row_matches plan values then
    let group_values := projected_group_values plan values in
    Ok (group_add groups (typed_group_key group_values) group_values (initial_states plan)
          (apply_projected_aggregate plan values))
  else Ok groups.

Definition reduce_grouped_projected_scan (plan : KvAggregateScan) (rows : list kvrow)
    : PgWireResult (list (list ColumnValue)) :=
  groups ← fold_m (projected_group_step plan) ∅ rows;
  Ok (finish_groups groups).

(** ** Key-only plans *)

Definition aggregate_plan_uses_only_primary_key (plan : KvAggregateScan) : bool :=
  match projection plan with
  | KeyOnly => pk_only (plan_schema plan) (required_indices plan)
  | KeyValue => false
  end.

Definition key_only_plan_needs_primary_key_values (plan : KvAggregateScan) : bool :=
  negb (bool_decide (length (filters plan) = 0%nat)) || negb (bool_decide (group_indices plan = [])) ||
  existsb (fun aggregate => match aggregate with CountStar | CountColumn _ => false | _ => true end)
    (aggregates plan).

(** A key-only cursor gives no value; the record decoder is passed [&[]]. *)
Definition key_only_rows (rows : list kvrow) : list kvrow := map (fun r => (r.1, [])) rows.

Definition add_count (count : Z) (state : KvAggregateState) : KvAggregateState :=
  match state with Count n => Count (i64_add n count) | _ => state end.

Definition reduce_ungrouped_key_only_scan (plan : KvAggregateScan) (rows : list kvrow)
    : PgWireResult (list (list ColumnValue)) :=
  if negb (key_only_plan_needs_primary_key_values plan) then
    Ok [map kv_finish_aggregate_state
          (map (add_count (to_signed 64 (len rows))) (initial_states plan))]
  else reduce_ungrouped_projected_scan plan (key_only_rows rows).

Definition reduce_grouped_key_only_scan (plan : KvAggregateScan) (rows : list kvrow)
    : PgWireResult (list (list ColumnValue)) :=
  reduce_grouped_projected_scan plan (key_only_rows rows).

(** ** The numeric path *)

Definition fast_numeric_data_type (t : DataType) : bool :=
  match t with
  | DT.Int16 | DT.Int32 | DT.Int64 | DT.Float32 | DT.Float64 => true
  | _ => false
  end.

(** [column_value_to_fast_numeric]. *)
Definition column_value_to_fast_numeric (v : ColumnValue) : option FastNumericValue :=
  match v with
  | Null => Some FNull
  | Int16 z | Int32 z | Int64 z => Some (I64 z)
  | Float32 b => Some (F64 (f64_of_f32 b))
  | Float64 b => Some (F64 b)
  | _ => None
  end.

(** [v as f32]; used by [fast_numeric_to_column_value] on values that came from an [f32]. *)
Definition f32_of_f64 (bits : Z) : Z :=
  fencode 23 8
    (match fdecode 52 11 bits with
     | S754_finite s m e =>
         binary_normalize (fprec 23) (femax 8) (cond_Zopp s (Zpos m)) e s
     | x => x
     end).

Definition fast_numeric_to_column_value (t : DataType) (value : FastNumericValue) : ColumnValue :=
  match t, value with
  | _, FNull => Null
  | DT.Int16, I64 z => Int16 (to_signed 16 z)
  | DT.Int32, I64 z => Int32 (to_signed 32 z)
  | DT.Int64, I64 z => Int64 z
  | DT.Float32, F64 b => Float32 (f32_of_f64 b)
  | DT.Float64, F64 b => Float64 b
  | _, I64 z => Int64 z
  | _, F64 b => Float64 b
  end.

Definition fast_numeric_as_f64 (value : FastNumericValue) : option Z :=
  match value with
  | FNull => None
  | I64 z => Some (f64_of_Z z)
  | F64 b => Some b
  end.

Definition fast_numeric_cmp (lhs rhs : FastNumericValue) : option comparison :=
  match lhs, rhs with
  | FNull, _ | _, FNull => None
  | I64 a, I64 b => Some (a ?= b)
  | _, _ =>
      a ← fast_numeric_as_f64 lhs; b ← fast_numeric_as_f64 rhs; f64_compare a b
  end.

Definition compare_fast_numeric_values (lhs : FastNumericValue) (op : KvCompareOp)
    (rhs : FastNumericValue) : bool := ordering_satisfies op (fast_numeric_cmp lhs rhs).

Record FastNumericAggregatePlan : Type := {
  projector : FastNumericProjector;
  filter_slots : list nat;
  group_slots : list nat;
  aggregate_slots : list nat;
  matched_slots : list nat;
  column_slots : list (option nat);
}.

(** [BTreeSet<usize>] listed in order. *)
Definition sorted_slots (s : gset nat) : list nat := merge_sort le (elements s).

Definition slot_of_column (column_slots : list (option nat)) (column_idx : nat) : option nat :=
  mjoin (column_slots !! column_idx).

Fixpoint collect_fast_aggregate_filter_slots (predicate : KvPredicate)
    (column_slots : list (option nat)) (slots : gset nat) : option (gset nat) :=
  let all := fix all (predicates : list KvPredicate) (slots : gset nat) : option (gset nat) :=
    match predicates with
    | [] => Some slots
    | p :: r => slots ← collect_fast_aggregate_filter_slots p column_slots slots; all r slots
    end in
  match predicate with
  | ColumnCompare column_idx _ value =>
      _ ← column_value_to_fast_numeric value;
      slot ← slot_of_column column_slots column_idx; Some ({[slot]} ∪ slots)
  | IsNull column_idx | IsNotNull column_idx =>
      slot ← slot_of_column column_slots column_idx; Some ({[slot]} ∪ slots)
  | Between column_idx low high _ =>
      _ ← column_value_to_fast_numeric low;
      _ ← column_value_to_fast_numeric high;
      slot ← slot_of_column column_slots column_idx; Some ({[slot]} ∪ slots)
  | And predicates | Or predicates => all predicates slots
  | Not predicate => collect_fast_aggregate_filter_slots predicate column_slots slots
  end.

Definition aggregate_column (aggregate : KvAggregateOp) : option nat :=
  match aggregate with
  | CountStar => None
  | CountColumn i | MaxColumn i | MinColumn i | SumColumn i | AvgColumn i => Some i
  end.

(** The loop over [required_indices]: the slot of a column is its last position. *)
Definition build_column_slots (column_count : nat) (required : list nat) : list (option nat) :=
  foldl (fun slots (si : nat * nat) => <[si.2 := Some si.1]> slots)
    (replicate column_count None) (imap pair required).

Definition build_fast_numeric_aggregate_plan (plan : KvAggregateScan) : option FastNumericAggregatePlan :=
  let schema := plan_schema plan in
  match projection plan with
  | KeyOnly => None
  | KeyValue =>
      _ ← fold_m (fun (_ : unit) idx => column ← columns schema !! idx;
            if fast_numeric_data_type (data_type column) then Some tt else None)
          tt (required_indices plan);
      let column_slots := build_column_slots (length (columns schema)) (required_indices plan) in
      filter_slots ← fold_m (fun slots filter =>
        collect_fast_aggregate_filter_slots filter column_slots slots) ∅ (filters plan);
      group_slots ← map_m (slot_of_column column_slots) (group_indices plan);
      aggregate_slots ← fold_m (fun (slots : gset nat) aggregate =>
        match aggregate_column aggregate with
        | None => Some slots
        | Some column_idx => slot ← slot_of_column column_slots column_idx; Some ({[slot]} ∪ slots)
        end) ∅ (aggregates plan);
      Some {| projector := new_fast_numeric_projector schema (required_indices plan);
              filter_slots := sorted_slots filter_slots;
              group_slots := group_slots;
              aggregate_slots := sorted_slots aggregate_slots;
              matched_slots := sorted_slots (list_to_set group_slots ∪ aggregate_slots);
              column_slots := column_slots |}
  end.

Inductive FastAggregateState : Type :=
  | FCount (n : Z)
  | FSumI64 (sum : Z)
  | FSumF64 (sum : Z)
  | FMin (v : FastNumericValue)
  | FMax (v : FastNumericValue)
  | FAvg (sum : Z) (count : Z).

Definition fast_aggregate_initial_state (plan : KvAggregateScan) (aggregate : KvAggregateOp)
    : option FastAggregateState :=
  match aggregate with
  | CountStar | CountColumn _ => Some (FCount 0)
  | SumColumn column_idx =>
      column ← columns (plan_schema plan) !! column_idx;
      Some match data_type column with
           | DT.Float32 | DT.Float64 => FSumF64 0
           | _ => FSumI64 0
           end
  | MaxColumn _ => Some (FMax FNull)
  | MinColumn _ => Some (FMin FNull)
  | AvgColumn _ => Some (FAvg 0 0)
  end.

Definition fast_aggregate_column_value (slots : list (option nat)) (values : list FastNumericValue)
    (column_idx : nat) : option FastNumericValue :=
  slot ← slot_of_column slots column_idx; values !! slot.

Definition is_fnull (v : FastNumericValue) : bool := match v with FNull => true | _ => false end.

Fixpoint fast_aggregate_predicate_matches (predicate : KvPredicate) (slots : list (option nat))
    (values : list FastNumericValue) : bool :=
  match predicate with
  | ColumnCompare column_idx op value =>
      match fast_aggregate_column_value slots values column_idx, column_value_to_fast_numeric value with
      | Some lhs, Some rhs => compare_fast_numeric_values lhs op rhs
      | _, _ => false
      end
  | And predicates => forallb (fun p => fast_aggregate_predicate_matches p slots values) predicates
  | Or predicates => existsb (fun p => fast_aggregate_predicate_matches p slots values) predicates
  | Not predicate => negb (fast_aggregate_predicate_matches predicate slots values)
  | IsNull column_idx =>
      match fast_aggregate_column_value slots values column_idx with
      | Some v => is_fnull v
      | None => true
      end
  | IsNotNull column_idx =>
      match fast_aggregate_column_value slots values column_idx with
      | Some v => negb (is_fnull v)
      | None => false
      end
  | Between column_idx low high negated =>
      let inside :=
        match fast_aggregate_column_value slots values column_idx,
              column_value_to_fast_numeric low, column_value_to_fast_numeric high with
        | Some value, Some low, Some high =>
            compare_fast_numeric_values value OpGtEq low &&
            compare_fast_numeric_values value OpLtEq high
        | _, _, _ => false
        end in
      if negated then negb inside else inside
  end.

Definition fast_keep_extreme (better : option comparison -> bool) (value current : FastNumericValue)
    : FastNumericValue :=
  if is_fnull current || better (fast_numeric_cmp value current) then value else current.

Definition fast_apply_one (slots : list (option nat)) (values : list FastNumericValue)
    (aggregate : KvAggregateOp) (state : FastAggregateState) : FastAggregateState :=
  match aggregate with
  | CountStar => match state with FCount n => FCount (i64_add n 1) | _ => state end
  | CountColumn column_idx =>
      match fast_aggregate_column_value slots values column_idx, state with
      | Some value, FCount n => if is_fnull value then state else FCount (i64_add n 1)
      | _, _ => state
      end
  | SumColumn column_idx =>
      match fast_aggregate_column_value slots values column_idx with
      | None => state
      | Some value =>
          match state, value with
          | _, FNull => state
          | FSumI64 sum, I64 z => FSumI64 (i64_add sum z)
          | FSumF64 sum, _ =>
              match fast_numeric_as_f64 value with
              | Some b => FSumF64 (f64_add sum b)
              | None => state
              end
          | _, _ => state
          end
      end
  | AvgColumn column_idx =>
      match (value ← fast_aggregate_column_value slots values column_idx; fast_numeric_as_f64 value),
            state with
      | Some value, FAvg sum count => FAvg (f64_add sum value) (i64_add count 1)
      | _, _ => state
      end
  | MaxColumn column_idx =>
      match fast_aggregate_column_value slots values column_idx, state with
      | Some value, FMax current =>
          if is_fnull value then state else FMax (fast_keep_extreme is_gt value current)
      | _, _ => state
      end
  | MinColumn column_idx =>
      match fast_aggregate_column_value slots values column_idx, state with
      | Some value, FMin current =>
          if is_fnull value then state else FMin (fast_keep_extreme is_lt value current)
      | _, _ => state
      end
  end.

Definition apply_fast_aggregates (plan : KvAggregateScan) (slots : list (option nat))
    (values : list FastNumericValue) (states : list FastAggregateState) : list FastAggregateState :=
  apply_each (fast_apply_one slots values) (aggregates plan) states.

Definition finish_fast_extreme (schema : TableSchema) (column_idx : nat) (value : FastNumericValue)
    : ColumnValue :=
  match columns schema !! column_idx with
  | Some column => fast_numeric_to_column_value (data_type column) value
  | None => Null
  end.

Definition finish_fast_aggregate (schema : TableSchema) (state : FastAggregateState)
    (aggregate : KvAggregateOp) : ColumnValue :=
  match state, aggregate with
  | FCount n, _ => Int64 n
  | FSumI64 sum, _ => Int64 sum
  | FSumF64 sum, _ => Float64 sum
  | FAvg sum count, _ => if count =? 0 then Null else Float64 (f64_div sum (f64_of_Z count))
  | FMax value, MaxColumn column_idx | FMin value, MinColumn column_idx =>
      finish_fast_extreme schema column_idx value
  | _, _ => Null
  end.

Definition finish_fast_aggregates (plan : KvAggregateScan) (states : list FastAggregateState)
    : list ColumnValue :=
  zip_with (finish_fast_aggregate (plan_schema plan)) states (aggregates plan).

Definition unsupported_fast_state {A} : PgWireResult A :=
  user_error "XX000" "unsupported fast aggregate state".

(** One record of [reduce_ungrouped_fast_numeric_scan]: the slots of the filters
    are decoded first, those of the aggregates only when the filters match; the
    values vector is carried from record to record. *)
Definition fast_step (plan : KvAggregateScan) (fast_plan : FastNumericAggregatePlan)
    (acc : list FastNumericValue * list FastAggregateState) (row : kvrow)
    : PgWireResult (list FastNumericValue * list FastAggregateState) :=
  let '(values, states) := acc in
  values ← decode_row_record_fast_numeric_slots_with (projector fast_plan) row.2 values
             (filter_slots fast_plan);
  if forallb (fun f => fast_aggregate_predicate_matches f (column_slots fast_plan) values)
       (filters plan)
  then
    values ← decode_row_record_fast_numeric_slots_with (projector fast_plan) row.2 values
               (aggregate_slots fast_plan);
    Ok (values, apply_fast_aggregates plan (column_slots fast_plan) values states)
  else Ok (values, states).

Definition reduce_ungrouped_fast_numeric_scan (plan : KvAggregateScan)
    (fast_plan : FastNumericAggregatePlan) (rows : list kvrow) : PgWireResult (list (list ColumnValue)) :=
  match map_m (fast_aggregate_initial_state plan) (aggregates plan) with
  | None => unsupported_fast_state
  | Some states =>
      '(_, states) ← fold_m (fast_step plan fast_plan)
        (replicate (np_output_len (projector fast_plan)) FNull, states) rows;
      Ok [finish_fast_aggregates plan states]
  end.

(** ** The columns a plan uses *)

Section PredicateInduction.
Context (P : KvPredicate -> Prop).
Hypothesis Hand : forall ps, Forall P ps -> P (And ps).
Hypothesis Hor : forall ps, Forall P ps -> P (Or ps).
Hypothesis Hnot : forall p, P p -> P (Not p).
Hypothesis Hcompare : forall i op v, P (ColumnCompare i op v).
Hypothesis Hnull : forall i, P (IsNull i).
Hypothesis Hnotnull : forall i, P (IsNotNull i).
Hypothesis Hbetween : forall i low high negated, P (Between i low high negated).

Fixpoint KvPredicate_nested_ind (p : KvPredicate) : P p.
Proof.
  destruct p as [i op v|ps|ps|p|i|i|i low high negated];
    [apply Hcompare|apply Hand|apply Hor|apply Hnot, KvPredicate_nested_ind|apply Hnull|apply Hnotnull
    |apply Hbetween]; induction ps as [|p ps IH]; constructor; try exact IH; apply KvPredicate_nested_ind.
Defined.
End PredicateInduction.

Fixpoint predicate_columns (p : KvPredicate) : list nat :=
  match p with
  | ColumnCompare i _ _ | IsNull i | IsNotNull i | Between i _ _ _ => [i]
  | And ps | Or ps => flat_map predicate_columns ps
  | Not p => predicate_columns p
  end.

Definition aggregate_columns (aggregate : KvAggregateOp) : list nat :=
  match aggregate_column aggregate with Some i => [i] | None => [] end.

(** The planner requires every column the plan mentions. *)
Definition plan_closed (plan : KvAggregateScan) : Prop :=
  flat_map predicate_columns (filters plan) ++ group_indices plan ++
    flat_map aggregate_columns (aggregates plan) ⊆ required_indices plan.

Lemma forallb_ext_in {A} (f g : A -> bool) l :
  (forall a, a ∈ l -> f a = g a) -> forallb f l = forallb g l.
Proof.
  induction l as [|a l IH]; intros H; [done|]. cbn. rewrite H, IH by set_solver. done.
Qed.

Lemma existsb_ext_in {A} (f g : A -> bool) l :
  (forall a, a ∈ l -> f a = g a) -> existsb f l = existsb g l.
Proof.
  induction l as [|a l IH]; intros H; [done|]. cbn. rewrite H, IH by set_solver. done.
Qed.

Lemma elem_of_flat_map {A B} (f : A -> list B) l b :
  b ∈ flat_map f l <-> exists a, a ∈ l /\ b ∈ f a.
Proof.
  induction l as [|a l IH]; cbn; [set_solver|]. rewrite elem_of_app, IH. set_solver.
Qed.

(** Two evaluators that agree on every leaf of a predicate agree on it. *)
Lemma forallb_columns (f g : KvPredicate -> bool) (used : list nat) ps :
  Forall (fun p => predicate_columns p ⊆ used -> f p = g p) ps ->
  flat_map predicate_columns ps ⊆ used -> forallb f ps = forallb g ps.
Proof.
  rewrite Forall_forall. intros H Hu. apply forallb_ext_in. intros p Hp. apply H; [done|].
  intros i Hi. apply Hu, elem_of_flat_map. eauto.
Qed.

Lemma existsb_columns (f g : KvPredicate -> bool) (used : list nat) ps :
  Forall (fun p => predicate_columns p ⊆ used -> f p = g p) ps ->
  flat_map predicate_columns ps ⊆ used -> existsb f ps = existsb g ps.
Proof.
  rewrite Forall_forall. intros H Hu. apply existsb_ext_in. intros p Hp. apply H; [done|].
  intros i Hi. apply Hu, elem_of_flat_map. eauto.
Qed.

(** ** Records and rows *)

Definition pk_of_key (s : TableSchema) (k : key) (row : RowMap) : Prop :=
  exists pk, decode_row_pk s k = Ok pk /\ pk <> Null /\
    forall i c, columns s !! i = Some c -> col_name c = primary_key s -> row_get row (col_name c) = pk.

(** A stored row: the record decodes, and the key holds its primary key. *)
Definition stored_row (s : TableSchema) (r : kvrow) (row : RowMap) : Prop :=
  decode_row_record s r.2 = Ok row /\ pk_of_key s r.1 row.

Lemma row_value_column s row i : row_value s row i = column_value s row i.
Proof.
  unfold row_value, column_value, row_get. by destruct (columns s !! i) as [c|].
Qed.

Lemma pk_only_column s required i :
  pk_only s required = true -> i ∈ required ->
  exists c, columns s !! i = Some c /\ col_name c = primary_key s.
Proof.
  unfold pk_only. rewrite forallb_forall. intros H Hi.
  specialize (H i (proj1 (list_elem_of_In _ _) Hi)).
  destruct (columns s !! i) as [c|]; [|done]. exists c. by apply bool_decide_eq_true in H.
Qed.

Lemma fold_m_same {E A B} (f : B -> A -> result E B) acc l :
  (forall a, a ∈ l -> f acc a = Ok acc) -> fold_m f acc l = Ok acc.
Proof.
  induction l as [|a l IH]; intros H; [done|]. cbn [fold_m]. rewrite H by set_solver.
  rewrite bind_ok. apply IH. set_solver.
Qed.

(** The projected values of a stored row are its columns. *)
Lemma projected_values_ok plan r row :
  wf_ids (plan_schema plan) -> wf_projection (plan_schema plan) (required_indices plan) ->
  stored_row (plan_schema plan) r row ->
  projected_values_for_aggregate_record plan r =
    Ok (map (column_value (plan_schema plan) row) (required_indices plan)).
Proof.
  intros Hs Hp (Hrow & pk & Hk & _ & Hpk). unfold projected_values_for_aggregate_record.
  set (s := plan_schema plan) in *. set (req := required_indices plan) in *.
  destruct (pk_only s req) eqn:Hpo.
  - apply map_m_ok. intros i Hi. destruct (pk_only_column s req i Hpo Hi) as (c & Hc & Hn).
    unfold column_value. by rewrite Hc, Hk, (Hpk i c).
  - unfold decode_row_record_projected_values.
    rewrite (projected_values_agree_aux s req r.2 row) by done. rewrite bind_ok.
    apply fold_m_same. intros [slot i] Hi. apply elem_of_imap_pair_nat in Hi. cbn in Hi.
    unfold override_pk. cbn [fst snd]. destruct (columns s !! i) as [c|] eqn:Hc; [|done].
    case_bool_decide as Hn; [|done]. rewrite Hk, bind_ok.
    rewrite set_index_lt by (rewrite length_map; by eapply lookup_lt_Some).
    rewrite list_insert_id; [done|]. rewrite list_lookup_fmap, Hi. cbn. unfold column_value.
    by rewrite Hc, (Hpk i c).
Qed.

Lemma required_slot_some plan i :
  i ∈ required_indices plan -> exists slot, required_slot plan i = Some slot /\
    required_indices plan !! slot = Some i.
Proof.
  intros Hi. unfold required_slot.
  destruct (list_find_elem_of (fun idx => idx = i) _ _ Hi eq_refl) as [[slot j] Hf].
  rewrite Hf. apply list_find_Some in Hf as (Hl & -> & _). by exists slot.
Qed.

Lemma projected_value_ok plan (f : nat -> ColumnValue) i :
  i ∈ required_indices plan ->
  projected_value plan (map f (required_indices plan)) i = Some (f i).
Proof.
  intros Hi. unfold projected_value. destruct (required_slot_some plan i Hi) as (slot & -> & Hl).
  cbn [mbind option_bind]. by rewrite list_lookup_fmap, Hl.
Qed.

Section RowsAgree.
Context (plan : KvAggregateScan) (row : RowMap) (f : nat -> ColumnValue).
Let s := plan_schema plan.
Let values := map f (required_indices plan).
Hypothesis Hrow : forall i, i ∈ required_indices plan -> row_value s row i = f i.

Lemma predicates_agree p :
  predicate_columns p ⊆ required_indices plan ->
  projected_predicate_matches plan values p = kv_predicate_matches s row p.
Proof.
  induction p as [ps IH|ps IH|p IH|i op v|i|i|i low high negated] using KvPredicate_nested_ind;
    cbn [predicate_columns projected_predicate_matches kv_predicate_matches]; intros Hu.
  - by apply (forallb_columns _ _ (required_indices plan)).
  - by apply (existsb_columns _ _ (required_indices plan)).
  - by rewrite IH.
  - unfold values. by rewrite projected_value_ok, <- Hrow by set_solver.
  - unfold values. by rewrite projected_value_ok, <- Hrow by set_solver.
  - unfold values. by rewrite projected_value_ok, <- Hrow by set_solver.
  - unfold values. by rewrite projected_value_ok, <- Hrow by set_solver.
Qed.

Lemma apply_one_agrees a state :
  aggregate_columns a ⊆ required_indices plan ->
  projected_apply_one plan values a state = kv_apply_one s row a state.
Proof.
  intros Hu. destruct a as [|i|i|i|i|i]; cbn [projected_apply_one kv_apply_one]; [done|..];
    cbn [aggregate_columns aggregate_column] in Hu;
    unfold values; rewrite projected_value_ok, <- Hrow by set_solver; done.
Qed.

Lemma row_matches_agrees :
  flat_map predicate_columns (filters plan) ⊆ required_indices plan ->
  projected_row_matches plan values = kv_row_matches s row (filters plan).
Proof.
  intros Hu. apply (forallb_columns _ _ (required_indices plan)); [|done].
  apply Forall_forall. intros p _. apply predicates_agree.
Qed.

Lemma apply_aggregate_agrees states :
  flat_map aggregate_columns (aggregates plan) ⊆ required_indices plan ->
  apply_projected_aggregate plan values states = kv_apply_aggregate s row states (aggregates plan).
Proof.
  unfold apply_projected_aggregate, kv_apply_aggregate. revert states.
  induction (aggregates plan) as [|a l IH]; intros states Hu; [done|].
  destruct states as [|st states]; [done|]. cbn in *.
  rewrite apply_one_agrees, IH by set_solver. done.
Qed.

Lemma group_values_agree :
  group_indices plan ⊆ required_indices plan ->
  projected_group_values plan values = kv_group_values s row (group_indices plan).
Proof.
  intros Hu. unfold projected_group_values, kv_group_values. apply map_ext_in. intros i Hi.
  assert (i ∈ required_indices plan) by (by apply Hu, list_elem_of_In).
  unfold values. by rewrite projected_value_ok, <- Hrow.
Qed.
End RowsAgree.

(** The row the row path reads of a stored record agrees on the required columns. *)
Lemma aggregate_row_ok plan r row (v : option (list byte)) :
  stored_row (plan_schema plan) r row ->
  (v = Some r.2 \/ pk_only (plan_schema plan) (required_indices plan) = true) ->
  exists row', aggregate_row plan (r.1, v) = Ok (Some row') /\
    forall i, i ∈ required_indices plan ->
      row_value (plan_schema plan) row' i = column_value (plan_schema plan) row i.
Proof.
  intros (Hrow & pk & Hk & _ & Hpk) Hv. unfold aggregate_row. set (s := plan_schema plan) in *.
  cbn [fst snd]. destruct (pk_only s (required_indices plan)) eqn:Hpo.
  - unfold decode_row_pk in Hk. rewrite Hk, bind_ok.
    eexists. split; [done|]. intros i Hi. destruct (pk_only_column s _ i Hpo Hi) as (c & Hc & Hn).
    unfold row_value, column_value. rewrite Hc. cbn [mbind option_bind].
    by rewrite (Hpk i c), Hn, lookup_insert_eq.
  - destruct Hv as [->|?]; [|done]. rewrite Hrow, bind_ok. exists row. split; [done|].
    intros i _. apply row_value_column.
Qed.

(** ** The ungrouped scan *)

(** What every path computes: the states after the rows that match. *)
Definition scan_rows (plan : KvAggregateScan) (states : list KvAggregateState) (rows : list RowMap)
    : list KvAggregateState :=
  foldl (fun states row =>
    if kv_row_matches (plan_schema plan) row (filters plan)
    then kv_apply_aggregate (plan_schema plan) row states (aggregates plan) else states) states rows.

Lemma closed_parts plan :
  plan_closed plan ->
  flat_map predicate_columns (filters plan) ⊆ required_indices plan /\
  group_indices plan ⊆ required_indices plan /\
  flat_map aggregate_columns (aggregates plan) ⊆ required_indices plan.
Proof. unfold plan_closed. set_solver. Qed.

Lemma step_agrees plan r row states :
  wf_ids (plan_schema plan) -> wf_projection (plan_schema plan) (required_indices plan) ->
  plan_closed plan -> stored_row (plan_schema plan) r row ->
  projected_step plan states r = Ok (scan_rows plan states [row]).
Proof.
  intros Hs Hp Hc Hr. destruct (closed_parts plan Hc) as (Hf & _ & Ha). unfold projected_step.
  rewrite (projected_values_ok plan r row) by done. rewrite bind_ok.
  rewrite (row_matches_agrees plan row) by (done || intros; apply row_value_column).
  rewrite (apply_aggregate_agrees plan row) by (done || intros; apply row_value_column).
  cbn. by destruct (kv_row_matches _ _ _).
Qed.

Lemma projected_scan_rows plan rows maps : forall states,
  wf_ids (plan_schema plan) -> wf_projection (plan_schema plan) (required_indices plan) ->
  plan_closed plan -> Forall2 (stored_row (plan_schema plan)) rows maps ->
  fold_m (projected_step plan) states rows = Ok (scan_rows plan states maps).
Proof.
  intros states Hs Hp Hc H. revert states.
  induction H as [|r row rows maps Hr H IH]; intros states; [done|].
  cbn [fold_m]. rewrite (step_agrees plan r row) by done. rewrite bind_ok. apply IH.
Qed.

(** Evaluation only looks at the required columns. *)
Lemma scan_row_ext plan row row' :
  plan_closed plan ->
  (forall i, i ∈ required_indices plan ->
    row_value (plan_schema plan) row' i = column_value (plan_schema plan) row i) ->
  kv_row_matches (plan_schema plan) row' (filters plan) =
    kv_row_matches (plan_schema plan) row (filters plan) /\
  (forall states, kv_apply_aggregate (plan_schema plan) row' states (aggregates plan) =
    kv_apply_aggregate (plan_schema plan) row states (aggregates plan)) /\
  kv_group_values (plan_schema plan) row' (group_indices plan) =
    kv_group_values (plan_schema plan) row (group_indices plan).
Proof.
  intros Hc Hv. destruct (closed_parts plan Hc) as (Hf & Hg & Ha).
  pose proof (fun i (_ : i ∈ required_indices plan) => row_value_column (plan_schema plan) row i) as Hv'.
  repeat split.
  - by rewrite <- (row_matches_agrees plan row' _ Hv), <- (row_matches_agrees plan row _ Hv').
  - intros states.
    by rewrite <- (apply_aggregate_agrees plan row' _ Hv), <- (apply_aggregate_agrees plan row _ Hv').
  - by rewrite <- (group_values_agree plan row' _ Hv), <- (group_values_agree plan row _ Hv').
Qed.

(** The single group of the row path when there is no GROUP BY. *)
Definition single_group (groups : gmap key (list ColumnValue * list KvAggregateState))
    (initial states : list KvAggregateState) : Prop :=
  groups = <[[] := ([], states)]> ∅ \/ (groups = ∅ /\ states = initial).

Lemma row_step_eq d32 d64 plan groups r row' :
  aggregate_row plan r = Ok (Some row') ->
  kv_aggregate_step d32 d64 plan groups r =
    Ok (if kv_row_matches (plan_schema plan) row' (filters plan) then
          let group_values := kv_group_values (plan_schema plan) row' (group_indices plan) in
          group_add groups (kv_group_key d32 d64 group_values) group_values (initial_states plan)
            (fun states => kv_apply_aggregate (plan_schema plan) row' states (aggregates plan))
        else groups).
Proof. intros H. unfold kv_aggregate_step. rewrite H, bind_ok. by destruct (kv_row_matches _ _ _). Qed.

Lemma row_scan_rows d32 d64 plan rows maps (value_of : kvrow -> option (list byte)) :
  group_indices plan = [] -> plan_closed plan ->
  (forall r, value_of r = Some r.2 \/ pk_only (plan_schema plan) (required_indices plan) = true) ->
  Forall2 (stored_row (plan_schema plan)) rows maps ->
  forall groups states, single_group groups (initial_states plan) states ->
  exists groups', fold_m (kv_aggregate_step d32 d64 plan) groups (map (fun r => (r.1, value_of r)) rows) =
      Ok groups' /\ single_group groups' (initial_states plan) (scan_rows plan states maps).
Proof.
  intros Hgi Hc Hval H. induction H as [|r row rows maps Hr H IH]; intros groups states Hg.
  - by exists groups.
  - cbn [map fold_m]. destruct (aggregate_row_ok plan r row (value_of r) Hr (Hval r)) as (row' & Hrow & Hv).
    rewrite (row_step_eq _ _ _ _ _ _ Hrow), bind_ok.
    destruct (scan_row_ext plan row row' Hc Hv) as (-> & Happ & Hgv).
    cbn [scan_rows foldl]. destruct (kv_row_matches _ _ _) eqn:Hm.
    + apply IH. left. rewrite Hgv, Hgi. cbn [kv_group_values map].
      change (kv_group_key d32 d64 []) with ([] : key). unfold group_add.
      destruct Hg as [->|[-> ->]]; rewrite ?lookup_insert_eq, ?lookup_empty;
        cbn [from_option id fst snd]; rewrite Happ; [by rewrite insert_insert_eq|done].
    + by apply IH.
Qed.

Lemma btree_iter_singleton {A} (k : key) (a : A) : btree_iter (<[k := a]> (∅ : gmap key A)) = [(k, a)].
Proof.
  apply btree_iter_unique; [by repeat constructor|]. intros k' v.
  rewrite elem_of_cons. destruct (decide (k = k')) as [<-|Hk].
  - rewrite lookup_insert_eq. split; [intros [[= ->]|?]; [done|set_solver]|].
    intros [= ->]. by left.
  - rewrite lookup_insert_ne by done. rewrite lookup_empty. split; [|done].
    intros [[= -> ->]|?]; [done|set_solver].
Qed.

Lemma row_scan_ungrouped d32 d64 plan rows maps (value_of : kvrow -> option (list byte)) :
  group_indices plan = [] -> plan_closed plan ->
  (forall r, value_of r = Some r.2 \/ pk_only (plan_schema plan) (required_indices plan) = true) ->
  Forall2 (stored_row (plan_schema plan)) rows maps ->
  kv_aggregate_scan d32 d64 plan (map (fun r => (r.1, value_of r)) rows) =
    Ok [map kv_finish_aggregate_state (scan_rows plan (initial_states plan) maps)].
Proof.
  intros Hg Hc Hval H. unfold kv_aggregate_scan.
  destruct (row_scan_rows d32 d64 plan rows maps value_of Hg Hc Hval H ∅ (initial_states plan))
    as (groups & -> & Hgroups); [by right|]. rewrite bind_ok, (bool_decide_eq_true_2 _ Hg), andb_true_r.
  unfold finish_groups. destruct Hgroups as [->|[-> ->]].
  - rewrite bool_decide_eq_false_2 by apply insert_non_empty. by rewrite btree_iter_singleton.
  - rewrite bool_decide_eq_true_2 by done. by rewrite btree_iter_singleton.
Qed.

Lemma i64_add_signed a b : i64_add (to_signed 64 a) b = to_signed 64 (a + b).
Proof.
  unfold i64_add, to_signed at 1 3. cbv zeta.
  assert (E : (to_signed 64 a + b) mod 2 ^ 64 = (a + b) mod 2 ^ 64); [|by rewrite E].
  rewrite Z.add_mod, (Z.add_mod a b) by lia. do 2 f_equal. unfold to_signed. cbv zeta.
  destruct (Z.ltb_spec (a mod 2 ^ 64) (2 ^ (64 - 1))); [by rewrite Zmod_mod|].
  replace (a mod 2 ^ 64 - 2 ^ 64) with (a mod 2 ^ 64 + (-1) * 2 ^ 64) by lia.
  by rewrite Z_mod_plus_full, Zmod_mod.
Qed.

Lemma i64_add_0 z : i64_add 0 (to_signed 64 z) = to_signed 64 z.
Proof.
  unfold i64_add. rewrite Z.add_0_l. apply to_signed_small; [lia|]. apply to_signed_range. lia.
Qed.

(** Key-only plans that need no value: every row counts once for every aggregate. *)
Lemma count_only_row plan row :
  key_only_plan_needs_primary_key_values plan = false ->
  (forall i, i ∈ required_indices plan -> column_value (plan_schema plan) row i <> Null) ->
  plan_closed plan ->
  forall n, scan_rows plan (map (add_count (to_signed 64 n)) (initial_states plan)) [row] =
    map (add_count (to_signed 64 (n + 1))) (initial_states plan).
Proof.
  unfold key_only_plan_needs_primary_key_values. intros H Hnn Hc n.
  apply orb_false_iff in H as [H Hagg]. apply orb_false_iff in H as [Hf _].
  apply negb_false_iff, bool_decide_eq_true in Hf.
  destruct (closed_parts plan Hc) as (_ & _ & Ha).
  cbn [scan_rows foldl]. destruct (filters plan); [|done]. cbn [kv_row_matches forallb].
  unfold kv_apply_aggregate, initial_states. induction (aggregates plan) as [|a l IH]; [done|].
  cbn [existsb] in Hagg. apply orb_false_iff in Hagg as [Ha1 Hagg]. cbn [flat_map] in Ha.
  cbn [map apply_each]. f_equal; [|apply IH; [done|set_solver]].
  assert (E : count_one (add_count (to_signed 64 n) (Count 0)) = add_count (to_signed 64 (n + 1)) (Count 0)).
  { cbn [add_count count_one]. by rewrite !i64_add_0, i64_add_signed. }
  destruct a as [|i|i|i|i|i]; try done. cbn [kv_aggregate_initial_state kv_apply_one].
  rewrite row_value_column. specialize (Hnn i ltac:(set_solver)).
  by destruct (column_value (plan_schema plan) row i).
Qed.

Lemma key_only_step plan states r :
  pk_only (plan_schema plan) (required_indices plan) = true ->
  projected_step plan states (r.1, []) = projected_step plan states r.
Proof. intros H. unfold projected_step, projected_values_for_aggregate_record. by rewrite H. Qed.

Lemma key_only_scan plan rows : forall states,
  pk_only (plan_schema plan) (required_indices plan) = true ->
  fold_m (projected_step plan) states (key_only_rows rows) = fold_m (projected_step plan) states rows.
Proof.
  intros states H. revert states. induction rows as [|r rows IH]; intros states; [done|].
  cbn [key_only_rows map fold_m]. rewrite key_only_step by done.
  destruct (projected_step plan states r); [apply IH|done..].
Qed.

Lemma count_only_rows plan rows maps : forall n,
  key_only_plan_needs_primary_key_values plan = false ->
  pk_only (plan_schema plan) (required_indices plan) = true -> plan_closed plan ->
  Forall2 (stored_row (plan_schema plan)) rows maps ->
  scan_rows plan (map (add_count (to_signed 64 n)) (initial_states plan)) maps =
    map (add_count (to_signed 64 (n + len rows))) (initial_states plan).
Proof.
  intros n Hn Hpo Hc H. revert n. induction H as [|r row rows maps Hr H IH]; intros n.
  - cbn. by rewrite Z.add_0_r.
  - change (scan_rows plan ?st (row :: maps)) with (scan_rows plan (scan_rows plan st [row]) maps).
    rewrite (count_only_row plan row) by (try done; intros i Hi;
      destruct (pk_only_column _ _ i Hpo Hi) as (c & Hci & Hname);
      destruct Hr as (_ & pk & _ & Hnn & Hpk); unfold column_value; rewrite Hci;
      by rewrite (Hpk i c Hci Hname)).
    rewrite IH, len_cons. by replace (n + 1 + len rows) with (n + (1 + len rows)) by lia.
Qed.

Lemma initial_count plan :
  key_only_plan_needs_primary_key_values plan = false ->
  map (add_count (to_signed 64 0)) (initial_states plan) = initial_states plan.
Proof.
  unfold key_only_plan_needs_primary_key_values. intros H. apply orb_false_iff in H as [_ H].
  unfold initial_states. induction (aggregates plan) as [|a l IH]; [done|]. cbn in H |- *.
  apply orb_false_iff in H as [Ha H]. rewrite IH by done. f_equal. by destruct a.
Qed.

(** Without GROUP BY the engine store's projected and key-only scans give
    the result of the row-at-a-time scan of the in-memory store, on any rows whose
    records decode and whose keys hold their (non-NULL) primary key: the same
    filters, the same states, and for plans that only count, the number of keys. *)
Theorem ungrouped_scans_agree (d32 d64 : Z -> string) (plan : KvAggregateScan) (rows : list kvrow)
    (maps : list RowMap) :
  group_indices plan = [] -> plan_closed plan ->
  wf_ids (plan_schema plan) -> wf_projection (plan_schema plan) (required_indices plan) ->
  Forall2 (stored_row (plan_schema plan)) rows maps ->
  reduce_ungrouped_projected_scan plan rows =
    kv_aggregate_scan d32 d64 plan (map (project_row KeyValue) rows) /\
  (aggregate_plan_uses_only_primary_key plan = true ->
   reduce_ungrouped_key_only_scan plan rows =
     kv_aggregate_scan d32 d64 plan (map (project_row KeyOnly) rows)).
Proof.
  intros Hg Hc Hs Hp H.
  assert (Hproj : reduce_ungrouped_projected_scan plan rows =
    Ok [map kv_finish_aggregate_state (scan_rows plan (initial_states plan) maps)]).
  { unfold reduce_ungrouped_projected_scan. by rewrite (projected_scan_rows plan rows maps). }
  split.
  - rewrite Hproj. symmetry.
    apply (row_scan_ungrouped d32 d64 plan rows maps (fun r => Some r.2)); auto.
  - intros Hk. assert (Hpo : pk_only (plan_schema plan) (required_indices plan) = true)
      by (unfold aggregate_plan_uses_only_primary_key in Hk; by destruct (projection plan)).
    etransitivity; [|symmetry; apply (row_scan_ungrouped d32 d64 plan rows maps (fun _ => None)); auto].
    unfold reduce_ungrouped_key_only_scan.
    destruct (key_only_plan_needs_primary_key_values plan) eqn:Hn; cbn [negb].
    + unfold reduce_ungrouped_projected_scan. rewrite key_only_scan by done. exact Hproj.
    + pose proof (count_only_rows plan rows maps 0 Hn Hpo Hc H) as E.
      rewrite initial_count, Z.add_0_l in E by done. by rewrite E.
Qed.

(** A table with an integer primary key and two of its rows. *)
Definition agg_schema : TableSchema :=
  {| table_name := "t"; table_id := 7; schema_version := 1; table_epoch := 1; primary_key := "a";
     check_constraints := []; unique_constraints := []; foreign_keys := [];
     columns := [sample_column 1 "a" DT.Int32; sample_column 2 "n" DT.Int64] |}.
Definition agg_row (a n : Z) : RowMap := <["a" := Int32 a]> (<["n" := Int64 n]> ∅).
Definition agg_record (row : RowMap) : list byte :=
  match encode_row_record agg_schema row with Ok l => l | _ => [] end.
Definition agg_kv (a n : Z) : kvrow := (row_key 7 1 (Int32 a), agg_record (agg_row a n)).
Definition agg_plan (aggs : list KvAggregateOp) : KvAggregateScan :=
  {| plan_schema := agg_schema; filters := [ColumnCompare 0 OpGt (Int32 0)]; group_indices := [];
     aggregates := aggs; required_indices := [0; 1]%nat; projection := KeyValue |}.

Lemma agg_stored a n : in_signed 32 a -> in_signed 64 n ->
  decode_row_record agg_schema (agg_record (agg_row a n)) = Ok (agg_row a n) ->
  decode_row_pk agg_schema (row_key 7 1 (Int32 a)) = Ok (Int32 a) ->
  stored_row agg_schema (agg_kv a n) (agg_row a n).
Proof.
  intros Ha Hn Hd Hk. split; [exact Hd|]. exists (Int32 a). split; [exact Hk|]. split; [done|].
  intros [|[|i]] c; cbn; intros [= <-]; done.
Defined.

Lemma ungrouped_scans_agree_witness :
  reduce_ungrouped_projected_scan (agg_plan [CountStar; SumColumn 1]) [agg_kv 1 5; agg_kv (-1) 9; agg_kv 2 6]
  = Ok [[Int64 2; Int64 11]].
Proof.
  rewrite (proj1 (ungrouped_scans_agree (fun _ => ""%string) (fun _ => ""%string)
    (agg_plan [CountStar; SumColumn 1]) [agg_kv 1 5; agg_kv (-1) 9; agg_kv 2 6]
    [agg_row 1 5; agg_row (-1) 9; agg_row 2 6] eq_refl
    ltac:(intros i Hi; vm_compute in Hi |- *; set_solver)
    ltac:(split; [split; (apply (bool_decide_eq_true_1 _); vm_compute; reflexivity)
                 |repeat constructor; vm_compute; congruence])
    ltac:(split; [apply (bool_decide_eq_true_1 _); vm_compute; reflexivity
                 |repeat constructor; vm_compute; lia])
    ltac:(repeat constructor; (apply agg_stored;
          [split; vm_compute; congruence|split; vm_compute; congruence
          |vm_compute; reflexivity|vm_compute; reflexivity])))).
  vm_compute. reflexivity.
Defined.

(** ** The numeric path computes the same *)

Definition fnum (v : ColumnValue) : FastNumericValue := default FNull (column_value_to_fast_numeric v).

(** NULL, or a value of the column's own type; no NaN. *)
Definition plain_numeric (t : DataType) (v : ColumnValue) : Prop :=
  match t, v with
  | _, Null => True
  | DT.Int16, Int16 z => in_signed 16 z
  | DT.Int32, Int32 z => in_signed 32 z
  | DT.Int64, Int64 z => in_signed 64 z
  | DT.Float64, Float64 b => fis_nan 52 11 b = false
  | _, _ => False
  end.

Definition column_type (s : TableSchema) (i : nat) : DataType :=
  match columns s !! i with Some c => data_type c | None => DT.Text end.

(** Literals of the compared column's own type. *)
Fixpoint plain_predicate (s : TableSchema) (p : KvPredicate) : Prop :=
  match p with
  | ColumnCompare i _ v => plain_numeric (column_type s i) v
  | And ps | Or ps => foldr (fun p acc => plain_predicate s p /\ acc) True ps
  | Not p => plain_predicate s p
  | IsNull _ | IsNotNull _ => True
  | Between i low high _ => plain_numeric (column_type s i) low /\ plain_numeric (column_type s i) high
  end.

(** The aggregates the planner compiles, SUM over integers only. *)
Definition plain_aggregate (s : TableSchema) (a : KvAggregateOp) : Prop :=
  match a with
  | SumColumn i => column_type s i = DT.Int32 \/ column_type s i = DT.Int64
  | AvgColumn i =>
      column_type s i = DT.Int32 \/ column_type s i = DT.Int64 \/ column_type s i = DT.Float64
  | _ => True
  end.

Lemma f64_eqb_compare a b : f64_eqb a b = ordering_satisfies OpEq (f64_compare a b).
Proof. unfold feqb, fcompare, SFeqb. by destruct (SFcompare _ _) as [[]|]. Qed.

Lemma z_eqb_compare op a b :
  match op with OpEq => (a =? b) = ordering_satisfies op (Some (a ?= b))
  | OpNotEq => negb (a =? b) = ordering_satisfies op (Some (a ?= b)) | _ => True end.
Proof. destruct op; try done; rewrite Z.eqb_compare; by destruct (a ?= b). Qed.

Lemma plain_compare t a op b :
  plain_numeric t a -> plain_numeric t b ->
  compare_values a op b = compare_fast_numeric_values (fnum a) op (fnum b).
Proof.
  intros Ha Hb. unfold compare_values, compare_fast_numeric_values.
  destruct a; try (destruct t; done); destruct b; try (destruct t; done);
    cbn [is_null orb fnum column_value_to_fast_numeric from_option id fast_numeric_cmp
         fast_numeric_as_f64 mbind option_bind cv_partial_cmp cv_eqb];
    try (by destruct op).
  - pose proof (z_eqb_compare op v v0). by destruct op.
  - pose proof (z_eqb_compare op v v0). by destruct op.
  - pose proof (z_eqb_compare op v v0). by destruct op.
  - assert (Hna : fis_nan 52 11 bits = false) by (by destruct t).
    assert (Hnb : fis_nan 52 11 bits0 = false) by (by destruct t).
    pose proof (f64_eqb_compare bits bits0) as E. rewrite fcompare_val in * by (done || lia).
    destruct op; try done; rewrite E; by destruct (fval _ _ _ ?= _).
Qed.

Lemma plain_order t (better : option comparison -> bool) a b :
  plain_numeric t a -> plain_numeric t b -> is_null a = false -> is_null b = false ->
  better (cv_partial_cmp a b) = better (fast_numeric_cmp (fnum a) (fnum b)).
Proof.
  intros Ha Hb Hna Hnb.
  destruct a; try (destruct t; done); destruct b; try (destruct t; done); done.
Qed.

Lemma plain_is_null t v : plain_numeric t v -> is_fnull (fnum v) = is_null v.
Proof. destruct v; try (by destruct t); done. Qed.

Lemma plain_back t v : plain_numeric t v -> fast_numeric_to_column_value t (fnum v) = v.
Proof.
  destruct t, v; try done; cbn; intros H; rewrite ?to_signed_small by (done || lia); done.
Qed.

(** ** Slots *)

Lemma elem_of_sorted_slots (i : nat) (S : gset nat) : i ∈ sorted_slots S <-> i ∈ S.
Proof. unfold sorted_slots. rewrite merge_sort_Permutation. apply elem_of_elements. Qed.

Lemma build_column_slots_lookup n required i :
  NoDup required ->
  forall slot, slot_of_column (build_column_slots n required) i = Some slot <->
    required !! slot = Some i /\ (i < n)%nat.
Proof.
  intros Hnd slot. unfold build_column_slots, slot_of_column.
  assert (H : forall req (k : nat -> nat) slots, NoDup req ->
    foldl (fun slots (si : nat * nat) => <[si.2 := Some si.1]> slots) slots (imap (fun a b => (k a, b)) req) !! i =
    match list_find (fun j => j = i) req with
    | Some (p, _) => if decide (i < length slots)%nat then Some (Some (k p)) else None
    | None => slots !! i
    end).
  { clear. induction req as [|j req IH]; intros k slots Hnd; [done|].
    apply NoDup_cons in Hnd as [Hj Hnd]. cbn [imap foldl]. cbn [fst snd].
    rewrite (IH (fun a => k (S a))) by done. cbn [list_find]. rewrite length_insert.
    destruct (decide (j = i)) as [->|Hji].
    - assert (list_find (fun j => j = i) req = None) as ->.
      { apply list_find_None, Forall_forall. intros x Hx ->. done. }
      case_decide; [by apply list_lookup_insert_eq|].
      apply lookup_ge_None_2. rewrite length_insert. lia.
    - destruct (list_find (fun j => j = i) req) as [[p q]|]; cbn; [done|].
      by rewrite list_lookup_insert_ne. }
  rewrite (H required (fun a => a)) by done. rewrite length_replicate.
  destruct (list_find (fun j => j = i) required) as [[p q]|] eqn:E.
  - apply list_find_Some in E as (Hp & -> & _). case_decide; cbn.
    + split; [intros [= <-]; done|]. intros [Hs _]. f_equal.
      by apply (NoDup_lookup required p slot i).
    + split; [done|]. by intros [_ ?].
  - split; [|intros [Hs _]].
    + destruct (replicate n None !! i) as [o|] eqn:Er; cbn; [|done].
      apply lookup_replicate in Er as [-> _]. done.
    + apply list_find_None in E. rewrite Forall_forall in E.
      destruct (E i); [by apply list_elem_of_lookup_2 in Hs|done].
Qed.

Lemma add_slot_spec slots i (acc acc' : gset nat) :
  (slot ← slot_of_column slots i; Some ({[slot]} ∪ acc)) = Some acc' ->
  acc ⊆ acc' /\ forall j, j ∈ [i] -> exists o, slot_of_column slots j = Some o /\ o ∈ acc'.
Proof.
  destruct (slot_of_column slots i) as [o|] eqn:E; [|done]. intros [= <-].
  split; [set_solver|]. intros j Hj. apply list_elem_of_singleton in Hj as ->. exists o. set_solver.
Qed.

Lemma collect_all p slots : forall acc acc',
  collect_fast_aggregate_filter_slots p slots acc = Some acc' ->
  acc ⊆ acc' /\ forall i, i ∈ predicate_columns p ->
    exists o, slot_of_column slots i = Some o /\ o ∈ acc'.
Proof.
  induction p as [ps IH|ps IH|p IH|i op v|i|i|i low high negated] using KvPredicate_nested_ind;
    intros acc acc' H; cbn [collect_fast_aggregate_filter_slots predicate_columns] in *.
  1,2: revert acc H; induction IH as [|p ps Hp IH IHl]; intros acc H;
    [injection H as <-; split; [done|set_solver]|];
    destruct (collect_fast_aggregate_filter_slots p slots acc) as [acc1|] eqn:E; [|done];
    cbn [mbind option_bind] in H; destruct (Hp _ _ E) as [H1 H2]; destruct (IHl _ H) as [H3 H4];
    split; [set_solver|]; intros i Hi; cbn [flat_map] in Hi;
    apply elem_of_app in Hi as [Hi|Hi]; [destruct (H2 i Hi) as (o & ? & ?); exists o; set_solver|by apply H4].
  - by apply IH.
  - destruct (column_value_to_fast_numeric v); [|done]. cbn [mbind option_bind] in H.
    by apply add_slot_spec.
  - by apply add_slot_spec.
  - by apply add_slot_spec.
  - destruct (column_value_to_fast_numeric low); [|done]. cbn [mbind option_bind] in H.
    destruct (column_value_to_fast_numeric high); [|done]. cbn [mbind option_bind] in H.
    by apply add_slot_spec.
Qed.

(** The direct slot of an output position. *)
Lemma find_direct_slot s idxs o :
  Forall (numeric_column s) idxs ->
  match List.find (fun slot => ds_output_idx slot =? o)%nat
          (direct_slots (new_fast_numeric_projector s idxs)) with
  | Some slot => exists i, idxs !! o = Some i /\ direct_slot s o i = Some slot
  | None => idxs !! o = None
  end.
Proof.
  intros Hnum. cbn [direct_slots new_fast_numeric_projector].
  assert (Hslot : forall o i, idxs !! o = Some i ->
    exists slot, direct_slot s o i = Some slot /\ ds_output_idx slot = o).
  { intros o' i Hi. rewrite Forall_lookup in Hnum. specialize (Hnum _ _ Hi).
    unfold numeric_column in Hnum. unfold direct_slot. destruct (columns s !! i); [|done].
    cbn [mbind option_bind]. by eexists. }
  destruct (List.find _ _) as [slot|] eqn:E.
  - apply find_some in E as [Hin Ho]. apply Nat.eqb_eq in Ho.
    apply list_elem_of_In, list_elem_of_omap in Hin as ([o' i] & Hin & Hs).
    apply elem_of_imap_pair_nat in Hin. cbn [fst snd] in *.
    destruct (Hslot o' i Hin) as (slot' & Hs' & Ho'). rewrite Hs in Hs'. injection Hs' as <-.
    exists i. split; congruence.
  - destruct (idxs !! o) as [i|] eqn:Hi; [|done]. exfalso.
    destruct (Hslot o i Hi) as (slot & Hs & Ho).
    assert (Hin : slot ∈ omap (fun oc : nat * nat => direct_slot s oc.1 oc.2) (imap pair idxs)).
    { apply list_elem_of_omap. exists (o, i). split; [by apply elem_of_imap_pair_nat|done]. }
    apply list_elem_of_In in Hin. pose proof (find_none _ _ E _ Hin) as Hn. cbn in Hn.
    rewrite Ho, Nat.eqb_refl in Hn. done.
Qed.

(** Decoding some slots of a fixed record that stores every column. *)
Lemma fixed_slots_decode s idxs l row layout slots values :
  schema_unique s -> Forall (numeric_column s) idxs ->
  fixed_row_layout s l = Ok layout -> stored_column_count layout = length (columns s) ->
  decode_row_record s l = Ok row -> length values = length idxs ->
  exists values',
    decode_row_record_fast_numeric_slots_with (new_fast_numeric_projector s idxs) l values slots =
      Ok values' /\ length values' = length idxs /\
    forall o i, idxs !! o = Some i ->
      values' !! o = if decide (o ∈ slots) then Some (numeric_value s row i) else values !! o.
Proof.
  intros Hu Hnum Hl Hn H Hlen. destruct (full_layout s l layout Hl Hn) as [-> Hf].
  assert (Hrec : decode_fixed_row_record s l = Ok row).
  { unfold decode_row_record in H. by rewrite Hf in H. }
  unfold decode_row_record_fast_numeric_slots_with.
  rewrite Hf. cbn [np_output_len new_fast_numeric_projector]. rewrite Hlen, Nat.eqb_refl. cbn [negb].
  revert values Hlen. induction slots as [|o slots IH]; intros values Hlen; [by exists values|].
  cbn [fold_m]. pose proof (find_direct_slot s idxs o Hnum) as Hfind.
  destruct (List.find _ _) as [slot|].
  - destruct Hfind as (i & Hi & Hs). rewrite Forall_lookup in Hnum.
    rewrite (numeric_slot_agrees s l row o i slot) by (done || by apply (Hnum o)).
    rewrite set_index_lt, bind_ok by (rewrite Hlen; by eapply lookup_lt_Some).
    destruct (IH (<[o := numeric_value s row i]> values)) as (values' & -> & Hlen' & Hv);
      [by rewrite length_insert|].
    exists values'. split; [done|]. split; [done|]. intros o' i' Ho'. rewrite (Hv o' i' Ho').
    destruct (decide (o = o')) as [->|Hne].
    + rewrite (decide_True (P := o' ∈ o' :: slots)) by set_solver.
      assert (i' = i) as -> by congruence. case_decide; [done|].
      apply list_lookup_insert_eq. rewrite Hlen. by eapply lookup_lt_Some.
    + rewrite list_lookup_insert_ne by done. repeat case_decide; try done; set_solver.
  - rewrite bind_ok. destruct (IH values Hlen) as (values' & -> & Hlen' & Hv).
    exists values'. split; [done|]. split; [done|]. intros o' i' Ho'. rewrite (Hv o' i' Ho').
    assert (o <> o') by (intros ->; congruence). repeat case_decide; try done; set_solver.
Qed.

(** ** States of the two paths *)

Definition state_agrees (s : TableSchema) (a : KvAggregateOp) (g : KvAggregateState)
    (f : FastAggregateState) : Prop :=
  match a with
  | CountStar | CountColumn _ => exists n, g = Count n /\ f = FCount n
  | SumColumn _ => exists v n, g = Value v /\ f = FSumI64 n /\ in_signed 64 n /\
      ((v = Null /\ n = 0) \/ v = Int32 n \/ v = Int64 n)
  | MaxColumn i => exists v, g = Value v /\ f = FMax (fnum v) /\ plain_numeric (column_type s i) v
  | MinColumn i => exists v, g = Value v /\ f = FMin (fnum v) /\ plain_numeric (column_type s i) v
  | AvgColumn _ => exists x n, g = Avg x n /\ f = FAvg x n
  end.

Section FastStep.
Context (s : TableSchema) (row : RowMap) (slots : list (option nat)) (values : list FastNumericValue).

(** The numeric values hold column [i] of the row, and it is of its type. *)
Definition slot_holds (i : nat) : Prop :=
  fast_aggregate_column_value slots values i = Some (fnum (row_value s row i)) /\
  plain_numeric (column_type s i) (row_value s row i).

Lemma fast_predicate_agrees p :
  plain_predicate s p -> (forall i, i ∈ predicate_columns p -> slot_holds i) ->
  fast_aggregate_predicate_matches p slots values = kv_predicate_matches s row p.
Proof.
  induction p as [ps IH|ps IH|p IH|i op v|i|i|i low high negated] using KvPredicate_nested_ind;
    cbn [predicate_columns plain_predicate fast_aggregate_predicate_matches kv_predicate_matches];
    intros Hp Hc.
  1,2: induction IH as [|p ps IHp IH IHl]; [done|]; cbn in *; destruct Hp as [Hp Hps];
    rewrite IHp by (done || (intros; apply Hc; set_solver));
    f_equal; apply IHl; [done|intros; apply Hc; set_solver].
  - by rewrite IH.
  - destruct (Hc i ltac:(set_solver)) as [-> Hv].
    rewrite (plain_compare (column_type s i)) by done.
    unfold fnum at 2. by destruct v; try (by destruct (column_type s i)).
  - destruct (Hc i ltac:(set_solver)) as [-> Hv]. by rewrite (plain_is_null (column_type s i)).
  - destruct (Hc i ltac:(set_solver)) as [-> Hv]. by rewrite (plain_is_null (column_type s i)).
  - destruct (Hc i ltac:(set_solver)) as [-> Hv]. destruct Hp as [Hl Hh].
    rewrite !(plain_compare (column_type s i)) by done.
    assert (Hsome : forall v, plain_numeric (column_type s i) v ->
      column_value_to_fast_numeric v = Some (fnum v)).
    { intros v Hpv. destruct v; try done; by destruct (column_type s i). }
    by rewrite !Hsome.
Qed.

Lemma extreme_agrees i better v :
  plain_numeric (column_type s i) v -> is_null (row_value s row i) = false ->
  plain_numeric (column_type s i) (row_value s row i) ->
  exists v', keep_extreme better (row_value s row i) (Value v) = Value v' /\
    fast_keep_extreme better (fnum (row_value s row i)) (fnum v) = fnum v' /\
    plain_numeric (column_type s i) v'.
Proof.
  intros Hv Hn Hr. cbn [keep_extreme]. unfold fast_keep_extreme.
  rewrite (plain_is_null (column_type s i)) by done. destruct (is_null v) eqn:Hnv; cbn [orb].
  - by eexists.
  - rewrite (plain_order (column_type s i)) by done.
    destruct (better _); by eexists.
Qed.

Lemma fast_apply_agrees a g f :
  plain_aggregate s a -> (forall i, i ∈ aggregate_columns a -> slot_holds i) ->
  state_agrees s a g f -> state_agrees s a (kv_apply_one s row a g) (fast_apply_one slots values a f).
Proof.
  intros Hp Hc Hst. destruct a as [|i|i|i|i|i]; cbn [state_agrees kv_apply_one fast_apply_one] in *.
  - destruct Hst as (n & -> & ->). by eexists.
  - destruct Hst as (n & -> & ->). destruct (Hc i ltac:(set_solver)) as [-> Hv].
    rewrite (plain_is_null (column_type s i)) by done. destruct (is_null _); by eexists.
  - destruct Hst as (v & -> & -> & Hpl). destruct (Hc i ltac:(set_solver)) as [-> Hv].
    rewrite (plain_is_null (column_type s i)) by done. destruct (is_null _) eqn:Hn; [by eexists|].
    destruct (extreme_agrees i is_gt v Hpl Hn Hv) as (v' & -> & -> & ?). by exists v'.
  - destruct Hst as (v & -> & -> & Hpl). destruct (Hc i ltac:(set_solver)) as [-> Hv].
    rewrite (plain_is_null (column_type s i)) by done. destruct (is_null _) eqn:Hn; [by eexists|].
    destruct (extreme_agrees i is_lt v Hpl Hn Hv) as (v' & -> & -> & ?). by exists v'.
  - destruct Hst as (v & n & -> & -> & Hr & Hv). destruct (Hc i ltac:(set_solver)) as [-> Hpl].
    cbn [plain_aggregate] in Hp. assert (H64 : forall z, in_signed 32 z -> in_signed 64 z) by width.
    assert (Hrange : forall z, in_signed 64 (i64_add n z)) by (intros; by apply to_signed_range).
    assert (H0 : forall z, in_signed 64 z -> i64_add 0 z = z) by (intros; by apply to_signed_small).
    destruct (row_value s row i) eqn:Er; destruct Hp as [Ht|Ht]; rewrite Ht in Hpl; try done;
      cbn [is_null fnum column_value_to_fast_numeric from_option id add_sum];
      try (by exists v, n); cbn [plain_numeric] in Hpl;
      (destruct Hv as [[-> ->]|[->| ->]]; cbn [sum_values];
       [rewrite H0 by auto; eexists _, _; split; [done|]; split; [done|]; split; [by auto|]; auto
       |eexists _, _; split; [done|]; split; [done|]; split; [by auto|]; auto
       |eexists _, _; split; [done|]; split; [done|]; split; [by auto|]; auto]).
  - destruct Hst as (x & n & -> & ->). destruct (Hc i ltac:(set_solver)) as [-> Hpl].
    cbn [plain_aggregate] in Hp. cbn [mbind option_bind].
    destruct (row_value s row i) eqn:Er; destruct Hp as [Ht|[Ht|Ht]]; rewrite Ht in Hpl; try done;
      cbn; by eexists _, _.
Qed.
End FastStep.

Lemma numeric_value_fnum s row i : numeric_value s row i = fnum (row_value s row i).
Proof. unfold numeric_value, fnum. rewrite row_value_column. by destruct (column_value s row i). Qed.

Lemma states_agree_apply {S1 S2} (R : KvAggregateOp -> S1 -> S2 -> Prop) step1 step2 aggs gs fs :
  Forall3 R aggs gs fs ->
  (forall a g f, a ∈ aggs -> R a g f -> R a (step1 a g) (step2 a f)) ->
  Forall3 R aggs (apply_each step1 aggs gs) (apply_each step2 aggs fs).
Proof.
  induction 1 as [|a g f aggs gs fs Hr H IH]; intros Hs; [constructor|]. cbn. constructor.
  - apply Hs; [set_solver|done].
  - apply IH. intros. apply Hs; [set_solver|done].
Qed.

(** A record the numeric path reads: fixed layout, every column stored, required
    columns plain. *)
Definition plain_record (s : TableSchema) (required : list nat) (r : kvrow) (row : RowMap) : Prop :=
  stored_row s r row /\
  (exists layout, fixed_row_layout s r.2 = Ok layout /\
     stored_column_count layout = length (columns s)) /\
  Forall (fun i => plain_numeric (column_type s i) (row_value s row i)) required.

(** Plans the numeric path takes, with literals of the columns' types. *)
Definition plain_plan (plan : KvAggregateScan) : Prop :=
  plan_closed plan /\ wf_ids (plan_schema plan) /\
  wf_projection (plan_schema plan) (required_indices plan) /\
  Forall (plain_predicate (plan_schema plan)) (filters plan) /\
  Forall (plain_aggregate (plan_schema plan)) (aggregates plan).

(** The two finished results: equal, except that SUM over no value is NULL on one
    side and 0 on the other, and that SUM over one INTEGER keeps its width. *)
Definition result_agrees (a : KvAggregateOp) (g f : ColumnValue) : Prop :=
  match a with
  | SumColumn _ => (g = Null /\ f = Int64 0) \/ exists n, (g = Int32 n \/ g = Int64 n) /\ f = Int64 n
  | _ => g = f
  end.

Lemma fold_m_option_spec {A B} (f : B -> A -> option B) (P : B -> B -> Prop) (Q : A -> B -> Prop) l :
  (forall b, P b b) -> (forall a b c, P a b -> P b c -> P a c) ->
  (forall a b c, Q a b -> P b c -> Q a c) ->
  (forall a b c, a ∈ l -> f b a = Some c -> P b c /\ Q a c) ->
  forall b c, fold_m f b l = Some c -> P b c /\ forall a, a ∈ l -> Q a c.
Proof.
  intros Hr Ht Hq. induction l as [|a l IH]; intros Hf b c H.
  - injection H as <-. split; [done|set_solver].
  - cbn [fold_m] in H. destruct (f b a) as [b'|] eqn:E; [|done]. cbn [mbind option_bind] in H.
    destruct (Hf a b b' ltac:(set_solver) E) as [H1 H2].
    destruct (IH (fun a' b'' c' Hin => Hf a' b'' c' ltac:(set_solver)) b' c H) as [H3 H4].
    split; [by eapply Ht|]. intros x [->|Hx]%elem_of_cons; [by eapply Hq|by apply H4].
Qed.

Section FastScan.
Context (plan : KvAggregateScan) (fast_plan : FastNumericAggregatePlan).
Hypothesis Hplan : plain_plan plan.
Hypothesis Hbuild : build_fast_numeric_aggregate_plan plan = Some fast_plan.
Let s := plan_schema plan.
Let req := required_indices plan.

(** What the builder established. *)
Lemma built :
  Forall (numeric_column s) req /\ projector fast_plan = new_fast_numeric_projector s req /\
  column_slots fast_plan = build_column_slots (length (columns s)) req /\
  (forall i, i ∈ flat_map predicate_columns (filters plan) ->
     exists o, slot_of_column (column_slots fast_plan) i = Some o /\ o ∈ filter_slots fast_plan) /\
  (forall i, i ∈ flat_map aggregate_columns (aggregates plan) ->
     exists o, slot_of_column (column_slots fast_plan) i = Some o /\ o ∈ aggregate_slots fast_plan).
Proof.
  clear Hplan. unfold build_fast_numeric_aggregate_plan in Hbuild. fold s in Hbuild. fold req in Hbuild.
  destruct (projection plan); [done|].
  destruct (fold_m _ tt req) as [u|] eqn:Et; [|done]. cbn [mbind option_bind] in Hbuild.
  set (slots := build_column_slots (length (columns s)) req) in *.
  destruct (fold_m _ ∅ (filters plan)) as [fs|] eqn:Ef; [|done]. cbn [mbind option_bind] in Hbuild.
  destruct (map_m _ (group_indices plan)) as [gs|] eqn:Eg; [|done]. cbn [mbind option_bind] in Hbuild.
  destruct (fold_m _ ∅ (aggregates plan)) as [as_|] eqn:Ea; [|done]. cbn [mbind option_bind] in Hbuild.
  injection Hbuild as <-. cbn [projector column_slots filter_slots aggregate_slots].
  split; [|split; [done|split; [done|split]]].
  - apply Forall_forall. intros i Hi.
    eapply (fold_m_option_spec _ (fun _ _ => True) (fun i _ => numeric_column s i)) in Et as [_ Et];
      [by apply Et|done|done|done|].
    clear. intros i [] [] _ H. split; [done|]. unfold numeric_column.
    destruct (columns s !! i) as [c|]; [|done]. cbn in H. by destruct (data_type c).
  - intros i Hi. apply elem_of_flat_map in Hi as (p & Hp & Hi).
    eapply (fold_m_option_spec _ (fun a b => a ⊆ b) (fun p acc => forall i, i ∈ predicate_columns p ->
      exists o, slot_of_column slots i = Some o /\ o ∈ acc)) in Ef as [_ Ef];
      [destruct (Ef p Hp i Hi) as (o & ? & ?); exists o; by rewrite elem_of_sorted_slots|done|set_solver| |].
    + intros a b c H Hsub j Hj. destruct (H j Hj) as (o & ? & ?). exists o. set_solver.
    + intros a b c _ H. by apply collect_all.
  - intros i Hi. apply elem_of_flat_map in Hi as (a & Ha & Hi).
    eapply (fold_m_option_spec _ (fun a b => a ⊆ b) (fun a acc => forall i, i ∈ aggregate_columns a ->
      exists o, slot_of_column slots i = Some o /\ o ∈ acc)) in Ea as [_ Ea];
      [destruct (Ea a Ha i Hi) as (o & ? & ?); exists o; by rewrite elem_of_sorted_slots|done|set_solver| |].
    + intros a' b c H Hsub j Hj. destruct (H j Hj) as (o & ? & ?). exists o. set_solver.
    + intros a' b c _ H. unfold aggregate_columns. destruct (aggregate_column a') as [j|].
      * by apply add_slot_spec.
      * injection H as <-. split; [done|set_solver].
Qed.

(** After decoding its slot, a required column is held by the values. *)
Lemma decoded_holds r row (slots : list nat) (values values' : list FastNumericValue) (i o : nat) :
  plain_record s req r row -> i ∈ req ->
  slot_of_column (column_slots fast_plan) i = Some o -> o ∈ slots ->
  (forall o i, req !! o = Some i ->
     values' !! o = if decide (o ∈ slots) then Some (numeric_value s row i) else values !! o) ->
  slot_holds s row (column_slots fast_plan) values' i.
Proof.
  intros (_ & _ & Hpl) Hi Ho Hin Hv. destruct Hplan as (_ & _ & [Hnd _] & _).
  destruct built as (_ & _ & Hslots & _). rewrite Forall_forall in Hpl.
  split; [|by apply Hpl]. unfold fast_aggregate_column_value. rewrite Ho. cbn [mbind option_bind].
  rewrite Hslots in Ho. apply build_column_slots_lookup in Ho as [Ho _]; [|done].
  rewrite (Hv o i Ho), decide_True by done. by rewrite numeric_value_fnum.
Qed.

Lemma fast_step_agrees r row values gs fs :
  plain_record s req r row -> length values = length req ->
  Forall3 (state_agrees s) (aggregates plan) gs fs ->
  exists values' fs', fast_step plan fast_plan (values, fs) r = Ok (values', fs') /\
    length values' = length req /\
    Forall3 (state_agrees s) (aggregates plan) (scan_rows plan gs [row]) fs'.
Proof.
  intros Hr Hlen Hst. destruct built as (Hnum & Hproj & Hslots & Hfs & Has).
  destruct Hplan as (Hc & [Hu Hids] & Hwp & Hpf & Hpa). destruct (closed_parts plan Hc) as (Hcf & _ & Hca).
  pose proof Hr as ((Hdec & _) & (layout & Hl & Hn) & Hpl).
  unfold fast_step. rewrite Hproj.
  destruct (fixed_slots_decode s req r.2 row layout (filter_slots fast_plan) values)
    as (v1 & -> & Hlen1 & Hv1); try done. rewrite bind_ok.
  assert (Hmatch : forallb (fun f => fast_aggregate_predicate_matches f (column_slots fast_plan) v1)
      (filters plan) = kv_row_matches s row (filters plan)).
  { apply forallb_ext_in. intros p Hp. rewrite Forall_forall in Hpf.
    apply fast_predicate_agrees; [by apply Hpf|]. intros i Hi.
    assert (Hi' : i ∈ flat_map predicate_columns (filters plan)) by (apply elem_of_flat_map; eauto).
    destruct (Hfs i Hi') as (o & Ho & Hin). apply (decoded_holds r row (filter_slots fast_plan) values v1 i o); auto. }
  rewrite Hmatch. cbn [scan_rows foldl]. fold s. destruct (kv_row_matches _ _ _).
  - destruct (fixed_slots_decode s req r.2 row layout (aggregate_slots fast_plan) v1)
      as (v2 & -> & Hlen2 & Hv2); try done. rewrite bind_ok.
    eexists _, _. split; [done|]. split; [done|].
    unfold kv_apply_aggregate, apply_fast_aggregates. apply states_agree_apply; [done|].
    intros a g f Ha Hgf. rewrite Forall_forall in Hpa.
    apply fast_apply_agrees; [by apply Hpa| |done]. intros i Hi.
    assert (Hi' : i ∈ flat_map aggregate_columns (aggregates plan)) by (apply elem_of_flat_map; eauto).
    destruct (Has i Hi') as (o & Ho & Hin). apply (decoded_holds r row (aggregate_slots fast_plan) v1 v2 i o); auto.
  - by eexists _, _.
Qed.

Lemma fast_scan_agrees rows maps : forall values gs fs,
  Forall2 (plain_record s req) rows maps -> length values = length req ->
  Forall3 (state_agrees s) (aggregates plan) gs fs ->
  exists values' fs', fold_m (fast_step plan fast_plan) (values, fs) rows = Ok (values', fs') /\
    Forall3 (state_agrees s) (aggregates plan) (scan_rows plan gs maps) fs'.
Proof.
  intros values gs fs H. revert values gs fs.
  induction H as [|r row rows maps Hr H IH]; intros values gs fs Hlen Hst; [by eexists _, _|].
  cbn [fold_m]. destruct (fast_step_agrees r row values gs fs Hr Hlen Hst) as (v1 & f1 & -> & Hl1 & Hst1).
  rewrite bind_ok.
  change (scan_rows plan gs (row :: maps)) with (scan_rows plan (scan_rows plan gs [row]) maps).
  by apply IH.
Qed.

Lemma initial_agrees :
  exists fs, map_m (fast_aggregate_initial_state plan) (aggregates plan) = Some fs /\
    Forall3 (state_agrees s) (aggregates plan) (initial_states plan) fs.
Proof.
  destruct Hplan as (_ & _ & _ & _ & Hpa). unfold initial_states.
  induction Hpa as [|a l Ha Hl IH]; [exists []; split; [done|constructor]|].
  destruct IH as (fs & Hfs & IH). cbn [map_m].
  assert (Hf : exists f, fast_aggregate_initial_state plan a = Some f /\
    state_agrees s a (kv_aggregate_initial_state a) f).
  { destruct a as [|i|i|i|i|i]; cbn [fast_aggregate_initial_state state_agrees kv_aggregate_initial_state].
    - eexists. split; [done|]. by exists 0.
    - eexists. split; [done|]. by exists 0.
    - eexists. split; [done|]. exists Null. repeat split. by destruct (column_type s i).
    - eexists. split; [done|]. exists Null. repeat split. by destruct (column_type s i).
    - cbn [plain_aggregate] in Ha. unfold column_type in Ha. fold s in Ha |- *.
      destruct (columns s !! i) as [c|]; [|by destruct Ha]. cbn [mbind option_bind].
      eexists. split; [done|]. exists Null, 0.
      destruct Ha as [->| ->]; (split; [done|]; split; [done|]; split; [by width|by left]).
    - eexists. split; [done|]. by exists 0, 0. }
  destruct Hf as (f & -> & Hf). cbn [mbind option_bind]. rewrite Hfs. cbn [mbind option_bind].
  eexists. split; [done|]. by constructor.
Qed.

Lemma finish_agrees aggs gs fs :
  Forall3 (state_agrees s) aggs gs fs ->
  Forall3 result_agrees aggs (map kv_finish_aggregate_state gs)
    (zip_with (finish_fast_aggregate s) fs aggs).
Proof.
  induction 1 as [|a g f aggs gs fs Hr H IH]; [constructor|]. cbn. constructor; [|done].
  destruct a as [|i|i|i|i|i]; cbn [state_agrees result_agrees] in *.
  - by destruct Hr as (n & -> & ->).
  - by destruct Hr as (n & -> & ->).
  - destruct Hr as (v & -> & -> & Hv). cbn. unfold finish_fast_extreme, column_type in *.
    destruct (columns s !! i) as [c|]; [by rewrite plain_back|by destruct v].
  - destruct Hr as (v & -> & -> & Hv). cbn. unfold finish_fast_extreme, column_type in *.
    destruct (columns s !! i) as [c|]; [by rewrite plain_back|by destruct v].
  - destruct Hr as (v & n & -> & -> & _ & Hv). cbn.
    destruct Hv as [[-> ->]|[->| ->]]; [by left|right; eauto..].
  - by destruct Hr as (x & n & -> & ->).
Qed.
End FastScan.

(** C37. Without GROUP BY the numeric fast path computes what the projected path
    computes: on records of the fixed layout that store every column, without Float32
    and NaN and with literals of the columns' own types, every COUNT, MIN, MAX and AVG
    is the same, and so is an integer SUM, now an Int64, except that SUM over no
    non-NULL value is 0 instead of NULL. *)
Theorem fast_numeric_scan_agrees (plan : KvAggregateScan) (fast_plan : FastNumericAggregatePlan)
    (rows : list kvrow) (maps : list RowMap) :
  plain_plan plan -> build_fast_numeric_aggregate_plan plan = Some fast_plan ->
  Forall2 (plain_record (plan_schema plan) (required_indices plan)) rows maps ->
  exists general fast,
    reduce_ungrouped_projected_scan plan rows = Ok [general] /\
    reduce_ungrouped_fast_numeric_scan plan fast_plan rows = Ok [fast] /\
    Forall3 result_agrees (aggregates plan) general fast.
Proof.
  intros Hplan Hbuild H.
  assert (Hst : Forall2 (stored_row (plan_schema plan)) rows maps)
    by (eapply Forall2_impl; [exact H|by intros ? ? []]).
  pose proof Hplan as (Hc & Hs & Hp & _). unfold reduce_ungrouped_projected_scan.
  rewrite (projected_scan_rows plan rows maps) by done. rewrite bind_ok.
  unfold reduce_ungrouped_fast_numeric_scan.
  destruct (initial_agrees plan Hplan) as (fs & -> & Hinit).
  destruct (fast_scan_agrees plan fast_plan Hplan Hbuild rows maps
    (replicate (np_output_len (projector fast_plan)) FNull) (initial_states plan) fs H)
    as (v' & fs' & -> & Hfin); [|done|].
  { rewrite length_replicate. destruct (built plan fast_plan Hbuild) as (_ & -> & _). done. }
  rewrite bind_ok. eexists _, _. split; [done|]. split; [done|].
  by apply (finish_agrees plan).
Qed.

Definition agg_fast_plan (aggs : list KvAggregateOp) : FastNumericAggregatePlan :=
  match build_fast_numeric_aggregate_plan (agg_plan aggs) with
  | Some p => p
  | None => {| projector := new_fast_numeric_projector agg_schema []; filter_slots := [];
               group_slots := []; aggregate_slots := []; matched_slots := []; column_slots := [] |}
  end.

Lemma fast_numeric_scan_agrees_witness :
  exists general fast,
    reduce_ungrouped_projected_scan (agg_plan [SumColumn 1; MaxColumn 0]) [agg_kv 1 5] = Ok [general] /\
    reduce_ungrouped_fast_numeric_scan (agg_plan [SumColumn 1; MaxColumn 0])
      (agg_fast_plan [SumColumn 1; MaxColumn 0]) [agg_kv 1 5] = Ok [fast] /\
    Forall3 result_agrees [SumColumn 1; MaxColumn 0] general fast.
Proof.
  refine (fast_numeric_scan_agrees (agg_plan [SumColumn 1; MaxColumn 0])
    (agg_fast_plan [SumColumn 1; MaxColumn 0]) [agg_kv 1 5] [agg_row 1 5] _ _ _).
  - split; [intros i Hi; vm_compute in Hi |- *; set_solver|].
    split; [split; [split; (apply (bool_decide_eq_true_1 _); vm_compute; reflexivity)
                   |repeat constructor; vm_compute; congruence]|].
    split; [split; [apply (bool_decide_eq_true_1 _); vm_compute; reflexivity
                   |repeat constructor; vm_compute; lia]|].
    split; [repeat constructor; vm_compute; congruence|].
    constructor; [right; vm_compute; reflexivity|]. constructor; [exact I|constructor].
  - vm_compute. reflexivity.
  - constructor; [|constructor]. split; [|split].
    + apply agg_stored; [split; vm_compute; congruence|split; vm_compute; congruence
        |vm_compute; reflexivity|vm_compute; reflexivity].
    + eexists. split; [vm_compute; reflexivity|reflexivity].
    + constructor; [vm_compute; split; congruence|].
      constructor; [vm_compute; split; congruence|constructor].
Defined.

(** The exception at work: over no rows SUM is NULL on one path, 0 on the other. *)
Example sum_of_nothing :
  reduce_ungrouped_projected_scan (agg_plan [SumColumn 1]) [] = Ok [[Null]] /\
  reduce_ungrouped_fast_numeric_scan (agg_plan [SumColumn 1]) (agg_fast_plan [SumColumn 1]) [] =
    Ok [[Int64 0]].
Proof. split; vm_compute; reflexivity. Qed.

(** ** Group keys *)

(** The values [typed_group_key] tells apart: the text-like types share a tag. *)
Fixpoint group_class (v : ColumnValue) : ColumnValue :=
  match v with
  | Date s | Timestamp s | TimestampTz s | Uuid s | Json s | Jsonb s => Text s
  | Array vs => Array (map group_class vs)
  | _ => v
  end.

(** Lengths written as [u32] are below [2^32]. *)
Fixpoint groupable (v : ColumnValue) : Prop :=
  match v with
  | Int16 z => in_signed 16 z
  | Int32 z => in_signed 32 z
  | Int64 z => in_signed 64 z
  | Float32 b => in_unsigned 32 b
  | Float64 b => in_unsigned 64 b
  | Numeric s | Text s | Date s | Timestamp s | TimestampTz s | Uuid s | Json s | Jsonb s =>
      len (as_bytes s) < 2 ^ 32
  | Bytea l => len l < 2 ^ 32
  | Array vs => len (flat_map typed_group_value vs) < 2 ^ 32 /\
      foldr (fun v acc => groupable v /\ acc) True vs
  | Null | Boolean _ => True
  end.

Lemma groupable_array vs :
  groupable (Array vs) <-> len (flat_map typed_group_value vs) < 2 ^ 32 /\ Forall groupable vs.
Proof.
  cbn. enough (foldr (fun v acc => groupable v /\ acc) True vs <-> Forall groupable vs) by tauto.
  induction vs as [|v vs IH]; cbn; [by split|]. rewrite Forall_cons, IH. done.
Qed.

Lemma cons_tail_inj {A} (a b : A) l l' : a :: l = b :: l' -> l = l'.
Proof. congruence. Qed.

Lemma to_be_app_inj n a b r r' :
  to_be n a ++ r = to_be n b ++ r' -> to_be n a = to_be n b /\ r = r'.
Proof. intros H. apply app_inj_1 in H; [done|]. by rewrite !length_to_be. Qed.

Lemma to_be_signed_inj n w a b :
  w = 8 * Z.of_nat n -> 0 < w -> in_signed w a -> in_signed w b -> to_be n a = to_be n b -> a = b.
Proof.
  intros Hw H0 Ha Hb H. rewrite <- (signed_be_roundtrip n w a Hw H0 Ha), H.
  by apply signed_be_roundtrip.
Qed.

Lemma to_be_unsigned_inj n a b :
  in_unsigned (8 * Z.of_nat n) a -> in_unsigned (8 * Z.of_nat n) b -> to_be n a = to_be n b -> a = b.
Proof.
  intros Ha Hb H. apply (f_equal from_be) in H. rewrite !from_be_to_be in H.
  by rewrite !Z.mod_small in H.
Qed.

Lemma push_group_key_bytes_inj tag l l' r r' :
  len l < 2 ^ 32 -> len l' < 2 ^ 32 ->
  push_group_key_bytes tag l ++ r = push_group_key_bytes tag l' ++ r' -> l = l' /\ r = r'.
Proof.
  intros Hl Hl' H. unfold push_group_key_bytes in H. cbn [app] in H. apply cons_tail_inj in H.
  rewrite <- !app_assoc in H. apply to_be_app_inj in H as [Hlen H].
  apply to_be_unsigned_inj in Hlen; [|unfold in_unsigned, len in *; lia..].
  apply app_inj_1 in H; [done|]. unfold len in Hlen. lia.
Qed.

Lemma typed_group_value_cons v : exists t l, typed_group_value v = t :: l.
Proof. destruct v; cbn; unfold push_group_key_bytes; eauto. Qed.

Lemma flat_map_group_inj vs : forall ws,
  Forall (fun v => forall w r r', groupable v -> groupable w ->
    typed_group_value v ++ r = typed_group_value w ++ r' -> group_class v = group_class w /\ r = r') vs ->
  Forall groupable vs -> Forall groupable ws ->
  flat_map typed_group_value vs = flat_map typed_group_value ws -> map group_class vs = map group_class ws.
Proof.
  induction vs as [|v vs IH]; intros [|w ws] Hi Hv Hw H; cbn in H.
  - done.
  - destruct (typed_group_value_cons w) as (t & l & E). by rewrite E in H.
  - destruct (typed_group_value_cons v) as (t & l & E). by rewrite E in H.
  - apply Forall_cons in Hi as [Hi1 Hi], Hv as [Hv1 Hv], Hw as [Hw1 Hw].
    destruct (Hi1 w _ _ Hv1 Hw1 H) as [Hc Hr]. cbn. by rewrite Hc, (IH ws).
Qed.

Ltac group_inj :=
  match goal with
  | H : push_group_key_bytes _ _ ++ _ = push_group_key_bytes _ _ ++ _ |- _ =>
      apply push_group_key_bytes_inj in H as [H ->]; [|done|done];
      first [apply as_bytes_inj in H as -> | subst]; split; done
  | H : to_be ?n ?a ++ _ = to_be ?n ?b ++ _ |- _ =>
      apply to_be_app_inj in H as [H ->]; split; [f_equal|done];
      first [ apply (to_be_signed_inj n (8 * Z.of_nat n)) in H; [exact H|done|lia|done|done]
            | apply to_be_unsigned_inj in H; [exact H|done|done] ]
  end.

(** The key of a value ends where the next one begins. *)
Lemma typed_group_value_inj v : forall w r r',
  groupable v -> groupable w -> typed_group_value v ++ r = typed_group_value w ++ r' ->
  group_class v = group_class w /\ r = r'.
Proof.
  induction v as [vs IH|v Hna] using ColumnValue_nested_ind; intros w r r' Hv Hw H.
  - destruct w as [| | | | | | | | | | | | | | | |ws]; cbn [typed_group_value] in H;
      try (unfold push_group_key_bytes in H; discriminate H).
    rewrite groupable_array in Hv, Hw. destruct Hv as [Hl Hv], Hw as [Hl' Hw].
    apply push_group_key_bytes_inj in H as [H ->]; [|done|done]. split; [|done]. cbn.
    f_equal. by apply flat_map_group_inj.
  - destruct v; try (by destruct (Hna values)); destruct w; cbn [typed_group_value] in H;
      try (unfold push_group_key_bytes in H; discriminate H); cbn [groupable group_class] in *;
      try group_inj;
      try (cbn [app] in H; apply cons_tail_inj in H; group_inj).
    + by injection H as ->.
    + by injection H as H ->; destruct v, v0.
Qed.

Lemma typed_group_key_inj vs ws :
  Forall groupable vs -> Forall groupable ws -> typed_group_key vs = typed_group_key ws ->
  map group_class vs = map group_class ws.
Proof.
  intros Hv Hw. apply flat_map_group_inj; [|done|done].
  apply Forall_forall. intros v _. apply typed_group_value_inj.
Qed.

Lemma typed_group_value_class v : typed_group_value (group_class v) = typed_group_value v.
Proof.
  induction v as [vs IH|v Hna] using ColumnValue_nested_ind.
  - cbn. f_equal. induction IH as [|v vs Hv Hvs IH]; [done|]. cbn. by rewrite Hv, IH.
  - destruct v; try done. by destruct (Hna values).
Qed.

Lemma typed_group_key_class vs ws :
  map group_class vs = map group_class ws -> typed_group_key vs = typed_group_key ws.
Proof.
  assert (H : forall l, typed_group_key (map group_class l) = typed_group_key l).
  { unfold typed_group_key. induction l as [|v l IH]; [done|]. cbn. by rewrite typed_group_value_class, IH. }
  intros E. by rewrite <- (H vs), E, H.
Qed.

Section Grouped.
Context (plan : KvAggregateScan).
Let s := plan_schema plan.

Definition row_group (row : RowMap) : list ColumnValue := kv_group_values s row (group_indices plan).

(** The matching rows whose group values have key [k], in scan order. *)
Definition members (k : key) (maps : list RowMap) : list RowMap :=
  List.filter (fun row => kv_row_matches s row (filters plan) &&
    bool_decide (typed_group_key (row_group row) = k)) maps.

Definition group_entry (maps : list RowMap) (k : key) : option (list ColumnValue * list KvAggregateState) :=
  match members k maps with
  | [] => None
  | (r0 :: _) as l =>
      Some (row_group r0, foldl (fun st r => kv_apply_aggregate s r st (aggregates plan)) (initial_states plan) l)
  end.

Lemma group_step groups maps r row :
  wf_ids s -> wf_projection s (required_indices plan) -> plan_closed plan -> stored_row s r row ->
  (forall k, groups !! k = group_entry maps k) ->
  exists groups', projected_group_step plan groups r = Ok groups' /\
    forall k, groups' !! k = group_entry (maps ++ [row]) k.
Proof.
  intros Hs Hp Hc Hr Hg. destruct (closed_parts plan Hc) as (Hf & Hgi & Ha). unfold projected_group_step.
  rewrite (projected_values_ok plan r row) by done. rewrite bind_ok.
  rewrite (row_matches_agrees plan row) by (done || intros; apply row_value_column).
  rewrite (group_values_agree plan row) by (done || intros; apply row_value_column).
  fold s. fold (row_group row). destruct (kv_row_matches s row (filters plan)) eqn:Hm.
  - eexists. split; [done|]. intros k. unfold group_add, group_entry, members.
    rewrite List.filter_app. cbn [List.filter]. rewrite Hm. cbn [andb].
    destruct (decide (typed_group_key (row_group row) = k)) as [<-|Hk].
    + rewrite bool_decide_eq_true_2, lookup_insert_eq by done. rewrite Hg. unfold group_entry.
      fold (members (typed_group_key (row_group row)) maps).
      destruct (members _ maps) as [|r0 l]; cbn [app from_option id fst snd foldl];
        rewrite (apply_aggregate_agrees plan row) by (done || intros; apply row_value_column); [done|].
      by rewrite foldl_app.
    + rewrite bool_decide_eq_false_2, app_nil_r, lookup_insert_ne by done. by rewrite Hg.
  - eexists. split; [done|]. intros k. rewrite Hg. unfold group_entry, members.
    rewrite List.filter_app. cbn [List.filter]. by rewrite Hm, app_nil_r.
Qed.

Lemma group_scan rows maps : forall groups done_,
  wf_ids s -> wf_projection s (required_indices plan) -> plan_closed plan ->
  Forall2 (stored_row s) rows maps -> (forall k, groups !! k = group_entry done_ k) ->
  exists groups', fold_m (projected_group_step plan) groups rows = Ok groups' /\
    forall k, groups' !! k = group_entry (done_ ++ maps) k.
Proof.
  intros groups done_ Hs Hp Hc H. revert groups done_.
  induction H as [|r row rows maps Hr H IH]; intros groups done_ Hg.
  - exists groups. by rewrite app_nil_r.
  - cbn [fold_m]. destruct (group_step groups done_ r row Hs Hp Hc Hr Hg) as (g1 & -> & Hg1).
    rewrite bind_ok. destruct (IH g1 (done_ ++ [row]) Hg1) as (g2 & -> & Hg2).
    exists g2. split; [done|]. intros k. by rewrite Hg2, <- app_assoc.
Qed.
End Grouped.

(** The text keys of the row path do not separate NULL from the text [Null]. *)
Example text_group_keys_collide d32 d64 :
  kv_group_key d32 d64 [Null] = kv_group_key d32 d64 [Text "Null"] /\
  typed_group_key [Null] <> typed_group_key [Text "Null"].
Proof. split; [vm_compute; reflexivity|vm_compute; congruence]. Qed.
