(* ===== verification/GroupScan.v ===== *)
(** * GROUP BY on the engine store

    src/src/kv_engine_store/aggregate_scan.rs (the dispatch of [execute_aggregate_scan]),
    fast_numeric_plan.rs and fast_numeric_eval.rs (the grouped numeric scan) and profile.rs
    (its group keys).  Aggregate.v holds the scans without GROUP BY, the projected and the
    key-only ones. *)

From Stdlib Require Import Sorting.Permutation.
From stdpp Require Import sorting.
From S2P Require Import Prelude BTree Float Types TupleCodec Values KeyCodec RowCodec KvStore Aggregate.

(** ** Groups of numeric values *)

(** profile.rs; a double is told by its bits. *)
Inductive FastNumericGroupKey : Type :=
  | SingleNull
  | SingleI64 (value : Z)
  | SingleF64 (bits : Z)
  | Composite (bytes : list byte).

#[export] Instance group_key_eq_dec : EqDecision FastNumericGroupKey.
Proof. solve_decision. Defined.

#[export] Instance group_key_countable : Countable FastNumericGroupKey.
Proof.
  refine (inj_countable'
    (fun k => match k with
              | SingleNull => inl (inl None) | SingleI64 z => inl (inl (Some z))
              | SingleF64 b => inl (inr b) | Composite l => inr l
              end)
    (fun c : (option Z + Z) + list byte =>
              match c with
              | inl (inl None) => SingleNull | inl (inl (Some z)) => SingleI64 z
              | inl (inr b) => SingleF64 b | inr l => Composite l
              end) _).
  by intros [].
Defined.

Abbreviation FastNumericGroupMap := (gmap FastNumericGroupKey (list FastNumericValue * list FastAggregateState)).

Definition slot_value (values : list FastNumericValue) (slot : nat) : FastNumericValue := default FNull (values !! slot).

Definition composite_part (value : FastNumericValue) : list byte :=
  match value with
  | FNull => [x00]
  | I64 z => x01 :: to_be 8 z
  | F64 bits => x02 :: to_be 8 bits
  end.

Definition fast_numeric_group_key (values : list FastNumericValue) (group_slots : list nat) : FastNumericGroupKey :=
  match group_slots with
  | [slot] =>
      match slot_value values slot with
      | FNull => SingleNull
      | I64 z => SingleI64 z
      | F64 bits => SingleF64 bits
      end
  | _ => Composite (flat_map (fun slot => composite_part (slot_value values slot)) group_slots)
  end.

Definition fast_numeric_group_values (values : list FastNumericValue) (group_slots : list nat) : list FastNumericValue :=
  map (slot_value values) group_slots.

Definition initial_fast_aggregate_states (plan : KvAggregateScan) : option (list FastAggregateState) :=
  map_m (fast_aggregate_initial_state plan) (aggregates plan).

(** ** The grouped numeric scan *)

(** One record: the slots of the filters first, those of the groups and aggregates when the
    filters match. *)
Definition fast_group_step (plan : KvAggregateScan) (fast_plan : FastNumericAggregatePlan) (initial : list FastAggregateState)
    (acc : list FastNumericValue * FastNumericGroupMap) (row : kvrow) : PgWireResult (list FastNumericValue * FastNumericGroupMap) :=
  let '(values, groups) := acc in
  values ← decode_row_record_fast_numeric_slots_with (projector fast_plan) row.2 values (filter_slots fast_plan);
  if forallb (fun f => fast_aggregate_predicate_matches f (column_slots fast_plan) values) (filters plan)
  then
    values ← decode_row_record_fast_numeric_slots_with (projector fast_plan) row.2 values (matched_slots fast_plan);
    let group_key := fast_numeric_group_key values (group_slots fast_plan) in
    let entry := default (fast_numeric_group_values values (group_slots fast_plan), initial) (groups !! group_key) in
    Ok (values, <[group_key := (entry.1, apply_fast_aggregates plan (column_slots fast_plan) values entry.2)]> groups)
  else Ok (values, groups).

Definition finish_fast_grouped_aggregate_row (plan : KvAggregateScan) (group_values : list FastNumericValue)
    (states : list FastAggregateState) : PgWireResult (list ColumnValue) :=
  row ← map_m (fun vi : FastNumericValue * nat =>
      column ← ok_or (PgError "XX000" "group column index out of bounds") (columns (plan_schema plan) !! vi.2);
      Ok (fast_numeric_to_column_value (data_type column) vi.1))
    (zip group_values (group_indices plan));
  Ok (row ++ finish_fast_aggregates plan states).

(** The groups leave the hash map in an order of its own. *)
Definition reduce_grouped_fast_numeric_scan (plan : KvAggregateScan) (fast_plan : FastNumericAggregatePlan) (rows : list kvrow)
    : PgWireResult (list (list ColumnValue)) :=
  match initial_fast_aggregate_states plan with
  | None => unsupported_fast_state
  | Some initial =>
      '(_, groups) ← fold_m (fast_group_step plan fast_plan initial)
        (replicate (np_output_len (projector fast_plan)) FNull, ∅) rows;
      map_m (fun e => finish_fast_grouped_aggregate_row plan e.2.1 e.2.2) (map_to_list groups)
  end.

(** [execute_aggregate_scan], on the rows its cursor visits. *)
Definition execute_aggregate_scan (plan : KvAggregateScan) (rows : list kvrow) : PgWireResult (list (list ColumnValue)) :=
  let ungrouped := bool_decide (group_indices plan = []) in
  if aggregate_plan_uses_only_primary_key plan then
    if ungrouped then reduce_ungrouped_key_only_scan plan rows else reduce_grouped_key_only_scan plan rows
  else
    match build_fast_numeric_aggregate_plan plan with
    | Some fast_plan =>
        if ungrouped then reduce_ungrouped_fast_numeric_scan plan fast_plan rows
        else reduce_grouped_fast_numeric_scan plan fast_plan rows
    | None => if ungrouped then reduce_ungrouped_projected_scan plan rows else reduce_grouped_projected_scan plan rows
    end.

(** ** Keys of groups *)

Definition key_of_values (values : list FastNumericValue) : FastNumericGroupKey :=
  match values with
  | [FNull] => SingleNull
  | [I64 z] => SingleI64 z
  | [F64 bits] => SingleF64 bits
  | _ => Composite (flat_map composite_part values)
  end.

Lemma group_key_of_values (values : list FastNumericValue) (slots : list nat) :
  fast_numeric_group_key values slots = key_of_values (fast_numeric_group_values values slots).
Proof.
  unfold fast_numeric_group_key, fast_numeric_group_values. destruct slots as [|a [|b slots]]; [done| |].
  - cbn [map key_of_values]. by destruct (slot_value values a).
  - assert (flat_map (fun slot => composite_part (slot_value values slot)) (a :: b :: slots) =
            flat_map composite_part (map (slot_value values) (a :: b :: slots))) as ->
      by (generalize (a :: b :: slots); intros l; induction l as [|x l IH]; cbn; [done|by rewrite IH]).
    cbn [map key_of_values]. by destruct (slot_value values a).
Qed.

(** A numeric value in the range its bytes can tell. *)
Definition fnum_range (v : FastNumericValue) : Prop :=
  match v with FNull => True | I64 z => in_signed 64 z | F64 bits => in_unsigned 64 bits end.

Lemma composite_part_inj (v w : FastNumericValue) (r r' : list byte) : fnum_range v -> fnum_range w ->
  composite_part v ++ r = composite_part w ++ r' -> v = w /\ r = r'.
Proof.
  destruct v as [|a|a], w as [|b|b]; intros Hv Hw H; try discriminate H; cbn [composite_part app] in H; apply cons_tail_inj in H; [done| |];
    apply to_be_app_inj in H as [H ->]; (split; [f_equal|done]).
  - by apply (to_be_signed_inj 8 64).
  - by apply (to_be_unsigned_inj 8).
Qed.

Lemma composite_inj (vs : list FastNumericValue) : forall ws, Forall fnum_range vs -> Forall fnum_range ws ->
  flat_map composite_part vs = flat_map composite_part ws -> vs = ws.
Proof.
  induction vs as [|v vs IH]; intros [|w ws] Hv Hw H; [done|by destruct w|by destruct v|].
  apply Forall_cons in Hv as [Hv Hvs], Hw as [Hw Hws]. cbn [flat_map] in H.
  apply composite_part_inj in H as [-> H]; [|done|done]. by rewrite (IH ws).
Qed.

Lemma key_of_values_inj (vs ws : list FastNumericValue) : Forall fnum_range vs -> Forall fnum_range ws -> length vs = length ws ->
  key_of_values vs = key_of_values ws -> vs = ws.
Proof.
  intros Hv Hw Hl H. destruct vs as [|v [|v' vs]], ws as [|w [|w' ws]]; try discriminate Hl; [done| |].
  - destruct v, w; try discriminate H; first [done|by injection H as ->].
  - assert (forall a b, Composite a = Composite b -> a = b) as Hc by (intros a b E; by injection E).
    apply composite_inj; [done..|]. destruct v, w; exact (Hc _ _ H).
Qed.

(** ** Representatives *)

(** A map listed by the elements its entries come from. *)
Lemma listed_by `{Countable K} {A B} (m : gmap K A) (reps : list B) (f : B -> K) (h : B -> A) : NoDup (map f reps) ->
  (forall k a, m !! k = Some a <-> exists r, r ∈ reps /\ k = f r /\ a = h r) ->
  map_to_list m ≡ₚ map (fun r => (f r, h r)) reps.
Proof.
  intros Hnd Hm. apply NoDup_Permutation; [apply NoDup_map_to_list| |].
  - apply (NoDup_fmap_1 fst). change (fst <$> map (fun r => (f r, h r)) reps) with (map fst (map (fun r => (f r, h r)) reps)).
    by rewrite map_map.
  - intros [k a]. rewrite elem_of_map_to_list, Hm, list_elem_of_fmap. split.
    + intros (r & Hr & -> & ->). by exists r.
    + intros (r & [= -> ->] & Hr). by exists r.
Qed.

Lemma forall2_images {A B C} (R : B -> C -> Prop) (f : A -> B) (g : A -> C) (l : list A) :
  (forall a, a ∈ l -> R (f a) (g a)) -> Forall2 R (map f l) (map g l).
Proof.
  induction l as [|a l IH]; intros Hr; [constructor|]. cbn [map]. constructor; [apply Hr; by left|].
  apply IH. intros b Hb. apply Hr. by right.
Qed.

Section Grouped.
Context (plan : KvAggregateScan) (fast_plan : FastNumericAggregatePlan).
Hypothesis Hplan : plain_plan plan.
Hypothesis Hbuild : build_fast_numeric_aggregate_plan plan = Some fast_plan.
Let s := plan_schema plan.
Let req := required_indices plan.

Lemma built_groups :
  map_m (slot_of_column (column_slots fast_plan)) (group_indices plan) = Some (group_slots fast_plan) /\
  (forall o, o ∈ group_slots fast_plan -> o ∈ matched_slots fast_plan) /\
  (forall o, o ∈ aggregate_slots fast_plan -> o ∈ matched_slots fast_plan).
Proof.
  clear Hplan. unfold build_fast_numeric_aggregate_plan in Hbuild.
  destruct (projection plan); [done|].
  destruct (fold_m _ tt _) as [u|]; [|done]. cbn [mbind option_bind] in Hbuild.
  destruct (fold_m _ ∅ (filters plan)) as [fs|]; [|done]. cbn [mbind option_bind] in Hbuild.
  destruct (map_m _ (group_indices plan)) as [gs|] eqn:Eg; [|done]. cbn [mbind option_bind] in Hbuild.
  destruct (fold_m _ ∅ (aggregates plan)) as [as_|]; [|done]. cbn [mbind option_bind] in Hbuild.
  injection Hbuild as <-. cbn [column_slots group_slots matched_slots aggregate_slots].
  split; [exact Eg|]. split; intros o; rewrite !elem_of_sorted_slots; set_solver.
Qed.

(** The key the numeric scan gives a row. *)
Definition fast_key (row : RowMap) : FastNumericGroupKey := key_of_values (map fnum (row_group plan row)).

Lemma map_m_some {A B} (f : A -> option B) (l : list A) : forall m, map_m f l = Some m -> Forall2 (fun a b => f a = Some b) l m.
Proof.
  induction l as [|a l IH]; intros m H; cbn [map_m] in H; [injection H as <-; constructor|].
  destruct (f a) as [b|] eqn:E; [|done]. cbn [mbind option_bind] in H.
  destruct (map_m f l) as [bs|] eqn:El; [|done]. injection H as <-. constructor; [done|by apply IH].
Qed.

Lemma group_values_held (row : RowMap) (values : list FastNumericValue) :
  (forall i, i ∈ group_indices plan -> slot_holds s row (column_slots fast_plan) values i) ->
  fast_numeric_group_values values (group_slots fast_plan) = map fnum (row_group plan row).
Proof.
  destruct built_groups as (Hg & _). apply map_m_some in Hg. unfold fast_numeric_group_values, row_group, kv_group_values.
  fold s. induction Hg as [|i o cs os Ho Hg IH]; intros Hh; [done|]. cbn [map].
  rewrite IH by (intros j Hj; apply Hh; by right). f_equal.
  destruct (Hh i ltac:(by left)) as [Hv _]. unfold fast_aggregate_column_value in Hv. rewrite Ho in Hv.
  cbn [mbind option_bind] in Hv. unfold slot_value. by rewrite Hv.
Qed.

(** ** The groups of the two scans *)

Definition fast_members (k : FastNumericGroupKey) (maps : list RowMap) : list RowMap :=
  List.filter (fun row => kv_row_matches s row (filters plan) && bool_decide (fast_key row = k)) maps.

Definition group_states (l : list RowMap) : list KvAggregateState :=
  foldl (fun st r => kv_apply_aggregate s r st (aggregates plan)) (initial_states plan) l.

(** What the numeric scan keeps of a group: the values of its first row, and states that agree
    with those of the projected scan. *)
Definition fast_group_ok (l : list RowMap) (entry : option (list FastNumericValue * list FastAggregateState)) : Prop :=
  match l with
  | [] => entry = None
  | r0 :: _ => exists fs, entry = Some (map fnum (row_group plan r0), fs) /\
      Forall3 (state_agrees s) (aggregates plan) (group_states l) fs
  end.

Definition fast_groups_ok (maps : list RowMap) (groups : FastNumericGroupMap) : Prop :=
  forall k, fast_group_ok (fast_members k maps) (groups !! k).

Lemma fast_members_snoc (k : FastNumericGroupKey) (maps : list RowMap) (row : RowMap) :
  fast_members k (maps ++ [row]) =
    fast_members k maps ++ (if kv_row_matches s row (filters plan) && bool_decide (fast_key row = k) then [row] else []).
Proof. unfold fast_members. rewrite List.filter_app. by cbn [List.filter]. Qed.

(** One decoded row. *)
Lemma fast_decoded (r : kvrow) (row : RowMap) (values : list FastNumericValue) :
  plain_record s req r row -> length values = length req ->
  exists v1 v2, decode_row_record_fast_numeric_slots_with (projector fast_plan) r.2 values (filter_slots fast_plan) = Ok v1 /\
    length v1 = length req /\
    forallb (fun f => fast_aggregate_predicate_matches f (column_slots fast_plan) v1) (filters plan) =
      kv_row_matches s row (filters plan) /\
    decode_row_record_fast_numeric_slots_with (projector fast_plan) r.2 v1 (matched_slots fast_plan) = Ok v2 /\
    length v2 = length req /\
    (forall i, i ∈ group_indices plan -> slot_holds s row (column_slots fast_plan) v2 i) /\
    (forall i, i ∈ flat_map aggregate_columns (aggregates plan) -> slot_holds s row (column_slots fast_plan) v2 i).
Proof.
  intros Hr Hlen. destruct (built plan fast_plan Hbuild) as (Hnum & Hproj & Hslots & Hfs & Has).
  destruct built_groups as (Hg & Hgm & Ham). apply map_m_some in Hg.
  destruct Hplan as (Hc & [Hu Hids] & Hwp & Hpf & Hpa). destruct (closed_parts plan Hc) as (Hcf & Hcg & Hca).
  pose proof Hr as ((Hdec & _) & (layout & Hl & Hn) & Hpl). fold s in Hnum, Hproj, Hu, Hids. fold req in Hnum, Hproj, Hcf, Hcg, Hca.
  rewrite Hproj.
  destruct (fixed_slots_decode s req r.2 row layout (filter_slots fast_plan) values) as (v1 & E1 & Hlen1 & Hv1); try done.
  destruct (fixed_slots_decode s req r.2 row layout (matched_slots fast_plan) v1) as (v2 & E2 & Hlen2 & Hv2); try done.
  exists v1, v2. split; [exact E1|]. split; [exact Hlen1|]. split.
  { apply forallb_ext_in. intros p Hp. rewrite Forall_forall in Hpf.
    apply fast_predicate_agrees; [by apply Hpf|]. intros i Hi.
    assert (Hi' : i ∈ flat_map predicate_columns (filters plan)) by (apply elem_of_flat_map; eauto).
    destruct (Hfs i Hi') as (o & Ho & Hin).
    apply (decoded_holds plan fast_plan Hplan Hbuild r row (filter_slots fast_plan) values v1 i o); auto. }
  split; [exact E2|]. split; [exact Hlen2|]. split.
  - intros i Hi. apply list_elem_of_lookup in Hi as [n Hi']. destruct (Forall2_lookup_l _ _ _ _ _ Hg Hi') as (o & Ho & Hio).
    apply (decoded_holds plan fast_plan Hplan Hbuild r row (matched_slots fast_plan) v1 v2 i o); auto.
    + apply Hcg. by eapply list_elem_of_lookup_2.
    + apply Hgm. by eapply list_elem_of_lookup_2.
  - intros i Hi. destruct (Has i Hi) as (o & Ho & Hin).
    apply (decoded_holds plan fast_plan Hplan Hbuild r row (matched_slots fast_plan) v1 v2 i o); auto.
Qed.

Context (initial : list FastAggregateState).
Hypothesis Hinitial : Forall3 (state_agrees s) (aggregates plan) (initial_states plan) initial.

Lemma group_states_snoc (l : list RowMap) (row : RowMap) :
  group_states (l ++ [row]) = kv_apply_aggregate s row (group_states l) (aggregates plan).
Proof. unfold group_states. by rewrite foldl_app. Qed.

(** The states of a group after one more of its rows. *)
Lemma group_grows (row : RowMap) (values : list FastNumericValue) (gs : list KvAggregateState) (fs : list FastAggregateState) :
  (forall i, i ∈ flat_map aggregate_columns (aggregates plan) -> slot_holds s row (column_slots fast_plan) values i) ->
  Forall3 (state_agrees s) (aggregates plan) gs fs ->
  Forall3 (state_agrees s) (aggregates plan) (kv_apply_aggregate s row gs (aggregates plan))
    (apply_fast_aggregates plan (column_slots fast_plan) values fs).
Proof.
  intros Hh Hst. destruct Hplan as (_ & _ & _ & _ & Hpa). rewrite Forall_forall in Hpa.
  unfold kv_apply_aggregate, apply_fast_aggregates. apply states_agree_apply; [done|].
  intros a g f Ha Hgf. apply fast_apply_agrees; [by apply Hpa| |done]. intros i Hi. apply Hh. apply elem_of_flat_map; eauto.
Qed.

Lemma fast_group_step_ok (maps : list RowMap) (r : kvrow) (row : RowMap) (values : list FastNumericValue)
    (groups : FastNumericGroupMap) :
  plain_record s req r row -> length values = length req -> fast_groups_ok maps groups ->
  exists values' groups', fast_group_step plan fast_plan initial (values, groups) r = Ok (values', groups') /\
    length values' = length req /\ fast_groups_ok (maps ++ [row]) groups'.
Proof.
  intros Hr Hlen Hok. destruct (fast_decoded r row values Hr Hlen) as (v1 & v2 & E1 & Hl1 & Hm & E2 & Hl2 & Hgh & Hah).
  unfold fast_group_step. rewrite E1, bind_ok, Hm. destruct (kv_row_matches s row (filters plan)) eqn:Hmatch.
  2:{ exists v1, groups. split; [done|]. split; [done|]. intros k. rewrite fast_members_snoc, Hmatch. cbn [andb].
      rewrite app_nil_r. apply Hok. }
  rewrite E2, bind_ok, group_key_of_values, (group_values_held row v2 Hgh). cbv zeta. fold (fast_key row).
  eexists _, _. split; [reflexivity|]. split; [done|]. intros k. rewrite fast_members_snoc, Hmatch. cbn [andb].
  destruct (bool_decide_reflect (fast_key row = k)) as [<-|Hk].
  - rewrite lookup_insert_eq. pose proof (Hok (fast_key row)) as Hg. unfold fast_group_ok in *.
    destruct (fast_members (fast_key row) maps) as [|r0 l].
    + rewrite Hg. cbn [app from_option fst snd id]. eexists. split; [reflexivity|]. change [row] with ([] ++ [row]).
      rewrite group_states_snoc. by apply group_grows.
    + destruct Hg as (fs & -> & Hfs). cbn [from_option fst snd id]. cbn [app]. eexists. split; [reflexivity|].
      change (r0 :: l ++ [row]) with ((r0 :: l) ++ [row]). rewrite group_states_snoc. by apply group_grows.
  - rewrite lookup_insert_ne by done. rewrite app_nil_r. apply Hok.
Qed.

Lemma fast_group_scan_ok (rows : list kvrow) (maps : list RowMap) : Forall2 (plain_record s req) rows maps ->
  forall (before : list RowMap) (values : list FastNumericValue) (groups : FastNumericGroupMap),
  length values = length req -> fast_groups_ok before groups ->
  exists values' groups', fold_m (fast_group_step plan fast_plan initial) (values, groups) rows = Ok (values', groups') /\
    fast_groups_ok (before ++ maps) groups'.
Proof.
  induction 1 as [|r row rows maps Hr H IH]; intros before values groups Hlen Hok.
  - exists values, groups. by rewrite app_nil_r.
  - cbn [fold_m]. destruct (fast_group_step_ok before r row values groups Hr Hlen Hok) as (v1 & g1 & -> & Hl1 & Hg1).
    rewrite bind_ok. destruct (IH (before ++ [row]) v1 g1 Hl1 Hg1) as (v2 & g2 & E & Hg2).
    exists v2, g2. split; [exact E|]. by rewrite <- app_assoc in Hg2.
Qed.

(** ** The rows of the two scans *)

Context (rows : list kvrow) (maps : list RowMap).
Hypothesis Hrows : Forall2 (plain_record s req) rows maps.
Hypothesis Hgroupable : Forall (fun row => Forall groupable (row_group plan row)) maps.

Lemma group_value_plain (row : RowMap) (i : nat) : row ∈ maps -> i ∈ group_indices plan ->
  plain_numeric (column_type s i) (row_value s row i) /\ groupable (row_value s row i).
Proof.
  intros Hr Hi. rewrite Forall_forall in Hgroupable. pose proof (Hgroupable row Hr) as Hg. rewrite Forall_forall in Hg.
  split; [|apply Hg; unfold row_group, kv_group_values; by apply list_elem_of_fmap_2].
  apply list_elem_of_lookup in Hr as [n Hn]. destruct (Forall2_lookup_r _ _ _ _ _ Hrows Hn) as (r & _ & _ & _ & Hpl).
  rewrite Forall_forall in Hpl. apply Hpl. destruct Hplan as (Hc & _). destruct (closed_parts plan Hc) as (_ & Hgi & _). by apply Hgi.
Qed.

Lemma plain_range (t : DataType) (v : ColumnValue) : plain_numeric t v -> groupable v -> fnum_range (fnum v).
Proof. destruct v; try (by destruct t); intros Hp Hg; cbn; try done; cbn [groupable] in Hg; by width || done. Qed.

Lemma plain_class (t : DataType) (v : ColumnValue) : plain_numeric t v -> group_class v = v.
Proof. by destruct v; try (by destruct t). Qed.

Lemma row_group_values (row row' : RowMap) : row ∈ maps -> row' ∈ maps ->
  map fnum (row_group plan row) = map fnum (row_group plan row') -> row_group plan row = row_group plan row'.
Proof.
  intros Hr Hr'. unfold row_group, kv_group_values. fold s. rewrite !map_map. intros He.
  pose proof (fun i => group_value_plain row i Hr) as Hp. pose proof (fun i => group_value_plain row' i Hr') as Hp'.
  revert He Hp Hp'. generalize (group_indices plan). intros l. induction l as [|i l IH]; intros He Hp Hp'; [done|].
  cbn [map] in *. injection He as Hi He. f_equal; [|apply IH; [done|intros j Hj; apply Hp; by right|intros j Hj; apply Hp'; by right]].
  rewrite <- (plain_back (column_type s i) (row_value s row i)) by (apply Hp; by left).
  rewrite Hi. apply plain_back. apply Hp'. by left.
Qed.

Lemma fast_key_group (row row' : RowMap) : row ∈ maps -> row' ∈ maps ->
  fast_key row = fast_key row' <-> row_group plan row = row_group plan row'.
Proof.
  intros Hr Hr'. split; [|unfold fast_key; by intros ->]. intros He. apply row_group_values; [done..|].
  apply key_of_values_inj in He; [done| | |by unfold row_group, kv_group_values; rewrite !length_map];
    apply Forall_forall; intros v Hv; apply list_elem_of_fmap in Hv as (x & -> & Hx);
    apply list_elem_of_fmap in Hx as (i & -> & Hi).
  - destruct (group_value_plain row i Hr Hi). by apply (plain_range (column_type s i)).
  - destruct (group_value_plain row' i Hr' Hi). by apply (plain_range (column_type s i)).
Qed.

Lemma row_group_class (row : RowMap) : row ∈ maps -> map group_class (row_group plan row) = row_group plan row.
Proof.
  intros Hr. unfold row_group, kv_group_values. rewrite map_map. apply map_ext_in. intros i Hi. apply list_elem_of_In in Hi.
  destruct (group_value_plain row i Hr Hi) as [Hp _]. by apply (plain_class (column_type s i)).
Qed.

Lemma typed_key_group (row row' : RowMap) : row ∈ maps -> row' ∈ maps ->
  typed_group_key (row_group plan row) = typed_group_key (row_group plan row') <-> row_group plan row = row_group plan row'.
Proof.
  intros Hr Hr'. split; [|by intros ->]. pose proof Hgroupable as Hg. rewrite Forall_forall in Hg. intros He.
  apply typed_group_key_inj in He; [|by apply Hg..]. by rewrite !row_group_class in He.
Qed.

Lemma finished_row (row : RowMap) (fs : list FastAggregateState) : row ∈ maps ->
  finish_fast_grouped_aggregate_row plan (map fnum (row_group plan row)) fs =
    Ok (row_group plan row ++ finish_fast_aggregates plan fs).
Proof.
  intros Hr. unfold finish_fast_grouped_aggregate_row.
  destruct Hplan as (Hc & _). destruct (closed_parts plan Hc) as (_ & Hgi & _).
  destruct (built plan fast_plan Hbuild) as (Hnum & _). rewrite Forall_forall in Hnum.
  assert (forall i, i ∈ group_indices plan -> is_Some (columns s !! i) /\ plain_numeric (column_type s i) (row_value s row i)) as Hi.
  { intros i Hi. split; [|by apply group_value_plain]. specialize (Hnum i (Hgi i Hi)). unfold numeric_column in Hnum.
    fold s in Hnum. by destruct (columns s !! i). }
  unfold row_group, kv_group_values. fold s. clear - Hi.
  enough (map_m (fun vi : FastNumericValue * nat =>
      column ← ok_or (PgError "XX000" "group column index out of bounds") (columns s !! vi.2);
      Ok (fast_numeric_to_column_value (data_type column) vi.1))
    (zip (map fnum (map (row_value s row) (group_indices plan))) (group_indices plan)) =
    Ok (map (row_value s row) (group_indices plan))) as -> by done.
  induction (group_indices plan) as [|i l IH]; [done|]. cbn [map zip_with map_m fst snd].
  destruct (Hi i ltac:(by left)) as [[c Hc] Hp]. rewrite Hc. cbn [ok_or]. rewrite !bind_ok.
  unfold column_type in Hp. rewrite Hc in Hp. rewrite (plain_back (data_type c)) by done.
  specialize (IH (fun j Hj => Hi j (list_elem_of_further _ _ _ Hj))). by rewrite IH.
Qed.

(** The keys of the groups, each once, and the first row of each. *)
Definition row_key_of (row : RowMap) : key := typed_group_key (row_group plan row).

Definition group_keys : list key :=
  remove_dups (map row_key_of (List.filter (fun row => kv_row_matches s row (filters plan)) maps)).

Definition first_row (k : key) : RowMap := default ∅ (head (members plan k maps)).

Lemma elem_of_filter_list {A} (q : A -> bool) (l : list A) (a : A) : a ∈ List.filter q l <-> a ∈ l /\ q a = true.
Proof. by rewrite !list_elem_of_In, filter_In. Qed.

Lemma elem_of_members (k : key) (row : RowMap) :
  row ∈ members plan k maps <-> row ∈ maps /\ kv_row_matches s row (filters plan) = true /\ row_key_of row = k.
Proof. unfold members. rewrite elem_of_filter_list, andb_true_iff, bool_decide_eq_true. done. Qed.

Lemma elem_of_fast_members (k : FastNumericGroupKey) (row : RowMap) :
  row ∈ fast_members k maps <-> row ∈ maps /\ kv_row_matches s row (filters plan) = true /\ fast_key row = k.
Proof. unfold fast_members. rewrite elem_of_filter_list, andb_true_iff, bool_decide_eq_true. done. Qed.

Lemma elem_of_group_keys (k : key) :
  k ∈ group_keys <-> exists row, row ∈ maps /\ kv_row_matches s row (filters plan) = true /\ row_key_of row = k.
Proof.
  unfold group_keys. rewrite elem_of_remove_dups, list_elem_of_fmap. setoid_rewrite elem_of_filter_list. naive_solver.
Qed.

Lemma first_row_spec (k : key) : k ∈ group_keys -> exists l, members plan k maps = first_row k :: l /\
  first_row k ∈ maps /\ row_key_of (first_row k) = k.
Proof.
  intros (row & Hrow)%elem_of_group_keys. apply elem_of_members in Hrow. unfold first_row.
  destruct (members plan k maps) as [|r0 l] eqn:E; [by apply elem_of_nil in Hrow|]. exists l. cbn [head from_option id].
  split; [done|]. assert (r0 ∈ members plan k maps) as H0 by (rewrite E; by left). apply elem_of_members in H0. naive_solver.
Qed.

Lemma same_keys (row row' : RowMap) : row ∈ maps -> row' ∈ maps -> fast_key row = fast_key row' <-> row_key_of row = row_key_of row'.
Proof. intros Hr Hr'. unfold row_key_of. rewrite fast_key_group, typed_key_group; done. Qed.

(** A group of one scan is a group of the other. *)
Lemma same_members (k : key) : k ∈ group_keys -> fast_members (fast_key (first_row k)) maps = members plan k maps.
Proof.
  intros Hk. destruct (first_row_spec k Hk) as (l & _ & Hin & Hf). unfold fast_members, members. fold s.
  apply List.filter_ext_in. intros row Hrow. apply list_elem_of_In in Hrow. f_equal. apply bool_decide_ext.
  rewrite same_keys by done. rewrite Hf. done.
Qed.

Lemma projected_listed (groups : gmap key (list ColumnValue * list KvAggregateState)) :
  (forall k, groups !! k = group_entry plan maps k) ->
  btree_iter groups ≡ₚ map (fun k => (k, (row_group plan (first_row k), group_states (members plan k maps)))) group_keys.
Proof.
  intros Hg. rewrite btree_iter_perm.
  apply (listed_by groups group_keys (fun k => k) (fun k => (row_group plan (first_row k), group_states (members plan k maps)))).
  { rewrite map_id. apply NoDup_remove_dups. }
  intros k a. rewrite Hg. unfold group_entry. split.
  - intros Ha. destruct (members plan k maps) as [|r0 l] eqn:E; [done|]. injection Ha as <-. exists k. split.
    + apply elem_of_group_keys. exists r0. apply elem_of_members. rewrite E. by left.
    + split; [done|]. unfold first_row. rewrite E. done.
  - intros (k' & Hk & <- & ->). destruct (first_row_spec k Hk) as (l & -> & _). done.
Qed.

Lemma fast_listed (groups : FastNumericGroupMap) : fast_groups_ok maps groups ->
  map_to_list groups ≡ₚ
    map (fun k => (fast_key (first_row k), default ([], []) (groups !! fast_key (first_row k)))) group_keys.
Proof.
  intros Hg. apply (listed_by groups group_keys (fun k => fast_key (first_row k))).
  - apply NoDup_fmap_2_strong; [|apply NoDup_remove_dups]. intros k k' Hk Hk' He.
    destruct (first_row_spec k Hk) as (_ & _ & Hin & Hf), (first_row_spec k' Hk') as (_ & _ & Hin' & Hf').
    apply same_keys in He; [congruence|done..].
  - intros fk a. split.
    + intros Ha. pose proof (Hg fk) as Ho. unfold fast_group_ok in Ho. destruct (fast_members fk maps) as [|r0 l] eqn:E.
      { rewrite Ho in Ha. discriminate Ha. }
      assert (r0 ∈ fast_members fk maps) as H0 by (rewrite E; by left). apply elem_of_fast_members in H0 as (Hin & Hm & Hf).
      assert (row_key_of r0 ∈ group_keys) as Hk by (apply elem_of_group_keys; by exists r0).
      destruct (first_row_spec _ Hk) as (_ & _ & Hin' & Hf'). apply same_keys in Hf'; [|done..]. rewrite Hf in Hf'.
      exists (row_key_of r0). split; [done|]. rewrite Hf'. split; [done|]. by rewrite Ha.
    + intros (k & Hk & -> & ->). pose proof (Hg (fast_key (first_row k))) as Ho. rewrite (same_members k Hk) in Ho.
      destruct (first_row_spec k Hk) as (l & Hl & _). rewrite Hl in Ho. destruct Ho as (fs & -> & _). done.
Qed.

(** Two finished rows of one group: the same group values, and results that agree. *)
Definition group_row_agrees (general fast : list ColumnValue) : Prop :=
  exists values gs fs, general = values ++ gs /\ fast = values ++ fs /\ Forall3 result_agrees (aggregates plan) gs fs.

Lemma fast_groups_finish (groups : gmap key (list ColumnValue * list KvAggregateState)) (fgroups : FastNumericGroupMap) :
  (forall k, groups !! k = group_entry plan maps k) -> fast_groups_ok maps fgroups ->
  exists out out', map_m (fun e => finish_fast_grouped_aggregate_row plan e.2.1 e.2.2) (map_to_list fgroups) = Ok out /\
    out ≡ₚ out' /\ Forall2 group_row_agrees (finish_groups groups) out'.
Proof.
  intros Hg Hf. pose proof (projected_listed groups Hg) as Hp. pose proof (fast_listed fgroups Hf) as Hfp.
  set (finished := fun e : FastNumericGroupKey * (list FastNumericValue * list FastAggregateState) =>
    default [] (result_ok (finish_fast_grouped_aggregate_row plan e.2.1 e.2.2))).
  set (of_key := fun k => (fast_key (first_row k), default ([], []) (fgroups !! fast_key (first_row k)))) in Hfp.
  assert (forall k, k ∈ group_keys -> exists fs, (of_key k).2 = (map fnum (row_group plan (first_row k)), fs) /\
    Forall3 (state_agrees s) (aggregates plan) (group_states (members plan k maps)) fs) as Hk.
  { intros k Hk. pose proof (Hf (fast_key (first_row k))) as Ho. rewrite (same_members k Hk) in Ho.
    destruct (first_row_spec k Hk) as (l & Hl & _). rewrite Hl in Ho |- *. destruct Ho as (fs & Ho & Hst).
    exists fs. unfold of_key. by rewrite Ho. }
  assert (forall k, k ∈ group_keys -> exists fs, Forall3 (state_agrees s) (aggregates plan) (group_states (members plan k maps)) fs /\
    finish_fast_grouped_aggregate_row plan (of_key k).2.1 (of_key k).2.2 =
      Ok (row_group plan (first_row k) ++ finish_fast_aggregates plan fs)) as Hrow.
  { intros k Hin. destruct (Hk k Hin) as (fs & -> & Hst). exists fs. split; [done|]. apply finished_row.
    by destruct (first_row_spec k Hin) as (_ & _ & ? & _). }
  destruct (Permutation_Forall2 (P := group_row_agrees)
    (l1 := map (fun e => e.2.1 ++ map kv_finish_aggregate_state e.2.2)
             (map (fun k => (k, (row_group plan (first_row k), group_states (members plan k maps)))) group_keys))
    (l1' := finish_groups groups) (l2 := map finished (map of_key group_keys))) as (out' & Ho & Hr).
  - unfold finish_groups. by rewrite Hp.
  - rewrite !map_map. cbn [fst snd]. apply forall2_images. intros k Hin.
    destruct (Hrow k Hin) as (fs & Hst & Hfin). unfold finished. rewrite Hfin. cbn [result_ok from_option id].
    eexists _, _, _. split; [reflexivity|]. split; [reflexivity|]. by apply finish_agrees.
  - exists (map finished (map_to_list fgroups)), out'. split; [|split; [|exact Hr]].
    + apply map_m_ok. intros e He. rewrite Hfp in He. apply list_elem_of_fmap in He as (k & -> & Hin).
      destruct (Hrow k Hin) as (fs & _ & Hfin). unfold finished. by rewrite Hfin.
    + rewrite <- Ho. by rewrite Hfp.
Qed.
End Grouped.

Lemma key_only_group_scan (plan : KvAggregateScan) (rows : list kvrow) :
  aggregate_plan_uses_only_primary_key plan = true ->
  reduce_grouped_key_only_scan plan rows = reduce_grouped_projected_scan plan rows.
Proof.
  unfold aggregate_plan_uses_only_primary_key. destruct (projection plan); [|done]. intros Hk.
  unfold reduce_grouped_key_only_scan, reduce_grouped_projected_scan.
  assert (forall groups, fold_m (projected_group_step plan) groups (key_only_rows rows) = fold_m (projected_group_step plan) groups rows) as ->;
    [|done].
  induction rows as [|r rows IH]; intros groups; [done|]. cbn [key_only_rows map fold_m].
  assert (projected_group_step plan groups (r.1, []) = projected_group_step plan groups r) as ->
    by (unfold projected_group_step, projected_values_for_aggregate_record; by rewrite Hk).
  destruct (projected_group_step plan groups r); [apply IH|done..].
Qed.

(** C38. GROUP BY on the engine store partitions the matching rows by value, whichever scan
    runs: the key-only, the numeric or the projected one.  There is one output row per group; it
    carries the group values of the group's first row and the aggregates over exactly the
    group's rows in scan order; two rows are in one group exactly when their group values are
    equal (the text-like types of a column sharing one class).  The key-only and the projected
    scan answer these rows in the order of the group keys; the numeric scan answers them in an
    order of its own, with an integer SUM over no value 0 instead of NULL.  The numeric scan is
    on records that store every column, without Float32 and NaN, SUM over integers and literals
    of the columns' types. *)
Theorem grouped_scan_partitions (plan : KvAggregateScan) (rows : list kvrow) (maps : list RowMap) :
  group_indices plan <> [] -> plan_closed plan -> wf_ids (plan_schema plan) ->
  wf_projection (plan_schema plan) (required_indices plan) ->
  Forall2 (stored_row (plan_schema plan)) rows maps ->
  Forall (fun row => Forall groupable (row_group plan row)) maps ->
  (build_fast_numeric_aggregate_plan plan <> None ->
     plain_plan plan /\ Forall2 (plain_record (plan_schema plan) (required_indices plan)) rows maps) ->
  (exists groups out,
     (forall k, groups !! k = group_entry plan maps k) /\
     execute_aggregate_scan plan rows = Ok out /\
     match build_fast_numeric_aggregate_plan plan with
     | None => out = finish_groups groups
     | Some _ => exists out', out ≡ₚ out' /\ Forall2 (group_row_agrees plan) (finish_groups groups) out'
     end) /\
  (forall row row', row ∈ maps -> row' ∈ maps ->
     typed_group_key (row_group plan row) = typed_group_key (row_group plan row') <->
     map group_class (row_group plan row) = map group_class (row_group plan row')).
Proof.
  intros Hne Hc Hs Hp H Hgr Hplain. split.
  2:{ rewrite Forall_forall in Hgr. intros row row' Hr Hr'. split; [|apply typed_group_key_class].
      apply typed_group_key_inj; by apply Hgr. }
  destruct (group_scan plan rows maps ∅ [] Hs Hp Hc H) as (groups & Hscan & Hg); [done|].
  assert (reduce_grouped_projected_scan plan rows = Ok (finish_groups groups)) as Hproj
    by (unfold reduce_grouped_projected_scan; by rewrite Hscan).
  exists groups. unfold execute_aggregate_scan. rewrite bool_decide_eq_false_2 by done.
  destruct (aggregate_plan_uses_only_primary_key plan) eqn:Hk.
  { assert (build_fast_numeric_aggregate_plan plan = None) as ->.
    { unfold aggregate_plan_uses_only_primary_key in Hk. unfold build_fast_numeric_aggregate_plan. by destruct (projection plan). }
    rewrite key_only_group_scan by done. eexists. by split. }
  destruct (build_fast_numeric_aggregate_plan plan) as [fast_plan|] eqn:Hb; [|eexists; by split].
  destruct (Hplain ltac:(done)) as [Hpl Hrec]. unfold reduce_grouped_fast_numeric_scan, initial_fast_aggregate_states.
  destruct (initial_agrees plan Hpl) as (initial & -> & Hinit).
  destruct (fast_group_scan_ok plan fast_plan Hpl Hb initial Hinit rows maps Hrec [] (replicate (np_output_len (projector fast_plan)) FNull) ∅)
    as (values & fgroups & -> & Hf); [|by intros k|].
  { rewrite length_replicate. destruct (built plan fast_plan Hb) as (_ & -> & _). done. }
  rewrite bind_ok. destruct (fast_groups_finish plan fast_plan Hpl Hb rows maps Hrec Hgr groups fgroups Hg Hf) as (out & out' & Ho & Hp' & Hr).
  exists out. split; [done|]. split; [exact Ho|]. by exists out'.
Qed.

(** SUM and COUNT by a BIGINT column: the numeric scan runs. *)
Definition group_plan : KvAggregateScan :=
  {| plan_schema := agg_schema; filters := []; group_indices := [1%nat]; aggregates := [CountStar; SumColumn 0];
     required_indices := [1%nat; 0%nat]; projection := KeyValue |}.

Lemma grouped_scan_partitions_witness :
  build_fast_numeric_aggregate_plan group_plan <> None /\
  exists groups out,
    (forall k, groups !! k = group_entry group_plan [agg_row 1 5; agg_row 2 5; agg_row 3 6] k) /\
    execute_aggregate_scan group_plan [agg_kv 1 5; agg_kv 2 5; agg_kv 3 6] = Ok out /\
    match build_fast_numeric_aggregate_plan group_plan with
    | None => out = finish_groups groups
    | Some _ => exists out', out ≡ₚ out' /\ Forall2 (group_row_agrees group_plan) (finish_groups groups) out'
    end.
Proof.
  split; [by vm_compute|].
  refine (proj1 (grouped_scan_partitions group_plan [agg_kv 1 5; agg_kv 2 5; agg_kv 3 6]
    [agg_row 1 5; agg_row 2 5; agg_row 3 6] _ _ _ _ _ _ _)).
  - done.
  - intros i Hi. vm_compute in Hi |- *. set_solver.
  - split; [split; (apply (bool_decide_eq_true_1 _); vm_compute; reflexivity)
           |repeat constructor; vm_compute; congruence].
  - split; [apply (bool_decide_eq_true_1 _); vm_compute; reflexivity|repeat constructor; vm_compute; lia].
  - repeat constructor; (apply agg_stored;
      [split; vm_compute; congruence|split; vm_compute; congruence|vm_compute; reflexivity|vm_compute; reflexivity]).
  - repeat (constructor; [constructor; [vm_compute; split; congruence|constructor]|]). constructor.
  - intros _. split.
    + split; [intros i Hi; vm_compute in Hi |- *; set_solver|].
      split; [split; [split; (apply (bool_decide_eq_true_1 _); vm_compute; reflexivity)
                     |repeat constructor; vm_compute; congruence]|].
      split; [split; [apply (bool_decide_eq_true_1 _); vm_compute; reflexivity
                     |repeat constructor; vm_compute; lia]|].
      split; [constructor|]. constructor; [exact I|]. constructor; [left; vm_compute; reflexivity|constructor].
    + repeat constructor; try (apply agg_stored;
        [split; vm_compute; congruence|split; vm_compute; congruence|vm_compute; reflexivity|vm_compute; reflexivity]);
      try (eexists; split; [vm_compute; reflexivity|reflexivity]); try (vm_compute; first [congruence|split; congruence]).
Defined.
