(* ===== verification/Pushdown.v ===== *)
(** * Filters pushed down to the store

    src/src/datafusion_bridge/physical_predicates.rs (compilation of filters and
    primary-key ranges), the filter evaluation of
    src/src/datafusion_bridge/table_provider_scans.rs, the column selection of
    src/src/datafusion_bridge/table_provider_load.rs and the plans of
    src/src/datafusion_bridge/physical_planner.rs.

    Expressions, operators and scalars are types of the datafusion crate: [Df] has
    the constructors the source matches on and one for all the others.  A cast
    carries no type here because the source drops it. *)

From S2P Require Import Prelude BTree Float Types TupleCodec Values KeyCodec RowCodec KvStore Aggregate.

(** ** The expressions of the datafusion crate *)

Module Df.
Inductive ScalarValue : Type :=
  | SBoolean (v : option bool)
  | SInt32 (v : option Z)
  | SInt64 (v : option Z)
  | SFloat32 (v : option Z)
  | SFloat64 (v : option Z)
  | SUtf8 (v : option string)
  | SLargeUtf8 (v : option string)
  | SNull
  | SOther.

Inductive Operator : Type :=
  | OEq | ONotEq | OGt | OGtEq | OLt | OLtEq | OAnd | OOr | OOther.

Inductive Expr : Type :=
  | Column (name : string)
  | Literal (value : ScalarValue)
  | BinaryExpr (left : Expr) (op : Operator) (right : Expr)
  | Not (inner : Expr)
  | IsNull (inner : Expr)
  | IsNotNull (inner : Expr)
  | IsTrue (inner : Expr)
  | IsFalse (inner : Expr)
  | IsUnknown (inner : Expr)
  | IsNotTrue (inner : Expr)
  | IsNotFalse (inner : Expr)
  | IsNotUnknown (inner : Expr)
  | Negative (inner : Expr)
  | Between (expr : Expr) (negated : bool) (low high : Expr)
  | Cast (inner : Expr)
  | TryCast (inner : Expr)
  | Other.

Record SortExpr : Type := { sort_expr : Expr; asc : bool; nulls_first : bool }.

(** The plan nodes the source matches on.  A table scan carries the schema of its
    [KvTableProvider], or nothing when it reads some other table; an aggregate
    carries its expressions as they are displayed. *)
Inductive LogicalPlan : Type :=
  | Projection (exprs : list Expr) (input : LogicalPlan)
  | Filter (predicate : Expr) (input : LogicalPlan)
  | TableScan (provider : option TableSchema) (projection : option (list nat)) (filters : list Expr)
  | Aggregate (group_expr : list Expr) (aggr_expr : list string) (input : LogicalPlan)
  | Sort (exprs : list SortExpr) (input : LogicalPlan)
  | Limit (skip fetch : option Expr) (input : LogicalPlan)
  | OtherPlan.
End Df.
Abbreviation LogicalPlan := Df.LogicalPlan.
Abbreviation DfExpr := Df.Expr.

(** [Iterator::position]. *)
Fixpoint position {A} (p : A -> bool) (l : list A) : option nat :=
  match l with
  | [] => None
  | a :: l => if p a then Some O else S <$> position p l
  end.

Definition column_position (s : TableSchema) (name : string) : option nat :=
  position (fun c => bool_decide (col_name c = name)) (columns s).

(** ** Literals and operators *)

Definition scalar_value_to_column_value (value : Df.ScalarValue) : option ColumnValue :=
  match value with
  | Df.SBoolean v => Some (default Null (Boolean <$> v))
  | Df.SInt32 v => Some (default Null (Int32 <$> v))
  | Df.SInt64 v => Some (default Null (Int64 <$> v))
  | Df.SFloat32 v => Some (default Null (Float32 <$> v))
  | Df.SFloat64 v => Some (default Null (Float64 <$> v))
  | Df.SUtf8 v => Some (default Null (Text <$> v))
  | Df.SLargeUtf8 v => Some (default Null (Text <$> v))
  | Df.SNull => Some Null
  | Df.SOther => None
  end.

Definition compare_column_values (left : ColumnValue) (op : Df.Operator) (right : ColumnValue)
    : bool :=
  if is_null left || is_null right then false
  else match op with
  | Df.OEq => cv_eqb left right
  | Df.ONotEq => negb (cv_eqb left right)
  | Df.OGt => is_gt (cv_partial_cmp left right)
  | Df.OGtEq => is_ge (cv_partial_cmp left right)
  | Df.OLt => is_lt (cv_partial_cmp left right)
  | Df.OLtEq => is_le (cv_partial_cmp left right)
  | _ => false
  end.

Definition reverse_operator (op : Df.Operator) : Df.Operator :=
  match op with
  | Df.OGt => Df.OLt
  | Df.OGtEq => Df.OLtEq
  | Df.OLt => Df.OGt
  | Df.OLtEq => Df.OGtEq
  | other => other
  end.

Definition compile_compare_op (op : Df.Operator) : option KvCompareOp :=
  match op with
  | Df.OEq => Some OpEq
  | Df.ONotEq => Some OpNotEq
  | Df.OGt => Some OpGt
  | Df.OGtEq => Some OpGtEq
  | Df.OLt => Some OpLt
  | Df.OLtEq => Some OpLtEq
  | _ => None
  end.

(** ** Compilation to [KvPredicate] *)

Fixpoint compile_filter_column_idx (s : TableSchema) (e : DfExpr) : option nat :=
  match e with
  | Df.Column name => column_position s name
  | Df.Cast inner | Df.TryCast inner => compile_filter_column_idx s inner
  | _ => None
  end.

Fixpoint compile_filter_literal_value (e : DfExpr) : option ColumnValue :=
  match e with
  | Df.Literal value => scalar_value_to_column_value value
  | Df.Cast inner | Df.TryCast inner => compile_filter_literal_value inner
  | _ => None
  end.

Definition compile_kv_compare (s : TableSchema) (left : DfExpr) (op : Df.Operator)
    (right : DfExpr) : option KvPredicate :=
  match compile_filter_column_idx s left, compile_filter_literal_value right with
  | Some column_idx, Some value =>
      op ← compile_compare_op op; Some (ColumnCompare column_idx op value)
  | _, _ =>
      match compile_filter_literal_value left, compile_filter_column_idx s right with
      | Some value, Some column_idx =>
          op ← compile_compare_op (reverse_operator op); Some (ColumnCompare column_idx op value)
      | _, _ => None
      end
  end.

Fixpoint compile_kv_predicate (s : TableSchema) (e : DfExpr) : option KvPredicate :=
  match e with
  | Df.BinaryExpr lhs op rhs =>
      match op with
      | Df.OAnd =>
          l ← compile_kv_predicate s lhs; r ← compile_kv_predicate s rhs; Some (And [l; r])
      | Df.OOr =>
          l ← compile_kv_predicate s lhs; r ← compile_kv_predicate s rhs; Some (Or [l; r])
      | Df.OEq | Df.ONotEq | Df.OGt | Df.OGtEq | Df.OLt | Df.OLtEq =>
          compile_kv_compare s lhs op rhs
      | Df.OOther => None
      end
  | Df.Not inner => Not <$> compile_kv_predicate s inner
  | Df.IsNull inner => IsNull <$> compile_filter_column_idx s inner
  | Df.IsNotNull inner => IsNotNull <$> compile_filter_column_idx s inner
  | Df.Between expr negated low high =>
      column_idx ← compile_filter_column_idx s expr;
      low ← compile_filter_literal_value low;
      high ← compile_filter_literal_value high;
      Some (Between column_idx low high negated)
  | Df.Cast inner | Df.TryCast inner => compile_kv_predicate s inner
  | _ => None
  end.

(** ** Evaluation on a row (table_provider_scans.rs) *)

Definition is_column (e : DfExpr) : bool := match e with Df.Column _ => true | _ => false end.
Definition is_literal (e : DfExpr) : bool := match e with Df.Literal _ => true | _ => false end.

Fixpoint filter_supported (s : TableSchema) (e : DfExpr) : bool :=
  match e with
  | Df.Column name => existsb (fun c => bool_decide (col_name c = name)) (columns s)
  | Df.Literal _ => true
  | Df.BinaryExpr lhs op rhs =>
      match op with
      | Df.OAnd | Df.OOr => filter_supported s lhs && filter_supported s rhs
      | Df.OEq | Df.ONotEq | Df.OGt | Df.OGtEq | Df.OLt | Df.OLtEq =>
          is_column lhs && is_literal rhs || is_column rhs && is_literal lhs
      | Df.OOther => false
      end
  | Df.Not inner | Df.IsNull inner | Df.IsNotNull inner | Df.IsTrue inner | Df.IsFalse inner
  | Df.IsNotTrue inner | Df.IsNotFalse inner => filter_supported s inner
  | Df.Between expr _ low high => is_column expr && is_literal low && is_literal high
  | Df.Cast inner | Df.TryCast inner => filter_supported s inner
  | _ => false
  end.

Fixpoint eval_filter_value (row : RowMap) (e : DfExpr) : option ColumnValue :=
  match e with
  | Df.Column name => row !! name
  | Df.Literal value => scalar_value_to_column_value value
  | Df.Cast inner | Df.TryCast inner => eval_filter_value row inner
  | _ => None
  end.

Definition value_as_bool (v : ColumnValue) : option bool :=
  match v with Boolean b => Some b | _ => None end.

Definition is_boolean (b : bool) (v : ColumnValue) : bool :=
  match v with Boolean b' => Bool.eqb b b' | _ => false end.

Fixpoint eval_filter_bool (row : RowMap) (e : DfExpr) : option bool :=
  match e with
  | Df.Column name => v ← row !! name; value_as_bool v
  | Df.Literal value => v ← scalar_value_to_column_value value; value_as_bool v
  | Df.BinaryExpr lhs op rhs =>
      match op with
      | Df.OAnd =>
          match eval_filter_bool row lhs, eval_filter_bool row rhs with
          | Some false, _ | _, Some false => Some false
          | Some true, Some true => Some true
          | _, _ => None
          end
      | Df.OOr =>
          match eval_filter_bool row lhs, eval_filter_bool row rhs with
          | Some true, _ | _, Some true => Some true
          | Some false, Some false => Some false
          | _, _ => None
          end
      | Df.OEq | Df.ONotEq | Df.OGt | Df.OGtEq | Df.OLt | Df.OLtEq =>
          l ← eval_filter_value row lhs;
          r ← eval_filter_value row rhs;
          if is_null l || is_null r then None else Some (compare_column_values l op r)
      | Df.OOther => None
      end
  | Df.Not inner => negb <$> eval_filter_bool row inner
  | Df.IsNull inner => is_null <$> eval_filter_value row inner
  | Df.IsNotNull inner => (fun v => negb (is_null v)) <$> eval_filter_value row inner
  | Df.IsTrue inner => is_boolean true <$> eval_filter_value row inner
  | Df.IsFalse inner => is_boolean false <$> eval_filter_value row inner
  | Df.IsNotTrue inner => (fun v => negb (is_boolean true v)) <$> eval_filter_value row inner
  | Df.IsNotFalse inner => (fun v => negb (is_boolean false v)) <$> eval_filter_value row inner
  | Df.Between expr negated low high =>
      value ← eval_filter_value row expr;
      low ← eval_filter_value row low;
      high ← eval_filter_value row high;
      if is_null value || is_null low || is_null high then None
      else
        let inside := compare_column_values value Df.OGtEq low &&
                      compare_column_values value Df.OLtEq high in
        Some (if negated : bool then negb inside else inside)
  | Df.Cast inner | Df.TryCast inner => eval_filter_bool row inner
  | _ => None
  end.

Definition row_matches_datafusion_filters (row : RowMap) (filters : list DfExpr) : bool :=
  forallb (fun f => default false (eval_filter_bool row f)) filters.

(** ** Bounds on the primary key *)

Record PrimaryKeyBounds : Type := {
  b_lower : option (ColumnValue * bool);
  b_upper : option (ColumnValue * bool);
}.

Definition new_bounds : PrimaryKeyBounds := {| b_lower := None; b_upper := None |}.

Definition tighten_lower (b : PrimaryKeyBounds) (value : ColumnValue) (inclusive : bool)
    : PrimaryKeyBounds :=
  let replace :=
    match b_lower b with
    | None => true
    | Some (current, current_inclusive) =>
        match cv_partial_cmp value current with
        | Some Gt => true
        | Some Eq => negb inclusive && current_inclusive
        | _ => false
        end
    end in
  if replace then {| b_lower := Some (value, inclusive); b_upper := b_upper b |} else b.

Definition tighten_upper (b : PrimaryKeyBounds) (value : ColumnValue) (inclusive : bool)
    : PrimaryKeyBounds :=
  let replace :=
    match b_upper b with
    | None => true
    | Some (current, current_inclusive) =>
        match cv_partial_cmp value current with
        | Some Lt => true
        | Some Eq => negb inclusive && current_inclusive
        | _ => false
        end
    end in
  if replace then {| b_lower := b_lower b; b_upper := Some (value, inclusive) |} else b.

Definition apply_bound (b : PrimaryKeyBounds) (op : KvCompareOp) (value : ColumnValue)
    : PrimaryKeyBounds :=
  match op with
  | OpEq => tighten_upper (tighten_lower b value true) value true
  | OpGt => tighten_lower b value false
  | OpGtEq => tighten_lower b value true
  | OpLt => tighten_upper b value false
  | OpLtEq => tighten_upper b value true
  | OpNotEq => b
  end.

Record BoundsState : Type := {
  bs_bounds : PrimaryKeyBounds;
  bs_residual : list KvPredicate;
  bs_used_range : bool;
}.

Definition use_bounds (st : BoundsState) (b : PrimaryKeyBounds) : BoundsState :=
  {| bs_bounds := b; bs_residual := bs_residual st; bs_used_range := true |}.

Definition push_residual (st : BoundsState) (filter : KvPredicate) : BoundsState :=
  {| bs_bounds := bs_bounds st; bs_residual := bs_residual st ++ [filter];
     bs_used_range := bs_used_range st |}.

Fixpoint collect_primary_key_bounds (pk_idx : nat) (filter : KvPredicate) (st : BoundsState)
    : BoundsState :=
  match filter with
  | And predicates => foldl (fun st p => collect_primary_key_bounds pk_idx p st) st predicates
  | ColumnCompare column_idx op value =>
      if (column_idx =? pk_idx)%nat && negb (match op with OpNotEq => true | _ => false end)
      then use_bounds st (apply_bound (bs_bounds st) op value)
      else push_residual st filter
  | Between column_idx low high negated =>
      if (column_idx =? pk_idx)%nat && negb negated
      then use_bounds st (apply_bound (apply_bound (bs_bounds st) OpGtEq low) OpLtEq high)
      else push_residual st filter
  | _ => push_residual st filter
  end.

(** [Ok] is a range with the filters left to test, [Err] all filters. *)
Definition plan_primary_key_range (s : TableSchema) (filters : list KvPredicate)
    : result (list KvPredicate) (RangeScan * list KvPredicate) :=
  match column_position s (primary_key s) with
  | None => Err filters
  | Some pk_idx =>
      let st := foldl (fun st p => collect_primary_key_bounds pk_idx p st)
                  {| bs_bounds := new_bounds; bs_residual := []; bs_used_range := false |} filters in
      if bs_used_range st
      then Ok (row_range_between (table_id s) (table_epoch s) (b_lower (bs_bounds st))
                 (b_upper (bs_bounds st)) None, bs_residual st)
      else Err (bs_residual st)
  end.

(** ** The columns a query needs (table_provider_load.rs) *)

Fixpoint collect_filter_column_indices (s : TableSchema) (e : DfExpr) (needed : gset nat)
    : gset nat :=
  match e with
  | Df.Column name =>
      match column_position s name with Some idx => {[idx]} ∪ needed | None => needed end
  | Df.BinaryExpr lhs _ rhs =>
      collect_filter_column_indices s rhs (collect_filter_column_indices s lhs needed)
  | Df.Not inner | Df.IsNotNull inner | Df.IsNull inner | Df.IsTrue inner | Df.IsFalse inner
  | Df.IsUnknown inner | Df.IsNotTrue inner | Df.IsNotFalse inner | Df.IsNotUnknown inner
  | Df.Negative inner | Df.Cast inner | Df.TryCast inner => collect_filter_column_indices s inner needed
  | Df.Between expr _ low high =>
      collect_filter_column_indices s high
        (collect_filter_column_indices s low (collect_filter_column_indices s expr needed))
  | Df.Literal _ | Df.Other => needed
  end.

Definition output_indices (s : TableSchema) (projection : option (list nat)) : list nat :=
  default (seq 0 (length (columns s))) projection.

Definition filter_column_indices (s : TableSchema) (filters : list DfExpr) : list nat :=
  sorted_slots (foldl (fun needed f => collect_filter_column_indices s f needed) ∅ filters).

Definition needed_indices (s : TableSchema) (projection : option (list nat)) (filters : list DfExpr)
    : list nat :=
  sorted_slots (list_to_set (output_indices s projection) ∪
                list_to_set (filter_column_indices s filters)).

Definition can_project_from_primary_key (s : TableSchema) (needed : list nat) (filters : list DfExpr)
    : bool :=
  match filters with [] => pk_only s needed | _ => false end.

Definition projected_primary_key_row (s : TableSchema) (needed : list nat) (pk_value : ColumnValue)
    : RowMap :=
  if existsb (fun idx => match columns s !! idx with
                         | Some column => bool_decide (col_name column = primary_key s)
                         | None => false
                         end) needed
  then {[primary_key s := pk_value]} else ∅.

(** ** Aggregate expressions, read back from their text *)

(** [str::find]: the bytes before and after the first occurrence. *)
Fixpoint split_once (p l : list byte) : option (list byte * list byte) :=
  match strip_prefix p l with
  | Some rest => Some ([], rest)
  | None =>
      match l with
      | [] => None
      | b :: l => '(before, after) ← split_once p l; Some (b :: before, after)
      end
  end.

Definition contains (p l : list byte) : bool := bool_decide (is_Some (split_once p l)).

(** What precedes the last occurrence of a byte, [rfind]. *)
Fixpoint before_last (b : byte) (l : list byte) : option (list byte) :=
  match l with
  | [] => None
  | x :: l =>
      match before_last b l with
      | Some before => Some (x :: before)
      | None => if bool_decide (x = b) then Some [] else None
      end
  end.

(** [rsplit(b).next()]: what follows the last occurrence, or everything. *)
Fixpoint after_last (b : byte) (l : list byte) : list byte :=
  match l with
  | [] => []
  | x :: l' =>
      if bool_decide (b ∈ l') then after_last b l'
      else if bool_decide (x = b) then l' else l
  end.

(** The characters that are neither white space nor double quotes. *)
Fixpoint drop_spaces_and_quotes (fuel : nat) (l : list byte) : list byte :=
  match fuel, l with
  | S fuel, b :: r =>
      match whitespace_at l with
      | O => if bool_decide (b = x22) then drop_spaces_and_quotes fuel r
             else b :: drop_spaces_and_quotes fuel r
      | n => drop_spaces_and_quotes fuel (drop n l)
      end
  | _, _ => []
  end.

Definition normalize_expr (text : string) : list byte :=
  map ascii_lower_byte (drop_spaces_and_quotes (length (as_bytes text)) (as_bytes text)).

Fixpoint strip_first_prefix (prefixes : list (list byte)) (l : list byte) : option (list byte) :=
  match prefixes with
  | [] => None
  | p :: prefixes =>
      match strip_prefix p l with Some r => Some r | None => strip_first_prefix prefixes l end
  end.

Definition aggregate_column_idx (s : TableSchema) (normalized : list byte) (prefix : string)
    : option nat :=
  '(_, rest) ← split_once (as_bytes prefix) normalized;
  arg ← before_last x29 rest;
  let arg :=
    match strip_first_prefix (map as_bytes ["cast("; "trycast("; "try_cast("]) arg with
    | Some inner =>
        let inner := default inner (strip_suffix1 x29 inner) in
        match split_once (as_bytes "as") inner with Some (expr, _) => expr | None => inner end
    | None => arg
    end in
  let name := after_last x2e arg in
  position (fun c => bool_decide (map ascii_lower_byte (as_bytes (col_name c)) =
                                  map ascii_lower_byte name)) (columns s).

Record KvAggregateSpec : Type := { spec_op : KvAggregateOp; output_type : DataType }.

Definition column_data_type (s : TableSchema) (column_idx : nat) : option DataType :=
  data_type <$> columns s !! column_idx.

(** The arms of [plan_aggregate_expr] after COUNT. *)
Definition plan_extreme_or_sum (s : TableSchema) (normalized : list byte) : option KvAggregateSpec :=
  match aggregate_column_idx s normalized "max(" with
  | Some i => t ← column_data_type s i; Some {| spec_op := MaxColumn i; output_type := t |}
  | None =>
  match aggregate_column_idx s normalized "min(" with
  | Some i => t ← column_data_type s i; Some {| spec_op := MinColumn i; output_type := t |}
  | None =>
  match aggregate_column_idx s normalized "sum(" with
  | Some i =>
      t ← column_data_type s i;
      match t with
      | DT.Int32 | DT.Int64 => Some {| spec_op := SumColumn i; output_type := DT.Int64 |}
      | DT.Float32 | DT.Float64 => Some {| spec_op := SumColumn i; output_type := DT.Float64 |}
      | _ => None
      end
  | None =>
  match aggregate_column_idx s normalized "avg(" with
  | Some i =>
      t ← column_data_type s i;
      match t with
      | DT.Int32 | DT.Int64 | DT.Float32 | DT.Float64 =>
          Some {| spec_op := AvgColumn i; output_type := DT.Float64 |}
      | _ => None
      end
  | None => None
  end end end end.

Definition plan_aggregate_expr (s : TableSchema) (text : string) : option KvAggregateSpec :=
  let normalized := normalize_expr text in
  let other := plan_extreme_or_sum s normalized in
  if contains (as_bytes "count(") normalized then
    if contains (as_bytes "count(*)") normalized || contains (as_bytes "count(int64(1))") normalized
    then Some {| spec_op := CountStar; output_type := DT.Int64 |}
    else
      match aggregate_column_idx s normalized "count(" with
      | Some i => Some {| spec_op := CountColumn i; output_type := DT.Int64 |}
      | None => other
      end
  else other.

(** ** Plans *)

Record KvScanPlan : Type := {
  sp_schema : TableSchema;
  range_start : key;
  range_end : option key;
  scan_prefix : option key;
  sp_filters : list KvPredicate;
  sp_group_indices : list nat;
  sp_aggregates : list KvAggregateSpec;
  sp_required_indices : list nat;
  sp_projection : KvScanProjection;
}.

Fixpoint collect_aggregate_input_filters (plan : LogicalPlan)
    : list DfExpr * option (option TableSchema) :=
  match plan with
  | Df.Filter predicate input =>
      let '(filters, scan) := collect_aggregate_input_filters input in (filters ++ [predicate], scan)
  | Df.Projection _ input => collect_aggregate_input_filters input
  | Df.TableScan provider _ filters => (filters, Some provider)
  | _ => ([], None)
  end.

Definition spec_column (spec : KvAggregateSpec) : list nat :=
  match aggregate_column (spec_op spec) with Some i => [i] | None => [] end.

Definition planned_range (s : TableSchema) (filters : list KvPredicate)
    : RangeScan * list KvPredicate :=
  match plan_primary_key_range s filters with
  | Ok planned => planned
  | Err filters => (row_range (table_id s) (table_epoch s) None, filters)
  | _ => (row_range (table_id s) (table_epoch s) None, [])
  end.

Definition plan_kv_aggregate (plan : LogicalPlan) : option KvScanPlan :=
  let plan := match plan with Df.Projection _ input => input | other => other end in
  match plan with
  | Df.Aggregate group_expr aggr_expr input =>
      let '(filters, scan) := collect_aggregate_input_filters input in
      s ← mjoin scan;
      compiled_filters ← map_m (compile_kv_predicate s) filters;
      let required := list_to_set (filter_column_indices s filters) : gset nat in
      let '(range, residual_filters) := planned_range s compiled_filters in
      group_indices ← map_m (compile_filter_column_idx s) group_expr;
      aggregates ← map_m (plan_aggregate_expr s) aggr_expr;
      let required := required ∪ list_to_set group_indices ∪
                      list_to_set (flat_map spec_column aggregates) in
      match aggregates with
      | [] => None
      | _ =>
          let required_indices := sorted_slots required in
          Some {| sp_schema := s; range_start := rs_start range; range_end := rs_end range;
                  scan_prefix := Some (row_prefix (table_id s) (table_epoch s));
                  sp_filters := residual_filters; sp_group_indices := group_indices;
                  sp_aggregates := aggregates; sp_required_indices := required_indices;
                  sp_projection := if pk_only s required_indices then KeyOnly else KeyValue |}
      end
  | _ => None
  end.

Definition plan_kv_aggregate_node (plan : LogicalPlan) : option KvScanPlan :=
  match plan with
  | Df.Aggregate _ _ _ => plan_kv_aggregate plan
  | _ => None
  end.

(** [execute_kv_aggregate_scan]: the plan as the store's scan takes it. *)
Definition kv_aggregate_scan_of (plan : KvScanPlan) : KvAggregateScan :=
  {| plan_schema := sp_schema plan; filters := sp_filters plan;
     group_indices := sp_group_indices plan; aggregates := map spec_op (sp_aggregates plan);
     required_indices := sp_required_indices plan; projection := sp_projection plan |}.

(** ** Top-n plans *)

Record KvTopNPlan : Type := {
  tn_schema : TableSchema;
  kv_filters : list KvPredicate;
  tn_output_indices : list nat;
  scan_indices : list nat;
  scan_positions : list (option nat);
  refetch_output : bool;
  order_idx : nat;
  primary_key_idx : option nat;
  primary_key_ordered : bool;
  descending : bool;
  tn_nulls_first : bool;
  tn_skip : nat;
  tn_fetch : nat;
}.

(** The nesting of options of the source: [None] is a limit that is no literal
    count, [Some None] no limit. *)
Definition limit_usize (e : option DfExpr) : option (option nat) :=
  match e with
  | None => Some None
  | Some (Df.Literal value) =>
      v ← scalar_value_to_column_value value;
      n ← match v with Int16 n | Int32 n | Int64 n => Some n | _ => None end;
      if 0 <=? n then Some (Some (Z.to_nat n)) else None
  | Some _ => None
  end.

Fixpoint collect_topn_input (plan : LogicalPlan)
    : option (list DfExpr) * list DfExpr * option (option TableSchema * option (list nat)) :=
  match plan with
  | Df.Projection exprs input =>
      let '(_, filters, scan) := collect_topn_input input in (Some exprs, filters, scan)
  | Df.Filter predicate input =>
      let '(projection, filters, scan) := collect_topn_input input in
      (projection, filters ++ [predicate], scan)
  | Df.TableScan provider projection filters => (None, filters, Some (provider, projection))
  | _ => (None, [], None)
  end.

Definition compile_topn_filter (s : TableSchema) (filter : DfExpr) : option KvPredicate :=
  if filter_supported s filter then compile_kv_predicate s filter else None.

Definition plan_kv_topn_node (plan : LogicalPlan) : option KvTopNPlan :=
  match plan with
  | Df.Limit skip fetch (Df.Sort [sort_expr] input) =>
      fetch ← mjoin (limit_usize fetch);
      let skip := default O (mjoin (limit_usize skip)) in
      let '(projection_exprs, filters, scan) := collect_topn_input input in
      '(provider, projection) ← scan;
      s ← provider;
      kv_filters ← map_m (compile_topn_filter s) filters;
      order_idx ← compile_filter_column_idx s (Df.sort_expr sort_expr);
      output_indices ← match projection_exprs with
                       | Some exprs => map_m (compile_filter_column_idx s) exprs
                       | None => Some (output_indices s projection)
                       end;
      let pk_idx := column_position s (primary_key s) in
      let scan_required : gset nat :=
        {[order_idx]} ∪ match pk_idx with Some i => {[i]} | None => ∅ end ∪
        list_to_set (filter_column_indices s filters) in
      let refetch_output :=
        match pk_idx with
        | Some _ => existsb (fun idx => bool_decide (idx ∉ scan_required)) output_indices
        | None => false
        end in
      let scan_required :=
        if refetch_output then scan_required else scan_required ∪ list_to_set output_indices in
      let scan_indices := sorted_slots scan_required in
      Some {| tn_schema := s; kv_filters := kv_filters; tn_output_indices := output_indices;
              scan_indices := scan_indices;
              scan_positions := build_column_slots (length (columns s)) scan_indices;
              refetch_output := refetch_output; order_idx := order_idx; primary_key_idx := pk_idx;
              primary_key_ordered := match pk_idx with Some i => (i =? order_idx)%nat | None => false end;
              descending := negb (Df.asc sort_expr); tn_nulls_first := Df.nulls_first sort_expr;
              tn_skip := skip; tn_fetch := fetch |}
  | _ => None
  end.

(** ** Compiled filters agree with evaluation *)

(** A stored row has a value, NULL included, for every column. *)
Definition row_total (s : TableSchema) (row : RowMap) : Prop :=
  forall c, c ∈ columns s -> is_Some (row !! col_name c).

(** No NOT and no NOT BETWEEN. *)
Fixpoint positive (e : DfExpr) : bool :=
  match e with
  | Df.BinaryExpr lhs _ rhs => positive lhs && positive rhs
  | Df.Not _ => false
  | Df.Between _ negated _ _ => negb negated
  | Df.Cast inner | Df.TryCast inner => positive inner
  | _ => true
  end.

Lemma position_spec {A} (p : A -> bool) (l : list A) (i : nat) :
  position p l = Some i -> exists a, l !! i = Some a /\ p a = true.
Proof.
  revert i. induction l as [|a l IH]; intros i; cbn [position]; [done|].
  destruct (p a) eqn:Hp; [intros [= <-]; by exists a|].
  destruct (position p l) as [j|]; [|done]. intros [= <-]. by apply IH.
Qed.

Lemma column_position_spec (s : TableSchema) (name : string) (i : nat) :
  column_position s name = Some i -> exists c, columns s !! i = Some c /\ col_name c = name.
Proof.
  intros (c & Hc & Hn)%position_spec. exists c. by apply bool_decide_eq_true in Hn.
Qed.

Section FilterRow.
Context (s : TableSchema) (row : RowMap) (Htotal : row_total s row).

Lemma column_value_agrees (e : DfExpr) (i : nat) :
  compile_filter_column_idx s e = Some i -> eval_filter_value row e = Some (row_value s row i).
Proof.
  induction e; cbn [compile_filter_column_idx eval_filter_value]; try done; [|by auto..].
  intros (c & Hc & <-)%column_position_spec. unfold row_value. rewrite Hc. cbn [mbind option_bind].
  destruct (Htotal c) as [v ->]; [by apply list_elem_of_lookup; exists i|done].
Qed.

Lemma literal_value_agrees (e : DfExpr) (v : ColumnValue) :
  compile_filter_literal_value e = Some v -> eval_filter_value row e = Some v.
Proof. induction e; cbn [compile_filter_literal_value eval_filter_value]; try done; auto. Qed.

Lemma compare_agrees (op : Df.Operator) (op' : KvCompareOp) (a b : ColumnValue) :
  compile_compare_op op = Some op' -> compare_column_values a op b = compare_values a op' b.
Proof.
  unfold compare_column_values, compare_values.
  destruct op; intros [= <-]; destruct (is_null a || is_null b); try done;
    cbn [ordering_satisfies]; by destruct (cv_partial_cmp a b) as [[]|].
Qed.

Lemma compare_reverse (op : Df.Operator) (a b : ColumnValue) :
  compare_column_values a (reverse_operator op) b = compare_column_values b op a.
Proof.
  unfold compare_column_values. rewrite (orb_comm (is_null b)). destruct (is_null a || is_null b); [done|].
  rewrite (cv_eqb_sym b a), (cv_cmp_antisym a b). destruct op; cbn [reverse_operator]; try done;
    by destruct (cv_partial_cmp a b) as [[]|].
Qed.

(** What the comparison arm of the evaluation answers. *)
Definition compare_answer (a : ColumnValue) (op : Df.Operator) (b : ColumnValue) : option bool :=
  if is_null a || is_null b then None else Some (compare_column_values a op b).

Lemma compare_answer_true (a b : ColumnValue) (op : Df.Operator) :
  default false (compare_answer a op b) = compare_column_values a op b.
Proof. unfold compare_answer, compare_column_values. by destruct (is_null a || is_null b). Qed.

(** How a compiled predicate relates to the three-valued answer of the expression. *)
Definition answers (answer : option bool) (pos matches : bool) : Prop :=
  (forall b, answer = Some b -> matches = b) /\ (pos = true -> matches = default false answer).

Lemma answers_exact (answer : option bool) (pos : bool) : answers answer pos (default false answer).
Proof. by split; [intros b ->|]. Qed.

Lemma compile_compare_agrees (lhs rhs : DfExpr) (op : Df.Operator) (p : KvPredicate) (pos : bool) :
  compile_kv_compare s lhs op rhs = Some p ->
  answers (l ← eval_filter_value row lhs; r ← eval_filter_value row rhs; compare_answer l op r)
    pos (kv_predicate_matches s row p).
Proof.
  unfold compile_kv_compare. intros H.
  assert (Hfirst : forall i v, compile_filter_column_idx s lhs = Some i ->
    compile_filter_literal_value rhs = Some v ->
    (op ← compile_compare_op op; Some (ColumnCompare i op v)) = Some p ->
    answers (l ← eval_filter_value row lhs; r ← eval_filter_value row rhs; compare_answer l op r)
      pos (kv_predicate_matches s row p)).
  { intros i v Hi Hv Hp. rewrite (column_value_agrees _ _ Hi), (literal_value_agrees _ _ Hv).
    cbn [mbind option_bind] in *. destruct (compile_compare_op op) as [op'|] eqn:Ho; [|done].
    injection Hp as <-. cbn [kv_predicate_matches]. rewrite <- (compare_agrees op op' _ _ Ho).
    rewrite <- compare_answer_true. apply answers_exact. }
  assert (Hsecond : forall i v, compile_filter_literal_value lhs = Some v ->
    compile_filter_column_idx s rhs = Some i ->
    (op ← compile_compare_op (reverse_operator op); Some (ColumnCompare i op v)) = Some p ->
    answers (l ← eval_filter_value row lhs; r ← eval_filter_value row rhs; compare_answer l op r)
      pos (kv_predicate_matches s row p)).
  { intros i v Hv Hi Hp. rewrite (column_value_agrees _ _ Hi), (literal_value_agrees _ _ Hv).
    cbn [mbind option_bind] in *.
    destruct (compile_compare_op (reverse_operator op)) as [op'|] eqn:Ho; [|done].
    injection Hp as <-. cbn [kv_predicate_matches]. rewrite <- (compare_agrees _ op' _ _ Ho).
    rewrite compare_reverse, <- compare_answer_true. apply answers_exact. }
  destruct (compile_filter_column_idx s lhs) eqn:?, (compile_filter_literal_value rhs) eqn:?,
    (compile_filter_literal_value lhs) eqn:?, (compile_filter_column_idx s rhs) eqn:?; eauto; done.
Qed.

Lemma compiled_answers (e : DfExpr) : forall p : KvPredicate,
  compile_kv_predicate s e = Some p ->
  answers (eval_filter_bool row e) (positive e) (kv_predicate_matches s row p).
Proof.
  induction e as [| |lhs IHl op rhs IHr|e IH|e IH|e IH| | | | | | | |e IHe negated low IHlow high IHhigh|e IH|e IH|];
    intros p; cbn [compile_kv_predicate]; try discriminate.
  - destruct op; try discriminate; try apply compile_compare_agrees.
    + destruct (compile_kv_predicate s lhs) as [pl|]; [|discriminate].
      destruct (compile_kv_predicate s rhs) as [pr|]; [|discriminate]. intros [= <-].
      destruct (IHl pl eq_refl) as [L1 L2], (IHr pr eq_refl) as [R1 R2].
      cbn [kv_predicate_matches forallb eval_filter_bool positive]. rewrite andb_true_r.
      destruct (eval_filter_bool row lhs) as [[]|], (eval_filter_bool row rhs) as [[]|];
        rewrite ?(L1 _ eq_refl), ?(R1 _ eq_refl), ?andb_false_r; try apply answers_exact;
        (split; [done|]; intros [? ?]%andb_true_iff; rewrite ?L2, ?R2 by done; done).
    + destruct (compile_kv_predicate s lhs) as [pl|]; [|discriminate].
      destruct (compile_kv_predicate s rhs) as [pr|]; [|discriminate]. intros [= <-].
      destruct (IHl pl eq_refl) as [L1 L2], (IHr pr eq_refl) as [R1 R2].
      cbn [kv_predicate_matches existsb eval_filter_bool positive]. rewrite orb_false_r.
      destruct (eval_filter_bool row lhs) as [[]|], (eval_filter_bool row rhs) as [[]|];
        rewrite ?(L1 _ eq_refl), ?(R1 _ eq_refl), ?orb_true_r; try apply answers_exact;
        (split; [done|]; intros [? ?]%andb_true_iff; rewrite ?L2, ?R2 by done; done).
  - destruct (compile_kv_predicate s e) as [pe|]; [|discriminate]. intros [= <-].
    destruct (IH pe eq_refl) as [H1 _]. cbn [kv_predicate_matches eval_filter_bool positive].
    split; [|done]. intros b. destruct (eval_filter_bool row e) as [b'|]; [|done].
    rewrite (H1 b' eq_refl). by intros [= <-].
  - destruct (compile_filter_column_idx s e) as [i|] eqn:Hi; [|discriminate]. intros [= <-].
    cbn [eval_filter_bool]. rewrite (column_value_agrees _ _ Hi). apply (answers_exact (Some _)).
  - destruct (compile_filter_column_idx s e) as [i|] eqn:Hi; [|discriminate]. intros [= <-].
    cbn [eval_filter_bool]. rewrite (column_value_agrees _ _ Hi). apply (answers_exact (Some _)).
  - destruct (compile_filter_column_idx s e) as [i|] eqn:Hi; [|discriminate]. cbn [mbind option_bind].
    destruct (compile_filter_literal_value low) as [l|] eqn:Hl; [|discriminate].
    destruct (compile_filter_literal_value high) as [h|] eqn:Hh; [|discriminate].
    intros [= <-]. cbn [eval_filter_bool positive kv_predicate_matches].
    rewrite (column_value_agrees _ _ Hi), (literal_value_agrees _ _ Hl), (literal_value_agrees _ _ Hh).
    cbn [mbind option_bind]. rewrite <- (compare_agrees Df.OGtEq OpGtEq _ _ eq_refl).
    rewrite <- (compare_agrees Df.OLtEq OpLtEq _ _ eq_refl). unfold compare_column_values.
    destruct (is_null (row_value s row i)), (is_null l), (is_null h); cbn [orb andb];
      split; rewrite ?andb_false_r; try done; try (by intros b [= <-]); by destruct negated.
  - intros H. by apply IH.
  - intros H. by apply IH.
Qed.
End FilterRow.

(** ** The primary-key range selects what the filters it replaces select *)

Section PrimaryKeyRange.
Context (s : TableSchema) (row : RowMap) (pk_idx : nat) (v : ColumnValue) (a : Z).
Hypotheses (Hidx : column_position s (primary_key s) = Some pk_idx)
  (Hpk : row_value s row pk_idx = v) (Hv : wf_key v) (Ha : int_of_key v = Some a).

(** A literal the primary key of this row is compared with. *)
Definition key_literal (l : ColumnValue) : Prop := wf_key l /\ same_int_width l v = true.

(** The primary key is compared with integers of its own width only. *)
Fixpoint pk_literals (p : KvPredicate) : Prop :=
  match p with
  | And ps => foldr (fun p acc => pk_literals p /\ acc) True ps
  | ColumnCompare i op l => i = pk_idx -> op <> OpNotEq -> key_literal l
  | Between i low high negated => i = pk_idx -> negated = false -> key_literal low /\ key_literal high
  | _ => True
  end.

Definition bound_literal (b : option (ColumnValue * bool)) : Prop :=
  match b with Some (l, _) => key_literal l | None => True end.

Definition bounds_literal (b : PrimaryKeyBounds) : Prop :=
  bound_literal (b_lower b) /\ bound_literal (b_upper b).

Definition within (b : PrimaryKeyBounds) : bool := above (b_lower b) a && below (b_upper b) a.

Lemma key_literal_int (l : ColumnValue) :
  key_literal l -> exists z, int_of_key l = Some z /\ cv_partial_cmp v l = Some (a ?= z) /\
    cv_eqb v l = (a =? z) /\ is_null l = false.
Proof.
  intros [_ Hw]. destruct v, l; try discriminate; injection Ha as <-; by eexists.
Qed.

Lemma key_literal_cmp (l l' : ColumnValue) (z z' : Z) :
  key_literal l -> key_literal l' -> int_of_key l = Some z -> int_of_key l' = Some z' ->
  cv_partial_cmp l l' = Some (z ?= z').
Proof.
  intros [_ H] [_ H'] Hz Hz'.
  destruct v, l; try discriminate; destruct l'; try discriminate; by injection Hz as <-; injection Hz' as <-.
Qed.

Lemma tighten_lower_within (b : PrimaryKeyBounds) (l : ColumnValue) (inclusive : bool) (z : Z) :
  bounds_literal b -> key_literal l -> int_of_key l = Some z ->
  bounds_literal (tighten_lower b l inclusive) /\
  within (tighten_lower b l inclusive) = within b && (if inclusive then z <=? a else z <? a).
Proof.
  intros [Hl Hu] Hlit Hz. unfold tighten_lower, within, bounds_literal.
  destruct (b_lower b) as [[c ci]|] eqn:El.
  - cbn [bound_literal] in Hl. destruct (key_literal_int c Hl) as (zc & Hzc & _).
    rewrite (key_literal_cmp l c z zc) by done.
    destruct (Z.compare_spec z zc), inclusive, ci; cbn [negb andb]; cbn [b_lower b_upper above bound_literal];
      rewrite ?El; cbn [above bound_literal]; rewrite ?Hz, ?Hzc;
      (split; [done|]); destruct (below (b_upper b) a); rewrite ?andb_true_r, ?andb_false_r; try done;
      cbn [andb]; lia.
  - cbn [b_lower b_upper above bound_literal]. rewrite Hz. split; [done|].
    destruct inclusive, (below (b_upper b) a); cbn [andb]; rewrite ?andb_true_r, ?andb_false_r; done.
Qed.

Lemma tighten_upper_within (b : PrimaryKeyBounds) (l : ColumnValue) (inclusive : bool) (z : Z) :
  bounds_literal b -> key_literal l -> int_of_key l = Some z ->
  bounds_literal (tighten_upper b l inclusive) /\
  within (tighten_upper b l inclusive) = within b && (if inclusive then a <=? z else a <? z).
Proof.
  intros [Hl Hu] Hlit Hz. unfold tighten_upper, within, bounds_literal.
  destruct (b_upper b) as [[c ci]|] eqn:El.
  - cbn [bound_literal] in Hu. destruct (key_literal_int c Hu) as (zc & Hzc & _).
    rewrite (key_literal_cmp l c z zc) by done.
    destruct (Z.compare_spec z zc), inclusive, ci; cbn [negb andb]; cbn [b_lower b_upper below bound_literal];
      rewrite ?El; cbn [below bound_literal]; rewrite ?Hz, ?Hzc;
      (split; [done|]); destruct (above (b_lower b) a); cbn [andb]; try done; lia.
  - cbn [b_lower b_upper below bound_literal]. rewrite Hz. split; [done|].
    by destruct inclusive, (above (b_lower b) a).
Qed.

Lemma order_cases (op : KvCompareOp) (x y : Z) :
  ordering_satisfies op (Some (x ?= y)) =
  match op with
  | OpEq => x =? y | OpNotEq => negb (x =? y) | OpGt => y <? x | OpGtEq => y <=? x
  | OpLt => x <? y | OpLtEq => x <=? y
  end.
Proof. destruct op; cbn [ordering_satisfies]; destruct (Z.compare_spec x y); lia. Qed.

Lemma apply_bound_within (b : PrimaryKeyBounds) (op : KvCompareOp) (l : ColumnValue) :
  op <> OpNotEq -> bounds_literal b -> key_literal l ->
  bounds_literal (apply_bound b op l) /\
  within (apply_bound b op l) = within b && compare_values v op l.
Proof.
  intros Hop Hb Hl. destruct (key_literal_int l Hl) as (z & Hz & Hc & He & Hn).
  assert (Hnv : is_null v = false) by (by destruct v).
  unfold compare_values. rewrite Hnv, Hn, He, Hc. cbn [orb]. destruct op; [|done|..]; cbn [apply_bound].
  - destruct (tighten_lower_within b l true z Hb Hl Hz) as [B1 W1].
    destruct (tighten_upper_within _ l true z B1 Hl Hz) as [B2 W2]. split; [done|].
    rewrite W2, W1. destruct (within b); cbn [andb]; lia.
  - destruct (tighten_lower_within b l false z Hb Hl Hz) as [B1 ->]. split; [done|]. by rewrite order_cases.
  - destruct (tighten_lower_within b l true z Hb Hl Hz) as [B1 ->]. split; [done|]. by rewrite order_cases.
  - destruct (tighten_upper_within b l false z Hb Hl Hz) as [B1 ->]. split; [done|]. by rewrite order_cases.
  - destruct (tighten_upper_within b l true z Hb Hl Hz) as [B1 ->]. split; [done|]. by rewrite order_cases.
Qed.

(** What the collected state selects. *)
Definition state_selects (st : BoundsState) : bool :=
  within (bs_bounds st) && kv_row_matches s row (bs_residual st).

Definition collected (st st' : BoundsState) (matches : bool) : Prop :=
  bounds_literal (bs_bounds st') /\
  state_selects st' = state_selects st && matches /\
  (bs_used_range st' = false -> bs_used_range st = false /\ bs_bounds st' = bs_bounds st).

Lemma collected_residual (st : BoundsState) (p : KvPredicate) :
  bounds_literal (bs_bounds st) ->
  collected st (push_residual st p) (kv_predicate_matches s row p).
Proof.
  intros Hb. split; [done|]. split; [|done]. unfold state_selects, kv_row_matches.
  cbn [push_residual bs_bounds bs_residual]. rewrite forallb_app. cbn [forallb].
  by rewrite andb_true_r, andb_assoc.
Qed.

Lemma collected_bounds (st : BoundsState) (b : PrimaryKeyBounds) (matches : bool) :
  bounds_literal b -> within b = within (bs_bounds st) && matches ->
  collected st (use_bounds st b) matches.
Proof.
  intros Hb Hw. split; [done|]. split; [|done]. unfold state_selects. cbn [use_bounds bs_bounds bs_residual].
  rewrite Hw, <- !andb_assoc. f_equal. apply andb_comm.
Qed.

Lemma collect_list (ps : list KvPredicate) : forall st : BoundsState,
  (forall p, p ∈ ps -> pk_literals p -> forall st, bounds_literal (bs_bounds st) ->
     collected st (collect_primary_key_bounds pk_idx p st) (kv_predicate_matches s row p)) ->
  foldr (fun p acc => pk_literals p /\ acc) True ps -> bounds_literal (bs_bounds st) ->
  collected st (foldl (fun st p => collect_primary_key_bounds pk_idx p st) st ps)
    (forallb (kv_predicate_matches s row) ps).
Proof.
  induction ps as [|p ps IH]; intros st Hps Hl Hb; cbn [foldl forallb].
  - split; [done|]. split; [by rewrite andb_true_r|done].
  - destruct Hl as [Hp Hl]. destruct (Hps p ltac:(set_solver) Hp st Hb) as (B1 & S1 & U1).
    destruct (IH (collect_primary_key_bounds pk_idx p st)) as (B2 & S2 & U2);
      [intros q Hq; apply Hps; set_solver|done|done|].
    split; [done|]. split; [by rewrite S2, S1, andb_assoc|].
    intros Hu. destruct (U2 Hu) as [Hu' ->]. by apply U1.
Qed.

Lemma collect_bounds_exact (p : KvPredicate) : pk_literals p -> forall st : BoundsState,
  bounds_literal (bs_bounds st) ->
  collected st (collect_primary_key_bounds pk_idx p st) (kv_predicate_matches s row p).
Proof.
  induction p as [ps IH|ps|p|i op l|i|i|i low high negated] using KvPredicate_nested_ind;
    intros Hl st Hb; try by apply collected_residual.
  - cbn [collect_primary_key_bounds kv_predicate_matches]. apply collect_list; [|done|done].
    intros p Hp. by apply (proj1 (Forall_forall _ _) IH).
  - cbn [collect_primary_key_bounds].
    destruct (Nat.eqb_spec i pk_idx) as [->|]; cbn [andb]; [|by apply collected_residual].
    assert (Hop : op = OpNotEq \/ op <> OpNotEq) by (destruct op; by (left + right)).
    destruct Hop as [->|Hop]; [by apply collected_residual|].
    replace (negb _) with true by (by destruct op). destruct (apply_bound_within (bs_bounds st) op l)
      as [B W]; [done|done|by apply Hl|]. apply collected_bounds; [done|].
    cbn [kv_predicate_matches]. by rewrite Hpk.
  - cbn [collect_primary_key_bounds].
    destruct (Nat.eqb_spec i pk_idx) as [->|]; cbn [andb]; [|by apply collected_residual].
    destruct negated; cbn [negb]; [by apply collected_residual|].
    destruct (Hl eq_refl eq_refl) as [Hlow Hhigh].
    destruct (apply_bound_within (bs_bounds st) OpGtEq low) as [B1 W1]; [done|done|done|].
    destruct (apply_bound_within (apply_bound (bs_bounds st) OpGtEq low) OpLtEq high) as [B2 W2];
      [done|done|done|].
    apply collected_bounds; [done|]. cbn [kv_predicate_matches]. by rewrite W2, W1, Hpk, andb_assoc.
Qed.

Lemma same_int_width_sym (x y : ColumnValue) : same_int_width x y = same_int_width y x.
Proof. by destruct x, y. Qed.

Lemma planned_range_selects (ps : list KvPredicate) :
  foldr (fun p acc => pk_literals p /\ acc) True ps ->
  in_range (planned_range s ps).1 (row_key (table_id s) (table_epoch s) v) &&
    kv_row_matches s row (planned_range s ps).2 = kv_row_matches s row ps.
Proof.
  intros Hl. unfold planned_range, plan_primary_key_range. rewrite Hidx.
  set (st0 := {| bs_bounds := new_bounds; bs_residual := []; bs_used_range := false |}).
  destruct (collect_list ps st0) as ((Bl & Bu) & S & U);
    [by intros; apply collect_bounds_exact|done|by split|].
  set (st := foldl _ _ _) in *.
  change (state_selects st0) with true in S. cbn [andb] in S. unfold state_selects in S.
  destruct (bs_used_range st); cbn [fst snd].
  - rewrite <- (S : _ = kv_row_matches s row ps). f_equal.
    apply (row_range_between_int _ _ _ _ _ _ a Hv Ha).
    + destruct (b_lower (bs_bounds st)) as [[l ?]|]; [|done]. apply Bl.
    + destruct (b_upper (bs_bounds st)) as [[u ?]|]; [|done].
      rewrite same_int_width_sym. apply Bu.
  - destruct (U eq_refl) as [_ E]. rewrite E in S. change (within (bs_bounds st0)) with true in S.
    rewrite <- (S : _ = kv_row_matches s row ps). unfold row_range.
    rewrite in_prefix_range. rewrite (proj2 (starts_with_spec _ _)); [done|]. by eexists.
Qed.
End PrimaryKeyRange.

(** ** The columns a plan requires *)

Lemma collect_columns_grow (s : TableSchema) (e : DfExpr) : forall needed : gset nat,
  needed ⊆ collect_filter_column_indices s e needed.
Proof.
  induction e; intros needed; cbn [collect_filter_column_indices]; try done; try apply IHe.
  - destruct (column_position s name); set_solver.
  - etrans; [apply IHe1|apply IHe2].
  - etrans; [apply IHe1|]. etrans; [apply IHe2|apply IHe3].
Qed.

Lemma compile_idx_collected (s : TableSchema) (e : DfExpr) (i : nat) :
  compile_filter_column_idx s e = Some i ->
  forall needed : gset nat, i ∈ collect_filter_column_indices s e needed.
Proof.
  induction e; cbn [compile_filter_column_idx collect_filter_column_indices]; try done; auto.
  intros ->. set_solver.
Qed.

Lemma compile_compare_column (s : TableSchema) (lhs rhs : DfExpr) (op : Df.Operator) (p : KvPredicate) :
  compile_kv_compare s lhs op rhs = Some p ->
  exists i, predicate_columns p = [i] /\
    (compile_filter_column_idx s lhs = Some i \/ compile_filter_column_idx s rhs = Some i).
Proof.
  unfold compile_kv_compare. intros H.
  destruct (compile_filter_column_idx s lhs) as [i|] eqn:?, (compile_filter_literal_value rhs) eqn:?,
    (compile_filter_literal_value lhs) eqn:?, (compile_filter_column_idx s rhs) as [j|] eqn:?;
    try done; cbn [mbind option_bind] in H;
    destruct (compile_compare_op _); try done; injection H as <-; eexists; (split; [reflexivity|]); eauto.
Qed.

Lemma compiled_columns (s : TableSchema) (e : DfExpr) : forall (p : KvPredicate) (needed : gset nat) (i : nat),
  compile_kv_predicate s e = Some p -> i ∈ predicate_columns p ->
  i ∈ collect_filter_column_indices s e needed.
Proof.
  induction e as [| |lhs IHl op rhs IHr|e IH|e IH|e IH| | | | | | | |e IHe negated low IHlow high IHhigh|e IH|e IH|];
    intros p needed i; cbn [compile_kv_predicate collect_filter_column_indices]; try discriminate.
  - assert (Hcompare : compile_kv_compare s lhs op rhs = Some p -> i ∈ predicate_columns p ->
      i ∈ collect_filter_column_indices s rhs (collect_filter_column_indices s lhs needed)).
    { intros (j & -> & Hj)%compile_compare_column Hi. apply list_elem_of_singleton in Hi as ->.
      destruct Hj as [Hj|Hj]; [|by apply compile_idx_collected].
      apply (collect_columns_grow s rhs). by apply compile_idx_collected. }
    assert (Hboth : forall mk, mk = And \/ mk = Or ->
      (l ← compile_kv_predicate s lhs; r ← compile_kv_predicate s rhs; Some (mk [l; r])) = Some p ->
      i ∈ predicate_columns p ->
      i ∈ collect_filter_column_indices s rhs (collect_filter_column_indices s lhs needed)).
    { intros mk Hmk. destruct (compile_kv_predicate s lhs) as [pl|] eqn:El; [|discriminate].
      destruct (compile_kv_predicate s rhs) as [pr|] eqn:Er; [|discriminate].
      cbn [mbind option_bind]. intros [= <-] Hi.
      assert (Hi' : i ∈ predicate_columns pl ++ predicate_columns pr)
        by (destruct Hmk as [-> | ->]; cbn [predicate_columns flat_map] in Hi; by rewrite app_nil_r in Hi).
      apply elem_of_app in Hi' as [Hl|Hr]; [|by eapply IHr].
      apply (collect_columns_grow s rhs). by eapply IHl. }
    destruct op; try discriminate; try apply Hcompare; [apply (Hboth And)|apply (Hboth Or)]; auto.
  - destruct (compile_kv_predicate s e) as [pe|] eqn:E; [|discriminate]. intros [= <-] Hi. by eapply IH.
  - destruct (compile_filter_column_idx s e) as [j|] eqn:E; [|discriminate]. intros [= <-] Hi.
    apply list_elem_of_singleton in Hi as ->. by apply compile_idx_collected.
  - destruct (compile_filter_column_idx s e) as [j|] eqn:E; [|discriminate]. intros [= <-] Hi.
    apply list_elem_of_singleton in Hi as ->. by apply compile_idx_collected.
  - destruct (compile_filter_column_idx s e) as [j|] eqn:E; [|discriminate]. cbn [mbind option_bind].
    destruct (compile_filter_literal_value low); [|discriminate].
    destruct (compile_filter_literal_value high); [|discriminate]. intros [= <-] Hi.
    apply list_elem_of_singleton in Hi as ->.
    apply (collect_columns_grow s high), (collect_columns_grow s low). by apply compile_idx_collected.
  - apply IH.
  - apply IH.
Qed.

Lemma filter_columns_collected (s : TableSchema) (filters : list DfExpr) :
  forall (ps : list KvPredicate) (i : nat),
  map_m (compile_kv_predicate s) filters = Some ps -> i ∈ flat_map predicate_columns ps ->
  i ∈ filter_column_indices s filters.
Proof.
  unfold filter_column_indices.
  assert (Hgrow : forall (fs : list DfExpr) (needed : gset nat),
    needed ⊆ foldl (fun needed f => collect_filter_column_indices s f needed) needed fs).
  { induction fs as [|f fs IH]; intros needed; [done|]. cbn [foldl].
    etrans; [apply (collect_columns_grow s f)|apply IH]. }
  intros ps i. rewrite elem_of_sorted_slots. generalize (∅ : gset nat). revert ps.
  induction filters as [|f fs IH]; intros ps needed; cbn [map_m foldl].
  - intros [= <-]. cbn. by rewrite elem_of_nil.
  - destruct (compile_kv_predicate s f) as [p|] eqn:E; [|discriminate]. cbn [mbind option_bind].
    destruct (map_m _ fs) as [qs|] eqn:Eq; [|discriminate]. intros [= <-] Hi.
    cbn [flat_map] in Hi. apply elem_of_app in Hi as [Hi|Hi]; [|by eapply IH].
    apply Hgrow. by eapply compiled_columns.
Qed.

(** The residual filters mention no column the filters do not. *)
Lemma collect_bounds_columns (pk_idx : nat) (p : KvPredicate) : forall (st : BoundsState) (i : nat),
  i ∈ flat_map predicate_columns (bs_residual (collect_primary_key_bounds pk_idx p st)) ->
  i ∈ flat_map predicate_columns (bs_residual st) \/ i ∈ predicate_columns p.
Proof.
  assert (Hpush : forall (st : BoundsState) (p : KvPredicate) (i : nat),
    i ∈ flat_map predicate_columns (bs_residual (push_residual st p)) ->
    i ∈ flat_map predicate_columns (bs_residual st) \/ i ∈ predicate_columns p).
  { intros st q i. cbn [push_residual bs_residual]. rewrite flat_map_app. cbn [flat_map].
    by rewrite app_nil_r, elem_of_app. }
  induction p as [ps IH|ps|p|j op l|j|j|j low high negated] using KvPredicate_nested_ind;
    intros st i; try apply Hpush; cbn [collect_primary_key_bounds].
  - cbn [predicate_columns]. revert st. induction IH as [|p ps Hp _ IH]; intros st; cbn [foldl flat_map]; [by left|].
    intros [H|H]%IH; [|by right; apply elem_of_app; right].
    apply Hp in H as [H|H]; [by left|]. right. apply elem_of_app. by left.
  - destruct (_ && _); [by left|apply Hpush].
  - destruct (_ && _); [by left|apply Hpush].
Qed.

Lemma planned_range_columns (s : TableSchema) (ps : list KvPredicate) (i : nat) :
  i ∈ flat_map predicate_columns (planned_range s ps).2 -> i ∈ flat_map predicate_columns ps.
Proof.
  unfold planned_range, plan_primary_key_range. destruct (column_position s (primary_key s)) as [pk|]; [|done].
  set (st := foldl _ _ _). intros H.
  assert (Hi : i ∈ flat_map predicate_columns (bs_residual st)) by (by destruct (bs_used_range st)).
  revert Hi. subst st. clear H.
  assert (Hall : forall (l : list KvPredicate) (st : BoundsState),
    i ∈ flat_map predicate_columns (bs_residual
          (foldl (fun st p => collect_primary_key_bounds pk p st) st l)) ->
    i ∈ flat_map predicate_columns (bs_residual st) \/ i ∈ flat_map predicate_columns l).
  { induction l as [|p l IH]; intros st; cbn [foldl flat_map]; [by left|].
    intros [H|H]%IH; [|by right; apply elem_of_app; right].
    apply collect_bounds_columns in H as [H|H]; [by left|]. right. apply elem_of_app. by left. }
  intros [H|H]%Hall; [|done]. by apply elem_of_nil in H.
Qed.

Lemma planned_closed (s : TableSchema) (group_expr : list DfExpr) (aggr_expr : list string)
    (input : LogicalPlan) (filters : list DfExpr) (ps : list KvPredicate) (sp : KvScanPlan) :
  collect_aggregate_input_filters input = (filters, Some (Some s)) ->
  map_m (compile_kv_predicate s) filters = Some ps ->
  plan_kv_aggregate_node (Df.Aggregate group_expr aggr_expr input) = Some sp ->
  sp_schema sp = s /\ sp_filters sp = (planned_range s ps).2 /\
  range_start sp = rs_start (planned_range s ps).1 /\ range_end sp = rs_end (planned_range s ps).1 /\
  plan_closed (kv_aggregate_scan_of sp).
Proof.
  intros Hin Hps. cbn [plan_kv_aggregate_node plan_kv_aggregate]. rewrite Hin. cbn [mjoin option_join mbind option_bind].
  rewrite Hps. cbn [mbind option_bind].
  destruct (planned_range s ps) as [range residual] eqn:Er.
  destruct (map_m (compile_filter_column_idx s) group_expr) as [groups|] eqn:Eg; [|discriminate].
  cbn [mbind option_bind].
  destruct (map_m (plan_aggregate_expr s) aggr_expr) as [aggs|] eqn:Ea; [|discriminate].
  cbn [mbind option_bind]. destruct aggs as [|agg aggs]; [discriminate|].
  assert (E : forall (l : list KvAggregateSpec),
    flat_map aggregate_columns (map spec_op l) = flat_map spec_column l).
  { induction l as [|x l IH]; [done|]. cbn [map flat_map]. by rewrite IH. }
  pose proof (E (agg :: aggs)) as E'. clear E. remember (agg :: aggs) as specs. clear Heqspecs agg aggs.
  intros [= <-]. repeat (split; [done|]). unfold plan_closed, kv_aggregate_scan_of.
  cbn [Aggregate.filters group_indices aggregates required_indices sp_filters sp_group_indices
       sp_aggregates sp_required_indices].
  rewrite E'. intros i. rewrite elem_of_sorted_slots, !elem_of_app, !elem_of_union, !elem_of_list_to_set.
  intros [Hi|[Hi|Hi]]; [left; left|left; by right|by right].
  apply (filter_columns_collected s filters ps i Hps), (planned_range_columns s ps i). by rewrite Er.
Qed.

Lemma compiled_filters_match (s : TableSchema) (row : RowMap) (filters : list DfExpr) :
  row_total s row -> forallb positive filters = true -> forall ps : list KvPredicate,
  map_m (compile_kv_predicate s) filters = Some ps ->
  kv_row_matches s row ps = row_matches_datafusion_filters row filters.
Proof.
  intros Ht. induction filters as [|f fs IH]; cbn [forallb map_m]; intros Hp ps.
  - by intros [= <-].
  - apply andb_true_iff in Hp as [Hf Hfs].
    destruct (compile_kv_predicate s f) as [p|] eqn:E; [|discriminate]. cbn [mbind option_bind].
    destruct (map_m _ fs) as [qs|]; [|discriminate]. intros [= <-].
    unfold kv_row_matches, row_matches_datafusion_filters in *. cbn [forallb].
    rewrite (IH Hfs qs eq_refl). f_equal. by apply (compiled_answers s row Ht f p E).
Qed.

(** ** Properties *)

(** C26. A filter compiled for the store agrees with its three-valued evaluation:
    on a stored row the compiled predicate answers what the expression answers
    whenever that is true or false, and without NOT it also rejects the row when
    the expression is NULL. *)
Theorem compiled_filter_agrees (s : TableSchema) (row : RowMap) (e : DfExpr) (p : KvPredicate) :
  row_total s row -> compile_kv_predicate s e = Some p ->
  (forall b, eval_filter_bool row e = Some b -> kv_predicate_matches s row p = b) /\
  (positive e = true ->
     kv_predicate_matches s row p = default false (eval_filter_bool row e)).
Proof. intros Ht Hp. exact (compiled_answers s row Ht e p Hp). Qed.

Definition pd_schema : TableSchema :=
  sample_schema [sample_column 1 "a" DT.Int32; sample_column 2 "n" DT.Int32].
Definition pd_row (a n : ColumnValue) : RowMap := <["a" := a]> (<["n" := n]> ∅).

Lemma pd_row_total (a n : ColumnValue) : row_total pd_schema (pd_row a n).
Proof.
  intros c Hc. unfold pd_schema, sample_schema in Hc. cbn [columns] in Hc.
  apply elem_of_cons in Hc as [-> | Hc]; [by eexists|].
  apply list_elem_of_singleton in Hc as ->. by eexists.
Defined.

Lemma compiled_filter_agrees_witness :
  kv_predicate_matches pd_schema (pd_row (Int32 1) (Int32 7)) (ColumnCompare 1 OpLt (Int32 9)) = true.
Proof.
  apply (compiled_filter_agrees pd_schema (pd_row (Int32 1) (Int32 7))
    (Df.BinaryExpr (Df.Literal (Df.SInt32 (Some 9))) Df.OGt (Df.Column "n"))
    (ColumnCompare 1 OpLt (Int32 9))); [apply pd_row_total|reflexivity|reflexivity].
Defined.

(** NOT is compiled to two-valued negation: [NOT (n > 5)] keeps the rows whose [n]
    is NULL, which SQL and the evaluation on rows reject. *)
Example negated_filter_keeps_null :
  let e := Df.Not (Df.BinaryExpr (Df.Column "n") Df.OGt (Df.Literal (Df.SInt32 (Some 5)))) in
  filter_supported pd_schema e = true /\
  eval_filter_bool (pd_row (Int32 1) Null) e = None /\
  (kv_predicate_matches pd_schema (pd_row (Int32 1) Null) <$> compile_kv_predicate pd_schema e) = Some true.
Proof. vm_compute. done. Qed.

(** [IS TRUE] of anything but a column is claimed as an exact pushdown and then
    evaluated as a value, which a comparison is not: no row passes. *)
Example is_true_of_comparison_rejects_all :
  let cmp := Df.BinaryExpr (Df.Column "n") Df.OGt (Df.Literal (Df.SInt32 (Some 5))) in
  filter_supported pd_schema (Df.IsTrue cmp) = true /\
  eval_filter_bool (pd_row (Int32 1) (Int32 7)) cmp = Some true /\
  row_matches_datafusion_filters (pd_row (Int32 1) (Int32 7)) [Df.IsTrue cmp] = false.
Proof. vm_compute. done. Qed.

(** The text of an aggregate is searched for [count( * )], whatever follows it: the
    FILTER clause of the displayed expression is lost. *)
Example count_filter_clause_ignored :
  plan_aggregate_expr pd_schema "count(*) FILTER (WHERE t.n > Int32(5))" =
    plan_aggregate_expr pd_schema "count(*)".
Proof. vm_compute. done. Qed.

(** C9. The pushdown of an aggregate query reads the right rows: on an integer primary
    key that is compared with literals of its own width, and for filters without NOT, the
    planned primary-key range together with the filters left over accept a row exactly when
    the query's filters do (AND flattened, bounds tightened, both sides of a
    comparison, BETWEEN); and every column the plan uses is required, so the
    projected scans see it. *)
Theorem aggregate_pushdown_exact (s : TableSchema) (group_expr : list DfExpr)
    (aggr_expr : list string) (input : LogicalPlan) (filters : list DfExpr)
    (ps : list KvPredicate) (sp : KvScanPlan) :
  collect_aggregate_input_filters input = (filters, Some (Some s)) ->
  map_m (compile_kv_predicate s) filters = Some ps ->
  plan_kv_aggregate_node (Df.Aggregate group_expr aggr_expr input) = Some sp ->
  plan_closed (kv_aggregate_scan_of sp) /\
  forall (row : RowMap) (pk_idx : nat) (v : ColumnValue) (a : Z),
    column_position s (primary_key s) = Some pk_idx -> row_total s row ->
    row_value s row pk_idx = v -> wf_key v -> int_of_key v = Some a ->
    forallb positive filters = true -> foldr (fun p acc => pk_literals pk_idx v p /\ acc) True ps ->
    range_contains (range_start sp) (range_end sp) (row_key (table_id s) (table_epoch s) v) &&
      kv_row_matches s row (sp_filters sp) = row_matches_datafusion_filters row filters.
Proof.
  intros Hin Hps Hsp. destruct (planned_closed _ _ _ _ _ _ _ Hin Hps Hsp) as (Hs & Hf & Hrs & Hre & Hc).
  split; [done|]. intros row pk_idx v a Hidx Ht Hv Hwf Ha Hpos Hl. rewrite Hf, Hrs, Hre.
  rewrite <- (compiled_filters_match s row filters Ht Hpos ps Hps).
  exact (planned_range_selects s row pk_idx v a Hidx Hv Hwf Ha ps Hl).
Qed.

(** [SELECT count( * ) FROM t WHERE a >= 3 AND 9 > a AND n = 7]. *)
Definition pd_filters : list DfExpr :=
  [Df.BinaryExpr
     (Df.BinaryExpr (Df.Column "a") Df.OGtEq (Df.Literal (Df.SInt32 (Some 3)))) Df.OAnd
     (Df.BinaryExpr (Df.Literal (Df.SInt32 (Some 9))) Df.OGt (Df.Column "a"));
   Df.BinaryExpr (Df.Column "n") Df.OEq (Df.Literal (Df.SInt32 (Some 7)))].
Definition pd_plan : KvScanPlan :=
  {| sp_schema := pd_schema;
     range_start := row_key (table_id pd_schema) (table_epoch pd_schema) (Int32 3);
     range_end := Some (row_key (table_id pd_schema) (table_epoch pd_schema) (Int32 9));
     scan_prefix := Some (row_prefix (table_id pd_schema) (table_epoch pd_schema));
     sp_filters := [ColumnCompare 1 OpEq (Int32 7)]; sp_group_indices := [];
     sp_aggregates := [{| spec_op := CountStar; output_type := DT.Int64 |}];
     sp_required_indices := [0; 1]%nat; sp_projection := KeyValue |}.

Lemma aggregate_pushdown_exact_witness :
  range_contains (range_start pd_plan) (range_end pd_plan)
    (row_key (table_id pd_schema) (table_epoch pd_schema) (Int32 4)) &&
  kv_row_matches pd_schema (pd_row (Int32 4) (Int32 7)) (sp_filters pd_plan) =
  row_matches_datafusion_filters (pd_row (Int32 4) (Int32 7)) pd_filters.
Proof.
  apply (aggregate_pushdown_exact pd_schema [] ["count(*)"]
    (Df.TableScan (Some pd_schema) None pd_filters) pd_filters
    [And [ColumnCompare 0 OpGtEq (Int32 3); ColumnCompare 0 OpLt (Int32 9)];
     ColumnCompare 1 OpEq (Int32 7)] pd_plan) with (pk_idx := 0%nat) (a := 4);
    try reflexivity; [apply pd_row_total|split; vm_compute; congruence|].
  assert (Hw : forall z, 0 <= z < 10 -> wf_key (Int32 z)) by (intros z Hz; unfold wf_key, wf_value, in_signed; lia).
  repeat split; try (intros; split; [apply Hw; lia|reflexivity]); done.
Defined.
