(* ===== verification/Heap.v ===== *)
(** * The bounded heap of the top-n scans

    The candidate heaps of src/src/datafusion_bridge/table_provider_topn.rs, which
    has the same code twice, for decoded and for numeric candidates; [TopN]
    instantiates this section for both.  The heap is a vector whose first element
    is the worst candidate kept; it never holds more than a window's worth.

    Indexing is checked as in the source, [None] standing for a panic, and the
    loops run on fuel: an index going up only shrinks and one going down only
    grows within the vector, so neither runs out ([push_keeps_best] proves both). *)

From stdpp Require Import sorting.
From S2P Require Import Prelude.
Local Open Scope nat_scope.

(** [slice::sort_by]: a stable sort. *)
Definition sort_by {A} (cmp : A -> A -> comparison) (l : list A) : list A :=
  merge_sort (fun a b => cmp a b <> Gt) l.

Section Heap.
Context {A : Type} (cmp : A -> A -> comparison).

Definition is_greater (c : comparison) : bool := match c with Gt => true | _ => false end.
Definition is_less (c : comparison) : bool := match c with Lt => true | _ => false end.

(** [candidate_is_worse(&candidates[i], &candidates[j])]. *)
Definition worse_at (l : list A) (i j : nat) : option bool :=
  a ← l !! i; b ← l !! j; Some (is_greater (cmp a b)).

(** [slice::swap]. *)
Definition swap (l : list A) (i j : nat) : option (list A) :=
  a ← l !! i; b ← l !! j; Some (<[i := b]> (<[j := a]> l)).

Fixpoint sift_up (fuel : nat) (l : list A) (idx : nat) : option (list A) :=
  match fuel with
  | O => None
  | S fuel =>
      if idx =? 0 then Some l
      else
        let parent := (idx - 1) / 2 in
        worse ← worse_at l idx parent;
        if negb worse then Some l
        else l ← swap l idx parent; sift_up fuel l parent
  end.

(** The worst of [idx] and its two children. *)
Definition worst_child (l : list A) (idx : nat) : option nat :=
  let left_ := idx * 2 + 1 in
  let right_ := left_ + 1 in
  worst ← (if left_ <? length l then
             w ← worse_at l left_ idx; Some (if w : bool then left_ else idx)
           else Some idx);
  if right_ <? length l then
    w ← worse_at l right_ worst; Some (if w : bool then right_ else worst)
  else Some worst.

Fixpoint sift_down (fuel : nat) (l : list A) (idx : nat) : option (list A) :=
  match fuel with
  | O => None
  | S fuel =>
      worst ← worst_child l idx;
      if worst =? idx then Some l
      else l ← swap l idx worst; sift_down fuel l worst
  end.

Definition push_candidate (window : nat) (candidates : list A) (candidate : A) : option (list A) :=
  if window =? 0 then Some candidates
  else if length candidates <? window then
    let candidates := candidates ++ [candidate] in
    sift_up (length candidates) candidates (length candidates - 1)
  else
    match candidates with
    | worst :: _ =>
        if negb (is_less (cmp candidate worst)) then Some candidates
        else sift_down (length candidates) (<[0 := candidate]> candidates) 0
    | [] => None
    end.

(** ** Heap order *)

Definition ge_at (l : list A) (i j : nat) : Prop :=
  forall a b, l !! i = Some a -> l !! j = Some b -> cmp a b <> Lt.

Definition parent (j : nat) : nat := (j - 1) / 2.

Definition heap (l : list A) : Prop := forall j, 0 < j -> ge_at l (parent j) j.

Lemma parent_lt (j : nat) : 0 < j -> parent j < j.
Proof. intros Hj. unfold parent. pose proof (Nat.Div0.div_le_upper_bound (j - 1) 2 (j - 1)). lia. Qed.

Lemma parent_child (i j : nat) : 0 < j -> parent j = i <-> j = i * 2 + 1 \/ j = i * 2 + 2.
Proof.
  intros Hj. unfold parent. pose proof (Nat.div_mod_eq (j - 1) 2) as E.
  pose proof (Nat.mod_upper_bound (j - 1) 2). lia.
Qed.

Lemma swap_spec (l : list A) (i j : nat) : i < length l -> j < length l ->
  exists l', swap l i j = Some l' /\ l' ≡ₚ l /\ length l' = length l /\
    forall x, l' !! x = if x =? i then l !! j else if x =? j then l !! i else l !! x.
Proof.
  intros Hi Hj. unfold swap.
  destruct (lookup_lt_is_Some_2 l i Hi) as [a Ha], (lookup_lt_is_Some_2 l j Hj) as [b Hb].
  rewrite Ha, Hb. cbn [mbind option_bind]. eexists. split; [reflexivity|].
  assert (Hl : forall x, <[i:=b]> (<[j:=a]> l) !! x =
    if x =? i then Some b else if x =? j then Some a else l !! x).
  { intros x. destruct (Nat.eqb_spec x i) as [->|Hxi].
    - apply list_lookup_insert_eq. by rewrite length_insert.
    - rewrite list_lookup_insert_ne by done. destruct (Nat.eqb_spec x j) as [->|Hxj].
      + by apply list_lookup_insert_eq.
      + by apply list_lookup_insert_ne. }
  split; [|split; [by rewrite !length_insert|done]].
  apply Permutation_inj. split; [by rewrite !length_insert|].
  exists (fun x => if x =? i then j else if x =? j then i else x). split.
  - intros x y. destruct (Nat.eqb_spec x i), (Nat.eqb_spec x j), (Nat.eqb_spec y i), (Nat.eqb_spec y j); lia.
  - intros x. rewrite Hl. destruct (x =? i); [done|]. by destruct (x =? j).
Qed.
(** ** Sifting restores the heap

    [Q] is where [cmp] is an order, the candidates with comparable values. *)

Context (Q : A -> Prop).
Hypothesis Hanti : forall a b, cmp b a = CompOpp (cmp a b).
Hypothesis Htrans : forall a b c, Q a -> Q b -> Q c -> cmp a b <> Gt -> cmp b c <> Gt -> cmp a c <> Gt.

Lemma ge_trans (a b c : A) : Q a -> Q b -> Q c -> cmp a b <> Lt -> cmp b c <> Lt -> cmp a c <> Lt.
Proof.
  intros Qa Qb Qc H1 H2 H3. apply (Htrans c b a Qc Qb Qa).
  - rewrite Hanti. by destruct (cmp b c).
  - rewrite Hanti. by destruct (cmp a b).
  - rewrite Hanti. by rewrite H3.
Qed.

Lemma ge_refl (a : A) : cmp a a <> Lt.
Proof. intros H. pose proof (Hanti a a) as E. by rewrite H in E. Qed.

Lemma worse_at_spec (l : list A) (i j : nat) : i < length l -> j < length l ->
  exists a b, l !! i = Some a /\ l !! j = Some b /\ worse_at l i j = Some (is_greater (cmp a b)).
Proof.
  intros Hi Hj. unfold worse_at.
  destruct (lookup_lt_is_Some_2 l i Hi) as [a Ha], (lookup_lt_is_Some_2 l j Hj) as [b Hb].
  exists a, b. by rewrite Ha, Hb.
Qed.

Definition up_ok (l : list A) (k : nat) : Prop :=
  (forall j, 0 < j -> j <> k -> ge_at l (parent j) j) /\
  (0 < k -> forall j, 0 < j -> parent j = k -> ge_at l (parent k) j).

Definition down_ok (l : list A) (k : nat) : Prop :=
  (forall j, 0 < j -> parent j <> k -> ge_at l (parent j) j) /\
  (0 < k -> forall j, 0 < j -> parent j = k -> ge_at l (parent k) j).

Lemma swap_up_ok (l l' : list A) (k : nat) (a b : A) : 0 < k -> Forall Q l -> up_ok l k ->
  l !! k = Some a -> l !! parent k = Some b -> cmp a b = Gt ->
  (forall x, l' !! x = if x =? k then l !! parent k else if x =? parent k then l !! k else l !! x) ->
  up_ok l' (parent k).
Proof.
  intros Hk HQ [H1 H2] Ha Hb Hab Hsw. pose proof (parent_lt k Hk) as Hp.
  pose proof (proj1 (Forall_lookup Q l) HQ) as Hl. split.
  - intros j Hj Hne x y Hx Hy. pose proof (parent_lt j Hj). rewrite Hsw in Hx, Hy.
    destruct (Nat.eqb_spec j k) as [->|Hjk].
    + rewrite Nat.eqb_refl in Hx. destruct (Nat.eqb_spec (parent k) k); [lia|]. 
      rewrite Ha in Hx. rewrite Hb in Hy. injection Hx as <-. injection Hy as <-. by rewrite Hab.
    + destruct (Nat.eqb_spec j (parent k)); [lia|]. destruct (Nat.eqb_spec (parent j) k) as [E|].
      * by apply (H2 Hk j Hj E).
      * destruct (Nat.eqb_spec (parent j) (parent k)) as [E|].
        -- rewrite Ha in Hx. injection Hx as <-.
           apply (ge_trans a b y); [by eapply Hl..|by rewrite Hab|].
           apply (H1 j Hj Hjk b y); [by rewrite E|done].
        -- by apply (H1 j Hj Hjk).
  - intros Hpk j Hj Ej x y Hx Hy. pose proof (parent_lt (parent k) Hpk). rewrite Hsw in Hx, Hy.
    destruct (Nat.eqb_spec (parent (parent k)) k); [lia|].
    destruct (Nat.eqb_spec (parent (parent k)) (parent k)); [lia|].
    destruct (Nat.eqb_spec j k) as [->|Hjk].
    + apply (H1 (parent k) Hpk ltac:(lia)); congruence.
    + destruct (Nat.eqb_spec j (parent k)); [pose proof (parent_lt j Hj); lia|].
      apply (ge_trans x b y); [by eapply Hl..| |].
      * apply (H1 (parent k) Hpk ltac:(lia)); congruence.
      * apply (H1 j Hj Hjk); congruence.
Qed.

Lemma sift_up_heap (fuel : nat) : forall (l : list A) (k : nat),
  k < fuel -> k < length l -> Forall Q l -> up_ok l k ->
  exists l', sift_up fuel l k = Some l' /\ l' ≡ₚ l /\ heap l'.
Proof.
  induction fuel as [|fuel IH]; intros l k Hf Hk HQ Hok; [lia|]. cbn [sift_up].
  destruct (Nat.eqb_spec k 0) as [->|Hk0].
  - exists l. split; [done|]. split; [done|]. intros j Hj. apply (proj1 Hok); lia.
  - assert (Hpos : 0 < k) by lia. pose proof (parent_lt k Hpos) as Hp. fold (parent k).
    destruct (worse_at_spec l k (parent k)) as (a & b & Ha & Hb & ->); [done|lia|].
    cbn [mbind option_bind]. destruct (cmp a b) eqn:Hab; cbn [is_greater negb];
      try (exists l; split; [done|]; split; [done|]; intros j Hj;
           destruct (decide (j = k)) as [->|]; [|by apply (proj1 Hok)];
           intros x y Hx Hy; rewrite Hb in Hx; rewrite Ha in Hy; injection Hx as <-; injection Hy as <-;
           rewrite Hanti, Hab; done).
    destruct (swap_spec l k (parent k)) as (l' & -> & Hperm & Hlen & Hsw); [done|lia|].
    cbn [mbind option_bind]. destruct (IH l' (parent k)) as (l'' & H'' & Hp'' & Hh).
    + lia.
    + rewrite Hlen. lia.
    + by rewrite Hperm.
    + by apply (swap_up_ok l l' k a b).
    + exists l''. split; [done|]. split; [by rewrite Hp''|done].
Qed.

Lemma worst_child_spec (l : list A) (k : nat) : k < length l -> Forall Q l ->
  exists w, worst_child l k = Some w /\ w < length l /\
    (w = k \/ 0 < w /\ parent w = k /\ exists a b, l !! w = Some a /\ l !! k = Some b /\ cmp a b = Gt) /\
    ge_at l w k /\ forall j, 0 < j -> parent j = k -> ge_at l w j.
Proof.
  intros Hk HQ. pose proof (proj1 (Forall_lookup Q l) HQ) as Hl. unfold worst_child.
  assert (Hleft : exists w,
    (if k * 2 + 1 <? length l then
       w ← worse_at l (k * 2 + 1) k; Some (if w : bool then k * 2 + 1 else k) else Some k) = Some w /\
    w < length l /\
    (w = k \/ w = k * 2 + 1 /\ exists a b, l !! w = Some a /\ l !! k = Some b /\ cmp a b = Gt) /\
    ge_at l w k /\ ge_at l w (k * 2 + 1)).
  { destruct (Nat.ltb_spec (k * 2 + 1) (length l)) as [Hlt|Hge].
    - destruct (worse_at_spec l (k * 2 + 1) k) as (a & b & Ha & Hb & ->); [done..|]. cbn [mbind option_bind].
      destruct (cmp a b) eqn:Hab; cbn [is_greater];
        [exists k|exists k|exists (k * 2 + 1)]; (split; [done|]); (split; [done|]).
      1,2: split; [by left|]; split; intros x y Hx Hy; simplify_eq; [apply ge_refl|];
        rewrite Hanti, Hab; done.
      split; [right; eauto 6|]. split; intros x y Hx Hy; simplify_eq; [by rewrite Hab|apply ge_refl].
    - exists k. split; [done|]. split; [done|]. split; [by left|]. split; intros x y Hx Hy.
      + simplify_eq. apply ge_refl.
      + apply lookup_lt_Some in Hy. lia. }
  destruct Hleft as (w & -> & Hw & Hcase & Hwk & Hwl). cbn [mbind option_bind].
  destruct (Nat.ltb_spec (k * 2 + 1 + 1) (length l)) as [Hlt|Hge].
  - destruct (worse_at_spec l (k * 2 + 1 + 1) w) as (a & b & Ha & Hb & ->); [done..|]. cbn [mbind option_bind].
    destruct (lookup_lt_is_Some_2 l k Hk) as [z Hz].
    destruct (cmp a b) eqn:Hab; cbn [is_greater];
      [exists w|exists w|exists (k * 2 + 1 + 1)]; (split; [done|]); (split; [done|]).
    1,2: split; [destruct Hcase as [?|[? ?]]; [by left|right; split; [lia|split; [apply parent_child; lia|done]]]|];
      split; [done|]; intros j Hj Ej; apply (parent_child k j Hj) in Ej as [->| ->]; [done|];
      intros x y Hx Hy; replace (k * 2 + 2) with (k * 2 + 1 + 1) in Hy by lia; simplify_eq;
      rewrite Hanti, Hab; done.
    assert (Hbz : cmp b z <> Lt) by (by apply Hwk).
    assert (Haz : cmp a z = Gt).
    { destruct Hcase as [->|(-> & a' & z' & Ha' & Hz' & Hgt)]; [congruence|].
      rewrite Hb in Ha'. rewrite Hz in Hz'. injection Ha' as <-. injection Hz' as <-.
      assert (Hge : cmp a z <> Lt) by (apply (ge_trans a b z); [by eapply Hl..|by rewrite Hab|done]).
      destruct (cmp a z) eqn:E; [|done|done]. exfalso.
      apply (Htrans a z b); [by eapply Hl..|by rewrite E|rewrite Hanti, Hgt; done|done]. }
    split; [right; split; [lia|]; split; [apply parent_child; lia|eauto 6]|].
    split; [intros x y Hx Hy; simplify_eq; by rewrite Haz|].
    intros j Hj Ej; apply (parent_child k j Hj) in Ej as [->| ->]; intros x y Hx Hy.
    + rewrite Ha in Hx. injection Hx as <-.
      apply (ge_trans a b y); [by eapply Hl..|by rewrite Hab|by apply Hwl].
    + replace (k * 2 + 2) with (k * 2 + 1 + 1) in Hy by lia. simplify_eq. apply ge_refl.
  - exists w. split; [done|]. split; [done|]. split; [|split; [done|]].
    + destruct Hcase as [?|[? ?]]; [by left|right; split; [lia|split; [apply parent_child; lia|done]]].
    + intros j Hj Ej; apply (parent_child k j Hj) in Ej as [->| ->]; [done|].
      intros x y _ Hy. apply lookup_lt_Some in Hy. lia.
Qed.

Lemma swap_down_ok (l l' : list A) (k w : nat) (a b : A) : 0 < w -> parent w = k -> Forall Q l ->
  down_ok l k -> l !! w = Some a -> l !! k = Some b -> cmp a b = Gt ->
  (forall j, 0 < j -> parent j = k -> ge_at l w j) ->
  (forall x, l' !! x = if x =? k then l !! w else if x =? w then l !! k else l !! x) ->
  down_ok l' w.
Proof.
  intros Hw Hp HQ [H1 H2] Ha Hb Hab Hworst Hsw. pose proof (parent_lt w Hw) as Hkw. split.
  - intros j Hj Hne x y Hx Hy. pose proof (parent_lt j Hj). rewrite Hsw in Hx, Hy.
    destruct (Nat.eqb_spec j k) as [->|Hjk].
    + destruct (Nat.eqb_spec (parent k) k); [lia|]. destruct (Nat.eqb_spec (parent k) w); [lia|].
      by apply (H2 Hj w Hw Hp).
    + destruct (Nat.eqb_spec (parent j) k) as [Ej|].
      * destruct (Nat.eqb_spec j w) as [->|].
        -- rewrite Ha in Hx. rewrite Hb in Hy. injection Hx as <-. injection Hy as <-. by rewrite Hab.
        -- by apply (Hworst j Hj Ej).
      * destruct (Nat.eqb_spec (parent j) w); [lia|]. destruct (Nat.eqb_spec j w) as [->|]; [lia|].
        by apply (H1 j Hj).
  - intros _ j Hj Ej x y Hx Hy. pose proof (parent_lt j Hj). rewrite Hsw in Hx, Hy. rewrite Hp in Hx.
    rewrite Nat.eqb_refl in Hx. destruct (Nat.eqb_spec j k); [lia|]. destruct (Nat.eqb_spec j w); [lia|].
    apply (H1 j Hj ltac:(lia)); [by rewrite Ej|done].
Qed.

Lemma sift_down_heap (fuel : nat) : forall (l : list A) (k : nat),
  length l - k <= fuel -> k < length l -> Forall Q l -> down_ok l k ->
  exists l', sift_down fuel l k = Some l' /\ l' ≡ₚ l /\ heap l'.
Proof.
  induction fuel as [|fuel IH]; intros l k Hf Hk HQ Hok; [lia|]. cbn [sift_down].
  destruct (worst_child_spec l k Hk HQ) as (w & -> & Hw & Hcase & Hwk & Hch). cbn [mbind option_bind].
  destruct (Nat.eqb_spec w k) as [->|Hne].
  - exists l. split; [done|]. split; [done|]. intros j Hj.
    destruct (decide (parent j = k)) as [Ej|]; [|by apply (proj1 Hok)]. rewrite Ej. by apply Hch.
  - destruct Hcase as [|(Hw0 & Hp & a & b & Ha & Hb & Hab)]; [done|]. pose proof (parent_lt w Hw0).
    destruct (swap_spec l k w Hk Hw) as (l' & -> & Hperm & Hlen & Hsw). cbn [mbind option_bind].
    destruct (IH l' w) as (l'' & H'' & Hp'' & Hh).
    + rewrite Hlen. lia.
    + by rewrite Hlen.
    + by rewrite Hperm.
    + by apply (swap_down_ok l l' k w a b).
    + exists l''. split; [done|]. split; [by rewrite Hp''|done].
Qed.

Lemma heap_root_worst (l : list A) (r : A) : heap l -> Forall Q l -> l !! 0 = Some r ->
  forall i x, l !! i = Some x -> cmp r x <> Lt.
Proof.
  intros Hh HQ Hr. pose proof (proj1 (Forall_lookup Q l) HQ) as Hl.
  induction i as [i IH] using lt_wf_ind. intros x Hx. destruct (decide (i = 0)) as [->|Hi].
  - simplify_eq. apply ge_refl.
  - pose proof (parent_lt i ltac:(lia)) as Hp.
    destruct (lookup_lt_is_Some_2 l (parent i)) as [y Hy]; [apply lookup_lt_Some in Hx; lia|].
    apply (ge_trans r y x); [by eapply Hl..|by apply (IH (parent i))|].
    apply (Hh i ltac:(lia)); done.
Qed.

(** ** Pushing keeps the best *)

(** [l] holds a window's worth of the candidates [cs], none worse than one left out. *)
Definition keeps_best (window : nat) (cs l : list A) : Prop :=
  exists dropped, cs ≡ₚ l ++ dropped /\ length l = Nat.min window (length cs) /\ heap l /\
    forall x y, x ∈ l -> y ∈ dropped -> cmp x y <> Gt.

Lemma heap_snoc (l : list A) (c : A) : heap l -> up_ok (l ++ [c]) (length l).
Proof.
  intros Hh. split.
  - intros j Hj Hne x y Hx Hy. pose proof (parent_lt j Hj).
    assert (j < length l) by (apply lookup_lt_Some in Hy; rewrite length_app in Hy; cbn in Hy; lia).
    rewrite lookup_app_l in Hx, Hy by lia. by apply (Hh j Hj).
  - intros _ j Hj Ej x y _ Hy. pose proof (parent_lt j Hj).
    apply lookup_lt_Some in Hy. rewrite length_app in Hy. cbn in Hy. lia.
Qed.

Lemma push_keeps_best (window : nat) (cs l : list A) (c : A) :
  Forall Q cs -> Q c -> keeps_best window cs l ->
  exists l', push_candidate window l c = Some l' /\ keeps_best window (cs ++ [c]) l'.
Proof.
  intros HQ Qc (d & Hperm & Hlen & Hh & Hbest).
  assert (HQl : Forall Q l) by (rewrite Hperm in HQ; by apply Forall_app in HQ as [? _]).
  assert (HQd : Forall Q d) by (rewrite Hperm in HQ; by apply Forall_app in HQ as [_ ?]).
  assert (Hcs : length cs = length l + length d) by (rewrite Hperm; apply length_app).
  unfold push_candidate. destruct (Nat.eqb_spec window 0) as [->|Hw0].
  { exists l. split; [done|]. exists (d ++ [c]). split; [by rewrite Hperm, app_assoc|].
    split; [rewrite Hlen; cbn; lia|]. split; [done|]. intros x y Hx _. apply length_zero_iff_nil in Hlen.
    rewrite Hlen in Hx. by apply elem_of_nil in Hx. }
  destruct (Nat.ltb_spec (length l) window) as [Hlt|Hge].
  - assert (d = []) as -> by (apply nil_length_inv; lia).
    destruct (sift_up_heap (length (l ++ [c])) (l ++ [c]) (length l)) as (l' & Hs & Hp & Hh').
    + rewrite length_app. cbn. lia.
    + rewrite length_app. cbn. lia.
    + by apply Forall_app; split; [|constructor].
    + by apply heap_snoc.
    + exists l'. split; [rewrite <- Hs; f_equal; rewrite length_app; cbn; lia|]. exists [].
      rewrite app_nil_r in Hperm |- *. split; [by rewrite Hp, Hperm|].
      split; [rewrite (Permutation_length Hp), !length_app; cbn; lia|]. split; [done|].
      intros x y _ Hy. by apply elem_of_nil in Hy.
  - destruct l as [|r l]; [cbn in Hge; lia|].
    pose proof (heap_root_worst _ r Hh HQl eq_refl) as Hroot. apply Forall_cons in HQl as [Qr HQl'].
    destruct (cmp c r) eqn:Hcr; cbn [is_less negb].
    1,3: exists (r :: l); split; [done|]; exists (d ++ [c]); split; [by rewrite Hperm, app_assoc|];
      split; [rewrite length_app; cbn in *; lia|]; split; [done|];
      intros x y Hx Hy; apply elem_of_app in Hy as [Hy|Hy]; [by apply Hbest|];
      apply list_elem_of_singleton in Hy as ->; apply list_elem_of_lookup in Hx as [i Hi];
      pose proof (Hroot i x Hi) as Hrx; intros Hxc;
      apply (ge_trans c r x); try done; [by eapply (proj1 (Forall_lookup Q (r :: l)) (Forall_cons_2 _ _ _ Qr HQl'))|by rewrite Hcr|by rewrite Hanti, Hxc].
    cbn [list_insert insert]. destruct (sift_down_heap (length (r :: l)) (c :: l) 0) as (l' & Hs & Hp & Hh').
    + cbn. lia.
    + cbn. lia.
    + by constructor.
    + split; [|lia]. intros j Hj Hne x y Hx Hy. destruct j as [|j]; [lia|].
      destruct (parent (S j)) as [|q] eqn:E; [done|]. apply (Hh (S j) Hj); [by rewrite E|done].
    + exists l'. split; [exact Hs|]. exists (r :: d). split.
      { rewrite Hp, Hperm, <- Permutation_cons_append, <- app_comm_cons. constructor.
        apply Permutation_middle. }
      split; [rewrite (Permutation_length Hp), length_app; cbn in *; lia|]. split; [done|].
      assert (Hcx : forall x, x ∈ c :: l -> Q x /\ cmp x r <> Gt).
      { intros x [->|Hx]%elem_of_cons; [by rewrite Hcr|]. split; [by apply (proj1 (Forall_forall Q l) HQl')|].
        apply list_elem_of_lookup in Hx as [i Hi]. pose proof (Hroot (S i) x Hi) as Hrx.
        rewrite Hanti. by destruct (cmp r x). }
      intros x y Hx Hy. rewrite Hp in Hx. destruct (Hcx x Hx) as [Qx Hxr].
      apply elem_of_cons in Hy as [->|Hy]; [done|].
      apply (Htrans x r y); [done|done|by apply (proj1 (Forall_forall Q d) HQd)|done|]. apply Hbest; [set_solver|done].
Qed.

(** The scan's pushes, in its order. *)
Definition push_all (window : nat) (l cs : list A) : option (list A) :=
  foldl (fun acc c => l ← acc; push_candidate window l c) (Some l) cs.

Lemma push_all_keeps_best (window : nat) (cs : list A) : Forall Q cs ->
  exists l, push_all window [] cs = Some l /\ keeps_best window cs l.
Proof.
  induction cs as [|c cs IH] using rev_ind; intros HQ.
  - exists []. split; [done|]. exists []. split; [done|]. split; [cbn; lia|].
    split; [intros j _ x y Hx; by rewrite lookup_nil in Hx|]. intros x y Hx. by apply elem_of_nil in Hx.
  - apply Forall_app in HQ as [HQ Hc]. apply Forall_cons in Hc as [Qc _].
    destruct (IH HQ) as (l & Hl & Hk). unfold push_all in *. rewrite foldl_app, Hl.
    cbn [foldl mbind option_bind]. by apply push_keeps_best.
Qed.

(** ** Sorting the window *)

Definition sorted_by (l : list A) : Prop :=
  forall i j a b, l !! i = Some a -> l !! j = Some b -> i < j -> cmp a b <> Gt.

(** Where equal candidates are the same, a sorted list is determined by its elements. *)
Lemma sorted_unique (l1 : list A) : forall l2, l1 ≡ₚ l2 -> sorted_by l1 -> sorted_by l2 ->
  (forall a b, a ∈ l1 -> b ∈ l1 -> cmp a b = Eq -> a = b) -> l1 = l2.
Proof.
  induction l1 as [|a l1 IH]; intros l2 Hp H1 H2 Heq; [by apply Permutation_nil in Hp|].
  destruct l2 as [|b l2]; [by symmetry in Hp; apply Permutation_nil in Hp|].
  assert (Hab : a = b).
  { assert (Hb : b ∈ a :: l1) by (rewrite Hp; set_solver).
    assert (Ha : a ∈ b :: l2) by (rewrite <- Hp; set_solver).
    apply Heq; [set_solver|done|].
    assert (L : forall (x : A) (l : list A) y, sorted_by (x :: l) -> y ∈ x :: l -> y = x \/ cmp x y <> Gt).
    { intros x l y Hs [->|Hy]%elem_of_cons; [by left|]. right. apply list_elem_of_lookup in Hy as [i Hi].
      apply (Hs 0 (S i)); [done|done|lia]. }
    assert (Hrefl : forall x, cmp x x = Eq).
    { intros x. pose proof (Hanti x x). by destruct (cmp x x). }
    destruct (L a l1 b H1 Hb) as [->|G1]; [apply Hrefl|].
    destruct (L b l2 a H2 Ha) as [->|G2]; [apply Hrefl|].
    rewrite Hanti in G2. by destruct (cmp a b). }
  subst b. f_equal. apply IH.
  - by apply Permutation_cons_inv in Hp.
  - intros i j x y Hx Hy Hij. apply (H1 (S i) (S j)); [done|done|lia].
  - intros i j x y Hx Hy Hij. apply (H2 (S i) (S j)); [done|done|lia].
  - intros x y Hx Hy. apply Heq; set_solver.
Qed.

Lemma sorted_by_app (l1 l2 : list A) : sorted_by l1 -> sorted_by l2 ->
  (forall x y, x ∈ l1 -> y ∈ l2 -> cmp x y <> Gt) -> sorted_by (l1 ++ l2).
Proof.
  intros H1 H2 H12 i j a b Ha Hb Hij.
  apply lookup_app_Some in Ha as [Ha|[Hi Ha]], Hb as [Hb|[Hj Hb]].
  - by apply (H1 i j).
  - apply H12; apply list_elem_of_lookup; eauto.
  - apply lookup_lt_Some in Hb. lia.
  - apply (H2 (i - length l1) (j - length l1)); [done|done|lia].
Qed.

Lemma sorted_by_cons (a : A) (l : list A) :
  (forall x, x ∈ l -> cmp a x <> Gt) -> sorted_by l -> sorted_by (a :: l).
Proof.
  intros Ha Hl. apply (sorted_by_app [a] l); [|done|].
  - intros i j x y Hx Hy Hij. apply lookup_lt_Some in Hy. cbn in Hy. lia.
  - intros x y ->%list_elem_of_singleton. apply Ha.
Qed.

Lemma sorted_insert (l : list A) (x : A) : Forall Q l -> Q x -> sorted_by l ->
  exists l', l' ≡ₚ x :: l /\ sorted_by l'.
Proof.
  induction l as [|a l IH]; intros HQ Qx Hs.
  - exists [x]. split; [done|]. apply sorted_by_cons; [by intros y Hy%elem_of_nil|done].
  - apply Forall_cons in HQ as [Qa HQ].
    assert (Hal : forall y, y ∈ l -> cmp a y <> Gt).
    { intros y Hy. apply list_elem_of_lookup in Hy as [i Hi]. apply (Hs 0 (S i)); [done|done|lia]. }
    assert (Hsl : sorted_by l).
    { intros i j b c Hb Hc Hij. apply (Hs (S i) (S j)); [done|done|lia]. }
    assert (Hcase : cmp x a <> Gt \/ cmp a x <> Gt).
    { rewrite (Hanti x a). destruct (cmp x a); by (left + right). }
    destruct Hcase as [Hxa|Hax].
    + exists (x :: a :: l). split; [done|]. apply sorted_by_cons; [|done].
      intros y [->|Hy]%elem_of_cons; [done|].
      apply (Htrans x a y); [done|done|by apply (proj1 (Forall_forall Q l) HQ)|done|by apply Hal].
    + destruct (IH HQ Qx Hsl) as (l' & Hp & Hs'). exists (a :: l'). split; [by rewrite Hp, perm_swap|].
      apply sorted_by_cons; [|done]. intros y Hy. rewrite Hp in Hy.
      apply elem_of_cons in Hy as [->|Hy]; [done|by apply Hal].
Qed.

Lemma sorted_exists (l : list A) : Forall Q l -> exists l', l' ≡ₚ l /\ sorted_by l'.
Proof.
  induction 1 as [|x l Qx HQ (l' & Hp & Hs)].
  - exists []. split; [done|]. intros i j a b Ha. by rewrite lookup_nil in Ha.
  - destruct (sorted_insert l' x) as (l'' & Hp' & Hs'); [by rewrite Hp|done|done|].
    exists l''. split; [by rewrite Hp', Hp|done].
Qed.

(** The first rows of the sorted candidates are the sorted window. *)
Lemma window_sorted (window : nat) (cs l best all : list A) : Forall Q cs ->
  keeps_best window cs l -> (forall a b, a ∈ cs -> b ∈ cs -> cmp a b = Eq -> a = b) ->
  best ≡ₚ l -> sorted_by best -> all ≡ₚ cs -> sorted_by all ->
  best = take window all.
Proof.
  intros HQ (d & Hperm & Hlen & _ & Hbest) Heq Hlb Hsb Hca Hsa.
  assert (HQd : Forall Q d) by (rewrite Hperm in HQ; by apply Forall_app in HQ as [_ ?]).
  destruct (sorted_exists d HQd) as (rest & Hrest & Hsr).
  assert (E : best ++ rest = all).
  { apply sorted_unique; [by rewrite Hlb, Hrest, Hca, Hperm| |done|].
    - apply sorted_by_app; [done|done|]. intros x y Hx Hy. apply Hbest; [by rewrite <- Hlb|by rewrite <- Hrest].
    - intros a b Ha Hb. apply Heq; rewrite Hperm, <- Hlb, <- Hrest; done. }
  assert (Hlbest : length best = Nat.min window (length cs)) by (by rewrite Hlb).
  assert (Hlr : length all = length cs) by (by rewrite Hca).
  rewrite <- E in Hlr |- *. rewrite length_app in Hlr.
  destruct (Nat.le_gt_cases window (length cs)).
  - rewrite take_app_length'; [done|lia].
  - assert (rest = []) as -> by (apply nil_length_inv; lia). rewrite app_nil_r, take_ge by lia. done.
Qed.

(** A locally sorted list is sorted. *)
Lemma sorted_by_local (l : list A) : Forall Q l ->
  Sorted (fun a b => cmp a b <> Gt) l -> sorted_by l.
Proof.
  induction l as [|a l IH]; intros HQ Hs; [intros i j x y Hx; by rewrite lookup_nil in Hx|].
  apply Forall_cons in HQ as [Qa HQ]. apply Sorted_inv in Hs as [Hs Hd].
  specialize (IH HQ Hs). apply sorted_by_cons; [|done].
  destruct l as [|b l]; [by intros x Hx%elem_of_nil|]. apply HdRel_inv in Hd.
  apply Forall_cons in HQ as [Qb HQ]. intros x [->|Hx]%elem_of_cons; [done|].
  apply (Htrans a b x); [done|done|by apply (proj1 (Forall_forall Q l) HQ)|done|].
  apply list_elem_of_lookup in Hx as [i Hi]. apply (IH 0 (S i)); [done|done|lia].
Qed.

Lemma sort_by_sorted (l : list A) : Forall Q l -> sorted_by (sort_by cmp l).
Proof.
  intros HQ. unfold sort_by. apply sorted_by_local; [by rewrite merge_sort_Permutation|].
  apply Sorted_merge_sort. intros a b. rewrite (Hanti a b). destruct (cmp a b); by (left + right).
Qed.
End Heap.

(** Sorting by a comparison of images is sorting the images. *)
Lemma sorted_by_map {A B} (f : B -> A) (cmp : A -> A -> comparison) (l : list B) :
  sorted_by (fun a b => cmp (f a) (f b)) l -> sorted_by cmp (map f l).
Proof.
  intros H i j a b Ha Hb Hij. rewrite list_lookup_fmap in Ha, Hb.
  destruct (l !! i) eqn:Ei, (l !! j) eqn:Ej; try done. injection Ha as <-. injection Hb as <-.
  by apply (H i j).
Qed.
