(* ===== verification/CatalogStore.v ===== *)
(** * The catalog

    [CatalogStore] of src/src/catalog/store.rs and legacy.rs: databases, schemas,
    tables, indexes and views as documents in the key-value store, with a name entry
    that leads to the identifier and an identifier entry that holds the document.

    An operation is a computation of [Cat]: it reads and writes the store, and what it
    wrote before an error stays written.  The store is any implementation of
    [KvStoreApi]; [does] reasons about a computation by the rows of the store alone. *)

From stdpp Require Import pretty sorting.
From S2P Require Import Prelude BTree Types Text Mode DataTypes LegacyCodec KvStore Stores Heap Json Catalog.

(** ** Computations on the store *)

Definition Cat (W A : Type) : Type := W -> PgWireResult A * W.

#[export] Instance cat_ret W : MRet (Cat W) := fun A a w => (Ok a, w).
#[export] Instance cat_bind W : MBind (Cat W) := fun A B k m w =>
  match m w with
  | (Ok a, w) => k a w
  | (Err e, w) => (Err e, w)
  | (Panic, w) => (Panic, w)
  | (OutOfFuel, w) => (OutOfFuel, w)
  end.

Definition cat_lift {W A} (r : PgWireResult A) : Cat W A := fun w => (r, w).
Definition cat_fail {W A} (code message : string) : Cat W A := cat_lift (user_error code message).

Section Operations.
Context {W T : Type} `{KvStoreApi W T, SerdeJson}.

(** [self.store.get(..)], [put], [delete], [scan_prefix], an error with code XX000. *)
Definition cat_get (k : key) : Cat W (option (list byte)) := fun w => (coded "XX000" (ks_get w k), w).
Definition cat_changes (f : W -> result string W) : Cat W unit := fun w =>
  match f w with
  | Ok w' => (Ok tt, w')
  | r => (coded "XX000" (r ≫= fun _ => Ok tt), w)
  end.
Definition cat_put (k : key) (v : list byte) : Cat W unit := cat_changes (ks_put k v).
Definition cat_delete (k : key) : Cat W unit := cat_changes (ks_delete k).
Definition cat_scan_prefix (p : key) : Cat W (list kvrow) := fun w => (coded "XX000" (ks_scan_prefix w p), w).

(** ** Identifiers and documents (legacy.rs) *)

(** [allocate_id]; the sum wraps in a release build. *)
Definition allocate_id (k : key) : Cat W Z :=
  current ← cat_get k;
  let id := match current with
            | Some bytes => if (length bytes =? 4)%nat then from_be bytes else 1
            | None => 1
            end in
  _ ← cat_put k (to_be 4 (id + 1));
  mret id.

Definition decode_u32 (bytes : list byte) (field : string) : PgWireResult Z :=
  if (length bytes =? 4)%nat then Ok (from_be bytes)
  else user_error "XX000" ("catalog " +:+ field +:+ " is malformed").

Definition write_database (d : DatabaseCatalog) : Cat W unit :=
  payload ← cat_lift (encode_database_catalog d);
  _ ← cat_put (database_by_id_key (db_id d)) payload;
  cat_put (database_by_name_key (db_name d)) (to_be 4 (db_id d)).

Definition write_schema (s : SchemaCatalog) : Cat W unit :=
  payload ← cat_lift (encode_schema_catalog s);
  _ ← cat_put (schema_by_id_key (sc_id s)) payload;
  cat_put (schema_by_name_key (sc_database_id s) (sc_name s)) (to_be 4 (sc_id s)).

Definition write_index (i : IndexCatalog) : Cat W unit :=
  payload ← cat_lift (encode_index_catalog i);
  _ ← cat_put (index_by_id_key (ix_id i)) payload;
  _ ← cat_put (index_by_name_key (ix_database_id i) (ix_schema_id i) (ix_name i)) (to_be 4 (ix_id i));
  cat_put (index_by_table_key (ix_table_id i) (ix_id i)) (to_be 4 (ix_id i)).

Definition write_view (v : ViewCatalog) : Cat W unit :=
  payload ← cat_lift (encode_view_catalog v);
  _ ← cat_put (view_by_id_key (vw_id v)) payload;
  cat_put (view_by_name_key (vw_database_id v) (vw_schema_id v) (vw_name v)) (to_be 4 (vw_id v)).

Definition drop_index_by_id (i : IndexCatalog) : Cat W unit :=
  _ ← cat_delete (index_by_id_key (ix_id i));
  _ ← cat_delete (index_by_name_key (ix_database_id i) (ix_schema_id i) (ix_name i));
  cat_delete (index_by_table_key (ix_table_id i) (ix_id i)).

(** ** Bootstrap *)

Definition ensure_bootstrap : Cat W unit :=
  existing ← cat_get (database_by_name_key DEFAULT_DATABASE_NAME);
  match existing with
  | Some _ => mret tt
  | None =>
      _ ← cat_put NEXT_DATABASE_ID_KEY (to_be 4 2);
      _ ← cat_put NEXT_SCHEMA_ID_KEY (to_be 4 2);
      _ ← cat_put NEXT_TABLE_ID_KEY (to_be 4 1);
      _ ← cat_put NEXT_INDEX_ID_KEY (to_be 4 1);
      _ ← cat_put NEXT_VIEW_ID_KEY (to_be 4 1);
      _ ← write_database {| db_id := 1; db_name := DEFAULT_DATABASE_NAME |};
      write_schema {| sc_id := 1; sc_database_id := 1; sc_name := DEFAULT_SCHEMA_NAME |}
  end.

Context (utf8_error : list byte -> string).

Definition compat_mode : Cat W (option GatewayMode) :=
  bytes ← cat_get COMPAT_MODE_KEY;
  match bytes with
  | None => mret None
  | Some bytes =>
      value ← cat_lift (match from_utf8 bytes with
                        | Some value => Ok value
                        | None => user_error "XX000" ("catalog compat mode is malformed: " +:+ utf8_error bytes)
                        end);
      match parse_mode value with
      | Some mode => mret (Some mode)
      | None => cat_fail "XX000" ("catalog compat mode '" +:+ value +:+ "' is not supported")
      end
  end.

Definition ensure_bootstrap_for_mode (mode : GatewayMode) : Cat W unit :=
  _ ← ensure_bootstrap;
  existing ← compat_mode;
  match existing with
  | Some existing =>
      if bool_decide (existing = mode) then mret tt
      else cat_fail "XX000" ("catalog was created in " +:+ mode_as_str existing +:+
                             " mode and cannot be opened in " +:+ mode_as_str mode +:+ " mode")
  | None => cat_put COMPAT_MODE_KEY (as_bytes (mode_as_str mode))
  end.

(** ** Lookups *)

(** The identifier under a name entry, the document it leads to, and what the document
    says; no name entry is no object, but a name entry without a document an error. *)
Definition lookup_named {A} (name_key : key) (id_key : Z -> key) (what : string)
    (decode : list byte -> PgWireResult A) : Cat W (option A) :=
  id_bytes ← cat_get name_key;
  match id_bytes with
  | None => mret None
  | Some id_bytes =>
      id ← cat_lift (decode_u32 id_bytes (what +:+ " id"));
      payload ← cat_get (id_key id);
      match payload with
      | None => cat_fail "XX000" ("catalog " +:+ what +:+ " payload missing")
      | Some payload => a ← cat_lift (decode payload); mret (Some a)
      end
  end.

Definition get_database (database_name : string) : Cat W (option DatabaseCatalog) :=
  _ ← ensure_bootstrap;
  lookup_named (database_by_name_key database_name) database_by_id_key "database" decode_database_catalog.

Definition get_schema (database_id : Z) (schema_name : string) : Cat W (option SchemaCatalog) :=
  _ ← ensure_bootstrap;
  lookup_named (schema_by_name_key database_id schema_name) schema_by_id_key "schema" decode_schema_catalog.

Definition get_index (database_id schema_id : Z) (index_name : string) : Cat W (option IndexCatalog) :=
  _ ← ensure_bootstrap;
  lookup_named (index_by_name_key database_id schema_id index_name) index_by_id_key "index" decode_index_catalog.

(** The database, or the database and the schema, that a statement names. *)
Definition existing_database (database_name : string) : Cat W DatabaseCatalog :=
  database ← get_database database_name;
  cat_lift (ok_or (PgError "3D000" ("database '" +:+ database_name +:+ "' does not exist")) database).
Definition existing_schema (database_id : Z) (schema_name : string) : Cat W SchemaCatalog :=
  schema ← get_schema database_id schema_name;
  cat_lift (ok_or (PgError "3F000" ("schema '" +:+ schema_name +:+ "' does not exist")) schema).

(** Runs [k] on the database and the schema, when both exist. *)
Definition within {A} (database_name schema_name : string)
    (k : DatabaseCatalog -> SchemaCatalog -> Cat W (option A)) : Cat W (option A) :=
  database ← get_database database_name;
  match database with
  | None => mret None
  | Some database =>
      schema ← get_schema (db_id database) schema_name;
      match schema with
      | None => mret None
      | Some schema => k database schema
      end
  end.

Definition is_default (database_name schema_name : string) : bool :=
  bool_decide (database_name = DEFAULT_DATABASE_NAME) && bool_decide (schema_name = DEFAULT_SCHEMA_NAME).

Definition legacy_schema_key (table_name : string) : key := as_bytes (schema_key table_name).

Definition load_legacy_default_table (table_name : string) : Cat W (option TableCatalog) :=
  payload ← cat_get (legacy_schema_key table_name);
  match payload with
  | None => mret None
  | Some payload => t ← cat_lift (decode_table_catalog payload); mret (Some t)
  end.

Definition load_table (database_name schema_name table_name : string) : Cat W (option TableCatalog) :=
  _ ← ensure_bootstrap;
  within database_name schema_name (fun database schema =>
    let name_key := table_by_name_key (db_id database) (sc_id schema) table_name in
    id_bytes ← cat_get name_key;
    match id_bytes with
    | None =>
        if is_default database_name schema_name then load_legacy_default_table table_name else mret None
    | Some id_bytes =>
        id ← cat_lift (decode_u32 id_bytes "table id");
        payload ← cat_get (table_by_id_key id);
        match payload with
        | None => cat_fail "XX000" "catalog table payload missing"
        | Some payload => t ← cat_lift (decode_table_catalog payload); mret (Some t)
        end
    end).

Definition load_view (database_name schema_name view_name : string) : Cat W (option ViewCatalog) :=
  _ ← ensure_bootstrap;
  within database_name schema_name (fun database schema =>
    lookup_named (view_by_name_key (db_id database) (sc_id schema) view_name) view_by_id_key "view"
      decode_view_catalog).

(** ** Databases and schemas *)

Definition create_database (database_name : string) (if_not_exists : bool) : Cat W DatabaseCatalog :=
  _ ← ensure_bootstrap;
  existing ← get_database database_name;
  match existing with
  | Some existing =>
      if if_not_exists then mret existing
      else cat_fail "42P04" ("database '" +:+ database_name +:+ "' already exists")
  | None =>
      database_id ← allocate_id NEXT_DATABASE_ID_KEY;
      let database := {| db_id := database_id; db_name := database_name |} in
      _ ← write_database database;
      schema_id ← allocate_id NEXT_SCHEMA_ID_KEY;
      _ ← write_schema {| sc_id := schema_id; sc_database_id := database_id; sc_name := DEFAULT_SCHEMA_NAME |};
      mret database
  end.

Definition create_schema (database_name schema_name : string) (if_not_exists : bool) : Cat W SchemaCatalog :=
  _ ← ensure_bootstrap;
  database ← existing_database database_name;
  existing ← get_schema (db_id database) schema_name;
  match existing with
  | Some existing =>
      if if_not_exists then mret existing
      else cat_fail "42P06" ("schema '" +:+ schema_name +:+ "' already exists")
  | None =>
      schema_id ← allocate_id NEXT_SCHEMA_ID_KEY;
      let schema := {| sc_id := schema_id; sc_database_id := db_id database; sc_name := schema_name |} in
      _ ← write_schema schema;
      mret schema
  end.

Definition allocate_table_id : Cat W Z := _ ← ensure_bootstrap; allocate_id NEXT_TABLE_ID_KEY.

(** Every document under a prefix, decoded. *)
Definition scan_documents {A} (p : key) (decode : list byte -> PgWireResult A) : Cat W (list A) :=
  entries ← cat_scan_prefix p;
  cat_lift (map_m (fun entry : kvrow => decode entry.2) entries).

(** [left.cmp(right)] on strings. *)
Definition string_cmp (a b : string) : comparison := bytes_cmp (as_bytes a) (as_bytes b).

Definition list_databases : Cat W (list DatabaseCatalog) :=
  _ ← ensure_bootstrap;
  databases ← scan_documents (as_bytes "__catalog__/databases/by-id/") decode_database_catalog;
  mret (sort_by (fun a b => string_cmp (db_name a) (db_name b)) databases).

Definition list_schemas (database_name : string) : Cat W (list SchemaCatalog) :=
  _ ← ensure_bootstrap;
  database ← get_database database_name;
  match database with
  | None => mret []
  | Some database =>
      schemas ← scan_documents (as_bytes "__catalog__/schemas/by-id/") decode_schema_catalog;
      mret (sort_by (fun a b => string_cmp (sc_name a) (sc_name b))
              (List.filter (fun s => sc_database_id s =? db_id database) schemas))
  end.

Definition drop_schema (database_name schema_name : string) : Cat W (option SchemaCatalog) :=
  _ ← ensure_bootstrap;
  within database_name schema_name (fun database schema =>
    _ ← cat_delete (schema_by_id_key (sc_id schema));
    _ ← cat_delete (schema_by_name_key (db_id database) schema_name);
    mret (Some schema)).

Definition drop_database (database_name : string) : Cat W (option DatabaseCatalog) :=
  _ ← ensure_bootstrap;
  database ← get_database database_name;
  match database with
  | None => mret None
  | Some database =>
      _ ← cat_delete (database_by_id_key (db_id database));
      _ ← cat_delete (database_by_name_key database_name);
      mret (Some database)
  end.

(** ** Tables *)

(** The rest of [store_table], once the database and the schema are found. *)
Definition write_table (database_name schema_name : string) (database_id schema_id : Z) (schema : TableSchema)
    : Cat W unit :=
  let schema := normalize_descriptor schema in
  payload ← cat_lift (encode_table_catalog
    {| tc_database_id := database_id; tc_schema_id := schema_id; tc_schema_name := schema_name;
       tc_table_name := table_name schema; tc_schema := schema |});
  _ ← cat_put (table_by_id_key (table_id schema)) payload;
  _ ← cat_put (table_by_name_key database_id schema_id (table_name schema)) (to_be 4 (table_id schema));
  if is_default database_name schema_name then
    legacy ← cat_lift (encode_legacy_table_schema schema);
    cat_put (legacy_schema_key (table_name schema)) legacy
  else mret tt.

Definition store_table (database_name schema_name : string) (schema : TableSchema) : Cat W unit :=
  _ ← ensure_bootstrap;
  database ← existing_database database_name;
  schema_meta ← existing_schema (db_id database) schema_name;
  write_table database_name schema_name (db_id database) (sc_id schema_meta) schema.

(** The tables of the first layout that the catalog does not know. *)
Definition append_legacy_default_tables (tables : list TableCatalog) : Cat W (list TableCatalog) :=
  entries ← cat_scan_prefix (as_bytes SCHEMA_PREFIX);
  fold_m (fun (tables : list TableCatalog) (entry : kvrow) =>
    table ← cat_lift (decode_table_catalog entry.2);
    if negb (tc_database_id table =? 1) || negb (bool_decide (tc_schema_name table = DEFAULT_SCHEMA_NAME)) then
      mret tables
    else if existsb (fun existing =>
              (table_id (tc_schema existing) =? table_id (tc_schema table)) ||
              bool_decide (tc_table_name existing = tc_table_name table)) tables then mret tables
    else mret (tables ++ [table])) tables entries.

Definition list_tables (database_name : string) : Cat W (list TableCatalog) :=
  _ ← ensure_bootstrap;
  database ← get_database database_name;
  match database with
  | None => mret []
  | Some database =>
      tables ← scan_documents (as_bytes "__catalog__/tables/by-id/") decode_table_catalog;
      let tables := List.filter (fun t => tc_database_id t =? db_id database) tables in
      if bool_decide (database_name = DEFAULT_DATABASE_NAME) then append_legacy_default_tables tables
      else mret tables
  end.

Definition bump_table_epoch (database_name schema_name table_name : string) : Cat W TableCatalog :=
  table ← load_table database_name schema_name table_name;
  table ← cat_lift (ok_or (PgError "42P01" ("table '" +:+ table_name +:+ "' does not exist")) table);
  let s := tc_schema table in
  let s := {| Types.table_name := Types.table_name s; table_id := table_id s;
              schema_version := Z.max (schema_version s) 1;
              table_epoch := Z.max (u64_saturating_add (table_epoch s) 1) 1; primary_key := primary_key s;
              check_constraints := check_constraints s; unique_constraints := unique_constraints s;
              foreign_keys := foreign_keys s; columns := columns s |} in
  let table := {| tc_database_id := tc_database_id table; tc_schema_id := tc_schema_id table;
                  tc_schema_name := tc_schema_name table; tc_table_name := tc_table_name table;
                  tc_schema := s |} in
  _ ← store_table database_name schema_name s;
  mret table.

Definition rename_table (database_name schema_name old_table_name new_table_name : string) : Cat W TableCatalog :=
  _ ← ensure_bootstrap;
  database ← existing_database database_name;
  schema_meta ← existing_schema (db_id database) schema_name;
  taken ← load_table database_name schema_name new_table_name;
  match taken with
  | Some _ => cat_fail "42P07" ("table '" +:+ new_table_name +:+ "' already exists")
  | None =>
      table ← load_table database_name schema_name old_table_name;
      table ← cat_lift (ok_or (PgError "42P01" ("table '" +:+ old_table_name +:+ "' does not exist")) table);
      _ ← cat_delete (table_by_name_key (db_id database) (sc_id schema_meta) old_table_name);
      _ ← (if is_default database_name schema_name then cat_delete (legacy_schema_key old_table_name)
           else mret tt);
      let s := renamed new_table_name (tc_schema table) in
      _ ← store_table database_name schema_name s;
      mret {| tc_database_id := tc_database_id table; tc_schema_id := tc_schema_id table;
              tc_schema_name := tc_schema_name table; tc_table_name := new_table_name; tc_schema := s |}
  end.

(** ** Indexes *)

Definition list_indexes_for_table (table_id : Z) : Cat W (list IndexCatalog) :=
  _ ← ensure_bootstrap;
  entries ← cat_scan_prefix (index_by_table_prefix table_id);
  indexes ← map_m (fun entry : kvrow =>
    id ← cat_lift (decode_u32 entry.2 "index id");
    payload ← cat_get (index_by_id_key id);
    match payload with
    | None => cat_fail "XX000" "catalog index payload missing"
    | Some payload => cat_lift (decode_index_catalog payload)
    end) entries;
  mret (sort_by (fun a b => string_cmp (ix_name a) (ix_name b)) indexes).

Definition create_index (database_name schema_name table_name index_name : string) (column_names : list string)
    (unique if_not_exists : bool) : Cat W (option IndexCatalog) :=
  _ ← ensure_bootstrap;
  table ← load_table database_name schema_name table_name;
  table ← cat_lift (ok_or (PgError "42P01" ("table '" +:+ table_name +:+ "' does not exist")) table);
  existing ← get_index (tc_database_id table) (tc_schema_id table) index_name;
  match existing with
  | Some _ =>
      if if_not_exists then mret None
      else cat_fail "42P07" ("relation '" +:+ index_name +:+ "' already exists")
  | None =>
      match column_names with
      | [] => cat_fail "42601" "CREATE INDEX requires at least one column"
      | column_name :: _ =>
          index_id ← allocate_id NEXT_INDEX_ID_KEY;
          let index := {| ix_id := index_id; ix_database_id := tc_database_id table;
                          ix_schema_id := tc_schema_id table; ix_table_id := table_id (tc_schema table);
                          ix_schema_name := schema_name; ix_table_name := table_name; ix_name := index_name;
                          ix_column_name := column_name; ix_column_names := column_names;
                          ix_unique := unique |} in
          _ ← write_index index;
          mret (Some index)
      end
  end.

Definition drop_index (database_id schema_id : Z) (index_name : string) : Cat W (option IndexCatalog) :=
  _ ← ensure_bootstrap;
  index ← get_index database_id schema_id index_name;
  match index with
  | None => mret None
  | Some index => _ ← drop_index_by_id index; mret (Some index)
  end.

Definition drop_table (database_name schema_name table_name : string) : Cat W (option TableCatalog) :=
  _ ← ensure_bootstrap;
  table ← load_table database_name schema_name table_name;
  match table with
  | None => mret None
  | Some table =>
      _ ← cat_delete (table_by_id_key (table_id (tc_schema table)));
      _ ← cat_delete (table_by_name_key (tc_database_id table) (tc_schema_id table) table_name);
      indexes ← list_indexes_for_table (table_id (tc_schema table));
      _ ← fold_m (fun _ index => drop_index_by_id index) tt indexes;
      _ ← (if is_default database_name schema_name then cat_delete (legacy_schema_key table_name) else mret tt);
      mret (Some table)
  end.

(** ** Views *)

Definition store_view (database_name schema_name view_name definition : string) (or_replace if_not_exists : bool)
    : Cat W (option ViewCatalog) :=
  _ ← ensure_bootstrap;
  database ← existing_database database_name;
  schema ← existing_schema (db_id database) schema_name;
  taken ← load_table database_name schema_name view_name;
  match taken with
  | Some _ => cat_fail "42P07" ("relation '" +:+ view_name +:+ "' already exists")
  | None =>
      existing ← load_view database_name schema_name view_name;
      match existing with
      | Some existing =>
          if if_not_exists then mret None
          else if negb or_replace then cat_fail "42P07" ("view '" +:+ view_name +:+ "' already exists")
          else
            let view := {| vw_id := vw_id existing; vw_database_id := vw_database_id existing;
                           vw_schema_id := vw_schema_id existing; vw_schema_name := vw_schema_name existing;
                           vw_name := vw_name existing; vw_definition := definition |} in
            _ ← write_view view;
            mret (Some view)
      | None =>
          view_id ← allocate_id NEXT_VIEW_ID_KEY;
          let view := {| vw_id := view_id; vw_database_id := db_id database; vw_schema_id := sc_id schema;
                         vw_schema_name := schema_name; vw_name := view_name; vw_definition := definition |} in
          _ ← write_view view;
          mret (Some view)
      end
  end.

Definition list_views (database_name : string) : Cat W (list ViewCatalog) :=
  _ ← ensure_bootstrap;
  database ← get_database database_name;
  match database with
  | None => mret []
  | Some database =>
      views ← scan_documents (as_bytes "__catalog__/views/by-id/") decode_view_catalog;
      mret (sort_by (fun a b =>
              match string_cmp (vw_schema_name a) (vw_schema_name b) with
              | Eq => string_cmp (vw_name a) (vw_name b)
              | c => c
              end) (List.filter (fun v => vw_database_id v =? db_id database) views))
  end.

Definition drop_view (database_name schema_name view_name : string) : Cat W (option ViewCatalog) :=
  _ ← ensure_bootstrap;
  view ← load_view database_name schema_name view_name;
  match view with
  | None => mret None
  | Some view =>
      _ ← cat_delete (view_by_id_key (vw_id view));
      _ ← cat_delete (view_by_name_key (vw_database_id view) (vw_schema_id view) view_name);
      mret (Some view)
  end.
End Operations.
