(* ===== verification/CatalogLogic.v ===== *)
(** * Reasoning about the catalog

    [wp] is the weakest precondition of a computation on the rows of a store: what
    holds of the result and of the rows it leaves, whichever store implements the
    contract.  A [Family] is one kind of catalog object, kept as documents under
    identifier keys and identifiers under name keys; [family_ok] says that the two
    agree, and the lemmas of this file that every way the catalog changes a family
    keeps it so. *)

From stdpp Require Import pretty.
From S2P Require Import Prelude BTree Float Types Values Text KeyCodec LegacyCodec KvStore Stores Json Catalog CatalogStore.

(** ** Weakest preconditions *)

Section Wp.
Context {W T : Type} `{KvStoreLaws W T}.

(** [m] ends as [Q] says on every store whose rows are [M]. *)
Definition wp {A : Type} (m : Cat W A) (M : kvmap) (Q : PgWireResult A -> kvmap -> Prop) : Prop :=
  exists r M', Q r M' /\ forall w, store_rows w = M -> exists w', m w = (r, w') /\ store_rows w' = M'.

Lemma wp_mono {A : Type} (m : Cat W A) (M : kvmap) (Q Q' : PgWireResult A -> kvmap -> Prop) :
  wp m M Q -> (forall r M', Q r M' -> Q' r M') -> wp m M Q'.
Proof. intros (r & M' & HQ & Hm) HQQ. exists r, M'. split; [by apply HQQ|done]. Qed.

(** An outcome passed on by [?]. *)
Definition raises {A B} (r : PgWireResult A) : PgWireResult B :=
  match r with Ok _ => OutOfFuel | Err e => Err e | Panic => Panic | OutOfFuel => OutOfFuel end.

Lemma wp_bind {A B : Type} (m : Cat W A) (k : A -> Cat W B) (M : kvmap) (Q : PgWireResult B -> kvmap -> Prop) :
  wp m M (fun r M' => match r with Ok a => wp (k a) M' Q | r => Q (raises r) M' end) -> wp (m ≫= k) M Q.
Proof.
  intros (r & M' & HQ & Hm). destruct r as [a|e| |].
  - destruct HQ as (r & M'' & HQ & Hk). exists r, M''. split; [done|]. intros w Hw.
    destruct (Hm w Hw) as (w' & Em & Hw'). destruct (Hk w' Hw') as (w'' & Ek & Hw''). exists w''.
    unfold mbind, cat_bind. by rewrite Em.
  - exists (Err e), M'. split; [done|]. intros w Hw. destruct (Hm w Hw) as (w' & Em & Hw'). exists w'.
    unfold mbind, cat_bind. by rewrite Em.
  - exists Panic, M'. split; [done|]. intros w Hw. destruct (Hm w Hw) as (w' & Em & Hw'). exists w'.
    unfold mbind, cat_bind. by rewrite Em.
  - exists OutOfFuel, M'. split; [done|]. intros w Hw. destruct (Hm w Hw) as (w' & Em & Hw'). exists w'.
    unfold mbind, cat_bind. by rewrite Em.
Qed.

Lemma wp_ret {A : Type} (a : A) (M : kvmap) (Q : PgWireResult A -> kvmap -> Prop) : Q (Ok a) M -> wp (mret a) M Q.
Proof. intros HQ. exists (Ok a), M. split; [done|]. intros w Hw. by exists w. Qed.

Lemma wp_lift {A : Type} (r : PgWireResult A) (M : kvmap) (Q : PgWireResult A -> kvmap -> Prop) : Q r M -> wp (cat_lift r) M Q.
Proof. intros HQ. exists r, M. split; [done|]. intros w Hw. by exists w. Qed.

Lemma wp_fail {A : Type} (code message : string) (M : kvmap) (Q : PgWireResult A -> kvmap -> Prop) :
  Q (user_error code message) M -> wp (cat_fail code message) M Q.
Proof. apply wp_lift. Qed.

Lemma wp_get (k : key) (M : kvmap) (Q : PgWireResult (option (list byte)) -> kvmap -> Prop) : Q (Ok (M !! k)) M -> wp (cat_get k) M Q.
Proof.
  intros HQ. exists (Ok (M !! k)), M. split; [done|]. intros w Hw. exists w. split; [|done].
  unfold cat_get. by rewrite law_ks_get, Hw.
Qed.

Lemma wp_put (k : key) (v : list byte) (M : kvmap) (Q : PgWireResult unit -> kvmap -> Prop) : Q (Ok tt) (<[k := v]> M) -> wp (cat_put k v) M Q.
Proof.
  intros HQ. exists (Ok tt), (<[k := v]> M). split; [done|]. intros w Hw.
  destruct (law_ks_put k v w) as (w' & E & Hw'). exists w'. unfold cat_put, cat_changes. rewrite E.
  split; [done|]. by rewrite Hw', Hw.
Qed.

Lemma wp_delete (k : key) (M : kvmap) (Q : PgWireResult unit -> kvmap -> Prop) : Q (Ok tt) (delete k M) -> wp (cat_delete k) M Q.
Proof.
  intros HQ. exists (Ok tt), (delete k M). split; [done|]. intros w Hw.
  destruct (law_ks_delete k w) as (w' & E & Hw'). exists w'. unfold cat_delete, cat_changes. rewrite E.
  split; [done|]. by rewrite Hw', Hw.
Qed.

Lemma wp_scan (p : key) (M : kvmap) (Q : PgWireResult (list kvrow) -> kvmap -> Prop) :
  Q (Ok (store_scan_prefix M p)) M -> wp (cat_scan_prefix p) M Q.
Proof.
  intros HQ. exists (Ok (store_scan_prefix M p)), M. split; [done|]. intros w Hw. exists w. split; [|done].
  unfold cat_scan_prefix. by rewrite law_ks_scan_prefix, Hw.
Qed.

(** A loop over a list keeps an invariant of the rows. *)
Lemma wp_fold {A B : Type} (f : B -> A -> Cat W B) (P : kvmap -> Prop) (l : list A) : forall b (M : kvmap),
  (forall b a (M : kvmap), a ∈ l -> P M -> wp (f b a) M (fun r M' => settles r /\ P M')) ->
  P M -> wp (fold_m f b l) M (fun r M' => settles r /\ P M').
Proof.
  induction l as [|a l IH]; intros b M Hf HP; cbn [fold_m]; [by apply wp_ret|].
  apply wp_bind. eapply wp_mono; [apply Hf; [constructor|done]|]. intros r M' [Hr HP'].
  destruct r as [b'| | |]; [|done..]. apply IH; [|done]. intros b2 a2 M2 Ha2. apply Hf. by constructor.
Qed.

(** Reads only: the result, and the rows as they were. *)
Lemma wp_map_read {A B : Type} (f : A -> Cat W B) (R : A -> B -> Prop) (M : kvmap) (l : list A) :
  (forall a, a ∈ l -> forall Q : PgWireResult B -> kvmap -> Prop,
    (forall b, R a b -> Q (Ok b) M) -> wp (f a) M Q) ->
  forall Q : PgWireResult (list B) -> kvmap -> Prop,
  (forall bs, Forall2 R l bs -> Q (Ok bs) M) -> wp (map_m f l) M Q.
Proof.
  induction l as [|a l IH]; intros Hf Q HQ; cbn [map_m]; [by apply wp_ret, HQ|].
  apply wp_bind, Hf; [constructor|]. intros b Hb. apply wp_bind, IH; [intros a' Ha'; apply Hf; by constructor|].
  intros bs Hbs. apply wp_ret, HQ. by constructor.
Qed.

Lemma wp_allocate (k : key) (c : Z) (M : kvmap) (Q : PgWireResult Z -> kvmap -> Prop) : in_unsigned 32 c ->
  M !! k = Some (to_be 4 c) -> Q (Ok c) (<[k := to_be 4 (c + 1)]> M) -> wp (allocate_id k) M Q.
Proof.
  intros Hc Hk HQ. unfold allocate_id. apply wp_bind, wp_get. rewrite Hk.
  assert (from_be (to_be 4 c) = c) as E. { rewrite from_be_to_be. apply Z.mod_small. exact Hc. }
  rewrite length_to_be, E. cbn [Nat.eqb]. apply wp_bind, wp_put. by apply wp_ret.
Qed.
End Wp.

(** ** Keys *)

(** The two texts differ where both have a byte. *)
Fixpoint diverge (a b : list byte) : bool :=
  match a, b with
  | x :: a, y :: b => if decide (x = y) then diverge a b else true
  | _, _ => false
  end.

Lemma diverge_ne a : forall b r s, diverge a b = true -> a ++ r <> b ++ s.
Proof.
  induction a as [|x a IH]; intros [|y b] r s; try done. cbn [diverge app].
  case_decide as Hxy; intros Hd E; injection E as Ex E; [by apply (IH b r s)|done].
Qed.

Lemma digits_slash (d1 d2 a b : list byte) : forallb is_digit d1 = true -> forallb is_digit d2 = true ->
  d1 ++ x2f :: a = d2 ++ x2f :: b -> d1 = d2 /\ a = b.
Proof.
  revert d2. induction d1 as [|x d1 IH]; intros [|y d2]; cbn; intros H1 H2 E.
  - by injection E.
  - by injection E as <- E.
  - by injection E as -> E.
  - injection E as <- E. apply andb_true_iff in H1 as [_ H1], H2 as [_ H2].
    destruct (IH d2 H1 H2 E) as [-> ->]. done.
Qed.

Lemma pretty_inj z1 z2 : 0 <= z1 -> 0 <= z2 -> as_bytes (pretty z1) = as_bytes (pretty z2) -> z1 = z2.
Proof. intros _ _ E. apply (inj pretty). by rewrite <- (of_as_bytes (pretty z1)), E, of_as_bytes. Qed.

Lemma scoped_name_inj d1 s1 n1 d2 s2 n2 : in_unsigned 32 d1 -> in_unsigned 32 d2 -> in_unsigned 32 s1 ->
  in_unsigned 32 s2 -> scoped_name d1 s1 n1 = scoped_name d2 s2 n2 -> d1 = d2 /\ s1 = s2 /\ n1 = n2.
Proof.
  unfold in_unsigned. intros Hd1 Hd2 Hs1 Hs2 E. unfold scoped_name in E.
  destruct (pretty_digits d1) as [D1 _]; [lia|]. destruct (pretty_digits d2) as [D2 _]; [lia|].
  destruct (pretty_digits s1) as [S1 _]; [lia|]. destruct (pretty_digits s2) as [S2 _]; [lia|].
  apply digits_slash in E as [Ed E]; [|done..]. apply digits_slash in E as [Es En]; [|done..].
  apply pretty_inj in Ed; [|lia..]. apply pretty_inj in Es; [|lia..].
  repeat split; [done..|]. by rewrite <- (of_as_bytes n1), En, of_as_bytes.
Qed.

Lemma id_bytes_inj a b : in_unsigned 32 a -> in_unsigned 32 b -> to_be 4 a = to_be 4 b -> a = b.
Proof. apply (to_be_inj 4). Qed.

(** ** Families of objects *)

(** One kind of object: its identifier and name key, and its document. *)
Record Family : Type := {
  fam_object : Type;
  fam_id : fam_object -> Z;
  fam_name : fam_object -> list byte;
  fam_id_prefix : key;
  fam_name_prefix : key;
  fam_wf : fam_object -> Prop;
  fam_encode : fam_object -> PgWireResult (list byte);
  fam_decode : list byte -> PgWireResult fam_object;
}.

Class FamilyLaws (F : Family) : Prop := {
  fam_wf_id : forall o, fam_wf F o -> in_unsigned 32 (fam_id F o);
  fam_roundtrip : forall o, fam_wf F o -> exists b, fam_encode F o = Ok b /\ fam_decode F b = Ok o;
  fam_apart : diverge (fam_id_prefix F) (fam_name_prefix F) = true;
}.

Definition fam_id_key (F : Family) (id : Z) : key := fam_id_prefix F ++ as_bytes (pretty id).
Definition fam_name_key (F : Family) (name : list byte) : key := fam_name_prefix F ++ name.

Section Families.
Context (F : Family) `{!FamilyLaws F}.
Implicit Type o : fam_object F.

(** [o] is in the catalog: its document and its name entry are there. *)
Definition member (M : kvmap) o : Prop :=
  fam_wf F o /\ (exists b, fam_encode F o = Ok b /\ M !! fam_id_key F (fam_id F o) = Some b) /\
  M !! fam_name_key F (fam_name F o) = Some (to_be 4 (fam_id F o)).

(** Documents and name entries are those of the members, whose identifiers are below
    the counter. *)
Definition family_ok (M : kvmap) (next : Z) : Prop :=
  (forall k v, M !! (fam_id_prefix F ++ k) = Some v ->
    exists o, member M o /\ k = as_bytes (pretty (fam_id F o)) /\ 1 <= fam_id F o < next) /\
  (forall n v, M !! fam_name_key F n = Some v -> exists o, member M o /\ n = fam_name F o).

Definition agree (M M' : kvmap) : Prop :=
  (forall k, M' !! (fam_id_prefix F ++ k) = M !! (fam_id_prefix F ++ k)) /\
  (forall n, M' !! (fam_name_prefix F ++ n) = M !! (fam_name_prefix F ++ n)).

Lemma member_agree M M' o : agree M M' -> member M o <-> member M' o.
Proof. intros [Hi Hn]. unfold member, fam_id_key, fam_name_key. by rewrite Hi, Hn. Qed.

Lemma family_agree M M' next : agree M M' -> family_ok M next -> family_ok M' next.
Proof.
  intros Ha [Hids Hnames]. pose proof Ha as [Ai An]. split.
  - intros k v Hk. rewrite Ai in Hk. destruct (Hids k v Hk) as (o & Ho & R). exists o. by rewrite <- (member_agree M M' o Ha).
  - intros n v Hk. unfold fam_name_key in Hk. rewrite An in Hk. destruct (Hnames n v Hk) as (o & Ho & R). exists o. by rewrite <- (member_agree M M' o Ha).
Qed.

Lemma family_mono M next next' : next <= next' -> family_ok M next -> family_ok M next'.
Proof.
  intros Hle [Hids Hnames]. split; [|done]. intros k v Hk. destruct (Hids k v Hk) as (o & Ho & Ek & Hr).
  exists o. split; [done|]. split; [done|lia].
Qed.

Lemma id_name_ne a n : fam_id_prefix F ++ a <> fam_name_key F n.
Proof. apply diverge_ne, fam_apart. Qed.

Lemma fam_id_inj o1 o2 : fam_wf F o1 -> fam_wf F o2 ->
  fam_id_key F (fam_id F o1) = fam_id_key F (fam_id F o2) -> fam_id F o1 = fam_id F o2.
Proof.
  intros H1%fam_wf_id H2%fam_wf_id E. unfold in_unsigned in *. unfold fam_id_key in E. apply app_inv_head in E.
  apply pretty_inj in E; [done|lia..].
Qed.

Lemma member_same_id M o1 o2 : member M o1 -> member M o2 -> fam_id F o1 = fam_id F o2 -> o1 = o2.
Proof.
  intros (W1 & (b1 & E1 & L1) & _) (W2 & (b2 & E2 & L2) & _) Hid. rewrite Hid, L2 in L1. injection L1 as ->.
  destruct (fam_roundtrip o1 W1) as (b & E & D1). rewrite E1 in E. injection E as <-.
  destruct (fam_roundtrip o2 W2) as (b' & E & D2). rewrite E2 in E. injection E as <-. congruence.
Qed.

Lemma member_same_name M o1 o2 : member M o1 -> member M o2 -> fam_name F o1 = fam_name F o2 -> o1 = o2.
Proof.
  intros H1 H2 Hn. apply (member_same_id M); [done..|]. destruct H1 as (W1 & _ & L1), H2 as (W2 & _ & L2).
  rewrite Hn, L2 in L1. apply (inj Some) in L1. symmetry. apply id_bytes_inj; [by apply fam_wf_id..|done].
Qed.

(** *** Writing an object *)

Definition with_object (o : fam_object F) (b : list byte) (M : kvmap) : kvmap :=
  <[fam_name_key F (fam_name F o) := to_be 4 (fam_id F o)]> (<[fam_id_key F (fam_id F o) := b]> M).

(** The slot of [o] is free, or holds an object with its identifier and name. *)
Definition slot_ok (M : kvmap) o : Prop :=
  forall o', member M o' -> fam_id F o' = fam_id F o <-> fam_name F o' = fam_name F o.

Lemma with_object_member M o b : fam_wf F o -> fam_encode F o = Ok b -> slot_ok M o -> forall o',
  member (with_object o b M) o' <-> o' = o \/ (member M o' /\ fam_id F o' <> fam_id F o).
Proof.
  intros Hw Hb Hslot o'. unfold with_object.
  assert (forall k : list byte, fam_name_key F k <> fam_id_key F (fam_id F o)) as Hne.
  { intros k E. by apply (id_name_ne (as_bytes (pretty (fam_id F o))) k). }
  split.
  - intros Hm. destruct (decide (fam_id F o' = fam_id F o)) as [Hid|Hid].
    + left. destruct Hm as (Hw' & (b' & Hb' & L) & _). rewrite Hid in L.
      rewrite lookup_insert_ne in L by (intros E; by apply (Hne (fam_name F o))). rewrite lookup_insert_eq in L.
      injection L as <-. destruct (fam_roundtrip o Hw) as (c & Ec & Dc), (fam_roundtrip o' Hw') as (c' & Ec' & Dc').
      congruence.
    + right. split; [|done]. destruct Hm as (Hw' & (b' & Hb' & L) & N).
      rewrite lookup_insert_ne in L by (intros E; symmetry in E; by apply (id_name_ne (as_bytes (pretty (fam_id F o'))) (fam_name F o))).
      rewrite lookup_insert_ne in L by (intros E; apply Hid; symmetry; by apply fam_id_inj).
      split; [done|]. split; [by exists b'|].
      destruct (decide (fam_name F o = fam_name F o')) as [Hn|Hn].
      * rewrite Hn, lookup_insert_eq in N. apply (inj Some) in N. exfalso. apply Hid. symmetry.
        apply id_bytes_inj; [by apply fam_wf_id..|done].
      * rewrite lookup_insert_ne in N by (intros E; by apply Hn, (app_inv_head (fam_name_prefix F))).
        by rewrite lookup_insert_ne in N by (intros E; by apply (Hne (fam_name F o'))).
  - intros [->|[(Hw' & (b' & Hb' & L) & N) Hid]].
    + split; [done|]. split; [|by rewrite lookup_insert_eq]. exists b. split; [done|].
      rewrite lookup_insert_ne by (intros E; by apply (Hne (fam_name F o))). by rewrite lookup_insert_eq.
    + assert (fam_name F o' <> fam_name F o) as Hn.
      { intros E. apply Hid. apply (Hslot o'); [|done]. split; [done|]. split; [by exists b'|done]. }
      split; [done|]. split.
      * exists b'. split; [done|].
        rewrite lookup_insert_ne by (intros E; symmetry in E; by apply (id_name_ne (as_bytes (pretty (fam_id F o'))) (fam_name F o))).
        by rewrite lookup_insert_ne by (intros E; apply Hid; symmetry; by apply fam_id_inj).
      * rewrite lookup_insert_ne by (intros E; apply Hn; symmetry; by apply (app_inv_head (fam_name_prefix F))).
        by rewrite lookup_insert_ne by (intros E; by apply (Hne (fam_name F o'))).
Qed.

Lemma with_object_ok M o b next next' : fam_wf F o -> fam_encode F o = Ok b -> slot_ok M o ->
  1 <= fam_id F o < next' -> next <= next' -> family_ok M next -> family_ok (with_object o b M) next'.
Proof.
  intros Hw Hb Hslot Hid Hle [Hids Hnames]. pose proof (with_object_member M o b Hw Hb Hslot) as Hmem. split.
  - intros k v Hk. destruct (decide (k = as_bytes (pretty (fam_id F o)))) as [->|Hne].
    { exists o. split; [apply Hmem; by left|done]. }
    unfold with_object in Hk. rewrite lookup_insert_ne in Hk by (intros E; symmetry in E; by apply (id_name_ne k (fam_name F o))).
    rewrite lookup_insert_ne in Hk by (intros E; apply Hne; symmetry; by apply (app_inv_head (fam_id_prefix F))).
    destruct (Hids k v Hk) as (o' & Ho' & -> & Hr). exists o'. split; [|split; [done|lia]].
    apply Hmem. right. split; [done|]. intros E. apply Hne. by rewrite E.
  - intros n v Hn. destruct (decide (n = fam_name F o)) as [->|Hne].
    { exists o. split; [apply Hmem; by left|done]. }
    unfold with_object in Hn. rewrite lookup_insert_ne in Hn by (intros E; apply Hne; symmetry; by apply (app_inv_head (fam_name_prefix F))).
    rewrite lookup_insert_ne in Hn by (intros E; by apply (id_name_ne (as_bytes (pretty (fam_id F o))) n)).
    destruct (Hnames n v Hn) as (o' & Ho' & ->). exists o'. split; [|done].
    apply Hmem. right. split; [done|]. intros E. by apply Hne, Hslot.
Qed.

(** *** Removing one *)

Definition without_object (o : fam_object F) (M : kvmap) : kvmap :=
  delete (fam_name_key F (fam_name F o)) (delete (fam_id_key F (fam_id F o)) M).

Lemma without_object_member M o : member M o -> forall o',
  member (without_object o M) o' <-> member M o' /\ fam_id F o' <> fam_id F o.
Proof.
  intros Ho o'. unfold without_object. split.
  - intros Hm. assert (fam_id F o' <> fam_id F o) as Hid.
    { intros Hid. destruct Hm as (_ & (b & _ & L) & _). rewrite Hid in L.
      rewrite lookup_delete_ne in L by (intros E; symmetry in E; revert E; apply id_name_ne).
      by rewrite lookup_delete_eq in L. }
    split; [|done]. destruct Hm as (Hw & (b & Hb & L) & N). split; [done|].
    rewrite lookup_delete_Some in L. destruct L as [_ L]. rewrite lookup_delete_Some in L. destruct L as [_ L].
    rewrite lookup_delete_Some in N. destruct N as [_ N]. rewrite lookup_delete_Some in N. destruct N as [_ N].
    split; [by exists b|done].
  - intros [Hm Hid]. assert (fam_name F o' <> fam_name F o) as Hn.
    { intros E. apply Hid. by rewrite (member_same_name M o' o Hm Ho E). }
    destruct Hm as (Hw & (b & Hb & L) & N). split; [done|]. split.
    + exists b. split; [done|].
      rewrite lookup_delete_ne by (intros E; symmetry in E; revert E; apply id_name_ne).
      rewrite lookup_delete_ne; [done|]. intros E. apply Hid. symmetry. apply fam_id_inj; [apply Ho|done|done].
    + rewrite lookup_delete_ne by (intros E; apply Hn; symmetry; by apply (app_inv_head (fam_name_prefix F))).
      by rewrite lookup_delete_ne by (apply id_name_ne).
Qed.

Lemma without_object_ok M o next : member M o -> family_ok M next -> family_ok (without_object o M) next.
Proof.
  intros Ho [Hids Hnames]. pose proof (without_object_member M o Ho) as Hmem. split.
  - intros k v Hk. unfold without_object in Hk. apply lookup_delete_Some in Hk as [_ Hk].
    apply lookup_delete_Some in Hk as [Hne Hk]. destruct (Hids k v Hk) as (o' & Ho' & -> & Hr).
    exists o'. split; [|done]. apply Hmem. split; [done|]. intros E. apply Hne. unfold fam_id_key. by rewrite E.
  - intros n v Hn. unfold without_object in Hn. apply lookup_delete_Some in Hn as [Hne Hn].
    apply lookup_delete_Some in Hn as [_ Hn]. destruct (Hnames n v Hn) as (o' & Ho' & ->).
    exists o'. split; [|done]. apply Hmem. split; [done|]. intros E. apply Hne.
    by rewrite (member_same_id M o' o Ho' Ho E).
Qed.
End Families.

(** *** Keys of other families *)

(** [k] is neither an identifier key nor a name key of [F]. *)
Definition outside (F : Family) (k : key) : Prop :=
  forall r, fam_id_prefix F ++ r <> k /\ fam_name_prefix F ++ r <> k.

Lemma outside_lit F p r : diverge (fam_id_prefix F) p = true -> diverge (fam_name_prefix F) p = true ->
  outside F (p ++ r).
Proof. intros Hi Hn s. split; by apply diverge_ne. Qed.

Lemma agree_refl F M : agree F M M.
Proof. done. Qed.
Lemma agree_trans F M1 M2 M3 : agree F M1 M2 -> agree F M2 M3 -> agree F M1 M3.
Proof. intros [Ai An] [Bi Bn]. split; intros; [by rewrite Bi|by rewrite Bn]. Qed.
Lemma agree_insert F M M' k v : outside F k -> agree F M M' -> agree F M (<[k := v]> M').
Proof.
  intros Ho Ha. apply (agree_trans F _ M'); [done|]. split; intros r; destruct (Ho r); by rewrite lookup_insert_ne.
Qed.
Lemma agree_delete F M M' k : outside F k -> agree F M M' -> agree F M (delete k M').
Proof.
  intros Ho Ha. apply (agree_trans F _ M'); [done|]. split; intros r; destruct (Ho r); by rewrite lookup_delete_ne.
Qed.

(** ** Reading a family *)

Section Reading.
Context {W T : Type} `{KvStoreLaws W T} (F : Family) `{!FamilyLaws F}.

Lemma from_be_id o : fam_wf F o -> from_be (to_be 4 (fam_id F o)) = fam_id F o.
Proof. intros Hw. rewrite from_be_to_be. apply Z.mod_small. by apply (fam_wf_id (F := F)). Qed.

Lemma decode_u32_id o field : fam_wf F o -> decode_u32 (to_be 4 (fam_id F o)) field = Ok (fam_id F o).
Proof. intros Hw. unfold decode_u32. rewrite length_to_be. cbn [Nat.eqb]. by rewrite from_be_id. Qed.

Lemma member_document M o : member F M o ->
  exists b, M !! fam_id_key F (fam_id F o) = Some b /\ fam_decode F b = Ok o.
Proof.
  intros (Hw & (b & Hb & L) & _). exists b. split; [done|]. destruct (fam_roundtrip o Hw) as (b' & Eb & Db). congruence.
Qed.

(** A lookup by name finds the member of that name, or says there is none. *)
Lemma wp_lookup (M : kvmap) (next : Z) (name : list byte) (what : string) (Q : PgWireResult (option (fam_object F)) -> kvmap -> Prop) :
  family_ok F M next ->
  ((forall o, member F M o -> fam_name F o <> name) -> M !! fam_name_key F name = None -> Q (Ok None) M) ->
  (forall o, member F M o -> fam_name F o = name -> Q (Ok (Some o)) M) ->
  wp (lookup_named (fam_name_key F name) (fam_id_key F) what (fam_decode F)) M Q.
Proof.
  intros [Hids Hnames] Hnone Hsome. unfold lookup_named. apply wp_bind, wp_get.
  destruct (M !! fam_name_key F name) as [v|] eqn:Hv.
  - destruct (Hnames name v Hv) as (o & Ho & ->). pose proof Ho as (Hw & _ & N). rewrite N in Hv. apply (inj Some) in Hv as <-.
    apply wp_bind, wp_lift. rewrite decode_u32_id by done. apply wp_bind, wp_get.
    destruct (member_document M o Ho) as (b & -> & Hd). apply wp_bind, wp_lift. rewrite Hd. by apply wp_ret, Hsome.
  - apply wp_ret, Hnone; [|done]. intros o (_ & _ & N) E. by rewrite E, Hv in N.
Qed.

(** The documents under the identifier prefix are those of the members, each once. *)
Lemma wp_scan_documents (M : kvmap) (next : Z) (Q : PgWireResult (list (fam_object F)) -> kvmap -> Prop) :
  family_ok F M next -> (forall l, NoDup l -> (forall o, o ∈ l <-> member F M o) -> Q (Ok l) M) ->
  wp (scan_documents (fam_id_prefix F) (fam_decode F)) M Q.
Proof.
  intros [Hids Hnames] HQ. unfold scan_documents. apply wp_bind, wp_scan, wp_lift.
  set (entries := store_scan_prefix M (fam_id_prefix F)).
  assert (forall e, e ∈ entries <-> exists k, e.1 = fam_id_prefix F ++ k /\ M !! e.1 = Some e.2) as He.
  { intros [k v]. unfold entries, store_scan_prefix. rewrite btree_iter_elem, rows_where_lookup. cbn [fst snd].
    destruct (starts_with k (fam_id_prefix F)) eqn:E.
    - apply starts_with_spec in E as [r ->]. split; [intros L; by exists r|by intros (? & _ & L)].
    - split; [done|]. intros (r & -> & _). rewrite (proj2 (starts_with_spec _ _)) in E; [done|by exists r]. }
  assert (forall e, e ∈ entries -> exists o, member F M o /\ e.1 = fam_id_key F (fam_id F o) /\ fam_decode F e.2 = Ok o) as Hd.
  { intros e (k & Ek & L)%He. rewrite Ek in L. destruct (Hids k _ L) as (o & Ho & -> & _). exists o.
    split; [done|]. split; [done|]. destruct (member_document M o Ho) as (b & Lb & Db).
    unfold fam_id_key in Lb. rewrite L in Lb. by injection Lb as <-. }
  assert (NoDup (map fst entries)) as Hnd by apply btree_iter_nodup.
  assert (forall o, member F M o -> exists e, e ∈ entries /\ fam_decode F e.2 = Ok o) as Hm.
  { intros o Ho. destruct (member_document M o Ho) as (b & L & D). exists (fam_id_key F (fam_id F o), b).
    split; [|done]. apply He. by exists (as_bytes (pretty (fam_id F o))). }
  clearbody entries. clear He Hids Hnames.
  assert (exists l, map_m (fun e : kvrow => fam_decode F e.2) entries = Ok l /\ NoDup l /\
    forall o, o ∈ l <-> exists e, e ∈ entries /\ fam_decode F e.2 = Ok o) as (l & -> & Hl & Hin).
  { clear Hm. induction entries as [|e entries IH].
    { exists []. split; [done|]. split; [constructor|]. intros o. split; [by intros ?%elem_of_nil|].
      by intros (e & ?%elem_of_nil & _). }
    destruct (Hd e) as (o & Ho & Ek & Do); [constructor|]. cbn [map] in Hnd. apply NoDup_cons in Hnd as [Hn Hnd].
    destruct IH as (l & Em & Hl & Hin); [intros e' He'; apply Hd; by constructor|done|].
    exists (o :: l). cbn [map_m]. rewrite Do. cbn [mbind result_bind]. rewrite Em. split; [done|]. split.
    - apply NoDup_cons. split; [|done]. intros (e' & He' & Do')%Hin. apply Hn.
      destruct (Hd e') as (o' & Ho' & Ek' & Do''); [by constructor|]. rewrite Do' in Do''. injection Do'' as <-.
      rewrite Ek, <- Ek'. apply list_elem_of_fmap. by exists e'.
    - intros o'. rewrite elem_of_cons, Hin. split.
      + intros [->|(e' & He' & D')]; [exists e; split; [constructor|done]|exists e'; split; [by constructor|done]].
      + intros (e' & [->|He']%elem_of_cons & D'); [left; congruence|right; by exists e']. }
  apply HQ; [done|]. intros o. rewrite Hin. split; [|apply Hm].
  intros (e & He & D). destruct (Hd e He) as (o' & Ho' & _ & D'). congruence.
Qed.
End Reading.

(** ** The families of the catalog *)

Section Catalog.
Context `{SerdeJsonLaws}.

Definition databases : Family := {|
  fam_object := DatabaseCatalog; fam_id := db_id; fam_name d := as_bytes (db_name d);
  fam_id_prefix := as_bytes "__catalog__/databases/by-id/";
  fam_name_prefix := as_bytes "__catalog__/databases/by-name/";
  fam_wf := wf_database; fam_encode := encode_database_catalog; fam_decode := decode_database_catalog |}.

Definition schemas : Family := {|
  fam_object := SchemaCatalog; fam_id := sc_id;
  fam_name s := as_bytes (pretty (sc_database_id s)) ++ x2f :: as_bytes (sc_name s);
  fam_id_prefix := as_bytes "__catalog__/schemas/by-id/";
  fam_name_prefix := as_bytes "__catalog__/schemas/by-name/";
  fam_wf := wf_schema_catalog; fam_encode := encode_schema_catalog; fam_decode := decode_schema_catalog |}.

Definition views : Family := {|
  fam_object := ViewCatalog; fam_id := vw_id;
  fam_name v := scoped_name (vw_database_id v) (vw_schema_id v) (vw_name v);
  fam_id_prefix := as_bytes "__catalog__/views/by-id/";
  fam_name_prefix := as_bytes "__catalog__/views/by-name/";
  fam_wf := wf_view; fam_encode := encode_view_catalog; fam_decode := decode_view_catalog |}.

Definition indexes : Family := {|
  fam_object := IndexCatalog; fam_id := ix_id;
  fam_name i := scoped_name (ix_database_id i) (ix_schema_id i) (ix_name i);
  fam_id_prefix := as_bytes "__catalog__/indexes/by-id/";
  fam_name_prefix := as_bytes "__catalog__/indexes/by-name/";
  fam_wf := wf_index; fam_encode := encode_index_catalog; fam_decode := decode_index_catalog |}.

#[export] Instance databases_laws : FamilyLaws databases.
Proof. split; [done|exact database_roundtrip|reflexivity]. Qed.
#[export] Instance schemas_laws : FamilyLaws schemas.
Proof. split; [by intros o [? _]|exact schema_roundtrip|reflexivity]. Qed.
#[export] Instance views_laws : FamilyLaws views.
Proof. split; [by intros o [? _]|exact view_roundtrip|reflexivity]. Qed.
#[export] Instance indexes_laws : FamilyLaws indexes.
Proof. split; [by intros o [? _]|exact index_roundtrip|reflexivity]. Qed.
End Catalog.
