(* ===== verification/CatalogOk.v ===== *)
(** * The catalog's invariant

    [catalog_ok]: the documents, name entries, table entries and counters of the
    catalog agree.  Every operation of [CatalogStore] keeps it, whatever its outcome
    (the only exception is dropping the default database, which restarts the
    counters: [dropping_default_reuses_ids]), so no lookup ever meets a name entry
    without its document and every identifier is given out once. *)

From stdpp Require Import pretty sorting.
From S2P Require Import Prelude BTree Float Types Values Text Mode DataTypes LegacyCodec KvStore Stores Heap Json.
From S2P Require Import Catalog CatalogStore CatalogLogic.

(** ** Telling keys apart *)

Lemma diverge_ne_l a b s : diverge a b = true -> a <> b ++ s.
Proof. intros Hd. rewrite <- (app_nil_r a). by apply diverge_ne. Qed.
Lemma diverge_ne_r a b r : diverge a b = true -> a ++ r <> b.
Proof. intros Hd. rewrite <- (app_nil_r b). by apply diverge_ne. Qed.
Lemma diverge_ne_2 a b : diverge a b = true -> a <> b.
Proof. intros Hd. rewrite <- (app_nil_r a), <- (app_nil_r b). by apply diverge_ne. Qed.

Lemma outside_const F k : diverge (fam_id_prefix F) k = true -> diverge (fam_name_prefix F) k = true -> outside F k.
Proof. intros Hi Hn r. split; by apply diverge_ne_r. Qed.

(** Keys whose literal parts differ. *)
Ltac key_ne :=
  first [ refine (diverge_ne _ _ _ _ _); vm_compute; reflexivity
        | refine (diverge_ne_l _ _ _ _); vm_compute; reflexivity
        | refine (diverge_ne_r _ _ _ _); vm_compute; reflexivity
        | refine (diverge_ne_2 _ _ _); vm_compute; reflexivity ].
Ltac outside_key :=
  first [ refine (outside_lit _ _ _ _ _); vm_compute; reflexivity
        | refine (outside_const _ _ _ _); vm_compute; reflexivity ].

(** Lookups of, and agreement on, keys that the writes did not touch. *)
Ltac lookup_other :=
  repeat first [ rewrite lookup_insert_ne by key_ne | rewrite lookup_delete_ne by key_ne ]; try reflexivity.
Ltac agree_other :=
  repeat first [ apply agree_refl | apply agree_insert; [outside_key|] | apply agree_delete; [outside_key|] ].

(** ** The invariant *)

(** The entry of an index under its table; [rest] is the index's identifier. *)
Definition by_table_entry (table_id : Z) (rest : list byte) : key :=
  as_bytes "__catalog__/indexes/by-table/" ++ as_bytes (pretty table_id) ++ x2f :: rest.

Lemma index_by_table_entry table_id rest : index_by_table_prefix table_id ++ rest = by_table_entry table_id rest.
Proof. unfold index_by_table_prefix, by_table_entry. by rewrite <- !app_assoc. Qed.

Lemma by_table_entry_inj t1 r1 t2 r2 : in_unsigned 32 t1 -> in_unsigned 32 t2 ->
  by_table_entry t1 r1 = by_table_entry t2 r2 -> t1 = t2 /\ r1 = r2.
Proof.
  unfold in_unsigned. intros H1 H2 E. unfold by_table_entry in E. apply app_inv_head in E.
  destruct (pretty_digits t1) as [D1 _]; [lia|]. destruct (pretty_digits t2) as [D2 _]; [lia|].
  apply digits_slash in E as [E ->]; [|done..]. apply pretty_inj in E; [done|lia..].
Qed.

Section Invariant.
Context {W T : Type} `{KvStoreLaws W T, SerdeJsonLaws}.
Implicit Types (n : Z) (M : kvmap).

(** A family and its counter, which is at most [n]. *)
Definition family_at (F : Family) (next_key : key) (n : Z) (M : kvmap) : Prop :=
  exists c, M !! next_key = Some (to_be 4 c) /\ 1 <= c <= n /\ family_ok F M c.

Definition by_table_ok (M : kvmap) : Prop := forall t rest v, in_unsigned 32 t ->
  M !! by_table_entry t rest = Some v <->
  exists i, member indexes M i /\ ix_table_id i = t /\ rest = as_bytes (pretty (ix_id i)) /\ v = to_be 4 (ix_id i).

Record catalog_ok (n : Z) (M : kvmap) : Prop := {
  ok_default : is_Some (M !! database_by_name_key DEFAULT_DATABASE_NAME);
  ok_databases : family_at databases NEXT_DATABASE_ID_KEY n M;
  ok_schemas : family_at schemas NEXT_SCHEMA_ID_KEY n M;
  ok_views : family_at views NEXT_VIEW_ID_KEY n M;
  ok_indexes : family_at indexes NEXT_INDEX_ID_KEY n M;
  ok_table_counter : exists c, M !! NEXT_TABLE_ID_KEY = Some (to_be 4 c) /\ 1 <= c <= n;
  ok_by_table : by_table_ok M;
  ok_schema_databases : exists c, M !! NEXT_DATABASE_ID_KEY = Some (to_be 4 c) /\ 1 <= c <= n /\
    forall s, member schemas M s -> sc_database_id s < c;
}.

Lemma family_at_frame F next_key n n' M M' : agree F M M' -> M' !! next_key = M !! next_key -> n <= n' ->
  family_at F next_key n M -> family_at F next_key n' M'.
Proof.
  intros Ha Hk Hn (c & Hc & Hr & Hf). exists c. rewrite Hk. split; [done|]. split; [lia|].
  by apply (family_agree F M).
Qed.

Lemma by_table_frame M M' : agree indexes M M' ->
  (forall t rest, M' !! by_table_entry t rest = M !! by_table_entry t rest) -> by_table_ok M -> by_table_ok M'.
Proof.
  intros Ha Hb Hok t rest v Ht. rewrite Hb, (Hok t rest v Ht).
  by setoid_rewrite (member_agree indexes M M' _ Ha).
Qed.

(** The databases that schemas belong to were given out. *)
Definition schema_databases (n : Z) (M : kvmap) : Prop :=
  exists c, M !! NEXT_DATABASE_ID_KEY = Some (to_be 4 c) /\ 1 <= c <= n /\
    forall s, member schemas M s -> sc_database_id s < c.

Lemma schema_databases_frame n n' M M' : agree schemas M M' ->
  M' !! NEXT_DATABASE_ID_KEY = M !! NEXT_DATABASE_ID_KEY -> n <= n' ->
  schema_databases n M -> schema_databases n' M'.
Proof.
  intros Ha Hk Hn (c & Hc & Hr & Hs). exists c. rewrite Hk. split; [done|]. split; [lia|].
  intros s Hm. apply Hs. by apply (member_agree schemas M M').
Qed.

Lemma catalog_ok_mono n n' M : n <= n' -> catalog_ok n M -> catalog_ok n' M.
Proof.
  intros Hn [Hd Hdb Hs Hv Hi (c & Hc & Hr) Hb Hsd].
  split; try (eapply family_at_frame; [apply agree_refl|done|exact Hn|done]); try done.
  - exists c. split; [done|lia].
  - by apply (schema_databases_frame n n' M).
Qed.

(** The parts of the invariant that a few writes leave alone. *)
Ltac catalog_parts n :=
  match goal with
  | Hok : catalog_ok n ?M |- catalog_ok _ _ =>
      pose proof Hok as [Pdefault Pdatabases Pschemas Pviews Pindexes (counter & Pcounter & Prange) Pentries Powners]; split;
      [ try solve [lookup_other; exact Pdefault]
      | try solve [apply (family_at_frame _ _ n _ M); [agree_other|lookup_other|lia|exact Pdatabases]]
      | try solve [apply (family_at_frame _ _ n _ M); [agree_other|lookup_other|lia|exact Pschemas]]
      | try solve [apply (family_at_frame _ _ n _ M); [agree_other|lookup_other|lia|exact Pviews]]
      | try solve [apply (family_at_frame _ _ n _ M); [agree_other|lookup_other|lia|exact Pindexes]]
      | try solve [exists counter; split; [lookup_other; exact Pcounter|lia]]
      | try solve [apply (by_table_frame M); [agree_other|intros; lookup_other|exact Pentries]]
      | try solve [apply (schema_databases_frame n _ M); [agree_other|lookup_other|lia|exact Powners]] ];
      clear Pdefault Pdatabases Pschemas Pviews Pindexes Pcounter Prange counter Pentries Powners
  end.

Lemma catalog_put_table_id n id v M : catalog_ok n M -> catalog_ok n (<[table_by_id_key id := v]> M).
Proof. intros Hok. catalog_parts n. Qed.
Lemma catalog_put_table_name n d s name v M : catalog_ok n M -> catalog_ok n (<[table_by_name_key d s name := v]> M).
Proof. intros Hok. catalog_parts n. Qed.
Lemma catalog_put_legacy n name v M : catalog_ok n M -> catalog_ok n (<[legacy_schema_key name := v]> M).
Proof. intros Hok. catalog_parts n. Qed.
Lemma catalog_put_mode n v M : catalog_ok n M -> catalog_ok n (<[COMPAT_MODE_KEY := v]> M).
Proof. intros Hok. catalog_parts n. Qed.
Lemma catalog_delete_table_id n id M : catalog_ok n M -> catalog_ok n (delete (table_by_id_key id) M).
Proof. intros Hok. catalog_parts n. Qed.
Lemma catalog_delete_table_name n d s name M : catalog_ok n M -> catalog_ok n (delete (table_by_name_key d s name) M).
Proof. intros Hok. catalog_parts n. Qed.
Lemma catalog_delete_legacy n name M : catalog_ok n M -> catalog_ok n (delete (legacy_schema_key name) M).
Proof. intros Hok. catalog_parts n. Qed.

(** ** Reading *)

(** An operation that answers and keeps the invariant. *)
Definition keeps {A : Type} (n : Z) (r : PgWireResult A) (M : kvmap) : Prop := settles r /\ catalog_ok n M.

Lemma keeps_raises {A B : Type} n (r : PgWireResult A) (M : kvmap) : (forall a, r <> Ok a) -> keeps n r M ->
  keeps n (raises r : PgWireResult B) M.
Proof. intros Hr [Hs Hok]. split; [|done]. destruct r as [a| | |]; try done. by destruct (Hr a). Qed.

Lemma keeps_mono {A : Type} n n' (r : PgWireResult A) (M : kvmap) : n <= n' -> keeps n r M -> keeps n' r M.
Proof. intros Hn [Hs Hok]. split; [done|]. by apply (catalog_ok_mono n). Qed.

(** A step that keeps the invariant, followed by others that do. *)
Lemma wp_keeps {A B : Type} n n' (m : Cat W A) (k : A -> Cat W B) (M : kvmap) : n <= n' ->
  wp m M (keeps n) -> (forall a M', catalog_ok n M' -> wp (k a) M' (keeps n')) -> wp (m ≫= k) M (keeps n').
Proof.
  intros Hn Hm Hk. apply wp_bind. apply (wp_mono _ _ _ _ Hm). intros r M' [Hs Hok].
  destruct r as [a|e| |]; [by apply Hk|split; [done|by apply (catalog_ok_mono n)]|done..].
Qed.

Lemma wp_bootstrap n (M : kvmap) (Q : PgWireResult unit -> kvmap -> Prop) : catalog_ok n M -> Q (Ok tt) M ->
  wp ensure_bootstrap M Q.
Proof.
  intros Hok HQ. unfold ensure_bootstrap. apply wp_bind, wp_get. destruct (ok_default n M Hok) as [v ->]. by apply wp_ret.
Qed.

Lemma wp_get_database n (M : kvmap) (name : string) (Q : PgWireResult (option DatabaseCatalog) -> kvmap -> Prop) :
  catalog_ok n M -> ((forall d, member databases M d -> db_name d <> name) -> Q (Ok None) M) ->
  (forall d, member databases M d -> db_name d = name -> Q (Ok (Some d)) M) -> wp (get_database name) M Q.
Proof.
  intros Hok Hnone Hsome. unfold get_database. apply wp_bind, (wp_bootstrap n); [done|].
  destruct (ok_databases n M Hok) as (c & _ & _ & Hf).
  apply (wp_lookup databases M c (as_bytes name) "database" Q Hf).
  - intros Hno _. apply Hnone. intros d Hd <-. by apply (Hno d).
  - intros d Hd Hn. apply Hsome; [done|]. cbn in Hn. by rewrite <- (of_as_bytes (db_name d)), Hn, of_as_bytes.
Qed.

Lemma schema_name_inj (d1 : Z) (n1 : string) (d2 : Z) (n2 : string) : in_unsigned 32 d1 -> in_unsigned 32 d2 ->
  as_bytes (pretty d1) ++ x2f :: as_bytes n1 = as_bytes (pretty d2) ++ x2f :: as_bytes n2 -> d1 = d2 /\ n1 = n2.
Proof.
  unfold in_unsigned. intros Hd1 Hd2 E.
  destruct (pretty_digits d1) as [D1 _]; [lia|]. destruct (pretty_digits d2) as [D2 _]; [lia|].
  apply digits_slash in E as [Ed En]; [|done..]. apply pretty_inj in Ed; [|lia..].
  split; [done|]. by rewrite <- (of_as_bytes n1), En, of_as_bytes.
Qed.

Lemma wp_get_schema n (M : kvmap) (d : Z) (name : string) (Q : PgWireResult (option SchemaCatalog) -> kvmap -> Prop) :
  catalog_ok n M -> in_unsigned 32 d ->
  ((forall s, member schemas M s -> ~ (sc_database_id s = d /\ sc_name s = name)) -> Q (Ok None) M) ->
  (forall s, member schemas M s -> sc_database_id s = d -> sc_name s = name -> Q (Ok (Some s)) M) ->
  wp (get_schema d name) M Q.
Proof.
  intros Hok Hd Hnone Hsome. unfold get_schema. apply wp_bind, (wp_bootstrap n); [done|].
  destruct (ok_schemas n M Hok) as (c & _ & _ & Hf).
  apply (wp_lookup schemas M c (as_bytes (pretty d) ++ x2f :: as_bytes name) "schema" Q Hf).
  - intros Hno _. apply Hnone. intros s Hs [<- <-]. by apply (Hno s).
  - intros s Hs Hn. destruct (schema_name_inj _ _ _ _ (proj2 (proj1 Hs)) Hd Hn). by apply Hsome.
Qed.

(** Objects named within a schema: views and indexes. *)
Lemma wp_get_index n (M : kvmap) (d s : Z) (name : string) (Q : PgWireResult (option IndexCatalog) -> kvmap -> Prop) :
  catalog_ok n M -> in_unsigned 32 d -> in_unsigned 32 s ->
  ((forall i, member indexes M i -> ~ (ix_database_id i = d /\ ix_schema_id i = s /\ ix_name i = name)) -> Q (Ok None) M) ->
  (forall i, member indexes M i -> ix_database_id i = d -> ix_schema_id i = s -> ix_name i = name -> Q (Ok (Some i)) M) ->
  wp (get_index d s name) M Q.
Proof.
  intros Hok Hd Hs Hnone Hsome. unfold get_index. apply wp_bind, (wp_bootstrap n); [done|].
  destruct (ok_indexes n M Hok) as (c & _ & _ & Hf).
  apply (wp_lookup indexes M c (scoped_name d s name) "index" Q Hf).
  - intros Hno _. apply Hnone. intros i Hi (<- & <- & <-). by apply (Hno i).
  - intros i Hi Hn. destruct Hi as (Hw & Hi). pose proof Hw as (_ & Wd & Ws & _).
    destruct (scoped_name_inj _ _ _ _ _ _ Wd Hd Ws Hs Hn) as (? & ? & ?). by apply Hsome.
Qed.

Lemma wp_existing_database n (M : kvmap) (name : string) (Q : PgWireResult DatabaseCatalog -> kvmap -> Prop) :
  catalog_ok n M -> (forall e, Q (Err e) M) -> (forall d, member databases M d -> db_name d = name -> Q (Ok d) M) ->
  wp (existing_database name) M Q.
Proof.
  intros Hok He Hd. unfold existing_database. apply wp_bind, (wp_get_database n); [done| |].
  - intros _. apply wp_lift, He.
  - intros d Hm Hn. by apply wp_lift, Hd.
Qed.

Lemma wp_existing_schema n (M : kvmap) (d : Z) (name : string) (Q : PgWireResult SchemaCatalog -> kvmap -> Prop) :
  catalog_ok n M -> in_unsigned 32 d -> (forall e, Q (Err e) M) ->
  (forall s, member schemas M s -> sc_database_id s = d -> sc_name s = name -> Q (Ok s) M) ->
  wp (existing_schema d name) M Q.
Proof.
  intros Hok Hd He Hs. unfold existing_schema. apply wp_bind, (wp_get_schema n); [done|done| |].
  - intros _. apply wp_lift, He.
  - intros s Hm Hn Hsn. by apply wp_lift, Hs.
Qed.

(** The database and the schema of a statement, when both exist. *)
Lemma wp_within {A : Type} n (M : kvmap) (database_name schema_name : string)
    (k : DatabaseCatalog -> SchemaCatalog -> Cat W (option A)) (Q : PgWireResult (option A) -> kvmap -> Prop) :
  catalog_ok n M -> Q (Ok None) M ->
  (forall d s, member databases M d -> db_name d = database_name -> member schemas M s ->
    sc_database_id s = db_id d -> sc_name s = schema_name -> wp (k d s) M Q) ->
  wp (within database_name schema_name k) M Q.
Proof.
  intros Hok Hnone Hk. unfold within. apply wp_bind, (wp_get_database n); [done|by intros _; apply wp_ret|].
  intros d Hd Hn. apply wp_bind, (wp_get_schema n); [done|apply Hd|by intros _; apply wp_ret|].
  intros s Hs Hsd Hsn. by apply Hk.
Qed.

(** A table, as far as the invariant goes: some answer, identifiers in range. *)
Definition table_answer (r : PgWireResult (option TableCatalog)) : Prop :=
  settles r /\ forall t, r = Ok (Some t) ->
    in_unsigned 32 (tc_database_id t) /\ in_unsigned 32 (tc_schema_id t) /\ in_unsigned 32 (table_id (tc_schema t)).

Lemma wp_decoded_table (M : kvmap) (payload : list byte) (Q : PgWireResult (option TableCatalog) -> kvmap -> Prop) :
  (forall r, table_answer r -> Q r M) ->
  wp (t ← cat_lift (decode_table_catalog payload); mret (Some t)) M Q.
Proof.
  intros HQ. apply wp_bind, wp_lift. pose proof (decode_table_settles payload) as Hs.
  destruct (decode_table_catalog payload) as [t|e| |] eqn:Hd; [|by apply HQ|done..].
  apply wp_ret, HQ. split; [done|]. intros t' [= <-]. by apply (decode_table_bounds payload).
Qed.

Lemma wp_load_table n (M : kvmap) (database_name schema_name table_name : string)
    (Q : PgWireResult (option TableCatalog) -> kvmap -> Prop) :
  catalog_ok n M -> (forall r, table_answer r -> Q r M) -> wp (load_table database_name schema_name table_name) M Q.
Proof.
  intros Hok HQ. unfold load_table. apply wp_bind, (wp_bootstrap n); [done|].
  apply (wp_within n); [done|by apply HQ|]. intros d s Hd Hdn Hs Hsd Hsn.
  apply wp_bind, wp_get. destruct (M !! _) as [v|].
  - apply wp_bind, wp_lift. unfold decode_u32. destruct (length v =? 4)%nat; [|by apply HQ].
    apply wp_bind, wp_get. destruct (M !! _) as [b|]; [|by apply wp_fail, HQ]. by apply wp_decoded_table.
  - destruct (is_default _ _); [|by apply wp_ret, HQ]. unfold load_legacy_default_table. apply wp_bind, wp_get.
    destruct (M !! _) as [b|]; [by apply wp_decoded_table|by apply wp_ret, HQ].
Qed.

Lemma wp_load_view n (M : kvmap) (database_name schema_name view_name : string)
    (Q : PgWireResult (option ViewCatalog) -> kvmap -> Prop) :
  catalog_ok n M ->
  ((forall d s v, member databases M d -> db_name d = database_name -> member schemas M s ->
     sc_database_id s = db_id d -> sc_name s = schema_name -> member views M v ->
     ~ (vw_database_id v = db_id d /\ vw_schema_id v = sc_id s /\ vw_name v = view_name)) -> Q (Ok None) M) ->
  (forall d s v, member databases M d -> db_name d = database_name -> member schemas M s ->
     sc_database_id s = db_id d -> sc_name s = schema_name -> member views M v ->
     vw_database_id v = db_id d -> vw_schema_id v = sc_id s -> vw_name v = view_name -> Q (Ok (Some v)) M) ->
  wp (load_view database_name schema_name view_name) M Q.
Proof.
  intros Hok Hnone Hsome. unfold load_view. apply wp_bind, (wp_bootstrap n); [done|].
  unfold within. apply wp_bind, (wp_get_database n); [done| |].
  { intros Hno. apply wp_ret, Hnone. intros d s v Hd Hdn. by destruct (Hno d Hd). }
  intros d Hd Hdn. apply wp_bind, (wp_get_schema n); [done|apply Hd| |].
  { intros Hno. apply wp_ret, Hnone. intros d' s v Hd' Hdn' Hs Hsd Hsn. exfalso. apply (Hno s Hs).
    split; [|done]. rewrite Hsd. f_equal. apply (member_same_name databases M); [done..|]. cbn. congruence. }
  intros s Hs Hsd Hsn. destruct (ok_views n M Hok) as (c & _ & _ & Hf).
  apply (wp_lookup views M c (scoped_name (db_id d) (sc_id s) view_name) "view" Q Hf).
  - intros Hno _. apply Hnone. intros d' s' v Hd' Hdn' Hs' Hsd' Hsn' Hv (E1 & E2 & E3). apply (Hno v Hv).
    assert (d' = d) as -> by (apply (member_same_name databases M); [done..|cbn; congruence]).
    assert (s' = s) as -> by (apply (member_same_name schemas M); [done..|cbn; congruence]).
    cbn. congruence.
  - intros v Hv Hn. pose proof Hv as ((_ & Wd & Ws) & _).
    destruct (scoped_name_inj _ _ _ _ _ _ Wd (proj1 Hd) Ws (proj1 (proj1 Hs)) Hn) as (? & ? & ?).
    by apply (Hsome d s v).
Qed.

(** ** Writing *)

Lemma wp_write_database (d : DatabaseCatalog) M (Q : PgWireResult unit -> kvmap -> Prop) : wf_database d ->
  (forall b, encode_database_catalog d = Ok b -> Q (Ok tt) (with_object databases d b M)) ->
  wp (write_database d) M Q.
Proof.
  intros Hw HQ. unfold write_database. destruct (database_roundtrip d Hw) as (b & Eb & _).
  apply wp_bind, wp_lift. rewrite Eb. apply wp_bind, wp_put, wp_put. by apply HQ.
Qed.

Lemma wp_write_schema (s : SchemaCatalog) M (Q : PgWireResult unit -> kvmap -> Prop) : wf_schema_catalog s ->
  (forall b, encode_schema_catalog s = Ok b -> Q (Ok tt) (with_object schemas s b M)) ->
  wp (write_schema s) M Q.
Proof.
  intros Hw HQ. unfold write_schema. destruct (schema_roundtrip s Hw) as (b & Eb & _).
  apply wp_bind, wp_lift. rewrite Eb. apply wp_bind, wp_put, wp_put. by apply HQ.
Qed.

Lemma wp_write_view (v : ViewCatalog) M (Q : PgWireResult unit -> kvmap -> Prop) : wf_view v ->
  (forall b, encode_view_catalog v = Ok b -> Q (Ok tt) (with_object views v b M)) ->
  wp (write_view v) M Q.
Proof.
  intros Hw HQ. unfold write_view. destruct (view_roundtrip v Hw) as (b & Eb & _).
  apply wp_bind, wp_lift. rewrite Eb. apply wp_bind, wp_put, wp_put. by apply HQ.
Qed.

Definition with_index (i : IndexCatalog) (b : list byte) (M : kvmap) : kvmap :=
  <[index_by_table_key (ix_table_id i) (ix_id i) := to_be 4 (ix_id i)]> (with_object indexes i b M).

Lemma wp_write_index (i : IndexCatalog) M (Q : PgWireResult unit -> kvmap -> Prop) : wf_index i ->
  (forall b, encode_index_catalog i = Ok b -> Q (Ok tt) (with_index i b M)) -> wp (write_index i) M Q.
Proof.
  intros Hw HQ. unfold write_index. destruct (index_roundtrip i Hw) as (b & Eb & _).
  apply wp_bind, wp_lift. rewrite Eb. apply wp_bind, wp_put. apply wp_bind, wp_put, wp_put. by apply HQ.
Qed.

(** A member's identifier was given out. *)
Lemma member_below (F : Family) `{!FamilyLaws F} M c (o : fam_object F) : family_ok F M c -> member F M o ->
  1 <= fam_id F o < c.
Proof.
  intros [Hids _] Ho. destruct (member_document F M o Ho) as (b & L & _). destruct (Hids _ _ L) as (o2 & Ho2 & Ep & Hr).
  pose proof (fam_wf_id o (proj1 Ho)) as R1. pose proof (fam_wf_id o2 (proj1 Ho2)) as R2. unfold in_unsigned in *.
  apply pretty_inj in Ep; lia.
Qed.

(** An identifier the counter has not given out, and a free name: the slot is free. *)
Lemma slot_fresh (F : Family) `{!FamilyLaws F} M c (o : fam_object F) : family_ok F M c -> c <= fam_id F o ->
  (forall o', member F M o' -> fam_name F o' <> fam_name F o) -> slot_ok F M o.
Proof.
  intros Hf Hc Hn o' Ho'. split; [|intros E; by destruct (Hn o' Ho')]. intros E. exfalso.
  pose proof (member_below F M c o' Hf Ho'). lia.
Qed.

(** The slot of an object that replaces one with its identifier and name. *)
Lemma slot_same (F : Family) `{!FamilyLaws F} M (o o' : fam_object F) : member F M o ->
  fam_id F o' = fam_id F o -> fam_name F o' = fam_name F o -> slot_ok F M o'.
Proof.
  intros Ho Hid Hn o2 Ho2. rewrite Hid, Hn. split; intros E.
  - by rewrite (member_same_id F M o2 o Ho2 Ho E).
  - by rewrite (member_same_name F M o2 o Ho2 Ho E).
Qed.

Lemma counter_in_range c n : 1 <= c <= n -> n < 2 ^ 32 - 1 -> in_unsigned 32 c.
Proof. unfold in_unsigned. lia. Qed.

Lemma same_counter M k c c' : M !! k = Some (to_be 4 c) -> M !! k = Some (to_be 4 c') -> in_unsigned 32 c ->
  in_unsigned 32 c' -> c = c'.
Proof. intros E1 E2 R1 R2. rewrite E1 in E2. apply (inj Some) in E2. by apply id_bytes_inj. Qed.

(** The object written with the identifier just allocated. *)
Lemma family_new (F : Family) `{!FamilyLaws F} next_key n M c (o : fam_object F) b : outside F next_key ->
  fam_wf F o -> fam_encode F o = Ok b -> fam_id F o = c -> 1 <= c <= n -> family_ok F M c ->
  (forall o', member F M o' -> fam_name F o' <> fam_name F o) ->
  family_at F next_key (n + 1) (with_object F o b (<[next_key := to_be 4 (c + 1)]> M)).
Proof.
  intros Hout Hw Hb Hid Hc Hf Hn. exists (c + 1). split; [|split; [lia|]].
  - unfold with_object, fam_id_key, fam_name_key. rewrite !lookup_insert_ne by apply Hout. by rewrite lookup_insert_eq.
  - assert (Ha : agree F M (<[next_key := to_be 4 (c + 1)]> M)) by (apply agree_insert; [done|apply agree_refl]).
    assert (Hf' : family_ok F (<[next_key := to_be 4 (c + 1)]> M) c) by (by apply (family_agree F M)).
    apply (with_object_ok F _ o b c); [done|done| |lia|lia|done].
    apply (slot_fresh F _ c); [done|lia|]. intros o' Ho'. apply Hn. by apply (member_agree F M _ _ Ha).
Qed.

(** *** Databases and schemas *)

(** The counters' own entries. *)
Lemma next_database_outside F : diverge (fam_id_prefix F) NEXT_DATABASE_ID_KEY = true ->
  diverge (fam_name_prefix F) NEXT_DATABASE_ID_KEY = true -> outside F NEXT_DATABASE_ID_KEY.
Proof. apply outside_const. Qed.

Lemma default_kept F o b k v M : is_Some (M !! database_by_name_key DEFAULT_DATABASE_NAME) ->
  fam_id_key F (fam_id F o) <> database_by_name_key DEFAULT_DATABASE_NAME ->
  k <> database_by_name_key DEFAULT_DATABASE_NAME ->
  is_Some (with_object F o b (<[k := v]> M) !! database_by_name_key DEFAULT_DATABASE_NAME).
Proof.
  intros Hd Hi Hk. unfold with_object.
  destruct (decide (fam_name_key F (fam_name F o) = database_by_name_key DEFAULT_DATABASE_NAME)) as [->|Hn].
  - rewrite lookup_insert_eq. by eexists.
  - by rewrite !lookup_insert_ne.
Qed.

Lemma catalog_new_database n M c (d : DatabaseCatalog) b : catalog_ok n M ->
  M !! NEXT_DATABASE_ID_KEY = Some (to_be 4 c) -> 1 <= c <= n -> n < 2 ^ 32 - 1 -> family_ok databases M c ->
  db_id d = c -> encode_database_catalog d = Ok b -> (forall d', member databases M d' -> db_name d' <> db_name d) ->
  catalog_ok (n + 1) (with_object databases d b (<[NEXT_DATABASE_ID_KEY := to_be 4 (c + 1)]> M)).
Proof.
  intros Hok Hc Hr Hn Hf Hid Hb Hfree. unfold with_object. catalog_parts n.
  - apply (default_kept databases d b); [exact (ok_default n M Hok)|key_ne|key_ne].
  - assert (Hw : wf_database d) by (unfold wf_database; rewrite Hid; by apply (counter_in_range c n)).
    apply (family_new databases); [outside_key|exact Hw|exact Hb|exact Hid|exact Hr|exact Hf|].
    intros d' Hd'. cbn. intros E. apply (Hfree d' Hd'). by rewrite <- (of_as_bytes (db_name d')), E, of_as_bytes.
  - destruct (ok_schema_databases n M Hok) as (c' & Hc' & Hr' & Hs). exists (c + 1). split; [|split; [lia|]].
    + rewrite !lookup_insert_ne by key_ne. by rewrite lookup_insert_eq.
    + intros s Hm. assert (c' = c) as -> by (apply (same_counter M NEXT_DATABASE_ID_KEY); [done|done| |]; by apply (counter_in_range _ n)).
      enough (sc_database_id s < c) by lia. apply Hs. revert Hm. apply member_agree. agree_other.
Qed.

Lemma catalog_new_schema n M c (s : SchemaCatalog) b : catalog_ok n M ->
  M !! NEXT_SCHEMA_ID_KEY = Some (to_be 4 c) -> 1 <= c <= n -> n < 2 ^ 32 - 1 -> family_ok schemas M c ->
  sc_id s = c -> in_unsigned 32 (sc_database_id s) -> encode_schema_catalog s = Ok b ->
  (exists cd, M !! NEXT_DATABASE_ID_KEY = Some (to_be 4 cd) /\ 1 <= cd <= n /\ sc_database_id s < cd) ->
  (forall s', member schemas M s' -> ~ (sc_database_id s' = sc_database_id s /\ sc_name s' = sc_name s)) ->
  catalog_ok (n + 1) (with_object schemas s b (<[NEXT_SCHEMA_ID_KEY := to_be 4 (c + 1)]> M)).
Proof.
  intros Hok Hc Hr Hn Hf Hid Hd Hb (cd & Hcd & Hrd & Hlt) Hfree.
  assert (Hw : wf_schema_catalog s) by (split; [rewrite Hid; by apply (counter_in_range c n)|done]).
  assert (Hname : forall s', member schemas M s' -> fam_name schemas s' <> fam_name schemas s).
  { intros s' Hs' E. destruct (schema_name_inj _ _ _ _ (proj2 (proj1 Hs')) Hd E). by apply (Hfree s' Hs'). }
  unfold with_object. catalog_parts n.
  - apply (family_new schemas); [outside_key|exact Hw|exact Hb|exact Hid|exact Hr|exact Hf|exact Hname].
  - destruct (ok_schema_databases n M Hok) as (c' & Hc' & Hr' & Hs). exists c'. split; [|split; [lia|]].
    + by rewrite !lookup_insert_ne by key_ne.
    + intros s' Hm. assert (c' = cd) as -> by (apply (same_counter M NEXT_DATABASE_ID_KEY); [done|done| |]; by apply (counter_in_range _ n)).
      assert (Ha : agree schemas M (<[NEXT_SCHEMA_ID_KEY := to_be 4 (c + 1)]> M)) by agree_other.
      apply (with_object_member schemas) in Hm as [->|[Hm _]]; [done| |done|done|].
      * apply Hs. by apply (member_agree schemas M _ _ Ha).
      * apply (slot_fresh schemas _ c); [by apply (family_agree schemas M)|cbn; lia|].
        intros o' Ho'. apply Hname. by apply (member_agree schemas M _ _ Ha).
Qed.

Lemma create_database_keeps n M database_name if_not_exists : catalog_ok n M -> n < 2 ^ 32 - 2 ->
  wp (create_database database_name if_not_exists) M (keeps (n + 2)).
Proof.
  intros Hok Hn. unfold create_database. apply wp_bind, (wp_bootstrap n); [done|].
  apply wp_bind, (wp_get_database n); [done| |].
  2: { intros d _ _. destruct if_not_exists; [apply wp_ret|apply wp_fail]; (split; [done|]);
       apply (catalog_ok_mono n); [lia|done|lia|done]. }
  intros Hfree. destruct (ok_databases n M Hok) as (c & Hc & Hr & Hf).
  apply wp_bind, (wp_allocate _ c); [apply (counter_in_range c n); lia|done|].
  set (d := {| db_id := c; db_name := database_name |}).
  apply wp_bind, wp_write_database; [apply (counter_in_range c n); lia|]. intros b Hb.
  assert (Hok2 : catalog_ok (n + 1) (with_object databases d b (<[NEXT_DATABASE_ID_KEY := to_be 4 (c + 1)]> M))).
  { apply catalog_new_database; try done. lia. }
  set (M2 := with_object databases d b (<[NEXT_DATABASE_ID_KEY := to_be 4 (c + 1)]> M)) in *.
  destruct (ok_schemas (n + 1) M2 Hok2) as (c2 & Hc2 & Hr2 & Hf2).
  apply wp_bind, (wp_allocate _ c2); [apply (counter_in_range c2 (n + 1)); lia|done|].
  assert (Hcr : in_unsigned 32 c) by (apply (counter_in_range c n); lia).
  apply wp_bind, wp_write_schema; [split; [apply (counter_in_range c2 (n + 1)); lia|done]|].
  intros b2 Hb2. apply wp_ret. split; [done|]. replace (n + 2) with (n + 1 + 1) by lia.
  apply catalog_new_schema; try done; [lia| |].
  - exists (c + 1). split; [|split; [lia|cbn; lia]]. unfold M2, with_object. rewrite !lookup_insert_ne by key_ne.
    by rewrite lookup_insert_eq.
  - intros s Hs [Hsd _]. cbn in Hsd. destruct (ok_schema_databases n M Hok) as (c' & Hc' & Hr' & Hlt).
    assert (c' = c) as -> by (apply (same_counter M NEXT_DATABASE_ID_KEY); [done|done| |]; apply (counter_in_range _ n); lia).
    enough (sc_database_id s < c) by lia. apply Hlt. revert Hs. apply member_agree. unfold M2, with_object. agree_other.
Qed.

Lemma create_schema_keeps n M database_name schema_name if_not_exists : catalog_ok n M -> n < 2 ^ 32 - 2 ->
  wp (create_schema database_name schema_name if_not_exists) M (keeps (n + 2)).
Proof.
  intros Hok Hn. assert (Hok' : catalog_ok (n + 2) M) by (apply (catalog_ok_mono n); [lia|done]).
  unfold create_schema. apply wp_bind, (wp_bootstrap n); [done|].
  apply wp_bind, (wp_existing_database n); [done|by split|]. intros d Hd Hdn.
  apply wp_bind, (wp_get_schema n); [done|apply Hd| |].
  2: { intros s _ _ _. destruct if_not_exists; [apply wp_ret|apply wp_fail]; by split. }
  intros Hfree. destruct (ok_schemas n M Hok) as (c & Hc & Hr & Hf).
  apply wp_bind, (wp_allocate _ c); [apply (counter_in_range c n); lia|done|].
  apply wp_bind, wp_write_schema; [split; [apply (counter_in_range c n); lia|apply Hd]|]. intros b Hb.
  apply wp_ret. split; [done|]. apply (catalog_ok_mono (n + 1)); [lia|].
  apply catalog_new_schema; try done; [lia|apply Hd|].
  destruct (ok_databases n M Hok) as (cd & Hcd & Hrd & Hfd). exists cd. split; [done|]. split; [done|]. cbn.
  pose proof (member_below databases M cd d Hfd Hd) as Hlt. cbn in Hlt. lia.
Qed.

Lemma drop_schema_keeps n M database_name schema_name : catalog_ok n M ->
  wp (drop_schema database_name schema_name) M (keeps n).
Proof.
  intros Hok. unfold drop_schema. apply wp_bind, (wp_bootstrap n); [done|].
  apply (wp_within n); [done|by split|]. intros d s Hd Hdn Hs Hsd Hsn.
  apply wp_bind, wp_delete. apply wp_bind, wp_delete, wp_ret. split; [done|].
  rewrite <- Hsd, <- Hsn. change (delete _ _) with (without_object schemas s M).
  assert (Hmem := without_object_member schemas M s Hs).
  destruct (ok_schemas n M Hok) as (c & Hc & Hr & Hf). unfold without_object. catalog_parts n.
  - exists c. split; [lookup_other; exact Hc|]. split; [done|]. by apply (without_object_ok schemas).
  - destruct (ok_schema_databases n M Hok) as (c' & Hc' & Hr' & Hlt). exists c'.
    split; [lookup_other; exact Hc'|]. split; [done|]. intros s' [Hm _]%Hmem. by apply Hlt.
Qed.

Lemma drop_database_keeps n M database_name : catalog_ok n M -> database_name <> DEFAULT_DATABASE_NAME ->
  wp (drop_database database_name) M (keeps n).
Proof.
  intros Hok Hne. unfold drop_database. apply wp_bind, (wp_bootstrap n); [done|].
  apply wp_bind, (wp_get_database n); [done|intros _; apply wp_ret; by split|]. intros d Hd Hdn.
  apply wp_bind, wp_delete. apply wp_bind, wp_delete, wp_ret. split; [done|].
  rewrite <- Hdn. change (delete _ _) with (without_object databases d M).
  destruct (ok_databases n M Hok) as (c & Hc & Hr & Hf). unfold without_object. catalog_parts n.
  - rewrite lookup_delete_ne.
    + rewrite lookup_delete_ne by key_ne. apply (ok_default n M Hok).
    + intros E. apply Hne. apply (app_inv_head (fam_name_prefix databases)) in E. cbn in E.
      by rewrite <- Hdn, <- (of_as_bytes (db_name d)), E.
  - exists c. split; [lookup_other; exact Hc|]. split; [done|]. by apply (without_object_ok databases).
Qed.

(** *** Tables: their keys are outside the invariant *)

Lemma load_table_keeps n M database_name schema_name table_name : catalog_ok n M ->
  wp (load_table database_name schema_name table_name) M (keeps n).
Proof. intros Hok. apply (wp_load_table n); [done|]. intros r [Hr _]. by split. Qed.

Lemma write_table_keeps n M database_name schema_name d s schema : catalog_ok n M ->
  wp (write_table database_name schema_name d s schema) M (keeps n).
Proof.
  intros Hok. unfold write_table. apply wp_bind, wp_lift.
  match goal with |- context [encode_table_catalog ?t] =>
    pose proof (encode_value_settles "table" (table_value t)) as He; unfold encode_table_catalog;
    destruct (encode_value "table" (table_value t)) as [payload|e| |]; [|by split|done..] end.
  apply wp_bind, wp_put. apply wp_bind, wp_put.
  assert (Hok' : catalog_ok n (<[table_by_name_key d s (table_name (normalize_descriptor schema)) :=
    to_be 4 (table_id (normalize_descriptor schema))]>
    (<[table_by_id_key (table_id (normalize_descriptor schema)) := payload]> M))).
  { by apply catalog_put_table_name, catalog_put_table_id. }
  destruct (is_default _ _); [|by apply wp_ret].
  apply wp_bind, wp_lift. unfold encode_legacy_table_schema.
  pose proof (encode_value_settles "schema" (legacy_table_value (normalize_descriptor schema))) as Hl.
  destruct (encode_value "schema" _) as [legacy|e| |]; [|by split|done..].
  apply wp_put. split; [done|]. by apply catalog_put_legacy.
Qed.

Lemma store_table_keeps n M database_name schema_name schema : catalog_ok n M ->
  wp (store_table database_name schema_name schema) M (keeps n).
Proof.
  intros Hok. unfold store_table. apply wp_bind, (wp_bootstrap n); [done|].
  apply wp_bind, (wp_existing_database n); [done|by split|]. intros d Hd _.
  apply wp_bind, (wp_existing_schema n); [done|apply Hd|by split|]. intros s _ _ _. by apply write_table_keeps.
Qed.

Lemma wp_ok_or {A : Type} n M (e : pg_error) (o : option A) : catalog_ok n M -> wp (cat_lift (ok_or e o)) M (keeps n).
Proof. intros Hok. apply wp_lift. by destruct o. Qed.

Lemma bump_table_epoch_keeps n M database_name schema_name table_name : catalog_ok n M ->
  wp (bump_table_epoch database_name schema_name table_name) M (keeps n).
Proof.
  intros Hok. unfold bump_table_epoch. apply (wp_keeps n); [lia|by apply load_table_keeps|]. intros t M1 Hok1.
  apply (wp_keeps n); [lia|by apply wp_ok_or|]. intros t' M2 Hok2.
  apply (wp_keeps n); [lia|by apply store_table_keeps|]. intros [] M3 Hok3. by apply wp_ret.
Qed.

Lemma rename_table_keeps n M database_name schema_name old_name new_name : catalog_ok n M ->
  wp (rename_table database_name schema_name old_name new_name) M (keeps n).
Proof.
  intros Hok. unfold rename_table. apply wp_bind, (wp_bootstrap n); [done|].
  apply wp_bind, (wp_existing_database n); [done|by split|]. intros d Hd _.
  apply wp_bind, (wp_existing_schema n); [done|apply Hd|by split|]. intros s _ _ _.
  apply (wp_keeps n); [lia|by apply load_table_keeps|]. intros [t|] M1 Hok1; [apply wp_fail; by split|].
  apply (wp_keeps n); [lia|by apply load_table_keeps|]. intros t M2 Hok2.
  apply (wp_keeps n); [lia|by apply wp_ok_or|]. intros t' M3 Hok3.
  apply wp_bind, wp_delete. apply (catalog_delete_table_name n (db_id d) (sc_id s) old_name) in Hok3.
  apply (wp_keeps n); [lia| |].
  { destruct (is_default _ _); [apply wp_delete; split; [done|by apply catalog_delete_legacy]|by apply wp_ret]. }
  intros [] M4 Hok4. apply (wp_keeps n); [lia|by apply store_table_keeps|]. intros [] M5 Hok5. by apply wp_ret.
Qed.

Lemma allocate_table_id_keeps n M : catalog_ok n M -> n < 2 ^ 32 - 2 -> wp allocate_table_id M (keeps (n + 2)).
Proof.
  intros Hok Hn. unfold allocate_table_id. apply wp_bind, (wp_bootstrap n); [done|].
  destruct (ok_table_counter n M Hok) as (c & Hc & Hr).
  apply (wp_allocate _ c); [apply (counter_in_range c n); lia|done|]. split; [done|].
  apply (catalog_ok_mono (n + 1)); [lia|]. catalog_parts n. exists (c + 1). rewrite lookup_insert_eq. split; [done|lia].
Qed.

(** *** Views *)

Lemma catalog_view n M v b next_key c : catalog_ok n M -> next_key = NEXT_VIEW_ID_KEY ->
  family_at views next_key (n + 1) (with_object views v b (<[next_key := to_be 4 c]> M)) ->
  catalog_ok (n + 1) (with_object views v b (<[next_key := to_be 4 c]> M)).
Proof. intros Hok -> Hv. unfold with_object in *. catalog_parts n. exact Hv. Qed.

Lemma store_view_keeps n M database_name schema_name view_name definition or_replace if_not_exists :
  catalog_ok n M -> n < 2 ^ 32 - 2 ->
  wp (store_view database_name schema_name view_name definition or_replace if_not_exists) M (keeps (n + 2)).
Proof.
  intros Hok Hn. assert (Hok' : catalog_ok (n + 2) M) by (apply (catalog_ok_mono n); [lia|done]).
  unfold store_view. apply wp_bind, (wp_bootstrap n); [done|].
  apply wp_bind, (wp_existing_database n); [done|by split|]. intros d Hd Hdn.
  apply wp_bind, (wp_existing_schema n); [done|apply Hd|by split|]. intros s Hs Hsd Hsn.
  apply wp_bind, (wp_load_table n); [done|]. intros r [Hr _].
  destruct r as [[t|]|e| |]; [apply wp_fail; by split| |by split|done..].
  destruct (ok_views n M Hok) as (c & Hc & Hrange & Hf).
  apply wp_bind, (wp_load_view n); [done| |].
  - intros Hno. apply wp_bind, (wp_allocate _ c); [apply (counter_in_range c n); lia|done|].
    assert (Hw : in_unsigned 32 c) by (apply (counter_in_range c n); lia).
    apply wp_bind, wp_write_view; [split; [done|split; [apply Hd|apply Hs]]|]. intros b Hb.
    apply wp_ret. split; [done|]. apply (catalog_ok_mono (n + 1)); [lia|]. apply catalog_view; [done|done|].
    apply (family_new views); [outside_key|split; [done|split; [apply Hd|apply Hs]]|exact Hb|done|done|done|].
    intros v Hv E. pose proof Hv as ((_ & Wd & Ws) & _).
    destruct (scoped_name_inj _ _ _ _ _ _ Wd (proj1 Hd) Ws (proj1 (proj1 Hs)) E) as (E1 & E2 & E3).
    by apply (Hno d s v).
  - intros d' s' v _ _ _ _ _ Hv E1 E2 E3. destruct if_not_exists; [by apply wp_ret|].
    destruct or_replace; cbn [negb]; [|apply wp_fail; by split].
    set (v' := {| vw_id := vw_id v; vw_database_id := vw_database_id v; vw_schema_id := vw_schema_id v;
                  vw_schema_name := vw_schema_name v; vw_name := vw_name v; vw_definition := definition |}).
    assert (Hw : wf_view v') by apply Hv.
    apply wp_bind, wp_write_view; [done|]. intros b Hb. apply wp_ret. split; [done|].
    apply (catalog_ok_mono n); [lia|]. unfold with_object. catalog_parts n.
    exists c. split; [lookup_other; exact Hc|]. split; [done|].
    apply (with_object_ok views M v' b c); [done|done| | |lia|done].
    + by apply (slot_same views M v).
    + pose proof (member_below views M c v Hf Hv) as Hlt. cbn in *. lia.
Qed.

Lemma drop_view_keeps n M database_name schema_name view_name : catalog_ok n M ->
  wp (drop_view database_name schema_name view_name) M (keeps n).
Proof.
  intros Hok. unfold drop_view. apply wp_bind, (wp_bootstrap n); [done|].
  apply wp_bind, (wp_load_view n); [done|by intros _; apply wp_ret|].
  intros d s v _ _ _ _ _ Hv E1 E2 E3. apply wp_bind, wp_delete. apply wp_bind, wp_delete, wp_ret. split; [done|].
  rewrite <- E3. change (delete _ _) with (without_object views v M).
  destruct (ok_views n M Hok) as (c & Hc & Hr & Hf). unfold without_object. catalog_parts n.
  exists c. split; [lookup_other; exact Hc|]. split; [done|]. by apply (without_object_ok views).
Qed.

(** *** Indexes *)

Lemma by_table_outside t r k : (k = NEXT_INDEX_ID_KEY \/ exists s, k = fam_id_prefix indexes ++ s \/ k = fam_name_prefix indexes ++ s) ->
  k <> by_table_entry t r.
Proof. intros [->|(s & [->| ->])]; key_ne. Qed.

Lemma index_key_entry (i : IndexCatalog) :
  index_by_table_key (ix_table_id i) (ix_id i) = by_table_entry (ix_table_id i) (as_bytes (pretty (ix_id i))).
Proof. unfold index_by_table_key. apply index_by_table_entry. Qed.

(** Writing a new index adds it and no other. *)
Lemma with_index_member M c (i : IndexCatalog) b : family_ok indexes M c -> ix_id i = c -> wf_index i ->
  encode_index_catalog i = Ok b -> (forall i', member indexes M i' -> fam_name indexes i' <> fam_name indexes i) ->
  forall i', member indexes (with_index i b (<[NEXT_INDEX_ID_KEY := to_be 4 (c + 1)]> M)) i' <->
    i' = i \/ member indexes M i'.
Proof.
  intros Hf Hid Hw Hb Hfree i'. set (M1 := <[NEXT_INDEX_ID_KEY := to_be 4 (c + 1)]> M).
  assert (Ha : agree indexes M M1) by (unfold M1; agree_other).
  assert (Hslot : slot_ok indexes M1 i).
  { apply (slot_fresh indexes _ c); [by apply (family_agree indexes M)|cbn; lia|].
    intros o' Ho'. apply Hfree. by apply (member_agree indexes M _ _ Ha). }
  assert (Ha2 : agree indexes (with_object indexes i b M1) (with_index i b M1)).
  { unfold with_index. rewrite index_key_entry. agree_other. }
  rewrite <- (member_agree indexes _ _ i' Ha2), (with_object_member indexes M1 i b Hw Hb Hslot i').
  rewrite <- (member_agree indexes _ _ i' Ha). split; [intros [?|[? _]]; auto|intros [?|Hm]; [by left|]].
  right. split; [done|]. cbn. rewrite Hid. intros E. pose proof (member_below indexes M c i' Hf Hm) as Hlt. cbn in Hlt. lia.
Qed.

(** A new index keeps the entries of every table exact. *)
Lemma by_table_new n M c (i : IndexCatalog) b : catalog_ok n M -> family_ok indexes M c -> ix_id i = c -> wf_index i ->
  encode_index_catalog i = Ok b -> (forall i', member indexes M i' -> fam_name indexes i' <> fam_name indexes i) ->
  by_table_ok (with_index i b (<[NEXT_INDEX_ID_KEY := to_be 4 (c + 1)]> M)).
Proof.
  intros Hok Hf Hid Hw Hb Hfree. pose proof (with_index_member M c i b Hf Hid Hw Hb Hfree) as Hmem.
  set (M1 := <[NEXT_INDEX_ID_KEY := to_be 4 (c + 1)]> M) in *.
  intros t rest v Ht.
  assert (with_index i b M1 !! by_table_entry t rest =
    <[by_table_entry (ix_table_id i) (as_bytes (pretty (ix_id i))) := to_be 4 (ix_id i)]> (with_object indexes i b M1)
      !! by_table_entry t rest) as -> by (unfold with_index; by rewrite index_key_entry).
  setoid_rewrite Hmem. clear Hmem. destruct (decide (t = ix_table_id i /\ rest = as_bytes (pretty (ix_id i)))) as [[-> ->]|Hne].
  - rewrite lookup_insert_eq. split.
    + intros [= <-]. exists i. auto.
    + intros (i' & Hi' & Et & Ep & ->). f_equal. destruct Hi' as [->|Hi']; [done|].
      apply pretty_inj in Ep; [by rewrite Ep|destruct Hw as [Hw _]; unfold in_unsigned in Hw; lia|].
      destruct Hi' as ((Hwi & _) & _). unfold in_unsigned in Hwi. lia.
  - rewrite lookup_insert_ne.
    2: { intros E. symmetry in E. apply by_table_entry_inj in E; [auto|done|apply Hw]. }
    unfold with_object, M1. rewrite !lookup_insert_ne by key_ne. rewrite (ok_by_table n M Hok t rest v Ht).
    split; intros (i' & Hi' & R); exists i'; [auto|].
    destruct Hi' as [->|Hi']; [|by split]. destruct R as (<- & -> & _). by destruct Hne.
Qed.

Lemma create_index_keeps n M database_name schema_name table_name index_name column_names unique if_not_exists :
  catalog_ok n M -> n < 2 ^ 32 - 2 ->
  wp (create_index database_name schema_name table_name index_name column_names unique if_not_exists) M
    (fun r M' => keeps (n + 2) r M' /\ forall i, r = Ok (Some i) -> member indexes M' i).
Proof.
  intros Hok Hn. assert (Hok' : catalog_ok (n + 2) M) by (apply (catalog_ok_mono n); [lia|done]).
  unfold create_index. apply wp_bind, (wp_bootstrap n); [done|].
  apply wp_bind, (wp_load_table n); [done|]. intros r [Hr Hids]. destruct r as [[t|]|e| |]; [|by apply wp_bind, wp_lift|by split|done..].
  destruct (Hids t eq_refl) as (Hd & Hs & Ht). apply wp_bind, wp_lift. cbn [ok_or].
  apply wp_bind, (wp_get_index n); [done|done|done| |].
  2: { intros i _ _ _ _. destruct if_not_exists; [by apply wp_ret|apply wp_fail; by split]. }
  intros Hfree. destruct column_names as [|column_name column_names]; [apply wp_fail; by split|].
  destruct (ok_indexes n M Hok) as (c & Hc & Hrange & Hf).
  assert (Hcr : in_unsigned 32 c) by (apply (counter_in_range c n); lia).
  apply wp_bind, (wp_allocate _ c); [done|done|].
  match goal with |- context [write_index ?i] => set (i0 := i) end.
  assert (Hw : wf_index i0) by done.
  assert (Hname : forall i', member indexes M i' -> fam_name indexes i' <> fam_name indexes i0).
  { intros i' Hi' E. pose proof Hi' as ((_ & Wd & Ws & _) & _).
    destruct (scoped_name_inj _ _ _ _ _ _ Wd Hd Ws Hs E) as (E1 & E2 & E3). by apply (Hfree i' Hi'). }
  apply wp_bind, wp_write_index; [done|]. intros b Hb. apply wp_ret.
  pose proof (with_index_member M c i0 b Hf eq_refl Hw Hb Hname) as Hmem.
  split; [|intros i [= <-]; apply Hmem; by left]. split; [done|]. clear Hmem.
  apply (catalog_ok_mono (n + 1)); [lia|].
  pose proof (by_table_new n M c i0 b Hok Hf eq_refl Hw Hb Hname) as Hbt.
  assert (Hfam : family_at indexes NEXT_INDEX_ID_KEY (n + 1)
            (with_index i0 b (<[NEXT_INDEX_ID_KEY := to_be 4 (c + 1)]> M))).
  { apply (family_at_frame _ _ (n + 1) _ (with_object indexes i0 b (<[NEXT_INDEX_ID_KEY := to_be 4 (c + 1)]> M)));
      [unfold with_index; rewrite index_key_entry; agree_other|unfold with_index; rewrite index_key_entry; lookup_other|lia|].
    apply (family_new indexes); [outside_key|exact Hw|exact Hb|done|done|done|exact Hname]. }
  unfold with_index, with_object in *. rewrite index_key_entry in *. catalog_parts n; [exact Hfam|exact Hbt].
Qed.

(** The entries under a table's prefix are its indexes', and their documents are there:
    the list is every index of the table once, by name. *)
Definition by_name_order (l : list IndexCatalog) : Prop :=
  forall i j a b, l !! i = Some a -> l !! j = Some b -> (i < j)%nat -> string_cmp (ix_name a) (ix_name b) <> Gt.

Lemma sort_by_name_sorted l : by_name_order (sort_by (fun a b => string_cmp (ix_name a) (ix_name b)) l).
Proof.
  apply (sort_by_sorted (fun a b => string_cmp (ix_name a) (ix_name b)) (fun _ => True)).
  - intros a b. unfold string_cmp. apply bytes_cmp_antisym.
  - intros a b c _ _ _. unfold string_cmp. intros Hab Hbc.
    assert (Hle : forall x y, bytes_cmp x y <> Gt <-> bytes_leb x y = true).
    { intros x y. unfold bytes_leb. by destruct (bytes_cmp x y). }
    rewrite Hle in *. by apply (bytes_leb_trans _ (as_bytes (ix_name b))).
  - by apply Forall_true.
Qed.

Lemma wp_list_indexes n M (table_id : Z) (Q : PgWireResult (list IndexCatalog) -> kvmap -> Prop) : catalog_ok n M ->
  in_unsigned 32 table_id ->
  (forall l, NoDup l -> (forall i, i ∈ l <-> member indexes M i /\ ix_table_id i = table_id) -> by_name_order l -> Q (Ok l) M) ->
  wp (list_indexes_for_table table_id) M Q.
Proof.
  intros Hok Ht HQ. unfold list_indexes_for_table. apply wp_bind, (wp_bootstrap n); [done|].
  apply wp_bind, wp_scan. set (entries := KvStore.store_scan_prefix M (index_by_table_prefix table_id)).
  assert (He : forall e, e ∈ entries <-> exists i, member indexes M i /\ ix_table_id i = table_id /\
    e = (by_table_entry table_id (as_bytes (pretty (ix_id i))), to_be 4 (ix_id i))).
  { intros [k v]. unfold entries, KvStore.store_scan_prefix. rewrite btree_iter_elem, rows_where_lookup.
    destruct (starts_with k (index_by_table_prefix table_id)) eqn:E.
    - apply starts_with_spec in E as [r ->]. rewrite index_by_table_entry, (ok_by_table n M Hok table_id r v Ht).
      split; intros (i & Hi & Et & R); exists i; split; try done; split; try done.
      + by destruct R as [-> ->].
      + pose proof (f_equal fst R) as R1. pose proof (f_equal snd R) as R2. cbn [fst snd] in R1, R2.
        split; [|done]. by apply by_table_entry_inj in R1 as [_ ->].
    - split; [done|]. intros (i & _ & _ & R). apply (f_equal fst) in R. cbn [fst] in R. subst k. rewrite <- index_by_table_entry in E.
      rewrite (proj2 (starts_with_spec _ _)) in E; [done|by eexists]. }
  assert (Hnd : NoDup entries) by (eapply NoDup_fmap_1, btree_iter_nodup).
  clearbody entries. apply wp_bind.
  apply (wp_map_read _ (fun (e : kvrow) i => member indexes M i /\ ix_table_id i = table_id /\
    e = (by_table_entry table_id (as_bytes (pretty (ix_id i))), to_be 4 (ix_id i)))).
  - intros e Hin Q' HQ'. destruct (proj1 (He e) Hin) as (i & Hi & Et & ->). cbn [snd].
    apply wp_bind, wp_lift. change (ix_id i) with (fam_id indexes i) at 1. rewrite (decode_u32_id indexes i _ (proj1 Hi)). apply wp_bind, wp_get.
    destruct (member_document indexes M i Hi) as (b & L & D).
    change (index_by_id_key (fam_id indexes i)) with (fam_id_key indexes (fam_id indexes i)). rewrite L. apply wp_lift.
    change (decode_index_catalog b) with (fam_decode indexes b). rewrite D. by apply HQ'.
  - intros l Hl. apply wp_ret, HQ; [..|apply sort_by_name_sorted].
    + unfold sort_by. rewrite merge_sort_Permutation. clear HQ He. induction Hl as [|e i entries l Hei Hl IH]; [constructor|].
      apply NoDup_cons in Hnd as [Hn Hnd]. apply NoDup_cons. split; [|by apply IH].
      intros Hin. apply Hn. destruct Hei as (_ & _ & ->).
      apply list_elem_of_lookup in Hin as [j Hj]. destruct (Forall2_lookup_r _ _ _ _ _ Hl Hj) as (e & Hej & _ & _ & ->).
      apply list_elem_of_lookup. by exists j.
    + intros i. unfold sort_by. rewrite merge_sort_Permutation. split.
      * intros Hin. apply list_elem_of_lookup in Hin as [j Hj].
        destruct (Forall2_lookup_r _ _ _ _ _ Hl Hj) as (e & Hej & Hi & Et & _). done.
      * intros [Hi Et].
        assert (Hin : (by_table_entry table_id (as_bytes (pretty (ix_id i))), to_be 4 (ix_id i)) ∈ entries).
        { apply He. by exists i. }
        apply list_elem_of_lookup in Hin as [j Hj]. destruct (Forall2_lookup_l _ _ _ _ _ Hl Hj) as (i' & Hj' & Hi' & _ & E).
        apply (f_equal snd) in E. cbn [snd] in E. apply list_elem_of_lookup. exists j. rewrite Hj'. f_equal.
        apply (member_same_id indexes M); [done..|]. symmetry. apply id_bytes_inj; [apply Hi|apply Hi'|done].
Qed.

(** [i] is in the catalog, or none of its keys is. *)
Definition gone (M : kvmap) (i : IndexCatalog) : Prop :=
  M !! index_by_id_key (ix_id i) = None /\
  M !! index_by_name_key (ix_database_id i) (ix_schema_id i) (ix_name i) = None /\
  M !! index_by_table_key (ix_table_id i) (ix_id i) = None.
Definition present_or_gone (M : kvmap) (i : IndexCatalog) : Prop := member indexes M i \/ gone M i.

Definition without_index (i : IndexCatalog) (M : kvmap) : kvmap :=
  delete (index_by_table_key (ix_table_id i) (ix_id i)) (without_object indexes i M).

Lemma without_index_ok n M i : catalog_ok n M -> member indexes M i -> catalog_ok n (without_index i M).
Proof.
  intros Hok Hi. destruct (ok_indexes n M Hok) as (c & Hc & Hr & Hf).
  assert (Ha : agree indexes (without_object indexes i M) (without_index i M)).
  { unfold without_index. rewrite index_key_entry. agree_other. }
  assert (Hmem : forall i', member indexes (without_index i M) i' <-> member indexes M i' /\ ix_id i' <> ix_id i).
  { intros i'. rewrite <- (member_agree indexes _ _ i' Ha). apply (without_object_member indexes M i Hi). }
  assert (Hfam : family_at indexes NEXT_INDEX_ID_KEY n (without_index i M)).
  { apply (family_at_frame _ _ n _ (without_object indexes i M)); [done| |lia|].
    - unfold without_index. rewrite index_key_entry. lookup_other.
    - exists c. split; [unfold without_object; lookup_other; exact Hc|]. split; [done|].
      by apply (without_object_ok indexes). }
  assert (Hbt : by_table_ok (without_index i M)).
  { intros t rest v Ht. setoid_rewrite Hmem.
    assert (Hl : without_index i M !! by_table_entry t rest =
      delete (by_table_entry (ix_table_id i) (as_bytes (pretty (ix_id i)))) (without_object indexes i M) !! by_table_entry t rest).
    { unfold without_index. by rewrite index_key_entry. }
    assert (Hk : forall i', wf_index i' -> ix_id i' = ix_id i <-> as_bytes (pretty (ix_id i')) = as_bytes (pretty (ix_id i))).
    { intros i' [Hw _]. split; [by intros ->|]. destruct Hi as ((Hwi & _) & _). unfold in_unsigned in *. apply pretty_inj; lia. }
    rewrite Hl, lookup_delete_Some. unfold without_object. rewrite !lookup_delete_ne by key_ne.
    rewrite (ok_by_table n M Hok t rest v Ht). split.
    - intros (Hne & i' & Hi' & <- & -> & ->). exists i'. split; [|done]. split; [done|]. intros E. apply Hne.
      by rewrite (member_same_id indexes M i' i Hi' Hi E).
    - intros (i' & [Hi' Hne] & <- & -> & ->). split; [|by exists i']. intros E. apply Hne.
      apply by_table_entry_inj in E as [_ E]; [|apply Hi|apply Hi']. symmetry in E. revert E. apply Hk. apply Hi'. }
  unfold without_index, without_object in *. rewrite index_key_entry in *. catalog_parts n; [exact Hfam|exact Hbt].
Qed.

Lemma gone_delete M i k : gone M i -> gone (delete k M) i.
Proof. intros (H1' & H2' & H3'). unfold gone. by rewrite !lookup_delete_None; auto. Qed.

Lemma drop_index_step n M (l : list IndexCatalog) i : catalog_ok n M -> i ∈ l -> Forall (present_or_gone M) l ->
  wp (drop_index_by_id i) M (fun r M' => r = Ok tt /\ catalog_ok n M' /\ Forall (present_or_gone M') l).
Proof.
  intros Hok Hin Hall. unfold drop_index_by_id. apply wp_bind, wp_delete. apply wp_bind, wp_delete, wp_delete.
  change (catalog_ok n ?m) with (catalog_ok n m).
  assert (E : delete (index_by_table_key (ix_table_id i) (ix_id i))
    (delete (index_by_name_key (ix_database_id i) (ix_schema_id i) (ix_name i)) (delete (index_by_id_key (ix_id i)) M)) =
    without_index i M) by done.
  rewrite E. split; [done|]. destruct (proj1 (Forall_forall _ l) Hall i Hin) as [Hi|Hi].
  - split; [by apply without_index_ok|]. apply Forall_forall. intros i' Hin'.
    destruct (proj1 (Forall_forall _ l) Hall i' Hin') as [Hi'|Hi'].
    + destruct (decide (ix_id i' = ix_id i)) as [Eid|Eid].
      * rewrite (member_same_id indexes M i' i Hi' Hi Eid). right. unfold gone, without_index, without_object.
        rewrite !lookup_delete_None. cbn. auto 10.
      * left. assert (Ha : agree indexes (without_object indexes i M) (without_index i M)).
        { unfold without_index. rewrite index_key_entry. agree_other. }
        apply (member_agree indexes _ _ i' Ha). by apply (without_object_member indexes M i Hi).
    + right. by apply gone_delete, gone_delete, gone_delete.
  - assert (without_index i M = M) as ->; [|done]. destruct Hi as (G1 & G2 & G3).
    unfold without_index, without_object. rewrite (delete_id M) by exact G1. rewrite (delete_id M) by exact G2.
    by apply delete_id.
Qed.

Lemma drop_indexes n (l rest : list IndexCatalog) : forall M, catalog_ok n M -> Forall (fun i => i ∈ l) rest ->
  Forall (present_or_gone M) l -> wp (fold_m (fun _ i => drop_index_by_id i) tt rest) M (keeps n).
Proof.
  induction rest as [|i rest IH]; intros M Hok Hsub Hall; cbn [fold_m]; [by apply wp_ret|].
  apply Forall_cons in Hsub as [Hi Hsub]. apply wp_bind.
  eapply wp_mono; [by apply (drop_index_step n M l i)|]. intros r M' (-> & Hok' & Hall'). by apply IH.
Qed.

Lemma drop_index_keeps n M d s index_name : catalog_ok n M -> in_unsigned 32 d -> in_unsigned 32 s ->
  wp (drop_index d s index_name) M (keeps n).
Proof.
  intros Hok Hd Hs. unfold drop_index. apply wp_bind, (wp_bootstrap n); [done|].
  apply wp_bind, (wp_get_index n); [done|done|done|intros _; by apply wp_ret|]. intros i Hi _ _ _.
  apply wp_bind. eapply wp_mono; [apply (drop_index_step n M [i] i); [done|by constructor|]|].
  - constructor; [by left|constructor].
  - intros r M' (-> & Hok' & _). by apply wp_ret.
Qed.

Lemma drop_table_keeps n M database_name schema_name table_name : catalog_ok n M ->
  wp (drop_table database_name schema_name table_name) M (keeps n).
Proof.
  intros Hok. unfold drop_table. apply wp_bind, (wp_bootstrap n); [done|].
  apply wp_bind, (wp_load_table n); [done|]. intros r [Hr Hids].
  destruct r as [[t|]|e| |]; [|by apply wp_ret|by split|done..]. destruct (Hids t eq_refl) as (_ & _ & Ht).
  apply wp_bind, wp_delete. apply wp_bind, wp_delete.
  apply (catalog_delete_table_id n (table_id (tc_schema t))) in Hok.
  apply (catalog_delete_table_name n (tc_database_id t) (tc_schema_id t) table_name) in Hok.
  set (M1 := delete _ _) in *. apply wp_bind, (wp_list_indexes n); [done|done|]. intros l _ Hl _.
  apply (wp_keeps n); [lia| |].
  - apply (drop_indexes n l); [done|by apply Forall_forall|]. apply Forall_forall. intros i Hi. left. by apply Hl.
  - intros [] M2 Hok2. apply (wp_keeps n); [lia| |].
    + destruct (is_default _ _); [apply wp_delete; split; [done|by apply catalog_delete_legacy]|by apply wp_ret].
    + intros [] M3 Hok3. by apply wp_ret.
Qed.
End Invariant.
