(* ===== verification/CatalogRun.v ===== *)
(** * What the catalog promises

    The theorems about [CatalogStore] as its callers see it: any history of calls
    keeps the invariant of [CatalogOk]; lookups answer exactly what is there; a table
    that was stored is loaded back; the indexes of a table are listed; a catalog opens
    only in the mode that created it. *)

From stdpp Require Import pretty sorting.
From S2P Require Import Prelude BTree Float Types Values Text Mode DataTypes LegacyCodec KvStore Stores Heap Json.
From S2P Require Import Catalog CatalogStore CatalogLogic CatalogOk.

(** ** Histories of calls *)

Inductive catalog_call : Type :=
  | CreateDatabase (database_name : string) (if_not_exists : bool)
  | DropDatabase (database_name : string)
  | CreateSchema (database_name schema_name : string) (if_not_exists : bool)
  | DropSchema (database_name schema_name : string)
  | AllocateTableId
  | StoreTable (database_name schema_name : string) (schema : TableSchema)
  | LoadTable (database_name schema_name table_name : string)
  | DropTable (database_name schema_name table_name : string)
  | RenameTable (database_name schema_name old_table_name new_table_name : string)
  | BumpTableEpoch (database_name schema_name table_name : string)
  | CreateIndex (database_name schema_name table_name index_name : string) (column_names : list string)
      (unique if_not_exists : bool)
  | DropIndex (database_id schema_id : Z) (index_name : string)
  | StoreView (database_name schema_name view_name definition : string) (or_replace if_not_exists : bool)
  | DropView (database_name schema_name view_name : string).

Section Run.
Context {W T : Type} `{KvStoreLaws W T, SerdeJsonLaws}.

Definition quietly {A : Type} (m : Cat W A) : Cat W unit := _ ← m; mret tt.

Definition exec (call : catalog_call) : Cat W unit :=
  match call with
  | CreateDatabase d b => quietly (create_database d b)
  | DropDatabase d => quietly (drop_database d)
  | CreateSchema d s b => quietly (create_schema d s b)
  | DropSchema d s => quietly (drop_schema d s)
  | AllocateTableId => quietly allocate_table_id
  | StoreTable d s t => store_table d s t
  | LoadTable d s t => quietly (load_table d s t)
  | DropTable d s t => quietly (drop_table d s t)
  | RenameTable d s t t' => quietly (rename_table d s t t')
  | BumpTableEpoch d s t => quietly (bump_table_epoch d s t)
  | CreateIndex d s t i cs u b => quietly (create_index d s t i cs u b)
  | DropIndex d s i => quietly (drop_index d s i)
  | StoreView d s v text r b => quietly (store_view d s v text r b)
  | DropView d s v => quietly (drop_view d s v)
  end.

(** The default database is not dropped, and identifiers are 32 bits wide. *)
Definition allowed (call : catalog_call) : Prop :=
  match call with
  | DropDatabase d => d <> DEFAULT_DATABASE_NAME
  | DropIndex d s _ => in_unsigned 32 d /\ in_unsigned 32 s
  | _ => True
  end.

(** The store after a history; a call that fails leaves what it wrote. *)
Definition run (calls : list catalog_call) (w : W) : W := foldl (fun w call => (exec call w).2) w calls.

(** A store no catalog was ever written to. *)
Definition pristine (M : kvmap) : Prop := forall r, M !! (as_bytes "__catalog__/" ++ r) = None.

Lemma wp_run {A : Type} (m : Cat W A) (w : W) (Q : PgWireResult A -> kvmap -> Prop) : wp m (store_rows w) Q ->
  exists r w', m w = (r, w') /\ Q r (store_rows w').
Proof. intros (r & M' & HQ & Hm). destruct (Hm w eq_refl) as (w' & Em & <-). by exists r, w'. Qed.

Lemma quietly_keeps {A : Type} (n : Z) (m : Cat W A) (M : kvmap) : wp m M (keeps n) -> wp (quietly m) M (keeps n).
Proof. intros Hm. apply (wp_keeps n); [lia|done|]. intros a M' Hok. by apply wp_ret. Qed.

Lemma exec_keeps (n : Z) (M : kvmap) (call : catalog_call) : catalog_ok n M -> n < 2 ^ 32 - 2 -> allowed call ->
  wp (exec call) M (keeps (n + 2)).
Proof.
  intros Hok Hn Ha.
  assert (Hweak : forall A (m : Cat W A), wp m M (keeps n) -> wp m M (keeps (n + 2))).
  { intros A m Hm. eapply wp_mono; [exact Hm|]. intros r M' Hk. by apply (keeps_mono n); [lia|]. }
  destruct call; cbn [exec allowed] in *.
  - by apply quietly_keeps, create_database_keeps.
  - by apply quietly_keeps, Hweak, drop_database_keeps.
  - by apply quietly_keeps, create_schema_keeps.
  - by apply quietly_keeps, Hweak, drop_schema_keeps.
  - by apply quietly_keeps, allocate_table_id_keeps.
  - by apply Hweak, store_table_keeps.
  - by apply quietly_keeps, Hweak, load_table_keeps.
  - by apply quietly_keeps, Hweak, drop_table_keeps.
  - by apply quietly_keeps, Hweak, rename_table_keeps.
  - by apply quietly_keeps, Hweak, bump_table_epoch_keeps.
  - apply quietly_keeps. eapply wp_mono; [by apply create_index_keeps|]. by intros r M' [Hk _].
  - destruct Ha. by apply quietly_keeps, Hweak, drop_index_keeps.
  - by apply quietly_keeps, store_view_keeps.
  - by apply quietly_keeps, Hweak, drop_view_keeps.
Qed.

(** *** Bootstrap *)

Lemma pristine_family (F : Family) (a b : list byte) M c : pristine M ->
  fam_id_prefix F = as_bytes "__catalog__/" ++ a -> fam_name_prefix F = as_bytes "__catalog__/" ++ b ->
  family_ok F M c.
Proof.
  intros Hp Ea Eb. split.
  - intros k v Hk. by rewrite Ea, <- app_assoc, Hp in Hk.
  - intros n v Hk. unfold fam_name_key in Hk. by rewrite Eb, <- app_assoc, Hp in Hk.
Qed.

Lemma pristine_bootstrap (M : kvmap) : pristine M ->
  wp ensure_bootstrap M (fun r M' => r = Ok tt /\ catalog_ok 2 M').
Proof.
  intros Hp. unfold ensure_bootstrap. apply wp_bind, wp_get.
  rewrite (Hp (as_bytes "databases/by-name/defaultdb") : M !! database_by_name_key DEFAULT_DATABASE_NAME = None).
  do 5 (apply wp_bind, wp_put).
  set (M0 := <[NEXT_VIEW_ID_KEY := _]> _).
  apply wp_bind, wp_write_database; [by split|]. intros b1 Hb1. apply wp_write_schema; [by split|]. intros b2 Hb2.
  set (d := {| db_id := 1; db_name := DEFAULT_DATABASE_NAME |}) in *.
  set (s := {| sc_id := 1; sc_database_id := 1; sc_name := DEFAULT_SCHEMA_NAME |}) in *.
  split; [done|].
  assert (Hdb : family_ok databases M0 1).
  { apply (family_agree databases M); [unfold M0; agree_other|].
    by apply (pristine_family databases (as_bytes "databases/by-id/") (as_bytes "databases/by-name/")). }
  assert (Hsc : family_ok schemas M0 1).
  { apply (family_agree schemas M); [unfold M0; agree_other|].
    by apply (pristine_family schemas (as_bytes "schemas/by-id/") (as_bytes "schemas/by-name/")). }
  assert (Hvw : family_ok views M 1)
    by (by apply (pristine_family views (as_bytes "views/by-id/") (as_bytes "views/by-name/"))).
  assert (Hix : family_ok indexes M 1)
    by (by apply (pristine_family indexes (as_bytes "indexes/by-id/") (as_bytes "indexes/by-name/"))).
  assert (Hno : forall (F : Family) `{!FamilyLaws F} M o, family_ok F M 1 -> ~ member F M o).
  { intros F HF M' o Hf Ho. pose proof (member_below F M' 1 o Hf Ho). lia. }
  assert (Hdb' : family_ok databases (with_object databases d b1 M0) 2).
  { apply (with_object_ok databases M0 d b1 1); [by split|done| |cbn; lia|lia|done].
    intros o' Ho'. by destruct (Hno databases _ M0 o' Hdb). }
  set (M1 := with_object databases d b1 M0) in *.
  assert (Hsc1 : family_ok schemas M1 1) by (apply (family_agree schemas M0); [unfold M1, with_object; agree_other|done]).
  assert (Hslot : slot_ok schemas M1 s) by (intros o' Ho'; by destruct (Hno schemas _ M1 o' Hsc1)).
  assert (Hsc' : family_ok schemas (with_object schemas s b2 M1) 2).
  { apply (with_object_ok schemas M1 s b2 1); [by split|done|done|cbn; lia|lia|done]. }
  split.
  - unfold M1, with_object. rewrite !lookup_insert_ne by key_ne. exists (to_be 4 1). by rewrite lookup_insert_eq.
  - exists 2. split; [|split; [lia|]].
    + unfold M1, M0, with_object. rewrite !lookup_insert_ne by key_ne. by rewrite lookup_insert_eq.
    + apply (family_agree databases M1); [unfold with_object; agree_other|done].
  - exists 2. split; [|by split; [lia|]].
    unfold M1, M0, with_object. rewrite !lookup_insert_ne by key_ne. by rewrite lookup_insert_eq.
  - exists 1. split; [|split; [lia|]].
    + unfold M1, M0, with_object. rewrite !lookup_insert_ne by key_ne. by rewrite lookup_insert_eq.
    + apply (family_agree views M); [unfold M1, M0, with_object; agree_other|done].
  - exists 1. split; [|split; [lia|]].
    + unfold M1, M0, with_object. rewrite !lookup_insert_ne by key_ne. by rewrite lookup_insert_eq.
    + apply (family_agree indexes M); [unfold M1, M0, with_object; agree_other|done].
  - exists 1. split; [|lia].
    unfold M1, M0, with_object. rewrite !lookup_insert_ne by key_ne. by rewrite lookup_insert_eq.
  - assert (Ha : agree indexes M (with_object schemas s b2 M1)) by (unfold M1, M0, with_object; agree_other).
    intros t rest v Ht.
    assert (with_object schemas s b2 M1 !! by_table_entry t rest = None) as ->.
    { unfold M1, M0, with_object. rewrite !lookup_insert_ne by key_ne.
      exact (Hp (as_bytes "indexes/by-table/" ++ as_bytes (pretty t) ++ x2f :: rest)). }
    split; [done|].
    intros (i & Hi & _). apply (member_agree indexes _ _ i Ha) in Hi. by apply (Hno indexes _ M i Hix) in Hi.
  - exists 2. split; [|split; [lia|]].
    + unfold M1, M0, with_object. rewrite !lookup_insert_ne by key_ne. by rewrite lookup_insert_eq.
    + intros s' Hs'. apply (with_object_member schemas M1 s b2) in Hs' as [->|[Hs' _]]; [cbn; lia| |by split|done|done].
      by apply (Hno schemas _ M1 s' Hsc1) in Hs'.
Qed.

Lemma run_ok (n : Z) (calls : list catalog_call) : forall (w : W), catalog_ok n (store_rows w) -> Forall allowed calls ->
  n + 2 * len calls < 2 ^ 32 - 2 -> catalog_ok (n + 2 * len calls) (store_rows (run calls w)).
Proof.
  revert n. induction calls as [|call calls IH]; intros n w Hok Ha Hn; unfold run; cbn [foldl].
  - replace (n + 2 * len (@nil catalog_call)) with n by (unfold len; cbn; lia). exact Hok.
  - apply Forall_cons in Ha as [Hc Ha]. rewrite len_cons in *. pose proof (len_nonneg calls).
    destruct (wp_run (exec call) w _ (exec_keeps n _ call Hok ltac:(lia) Hc)) as (r & w' & E & Hr & Hok').
    rewrite E. cbn [snd]. replace (n + 2 * (1 + len calls)) with (n + 2 + 2 * len calls) by lia.
    apply IH; [done|done|lia].
Qed.

(** *** Storing and loading a table *)

Lemma normal_wf s : wf_table_schema s -> len (columns s) < 2 ^ 32 -> wf_table_schema (normalize_descriptor s).
Proof.
  intros (Hi & Hv & He & Hc) Hl. split; [done|]. unfold in_unsigned in *. cbn.
  split; [destruct (schema_version s =? 0); lia|]. split; [destruct (table_epoch s =? 0); lia|].
  apply Forall_forall. intros c [k Hk]%list_elem_of_lookup. rewrite list_lookup_imap in Hk.
  destruct (columns s !! k) as [c'|] eqn:Ec; [|done]. cbn in Hk. injection Hk as <-.
  destruct (proj1 (Forall_lookup _ _) Hc k c' Ec) as [Hci Hcd]. apply lookup_lt_Some in Ec.
  destruct (column_id c' =? 0); [|done]. split; [|done]. unfold in_unsigned, len in *. cbn.
  rewrite Z.mod_small by lia. lia.
Qed.

Lemma load_written (n : Z) (M : kvmap) d s (schema : TableSchema) payload name : catalog_ok n M ->
  member databases M d -> member schemas M s -> sc_database_id s = db_id d -> name = table_name schema ->
  in_unsigned 32 (table_id schema) ->
  M !! table_by_name_key (db_id d) (sc_id s) name = Some (to_be 4 (table_id schema)) ->
  M !! table_by_id_key (table_id schema) = Some payload ->
  wp (load_table (db_name d) (sc_name s) name) M
    (fun r M' => M' = M /\ r = (t ← decode_table_catalog payload; Ok (Some t))).
Proof.
  intros Hok Hd Hs Hsd -> Hid Hname Hpay. unfold load_table. apply wp_bind, (wp_bootstrap n); [done|].
  unfold within. apply wp_bind, (wp_get_database n); [done|intros Hno; by destruct (Hno d Hd)|].
  intros d' Hd' Hdn. assert (d' = d) as -> by (apply (member_same_name databases M); [done..|cbn; congruence]).
  apply wp_bind, (wp_get_schema n); [done|apply Hd|intros Hno; by destruct (Hno s Hs)|].
  intros s' Hs' Hsd' Hsn. assert (s' = s) as -> by (apply (member_same_name schemas M); [done..|cbn; congruence]).
  apply wp_bind, wp_get. rewrite Hname. apply wp_bind, wp_lift. unfold decode_u32. rewrite length_to_be. cbn [Nat.eqb].
  assert (from_be (to_be 4 (table_id schema)) = table_id schema) as ->.
  { rewrite from_be_to_be. by apply in_unsigned_mod. }
  apply wp_bind, wp_get. rewrite Hpay. apply wp_bind, wp_lift.
  destruct (decode_table_catalog payload) as [t|e| |]; [by apply wp_ret|done..].
Qed.

Lemma wp_store_load (n : Z) (M : kvmap) d s (schema : TableSchema) : catalog_ok n M -> member databases M d ->
  member schemas M s -> sc_database_id s = db_id d -> wf_table_schema schema -> len (columns schema) < 2 ^ 32 ->
  wp (_ ← store_table (db_name d) (sc_name s) schema; load_table (db_name d) (sc_name s) (table_name schema)) M
    (fun r M' => catalog_ok n M' /\ r = Ok (Some (stored_table
      {| tc_database_id := db_id d; tc_schema_id := sc_id s; tc_schema_name := sc_name s;
         tc_table_name := table_name schema; tc_schema := normalize_descriptor schema |}))).
Proof.
  intros Hok Hd Hs Hsd Hwf Hlen. apply wp_bind. unfold store_table. apply wp_bind, (wp_bootstrap n); [done|].
  apply wp_bind. unfold existing_database. apply wp_bind, (wp_get_database n); [done|intros Hno; by destruct (Hno d Hd)|].
  intros d' Hd' Hdn. assert (d' = d) as -> by (apply (member_same_name databases M); [done..|cbn; congruence]).
  apply wp_lift. cbn [ok_or]. apply wp_bind. unfold existing_schema.
  apply wp_bind, (wp_get_schema n); [done|apply Hd|intros Hno; by destruct (Hno s Hs)|].
  intros s' Hs' Hsd' Hsn. assert (s' = s) as -> by (apply (member_same_name schemas M); [done..|cbn; congruence]).
  apply wp_lift. cbn [ok_or]. unfold write_table.
  set (schema' := normalize_descriptor schema).
  set (t := {| tc_database_id := db_id d; tc_schema_id := sc_id s; tc_schema_name := sc_name s;
               tc_table_name := table_name schema'; tc_schema := schema' |}).
  assert (Ht : wf_table t) by (split; [apply Hd|split; [apply Hs|by apply normal_wf]]).
  destruct (table_roundtrip t Ht) as (payload & Ep & Dp). apply wp_bind, wp_lift. rewrite Ep.
  apply wp_bind, wp_put. apply wp_bind, wp_put. set (M1 := <[_ := _]> _).
  assert (Hok1 : catalog_ok n M1) by (by apply catalog_put_table_name, catalog_put_table_id).
  assert (Hname : M1 !! table_by_name_key (db_id d) (sc_id s) (table_name schema) = Some (to_be 4 (table_id schema)))
    by apply lookup_insert_eq.
  assert (Hpay : M1 !! table_by_id_key (table_id schema) = Some payload).
  { unfold M1. rewrite lookup_insert_ne by key_ne. apply lookup_insert_eq. }
  assert (Hm : forall M2, catalog_ok n M2 -> agree databases M M2 -> agree schemas M M2 ->
    M2 !! table_by_name_key (db_id d) (sc_id s) (table_name schema) = Some (to_be 4 (table_id schema)) ->
    M2 !! table_by_id_key (table_id schema) = Some payload ->
    wp (load_table (db_name d) (sc_name s) (table_name schema)) M2
      (fun r M' => catalog_ok n M' /\ r = Ok (Some (stored_table t)))).
  { intros M2 Hok2 Ad As Hn2 Hp2. eapply wp_mono; [apply (load_written n M2 d s schema payload); try done|].
    - by apply (member_agree databases M M2 d Ad).
    - by apply (member_agree schemas M M2 s As).
    - apply Hwf.
    - intros r M' [-> ->]. by rewrite Dp. }
  destruct (is_default (db_name d) (sc_name s)).
  - assert (Hs1 : wf_table_schema schema') by (by apply normal_wf).
    destruct (legacy_table_roundtrip schema' Hs1) as (legacy & El & _). apply wp_bind, wp_lift. rewrite El.
    apply wp_put, Hm; [by apply catalog_put_legacy|unfold M1; agree_other|unfold M1; agree_other|lookup_other; done|lookup_other; done].
  - apply wp_ret, Hm; [done|unfold M1; agree_other|unfold M1; agree_other|done|done].
Qed.

(** *** The mode *)

Lemma wp_compat_mode (utf8_error : list byte -> string) (M : kvmap) (mode : GatewayMode) (Q : PgWireResult (option GatewayMode) -> kvmap -> Prop) :
  M !! COMPAT_MODE_KEY = Some (as_bytes (mode_as_str mode)) -> Q (Ok (Some mode)) M -> wp (compat_mode utf8_error) M Q.
Proof.
  intros Hm HQ. unfold compat_mode. apply wp_bind, wp_get. rewrite Hm.
  assert (from_utf8 (as_bytes (mode_as_str mode)) = Some (mode_as_str mode)) as -> by (by destruct mode).
  apply wp_bind, wp_lift. rewrite parse_mode_as_str. by apply wp_ret.
Qed.

Lemma wp_reopen (utf8_error : list byte -> string) (n : Z) (M : kvmap) (mode mode' : GatewayMode) : catalog_ok n M ->
  M !! COMPAT_MODE_KEY = Some (as_bytes (mode_as_str mode)) ->
  wp (ensure_bootstrap_for_mode utf8_error mode') M (fun r M' => M' = M /\
    r = if bool_decide (mode' = mode) then Ok tt
        else user_error "XX000" ("catalog was created in " +:+ mode_as_str mode +:+
                                 " mode and cannot be opened in " +:+ mode_as_str mode' +:+ " mode")).
Proof.
  intros Hok Hm. unfold ensure_bootstrap_for_mode. apply wp_bind, (wp_bootstrap n); [done|].
  apply wp_bind, (wp_compat_mode _ _ mode); [done|]. destruct mode, mode'; by apply wp_lift.
Qed.

Lemma wp_open (utf8_error : list byte -> string) (n : Z) (M : kvmap) (mode : GatewayMode) : catalog_ok n M -> M !! COMPAT_MODE_KEY = None ->
  wp (ensure_bootstrap_for_mode utf8_error mode) M (fun r M' => r = Ok tt /\ catalog_ok n M' /\
    M' !! COMPAT_MODE_KEY = Some (as_bytes (mode_as_str mode))).
Proof.
  intros Hok Hm. unfold ensure_bootstrap_for_mode. apply wp_bind, (wp_bootstrap n); [done|].
  unfold compat_mode. apply wp_bind. apply wp_bind, wp_get. rewrite Hm. apply wp_ret, wp_put.
  split; [done|]. split; [by apply catalog_put_mode|]. by rewrite lookup_insert_eq.
Qed.
End Run.

(** ** The theorems *)

(** C13. A new catalog, whatever is then asked of it (short of dropping the default
    database): after every call, failed or not, the documents, name entries and counters
    of databases, schemas, views and indexes and the by-table entries of indexes agree,
    and the next call answers: it does not panic.  The documents and names of tables are
    not part of it (a table may be stored under two names).  The bound keeps the 32-bit
    counters from wrapping.
*)
Theorem catalog_history `{KvStoreLaws W T, SerdeJsonLaws} (w : W) (calls : list catalog_call) (call : catalog_call) :
  pristine (store_rows w) -> Forall allowed calls -> allowed call -> 2 * len calls < 2 ^ 32 - 4 ->
  let w' := run calls (ensure_bootstrap w).2 in
  catalog_ok (2 + 2 * len calls) (store_rows w') /\ settles (exec call w').1.
Proof.
  intros Hp Ha Hc Hn w'.
  destruct (wp_run _ w _ (pristine_bootstrap _ Hp)) as (r & w0 & E & _ & Hok). unfold w'. rewrite E. cbn [snd].
  assert (Hok' : catalog_ok (2 + 2 * len calls) (store_rows (run calls w0))) by (apply run_ok; [done|done|lia]).
  split; [done|]. destruct (wp_run _ _ _ (exec_keeps _ _ call Hok' ltac:(lia) Hc)) as (r' & w1 & E' & Hs & _).
  by rewrite E'.
Qed.

(** Lookups by name in such a catalog: no error, nothing changed, and the answer is the
    object of that name when there is one; a name entry never lacks its document.
*)
Theorem catalog_lookups `{KvStoreLaws W T, SerdeJsonLaws} (n : Z) (w : W) (name : string) (d s : Z) :
  catalog_ok n (store_rows w) -> in_unsigned 32 d -> in_unsigned 32 s ->
  (exists o w', get_database name w = (Ok o, w') /\ store_rows w' = store_rows w /\
     forall x, o = Some x <-> member databases (store_rows w) x /\ db_name x = name) /\
  (exists o w', get_schema d name w = (Ok o, w') /\ store_rows w' = store_rows w /\
     forall x, o = Some x <-> member schemas (store_rows w) x /\ sc_database_id x = d /\ sc_name x = name) /\
  (exists o w', get_index d s name w = (Ok o, w') /\ store_rows w' = store_rows w /\
     forall x, o = Some x <-> member indexes (store_rows w) x /\
       ix_database_id x = d /\ ix_schema_id x = s /\ ix_name x = name).
Proof.
  intros Hok Hd Hs. split; [|split].
  - assert (wp (get_database name) (store_rows w) (fun r M' => M' = store_rows w /\ exists o, r = Ok o /\
      forall x, o = Some x <-> member databases (store_rows w) x /\ db_name x = name)) as Hwp.
    { apply (wp_get_database n); [done| |]; [intros Hno|intros x Hx Hn]; (split; [done|]); eexists; (split; [done|]).
      - intros y. split; [done|]. intros [Hy Hyn]. by destruct (Hno y Hy).
      - intros y. split; [by intros [= <-]|]. intros [Hy Hyn]. f_equal.
        apply (member_same_name databases (store_rows w)); [done..|]. cbn. congruence. }
    destruct (wp_run _ w _ Hwp) as (r & w' & E & EM & o & -> & Ho). by exists o, w'.
  - assert (wp (get_schema d name) (store_rows w) (fun r M' => M' = store_rows w /\ exists o, r = Ok o /\
      forall x, o = Some x <-> member schemas (store_rows w) x /\ sc_database_id x = d /\ sc_name x = name)) as Hwp.
    { apply (wp_get_schema n); [done|done| |]; [intros Hno|intros x Hx Hxd Hn]; (split; [done|]); eexists; (split; [done|]).
      - intros y. split; [done|]. intros (Hy & Hyn). by destruct (Hno y Hy).
      - intros y. split; [by intros [= <-]|]. intros (Hy & Hyd & Hyn). f_equal.
        apply (member_same_name schemas (store_rows w)); [done..|]. cbn. congruence. }
    destruct (wp_run _ w _ Hwp) as (r & w' & E & EM & o & -> & Ho). by exists o, w'.
  - assert (wp (get_index d s name) (store_rows w) (fun r M' => M' = store_rows w /\ exists o, r = Ok o /\
      forall x, o = Some x <-> member indexes (store_rows w) x /\
        ix_database_id x = d /\ ix_schema_id x = s /\ ix_name x = name)) as Hwp.
    { apply (wp_get_index n); [done|done|done| |]; [intros Hno|intros x Hx Hxd Hxs Hn]; (split; [done|]); eexists; (split; [done|]).
      - intros y. split; [done|]. intros (Hy & Hyn). by destruct (Hno y Hy).
      - intros y. split; [by intros [= <-]|]. intros (Hy & Hyd & Hys & Hyn). f_equal.
        apply (member_same_name indexes (store_rows w)); [done..|]. cbn. congruence. }
    destruct (wp_run _ w _ Hwp) as (r & w' & E & EM & o & -> & Ho). by exists o, w'.
Qed.

(** C15. An index that was created is listed for its table, with every other index of the
    table, each once, by name.
*)
Theorem created_index_listed `{KvStoreLaws W T, SerdeJsonLaws} (n : Z) (w w1 : W)
    (database_name schema_name table_name index_name : string) (column_names : list string)
    (unique if_not_exists : bool) (i : IndexCatalog) :
  catalog_ok n (store_rows w) -> n < 2 ^ 32 - 2 ->
  create_index database_name schema_name table_name index_name column_names unique if_not_exists w = (Ok (Some i), w1) ->
  exists l w2, list_indexes_for_table (ix_table_id i) w1 = (Ok l, w2) /\ i ∈ l /\ NoDup l /\ by_name_order l /\
    forall i', i' ∈ l <-> member indexes (store_rows w1) i' /\ ix_table_id i' = ix_table_id i.
Proof.
  intros Hok Hn Hc.
  destruct (wp_run _ w _ (create_index_keeps n _ database_name schema_name table_name index_name column_names
    unique if_not_exists Hok Hn)) as (r & w' & E & [_ Hok'] & Hm). rewrite Hc in E. injection E as <- <-.
  pose proof (Hm i eq_refl) as Hi.
  assert (wp (list_indexes_for_table (ix_table_id i)) (store_rows w1) (fun r M' => exists l, r = Ok l /\ i ∈ l /\
    NoDup l /\ by_name_order l /\ forall i', i' ∈ l <-> member indexes (store_rows w1) i' /\ ix_table_id i' = ix_table_id i)) as Hwp.
  { apply (wp_list_indexes (n + 2)); [done|apply Hi|]. intros l Hnd Hl Hord. exists l. split; [done|].
    split; [by apply Hl|done]. }
  destruct (wp_run _ w1 _ Hwp) as (r & w2 & E & l & -> & R). by exists l, w2.
Qed.

(** C14. A table that was stored is loaded as it was, up to [stored_table]: missing
    identifiers and versions are filled in, and types come back as [stored_type] says.
*)
Theorem stored_table_loads `{KvStoreLaws W T, SerdeJsonLaws} (n : Z) (w : W) (d : DatabaseCatalog) (s : SchemaCatalog)
    (schema : TableSchema) :
  catalog_ok n (store_rows w) -> member databases (store_rows w) d -> member schemas (store_rows w) s ->
  sc_database_id s = db_id d -> wf_table_schema schema -> len (columns schema) < 2 ^ 32 ->
  exists w1 w2, store_table (db_name d) (sc_name s) schema w = (Ok tt, w1) /\
    load_table (db_name d) (sc_name s) (table_name schema) w1 =
      (Ok (Some (stored_table {| tc_database_id := db_id d; tc_schema_id := sc_id s; tc_schema_name := sc_name s;
                                 tc_table_name := table_name schema; tc_schema := normalize_descriptor schema |})), w2) /\
    catalog_ok n (store_rows w2).
Proof.
  intros Hok Hd Hs Hsd Hwf Hlen.
  destruct (wp_run _ w _ (wp_store_load n _ d s schema Hok Hd Hs Hsd Hwf Hlen)) as (r & w2 & E & Hok2 & ->).
  unfold mbind, cat_bind in E. destruct (store_table _ _ _ w) as [[[]|e| |] w1]; [|done..]. by exists w1, w2.
Qed.

(** A catalog opens in the mode it was created in and in no other; a refused opening
    changes nothing.
*)
Theorem catalog_keeps_mode `{KvStoreLaws W T, SerdeJsonLaws} (utf8_error : list byte -> string) (n : Z) (w : W)
    (mode mode' : GatewayMode) :
  catalog_ok n (store_rows w) -> store_rows w !! COMPAT_MODE_KEY = None ->
  exists w1 w2, ensure_bootstrap_for_mode utf8_error mode w = (Ok tt, w1) /\
    ensure_bootstrap_for_mode utf8_error mode' w1 =
      (if bool_decide (mode' = mode) then Ok tt
       else user_error "XX000" ("catalog was created in " +:+ mode_as_str mode +:+
                                " mode and cannot be opened in " +:+ mode_as_str mode' +:+ " mode"), w2) /\
    store_rows w2 = store_rows w1 /\ catalog_ok n (store_rows w1).
Proof.
  intros Hok Hm. destruct (wp_run _ w _ (wp_open utf8_error n _ mode Hok Hm)) as (r & w1 & E & -> & Hok1 & Hm1).
  destruct (wp_run _ w1 _ (wp_reopen utf8_error n _ mode mode' Hok1 Hm1)) as (r & w2 & E2 & HM & ->).
  by exists w1, w2.
Qed.

(** ** On an empty in-memory store *)

Definition bootstrapped : kvmap := (ensure_bootstrap (W := kvmap) (T := MemoryTransaction) ∅).2.
Definition sample_calls : list catalog_call :=
  [CreateDatabase "shop" false; CreateSchema "shop" "sales" false; StoreView "shop" "sales" "v" "SELECT 1" true false].

Lemma pristine_empty : pristine ∅.
Proof. intros r. apply lookup_empty. Qed.

Lemma catalog_history_witness :
  let w := run (W := kvmap) (T := MemoryTransaction) sample_calls (ensure_bootstrap (W := kvmap) (T := MemoryTransaction) ∅).2 in
  catalog_ok (2 + 2 * len sample_calls) (store_rows (T := MemoryTransaction) w) /\
  settles (exec (T := MemoryTransaction) (DropDatabase "shop") w).1.
Proof.
  refine (catalog_history (W := kvmap) (T := MemoryTransaction) ∅ sample_calls (DropDatabase "shop") pristine_empty _ _ _).
  - by repeat constructor.
  - discriminate.
  - done.
Defined.

Abbreviation rows_of := (store_rows (W := kvmap) (T := MemoryTransaction)).

(** The store after [ensure_bootstrap] on nothing. *)
Lemma bootstrapped_ok : catalog_ok 2 (rows_of bootstrapped).
Proof.
  destruct (wp_run (W := kvmap) (T := MemoryTransaction) ensure_bootstrap ∅ (fun r M => r = Ok tt /\ catalog_ok 2 M))
    as (r & w & E & _ & Hok); [exact (pristine_bootstrap ∅ pristine_empty)|]. unfold bootstrapped. by rewrite E.
Qed.

Definition default_database : DatabaseCatalog := {| db_id := 1; db_name := DEFAULT_DATABASE_NAME |}.
Definition default_schema : SchemaCatalog := {| sc_id := 1; sc_database_id := 1; sc_name := DEFAULT_SCHEMA_NAME |}.

Lemma bootstrapped_members : member databases (rows_of bootstrapped) default_database /\ member schemas (rows_of bootstrapped) default_schema.
Proof.
  split; (split; [by split|]; split; [eexists; split; [reflexivity|]|]); vm_compute; reflexivity.
Qed.

Lemma catalog_lookups_witness :
  exists o w', get_database (T := MemoryTransaction) DEFAULT_DATABASE_NAME bootstrapped = (Ok o, w') /\ rows_of w' = rows_of bootstrapped.
Proof.
  destruct (catalog_lookups (T := MemoryTransaction) 2 bootstrapped DEFAULT_DATABASE_NAME 1 1 bootstrapped_ok
    ltac:(by split) ltac:(by split)) as [(o & w' & E & EM & _) _]. by exists o, w'.
Defined.

Definition two_columns : TableSchema :=
  {| table_name := "t"; table_id := 7; schema_version := 0; table_epoch := 0; primary_key := "id";
     check_constraints := []; unique_constraints := []; foreign_keys := [];
     columns := [{| column_id := 0; col_name := "id"; data_type := DT.Int32; primary_key_col := true; nullable := false;
                    col_default := None; on_update := None; character_set := None; collation := None |};
                 {| column_id := 0; col_name := "n"; data_type := DT.MySqlInt KInt false; primary_key_col := false;
                    nullable := true; col_default := Some "0"; on_update := None; character_set := None;
                    collation := None |}] |}%string.

(** The stored table comes back with its columns numbered and the MySQL INT column
    as an INT4 one. *)
Lemma stored_table_loads_witness :
  exists w1 w2 t, store_table (T := MemoryTransaction) DEFAULT_DATABASE_NAME DEFAULT_SCHEMA_NAME two_columns bootstrapped =
      (Ok tt, w1) /\
    load_table (T := MemoryTransaction) DEFAULT_DATABASE_NAME DEFAULT_SCHEMA_NAME "t" w1 = (Ok (Some t), w2) /\
    map (fun c => (column_id c, data_type c)) (columns (tc_schema t)) = [(1, DT.Int32); (2, DT.Int32)].
Proof.
  destruct bootstrapped_members as [Hd Hs].
  destruct (stored_table_loads (T := MemoryTransaction) 2 bootstrapped default_database default_schema two_columns
    bootstrapped_ok Hd Hs eq_refl) as (w1 & w2 & E1 & E2 & _).
  - split; [by split|]. split; [by split|]. split; [by split|]. repeat constructor; done.
  - done.
  - exists w1, w2. eexists. split; [exact E1|]. split; [exact E2|]. reflexivity.
Defined.

Lemma catalog_keeps_mode_witness :
  exists w1 : kvmap, ensure_bootstrap_for_mode (T := MemoryTransaction) (fun _ => ""%string) MySql bootstrapped = (Ok tt, w1).
Proof.
  destruct (catalog_keeps_mode (T := MemoryTransaction) (fun _ => ""%string) 2 bootstrapped MySql Postgres bootstrapped_ok)
    as (w1 & w2 & E & _); [reflexivity|]. by exists w1.
Defined.

Definition with_table : kvmap :=
  (store_table (T := MemoryTransaction) DEFAULT_DATABASE_NAME DEFAULT_SCHEMA_NAME two_columns bootstrapped).2.

Lemma with_table_ok : catalog_ok 2 (rows_of with_table).
Proof.
  destruct (wp_run (T := MemoryTransaction) (store_table DEFAULT_DATABASE_NAME DEFAULT_SCHEMA_NAME two_columns)
    bootstrapped (keeps 2)) as (r & w & E & _ & Hok);
    [by apply store_table_keeps, bootstrapped_ok|]. unfold with_table. by rewrite E.
Qed.

Abbreviation index_call :=
  (create_index (W := kvmap) (T := MemoryTransaction) DEFAULT_DATABASE_NAME DEFAULT_SCHEMA_NAME "t" "by_n" ["n"%string]
     false false).
Definition sample_index : IndexCatalog :=
  {| ix_id := 1; ix_database_id := 1; ix_schema_id := 1; ix_table_id := 7; ix_schema_name := DEFAULT_SCHEMA_NAME;
     ix_table_name := "t"; ix_name := "by_n"; ix_column_name := "n"; ix_column_names := ["n"]; ix_unique := false |}%string.

Lemma sample_index_created : index_call with_table = (Ok (Some sample_index), (index_call with_table).2).
Proof.
  assert ((index_call with_table).1 = Ok (Some sample_index)) as E by (vm_compute; reflexivity).
  revert E. generalize (index_call with_table). intros [r w]. cbn [fst snd]. by intros ->.
Qed.

Lemma created_index_listed_witness :
  exists l w2, list_indexes_for_table (T := MemoryTransaction) 7 (index_call with_table).2 = (Ok l, w2) /\
    sample_index ∈ l.
Proof.
  destruct (created_index_listed (T := MemoryTransaction) 2 with_table (index_call with_table).2 DEFAULT_DATABASE_NAME
    DEFAULT_SCHEMA_NAME "t" "by_n" ["n"%string] false false sample_index with_table_ok ltac:(done))
    as (l & w2 & E & Hin & _).
  - exact sample_index_created.
  - exists l, w2. split; [exact E|exact Hin].
Defined.

(** Dropping the default database restarts the counters at the next call: a table
    identifier that is in use is given out again. *)
Example dropping_default_reuses_ids :
  let allocate := allocate_table_id (W := kvmap) (T := MemoryTransaction) in
  let '(first, w1) := allocate bootstrapped in
  let w2 := run (T := MemoryTransaction) [DropDatabase DEFAULT_DATABASE_NAME] w1 in
  (first, (allocate w2).1) = (Ok 1, Ok 1).
Proof. vm_compute. reflexivity. Qed.
