(* ===== verification/CatalogTables.v ===== *)
(** * The life of a table in the catalog

    [store_table], [rename_table], [drop_table] and [load_table] of
    src/src/catalog/store.rs together: what a table's name entry and document are after
    each of them, in the default schema, where the table is also kept in the first
    layout, and elsewhere. *)

From stdpp Require Import pretty sorting.
From S2P Require Import Prelude BTree Float Types Values Text Mode DataTypes LegacyCodec KvStore Stores Heap Json.
From S2P Require Import Catalog CatalogStore CatalogLogic CatalogOk CatalogRun.

Section Tables.
Context {W T : Type} `{KvStoreLaws W T, SerdeJsonLaws}.
Implicit Types (n : Z) (M : kvmap) (d : DatabaseCatalog) (s : SchemaCatalog) (t : TableCatalog)
  (schema : TableSchema) (name : string).

(** A database and one of its schemas are in the catalog. *)
Definition has_schema (n : Z) (M : kvmap) (d : DatabaseCatalog) (s : SchemaCatalog) : Prop :=
  catalog_ok n M /\ member databases M d /\ member schemas M s /\ sc_database_id s = db_id d.

(** The entries of the table [t] under the name [name]. *)
Definition holds_table (M : kvmap) (d s : Z) (name : string) (t : TableCatalog) : Prop :=
  in_unsigned 32 (table_id (tc_schema t)) /\
  M !! table_by_name_key d s name = Some (to_be 4 (table_id (tc_schema t))) /\
  exists payload, M !! table_by_id_key (table_id (tc_schema t)) = Some payload /\
    decode_table_catalog payload = Ok t.

(** No table under the name, in the first layout neither. *)
Definition no_table (M : kvmap) (d : DatabaseCatalog) (s : SchemaCatalog) (name : string) : Prop :=
  M !! table_by_name_key (db_id d) (sc_id s) name = None /\
  (is_default (db_name d) (sc_name s) = true -> M !! legacy_schema_key name = None).

(** The operations on tables touch no database, schema or index. *)
Definition frames (M M' : kvmap) : Prop :=
  agree databases M M' /\ agree schemas M M' /\ agree indexes M M' /\
  forall (id : Z) rest, M' !! by_table_entry id rest = M !! by_table_entry id rest.

Lemma frames_refl M : frames M M.
Proof. by repeat split. Qed.

Lemma has_schema_frame n M M' d s : frames M M' -> catalog_ok n M' -> has_schema n M d s -> has_schema n M' d s.
Proof.
  intros (Ad & As & _) Hok (_ & Hd & Hs & E). split; [done|].
  split; [by apply (member_agree databases M M')|]. split; [by apply (member_agree schemas M M')|done].
Qed.

Lemma name_key_ne (d s : Z) (a b : string) : in_unsigned 32 d -> in_unsigned 32 s -> a <> b ->
  table_by_name_key d s a <> table_by_name_key d s b.
Proof.
  intros Hd Hs Hab E. apply app_inv_head in E. by apply scoped_name_inj in E as (_ & _ & ?).
Qed.

Lemma legacy_key_ne (a b : string) : a <> b -> legacy_schema_key a <> legacy_schema_key b.
Proof.
  intros Hab E. apply Hab. unfold legacy_schema_key, schema_key in E.
  rewrite !as_bytes_app in E. apply app_inv_head in E. by rewrite <- (of_as_bytes a), E, of_as_bytes.
Qed.

Lemma schema_ids n M d s : has_schema n M d s -> in_unsigned 32 (db_id d) /\ in_unsigned 32 (sc_id s).
Proof. intros (_ & Hd & Hs & _). split; [apply Hd|apply Hs]. Qed.

(** ** Looking a table up *)

Lemma wp_schema_of {A : Type} n M d s (k : DatabaseCatalog -> SchemaCatalog -> Cat W (option A))
    (Q : PgWireResult (option A) -> kvmap -> Prop) :
  has_schema n M d s -> wp (k d s) M Q -> wp (within (db_name d) (sc_name s) k) M Q.
Proof.
  intros (Hok & Hd & Hs & Hsd) Hk. unfold within.
  apply wp_bind, (wp_get_database n); [done|intros Hno; by destruct (Hno d Hd)|].
  intros d' Hd' Hdn. assert (d' = d) as -> by (apply (member_same_name databases M); [done..|cbn; congruence]).
  apply wp_bind, (wp_get_schema n); [done|apply Hd|intros Hno; by destruct (Hno s Hs)|].
  intros s' Hs' Hsd' Hsn. assert (s' = s) as -> by (apply (member_same_name schemas M); [done..|cbn; congruence]).
  done.
Qed.

Lemma wp_load_holds n M d s name t (Q : PgWireResult (option TableCatalog) -> kvmap -> Prop) :
  has_schema n M d s -> holds_table M (db_id d) (sc_id s) name t -> Q (Ok (Some t)) M ->
  wp (load_table (db_name d) (sc_name s) name) M Q.
Proof.
  intros Hh (Hid & Hname & payload & Hpay & Hdec) HQ. unfold load_table.
  apply wp_bind, (wp_bootstrap n); [apply Hh|]. apply (wp_schema_of n); [done|].
  apply wp_bind, wp_get. rewrite Hname. apply wp_bind, wp_lift. unfold decode_u32. rewrite length_to_be. cbn [Nat.eqb].
  assert (from_be (to_be 4 (table_id (tc_schema t))) = table_id (tc_schema t)) as ->.
  { rewrite from_be_to_be. by apply in_unsigned_mod. }
  apply wp_bind, wp_get. rewrite Hpay. apply wp_bind, wp_lift. rewrite Hdec. by apply wp_ret.
Qed.

Lemma wp_load_none n M d s name (Q : PgWireResult (option TableCatalog) -> kvmap -> Prop) :
  has_schema n M d s -> no_table M d s name -> Q (Ok None) M ->
  wp (load_table (db_name d) (sc_name s) name) M Q.
Proof.
  intros Hh [Hname Hleg] HQ. unfold load_table.
  apply wp_bind, (wp_bootstrap n); [apply Hh|]. apply (wp_schema_of n); [done|].
  apply wp_bind, wp_get. rewrite Hname. destruct (is_default _ _); [|by apply wp_ret].
  unfold load_legacy_default_table. apply wp_bind, wp_get. rewrite (Hleg eq_refl). by apply wp_ret.
Qed.

(** ** Storing a table *)

Definition table_at (d : DatabaseCatalog) (s : SchemaCatalog) (schema : TableSchema) : TableCatalog :=
  stored_table {| tc_database_id := db_id d; tc_schema_id := sc_id s; tc_schema_name := sc_name s;
                  tc_table_name := table_name schema; tc_schema := normalize_descriptor schema |}.

Lemma wp_existing n M d s {A : Type} (k : DatabaseCatalog -> SchemaCatalog -> Cat W A)
    (Q : PgWireResult A -> kvmap -> Prop) : has_schema n M d s -> wp (k d s) M Q ->
  wp (database ← existing_database (db_name d); schema ← existing_schema (db_id database) (sc_name s);
      k database schema) M Q.
Proof.
  intros (Hok & Hd & Hs & Hsd) Hk. apply wp_bind. unfold existing_database.
  apply wp_bind, (wp_get_database n); [done|intros Hno; by destruct (Hno d Hd)|].
  intros d' Hd' Hdn. assert (d' = d) as -> by (apply (member_same_name databases M); [done..|cbn; congruence]).
  apply wp_lift. cbn [ok_or]. apply wp_bind. unfold existing_schema.
  apply wp_bind, (wp_get_schema n); [done|apply Hd|intros Hno; by destruct (Hno s Hs)|].
  intros s' Hs' Hsd' Hsn. assert (s' = s) as -> by (apply (member_same_name schemas M); [done..|cbn; congruence]).
  by apply wp_lift.
Qed.

Lemma wp_store n M d s schema (Q : PgWireResult unit -> kvmap -> Prop) :
  has_schema n M d s -> wf_table_schema schema -> len (columns schema) < 2 ^ 32 ->
  (forall M', has_schema n M' d s -> frames M M' ->
     holds_table M' (db_id d) (sc_id s) (table_name schema) (table_at d s schema) ->
     (forall name, name <> table_name schema -> no_table M d s name -> no_table M' d s name) -> Q (Ok tt) M') ->
  wp (store_table (db_name d) (sc_name s) schema) M Q.
Proof.
  intros Hh Hwf Hlen HQ. pose proof (schema_ids n M d s Hh) as [Wd Ws].
  unfold store_table. apply wp_bind, (wp_bootstrap n); [apply Hh|].
  apply (wp_existing n M d s); [done|]. unfold write_table.
  set (schema' := normalize_descriptor schema).
  set (t := {| tc_database_id := db_id d; tc_schema_id := sc_id s; tc_schema_name := sc_name s;
               tc_table_name := table_name schema'; tc_schema := schema' |}).
  assert (Ht : wf_table t) by (split; [done|split; [done|by apply normal_wf]]).
  destruct (table_roundtrip t Ht) as (payload & Ep & Dp). apply wp_bind, wp_lift. rewrite Ep.
  apply wp_bind, wp_put. apply wp_bind, wp_put. set (M1 := <[_ := _]> _).
  assert (Hok1 : catalog_ok n M1) by (by apply catalog_put_table_name, catalog_put_table_id, Hh).
  assert (Hf1 : frames M M1).
  { unfold M1. split; [agree_other|]. split; [agree_other|]. split; [agree_other|]. intros. lookup_other. }
  assert (Hn1 : forall name, name <> table_name schema ->
    M1 !! table_by_name_key (db_id d) (sc_id s) name = M !! table_by_name_key (db_id d) (sc_id s) name).
  { intros name Hne. unfold M1. rewrite lookup_insert_ne; [lookup_other|]. apply name_key_ne; [done..|].
    intros E. by apply Hne. }
  assert (Hh1 : holds_table M1 (db_id d) (sc_id s) (table_name schema) (table_at d s schema)).
  { split; [apply Hwf|]. split; [apply lookup_insert_eq|]. exists payload. split; [|done].
    unfold M1. rewrite lookup_insert_ne by key_ne. apply lookup_insert_eq. }
  destruct (is_default (db_name d) (sc_name s)) eqn:Ed.
  - assert (Hs1 : wf_table_schema schema') by (by apply normal_wf).
    destruct (legacy_table_roundtrip schema' Hs1) as (legacy & El & _). apply wp_bind, wp_lift. rewrite El.
    apply wp_put. set (M2 := <[_ := _]> M1).
    assert (Hf2 : frames M M2).
    { destruct Hf1 as (A1 & A2 & A3 & A4). unfold M2. split; [|split; [|split]].
      - apply (agree_trans _ _ M1); [done|agree_other].
      - apply (agree_trans _ _ M1); [done|agree_other].
      - apply (agree_trans _ _ M1); [done|agree_other].
      - intros t' rest. rewrite lookup_insert_ne by key_ne. apply A4. }
    apply HQ; [|done| |].
    + apply (has_schema_frame n M); [done|by apply catalog_put_legacy|done].
    + destruct Hh1 as (I & N & p & P & D). split; [done|]. unfold M2.
      rewrite !lookup_insert_ne by key_ne. split; [done|]. by exists p.
    + intros name Hne [Hno Hleg]. unfold M2. split.
      * rewrite lookup_insert_ne by key_ne. by rewrite Hn1.
      * intros _. rewrite lookup_insert_ne by (apply legacy_key_ne; intros E; by apply Hne).
        unfold M1. rewrite !lookup_insert_ne by key_ne. by apply Hleg.
  - apply wp_ret, HQ; [|done|done|].
    + by apply (has_schema_frame n M).
    + intros name Hne [Hno Hleg]. split; [by rewrite Hn1|]. by rewrite Ed.
Qed.

(** ** Renaming a table *)

(** The table under another name, as [rename_table] answers it. *)
Definition renamed_table (name : string) (t : TableCatalog) : TableCatalog :=
  {| tc_database_id := tc_database_id t; tc_schema_id := tc_schema_id t; tc_schema_name := tc_schema_name t;
     tc_table_name := name; tc_schema := renamed name (tc_schema t) |}.

(** A stored schema, stored again under another name, comes back as it was. *)
Lemma stored_column_idempotent c : stored_column (stored_column c) = stored_column c.
Proof. unfold stored_column. cbn. by rewrite stored_type_idempotent. Qed.

Lemma stored_schema_columns schema : map stored_column (columns (stored_schema schema)) = columns (stored_schema schema).
Proof.
  unfold stored_schema, normalize_descriptor. cbn. apply list_eq. intros i.
  rewrite list_lookup_fmap, !list_lookup_imap, list_lookup_fmap.
  destruct (columns schema !! i) as [c|]; [|done]. cbn. f_equal.
  destruct (column_id c =? 0); unfold stored_column; cbn; by rewrite stored_type_idempotent.
Qed.

Lemma table_at_renamed d s schema name : table_at d s (renamed name (tc_schema (table_at d s schema))) =
  renamed_table name (table_at d s schema).
Proof.
  set (u := tc_schema (table_at d s schema)).
  assert (Hn : normalize_descriptor u = u) by apply stored_schema_normal.
  assert (Hc : map stored_column (columns u) = columns u) by apply stored_schema_columns.
  assert (Hr : normalize_descriptor (renamed name u) = renamed name u).
  { clearbody u. unfold normalize_descriptor in *. destruct u. cbn in *. injection Hn as E1 E2 E3.
    unfold renamed. cbn. by rewrite E1, E2, E3. }
  unfold table_at at 1. rewrite Hr. unfold stored_table, renamed_table. cbn [tc_database_id tc_schema_id
    tc_schema_name tc_table_name tc_schema table_name renamed]. f_equal.
  unfold stored_schema. change (columns (renamed _ _)) with (columns u). rewrite Hc.
  change (set_columns _ (columns u)) with (renamed name u). exact Hr.
Qed.

Lemma describable_stored m ty : describable ty -> describable (stored_type m ty).
Proof.
  induction ty; cbn [stored_type]; repeat case_match; subst; cbn [describable size_ok]; try done; try tauto.
Qed.
Lemma wf_stored schema : wf_table_schema schema -> len (columns schema) < 2 ^ 32 ->
  wf_table_schema (stored_schema schema).
Proof.
  intros (Hi & Hv & He & Hc) Hl. unfold stored_schema. apply normal_wf.
  - split; [done|]. split; [done|]. split; [done|]. cbn. apply Forall_map. apply (Forall_impl _ _ _ Hc).
    intros c [Hci Hcd]. split; [done|]. by apply describable_stored.
  - unfold len in *. cbn. by rewrite length_map.
Qed.

Lemma table_at_columns d s schema :
  length (columns (tc_schema (table_at d s schema))) = length (columns schema).
Proof.
  unfold table_at, stored_table, stored_schema, normalize_descriptor. cbn.
  by rewrite !length_imap, length_map, length_imap.
Qed.

Lemma wp_rename n M d s schema name (Q : PgWireResult TableCatalog -> kvmap -> Prop) :
  has_schema n M d s -> wf_table_schema schema -> len (columns schema) < 2 ^ 32 ->
  holds_table M (db_id d) (sc_id s) (table_name schema) (table_at d s schema) ->
  no_table M d s name -> name <> table_name schema ->
  (forall M', has_schema n M' d s ->
     holds_table M' (db_id d) (sc_id s) name (renamed_table name (table_at d s schema)) ->
     no_table M' d s (table_name schema) -> Q (Ok (renamed_table name (table_at d s schema))) M') ->
  wp (rename_table (db_name d) (sc_name s) (table_name schema) name) M Q.
Proof.
  intros Hh Hwf Hlen Hold Hnew Hne HQ. pose proof (schema_ids n M d s Hh) as [Wd Ws].
  unfold rename_table. apply wp_bind, (wp_bootstrap n); [apply Hh|].
  apply (wp_existing n M d s); [done|].
  apply wp_bind, (wp_load_none n M d s); [done|done|].
  apply wp_bind, (wp_load_holds n M d s _ (table_at d s schema)); [done|done|].
  apply wp_bind, wp_lift. cbn [ok_or]. apply wp_bind, wp_delete. set (M1 := delete _ M).
  assert (Hwf' : wf_table_schema (renamed (table_name schema) (normalize_descriptor schema)))
    by (by apply normal_wf).
  assert (Hlen' : len (columns (normalize_descriptor schema)) < 2 ^ 32)
    by (unfold len in *; cbn; by rewrite length_imap).
  assert (Hrest : forall M2, has_schema n M2 d s -> no_table M2 d s (table_name schema) ->
    wp (_ ← store_table (db_name d) (sc_name s) (renamed name (tc_schema (table_at d s schema)));
        mret (renamed_table name (table_at d s schema))) M2 Q).
  { intros M2 Hh2 Hno. apply wp_bind, (wp_store n M2 d s); [done| | |].
    - exact (wf_stored (renamed (table_name schema) (normalize_descriptor schema)) Hwf' Hlen').
    - unfold len in *. change (columns (renamed _ ?u)) with (columns u). by rewrite table_at_columns.
    - intros M3 Hh3 _ Hst Hkeep. apply wp_ret, HQ; [done| |].
      + by rewrite table_at_renamed in Hst.
      + apply Hkeep; [cbn; intros E; by apply Hne|done]. }
  assert (Hok1 : catalog_ok n M1) by apply catalog_delete_table_name, Hh.
  assert (Hh1 : has_schema n M1 d s).
  { apply (has_schema_frame n M); [|done|done]. unfold M1.
    split; [agree_other|]. split; [agree_other|]. split; [agree_other|]. intros. lookup_other. }
  assert (Hgone : M1 !! table_by_name_key (db_id d) (sc_id s) (table_name schema) = None)
    by apply lookup_delete_eq.
  apply wp_bind. destruct (is_default (db_name d) (sc_name s)) eqn:Ed.
  - apply wp_delete, Hrest.
    + apply (has_schema_frame n M1); [|by apply catalog_delete_legacy|done].
      split; [agree_other|]. split; [agree_other|]. split; [agree_other|]. intros. lookup_other.
    + split; [by rewrite lookup_delete_ne by key_ne|]. intros _. apply lookup_delete_eq.
  - apply wp_ret, Hrest; [done|]. split; [done|]. by rewrite Ed.
Qed.

(** ** Dropping a table *)

Lemma without_index_member M (i i' : IndexCatalog) : member indexes M i ->
  member indexes (without_index i M) i' <-> member indexes M i' /\ i' <> i.
Proof.
  intros Hi. assert (Ha : agree indexes (without_object indexes i M) (without_index i M)).
  { unfold without_index. rewrite index_key_entry. agree_other. }
  rewrite <- (member_agree indexes _ _ i' Ha), (without_object_member indexes M i Hi).
  split; intros [Hi' Hne]; (split; [done|]); intros E; apply Hne; [by rewrite E|].
  by apply (member_same_id indexes M).
Qed.

Definition without_indexes (l : list IndexCatalog) (M : kvmap) : kvmap :=
  foldl (fun M i => without_index i M) M l.

Lemma wp_drop_indexes (l : list IndexCatalog) (Q : PgWireResult unit -> kvmap -> Prop) : forall M,
  Q (Ok tt) (without_indexes l M) -> wp (fold_m (fun _ i => drop_index_by_id i) tt l) M Q.
Proof.
  induction l as [|i l IH]; intros M HQ; cbn [fold_m]; [by apply wp_ret|].
  apply wp_bind. unfold drop_index_by_id. apply wp_bind, wp_delete. apply wp_bind, wp_delete, wp_delete.
  apply IH. exact HQ.
Qed.

Lemma without_indexes_ok n (l : list IndexCatalog) : forall M, catalog_ok n M -> NoDup l ->
  Forall (member indexes M) l -> catalog_ok n (without_indexes l M) /\
  forall i, member indexes (without_indexes l M) i <-> member indexes M i /\ i ∉ l.
Proof.
  induction l as [|i l IH]; intros M Hok Hnd Hl; cbn [without_indexes foldl].
  - split; [done|]. intros i. split; [|tauto]. intros Hi. split; [done|]. apply not_elem_of_nil.
  - apply NoDup_cons in Hnd as [Hn Hnd]. apply Forall_cons in Hl as [Hi Hl].
    destruct (IH (without_index i M)) as [Hok' Hm]; [by apply without_index_ok|done| |].
    + apply Forall_forall. intros i' Hi'. apply without_index_member; [done|].
      split; [by apply (proj1 (Forall_forall _ l) Hl)|]. by intros ->.
    + split; [exact Hok'|]. intros i'. fold (without_indexes l (without_index i M)).
      rewrite Hm, without_index_member by done. rewrite not_elem_of_cons. tauto.
Qed.

Lemma without_indexes_lookup (l : list IndexCatalog) k : forall M,
  (forall i, index_by_id_key (ix_id i) <> k /\
     index_by_name_key (ix_database_id i) (ix_schema_id i) (ix_name i) <> k /\
     index_by_table_key (ix_table_id i) (ix_id i) <> k) ->
  without_indexes l M !! k = M !! k.
Proof.
  induction l as [|i l IH]; intros M Hk; cbn [without_indexes foldl]; [done|].
  fold (without_indexes l (without_index i M)). rewrite IH by done.
  destruct (Hk i) as (E1 & E2 & E3). unfold without_index, without_object. by rewrite !lookup_delete_ne.
Qed.

(** No key of an index is one of another part of the catalog. *)
Ltac no_index_key :=
  apply without_indexes_lookup; intros i; rewrite index_key_entry; split; [key_ne|split; key_ne].

Lemma wp_drop n M d s name t (Q : PgWireResult (option TableCatalog) -> kvmap -> Prop) :
  has_schema n M d s -> holds_table M (db_id d) (sc_id s) name t ->
  tc_database_id t = db_id d -> tc_schema_id t = sc_id s ->
  (forall M', has_schema n M' d s -> no_table M' d s name ->
     M' !! table_by_id_key (table_id (tc_schema t)) = None ->
     (forall i, member indexes M' i <-> member indexes M i /\ ix_table_id i <> table_id (tc_schema t)) ->
     Q (Ok (Some t)) M') ->
  wp (drop_table (db_name d) (sc_name s) name) M Q.
Proof.
  intros Hh Ht Ed Es HQ. unfold drop_table. apply wp_bind, (wp_bootstrap n); [apply Hh|].
  apply wp_bind, (wp_load_holds n M d s name t); [done..|]. rewrite Ed, Es.
  apply wp_bind, wp_delete. apply wp_bind, wp_delete. set (M1 := delete _ (delete _ M)).
  assert (Hok1 : catalog_ok n M1) by (by apply catalog_delete_table_name, catalog_delete_table_id, Hh).
  assert (Hf1 : frames M M1).
  { unfold M1. split; [agree_other|]. split; [agree_other|]. split; [agree_other|]. intros. lookup_other. }
  apply wp_bind, (wp_list_indexes n); [done|apply Ht|]. intros l Hnd Hl _.
  destruct (without_indexes_ok n l M1) as [Hok2 Hm2]; [done|done|apply Forall_forall; intros i Hi; by apply Hl|].
  apply wp_bind, wp_drop_indexes. set (M2 := without_indexes l M1) in *.
  assert (Hh2 : has_schema n M2 d s).
  { destruct (has_schema_frame n M M1 d s Hf1 Hok1 Hh) as (_ & Hd & Hs & E).
    split; [done|]. split; [|split; [|done]].
    - apply (member_agree databases M1); [|done]. split; intros r; no_index_key.
    - apply (member_agree schemas M1); [|done]. split; intros r; no_index_key. }
  assert (Hn2 : M2 !! table_by_name_key (db_id d) (sc_id s) name = None).
  { unfold M2. transitivity (M1 !! table_by_name_key (db_id d) (sc_id s) name); [no_index_key|].
    apply lookup_delete_eq. }
  assert (Hi2 : M2 !! table_by_id_key (table_id (tc_schema t)) = None).
  { unfold M2. transitivity (M1 !! table_by_id_key (table_id (tc_schema t))); [no_index_key|].
    unfold M1. rewrite lookup_delete_ne by key_ne. apply lookup_delete_eq. }
  assert (Hx2 : forall i, member indexes M2 i <-> member indexes M i /\ ix_table_id i <> table_id (tc_schema t)).
  { intros i. rewrite Hm2, Hl. destruct Hf1 as (_ & _ & Ai & _). rewrite <- (member_agree indexes M M1 i Ai). tauto. }
  apply wp_bind. destruct (is_default (db_name d) (sc_name s)) eqn:Edef.
  - apply wp_delete, wp_ret, HQ.
    + apply (has_schema_frame n M2); [|by apply catalog_delete_legacy|done].
      split; [agree_other|]. split; [agree_other|]. split; [agree_other|]. intros. lookup_other.
    + split; [by rewrite lookup_delete_ne by key_ne|]. intros _. apply lookup_delete_eq.
    + by rewrite lookup_delete_ne by key_ne.
    + intros i. rewrite <- Hx2. symmetry. apply (member_agree indexes). agree_other.
  - apply wp_ret, wp_ret, HQ; [done| |done|done]. split; [done|]. by rewrite Edef.
Qed.

(** A table's life, call by call. *)
Definition table_life (database_name schema_name : string) (schema : TableSchema) (name : string) :
    Cat W (TableCatalog * option TableCatalog * option TableCatalog * option TableCatalog *
           option TableCatalog * list IndexCatalog) :=
  _ ← store_table database_name schema_name schema;
  renamed ← rename_table database_name schema_name (table_name schema) name;
  under_new ← load_table database_name schema_name name;
  under_old ← load_table database_name schema_name (table_name schema);
  dropped ← drop_table database_name schema_name name;
  after ← load_table database_name schema_name name;
  indexes ← list_indexes_for_table (table_id schema);
  mret (renamed, under_new, under_old, dropped, after, indexes).

Lemma wp_table_life n M d s schema name :
  has_schema n M d s -> wf_table_schema schema -> len (columns schema) < 2 ^ 32 ->
  no_table M d s name -> name <> table_name schema ->
  let t := renamed_table name (table_at d s schema) in
  wp (table_life (db_name d) (sc_name s) schema name) M (fun r M' =>
    r = Ok (t, Some t, None, Some t, None, []) /\ catalog_ok n M' /\
    M' !! table_by_id_key (table_id schema) = None).
Proof.
  intros Hh Hwf Hlen Hno Hne t. unfold table_life.
  apply wp_bind, (wp_store n M d s); [done..|]. intros M1 Hh1 _ Hst Hkeep.
  apply wp_bind, (wp_rename n M1 d s); [done..|by apply Hkeep|done|]. intros M2 Hh2 Hre Hold.
  fold t in Hre. fold t.
  apply wp_bind, (wp_load_holds n M2 d s name t); [done..|].
  apply wp_bind, (wp_load_none n M2 d s); [done..|].
  apply wp_bind, (wp_drop n M2 d s name t); [done..|]. intros M3 Hh3 Hgone Hdoc Hix.
  apply wp_bind, (wp_load_none n M3 d s); [done..|].
  apply wp_bind, (wp_list_indexes n); [apply Hh3|apply Hwf|]. intros l _ Hl _.
  apply wp_ret. split; [|split; [apply Hh3|exact Hdoc]].
  destruct l as [|i l]; [done|]. exfalso.
  destruct (proj1 (Hl i) ltac:(by constructor)) as [Hi Ei]. by apply (Hix i) in Hi as [_ Hi].
Qed.
End Tables.

(** ** The property *)

(** C23. The life of a table.  In a catalog in order, a table is stored in a schema, renamed
    to a name that is free, and dropped: the rename answers the table under its new
    name, which is then what the new name loads, while the old name loads nothing; the
    drop answers that table, and afterwards neither name entry, document nor any index
    of it is left - in the default schema, where the table is also kept in the first
    layout, and in any other. *)
Theorem table_lifecycle `{KvStoreLaws W T, SerdeJsonLaws} (n : Z) (w : W) (d : DatabaseCatalog)
    (s : SchemaCatalog) (schema : TableSchema) (name : string) :
  has_schema n (store_rows w) d s -> wf_table_schema schema -> len (columns schema) < 2 ^ 32 ->
  no_table (store_rows w) d s name -> name <> table_name schema ->
  let t := renamed_table name (table_at d s schema) in
  exists w', table_life (db_name d) (sc_name s) schema name w =
      (Ok (t, Some t, None, Some t, None, []), w') /\
    store_rows w' !! table_by_id_key (table_id schema) = None /\ catalog_ok n (store_rows w').
Proof.
  intros Hh Hwf Hlen Hno Hne t.
  destruct (wp_run _ w _ (wp_table_life n _ d s schema name Hh Hwf Hlen Hno Hne)) as (r & w' & E & -> & Hok & Hd).
  exists w'. by split_and!.
Qed.

Lemma table_lifecycle_witness :
  exists (t : TableCatalog) (w' : kvmap),
    table_life (T := MemoryTransaction) DEFAULT_DATABASE_NAME DEFAULT_SCHEMA_NAME two_columns "u" bootstrapped =
      (Ok (t, Some t, None, Some t, None, []), w') /\
    tc_table_name t = "u"%string.
Proof.
  destruct bootstrapped_members as [Hd Hs].
  destruct (table_lifecycle (T := MemoryTransaction) 2 bootstrapped default_database default_schema two_columns "u")
    as (w' & E & _).
  - split; [exact bootstrapped_ok|]. split; [exact Hd|]. by split.
  - split; [by split|]. split; [by split|]. split; [by split|]. repeat constructor; done.
  - done.
  - split; [vm_compute; reflexivity|]. intros _. vm_compute. reflexivity.
  - discriminate.
  - eexists _, w'. split; [exact E|reflexivity].
Defined.
