(* ===== verification/Olap.v ===== *)
(** * Column chunks, table statistics and zone-map pruning

    The chunk and statistics records of src/src/storage_layout/olap_stats.rs, the
    zone maps the server keeps (src/src/core/server/row_write.rs,
    src/src/core/server/olap_refresh.rs) and the row loaders of
    src/src/datafusion_bridge/table_provider_scans.rs with the pruning of chunks by
    their zone maps.  A loader's errors are the text [DataFusionError::External]
    wraps. *)

From stdpp Require Import pretty.
From S2P Require Import Prelude BTree Float Types Cursor TupleCodec Values KeyCodec RowCodec KvStore Stores Aggregate Pushdown.
From S2P Require LegacyCodec.

(** ** Records (keys.rs, olap_stats.rs) *)

Record OlapChunkMeta : Type := { chunk_id : Z; row_count : Z; chunk_zones : list ColumnZoneMap }.
Record TableStats : Type := { stats_row_count : Z; stats_zones : list ColumnZoneMap }.

Definition encode_olap_chunk_meta (meta : OlapChunkMeta) : list byte :=
  VERSION :: to_be 8 (chunk_id meta) ++ to_be 4 (row_count meta) ++ encode_zone_maps (chunk_zones meta).

(** The version byte every record starts with. *)
Definition read_version (message : string) : reader unit :=
  version ← Cursor_.u8;
  if version =? u8_to_Z VERSION then mret tt else reader_error "XX000" message.

Definition decode_olap_chunk_meta (bytes : list byte) : PgWireResult OlapChunkMeta :=
  run_reader (
    _ ← read_version "unsupported OLAP chunk meta version";
    chunk_id ← Cursor_.u64;
    row_count ← Cursor_.u32;
    zones ← decode_zone_maps;
    expect_done "trailing bytes in OLAP chunk meta"
      {| chunk_id := chunk_id; row_count := row_count; chunk_zones := zones |}) bytes.

Definition encode_olap_column_chunk (values : list ColumnValue) : list byte :=
  VERSION :: to_be 4 (len values) ++ concat (map encode_tuple_value values).

Definition decode_olap_column_chunk (bytes : list byte) : PgWireResult (list ColumnValue) :=
  run_reader (
    _ ← read_version "unsupported OLAP column chunk version";
    count ← Cursor_.u32;
    values ← repeat_m (Z.to_nat count) decode_tuple_value;
    expect_done "trailing bytes in OLAP column chunk" values) bytes.

Definition encode_table_stats (stats : TableStats) : list byte :=
  VERSION :: to_be 8 (stats_row_count stats) ++ encode_zone_maps (stats_zones stats).

Definition decode_table_stats (bytes : list byte) : PgWireResult TableStats :=
  run_reader (
    _ ← read_version "unsupported table stats version";
    row_count ← Cursor_.u64;
    zones ← decode_zone_maps;
    expect_done "trailing bytes in table stats"
      {| stats_row_count := row_count; stats_zones := zones |}) bytes.

(** ** Zone maps of rows *)

(** [is_none_or(|current| value.partial_cmp(current).is_some_and(..))]. *)
Definition none_or_cmp (test : option comparison -> bool) (bound : option ColumnValue)
    (compare : ColumnValue -> option comparison) : bool :=
  match bound with None => true | Some current => test (compare current) end.

Definition update_zone (zone : ColumnZoneMap) (value : ColumnValue) : ColumnZoneMap :=
  if is_null value then
    {| zone_column_id := zone_column_id zone;
       null_count := Z.min (null_count zone + 1) u64_max;
       zone_min := zone_min zone; zone_max := zone_max zone |}
  else
    {| zone_column_id := zone_column_id zone; null_count := null_count zone;
       zone_min := if none_or_cmp is_lt (zone_min zone) (cv_partial_cmp value)
                   then Some value else zone_min zone;
       zone_max := if none_or_cmp is_gt (zone_max zone) (cv_partial_cmp value)
                   then Some value else zone_max zone |}.

Definition cell_of (row : RowMap) (column : ColumnSchema) : ColumnValue :=
  default Null (row !! col_name column).

Definition empty_zone (column : ColumnSchema) : ColumnZoneMap :=
  {| zone_column_id := column_id column; null_count := 0; zone_min := None; zone_max := None |}.

Definition zone_maps_for_rows (schema : TableSchema) (rows : list RowMap) : list ColumnZoneMap :=
  foldl (fun zones row => zip_with (fun zone column => update_zone zone (cell_of row column))
                            zones (columns schema))
    (map empty_zone (columns schema)) rows.

(** ** The entries a refresh writes (olap_refresh.rs) *)

Definition OLAP_CHUNK_ROW_TARGET : nat := Z.to_nat 1024.

(** [slice::chunks]. *)
Definition chunks {A : Type} (n : nat) (l : list A) : list (list A) :=
  map (fun i : nat => take n (drop (i * n) l)) (seq 0 (div_ceil (length l) n)).

Definition chunk_meta_of (schema : TableSchema) (chunk_idx : nat) (chunk_rows : list RowMap) : OlapChunkMeta :=
  {| chunk_id := Z.of_nat chunk_idx + 1; row_count := len chunk_rows;
     chunk_zones := zone_maps_for_rows schema chunk_rows |}.

Definition chunk_entries (schema : TableSchema) (chunk_idx : nat) (chunk_rows : list RowMap) : list kvrow :=
  let meta := chunk_meta_of schema chunk_idx chunk_rows in
  (olap_chunk_meta_key (table_id schema) (table_epoch schema) (chunk_id meta), encode_olap_chunk_meta meta)
  :: map (fun column =>
       (olap_chunk_column_key (table_id schema) (table_epoch schema) (chunk_id meta) (column_id column),
        encode_olap_column_chunk (map (fun row => cell_of row column) chunk_rows))) (columns schema).

Definition stats_entries (schema : TableSchema) (rows : list RowMap) : list kvrow :=
  let stats := {| stats_row_count := len rows; stats_zones := zone_maps_for_rows schema rows |} in
  (stats_key (table_id schema) (table_epoch schema) None, encode_table_stats stats)
  :: map (fun zone =>
       (stats_key (table_id schema) (table_epoch schema) (Some (zone_column_id zone)),
        encode_table_stats {| stats_row_count := len rows; stats_zones := [zone] |})) (stats_zones stats).

Definition olap_entries (schema : TableSchema) (rows : list RowMap) : list kvrow :=
  concat (imap (chunk_entries schema) (chunks OLAP_CHUNK_ROW_TARGET rows)) ++ stats_entries schema rows.

(** The prefixes whose rows a refresh deletes first. *)
Definition olap_prefixes (schema : TableSchema) : list key :=
  [olap_chunk_meta_prefix (table_id schema) (table_epoch schema);
   olap_chunk_column_prefix (table_id schema) (table_epoch schema);
   stats_prefix (table_id schema) (table_epoch schema)].

(** ** Pruning of chunks *)

Definition literal_column_pair (column_expr literal_expr : DfExpr) : option (string * ColumnValue) :=
  match column_expr, literal_expr with
  | Df.Column name, Df.Literal value => (fun value => (name, value)) <$> scalar_value_to_column_value value
  | _, _ => None
  end.

Definition zone_may_match (zone : ColumnZoneMap) (op : Df.Operator) (value : ColumnValue) : bool :=
  match op with
  | Df.OEq =>
      none_or_cmp is_ge (zone_min zone) (cv_partial_cmp value) &&
      none_or_cmp is_le (zone_max zone) (cv_partial_cmp value)
  | Df.OGt => none_or_cmp is_gt (zone_max zone) (fun max => cv_partial_cmp max value)
  | Df.OGtEq => none_or_cmp is_ge (zone_max zone) (fun max => cv_partial_cmp max value)
  | Df.OLt => none_or_cmp is_lt (zone_min zone) (fun min => cv_partial_cmp min value)
  | Df.OLtEq => none_or_cmp is_le (zone_min zone) (fun min => cv_partial_cmp min value)
  | _ => true
  end.

Definition chunk_may_match_column_compare (schema : TableSchema) (meta : OlapChunkMeta)
    (column_name : string) (op : Df.Operator) (value : ColumnValue) : bool :=
  match find_column schema column_name with
  | None => true
  | Some column =>
      match List.find (fun zone => zone_column_id zone =? column_id column) (chunk_zones meta) with
      | None => true
      | Some zone => zone_may_match zone op value
      end
  end.

Definition chunk_may_match_binary_filter (schema : TableSchema) (meta : OlapChunkMeta)
    (lhs : DfExpr) (op : Df.Operator) (rhs : DfExpr) : bool :=
  match literal_column_pair lhs rhs with
  | Some (column_name, value) => chunk_may_match_column_compare schema meta column_name op value
  | None =>
      match literal_column_pair rhs lhs with
      | Some (column_name, value) =>
          chunk_may_match_column_compare schema meta column_name (reverse_operator op) value
      | None => true
      end
  end.

Fixpoint chunk_may_match_filter (schema : TableSchema) (meta : OlapChunkMeta) (filter : DfExpr) : bool :=
  match filter with
  | Df.BinaryExpr lhs Df.OAnd rhs =>
      chunk_may_match_filter schema meta lhs && chunk_may_match_filter schema meta rhs
  | Df.BinaryExpr lhs Df.OOr rhs =>
      chunk_may_match_filter schema meta lhs || chunk_may_match_filter schema meta rhs
  | Df.BinaryExpr lhs op rhs => chunk_may_match_binary_filter schema meta lhs op rhs
  | Df.Between expr negated low high =>
      match literal_column_pair expr low with
      | None => true
      | Some (column_name, value) =>
          if chunk_may_match_column_compare schema meta column_name Df.OGtEq value then
            match literal_column_pair expr high with
            | None => true
            | Some (column_name, value) =>
                chunk_may_match_column_compare schema meta column_name Df.OLtEq value
            end
          else negated
      end
  | _ => true
  end.

Definition chunk_may_match_filters (schema : TableSchema) (meta : OlapChunkMeta) (filters : list DfExpr)
    : bool :=
  forallb (chunk_may_match_filter schema meta) filters.

(** ** The row loaders *)

(** [limit.is_some_and(|limit| rows.len() >= limit)]. *)
Definition rows_full {A : Type} (limit : option nat) (rows : list A) : bool :=
  match limit with Some limit => (limit <=? length rows)%nat | None => false end.

Section Load.
Context {W T : Type} `{KvStoreApi W T}.
Context (show_error : pg_error -> string).
Context (store : W) (schema : TableSchema) (filters : list DfExpr) (limit : option nat).

(** The loop the loaders share: a row is loaded, kept when it matches, and the loop is
    left once the limit is reached; the flag says that it was. *)
Fixpoint collect_matching {A : Type} (load : A -> result string RowMap) (l : list A) (rows : list RowMap)
    : result string (list RowMap * bool) :=
  match l with
  | [] => Ok (rows, false)
  | a :: l =>
      row ← load a;
      if row_matches_datafusion_filters row filters then
        let rows := rows ++ [row] in
        if rows_full limit rows then Ok (rows, true) else collect_matching load l rows
      else collect_matching load l rows
  end.

(** [columns[idx]]. *)
Definition column_at (idx : nat) : result string ColumnSchema :=
  match columns schema !! idx with Some column => Ok column | None => Panic end.

Definition load_v2_row (needed : list nat) (row : kvrow) : result string RowMap :=
  if can_project_from_primary_key schema needed filters then
    pk_value ← map_err show_error
      (decode_pk_from_row_key row.1 (table_id schema) (table_epoch schema) (pk_data_type schema));
    Ok (projected_primary_key_row schema needed pk_value)
  else map_err show_error (decode_row_record schema row.2).

Definition load_rows_from_v2 (rows : list kvrow) (needed : list nat) : result string (list RowMap) :=
  fst <$> collect_matching (load_v2_row needed) rows [].

Definition load_chunk_column (id : Z) (idx : nat) : result string (string * list ColumnValue) :=
  column ← column_at idx;
  stored ← ks_get (T := T) store (olap_chunk_column_key (table_id schema) (table_epoch schema) id (column_id column));
  match stored with
  | None => Err ("missing OLAP column chunk table=" +:+ table_name schema +:+ " chunk=" +:+ pretty id
                 +:+ " column=" +:+ col_name column)%string
  | Some bytes =>
      values ← map_err show_error (decode_olap_column_chunk bytes);
      Ok (col_name column, values)
  end.

Definition chunk_row (chunk_columns : list (string * list ColumnValue)) (row_idx : nat) : RowMap :=
  foldl (fun row c => <[c.1 := default Null (c.2 !! row_idx)]> row) ∅ chunk_columns.

Fixpoint load_chunks (chunk_meta : list kvrow) (needed : list nat) (rows : list RowMap)
    : result string (list RowMap) :=
  match chunk_meta with
  | [] => Ok rows
  | (_, meta_bytes) :: chunk_meta =>
      meta ← map_err show_error (decode_olap_chunk_meta meta_bytes);
      if negb (chunk_may_match_filters schema meta filters) then load_chunks chunk_meta needed rows
      else
        chunk_columns ← map_m (load_chunk_column (chunk_id meta)) needed;
        '(rows, full) ← collect_matching (fun row_idx => Ok (chunk_row chunk_columns row_idx))
                          (seq 0 (Z.to_nat (row_count meta))) rows;
        if full : bool then Ok rows else load_chunks chunk_meta needed rows
  end.

Definition load_rows_from_chunks (chunk_meta : list kvrow) (needed : list nat) : result string (list RowMap) :=
  load_chunks chunk_meta needed [].

(** The rows of the first storage layout: a marker per row and a key per cell. *)
Definition load_cell (database_name schema_name : string) (pk_value : ColumnValue) (idx : nat)
    : result string (string * ColumnValue) :=
  column ← column_at idx;
  k ← map_err show_error
    (LegacyCodec.cell_key database_name schema_name (table_name schema) (col_name column) pk_value);
  cell ← ks_get (T := T) store k;
  value ← match cell with
          | Some bytes => map_err show_error (LegacyCodec.decode_cell_value (data_type column) bytes)
          | None => Ok Null
          end;
  Ok (col_name column, value).

Definition load_marker_row (database_name schema_name : string) (needed : list nat) (marker : kvrow)
    : result string RowMap :=
  pk_value ← map_err show_error
    (LegacyCodec.decode_pk_from_row_marker_key marker.1 database_name schema_name (table_name schema)
       (pk_data_type schema));
  cells ← map_m (load_cell database_name schema_name pk_value) needed;
  Ok (foldl (fun row c => <[c.1 := c.2]> row) ∅ cells).

Definition ks_scan (r : RangeScan) : result string (list kvrow) :=
  ks_scan_range (T := T) store (rs_start r) (rs_end r) (rs_limit r) (rs_reverse r).

Definition load_rows_with_columns (database_name schema_name : string) (needed : list nat)
    : result string (list RowMap) :=
  v2_rows ← ks_scan (row_range (table_id schema) (table_epoch schema) None);
  match v2_rows with
  | _ :: _ => load_rows_from_v2 v2_rows needed
  | [] =>
      chunk_meta ← ks_scan (olap_chunk_meta_range (table_id schema) (table_epoch schema));
      match chunk_meta with
      | _ :: _ => load_rows_from_chunks chunk_meta needed
      | [] =>
          markers ← ks_scan_prefix (T := T) store
            (LegacyCodec.row_marker_prefix database_name schema_name (table_name schema));
          fst <$> collect_matching (load_marker_row database_name schema_name needed) markers []
      end
  end.
End Load.

(** ** Round trips of the records *)

Lemma reads_version (message : string) : reads (read_version message) [VERSION] tt.
Proof. unfold read_version. eapply reads_bind_end; [apply reads_u8|]. apply reads_ret. Qed.

(** [finishes m x a]: on a cursor with exactly [x] unread, [m] returns [a]. *)
Definition finishes {A : Type} (m : reader A) (x : list byte) (a : A) : Prop :=
  forall c, remaining c = x -> (pos c <= length (bytes c))%nat -> exists c', m c = Ok (a, c').

Lemma finishes_done {A : Type} (message : string) (a : A) : finishes (expect_done message a) [] a.
Proof.
  intros c Hr Hp. exists c. unfold expect_done, Cursor_.is_done.
  apply (f_equal length) in Hr. unfold remaining in Hr. rewrite length_drop in Hr. cbn in Hr.
  by replace (pos c) with (length (bytes c)) by lia; rewrite Nat.eqb_refl.
Qed.

Lemma finishes_bind {A B : Type} (m : reader A) (k : A -> reader B) (x y : list byte) (a : A) (b : B) :
  reads m x a -> finishes (k a) y b -> finishes (mbind k m) (x ++ y) b.
Proof.
  intros Hm Hk c Hr Hp.
  rewrite (reader_bind_ok _ _ _ _ _ (Hm c y Hr Hp)).
  apply Hk.
  - rewrite remaining_advance, Hr. apply drop_app_length.
  - cbn. apply (remaining_app_length _ _ _ Hr). by right.
Qed.

Lemma finishes_bind_end {A B : Type} (m : reader A) (k : A -> reader B) (x : list byte) (a : A) (b : B) :
  reads m x a -> finishes (k a) [] b -> finishes (mbind k m) x b.
Proof. intros Hm Hk. rewrite <- (app_nil_r x). by eapply finishes_bind. Qed.

Lemma run_finishes {A : Type} (m : reader A) (x : list byte) (a : A) : finishes m x a -> run_reader m x = Ok a.
Proof.
  intros H. destruct (H (Cursor_.new x)) as [c' Hc]; [done|cbn; lia|].
  unfold run_reader. by rewrite Hc.
Qed.

(** Bounds of a record's zone maps: what the widths of its fields hold. *)
Definition wf_zones (zones : list ColumnZoneMap) : Prop := len zones < 2 ^ 32 /\ Forall wf_zone_map zones.

Lemma chunk_meta_reads_back (meta : OlapChunkMeta) :
  in_unsigned 64 (chunk_id meta) -> in_unsigned 32 (row_count meta) -> wf_zones (chunk_zones meta) ->
  decode_olap_chunk_meta (encode_olap_chunk_meta meta) = Ok meta.
Proof.
  intros Hid Hn [Hl Hz]. destruct meta as [id n zones]. apply run_finishes.
  unfold encode_olap_chunk_meta. change (VERSION :: ?x) with ([VERSION] ++ x).
  eapply finishes_bind; [apply reads_version|]. eapply finishes_bind; [by apply reads_u64|].
  eapply finishes_bind; [by apply reads_u32|]. eapply finishes_bind_end; [by apply reads_zone_maps|].
  apply finishes_done.
Qed.

Lemma column_chunk_reads_back (values : list ColumnValue) :
  len values < 2 ^ 32 -> Forall wf_value values ->
  decode_olap_column_chunk (encode_olap_column_chunk values) = Ok values.
Proof.
  intros Hl Hw. apply run_finishes. unfold encode_olap_column_chunk.
  change (VERSION :: ?x) with ([VERSION] ++ x).
  eapply finishes_bind; [apply reads_version|].
  eapply finishes_bind; [by apply reads_u32, in_unsigned_len|].
  eapply finishes_bind_end; [|apply finishes_done].
  unfold len. rewrite Nat2Z.id. apply reads_repeat. eapply Forall_impl; [exact Hw|]. auto with uni.
Qed.

Lemma table_stats_read_back (stats : TableStats) :
  in_unsigned 64 (stats_row_count stats) -> wf_zones (stats_zones stats) ->
  decode_table_stats (encode_table_stats stats) = Ok stats.
Proof.
  intros Hn [Hl Hz]. destruct stats as [n zones]. apply run_finishes. unfold encode_table_stats.
  change (VERSION :: ?x) with ([VERSION] ++ x).
  eapply finishes_bind; [apply reads_version|]. eapply finishes_bind; [by apply reads_u64|].
  eapply finishes_bind_end; [by apply reads_zone_maps|]. apply finishes_done.
Qed.

(** ** Zone maps bound the values they were made from *)

Lemma zip_fold {A B C : Type} (f : A -> C -> B -> A) (cols : list C) (rows : list B) : forall zones : list A,
  length zones = length cols ->
  foldl (fun zones row => zip_with (fun z c => f z c row) zones cols) zones rows =
  zip_with (fun z c => foldl (fun z row => f z c row) z rows) zones cols.
Proof.
  induction rows as [|row rows IH]; intros zones Hl; cbn [foldl].
  - revert zones Hl. induction cols as [|c cols IHc]; intros [|z zones] Hl; cbn in *; try done.
    f_equal. apply IHc. lia.
  - rewrite IH by (rewrite length_zip_with; lia).
    clear IH. revert zones Hl. induction cols as [|c cols IHc]; intros [|z zones] Hl; cbn in *; try done.
    f_equal. apply IHc. lia.
Qed.

Definition zone_of (rows : list RowMap) (column : ColumnSchema) : ColumnZoneMap :=
  foldl update_zone (empty_zone column) (map (fun row => cell_of row column) rows).

Lemma zone_maps_columns (schema : TableSchema) (rows : list RowMap) :
  zone_maps_for_rows schema rows = map (zone_of rows) (columns schema).
Proof.
  unfold zone_maps_for_rows. rewrite (zip_fold (fun z c row => update_zone z (cell_of row c)))
    by apply length_map.
  unfold zone_of. induction (columns schema) as [|c cols IH]; [done|]. cbn. f_equal; [|exact IH].
  generalize (empty_zone c). clear. induction rows as [|row rows IH]; intros z; [done|]. cbn. apply IH.
Qed.

(** The values of a class, and NULL. *)
Definition of_class (k : nat) (v : ColumnValue) : Prop := is_null v = true \/ value_class v = Some k.

Definition class_bound (k : nat) (bound : option ColumnValue) : Prop :=
  match bound with None => True | Some b => value_class b = Some k end.

(** [v] is between the bounds of the zone, which are of its class. *)
Definition zone_holds (k : nat) (zone : ColumnZoneMap) (v : ColumnValue) : Prop :=
  exists lo hi, zone_min zone = Some lo /\ zone_max zone = Some hi /\
    value_class lo = Some k /\ value_class hi = Some k /\
    class_compare lo v <> Gt /\ class_compare v hi <> Gt.

Lemma zoned_not_null (k : nat) (v : ColumnValue) : value_class v = Some k -> is_null v = false.
Proof. by destruct v. Qed.

Lemma class_compare_refl (v : ColumnValue) : class_compare v v = Eq.
Proof. unfold class_compare. rewrite Z.compare_refl. apply bytes_cmp_refl. Qed.

Lemma tighten_min (k : nat) (bound : option ColumnValue) (v : ColumnValue) :
  class_bound k bound -> value_class v = Some k ->
  exists lo, (if none_or_cmp is_lt bound (cv_partial_cmp v) then Some v else bound) = Some lo /\
    value_class lo = Some k /\ class_compare lo v <> Gt /\
    (forall b, bound = Some b -> class_compare lo b <> Gt).
Proof.
  intros Hb Hv. destruct bound as [b|]; cbn [none_or_cmp class_bound] in *.
  - rewrite (class_cmp k v b) by done.
    destruct (class_compare v b) eqn:Hc; cbn; eexists; (split; [reflexivity|]);
      repeat split; try done; rewrite ?class_compare_refl; try done;
      try (intros ? [= <-]; rewrite ?class_compare_refl, ?Hc; done);
      by rewrite (class_compare_antisym v b), Hc.
  - exists v. rewrite class_compare_refl. by repeat split.
Qed.

Lemma tighten_max (k : nat) (bound : option ColumnValue) (v : ColumnValue) :
  class_bound k bound -> value_class v = Some k ->
  exists hi, (if none_or_cmp is_gt bound (cv_partial_cmp v) then Some v else bound) = Some hi /\
    value_class hi = Some k /\ class_compare v hi <> Gt /\
    (forall b, bound = Some b -> class_compare b hi <> Gt).
Proof.
  intros Hb Hv. destruct bound as [b|]; cbn [none_or_cmp class_bound] in *.
  - rewrite (class_cmp k v b) by done.
    destruct (class_compare v b) eqn:Hc; cbn; eexists; (split; [reflexivity|]);
      repeat split; rewrite ?class_compare_refl, ?Hc; try done;
      intros ? [= <-]; rewrite ?class_compare_refl; try done;
      by rewrite (class_compare_antisym v b), Hc.
  - exists v. rewrite class_compare_refl. by repeat split.
Qed.

Lemma update_zone_holds (k : nat) (zone : ColumnZoneMap) (v : ColumnValue) :
  class_bound k (zone_min zone) -> class_bound k (zone_max zone) -> of_class k v ->
  class_bound k (zone_min (update_zone zone v)) /\ class_bound k (zone_max (update_zone zone v)) /\
  (is_null v = false -> zone_holds k (update_zone zone v) v) /\
  (forall w, zone_holds k zone w -> zone_holds k (update_zone zone v) w).
Proof.
  intros Hmin Hmax Hv. unfold update_zone, zone_holds.
  destruct (is_null v) eqn:Hn; [by repeat split|].
  destruct Hv as [Hv|Hv]; [congruence|]. cbn [zone_min zone_max].
  destruct (tighten_min k _ v Hmin Hv) as (lo & -> & Hlo & Hlov & Hlob).
  destruct (tighten_max k _ v Hmax Hv) as (hi & -> & Hhi & Hhiv & Hhib).
  repeat split; try done; [by exists lo, hi|].
  intros w (a & b & Ha & Hb & Hca & Hcb & Haw & Hwb). exists lo, hi. repeat split; try done.
  - eapply class_compare_trans; [by apply Hlob|done].
  - eapply class_compare_trans; [done|by apply Hhib].
Qed.

Lemma fold_zone_holds (k : nat) (vs : list ColumnValue) : forall zone : ColumnZoneMap,
  class_bound k (zone_min zone) -> class_bound k (zone_max zone) -> Forall (of_class k) vs ->
  (forall w, zone_holds k zone w -> zone_holds k (foldl update_zone zone vs) w) /\
  (forall v, v ∈ vs -> is_null v = false -> zone_holds k (foldl update_zone zone vs) v).
Proof.
  induction vs as [|v vs IH]; intros zone Hmin Hmax Hall; cbn [foldl].
  - split; [done|]. intros v Hv. by apply elem_of_nil in Hv.
  - apply Forall_cons in Hall as [Hv Hall].
    destruct (update_zone_holds k zone v Hmin Hmax Hv) as (H1' & H2' & H3' & H4').
    destruct (IH _ H1' H2' Hall) as [HA HB]. split; [by auto|].
    intros w [->|Hw]%elem_of_cons Hn; auto.
Qed.

Lemma zone_of_holds (k : nat) (rows : list RowMap) (column : ColumnSchema) (row : RowMap) :
  Forall (fun row => of_class k (cell_of row column)) rows -> row ∈ rows ->
  is_null (cell_of row column) = false -> zone_holds k (zone_of rows column) (cell_of row column).
Proof.
  intros Hall Hrow Hn. apply fold_zone_holds; [done..|by rewrite Forall_map| |done].
  by apply (list_elem_of_fmap_2 (fun row => cell_of row column)).
Qed.

Lemma zone_of_id (rows : list RowMap) (column : ColumnSchema) :
  zone_column_id (zone_of rows column) = column_id column.
Proof.
  unfold zone_of. change (column_id column) with (zone_column_id (empty_zone column)).
  generalize (empty_zone column). induction rows as [|row rows IH]; intros z; [done|].
  cbn [map foldl]. rewrite IH. unfold update_zone. by destruct (is_null _).
Qed.

(** ** A value that satisfies a comparison lies in a zone the comparison keeps *)

Lemma cv_eqb_class (k : nat) (a b : ColumnValue) :
  value_class a = Some k -> value_class b = Some k -> cv_eqb a b = true -> class_compare a b = Eq.
Proof.
  unfold class_compare. destruct a, b; cbn [value_class];
    repeat match goal with |- context [if fis_nan ?m ?e ?x then _ else _] =>
      destruct (fis_nan m e x) eqn:? end;
    try congruence; intros _ _; cbn [cv_eqb value_rank value_bytes];
    try discriminate; intros Heq;
    first [ apply Z.eqb_eq in Heq as ->; rewrite Z.compare_refl; apply bytes_cmp_refl
          | apply bool_decide_eq_true in Heq as ->; rewrite Z.compare_refl; apply bytes_cmp_refl
          | apply Bool.eqb_prop in Heq as ->; rewrite Z.compare_refl; apply bytes_cmp_refl
          | idtac ].
  all: rewrite feqb_compare in Heq;
    rewrite fcompare_val in Heq by (done || lia); by destruct (_ ?= _).
Qed.

Lemma zone_keeps (k : nat) (zone : ColumnZoneMap) (op : Df.Operator) (v value : ColumnValue) :
  (is_null v = false -> zone_holds k zone v) -> of_class k v -> of_class k value ->
  compare_column_values v op value = true -> zone_may_match zone op value = true.
Proof.
  unfold compare_column_values. intros Hz Hv Hl.
  destruct (is_null v || is_null value) eqn:Hn; [done|]. apply orb_false_iff in Hn as [Hnv Hnl].
  destruct Hv as [Hv|Hv]; [congruence|]. destruct Hl as [Hl|Hl]; [congruence|].
  destruct (Hz Hnv) as (lo & hi & Hlo & Hhi & Hclo & Hchi & Hlov & Hvhi).
  unfold zone_may_match. rewrite Hlo, Hhi. cbn [none_or_cmp].
  rewrite !(class_cmp k) by done.
  assert (Hlv : forall c, class_compare v value = c -> c <> Gt -> class_compare lo value <> Gt).
  { intros c <- Hc. by eapply class_compare_trans. }
  assert (Hvh : forall c, class_compare v value = c -> c <> Lt -> class_compare value hi <> Gt).
  { intros c <- Hc. eapply class_compare_trans; [|exact Hvhi]. rewrite (class_compare_antisym v).
    by destruct (class_compare v value). }
  destruct op; try done.
  - intros Heq%(cv_eqb_class k); [|done..]. specialize (Hlv _ Heq ltac:(done)). specialize (Hvh _ Heq ltac:(done)).
    rewrite (class_compare_antisym lo value).
    destruct (class_compare lo value), (class_compare value hi); cbn; try done; exfalso; auto.
  - intros Hg. destruct (class_compare v value) eqn:Hc; try discriminate.
    rewrite (class_compare_antisym value hi).
    destruct (class_compare value hi) eqn:Hh; cbn; [|done|by exfalso; apply (Hvh _ eq_refl)].
    exfalso. assert (class_compare v value <> Gt); [|congruence].
    eapply class_compare_trans; [exact Hvhi|]. rewrite class_compare_antisym, Hh. done.
  - intros Hg. rewrite (class_compare_antisym value hi).
    destruct (class_compare v value) eqn:Hc; try discriminate;
      specialize (Hvh _ eq_refl ltac:(done)); destruct (class_compare value hi); cbn; try done; exfalso; auto.
  - intros Hg. destruct (class_compare v value) eqn:Hc; try discriminate.
    destruct (class_compare lo value) eqn:Hh; cbn; [|done|by exfalso; apply (Hlv _ eq_refl)].
    exfalso. assert (Hvl : class_compare value v <> Gt).
    { eapply class_compare_trans; [|exact Hlov]. by rewrite class_compare_antisym, Hh. }
    by rewrite (class_compare_antisym v value), Hc in Hvl.
  - intros Hg. destruct (class_compare v value) eqn:Hc; try discriminate;
      specialize (Hlv _ eq_refl ltac:(done)); destruct (class_compare lo value); cbn; try done; exfalso; auto.
Qed.

(** ** Pruning keeps every chunk with a matching row *)

Section Prune.
Context (schema : TableSchema) (classes : string -> nat).

(** What a column is compared with is NULL or a value of its class. *)
Definition comparable_pair (column_expr literal_expr : DfExpr) : Prop :=
  forall name value, literal_column_pair column_expr literal_expr = Some (name, value) ->
    of_class (classes name) value.

Fixpoint prunable (e : DfExpr) : Prop :=
  match e with
  | Df.BinaryExpr lhs Df.OAnd rhs | Df.BinaryExpr lhs Df.OOr rhs => prunable lhs /\ prunable rhs
  | Df.BinaryExpr lhs _ rhs => comparable_pair lhs rhs /\ comparable_pair rhs lhs
  | Df.Between expr negated low high =>
      negated = false /\ comparable_pair expr low /\ comparable_pair expr high
  | _ => True
  end.

(** Every column's values are of its class. *)
Definition column_classes (rows : list RowMap) : Prop :=
  forall column, column ∈ columns schema ->
    Forall (fun row => of_class (classes (col_name column)) (cell_of row column)) rows.

(** [row] has some of the columns of the stored row [stored]. *)
Definition shows_columns (stored row : RowMap) : Prop :=
  forall name v, row !! name = Some v ->
    exists column, find_column schema name = Some column /\ v = cell_of stored column.

Context (rows : list RowMap) (meta : OlapChunkMeta) (stored row : RowMap).
Context (Hids : NoDup (map column_id (columns schema))).
Context (Hzones : chunk_zones meta = zone_maps_for_rows schema rows).
Context (Hclasses : column_classes rows) (Hstored : stored ∈ rows) (Hrow : shows_columns stored row).

Lemma find_zone (column : ColumnSchema) : column ∈ columns schema ->
  List.find (fun zone => zone_column_id zone =? column_id column) (chunk_zones meta) = Some (zone_of rows column).
Proof.
  rewrite Hzones, zone_maps_columns. revert Hids. induction (columns schema) as [|c cols IH]; cbn [map].
  - intros _ Hc. by apply elem_of_nil in Hc.
  - intros [Hn Hd]%NoDup_cons Hc. cbn [List.find]. rewrite zone_of_id.
    apply elem_of_cons in Hc as [->|Hc]; [by rewrite Z.eqb_refl|].
    destruct (Z.eqb_spec (column_id c) (column_id column)) as [He|He]; [|by apply IH].
    destruct Hn. rewrite He. by apply (list_elem_of_fmap_2 column_id).
Qed.

Lemma column_compare_kept (name : string) (op : Df.Operator) (v value : ColumnValue) :
  row !! name = Some v -> of_class (classes name) value -> compare_column_values v op value = true ->
  chunk_may_match_column_compare schema meta name op value = true.
Proof.
  intros Hv Hl Hcmp. destruct (Hrow name v Hv) as (column & Hc & ->).
  unfold chunk_may_match_column_compare. rewrite Hc.
  assert (Hin : column ∈ columns schema).
  { unfold find_column in Hc. apply find_some in Hc as [Hc _]. by apply list_elem_of_In. }
  rewrite find_zone by done. apply find_column_name in Hc as <-.
  pose proof (Hclasses column Hin) as Hcls.
  eapply zone_keeps; [|by eapply Forall_forall in Hcls|exact Hl|exact Hcmp].
  intros Hn. by apply zone_of_holds.
Qed.

Lemma literal_pair_column (column_expr literal_expr : DfExpr) (name : string) (value : ColumnValue) :
  literal_column_pair column_expr literal_expr = Some (name, value) -> column_expr = Df.Column name.
Proof.
  destruct column_expr; try done. destruct literal_expr; try done. cbn.
  destruct (scalar_value_to_column_value value0); [|done]. by intros [= -> ->].
Qed.

Lemma literal_pair_inv (column_expr literal_expr : DfExpr) (name : string) (value : ColumnValue) :
  literal_column_pair column_expr literal_expr = Some (name, value) ->
  eval_filter_value row column_expr = row !! name /\ eval_filter_value row literal_expr = Some value.
Proof.
  destruct column_expr; try done. destruct literal_expr; try done. cbn.
  destruct (scalar_value_to_column_value value0); [|done]. by intros [= -> ->].
Qed.

Lemma binary_filter_kept (lhs rhs : DfExpr) (op : Df.Operator) :
  comparable_pair lhs rhs -> comparable_pair rhs lhs ->
  (l ← eval_filter_value row lhs; r ← eval_filter_value row rhs; compare_answer l op r) = Some true ->
  chunk_may_match_binary_filter schema meta lhs op rhs = true.
Proof.
  intros Hlr Hrl. unfold chunk_may_match_binary_filter.
  destruct (literal_column_pair lhs rhs) as [[name value]|] eqn:Hp.
  - destruct (literal_pair_inv _ _ _ _ Hp) as [-> ->]. cbn [mbind option_bind].
    destruct (row !! name) as [v|] eqn:Hv; [|done]. cbn [mbind option_bind]. intros Ha.
    eapply column_compare_kept; [exact Hv|by apply Hlr|]. by rewrite <- compare_answer_true, Ha.
  - destruct (literal_column_pair rhs lhs) as [[name value]|] eqn:Hq; [|done].
    destruct (literal_pair_inv _ _ _ _ Hq) as [-> ->]. cbn [mbind option_bind].
    destruct (row !! name) as [v|] eqn:Hv; [|done]. cbn [mbind option_bind]. intros Ha.
    eapply column_compare_kept; [exact Hv|by apply Hrl|].
    by rewrite compare_reverse, <- compare_answer_true, Ha.
Qed.

Lemma filter_kept (e : DfExpr) : prunable e -> eval_filter_bool row e = Some true ->
  chunk_may_match_filter schema meta e = true.
Proof.
  induction e as [| |lhs IHl op rhs IHr| | | | | | | | | | |e IHe negated low IHlow high IHhigh| | |];
    try done; cbn [prunable eval_filter_bool chunk_may_match_filter].
  - destruct op; try (intros [Hlr Hrl]; by apply binary_filter_kept).
    + intros [Hl Hr]. destruct (eval_filter_bool row lhs) as [[]|], (eval_filter_bool row rhs) as [[]|];
        try done. by rewrite IHl, IHr.
    + intros [Hl Hr]. destruct (eval_filter_bool row lhs) as [[]|]; [by rewrite IHl|..];
        destruct (eval_filter_bool row rhs) as [[]|]; try done; by rewrite IHr, orb_true_r.
    + done.
  - intros (-> & Hlow & Hhigh).
    destruct (literal_column_pair e low) as [[name lo]|] eqn:Hpl; [|done].
    destruct (literal_pair_inv _ _ _ _ Hpl) as [-> ->]. cbn [mbind option_bind].
    destruct (row !! name) as [v|] eqn:Hv; [|done]. cbn [mbind option_bind].
    destruct (eval_filter_value row high) as [hi|] eqn:Ehi; [|done]. cbn [mbind option_bind].
    destruct (is_null v || is_null lo || is_null hi); [done|]. intros [= [Hge Hle]%andb_true_iff].
    rewrite (column_compare_kept _ _ _ _ Hv (Hlow _ _ Hpl) Hge).
    destruct (literal_column_pair e high) as [[name' hi']|] eqn:Hph; [|done].
    assert (name' = name) as ->.
    { apply literal_pair_column in Hpl as ->, Hph as [= ->]. done. }
    destruct (literal_pair_inv _ _ _ _ Hph) as [_ Ehi']. rewrite Ehi in Ehi'. injection Ehi' as ->.
    by apply (column_compare_kept _ _ _ _ Hv (Hhigh _ _ Hph)).
Qed.

Lemma filters_kept (filters : list DfExpr) : Forall prunable filters ->
  row_matches_datafusion_filters row filters = true -> chunk_may_match_filters schema meta filters = true.
Proof.
  intros Hp. unfold row_matches_datafusion_filters, chunk_may_match_filters. rewrite !forallb_forall.
  intros Hm f Hf. eapply filter_kept.
  - eapply Forall_forall in Hp; [exact Hp|]. by apply list_elem_of_In.
  - specialize (Hm f Hf). by destruct (eval_filter_bool row f) as [[]|].
Qed.
End Prune.

(** ** The store after a refresh *)

(** What [refresh_olap_storage_at] makes of a store whose visible rows are [rows]. *)
Definition olap_refreshed (schema : TableSchema) (rows : list RowMap) (M : kvmap) : kvmap :=
  store_put_batch (olap_entries schema rows)
    (rows_where (fun k => negb (existsb (starts_with k) (olap_prefixes schema))) M).

Lemma put_batch_other (es : list kvrow) (k : key) : forall M : kvmap,
  k ∉ map fst es -> store_put_batch es M !! k = M !! k.
Proof.
  induction es as [|e es IH]; intros M Hk; [done|]. cbn [map] in Hk. apply not_elem_of_cons in Hk as [Hne Hk].
  change (store_put_batch es (<[e.1 := e.2]> M) !! k = M !! k).
  rewrite IH by done. by apply lookup_insert_ne.
Qed.

Lemma put_batch_unique (es : list kvrow) (k : key) (v : list byte) : forall M : kvmap,
  (k, v) ∈ es -> (forall v', (k, v') ∈ es -> v' = v) -> store_put_batch es M !! k = Some v.
Proof.
  induction es as [|[k' v'] es IH]; intros M Hk Hu; [by apply elem_of_nil in Hk|].
  change (store_put_batch es (<[k' := v']> M) !! k = Some v).
  destruct (decide (k ∈ map fst es)) as [Hin|Hin].
  - apply list_elem_of_fmap in Hin as [[k'' w] [-> Hin]]. cbn in *.
    assert (w = v) as -> by by apply Hu, list_elem_of_further.
    apply IH; [done|]. intros u Hu'. by apply Hu, list_elem_of_further.
  - rewrite put_batch_other by done. apply elem_of_cons in Hk as [[= -> ->]|Hk].
    + apply lookup_insert_eq.
    + destruct Hin. by apply (list_elem_of_fmap_2 fst _ (k, v)).
Qed.

Lemma strictly_of_lookup {A : Type} (R : A -> A -> Prop) (l : list A) :
  (forall (i j : nat) (a b : A), (i < j)%nat -> l !! i = Some a -> l !! j = Some b -> R a b) -> strictly R l.
Proof.
  induction l as [|a l IH]; intros Hl; [done|]. split.
  - apply Forall_forall. intros b Hb. apply list_elem_of_lookup in Hb as [j Hj].
    by apply (Hl 0%nat (S j)); [lia|..].
  - apply IH. intros i j x y Hij Hx Hy. by apply (Hl (S i) (S j)); [lia|..].
Qed.

Section Refreshed.
Context (schema : TableSchema) (rows : list RowMap).

Record olap_sized : Prop := {
  sized_ids : NoDup (map column_id (columns schema));
  sized_id : Forall (fun c => in_unsigned 32 (column_id c)) (columns schema);
  sized_columns : len (columns schema) < 2 ^ 32;
  sized_rows : len rows < 2 ^ 64;
  sized_values : forall row column, row ∈ rows -> column ∈ columns schema -> wf_value (cell_of row column);
}.
Context (Hsized : olap_sized).

Definition chunk_list : list (list RowMap) := chunks OLAP_CHUNK_ROW_TARGET rows.

Definition chunk_meta_row (i : nat) (chunk_rows : list RowMap) : kvrow :=
  (olap_chunk_meta_key (table_id schema) (table_epoch schema) (Z.of_nat i + 1),
   encode_olap_chunk_meta (chunk_meta_of schema i chunk_rows)).

Definition chunk_column_row (i : nat) (chunk_rows : list RowMap) (column : ColumnSchema) : kvrow :=
  (olap_chunk_column_key (table_id schema) (table_epoch schema) (Z.of_nat i + 1) (column_id column),
   encode_olap_column_chunk (map (fun row => cell_of row column) chunk_rows)).

Lemma olap_entries_elem (e : kvrow) : e ∈ olap_entries schema rows <->
  (exists i cr, chunk_list !! i = Some cr /\
     (e = chunk_meta_row i cr \/ exists c, c ∈ columns schema /\ e = chunk_column_row i cr c)) \/
  e ∈ stats_entries schema rows.
Proof.
  unfold olap_entries. rewrite elem_of_app. apply or_iff_compat_r.
  rewrite list_elem_of_In, in_concat. setoid_rewrite <- list_elem_of_In. split.
  - intros (es & Hes & He). apply list_elem_of_lookup in Hes as [i Hi].
    rewrite list_lookup_imap in Hi. apply fmap_Some in Hi as (cr & Hcr & ->).
    exists i, cr. split; [done|]. apply elem_of_cons in He as [->|He]; [by left|].
    right. apply list_elem_of_fmap in He as (c & -> & Hc). by exists c.
  - intros (i & cr & Hcr & He). exists (chunk_entries schema i cr). split.
    + apply list_elem_of_lookup. exists i. rewrite list_lookup_imap. fold chunk_list. by rewrite Hcr.
    + destruct He as [->|(c & Hc & ->)]; [by left|]. right.
      by apply (list_elem_of_fmap_2 (chunk_column_row i cr)).
Qed.

Lemma chunk_list_length : len chunk_list <= len rows.
Proof.
  unfold chunk_list, chunks, len. rewrite length_map, length_seq. unfold div_ceil, OLAP_CHUNK_ROW_TARGET.
  assert (Hd : ((length rows + (Z.to_nat 1024 - 1)) / Z.to_nat 1024 <= length rows)%nat); [|lia].
  generalize (length rows). intros n. destruct n as [|n]; [by vm_compute|].
  apply Nat.Div0.div_le_upper_bound. lia.
Qed.

Lemma chunk_id_range (i : nat) (cr : list RowMap) : chunk_list !! i = Some cr ->
  in_unsigned 64 (Z.of_nat i + 1).
Proof.
  intros Hi%lookup_lt_Some. pose proof chunk_list_length. pose proof (sized_rows Hsized).
  unfold in_unsigned, len in *. lia.
Qed.

Lemma meta_key_inj (i j : nat) (cr cr' : list RowMap) :
  chunk_list !! i = Some cr -> chunk_list !! j = Some cr' ->
  (chunk_meta_row i cr).1 = (chunk_meta_row j cr').1 -> chunk_meta_row i cr = chunk_meta_row j cr'.
Proof.
  intros Hi Hj He. cbn [chunk_meta_row fst] in He. unfold olap_chunk_meta_key in He.
  do 3 apply app_inv_head in He. apply to_be_inj in He; [|by eapply chunk_id_range..].
  assert (i = j) as -> by lia. congruence.
Qed.

Lemma column_key_inj (i j : nat) (cr cr' : list RowMap) (c c' : ColumnSchema) :
  chunk_list !! i = Some cr -> chunk_list !! j = Some cr' -> c ∈ columns schema -> c' ∈ columns schema ->
  (chunk_column_row i cr c).1 = (chunk_column_row j cr' c').1 ->
  chunk_column_row i cr c = chunk_column_row j cr' c'.
Proof.
  intros Hi Hj Hc Hc' He. cbn [chunk_column_row fst] in He. unfold olap_chunk_column_key in He.
  do 3 apply app_inv_head in He. apply app_inv_length in He as [Hij Hcc]; [|by rewrite !length_to_be].
  apply to_be_inj in Hij; [|by eapply chunk_id_range..].
  pose proof (sized_id Hsized) as Hw. rewrite Forall_forall in Hw.
  apply to_be_inj in Hcc; [|by apply Hw..].
  assert (i = j) as -> by lia. assert (cr = cr') as -> by congruence.
  enough (c = c') as -> by done.
  pose proof (sized_ids Hsized) as Hnd.
  apply list_elem_of_lookup in Hc as [x Hx], Hc' as [y Hy].
  assert (x = y); [|congruence].
  eapply (NoDup_lookup (map column_id (columns schema))); [done|..].
  - by rewrite list_lookup_fmap, Hx.
  - by rewrite list_lookup_fmap, Hy; cbn; f_equal.
Qed.

Lemma meta_not_column (i j : nat) (cr cr' : list RowMap) (c : ColumnSchema) :
  (chunk_meta_row i cr).1 <> (chunk_column_row j cr' c).1.
Proof. discriminate. Qed.

Lemma stats_not_olap (e : kvrow) (b : byte) (r : list byte) : e ∈ stats_entries schema rows ->
  e.1 <> VERSION :: OLAP_PREFIX :: b :: r.
Proof.
  intros [->|He]%elem_of_cons; [discriminate|]. apply list_elem_of_fmap in He as (z & -> & _). discriminate.
Qed.

Context (M : kvmap).

Lemma refreshed_meta (i : nat) (cr : list RowMap) : chunk_list !! i = Some cr ->
  olap_refreshed schema rows M !! (chunk_meta_row i cr).1 = Some (chunk_meta_row i cr).2.
Proof.
  intros Hi. apply put_batch_unique.
  - apply olap_entries_elem. left. exists i, cr. split; [done|]. by left.
  - intros v' [(j & cr' & Hj & [He|(c & _ & He)])|He]%olap_entries_elem.
    + pose proof (meta_key_inj j i cr' cr Hj Hi) as Hk. rewrite <- He in Hk.
      exact (f_equal snd (Hk eq_refl)).
    + by apply (f_equal fst), meta_not_column in He.
    + by destruct (stats_not_olap _ _ _ He eq_refl).
Qed.

Lemma refreshed_column (i : nat) (cr : list RowMap) (c : ColumnSchema) :
  chunk_list !! i = Some cr -> c ∈ columns schema ->
  olap_refreshed schema rows M !! (chunk_column_row i cr c).1 = Some (chunk_column_row i cr c).2.
Proof.
  intros Hi Hc. apply put_batch_unique.
  - apply olap_entries_elem. left. exists i, cr. split; [done|]. right. by exists c.
  - intros v' [(j & cr' & Hj & [He|(c' & Hc' & He)])|He]%olap_entries_elem.
    + symmetry in He. by apply (f_equal fst), meta_not_column in He.
    + pose proof (column_key_inj j i cr' cr c' c Hj Hi Hc' Hc) as Hk. rewrite <- He in Hk.
      exact (f_equal snd (Hk eq_refl)).
    + by destruct (stats_not_olap _ _ _ He eq_refl).
Qed.

Lemma put_batch_inv (es : list kvrow) (k : key) (v : list byte) : forall M' : kvmap,
  store_put_batch es M' !! k = Some v -> (k, v) ∈ es \/ M' !! k = Some v.
Proof.
  induction es as [|[k' v'] es IH]; intros M' Hk; [by right|].
  change (store_put_batch es (<[k' := v']> M') !! k = Some v) in Hk.
  apply IH in Hk as [Hk|Hk]; [by left; apply list_elem_of_further|].
  apply lookup_insert_Some in Hk as [[-> ->]|[_ Hk]]; [by left; left|by right].
Qed.

Lemma refreshed_meta_prefix (k : key) (v : list byte) :
  starts_with k (olap_chunk_meta_prefix (table_id schema) (table_epoch schema)) = true ->
  olap_refreshed schema rows M !! k = Some v ->
  exists i cr, chunk_list !! i = Some cr /\ (k, v) = chunk_meta_row i cr.
Proof.
  intros Hp [Hk|Hk]%put_batch_inv.
  - apply olap_entries_elem in Hk as [(i & cr & Hi & [He|(c & _ & He)])|He]; [by exists i, cr|..];
      apply starts_with_spec in Hp as [r ->].
    + discriminate.
    + by destruct (stats_not_olap _ _ _ He eq_refl).
  - rewrite rows_where_lookup in Hk. cbn [olap_prefixes existsb] in Hk. by rewrite Hp in Hk.
Qed.

Lemma refreshed_others (k : key) : existsb (starts_with k) (olap_prefixes schema) = false ->
  olap_refreshed schema rows M !! k = M !! k.
Proof.
  intros Hk. unfold olap_refreshed. rewrite put_batch_other; [by rewrite rows_where_lookup, Hk|].
  intros [[k' v] [-> He]]%list_elem_of_fmap. cbn [fst olap_prefixes existsb] in *.
  apply orb_false_iff in Hk as [Hm [Hc [Hs _]%orb_false_iff]%orb_false_iff].
  apply olap_entries_elem in He as [(i & cr & Hi & [He|(c & _ & He)])|He].
  - injection He as ->. apply not_true_iff_false in Hm as []. apply starts_with_spec.
    exists (to_be 8 (Z.of_nat i + 1)). unfold olap_chunk_meta_key, olap_chunk_meta_prefix. by rewrite !app_assoc.
  - injection He as ->. apply not_true_iff_false in Hc as []. apply starts_with_spec.
    eexists. unfold olap_chunk_column_key, olap_chunk_column_prefix. by rewrite <- !app_assoc.
  - apply not_true_iff_false in Hs as []. apply starts_with_spec.
    apply elem_of_cons in He as [He|He].
    + injection He as ->. eexists. unfold stats_key, stats_prefix. by rewrite <- !app_assoc.
    + apply list_elem_of_fmap in He as (z & He & _). injection He as ->. eexists.
      unfold stats_key, stats_prefix. by rewrite <- !app_assoc.
Qed.

Lemma refreshed_chunk_scan :
  let r := olap_chunk_meta_range (table_id schema) (table_epoch schema) in
  store_scan_range (olap_refreshed schema rows M) (rs_start r) (rs_end r) (rs_limit r) (rs_reverse r) =
  imap chunk_meta_row chunk_list.
Proof.
  cbn zeta. unfold store_scan_range. apply btree_iter_unique.
  - apply strictly_of_lookup. intros i j a b Hij. rewrite !list_lookup_imap.
    intros (cr & Hi & ->)%fmap_Some (cr' & Hj & ->)%fmap_Some.
    unfold row_lt, bytes_lt. cbn [chunk_meta_row fst]. unfold olap_chunk_meta_key.
    rewrite !bytes_cmp_app, to_be_cmp by (by eapply chunk_id_range). apply Z.compare_lt_iff. lia.
  - intros k v. rewrite rows_where_lookup.
    change (range_contains (rs_start ?r) (rs_end ?r) k) with (in_range r k).
    unfold olap_chunk_meta_range. rewrite in_prefix_range.
    split.
    + intros Hk. apply list_elem_of_lookup in Hk as [i Hk]. rewrite list_lookup_imap in Hk.
      apply fmap_Some in Hk as (cr & Hi & He). pose proof (refreshed_meta i cr Hi) as Hl.
      rewrite <- He in Hl. cbn [fst snd] in Hl. rewrite Hl.
      apply (f_equal fst) in He. cbn [fst] in He. rewrite He.
      assert (Hs : starts_with (chunk_meta_row i cr).1
        (olap_chunk_meta_prefix (table_id schema) (table_epoch schema)) = true); [|by rewrite Hs].
      apply starts_with_spec. exists (to_be 8 (Z.of_nat i + 1)). cbn [chunk_meta_row fst].
      unfold olap_chunk_meta_key, olap_chunk_meta_prefix. by rewrite <- !app_assoc.
    + destruct (starts_with k _) eqn:Hs; [|done]. intros Hk.
      destruct (refreshed_meta_prefix k v Hs Hk) as (i & cr & Hi & ->).
      apply list_elem_of_lookup. exists i. by rewrite list_lookup_imap, Hi.
Qed.
End Refreshed.

(** ** Loading chunks *)

Lemma wf_zone_of (column : ColumnSchema) (rows : list RowMap) :
  in_unsigned 32 (column_id column) -> (forall row, row ∈ rows -> wf_value (cell_of row column)) ->
  wf_zone_map (zone_of rows column).
Proof.
  intros Hid Hw. unfold zone_of.
  assert (Hz : wf_zone_map (empty_zone column)) by (split_and!; [exact Hid|split; cbn; lia|done|done]).
  revert Hz. generalize (empty_zone column). induction rows as [|row rows IH]; intros z Hz; [done|].
  cbn [map foldl]. apply IH; [set_solver|]. specialize (Hw row ltac:(set_solver)).
  destruct Hz as (Hi & Hn & Hmin & Hmax). unfold update_zone, wf_zone_map.
  destruct (is_null _); cbn [zone_column_id null_count zone_min zone_max]; split_and!; try done.
  - unfold in_unsigned, u64_max in *. lia.
  - intros v. destruct (none_or_cmp _ _ _); [by intros [= <-]|apply Hmin].
  - intros v. destruct (none_or_cmp _ _ _); [by intros [= <-]|apply Hmax].
Qed.

(** The rows a loader answers: those that match, up to the limit, at least one. *)
Definition matching (filters : list DfExpr) (rows : list RowMap) : list RowMap :=
  List.filter (fun row => row_matches_datafusion_filters row filters) rows.

Definition capped {A : Type} (limit : option nat) (l : list A) : list A :=
  match limit with Some n => take (Nat.max 1 n) l | None => l end.

(** There is room for another row. *)
Definition room {A : Type} (limit : option nat) (l : list A) : Prop :=
  match limit with Some n => (length l < Nat.max 1 n)%nat | None => True end.

Lemma capped_room {A : Type} (limit : option nat) (l : list A) : room limit l -> capped limit l = l.
Proof. destruct limit as [n|]; [|done]. cbn [room capped]. intros H. apply take_ge. lia. Qed.

Lemma limit_step {A : Type} (limit : option nat) (l : list A) (a : A) : room limit l ->
  if rows_full limit (l ++ [a]) then forall x, capped limit ((l ++ [a]) ++ x) = l ++ [a]
  else room limit (l ++ [a]).
Proof.
  destruct limit as [n|]; [|done]. cbn [room rows_full capped]. intros Hr.
  destruct (Nat.leb_spec n (length (l ++ [a]))) as [Hn|Hn]; [|lia]. intros x.
  rewrite length_app in Hn. cbn [length] in Hn. rewrite take_app_le by (rewrite length_app; cbn [length]; lia).
  apply take_ge. rewrite length_app. cbn [length]. lia.
Qed.

Lemma matching_app (filters : list DfExpr) (l1 l2 : list RowMap) :
  matching filters (l1 ++ l2) = matching filters l1 ++ matching filters l2.
Proof. apply List.filter_app. Qed.

Lemma matching_cons (filters : list DfExpr) (row : RowMap) (l : list RowMap) :
  matching filters (row :: l) =
  (if row_matches_datafusion_filters row filters then [row] else []) ++ matching filters l.
Proof. unfold matching. cbn [List.filter]. by destruct (row_matches_datafusion_filters row filters). Qed.

Lemma collect_matching_ok {A : Type} (filters : list DfExpr) (limit : option nat)
    (load : A -> result string RowMap) (f : A -> RowMap) (l : list A) : forall rows : list RowMap,
  (forall a, a ∈ l -> load a = Ok (f a)) -> room limit rows ->
  exists full, collect_matching filters limit load l rows =
      Ok (capped limit (rows ++ matching filters (map f l)), full) /\
    (full = false -> room limit (rows ++ matching filters (map f l))) /\
    (full = true -> forall x, capped limit ((rows ++ matching filters (map f l)) ++ x) =
                              capped limit (rows ++ matching filters (map f l))).
Proof.
  induction l as [|a l IH]; intros rows Hload Hroom; cbn [collect_matching map].
  - exists false. change (matching filters []) with (@nil RowMap).
    rewrite app_nil_r, capped_room by done. by repeat split.
  - rewrite (Hload a) by (left; done). rewrite bind_ok, matching_cons.
    assert (Hl : forall b, b ∈ l -> load b = Ok (f b)) by (intros; apply Hload; by right).
    destruct (row_matches_datafusion_filters (f a) filters) eqn:Hm; [|by apply IH].
    pose proof (limit_step limit rows (f a) Hroom) as Hstep. cbn zeta. rewrite app_assoc.
    destruct (rows_full limit (rows ++ [f a])); [|by apply IH].
    exists true. rewrite Hstep. repeat split; [done|]. intros _ x. by rewrite <- app_assoc, Hstep.
Qed.

(** A row's needed columns. *)
Definition project_row (schema : TableSchema) (needed : list nat) (row : RowMap) : RowMap :=
  foldl (fun out idx => match columns schema !! idx with
                        | Some column => <[col_name column := cell_of row column]> out
                        | None => out
                        end) ∅ needed.

Section LoadChunks.
Context {W T : Type} `{KvStoreLaws W T}.
Context (show_error : pg_error -> string) (store : W) (schema : TableSchema) (rows : list RowMap).
Context (filters : list DfExpr) (limit : option nat) (needed : list nat) (classes : string -> nat).
Context (Hsized : olap_sized schema rows).
Context (Hneeded : forall idx, idx ∈ needed -> (idx < length (columns schema))%nat).
Context (Hclasses : column_classes schema classes rows) (Hprunable : Forall (prunable classes) filters).

(** The store has the chunks' columns. *)
Context (Hcolumns : forall (i : nat) (cr : list RowMap) (c : ColumnSchema),
  chunk_list rows !! i = Some cr -> c ∈ columns schema ->
  store_rows (T := T) store !! (chunk_column_row schema i cr c).1 = Some (chunk_column_row schema i cr c).2).

Lemma chunk_rows_in (i : nat) (cr : list RowMap) (row : RowMap) :
  chunk_list rows !! i = Some cr -> row ∈ cr -> row ∈ rows.
Proof.
  unfold chunk_list, chunks. rewrite list_lookup_fmap. intros (j & _ & ->)%fmap_Some Hr.
  apply list_elem_of_lookup in Hr as [x Hx]. apply lookup_take_Some in Hx as [Hx _].
  rewrite lookup_drop in Hx. apply list_elem_of_lookup. by eexists.
Qed.

Lemma chunk_length (i : nat) (cr : list RowMap) : chunk_list rows !! i = Some cr -> len cr <= 1024.
Proof.
  unfold chunk_list, chunks. rewrite list_lookup_fmap. intros (j & _ & ->)%fmap_Some.
  unfold len. rewrite length_take. unfold OLAP_CHUNK_ROW_TARGET. lia.
Qed.

Lemma chunk_meta_reads (i : nat) (cr : list RowMap) : chunk_list rows !! i = Some cr ->
  decode_olap_chunk_meta (chunk_meta_row schema i cr).2 = Ok (chunk_meta_of schema i cr).
Proof.
  intros Hi. apply chunk_meta_reads_back.
  - by eapply chunk_id_range.
  - pose proof (chunk_length i cr Hi). cbn [chunk_meta_of row_count]. unfold in_unsigned, len in *. lia.
  - cbn [chunk_meta_of chunk_zones]. rewrite zone_maps_columns. split.
    + unfold len. rewrite length_map. apply (sized_columns _ _ Hsized).
    + apply Forall_map, Forall_forall. intros c Hc. apply wf_zone_of.
      * by eapply Forall_forall in Hc; [|apply (sized_id _ _ Hsized)].
      * intros row Hrow. apply (sized_values _ _ Hsized); [by eapply chunk_rows_in|done].
Qed.

Lemma load_chunk_column_ok (i : nat) (cr : list RowMap) (idx : nat) (c : ColumnSchema) :
  chunk_list rows !! i = Some cr -> columns schema !! idx = Some c ->
  load_chunk_column (T := T) show_error store schema (Z.of_nat i + 1) idx =
  Ok (col_name c, map (fun row => cell_of row c) cr).
Proof.
  intros Hi Hc. unfold load_chunk_column, column_at. rewrite Hc, bind_ok.
  assert (Hin : c ∈ columns schema) by (apply list_elem_of_lookup; by eexists).
  rewrite law_ks_get. pose proof (Hcolumns i cr c Hi Hin) as Hl. cbn [chunk_column_row fst snd] in Hl.
  rewrite bind_ok, Hl. cbn beta iota.
  rewrite column_chunk_reads_back; [done|..].
  - unfold len. rewrite length_map. pose proof (chunk_length i cr Hi). unfold len in *. lia.
  - apply Forall_map, Forall_forall. intros row Hrow.
    apply (sized_values _ _ Hsized); [by eapply chunk_rows_in|done].
Qed.

(** The columns of a chunk as the loader names them. *)
Definition chunk_column (cr : list RowMap) (idx : nat) : string * list ColumnValue :=
  match columns schema !! idx with
  | Some c => (col_name c, map (fun row => cell_of row c) cr)
  | None => (""%string, [])
  end.

Lemma chunk_row_project (cr : list RowMap) (x : nat) (row : RowMap) : cr !! x = Some row ->
  chunk_row (map (chunk_column cr) needed) x = project_row schema needed row.
Proof.
  intros Hx. unfold chunk_row, project_row. revert Hneeded. generalize (∅ : RowMap).
  induction needed as [|idx l IH]; intros out Hn; [done|]. cbn [map foldl].
  rewrite <- IH by (intros; apply Hn; by right). f_equal. unfold chunk_column.
  destruct (lookup_lt_is_Some_2 (columns schema) idx) as [c ->]; [by apply Hn; left|].
  cbn [fst snd]. by rewrite list_lookup_fmap, Hx.
Qed.

Lemma chunk_rows_project (cr : list RowMap) :
  map (chunk_row (map (chunk_column cr) needed)) (seq 0 (length cr)) = map (project_row schema needed) cr.
Proof.
  apply list_eq. intros x. rewrite !list_lookup_fmap.
  destruct (cr !! x) as [row|] eqn:Hx.
  - rewrite lookup_seq_lt by by eapply lookup_lt_Some. cbn [fmap option_fmap option_map Nat.add].
    by rewrite (chunk_row_project cr x row Hx).
  - rewrite lookup_seq_ge by by apply lookup_ge_None. done.
Qed.

Lemma project_shows (row : RowMap) : shows_columns schema row (project_row schema needed row).
Proof.
  unfold project_row. assert (Hs : shows_columns schema row ∅) by (intros n v Hv; by rewrite lookup_empty in Hv).
  revert Hs. generalize (∅ : RowMap). clear Hneeded. induction needed as [|idx l IH]; intros out Hs; [done|].
  cbn [foldl]. apply IH. destruct (columns schema !! idx) as [c|] eqn:Hc; [|done].
  intros name v [[<- <-]|[Hne Hv]]%lookup_insert_Some; [|by apply Hs].
  destruct (find_column schema (col_name c)) as [c'|] eqn:Hf.
  - exists c'. split; [done|]. apply find_column_name in Hf. unfold cell_of. by rewrite Hf.
  - exfalso. unfold find_column in Hf. eapply find_none in Hf; [|by apply list_elem_of_In, list_elem_of_lookup; eexists].
    by apply bool_decide_eq_false in Hf.
Qed.

Lemma pruned_chunk_matches_nothing (i : nat) (cr : list RowMap) : chunk_list rows !! i = Some cr ->
  chunk_may_match_filters schema (chunk_meta_of schema i cr) filters = false ->
  matching filters (map (project_row schema needed) cr) = [].
Proof.
  intros Hi Hf. destruct (matching filters _) as [|row l] eqn:Hm; [done|].
  assert (Hrow : row ∈ matching filters (map (project_row schema needed) cr)) by (rewrite Hm; by left).
  unfold matching in Hrow. rewrite list_elem_of_In, filter_In, <- list_elem_of_In in Hrow.
  destruct Hrow as [(stored & -> & Hs)%list_elem_of_fmap Hmatch].
  rewrite (filters_kept schema classes cr (chunk_meta_of schema i cr) stored
    (project_row schema needed stored)) in Hf; try done.
  - apply (sized_ids _ _ Hsized).
  - intros c Hc. apply Forall_forall. intros r Hr. specialize (Hclasses c Hc).
    rewrite Forall_forall in Hclasses. apply Hclasses. by eapply chunk_rows_in.
  - apply project_shows.
Qed.

Lemma load_chunks_ok (l : list (list RowMap)) : forall (n : nat) (acc : list RowMap),
  (forall i cr, l !! i = Some cr -> chunk_list rows !! (n + i)%nat = Some cr) -> room limit acc ->
  load_chunks (T := T) show_error store schema filters limit (imap (fun i => chunk_meta_row schema (n + i)) l)
    needed acc =
  Ok (capped limit (acc ++ matching filters (map (project_row schema needed) (concat l)))).
Proof.
  induction l as [|cr l IH]; intros n acc Hl Hroom.
  - cbn [imap load_chunks concat map]. change (matching filters []) with (@nil RowMap).
    by rewrite app_nil_r, capped_room.
  - assert (Hn : chunk_list rows !! n = Some cr) by (rewrite <- (Nat.add_0_r n); by apply Hl).
    rewrite imap_cons, Nat.add_0_r. cbn [concat]. rewrite map_app, matching_app.
    rewrite (imap_ext _ (fun i => chunk_meta_row schema (S n + i))) by (intros; cbn; by rewrite Nat.add_succ_r).
    assert (Hl' : forall i c, l !! i = Some c -> chunk_list rows !! (S n + i)%nat = Some c).
    { intros i c Hi. specialize (Hl (S i) c Hi). by rewrite Nat.add_succ_r in Hl. }
    cbn [load_chunks chunk_meta_row]. change (encode_olap_chunk_meta _) with (chunk_meta_row schema n cr).2.
    rewrite (chunk_meta_reads n cr Hn). cbn [map_err]. rewrite bind_ok.
    destruct (chunk_may_match_filters schema (chunk_meta_of schema n cr) filters) eqn:Hf; cbn [negb].
    + rewrite (map_m_ok _ (chunk_column cr)).
      * rewrite bind_ok. cbn [chunk_meta_of row_count]. unfold len. rewrite Nat2Z.id.
        destruct (collect_matching_ok filters limit
          (fun row_idx => Ok (chunk_row (map (chunk_column cr) needed) row_idx))
          (chunk_row (map (chunk_column cr) needed)) (seq 0 (length cr)) acc) as (full & -> & Hr & Hd);
          [done|done|].
        rewrite chunk_rows_project in *. rewrite bind_ok. rewrite app_assoc. destruct full.
        -- by rewrite Hd.
        -- rewrite (capped_room _ _ (Hr eq_refl)). apply IH; [done|by apply Hr].
      * intros idx Hidx. destruct (lookup_lt_is_Some_2 (columns schema) idx) as [c Hc]; [by apply Hneeded|].
        unfold chunk_column. rewrite Hc. by apply load_chunk_column_ok.
    + rewrite (pruned_chunk_matches_nothing n cr Hn Hf). by apply IH.
Qed.
End LoadChunks.

Lemma chunks_concat {A : Type} (n : nat) (l : list A) : (0 < n)%nat -> concat (chunks n l) = l.
Proof.
  intros Hn. unfold chunks.
  assert (Hk : forall k, concat (map (fun i => take n (drop (i * n) l)) (seq 0 k)) = take (k * n) l).
  { induction k as [|k IH]; [done|]. rewrite seq_S, map_app, concat_app, IH. cbn [map concat Nat.add].
    rewrite app_nil_r, take_take_drop. f_equal. lia. }
  rewrite Hk. apply take_ge. unfold div_ceil. pose proof (Nat.mul_succ_div_gt (length l + (n - 1)) n). nia.
Qed.

(** ** Properties *)

(** C8. What a refresh writes is what a filtered scan answers.  On a store refreshed from
    [rows] (at least one) without row records, the scan reads the chunk descriptors, skips the
    chunks whose zone maps exclude the filters, reads the others' column chunks and answers
    exactly the rows that match, in order, up to the limit (one row at least), with the needed
    columns.  It holds when the values of a column are of one class (integers of any width,
    texts, floats that are no NaN, ..) or NULL, columns are compared with values of their class,
    and no BETWEEN that is used for pruning is negated. *)
Theorem olap_scan_exact `{KvStoreLaws W T} (show_error : pg_error -> string) (store : W)
    (schema : TableSchema) (rows : list RowMap) (M : kvmap) (database_name schema_name : string)
    (filters : list DfExpr) (limit : option nat) (needed : list nat) (classes : string -> nat) :
  store_rows (T := T) store = olap_refreshed schema rows M ->
  (forall k v, M !! k = Some v -> starts_with k (row_prefix (table_id schema) (table_epoch schema)) = false) ->
  rows <> [] -> olap_sized schema rows ->
  Forall (fun idx => (idx < length (columns schema))%nat) needed ->
  column_classes schema classes rows -> Forall (prunable classes) filters ->
  load_rows_with_columns (T := T) show_error store schema filters limit database_name schema_name needed =
    Ok (capped limit (matching filters (map (project_row schema needed) rows))).
Proof.
  intros Hstore Hrows Hne Hsized Hneeded Hclasses Hprunable. unfold load_rows_with_columns, ks_scan.
  rewrite !law_ks_scan_range by done. rewrite bind_ok.
  assert (He : store_scan_range (store_rows (T := T) store)
    (rs_start (row_range (table_id schema) (table_epoch schema) None))
    (rs_end (row_range (table_id schema) (table_epoch schema) None)) None false = []).
  { rewrite Hstore. unfold store_scan_range. apply btree_iter_unique; [done|]. intros k v.
    rewrite rows_where_lookup. split; [by intros ?%elem_of_nil|].
    change (range_contains (rs_start ?r) (rs_end ?r) k) with (in_range r k).
    unfold row_range. rewrite in_prefix_range. destruct (starts_with k _) eqn:Hs; [|done].
    rewrite refreshed_others; [intros Hk; by rewrite (Hrows k v Hk) in Hs|].
    apply starts_with_spec in Hs as [r ->]. done. }
  cbn [row_range prefix_range rs_limit rs_reverse] in *. rewrite He, bind_ok, Hstore.
  rewrite (refreshed_chunk_scan schema rows Hsized M).
  pose proof (load_chunks_ok (T := T) show_error store schema rows filters limit needed classes Hsized
    (proj1 (Forall_forall _ _) Hneeded) Hclasses Hprunable) as Hload.
  destruct (imap (chunk_meta_row schema) (chunk_list rows)) as [|m ms] eqn:Hm.
  - exfalso. apply Hne. rewrite <- (chunks_concat OLAP_CHUNK_ROW_TARGET rows) by (vm_compute; lia).
    fold (chunk_list rows). by destruct (chunk_list rows).
  - rewrite <- Hm. unfold load_rows_from_chunks.
    rewrite (Hload) with (n := 0%nat); [|by intros; rewrite Hstore; apply refreshed_column|done|by destruct limit; cbn; lia].
    unfold chunk_list. by rewrite (chunks_concat OLAP_CHUNK_ROW_TARGET rows) by (vm_compute; lia).
Qed.

Definition olap_schema : TableSchema :=
  sample_schema [sample_column 1 "a" DT.Int32; sample_column 2 "b" DT.Text].

Definition olap_row (a : Z) (b : string) : RowMap := <["a" := Int32 a]> (<["b" := Text b]> ∅).

(** Two rows, [a > 1] asked, one column needed. *)
Definition olap_sample : list RowMap := [olap_row 1 "x"; olap_row 2 "y"].
Definition olap_filter : DfExpr := Df.BinaryExpr (Df.Column "a") Df.OGt (Df.Literal (Df.SInt32 (Some 1))).
Definition olap_classes (name : string) : nat := if bool_decide (name = "a"%string) then 0%nat else 4%nat.

Lemma olap_scan_exact_witness :
  load_rows_with_columns (T := MemoryTransaction) err_message (olap_refreshed olap_schema olap_sample ∅)
    olap_schema [olap_filter] None "d" "s" [0%nat] = Ok [<["a" := Int32 2]> ∅].
Proof.
  refine (eq_trans (olap_scan_exact err_message _ olap_schema olap_sample ∅ "d" "s" [olap_filter] None [0%nat]
    olap_classes _ _ _ _ _ _ _) _).
  - reflexivity.
  - intros k v Hk. by rewrite lookup_empty in Hk.
  - discriminate.
  - split.
    + by apply NoDup_cons; (split; [set_solver|]); apply NoDup_singleton.
    + repeat constructor; vm_compute; congruence.
    + reflexivity.
    + reflexivity.
    + intros row column [->|[->|[]%elem_of_nil]%elem_of_cons]%elem_of_cons
        [->|[->|[]%elem_of_nil]%elem_of_cons]%elem_of_cons; cbn; split; vm_compute; congruence.
  - repeat constructor.
  - intros column [->|[->|[]%elem_of_nil]%elem_of_cons]%elem_of_cons; repeat constructor; right; reflexivity.
  - apply Forall_singleton. split; intros name value Hp; cbn in Hp; [|done].
    injection Hp as <- <-. by right.
  - vm_compute. reflexivity.
Defined.

(** What a refresh wrote reads back: chunk descriptors, column chunks and statistics within the
    widths of their fields. *)
Theorem olap_records_roundtrip (meta : OlapChunkMeta) (values : list ColumnValue) (stats : TableStats) :
  in_unsigned 64 (chunk_id meta) -> in_unsigned 32 (row_count meta) -> wf_zones (chunk_zones meta) ->
  len values < 2 ^ 32 -> Forall wf_value values ->
  in_unsigned 64 (stats_row_count stats) -> wf_zones (stats_zones stats) ->
  decode_olap_chunk_meta (encode_olap_chunk_meta meta) = Ok meta /\
  decode_olap_column_chunk (encode_olap_column_chunk values) = Ok values /\
  decode_table_stats (encode_table_stats stats) = Ok stats.
Proof.
  intros ? ? ? ? ? ? ?. split_and!; [by apply chunk_meta_reads_back|by apply column_chunk_reads_back|].
  by apply table_stats_read_back.
Qed.

Lemma olap_records_roundtrip_witness :
  let zone := {| zone_column_id := 1; null_count := 1; zone_min := Some (Int32 1); zone_max := Some (Int32 9) |} in
  let meta := {| chunk_id := 1; row_count := 3; chunk_zones := [zone] |} in
  let stats := {| stats_row_count := 3; stats_zones := [zone] |} in
  decode_olap_chunk_meta (encode_olap_chunk_meta meta) = Ok meta /\
  decode_olap_column_chunk (encode_olap_column_chunk [Null; Int32 9]) = Ok [Null; Int32 9] /\
  decode_table_stats (encode_table_stats stats) = Ok stats.
Proof.
  cbn zeta. apply (olap_records_roundtrip _ [Null; Int32 9]); repeat constructor; cbn; try done;
    intros v [= <-]; vm_compute; split; congruence.
Defined.

(** A negated BETWEEN prunes by its upper bound as a plain one does: rows above the range match
    and their chunk is skipped. *)
Definition not_between : DfExpr :=
  Df.Between (Df.Column "a") true (Df.Literal (Df.SInt32 (Some 5))) (Df.Literal (Df.SInt32 (Some 10))).
Definition high_rows : list RowMap := [olap_row 20 "x"; olap_row 30 "y"].

Example not_between_loses_rows :
  map (fun row => row_matches_datafusion_filters row [not_between]) high_rows = [true; true] /\
  load_rows_with_columns (T := MemoryTransaction) err_message (olap_refreshed olap_schema high_rows ∅)
    olap_schema [not_between] None "d" "s" [0%nat] = Ok [].
Proof. split; vm_compute; reflexivity. Qed.

(** A NaN that comes first stays both bounds of its zone, so every comparison prunes the chunk. *)
Definition float_schema : TableSchema := sample_schema [sample_column 1 "f" DT.Float64].
Definition nan_rows : list RowMap := [<["f" := Float64 9221120237041090560]> ∅; <["f" := Float64 0]> ∅].
Definition float_filter : DfExpr := Df.BinaryExpr (Df.Column "f") Df.OEq (Df.Literal (Df.SFloat64 (Some 0))).

Example nan_zone_loses_rows :
  map (fun row => row_matches_datafusion_filters row [float_filter]) nan_rows = [false; true] /\
  load_rows_with_columns (T := MemoryTransaction) err_message (olap_refreshed float_schema nan_rows ∅)
    float_schema [float_filter] None "d" "s" [0%nat] = Ok [].
Proof. split; vm_compute; reflexivity. Qed.

(** The limit is tested after a row was added: a limit of 0 answers one row. *)
Example limit_zero_answers_a_row :
  load_rows_with_columns (T := MemoryTransaction) err_message (olap_refreshed olap_schema olap_sample ∅)
    olap_schema [] (Some 0%nat) "d" "s" [0%nat] = Ok [<["a" := Int32 1]> ∅].
Proof. vm_compute. reflexivity. Qed.
