(* ===== verification/TopN.v ===== *)
(** * Top-n scans

    [SELECT .. ORDER BY column LIMIT n] over the store:
    src/src/datafusion_bridge/table_provider_topn.rs and the [execute_*topn*]
    methods of src/src/datafusion_bridge/table_provider_scans.rs, for the plans of
    [Pushdown].  The scan keeps a bounded heap of candidates, sorts it, drops the
    skipped rows and reads the output columns; a numeric path decodes slots of the
    record only; a query ordered by the primary key reads the range in key order and
    stops early.

    [fetch.saturating_add(skip)] is a plain sum here: both come from an [i64] of the
    query.  The text of an error is a parameter.  [sort_by] is a stable sort; where
    the order is not total the library may also panic, which is left out.  The
    conversion of rows to Arrow arrays is not modelled: a result is the list of the
    values the array builders are given.  Profiling is left out. *)

From stdpp Require Import sorting.
From S2P Require Import Prelude BTree Float Types TupleCodec Values KeyCodec RowCodec KvStore Aggregate.
From S2P Require Import Pushdown Heap.

(** ** The order of candidates *)

Definition nulls_order (left_null right_null nulls_first : bool) : option comparison :=
  match left_null, right_null with
  | true, true => Some Eq
  | true, false => Some (if nulls_first then Lt else Gt)
  | false, true => Some (if nulls_first then Gt else Lt)
  | false, false => None
  end.

Definition compare_topn_values (left_order left_pk right_order right_pk : ColumnValue)
    (descending nulls_first : bool) : comparison :=
  let value_order :=
    match nulls_order (is_null left_order) (is_null right_order) nulls_first with
    | Some c => c
    | None =>
        let order := default Eq (cv_partial_cmp left_order right_order) in
        if descending then CompOpp order else order
    end in
  match value_order with
  | Eq => default Eq (cv_partial_cmp left_pk right_pk)
  | c => c
  end.

Record TopNCandidate : Type := {
  cand_values : list ColumnValue;
  order_value : ColumnValue;
  pk_value : ColumnValue;
}.

Definition compare_topn_candidates (descending nulls_first : bool) (l r : TopNCandidate) : comparison :=
  compare_topn_values (order_value l) (pk_value l) (order_value r) (pk_value r) descending nulls_first.

Definition push_topn_candidate (candidates : list TopNCandidate) (candidate : TopNCandidate)
    (descending nulls_first : bool) (window : nat) : option (list TopNCandidate) :=
  push_candidate (compare_topn_candidates descending nulls_first) window candidates candidate.

(** ** Filters over the scanned values *)

Definition scan_value (values : list ColumnValue) (positions : list (option nat)) (column_idx : nat)
    : ColumnValue :=
  default Null (position ← mjoin (positions !! column_idx); values !! position).

(** The same comparison as [compare_values] of mem_store.rs. *)
Definition compare_kv_values (lhs : ColumnValue) (op : KvCompareOp) (rhs : ColumnValue) : bool :=
  if is_null lhs || is_null rhs then false
  else match op with
  | OpEq => cv_eqb lhs rhs
  | OpNotEq => negb (cv_eqb lhs rhs)
  | OpGt => is_gt (cv_partial_cmp lhs rhs)
  | OpGtEq => is_ge (cv_partial_cmp lhs rhs)
  | OpLt => is_lt (cv_partial_cmp lhs rhs)
  | OpLtEq => is_le (cv_partial_cmp lhs rhs)
  end.

Fixpoint kv_predicate_matches_values (values : list ColumnValue) (positions : list (option nat))
    (predicate : KvPredicate) : bool :=
  match predicate with
  | ColumnCompare column_idx op value =>
      compare_kv_values (scan_value values positions column_idx) op value
  | And predicates => forallb (kv_predicate_matches_values values positions) predicates
  | Or predicates => existsb (kv_predicate_matches_values values positions) predicates
  | Not predicate => negb (kv_predicate_matches_values values positions predicate)
  | IsNull column_idx => is_null (scan_value values positions column_idx)
  | IsNotNull column_idx => negb (is_null (scan_value values positions column_idx))
  | Between column_idx low high negated =>
      let value := scan_value values positions column_idx in
      let inside := compare_kv_values value OpGtEq low && compare_kv_values value OpLtEq high in
      if negated then negb inside else inside
  end.

Definition kv_filters_match_values (values : list ColumnValue) (positions : list (option nat))
    (filters : list KvPredicate) : bool :=
  forallb (kv_predicate_matches_values values positions) filters.

Definition projected_values_to_row (s : TableSchema) (column_indices : list nat)
    (values : list ColumnValue) : RowMap :=
  foldl (fun (row : RowMap) (iv : nat * ColumnValue) =>
    match columns s !! iv.1 with
    | Some column => <[col_name column := iv.2]> row
    | None => row
    end) ∅ (zip column_indices values).

(** The values [projected_batches_from_rows] pushes, row by row. *)
Definition projected_rows (s : TableSchema) (indices : list nat) (rows : list RowMap)
    : list (list ColumnValue) :=
  map (fun row => map (row_value s row) indices) rows.

(** ** The numeric path's plan *)

Inductive FastPredicate : Type :=
  | FTrue
  | FCompare (slot : nat) (op : KvCompareOp) (value : FastNumericValue)
  | FAnd (predicates : list FastPredicate)
  | FOr (predicates : list FastPredicate)
  | FNot (predicate : FastPredicate)
  | FIsNull (slot : nat)
  | FIsNotNull (slot : nat)
  | FBetween (slot : nat) (low high : FastNumericValue) (negated : bool).

Record FastTopNScanPlan : Type := {
  ft_projector : FastNumericProjector;
  ft_filter : FastPredicate;
  ft_filter_slots : list nat;
  candidate_slots : list nat;
  order_slot : nat;
  pk_slot : option nat;
}.

Definition column_is_fast_numeric (s : TableSchema) (column_idx : nat) : bool :=
  match columns s !! column_idx with
  | Some column => fast_numeric_data_type (data_type column)
  | None => false
  end.

Section NumericPlan.
(** [str::parse::<f64>] of the standard library, on NUMERIC literals. *)
Context (parse_f64 : string -> option Z).

Definition topn_value_to_fast_numeric (value : ColumnValue) : option FastNumericValue :=
  match value with
  | Numeric v => F64 <$> parse_f64 v
  | _ => column_value_to_fast_numeric value
  end.

Fixpoint collect_fast_predicate_columns (s : TableSchema) (predicate : KvPredicate)
    (cols : gset nat) : option (gset nat) :=
  let all := fix all (predicates : list KvPredicate) (cols : gset nat) : option (gset nat) :=
    match predicates with
    | [] => Some cols
    | p :: r => cols ← collect_fast_predicate_columns s p cols; all r cols
    end in
  match predicate with
  | ColumnCompare column_idx _ value =>
      if column_is_fast_numeric s column_idx then
        _ ← topn_value_to_fast_numeric value; Some ({[column_idx]} ∪ cols)
      else None
  | And predicates | Or predicates => all predicates cols
  | Not predicate => collect_fast_predicate_columns s predicate cols
  | IsNull column_idx | IsNotNull column_idx =>
      if column_is_fast_numeric s column_idx then Some ({[column_idx]} ∪ cols) else None
  | Between column_idx low high _ =>
      if column_is_fast_numeric s column_idx then
        _ ← topn_value_to_fast_numeric low; _ ← topn_value_to_fast_numeric high;
        Some ({[column_idx]} ∪ cols)
      else None
  end.

Fixpoint compile_fast_predicate (predicate : KvPredicate) (slot_by_column_idx : list (option nat))
    : option FastPredicate :=
  let all := fix all (predicates : list KvPredicate) : option (list FastPredicate) :=
    match predicates with
    | [] => Some []
    | p :: r => f ← compile_fast_predicate p slot_by_column_idx; fs ← all r; Some (f :: fs)
    end in
  match predicate with
  | ColumnCompare column_idx op value =>
      slot ← slot_of_column slot_by_column_idx column_idx;
      value ← topn_value_to_fast_numeric value; Some (FCompare slot op value)
  | And predicates => FAnd <$> all predicates
  | Or predicates => FOr <$> all predicates
  | Not predicate => FNot <$> compile_fast_predicate predicate slot_by_column_idx
  | IsNull column_idx => FIsNull <$> slot_of_column slot_by_column_idx column_idx
  | IsNotNull column_idx => FIsNotNull <$> slot_of_column slot_by_column_idx column_idx
  | Between column_idx low high negated =>
      slot ← slot_of_column slot_by_column_idx column_idx;
      low ← topn_value_to_fast_numeric low; high ← topn_value_to_fast_numeric high;
      Some (FBetween slot low high negated)
  end.

Fixpoint collect_fast_predicate_slots (predicate : FastPredicate) (slots : gset nat) : gset nat :=
  match predicate with
  | FTrue => slots
  | FCompare slot _ _ | FIsNull slot | FIsNotNull slot | FBetween slot _ _ _ => {[slot]} ∪ slots
  | FAnd predicates | FOr predicates =>
      foldl (fun slots p => collect_fast_predicate_slots p slots) slots predicates
  | FNot predicate => collect_fast_predicate_slots predicate slots
  end.

Definition compile_fast_topn_scan_plan (plan : KvTopNPlan) : option FastTopNScanPlan :=
  let s := tn_schema plan in
  if negb (column_is_fast_numeric s (order_idx plan)) then None
  else if negb (match primary_key_idx plan with Some i => column_is_fast_numeric s i | None => true end)
  then None
  else
    let required : gset nat :=
      {[order_idx plan]} ∪ match primary_key_idx plan with Some i => {[i]} | None => ∅ end in
    required ← fold_m (fun cols filter => collect_fast_predicate_columns s filter cols)
                 required (kv_filters plan);
    let required_indices := sorted_slots required in
    let slot_by_column_idx := build_column_slots (length (columns s)) required_indices in
    predicates ← map_m (fun p => compile_fast_predicate p slot_by_column_idx) (kv_filters plan);
    let filter := match predicates with [] => FTrue | _ => FAnd predicates end in
    order_slot ← slot_of_column slot_by_column_idx (order_idx plan);
    let pk_slot := i ← primary_key_idx plan; slot_of_column slot_by_column_idx i in
    let candidates : gset nat :=
      {[order_slot]} ∪ match pk_slot with Some slot => {[slot]} | None => ∅ end in
    Some {| ft_projector := new_fast_numeric_projector s required_indices; ft_filter := filter;
            ft_filter_slots := sorted_slots (collect_fast_predicate_slots filter ∅);
            candidate_slots := sorted_slots candidates;
            order_slot := order_slot; pk_slot := pk_slot |}.
End NumericPlan.

(** ** The numeric path's filter and order *)

Definition compare_fast_topn (lhs : FastNumericValue) (op : KvCompareOp) (rhs : FastNumericValue)
    : bool :=
  if is_fnull lhs || is_fnull rhs then false else ordering_satisfies op (fast_numeric_cmp lhs rhs).

Fixpoint fast_predicate_matches (predicate : FastPredicate) (values : list FastNumericValue) : bool :=
  match predicate with
  | FTrue => true
  | FCompare slot op value =>
      match values !! slot with Some l => compare_fast_topn l op value | None => false end
  | FAnd predicates => forallb (fun p => fast_predicate_matches p values) predicates
  | FOr predicates => existsb (fun p => fast_predicate_matches p values) predicates
  | FNot predicate => negb (fast_predicate_matches predicate values)
  | FIsNull slot => match values !! slot with Some v => is_fnull v | None => true end
  | FIsNotNull slot => match values !! slot with Some v => negb (is_fnull v) | None => false end
  | FBetween slot low high negated =>
      let inside :=
        match values !! slot with
        | Some v => compare_fast_topn v OpGtEq low && compare_fast_topn v OpLtEq high
        | None => false
        end in
      if negated then negb inside else inside
  end.

Definition compare_fast_topn_values (left_order left_pk right_order right_pk : FastNumericValue)
    (descending nulls_first : bool) : comparison :=
  let value_order :=
    match nulls_order (is_fnull left_order) (is_fnull right_order) nulls_first with
    | Some c => c
    | None =>
        let order := default Eq (fast_numeric_cmp left_order right_order) in
        if descending then CompOpp order else order
    end in
  match value_order with
  | Eq => default Eq (fast_numeric_cmp left_pk right_pk)
  | c => c
  end.

Record FastTopNCandidate : Type := {
  raw_value : list byte;
  f_order_value : FastNumericValue;
  f_pk_value : FastNumericValue;
}.

Definition compare_fast_topn_candidates (descending nulls_first : bool) (l r : FastTopNCandidate)
    : comparison :=
  compare_fast_topn_values (f_order_value l) (f_pk_value l) (f_order_value r) (f_pk_value r)
    descending nulls_first.

Definition push_fast_topn_candidate (candidates : list FastTopNCandidate)
    (candidate : FastTopNCandidate) (descending nulls_first : bool) (window : nat)
    : option (list FastTopNCandidate) :=
  push_candidate (compare_fast_topn_candidates descending nulls_first) window candidates candidate.

(** ** The scans *)

Section Scans.
Context (show_error : pg_error -> string) (parse_f64 : string -> option Z).

Definition or_panic {A} (o : option A) : result string A :=
  match o with Some a => Ok a | None => Panic end.

(** The rows left of the sorted candidates. *)
Definition window_of {A} (plan : KvTopNPlan) (sorted : list A) : list A :=
  take (tn_fetch plan) (drop (tn_skip plan) sorted).

Definition topn_range (plan : KvTopNPlan) : RangeScan :=
  row_range (table_id (tn_schema plan)) (table_epoch (tn_schema plan)) None.

Definition topn_candidate (plan : KvTopNPlan) (values : list ColumnValue) : TopNCandidate :=
  {| cand_values := if refetch_output plan then [] else values;
     order_value := scan_value values (scan_positions plan) (order_idx plan);
     pk_value :=
       match primary_key_idx plan with
       | Some idx => scan_value values (scan_positions plan) idx
       | None => Null
       end |}.

(** The visitor of [execute_topn_scan]; its state is the reused vector of values
    and the candidates. *)
Definition topn_visit (plan : KvTopNPlan) (st : list ColumnValue * list TopNCandidate)
    (k : key) (v : option (list byte)) : result string (bool * (list ColumnValue * list TopNCandidate)) :=
  value ← ok_or "top-n visitor missing row value"%string v;
  values ← map_err show_error (decode_row_record_projected_values_with
             (new_row_value_projector (tn_schema plan) (scan_indices plan)) value st.1);
  if kv_filters_match_values values (scan_positions plan) (kv_filters plan) then
    candidates ← or_panic (push_topn_candidate st.2 (topn_candidate plan values) (descending plan)
                   (tn_nulls_first plan) (tn_fetch plan + tn_skip plan));
    Ok (true, (values, candidates))
  else Ok (true, (values, st.2)).

(** The key a candidate's row is fetched again by. *)
Definition refetch_key (plan : KvTopNPlan) (candidate : TopNCandidate) : result string key :=
  if is_null (pk_value candidate) then Err "KvTopN missing primary key column"%string
  else Ok (row_key (table_id (tn_schema plan)) (table_epoch (tn_schema plan)) (pk_value candidate)).

Definition refetch_row (plan : KvTopNPlan) (value : option (list byte)) : result string RowMap :=
  value ← ok_or "KvTopN refetch missing row value"%string value;
  map_err show_error (decode_row_record_projected (tn_schema plan) value (tn_output_indices plan)).

Definition execute_topn_general_scan (plan : KvTopNPlan) (m : kvmap)
    : result string (list (list ColumnValue)) :=
  let range := topn_range plan in
  '(_, candidates) ← store_visit_range m (rs_start range) (rs_end range) (rs_reverse range) KeyValue
                       (topn_visit plan) ([], []);
  let candidates := window_of plan
    (sort_by (compare_topn_candidates (descending plan) (tn_nulls_first plan)) candidates) in
  output_rows ←
    (if refetch_output plan then
       keys ← map_m (refetch_key plan) candidates;
       map_m (refetch_row plan) (store_multi_get m keys)
     else Ok (map (fun c => projected_values_to_row (tn_schema plan) (scan_indices plan) (cand_values c))
                candidates));
  Ok (projected_rows (tn_schema plan) (tn_output_indices plan) output_rows).

(** The visitor of [execute_topn_fast_scan]. *)
Definition topn_fast_visit (plan : KvTopNPlan) (fast_plan : FastTopNScanPlan)
    (st : list FastNumericValue * list FastTopNCandidate) (k : key) (v : option (list byte))
    : result string (bool * (list FastNumericValue * list FastTopNCandidate)) :=
  value ← ok_or "top-n fast visitor missing row value"%string v;
  values ← map_err show_error (decode_row_record_fast_numeric_slots_with (ft_projector fast_plan)
             value st.1 (ft_filter_slots fast_plan));
  if fast_predicate_matches (ft_filter fast_plan) values then
    values ← map_err show_error (decode_row_record_fast_numeric_slots_with (ft_projector fast_plan)
               value values (candidate_slots fast_plan));
    let candidate := {|
      raw_value := value;
      f_order_value := default FNull (values !! order_slot fast_plan);
      f_pk_value := default FNull (slot ← pk_slot fast_plan; values !! slot) |} in
    candidates ← or_panic (push_fast_topn_candidate st.2 candidate (descending plan)
                   (tn_nulls_first plan) (tn_fetch plan + tn_skip plan));
    Ok (true, (values, candidates))
  else Ok (true, (values, st.2)).

Definition execute_topn_fast_scan (plan : KvTopNPlan) (fast_plan : FastTopNScanPlan) (m : kvmap)
    : result string (list (list ColumnValue)) :=
  let range := topn_range plan in
  '(_, candidates) ← store_visit_range m (rs_start range) (rs_end range) (rs_reverse range) KeyValue
                       (topn_fast_visit plan fast_plan)
                       (replicate (np_output_len (ft_projector fast_plan)) FNull, []);
  let candidates := window_of plan
    (sort_by (compare_fast_topn_candidates (descending plan) (tn_nulls_first plan)) candidates) in
  output_rows ← map_m (fun c => map_err show_error
                   (decode_row_record_projected (tn_schema plan) (raw_value c) (tn_output_indices plan)))
                  candidates;
  Ok (projected_rows (tn_schema plan) (tn_output_indices plan) output_rows).

(** The visitor of [execute_primary_key_ordered_topn_scan]. *)
Definition pk_ordered_visit (plan : KvTopNPlan) (rows : list RowMap) (k : key)
    (v : option (list byte)) : result string (bool * list RowMap) :=
  value ← ok_or "top-n primary key visitor missing row value"%string v;
  output_row ← map_err show_error
                 (decode_row_record_projected (tn_schema plan) value (tn_output_indices plan));
  matched ←
    (match kv_filters plan with
     | [] => Ok true
     | _ =>
         scan_values ← map_err show_error
           (decode_row_record_projected_values (tn_schema plan) value (scan_indices plan));
         Ok (kv_filters_match_values scan_values (scan_positions plan) (kv_filters plan))
     end);
  if negb matched then Ok (true, rows)
  else
    let rows := rows ++ [output_row] in
    Ok ((length rows <? tn_fetch plan + tn_skip plan)%nat, rows).

Definition execute_primary_key_ordered_topn_scan (plan : KvTopNPlan) (m : kvmap)
    : result string (list (list ColumnValue)) :=
  if (tn_fetch plan + tn_skip plan =? 0)%nat then Ok []
  else
    let range := topn_range plan in
    rows ← store_visit_range m (rs_start range) (rs_end range) (descending plan) KeyValue
             (pk_ordered_visit plan) [];
    Ok (projected_rows (tn_schema plan) (tn_output_indices plan) (window_of plan rows)).

Definition execute_topn_scan (plan : KvTopNPlan) (m : kvmap)
    : result string (list (list ColumnValue)) :=
  if primary_key_ordered plan then execute_primary_key_ordered_topn_scan plan m
  else
    match compile_fast_topn_scan_plan parse_f64 plan with
    | Some fast_plan => execute_topn_fast_scan plan fast_plan m
    | None => execute_topn_general_scan plan m
    end.
End Scans.

(** ** What a top-n query means *)

(** The position of a row in the answer. *)
Definition row_pk (plan : KvTopNPlan) (row : RowMap) : ColumnValue :=
  match primary_key_idx plan with
  | Some idx => row_value (tn_schema plan) row idx
  | None => Null
  end.

Definition compare_rows (plan : KvTopNPlan) (a b : RowMap) : comparison :=
  compare_topn_values (row_value (tn_schema plan) a (order_idx plan)) (row_pk plan a)
    (row_value (tn_schema plan) b (order_idx plan)) (row_pk plan b)
    (descending plan) (tn_nulls_first plan).

Definition matching_rows (plan : KvTopNPlan) (rows : list RowMap) : list RowMap :=
  List.filter (fun row => kv_row_matches (tn_schema plan) row (kv_filters plan)) rows.

(** Filter, sort, skip, take, project. *)
Definition topn_reference (plan : KvTopNPlan) (rows : list RowMap) : list (list ColumnValue) :=
  projected_rows (tn_schema plan) (tn_output_indices plan)
    (window_of plan (sort_by (compare_rows plan) (matching_rows plan rows))).

(** The rows the scan visits. *)
Definition topn_rows (plan : KvTopNPlan) (m : kvmap) : list kvrow :=
  store_scan_range m (rs_start (topn_range plan)) (rs_end (topn_range plan)) None false.

(** ** The order *)

(** Where candidates are ordered: the order value is NULL or of the class [k], the
    primary key of the class [kp]. *)
Definition ordered_candidate (k kp : nat) (order pk : ColumnValue) : Prop :=
  (order = Null \/ value_class order = Some k) /\ value_class pk = Some kp.

Lemma value_class_not_null (k : nat) (v : ColumnValue) : value_class v = Some k -> is_null v = false.
Proof. by destruct v. Qed.

Lemma compare_topn_antisym (o1 p1 o2 p2 : ColumnValue) (d nf : bool) :
  compare_topn_values o2 p2 o1 p1 d nf = CompOpp (compare_topn_values o1 p1 o2 p2 d nf).
Proof.
  assert (Hd : forall a b, default Eq (cv_partial_cmp b a) = CompOpp (default Eq (cv_partial_cmp a b))).
  { intros a b. rewrite (cv_cmp_antisym a b). by destruct (cv_partial_cmp a b). }
  unfold compare_topn_values. rewrite (Hd o1 o2), (Hd p1 p2).
  destruct (is_null o1), (is_null o2); cbn [nulls_order];
    [done|by destruct nf..|].
  destruct (default Eq (cv_partial_cmp o1 o2)), d; done.
Qed.

(** On ordered candidates the comparison is by class order. *)
Definition topn_key_order (d nf : bool) (a b : ColumnValue) : comparison :=
  match nulls_order (is_null a) (is_null b) nf with
  | Some c => c
  | None => if d then CompOpp (class_compare a b) else class_compare a b
  end.

Lemma compare_topn_class (k kp : nat) (d nf : bool) (o1 p1 o2 p2 : ColumnValue) :
  ordered_candidate k kp o1 p1 -> ordered_candidate k kp o2 p2 ->
  compare_topn_values o1 p1 o2 p2 d nf =
    match topn_key_order d nf o1 o2 with Eq => class_compare p1 p2 | c => c end.
Proof.
  intros [H1 P1] [H2 P2]. unfold compare_topn_values, topn_key_order.
  rewrite (class_cmp kp p1 p2) by done. cbn [default].
  destruct H1 as [->|H1], H2 as [->|H2]; cbn [is_null].
  - done.
  - rewrite (value_class_not_null k o2) by done. by destruct nf.
  - rewrite (value_class_not_null k o1) by done. by destruct nf.
  - rewrite (value_class_not_null k o1), (value_class_not_null k o2) by done. cbn [nulls_order].
    rewrite (class_cmp k o1 o2) by done. cbn [default]. unfold id. by destruct d, (class_compare o1 o2).
Qed.

Lemma topn_key_trans (d nf : bool) (a b c : ColumnValue) :
  topn_key_order d nf a b <> Gt -> topn_key_order d nf b c <> Gt ->
  topn_key_order d nf a c <> Gt /\
  (topn_key_order d nf a c = Eq -> topn_key_order d nf a b = Eq /\ topn_key_order d nf b c = Eq).
Proof.
  assert (Hcc : forall x y z, class_compare x y <> Gt -> class_compare y z <> Gt ->
    class_compare x z <> Gt /\ (class_compare x z = Eq -> class_compare x y = Eq /\ class_compare y z = Eq)).
  { intros x y z H1 H2. split; [by apply (class_compare_trans x y z)|]. intros E.
    assert (Hzx : class_compare z x <> Gt) by (rewrite class_compare_antisym, E; done).
    pose proof (class_compare_trans y z x H2 Hzx) as H3.
    pose proof (class_compare_trans z x y Hzx H1) as H4.
    rewrite class_compare_antisym in H3, H4.
    by destruct (class_compare x y), (class_compare y z). }
  unfold topn_key_order. destruct (is_null a), (is_null b), (is_null c); cbn [nulls_order];
    try (by destruct nf); try done.
  destruct d; [|apply Hcc]. rewrite <- !class_compare_antisym. intros H1 H2.
  destruct (Hcc c b a H2 H1) as [H3 H4]. split; [done|]. intros E. by apply H4 in E as [? ?].
Qed.

Lemma compare_topn_trans (k kp : nat) (d nf : bool) (o1 p1 o2 p2 o3 p3 : ColumnValue) :
  ordered_candidate k kp o1 p1 -> ordered_candidate k kp o2 p2 -> ordered_candidate k kp o3 p3 ->
  compare_topn_values o1 p1 o2 p2 d nf <> Gt -> compare_topn_values o2 p2 o3 p3 d nf <> Gt ->
  compare_topn_values o1 p1 o3 p3 d nf <> Gt.
Proof.
  intros H1 H2 H3. rewrite !(compare_topn_class k kp) by done. intros L1 L2.
  assert (K1 : topn_key_order d nf o1 o2 <> Gt) by (by destruct (topn_key_order d nf o1 o2)).
  assert (K2 : topn_key_order d nf o2 o3 <> Gt) by (by destruct (topn_key_order d nf o2 o3)).
  destruct (topn_key_trans d nf o1 o2 o3 K1 K2) as [K3 K4].
  destruct (topn_key_order d nf o1 o3); [|done|done]. destruct (K4 eq_refl) as [E1 E2].
  rewrite E1 in L1. rewrite E2 in L2. by apply (class_compare_trans p1 p2 p3).
Qed.

Lemma compare_topn_eq (k kp : nat) (d nf : bool) (o1 p1 o2 p2 : ColumnValue) :
  ordered_candidate k kp o1 p1 -> ordered_candidate k kp o2 p2 ->
  compare_topn_values o1 p1 o2 p2 d nf = Eq -> cv_partial_cmp p1 p2 = Some Eq.
Proof.
  intros H1 H2. rewrite (compare_topn_class k kp) by done.
  rewrite (class_cmp kp p1 p2) by (apply H1 || apply H2).
  destruct (topn_key_order d nf o1 o2); [|done..]. by intros ->.
Qed.

(** ** The scan computes the reference *)

(** What the planner ensures of a plan. *)
Record plan_sound (plan : KvTopNPlan) : Prop := {
  ps_scan : wf_projection (tn_schema plan) (scan_indices plan);
  ps_positions :
    scan_positions plan = build_column_slots (length (columns (tn_schema plan))) (scan_indices plan);
  ps_order : order_idx plan ∈ scan_indices plan;
  ps_pk : forall i, primary_key_idx plan = Some i -> i ∈ scan_indices plan;
  ps_filters : flat_map predicate_columns (kv_filters plan) ⊆ scan_indices plan;
  ps_output : refetch_output plan = false -> tn_output_indices plan ⊆ scan_indices plan;
  ps_refetch : refetch_output plan = true -> is_Some (primary_key_idx plan);
  ps_key : primary_key_ordered plan = true -> primary_key_idx plan = Some (order_idx plan);
}.

(** A stored row and the row of columns it holds. *)
Definition table_row (plan : KvTopNPlan) (r : kvrow) (row : RowMap) : Prop :=
  decode_row_record (tn_schema plan) r.2 = Ok row /\
  r.1 = row_key (table_id (tn_schema plan)) (table_epoch (tn_schema plan)) (row_pk plan row).

Lemma slot_of_scan_column (s : TableSchema) (idxs : list nat) (i : nat) : wf_projection s idxs -> i ∈ idxs ->
  exists slot, slot_of_column (build_column_slots (length (columns s)) idxs) i = Some slot /\
    idxs !! slot = Some i.
Proof.
  intros [Hnd Hin] [slot Hslot]%list_elem_of_lookup. exists slot. split; [|done].
  apply build_column_slots_lookup; [done|]. split; [done|].
  exact (proj1 (Forall_lookup _ _) Hin slot i Hslot).
Qed.

Lemma compare_kv_compare (a b : ColumnValue) (op : KvCompareOp) :
  compare_kv_values a op b = compare_values a op b.
Proof.
  unfold compare_kv_values, compare_values. destruct (is_null a || is_null b); [done|].
  destruct op; cbn [ordering_satisfies]; try done; by destruct (cv_partial_cmp a b) as [[]|].
Qed.

Section GeneralScan.
Context (show_error : pg_error -> string) (plan : KvTopNPlan) (Hplan : plan_sound plan).
Hypothesis Hids : wf_ids (tn_schema plan).
Let s := tn_schema plan.

Lemma scan_value_row (row : RowMap) (i : nat) : i ∈ scan_indices plan ->
  scan_value (map (column_value s row) (scan_indices plan)) (scan_positions plan) i = row_value s row i.
Proof.
  intros Hi. destruct Hplan. unfold scan_value. rewrite ps_positions0.
  destruct (slot_of_scan_column s (scan_indices plan) i) as (slot & Hs & Hl); [done..|].
  change (mjoin (?l !! i)) with (slot_of_column l i). fold s. rewrite Hs. cbn [mbind option_bind].
  rewrite list_lookup_fmap, Hl. cbn [fmap option_fmap option_map default]. unfold id.
  by rewrite row_value_column.
Qed.

Lemma scan_predicate_row (row : RowMap) (p : KvPredicate) : predicate_columns p ⊆ scan_indices plan ->
  kv_predicate_matches_values (map (column_value s row) (scan_indices plan)) (scan_positions plan) p =
  kv_predicate_matches s row p.
Proof.
  induction p as [ps IH|ps IH|p IH|i op v|i|i|i low high negated] using KvPredicate_nested_ind;
    cbn [predicate_columns kv_predicate_matches_values kv_predicate_matches]; intros Hu.
  - by apply (forallb_columns _ _ (scan_indices plan)).
  - by apply (existsb_columns _ _ (scan_indices plan)).
  - by rewrite IH.
  - by rewrite scan_value_row, compare_kv_compare by set_solver.
  - by rewrite scan_value_row by set_solver.
  - by rewrite scan_value_row by set_solver.
  - by rewrite scan_value_row, !compare_kv_compare by set_solver.
Qed.

Lemma scan_filters_row (row : RowMap) :
  kv_filters_match_values (map (column_value s row) (scan_indices plan)) (scan_positions plan)
    (kv_filters plan) = kv_row_matches s row (kv_filters plan).
Proof.
  apply (forallb_columns _ _ (scan_indices plan)); [|by apply ps_filters].
  apply Forall_forall. intros p _. apply scan_predicate_row.
Qed.

(** The candidate of a row. *)
Definition row_candidate (row : RowMap) : TopNCandidate :=
  topn_candidate plan (map (column_value s row) (scan_indices plan)).

Lemma candidate_order (row : RowMap) : order_value (row_candidate row) = row_value s row (order_idx plan).
Proof. apply scan_value_row. by destruct Hplan. Qed.

Lemma candidate_pk (row : RowMap) : pk_value (row_candidate row) = row_pk plan row.
Proof.
  unfold row_candidate, topn_candidate, row_pk. cbn [pk_value].
  destruct (primary_key_idx plan) as [i|] eqn:E; [|done]. apply scan_value_row. by apply (ps_pk plan).
Qed.

Lemma compare_candidates (a b : RowMap) :
  compare_topn_candidates (descending plan) (tn_nulls_first plan) (row_candidate a) (row_candidate b) =
  compare_rows plan a b.
Proof. unfold compare_topn_candidates. by rewrite !candidate_order, !candidate_pk. Qed.

Lemma topn_visit_row (k : key) (v : list byte) (row : RowMap) (values : list ColumnValue)
    (cands : list TopNCandidate) : decode_row_record s v = Ok row ->
  topn_visit show_error plan (values, cands) k (Some v) =
  (if kv_row_matches s row (kv_filters plan) then
     candidates ← or_panic (push_topn_candidate cands (row_candidate row) (descending plan)
                    (tn_nulls_first plan) (tn_fetch plan + tn_skip plan));
     Ok (true, (map (column_value s row) (scan_indices plan), candidates))
   else Ok (true, (map (column_value s row) (scan_indices plan), cands))).
Proof.
  intros Hd. unfold topn_visit. cbn [ok_or fst snd]. rewrite bind_ok. fold s.
  rewrite (projected_values_agree_aux s (scan_indices plan) v row) by (done || by destruct Hplan).
  cbn [map_err]. by rewrite bind_ok, scan_filters_row.
Qed.

(** The visits push the candidates of the matching rows, in order. *)
Lemma topn_visits (rows : list kvrow) (maps : list RowMap) : Forall2 (table_row plan) rows maps ->
  forall values cands final,
  foldl (fun acc c => l ← acc;
      push_candidate (compare_topn_candidates (descending plan) (tn_nulls_first plan))
        (tn_fetch plan + tn_skip plan) l c)
    (Some cands) (map row_candidate (matching_rows plan maps)) = Some final ->
  exists values', visit_rows (topn_visit show_error plan) (values, cands)
    (map (project_row KeyValue) rows) = Ok (values', final).
Proof.
  induction 1 as [|[k v] row rows maps Hr Hrs IH]; intros values cands final.
  - intros [= <-]. by exists values.
  - destruct Hr as [Hd _]. cbn [snd] in Hd. cbn [map visit_rows project_row fst snd].
    rewrite (topn_visit_row k v row) by done. unfold matching_rows. cbn [List.filter].
    fold s. destruct (kv_row_matches s row (kv_filters plan)).
    + cbn [map foldl mbind option_bind]. fold (row_candidate row).
      unfold push_topn_candidate. intros Hf.
      destruct (push_candidate _ _ cands (row_candidate row)) as [cands'|] eqn:Hpush.
      * cbn [or_panic]. rewrite !bind_ok. by apply IH.
      * exfalso. revert Hf. clear. generalize (map row_candidate
          (List.filter (fun row => kv_row_matches s row (kv_filters plan)) maps)).
        intros l. by induction l.
    + rewrite bind_ok. apply IH.
Qed.

(** What a candidate's output row is. *)
Definition candidate_output (row row' : RowMap) : Prop :=
  map (row_value s row') (tn_output_indices plan) = map (row_value s row) (tn_output_indices plan).

Lemma projected_rows_agree (rows rows' : list RowMap) : Forall2 candidate_output rows rows' ->
  projected_rows s (tn_output_indices plan) rows' = projected_rows s (tn_output_indices plan) rows.
Proof.
  induction 1 as [|row row' rows rows' H _ IH]; [done|]. unfold projected_rows in *. cbn [map].
  f_equal; [exact H|exact IH].
Qed.

Lemma projects_output (row row' : RowMap) :
  projects s (tn_output_indices plan) row row' -> candidate_output row row'.
Proof.
  intros [H _]. apply map_ext_in. intros i Hi. rewrite !row_value_column. unfold column_value.
  destruct (columns s !! i) as [c|] eqn:E; [|done]. apply (H i c); [by apply list_elem_of_In|done].
Qed.

Lemma values_to_row_lookup (idxs : list nat) (f : nat -> ColumnValue) (i : nat) (c : ColumnSchema) :
  schema_unique s -> NoDup idxs -> i ∈ idxs -> columns s !! i = Some c ->
  projected_values_to_row s idxs (map f idxs) !! col_name c = Some (f i).
Proof.
  intros Hu Hnd Hi Hc. unfold projected_values_to_row.
  induction idxs as [|j idxs IH] using rev_ind; [by apply elem_of_nil in Hi|].
  apply NoDup_app in Hnd as (Hnd & Hj & _).
  rewrite map_app, zip_with_app by (by rewrite length_map). rewrite foldl_app. cbn [foldl map zip_with fst snd].
  apply elem_of_app in Hi as [Hi| ->%list_elem_of_singleton].
  - destruct (columns s !! j) as [c'|] eqn:Hc'; [|by apply IH].
    rewrite lookup_insert_ne; [by apply IH|]. intros Hn. destruct Hu as [Hu _].
    assert (i = j) as ->; [|by apply (Hj j Hi); set_solver].
    apply (NoDup_lookup _ i j (col_name c) Hu); rewrite list_lookup_fmap; [by rewrite Hc|by rewrite Hc', <- Hn].
  - rewrite Hc. by rewrite lookup_insert_eq.
Qed.

Lemma kept_row_output (row : RowMap) : refetch_output plan = false ->
  candidate_output row (projected_values_to_row s (scan_indices plan) (cand_values (row_candidate row))).
Proof.
  intros Hr. unfold row_candidate, topn_candidate. cbn [cand_values]. rewrite Hr.
  apply map_ext_in. intros i Hi. rewrite !row_value_column. unfold column_value at 1 3.
  destruct (columns s !! i) as [c|] eqn:E; [|done]. unfold row_get.
  rewrite (values_to_row_lookup _ _ i c); [|by destruct Hids|by destruct Hplan as [[]]| |done].
  - unfold column_value. by rewrite E.
  - apply (ps_output plan Hplan Hr). by apply list_elem_of_In.
Qed.
End GeneralScan.

(** Where the rows of a scan are in order: their order values are NULL or of one
    class, their primary keys of one class and distinct. *)
Definition ordered_rows (plan : KvTopNPlan) (k kp : nat) (rows : list RowMap) : Prop :=
  Forall (fun row => ordered_candidate k kp (row_value (tn_schema plan) row (order_idx plan))
    (row_pk plan row)) rows /\
  forall a b, a ∈ rows -> b ∈ rows -> cv_partial_cmp (row_pk plan a) (row_pk plan b) = Some Eq -> a = b.

Lemma matching_sub (plan : KvTopNPlan) (rows : list RowMap) (row : RowMap) :
  row ∈ matching_rows plan rows -> row ∈ rows.
Proof. unfold matching_rows. rewrite !list_elem_of_In, filter_In. by intros [? _]. Qed.

Lemma window_sub {A} (plan : KvTopNPlan) (l : list A) (a : A) : a ∈ window_of plan l -> a ∈ l.
Proof.
  unfold window_of. intros H. eapply list_elem_of_In. eapply list_elem_of_In in H.
  rewrite <- (take_drop (tn_skip plan) l). apply in_app_iff. right.
  rewrite <- (take_drop (tn_fetch plan) (drop (tn_skip plan) l)). apply in_app_iff. by left.
Qed.

Lemma window_take {A} (plan : KvTopNPlan) (l : list A) :
  window_of plan (take (tn_fetch plan + tn_skip plan) l) = window_of plan l.
Proof.
  unfold window_of. rewrite Nat.add_comm, <- take_drop_commute, take_take. f_equal. lia.
Qed.

Lemma window_map {A B} (f : A -> B) (plan : KvTopNPlan) (l : list A) :
  window_of plan (map f l) = map f (window_of plan l).
Proof. unfold window_of. by rewrite skipn_map, firstn_map. Qed.

(** The window of the sorted heap is the window of all sorted candidates. *)
Lemma heap_window {A B} (cmp : A -> A -> comparison) (cmp' : B -> B -> comparison) (Q : A -> Prop)
    (f : B -> A) (plan : KvTopNPlan) (rows : list B) :
  (forall a b, cmp (f a) (f b) = cmp' a b) ->
  (forall a b, cmp b a = CompOpp (cmp a b)) ->
  (forall a b c, Q a -> Q b -> Q c -> cmp a b <> Gt -> cmp b c <> Gt -> cmp a c <> Gt) ->
  Forall (fun row => Q (f row)) rows ->
  (forall a b, a ∈ rows -> b ∈ rows -> cmp (f a) (f b) = Eq -> a = b) ->
  exists l, push_all cmp (tn_fetch plan + tn_skip plan) [] (map f rows) = Some l /\
    window_of plan (sort_by cmp l) =
    map f (window_of plan (sort_by cmp' rows)).
Proof.
  intros Hcmp Hanti Htrans HQ Heq.
  assert (HQf : Forall Q (map f rows)) by (by apply Forall_fmap).
  destruct (push_all_keeps_best cmp Q Hanti Htrans (tn_fetch plan + tn_skip plan) (map f rows) HQf)
    as (l & Hl & Hk).
  exists l. split; [done|].
  assert (HQl : Forall Q l).
  { destruct Hk as (d & Hp & _). rewrite Hp in HQf. by apply Forall_app in HQf as [? _]. }
  rewrite (window_sorted cmp Q Hanti Htrans (tn_fetch plan + tn_skip plan) (map f rows) l (sort_by cmp l)
    (map f (sort_by cmp' rows))); [|done|done|..].
  - by rewrite window_take, window_map.
  - intros a b (x & -> & Hx)%list_elem_of_fmap (y & -> & Hy)%list_elem_of_fmap E.
    by rewrite (Heq x y Hx Hy E).
  - apply merge_sort_Permutation.
  - by apply (sort_by_sorted cmp Q).
  - apply Permutation_map, merge_sort_Permutation.
  - apply sorted_by_map. intros i j a b Ha Hb Hij. rewrite Hcmp. revert Ha Hb Hij.
    apply (sort_by_sorted cmp' (fun row => Q (f row))); [|intros x y z|done]; [intros x y|];
      rewrite <- !Hcmp; [apply Hanti|apply Htrans].
Qed.

Section GeneralResult.
Context (show_error : pg_error -> string) (plan : KvTopNPlan) (m : kvmap) (maps : list RowMap) (k kp : nat).
Hypotheses (Hplan : plan_sound plan) (Hids : wf_ids (tn_schema plan))
  (Hrows : Forall2 (table_row plan) (topn_rows plan m) maps) (Hord : ordered_rows plan k kp maps).
Let s := tn_schema plan.

(** A row of the answer is found again under its primary key. *)
Lemma refetched (row : RowMap) : row ∈ maps -> refetch_output plan = true ->
  exists v row', refetch_key plan (row_candidate plan row) =
      Ok (row_key (table_id s) (table_epoch s) (row_pk plan row)) /\
    m !! row_key (table_id s) (table_epoch s) (row_pk plan row) = Some v /\
    refetch_row show_error plan (Some v) = Ok row' /\ candidate_output plan row row'.
Proof.
  intros [i Hi]%list_elem_of_lookup Hr.
  destruct (Forall2_lookup_r _ _ _ _ _ Hrows Hi) as ([rk v] & Hrv & Hd & Hk). cbn [fst snd] in *.
  destruct (projected_row_aux s (tn_output_indices plan) v row Hids Hd) as (row' & Hp & Hpr).
  exists v, row'. split; [|split; [|split]].
  - unfold refetch_key. rewrite candidate_pk by done. destruct Hord as [Ho _].
    rewrite (value_class_not_null kp); [done|]. by apply (proj1 (Forall_lookup _ _) Ho i row Hi).
  - unfold s. rewrite <- Hk. unfold topn_rows, store_scan_range in Hrv. cbn [take_limit] in Hrv.
    apply list_elem_of_lookup_2, in_order_elem, btree_iter_elem in Hrv.
    unfold rows_where in Hrv. by apply map_lookup_filter_Some in Hrv as [? _].
  - unfold refetch_row. cbn [ok_or]. rewrite bind_ok. fold s. by rewrite Hp.
  - by apply projects_output.
Qed.

Lemma refetched_rows (rows : list RowMap) : rows ⊆ maps -> refetch_output plan = true ->
  exists keys out, map_m (refetch_key plan) (map (row_candidate plan) rows) = Ok keys /\
    map_m (refetch_row show_error plan) (store_multi_get m keys) = Ok out /\
    Forall2 (candidate_output plan) rows out.
Proof.
  induction rows as [|row rows IH]; intros Hsub Hr; [by exists [], []|].
  destruct IH as (keys & out & Hk & Ho & Hf); [set_solver|done|].
  destruct (refetched row) as (v & row' & H1 & H2 & H3 & H4); [set_solver|done|].
  eexists (_ :: keys), (row' :: out). cbn [map map_m store_multi_get]. rewrite H1, bind_ok, Hk, bind_ok.
  split; [done|]. cbn [map]. fold (store_multi_get m keys). fold s. rewrite H2. cbn [map_m].
  rewrite H3, bind_ok, Ho. split; [done|]. by constructor.
Qed.

Lemma general_scan_reference :
  execute_topn_general_scan show_error plan m = Ok (topn_reference plan maps).
Proof.
  destruct Hord as [Ho Hd].
  assert (Hcand : forall row, row ∈ matching_rows plan maps ->
    ordered_candidate k kp (order_value (row_candidate plan row)) (pk_value (row_candidate plan row))).
  { intros row Hrow%matching_sub. rewrite candidate_order, candidate_pk by done.
    by apply (proj1 (Forall_forall _ _) Ho). }
  destruct (heap_window (compare_topn_candidates (descending plan) (tn_nulls_first plan))
    (compare_rows plan) (fun c => ordered_candidate k kp (order_value c) (pk_value c))
    (row_candidate plan) plan (matching_rows plan maps)) as (l & Hl & Hw).
  - by apply compare_candidates.
  - intros a b. apply compare_topn_antisym.
  - intros a b c. apply compare_topn_trans.
  - by apply Forall_forall.
  - intros a b Ha Hb E. apply (compare_topn_eq k kp) in E; [|by apply Hcand..].
    rewrite !candidate_pk in E by done. apply Hd; [by eapply matching_sub..|done].
  - destruct (topn_visits show_error plan Hplan Hids _ _ Hrows [] [] l Hl) as (values' & Hv).
    unfold execute_topn_general_scan, store_visit_range, store_scan_range_projected.
    change (rs_reverse (topn_range plan)) with false. fold (topn_rows plan m). rewrite Hv, bind_ok.
    rewrite Hw. unfold topn_reference.
    set (rows := window_of plan _).
    assert (Hsub : rows ⊆ maps).
    { intros row Hr%window_sub. unfold sort_by in Hr. rewrite merge_sort_Permutation in Hr.
      by apply matching_sub in Hr. }
    destruct (refetch_output plan) eqn:Hr.
    + destruct (refetched_rows rows Hsub Hr) as (keys & out & -> & Hout & Hf). rewrite bind_ok, Hout, bind_ok.
      f_equal. by apply projected_rows_agree.
    + rewrite bind_ok. f_equal. apply projected_rows_agree. rewrite map_map.
      clear -Hplan Hids Hr. induction rows as [|row rows IH]; [constructor|]. cbn [map].
      constructor; [by apply kept_row_output|exact IH].
Qed.
End GeneralResult.

(** ** Planned scans *)

Lemma column_position_lt (s : TableSchema) (name : string) (i : nat) :
  column_position s name = Some i -> (i < length (columns s))%nat.
Proof. intros (c & Hc & _)%column_position_spec. by eapply lookup_lt_Some. Qed.

Lemma filter_column_lt (s : TableSchema) (e : DfExpr) (i : nat) :
  compile_filter_column_idx s e = Some i -> (i < length (columns s))%nat.
Proof. induction e; cbn [compile_filter_column_idx]; try done. apply column_position_lt. Qed.

Lemma collected_column_lt (s : TableSchema) (e : DfExpr) : forall (needed : gset nat) (i : nat),
  i ∈ collect_filter_column_indices s e needed -> (i < length (columns s))%nat \/ i ∈ needed.
Proof.
  induction e; intros needed i; cbn [collect_filter_column_indices];
    try (by intros H; right); try apply IHe.
  - destruct (column_position s name) as [j|] eqn:E; [|by right].
    intros [->%elem_of_singleton|H]%elem_of_union; [left; by eapply column_position_lt|by right].
  - intros [H|H]%IHe2; [by left|by apply IHe1].
  - intros [H|[H|H]%IHe2]%IHe3; [by left|by left|by apply IHe1].
Qed.

Lemma filter_columns_lt (s : TableSchema) (filters : list DfExpr) (i : nat) :
  i ∈ filter_column_indices s filters -> (i < length (columns s))%nat.
Proof.
  unfold filter_column_indices. rewrite elem_of_sorted_slots.
  assert (H : forall needed, i ∈ foldl (fun needed f => collect_filter_column_indices s f needed) needed filters ->
    (i < length (columns s))%nat \/ i ∈ needed).
  { induction filters as [|f fs IH]; intros needed; cbn [foldl]; [by right|].
    intros [?|Hi]%IH; [by left|]. by apply (collected_column_lt s f). }
  intros [?|Hi]%H; [done|]. by apply elem_of_empty in Hi.
Qed.

Lemma compiled_topn_filters (s : TableSchema) (filters : list DfExpr) : forall ps,
  map_m (compile_topn_filter s) filters = Some ps -> map_m (compile_kv_predicate s) filters = Some ps.
Proof.
  induction filters as [|f fs IH]; intros ps; cbn [map_m]; [done|].
  destruct (compile_topn_filter s f) as [p|] eqn:E; [|discriminate]. cbn [mbind option_bind].
  destruct (map_m (compile_topn_filter s) fs) as [qs|]; [|discriminate]. rewrite (IH qs) by done.
  unfold compile_topn_filter in E. destruct (filter_supported s f); [|discriminate]. by rewrite E.
Qed.

Lemma sorted_slots_projection (s : TableSchema) (S : gset nat) :
  (forall i, i ∈ S -> (i < length (columns s))%nat) -> wf_projection s (sorted_slots S).
Proof.
  intros H. split.
  - unfold sorted_slots. rewrite merge_sort_Permutation. apply NoDup_elements.
  - apply Forall_forall. intros i Hi%elem_of_sorted_slots. by apply H.
Qed.

Lemma planned_topn_sound (query : LogicalPlan) (plan : KvTopNPlan) :
  plan_kv_topn_node query = Some plan ->
  Forall (fun i => i < length (columns (tn_schema plan)))%nat (tn_output_indices plan) ->
  plan_sound plan.
Proof.
  unfold plan_kv_topn_node.
  destruct query as [| | | | |skip fetch sub|]; try discriminate.
  destruct sub as [| | | |sorts input| |]; try discriminate.
  destruct sorts as [|sort_expr []]; try discriminate.
  destruct (mjoin (limit_usize fetch)) as [n|]; [|discriminate]. cbn [mbind option_bind].
  destruct (collect_topn_input input) as [[exprs filters] scan].
  destruct scan as [[provider projection]|]; [|discriminate]. cbn [mbind option_bind].
  destruct provider as [s|]; [|discriminate]. cbn [mbind option_bind].
  destruct (map_m (compile_topn_filter s) filters) as [ps|] eqn:Hps; [|discriminate]. cbn [mbind option_bind].
  destruct (compile_filter_column_idx s (Df.sort_expr sort_expr)) as [order|] eqn:Ho; [|discriminate].
  cbn [mbind option_bind].
  destruct (match exprs with Some _ => _ | None => _ end) as [outs|]; [|discriminate].
  cbn [mbind option_bind]. set (pk := column_position s (primary_key s)).
  set (base := {[order]} ∪ _ ∪ _ : gset nat). set (refetch := match pk with Some _ => _ | None => _ end).
  intros [= <-]. cbn. intros Houts.
  assert (Hbase : forall i, i ∈ base -> (i < length (columns s))%nat).
  { intros i. unfold base. rewrite !elem_of_union, elem_of_list_to_set, elem_of_singleton.
    intros [[->|Hi]|Hi]; [by eapply filter_column_lt| |by eapply filter_columns_lt].
    destruct pk as [j|] eqn:Ej; [|by apply elem_of_empty in Hi].
    apply elem_of_singleton in Hi as ->. by eapply column_position_lt. }
  set (S := if refetch then base else base ∪ list_to_set outs).
  assert (Hsub : base ⊆ S) by (unfold S; destruct refetch; set_solver).
  apply compiled_topn_filters in Hps.
  constructor; cbn; try done.
  - apply sorted_slots_projection. intros i. unfold S. destruct refetch; [apply Hbase|].
    rewrite elem_of_union, elem_of_list_to_set. intros [?|Hi]; [by apply Hbase|].
    by apply (proj1 (Forall_forall _ _) Houts).
  - apply elem_of_sorted_slots, Hsub. unfold base. set_solver.
  - intros i Ei. apply elem_of_sorted_slots, Hsub. unfold base. rewrite Ei. set_solver.
  - intros i Hi. apply elem_of_sorted_slots, Hsub. unfold base.
    rewrite elem_of_union, elem_of_list_to_set. right. by eapply filter_columns_collected.
  - intros Hr i Hi. apply elem_of_sorted_slots. unfold S. rewrite Hr. set_solver.
  - unfold refetch. by destruct pk.
  - destruct pk as [j|]; [|done]. by intros ->%Nat.eqb_eq.
Qed.

(** ** The numeric path *)

Lemma map_m_forall2 {A B} (f : A -> option B) (l : list A) : forall l' : list B,
  map_m f l = Some l' -> Forall2 (fun a b => f a = Some b) l l'.
Proof.
  induction l as [|a l IH]; intros l'; cbn [map_m]; [by intros [= <-]|].
  destruct (f a) as [b|] eqn:E; [|discriminate]. cbn [mbind option_bind].
  destruct (map_m f l) as [bs|]; [|discriminate]. intros [= <-]. constructor; [done|by apply IH].
Qed.

Lemma fast_cmp_antisym (a b : FastNumericValue) :
  fast_numeric_cmp b a = CompOpp <$> fast_numeric_cmp a b.
Proof.
  destruct a, b; try done; cbn [fast_numeric_cmp fast_numeric_as_f64 mbind option_bind];
    try (apply fcompare_antisym; lia).
  cbn. by rewrite Z.compare_antisym.
Qed.

Lemma compare_fast_topn_antisym (o1 p1 o2 p2 : FastNumericValue) (d nf : bool) :
  compare_fast_topn_values o2 p2 o1 p1 d nf = CompOpp (compare_fast_topn_values o1 p1 o2 p2 d nf).
Proof.
  assert (Hd : forall a b, default Eq (fast_numeric_cmp b a) = CompOpp (default Eq (fast_numeric_cmp a b))).
  { intros a b. rewrite (fast_cmp_antisym a b). by destruct (fast_numeric_cmp a b). }
  unfold compare_fast_topn_values. rewrite (Hd o1 o2), (Hd p1 p2).
  destruct (is_fnull o1), (is_fnull o2); cbn [nulls_order]; [done|by destruct nf..|].
  destruct (default Eq (fast_numeric_cmp o1 o2)), d; done.
Qed.

Lemma plain_cmp (t : DataType) (a b : ColumnValue) :
  plain_numeric t a -> plain_numeric t b ->
  default Eq (fast_numeric_cmp (fnum a) (fnum b)) = default Eq (cv_partial_cmp a b).
Proof.
  intros Ha Hb. destruct a; try (by destruct t); destruct b; try (by destruct t); done.
Qed.

Lemma compare_fast_plain (t tp : DataType) (o1 p1 o2 p2 : ColumnValue) (d nf : bool) :
  plain_numeric t o1 -> plain_numeric t o2 -> plain_numeric tp p1 -> plain_numeric tp p2 ->
  compare_fast_topn_values (fnum o1) (fnum p1) (fnum o2) (fnum p2) d nf =
  compare_topn_values o1 p1 o2 p2 d nf.
Proof.
  intros H1 H2 H3 H4. unfold compare_fast_topn_values, compare_topn_values.
  by rewrite !(plain_is_null t), (plain_cmp t), (plain_cmp tp) by done.
Qed.

Lemma compare_fast_compare (t : DataType) (a b : ColumnValue) (op : KvCompareOp) :
  plain_numeric t a -> plain_numeric t b -> compare_fast_topn (fnum a) op (fnum b) = compare_values a op b.
Proof.
  intros Ha Hb. unfold compare_fast_topn. rewrite !(plain_is_null t) by done.
  rewrite (plain_compare t) by done. unfold compare_fast_numeric_values.
  destruct a; try (by destruct t); destruct b; try (by destruct t); by destruct op.
Qed.

Section FastPredicates.
Context (parse_f64 : string -> option Z).

Lemma plain_topn_literal (t : DataType) (v : ColumnValue) : plain_numeric t v ->
  topn_value_to_fast_numeric parse_f64 v = Some (fnum v).
Proof. intros Hv. destruct v; try (by destruct t); done. Qed.

Lemma compile_fast_all (ps : list KvPredicate) (slots : list (option nat)) :
  compile_fast_predicate parse_f64 (And ps) slots =
    FAnd <$> map_m (fun p => compile_fast_predicate parse_f64 p slots) ps /\
  compile_fast_predicate parse_f64 (Or ps) slots =
    FOr <$> map_m (fun p => compile_fast_predicate parse_f64 p slots) ps.
Proof.
  split; cbn [compile_fast_predicate]; f_equal; induction ps as [|p ps IH]; try done;
    cbn [map_m]; destruct (compile_fast_predicate parse_f64 p slots); try done; cbn [mbind option_bind];
    by rewrite IH.
Qed.

Lemma collect_fast_all (s : TableSchema) (ps : list KvPredicate) (cols : gset nat) :
  collect_fast_predicate_columns parse_f64 s (And ps) cols =
    fold_m (fun cols p => collect_fast_predicate_columns parse_f64 s p cols) cols ps /\
  collect_fast_predicate_columns parse_f64 s (Or ps) cols =
    fold_m (fun cols p => collect_fast_predicate_columns parse_f64 s p cols) cols ps.
Proof.
  split; cbn [collect_fast_predicate_columns]; revert cols; induction ps as [|p ps IH]; intros cols; try done;
    cbn [fold_m]; destruct (collect_fast_predicate_columns parse_f64 s p cols); try done;
    cbn [mbind option_bind]; by rewrite IH.
Qed.

(** Every column of a collected predicate is collected, and is numeric. *)
Lemma fast_columns_collected (s : TableSchema) (p : KvPredicate) : forall cols cols' : gset nat,
  collect_fast_predicate_columns parse_f64 s p cols = Some cols' ->
  cols ⊆ cols' /\ (forall i, i ∈ predicate_columns p -> i ∈ cols') /\
  forall i, i ∈ cols' -> i ∈ cols \/ column_is_fast_numeric s i = true.
Proof.
  assert (Hlist : forall ps,
    Forall (fun p => forall cols cols' : gset nat,
      collect_fast_predicate_columns parse_f64 s p cols = Some cols' ->
      cols ⊆ cols' /\ (forall i, i ∈ predicate_columns p -> i ∈ cols') /\
      forall i, i ∈ cols' -> i ∈ cols \/ column_is_fast_numeric s i = true) ps ->
    forall cols cols' : gset nat,
      fold_m (fun cols p => collect_fast_predicate_columns parse_f64 s p cols) cols ps = Some cols' ->
      cols ⊆ cols' /\ (forall i, i ∈ flat_map predicate_columns ps -> i ∈ cols') /\
      forall i, i ∈ cols' -> i ∈ cols \/ column_is_fast_numeric s i = true).
  { clear p. induction 1 as [|p ps Hp _ IH]; intros cols cols'; cbn [fold_m flat_map].
    - intros [= <-]. split; [done|]. split; [by intros i Hi%elem_of_nil|by left].
    - destruct (collect_fast_predicate_columns parse_f64 s p cols) as [c1|] eqn:E; [|discriminate].
      cbn [mbind option_bind]. intros H. destruct (Hp _ _ E) as (A1 & A2 & A3), (IH _ _ H) as (B1 & B2 & B3).
      split; [set_solver|]. split.
      + intros i [Hi|Hi]%elem_of_app; [by apply B1, A2|by apply B2].
      + intros i [Hi|Hi]%B3; [by apply A3|by right]. }
  assert (Hone : forall (i : nat) (cols : gset nat) (b : bool) cols', column_is_fast_numeric s i = b ->
    (if b then Some ({[i]} ∪ cols) else None) = Some cols' ->
    cols ⊆ cols' /\ (forall j, j ∈ [i] -> j ∈ cols') /\
    forall j, j ∈ cols' -> j ∈ cols \/ column_is_fast_numeric s j = true).
  { intros i cols [] cols' Hb; [|done]. intros [= <-]. split; [set_solver|]. split; [set_solver|].
    intros j [->%elem_of_singleton|?]%elem_of_union; [by right|by left]. }
  induction p as [ps IH|ps IH|p IH|i op v|i|i|i low high negated] using KvPredicate_nested_ind;
    intros cols cols'; cbn [predicate_columns].
  - rewrite (proj1 (collect_fast_all s ps cols)). by apply Hlist.
  - rewrite (proj2 (collect_fast_all s ps cols)). by apply Hlist.
  - apply IH.
  - cbn [collect_fast_predicate_columns]. destruct (topn_value_to_fast_numeric parse_f64 v); cbn [mbind option_bind];
      [by apply Hone|by destruct (column_is_fast_numeric s i)].
  - by apply Hone.
  - by apply Hone.
  - cbn [collect_fast_predicate_columns].
    destruct (topn_value_to_fast_numeric parse_f64 low); cbn [mbind option_bind];
      [|by destruct (column_is_fast_numeric s i)].
    destruct (topn_value_to_fast_numeric parse_f64 high); cbn [mbind option_bind];
      [by apply Hone|by destruct (column_is_fast_numeric s i)].
Qed.
End FastPredicates.

Lemma collect_slots_all (fs : list FastPredicate) (acc : gset nat) :
  collect_fast_predicate_slots (FAnd fs) acc = foldl (fun slots p => collect_fast_predicate_slots p slots) acc fs /\
  collect_fast_predicate_slots (FOr fs) acc = foldl (fun slots p => collect_fast_predicate_slots p slots) acc fs.
Proof. done. Qed.

Section CompiledPredicate.
Context (parse_f64 : string -> option Z) (s : TableSchema) (row : RowMap) (slots : list (option nat))
  (values : list FastNumericValue).

(** What is known of a compiled predicate: the slots of its columns are collected,
    and it answers what the source predicate does where they hold the columns. *)
Definition compiled_ok (p : KvPredicate) (f : FastPredicate) : Prop :=
  (forall acc : gset nat, acc ⊆ collect_fast_predicate_slots f acc) /\
  (forall (acc : gset nat) (i : nat), i ∈ predicate_columns p ->
     exists o, slot_of_column slots i = Some o /\ o ∈ collect_fast_predicate_slots f acc) /\
  (plain_predicate s p ->
   (forall i, i ∈ predicate_columns p -> slot_holds s row slots values i) ->
   fast_predicate_matches f values = kv_predicate_matches s row p).

Lemma compiled_list (ps : list KvPredicate) (fs : list FastPredicate) : Forall2 compiled_ok ps fs ->
  (forall acc : gset nat, acc ⊆ foldl (fun slots p => collect_fast_predicate_slots p slots) acc fs) /\
  (forall (acc : gset nat) (i : nat), i ∈ flat_map predicate_columns ps ->
     exists o, slot_of_column slots i = Some o /\
       o ∈ foldl (fun slots p => collect_fast_predicate_slots p slots) acc fs) /\
  (foldr (fun p acc => plain_predicate s p /\ acc) True ps ->
   (forall i, i ∈ flat_map predicate_columns ps -> slot_holds s row slots values i) ->
   forallb (fun f => fast_predicate_matches f values) fs = forallb (kv_predicate_matches s row) ps /\
   existsb (fun f => fast_predicate_matches f values) fs = existsb (kv_predicate_matches s row) ps).
Proof.
  induction 1 as [|p f ps fs (P1 & P2 & P3) _ (L1 & L2 & L3)]; cbn [foldl flat_map foldr forallb existsb].
  - split; [done|]. split; [by intros acc i Hi%elem_of_nil|done].
  - split; [intros acc; etrans; [apply P1|apply L1]|]. split.
    + intros acc i [Hi|Hi]%elem_of_app; [|by apply L2].
      destruct (P2 acc i Hi) as (o & Ho & Hin). exists o. split; [done|]. by apply L1.
    + intros [Hp Hps] Hc. rewrite P3 by (done || intros; apply Hc; set_solver).
      destruct L3 as [-> ->]; [done| |done]. intros i Hi. apply Hc. set_solver.
Qed.

Lemma holds_slot (i o : nat) : slot_of_column slots i = Some o -> slot_holds s row slots values i ->
  values !! o = Some (fnum (row_value s row i)) /\ plain_numeric (column_type s i) (row_value s row i).
Proof.
  intros Ho [Hv Hp]. unfold fast_aggregate_column_value in Hv. rewrite Ho in Hv. by split.
Qed.

Lemma compiled_predicate (p : KvPredicate) : forall f : FastPredicate,
  compile_fast_predicate parse_f64 p slots = Some f -> compiled_ok p f.
Proof.
  assert (Hlist : forall ps fs, Forall (fun p => forall f : FastPredicate,
      compile_fast_predicate parse_f64 p slots = Some f -> compiled_ok p f) ps ->
    map_m (fun p => compile_fast_predicate parse_f64 p slots) ps = Some fs -> Forall2 compiled_ok ps fs).
  { intros ps fs Hall Hf%map_m_forall2. induction Hf; [constructor|].
    apply Forall_cons in Hall as [? ?]. constructor; auto. }
  induction p as [ps IH|ps IH|p IH|i op v|i|i|i low high negated] using KvPredicate_nested_ind; intros f.
  - rewrite (proj1 (compile_fast_all parse_f64 ps slots)).
    destruct (map_m _ ps) as [fs|] eqn:E; [|discriminate]. intros [= <-].
    destruct (compiled_list ps fs (Hlist ps fs IH E)) as (L1 & L2 & L3).
    split; [exact L1|]. split; [exact L2|]. intros Hp Hc. by apply L3.
  - rewrite (proj2 (compile_fast_all parse_f64 ps slots)).
    destruct (map_m _ ps) as [fs|] eqn:E; [|discriminate]. intros [= <-].
    destruct (compiled_list ps fs (Hlist ps fs IH E)) as (L1 & L2 & L3).
    split; [exact L1|]. split; [exact L2|]. intros Hp Hc. by apply L3.
  - cbn [compile_fast_predicate]. destruct (compile_fast_predicate parse_f64 p slots) as [g|]; [|discriminate].
    intros [= <-]. destruct (IH g eq_refl) as (P1 & P2 & P3). split; [exact P1|]. split; [exact P2|].
    intros Hp Hc. cbn [fast_predicate_matches kv_predicate_matches]. f_equal. by apply P3.
  - cbn [compile_fast_predicate]. destruct (slot_of_column slots i) as [o|] eqn:Eo; [|discriminate].
    cbn [mbind option_bind]. destruct (topn_value_to_fast_numeric parse_f64 v) as [w|] eqn:Ev; [|discriminate].
    intros [= <-]. split; [intros acc; cbn; set_solver|]. split.
    + intros acc j ->%list_elem_of_singleton. exists o. split; [done|]. cbn. set_solver.
    + cbn [plain_predicate]. intros Hp Hc. cbn [fast_predicate_matches kv_predicate_matches].
      destruct (holds_slot i o Eo) as [-> Hr]; [apply Hc; cbn; set_solver|].
      rewrite (plain_topn_literal parse_f64 _ _ Hp) in Ev. injection Ev as <-.
      by apply (compare_fast_compare (column_type s i)).
  - cbn [compile_fast_predicate]. destruct (slot_of_column slots i) as [o|] eqn:Eo; [|discriminate].
    intros [= <-]. split; [intros acc; cbn; set_solver|]. split.
    + intros acc j ->%list_elem_of_singleton. exists o. split; [done|]. cbn. set_solver.
    + intros _ Hc. cbn [fast_predicate_matches kv_predicate_matches].
      destruct (holds_slot i o Eo) as [-> Hr]; [apply Hc; cbn; set_solver|].
      by apply (plain_is_null (column_type s i)).
  - cbn [compile_fast_predicate]. destruct (slot_of_column slots i) as [o|] eqn:Eo; [|discriminate].
    intros [= <-]. split; [intros acc; cbn; set_solver|]. split.
    + intros acc j ->%list_elem_of_singleton. exists o. split; [done|]. cbn. set_solver.
    + intros _ Hc. cbn [fast_predicate_matches kv_predicate_matches].
      destruct (holds_slot i o Eo) as [-> Hr]; [apply Hc; cbn; set_solver|].
      by rewrite (plain_is_null (column_type s i)).
  - cbn [compile_fast_predicate]. destruct (slot_of_column slots i) as [o|] eqn:Eo; [|discriminate].
    cbn [mbind option_bind]. destruct (topn_value_to_fast_numeric parse_f64 low) as [wl|] eqn:El; [|discriminate].
    cbn [mbind option_bind]. destruct (topn_value_to_fast_numeric parse_f64 high) as [wh|] eqn:Eh; [|discriminate].
    intros [= <-]. split; [intros acc; cbn; set_solver|]. split.
    + intros acc j ->%list_elem_of_singleton. exists o. split; [done|]. cbn. set_solver.
    + cbn [plain_predicate]. intros [Hl Hh] Hc. cbn [fast_predicate_matches kv_predicate_matches].
      destruct (holds_slot i o Eo) as [-> Hr]; [apply Hc; cbn; set_solver|].
      rewrite (plain_topn_literal parse_f64 _ _ Hl) in El. injection El as <-.
      rewrite (plain_topn_literal parse_f64 _ _ Hh) in Eh. injection Eh as <-.
      by rewrite !(compare_fast_compare (column_type s i)).
Qed.
End CompiledPredicate.

Section FastPlan.
Context (parse_f64 : string -> option Z) (plan : KvTopNPlan) (fast_plan : FastTopNScanPlan).
Hypothesis Hbuild : compile_fast_topn_scan_plan parse_f64 plan = Some fast_plan.
Let s := tn_schema plan.

Lemma fast_numeric_column (i : nat) : column_is_fast_numeric s i = true ->
  numeric_column s i /\ (i < length (columns s))%nat.
Proof.
  unfold column_is_fast_numeric, numeric_column. destruct (columns s !! i) as [c|] eqn:E; [|done].
  intros H. split; [by destruct (data_type c)|]. by eapply lookup_lt_Some.
Qed.

Record fast_plan_ok (req : list nat) : Prop := {
  fo_projector : ft_projector fast_plan = new_fast_numeric_projector s req;
  fo_numeric : Forall (numeric_column s) req;
  fo_projection : wf_projection s req;
  fo_order : slot_of_column (build_column_slots (length (columns s)) req) (order_idx plan) =
               Some (order_slot fast_plan) /\ order_slot fast_plan ∈ candidate_slots fast_plan;
  fo_pk : forall i, primary_key_idx plan = Some i -> exists o,
    slot_of_column (build_column_slots (length (columns s)) req) i = Some o /\
    pk_slot fast_plan = Some o /\ o ∈ candidate_slots fast_plan;
  fo_slots : forall i, i ∈ flat_map predicate_columns (kv_filters plan) -> exists o,
    slot_of_column (build_column_slots (length (columns s)) req) i = Some o /\
    o ∈ ft_filter_slots fast_plan;
  fo_filter : forall row values, Forall (plain_predicate s) (kv_filters plan) ->
    (forall i, i ∈ flat_map predicate_columns (kv_filters plan) ->
       slot_holds s row (build_column_slots (length (columns s)) req) values i) ->
    fast_predicate_matches (ft_filter fast_plan) values = kv_row_matches s row (kv_filters plan);
}.

Lemma fast_plan_built : exists req : list nat, fast_plan_ok req.
Proof.
  pose proof Hbuild as Hb. unfold compile_fast_topn_scan_plan in Hb. fold s in Hb.
  destruct (column_is_fast_numeric s (order_idx plan)) eqn:Hord; [|discriminate]. cbn [negb] in Hb.
  destruct (match primary_key_idx plan with Some i => column_is_fast_numeric s i | None => true end) eqn:Hpk;
    [|discriminate]. cbn [negb] in Hb.
  destruct (fold_m _ _ (kv_filters plan)) as [required|] eqn:Er; [|discriminate].
  cbn [mbind option_bind] in Hb. set (req := sorted_slots required) in *.
  set (slots := build_column_slots (length (columns s)) req) in *.
  destruct (map_m _ (kv_filters plan)) as [fs|] eqn:Ef; [|discriminate]. cbn [mbind option_bind] in Hb.
  destruct (slot_of_column slots (order_idx plan)) as [o|] eqn:Eo; [|discriminate].
  cbn [mbind option_bind] in Hb.
  rewrite <- (proj1 (collect_fast_all parse_f64 s (kv_filters plan) _)) in Er.
  apply fast_columns_collected in Er as (R1 & R2 & R3). cbn [predicate_columns] in R2.
  assert (Hreq : forall i, i ∈ required -> column_is_fast_numeric s i = true).
  { intros i [Hi|?]%R3; [|done]. apply elem_of_union in Hi as [->%elem_of_singleton|Hi]; [done|].
    destruct (primary_key_idx plan) as [j|]; [|by apply elem_of_empty in Hi].
    by apply elem_of_singleton in Hi as ->. }
  assert (Hwf : wf_projection s req).
  { apply sorted_slots_projection. intros i Hi. by apply fast_numeric_column, Hreq. }
  assert (Hcompiled : forall row values, Forall2 (compiled_ok s row slots values) (kv_filters plan) fs).
  { intros row values. apply map_m_forall2 in Ef. eapply Forall2_impl; [exact Ef|].
    intros p f. apply compiled_predicate. }
  exists req. injection Hb as Hfp.
  constructor; rewrite <- ?Hfp; cbn [ft_projector ft_filter ft_filter_slots candidate_slots order_slot pk_slot];
    fold slots.
  - done.
  - apply Forall_forall. intros i Hi%elem_of_sorted_slots. by apply fast_numeric_column, Hreq.
  - done.
  - split; [done|]. apply elem_of_sorted_slots. set_solver.
  - intros i Hi. rewrite Hi in *. cbn [mbind option_bind].
    destruct (slot_of_scan_column s req i Hwf) as (p & Hp & _); [apply elem_of_sorted_slots; set_solver|].
    fold slots in Hp. exists p. rewrite Hp. split; [done|]. split; [done|].
    apply elem_of_sorted_slots. set_solver.
  - intros i Hi. destruct (compiled_list s ∅ slots [] _ _ (Hcompiled ∅ [])) as (_ & L2 & _).
    destruct (L2 ∅ i Hi) as (p & Hp & Hin). exists p. split; [done|]. apply elem_of_sorted_slots.
    destruct fs as [|f fs]; [by apply elem_of_empty in Hin|done].
  - intros row values Hp Hc.
    destruct (compiled_list s row slots values _ _ (Hcompiled row values)) as (_ & _ & L3).
    destruct L3 as [L3 _]; [clear -Hp; by induction Hp|done|]. unfold kv_row_matches. rewrite <- L3.
    by destruct fs.
Qed.
End FastPlan.

(** A record the numeric path reads: fixed layout with every column stored, the
    order, key and filter columns plain. *)
Definition fast_record (plan : KvTopNPlan) (x : kvrow * RowMap) : Prop :=
  let s := tn_schema plan in
  table_row plan x.1 x.2 /\
  (exists layout, fixed_row_layout s x.1.2 = Ok layout /\
     stored_column_count layout = length (columns s)) /\
  plain_numeric (column_type s (order_idx plan)) (row_value s x.2 (order_idx plan)) /\
  (forall i, primary_key_idx plan = Some i -> plain_numeric (column_type s i) (row_value s x.2 i)) /\
  forall i, i ∈ flat_map predicate_columns (kv_filters plan) ->
    plain_numeric (column_type s i) (row_value s x.2 i).

Definition fast_row_candidate (plan : KvTopNPlan) (x : kvrow * RowMap) : FastTopNCandidate :=
  {| raw_value := x.1.2; f_order_value := fnum (row_value (tn_schema plan) x.2 (order_idx plan));
     f_pk_value := fnum (row_pk plan x.2) |}.

Definition matching_pairs (plan : KvTopNPlan) (pairs : list (kvrow * RowMap)) : list (kvrow * RowMap) :=
  List.filter (fun x => kv_row_matches (tn_schema plan) x.2 (kv_filters plan)) pairs.

Lemma matching_pairs_rows (plan : KvTopNPlan) (pairs : list (kvrow * RowMap)) :
  map snd (matching_pairs plan pairs) = matching_rows plan (map snd pairs).
Proof.
  unfold matching_pairs, matching_rows. induction pairs as [|x pairs IH]; [done|]. cbn [List.filter map].
  destruct (kv_row_matches _ x.2 _); cbn [map]; by rewrite IH.
Qed.

(** Sorting pairs is sorting their rows. *)
Lemma sort_pairs {A B} (cmp : A -> A -> comparison) (cmp' : B -> B -> comparison) (Q : B -> Prop)
    (f : A -> B) (l : list A) :
  (forall a b, cmp' b a = CompOpp (cmp' a b)) ->
  (forall a b c, Q a -> Q b -> Q c -> cmp' a b <> Gt -> cmp' b c <> Gt -> cmp' a c <> Gt) ->
  (forall a b, a ∈ l -> b ∈ l -> cmp a b = cmp' (f a) (f b)) ->
  (forall a b, cmp b a = CompOpp (cmp a b)) ->
  Forall (fun a => Q (f a)) l ->
  (forall a b, a ∈ l -> b ∈ l -> cmp' (f a) (f b) = Eq -> f a = f b) ->
  map f (sort_by cmp l) = sort_by cmp' (map f l).
Proof.
  intros Hanti Htrans Hcmp Hanti' HQ Heq.
  assert (Hin : forall a, a ∈ sort_by cmp l <-> a ∈ l).
  { intros a. unfold sort_by. by rewrite merge_sort_Permutation. }
  apply (sorted_unique cmp' Q Hanti Htrans).
  - etrans; [apply Permutation_map, merge_sort_Permutation|symmetry; apply merge_sort_Permutation].
  - apply sorted_by_map. intros i j a b Ha Hb Hij.
    rewrite <- Hcmp by (apply Hin; by eapply list_elem_of_lookup_2). revert Ha Hb Hij.
    apply (sort_by_sorted cmp (fun a => a ∈ l)); [done| |by apply Forall_forall].
    intros x y z Hx Hy Hz. rewrite !Hcmp by done. rewrite Forall_forall in HQ. by apply Htrans; apply HQ.
  - apply (sort_by_sorted cmp' Q); [done|done|]. by apply Forall_fmap.
  - intros a b (x & -> & Hx)%list_elem_of_fmap (y & -> & Hy)%list_elem_of_fmap.
    apply Heq; by apply Hin.
Qed.

Section FastTopN.
Context (show_error : pg_error -> string) (parse_f64 : string -> option Z)
  (plan : KvTopNPlan) (fast_plan : FastTopNScanPlan) (m : kvmap) (pairs : list (kvrow * RowMap)) (k kp : nat).
Hypotheses (Hbuild : compile_fast_topn_scan_plan parse_f64 plan = Some fast_plan)
  (Hids : wf_ids (tn_schema plan)) (Hplain : Forall (plain_predicate (tn_schema plan)) (kv_filters plan))
  (Hrows : map fst pairs = topn_rows plan m) (Hpairs : Forall (fast_record plan) pairs)
  (Hord : ordered_rows plan k kp (map snd pairs)).
Let s := tn_schema plan.

Lemma fast_visit_row (req : list nat) (x : kvrow * RowMap) (values : list FastNumericValue)
    (cands : list FastTopNCandidate) :
  fast_plan_ok plan fast_plan req -> fast_record plan x -> length values = length req ->
  exists values', length values' = length req /\
    topn_fast_visit show_error plan fast_plan (values, cands) x.1.1 (Some x.1.2) =
    (if kv_row_matches s x.2 (kv_filters plan) then
       candidates ← or_panic (push_fast_topn_candidate cands (fast_row_candidate plan x) (descending plan)
                      (tn_nulls_first plan) (tn_fetch plan + tn_skip plan));
       Ok (true, (values', candidates))
     else Ok (true, (values', cands))).
Proof.
  intros [Fp Fn Fw Fo Fk Fs Ff] ([Hdec _] & (layout & Hl & Hn) & Hpo & Hpk & Hpf) Hlen.
  destruct Fw as [Hnd Hlt]. fold s in Hdec, Hl, Hn, Fp, Fn, Fo, Fk, Fs, Ff |- *.
  assert (Hheld : forall (vals vals' : list FastNumericValue) (slots : list nat) (i o : nat),
    (forall o i, req !! o = Some i ->
       vals' !! o = if decide (o ∈ slots) then Some (numeric_value s x.2 i) else vals !! o) ->
    slot_of_column (build_column_slots (length (columns s)) req) i = Some o -> o ∈ slots ->
    vals' !! o = Some (fnum (row_value s x.2 i))).
  { intros vals vals' slots i o Hv Ho Hin. apply build_column_slots_lookup in Ho as [Ho _]; [|done].
    by rewrite (Hv o i Ho), decide_True, numeric_value_fnum. }
  unfold topn_fast_visit. cbn [ok_or fst snd]. rewrite bind_ok, Fp.
  destruct (fixed_slots_decode s req x.1.2 x.2 layout (ft_filter_slots fast_plan) values)
    as (v1 & -> & Hlen1 & Hv1); try done; [by destruct Hids|]. cbn [map_err]. rewrite bind_ok.
  rewrite (Ff x.2 v1 Hplain); [|intros i Hi; destruct (Fs i Hi) as (o & Ho & Hin); split; [|by apply Hpf];
    unfold fast_aggregate_column_value; rewrite Ho; by apply (Hheld values v1 (ft_filter_slots fast_plan))].
  destruct (kv_row_matches s x.2 (kv_filters plan)).
  - destruct (fixed_slots_decode s req x.1.2 x.2 layout (candidate_slots fast_plan) v1)
      as (v2 & -> & Hlen2 & Hv2); try done; [by destruct Hids|]. cbn [map_err]. rewrite bind_ok.
    exists v2. split; [done|]. destruct Fo as [Fo Foin].
    rewrite (Hheld v1 v2 _ _ _ Hv2 Fo Foin).
    assert (E : default FNull (slot ← pk_slot fast_plan; v2 !! slot) = fnum (row_pk plan x.2)).
    { destruct Hord as [Ho _]. destruct (primary_key_idx plan) as [i|] eqn:Ei.
      - destruct (Fk i eq_refl) as (o & Eo & -> & Hin). cbn [mbind option_bind].
        rewrite (Hheld v1 v2 _ _ _ Hv2 Eo Hin). unfold row_pk. by rewrite Ei.
      - unfold compile_fast_topn_scan_plan in Hbuild. rewrite Ei in Hbuild.
        assert (pk_slot fast_plan = None) as ->.
        { clear -Hbuild. repeat case_match; try discriminate; simplify_option_eq; done. }
        unfold row_pk. by rewrite Ei. }
    unfold fast_row_candidate. by rewrite <- E.
  - exists v1. by split.
Qed.

Lemma fast_visits (req : list nat) (l : list (kvrow * RowMap)) :
  fast_plan_ok plan fast_plan req -> Forall (fast_record plan) l ->
  forall values cands final, length values = length req ->
  foldl (fun acc c => l ← acc;
      push_candidate (compare_fast_topn_candidates (descending plan) (tn_nulls_first plan))
        (tn_fetch plan + tn_skip plan) l c)
    (Some cands) (map (fast_row_candidate plan) (matching_pairs plan l)) = Some final ->
  exists values', visit_rows (topn_fast_visit show_error plan fast_plan) (values, cands)
    (map (project_row KeyValue) (map fst l)) = Ok (values', final).
Proof.
  intros Hok. induction 1 as [|x l Hx _ IH]; intros values cands final Hlen.
  - intros [= <-]. by exists values.
  - destruct (fast_visit_row req x values cands Hok Hx Hlen) as (values' & Hlen' & E).
    destruct x as [[rk v] row]. cbn [map visit_rows project_row fst snd] in *. rewrite E. clear E.
    unfold matching_pairs. cbn [List.filter snd]. fold s.
    destruct (kv_row_matches s row (kv_filters plan)); [|rewrite bind_ok; by apply IH].
    cbn [map foldl mbind option_bind]. unfold push_fast_topn_candidate.
    destruct (push_candidate _ _ cands _) as [cands'|].
    + cbn [or_panic]. rewrite !bind_ok. by apply IH.
    + intros Hf. exfalso. revert Hf. clear. generalize (map (fast_row_candidate plan)
        (List.filter (fun x => kv_row_matches s x.2 (kv_filters plan)) l)).
      intros cs. by induction cs.
Qed.

(** A pair of the scan as a fast candidate, where candidates are ordered. *)
Definition fast_ordered (c : FastTopNCandidate) : Prop :=
  exists o p tp, f_order_value c = fnum o /\ f_pk_value c = fnum p /\
    plain_numeric (column_type s (order_idx plan)) o /\ plain_numeric tp p /\
    match primary_key_idx plan with Some i => tp = column_type s i | None => tp = DT.Text end /\
    ordered_candidate k kp o p.

Lemma pair_ordered (x : kvrow * RowMap) : x ∈ pairs ->
  plain_numeric (column_type s (order_idx plan)) (row_value s x.2 (order_idx plan)) /\
  exists tp, plain_numeric tp (row_pk plan x.2) /\
    match primary_key_idx plan with Some i => tp = column_type s i | None => tp = DT.Text end /\
    ordered_candidate k kp (row_value s x.2 (order_idx plan)) (row_pk plan x.2).
Proof.
  intros Hx. destruct (proj1 (Forall_forall _ _) Hpairs x Hx) as (_ & _ & Ho & Hpk & _).
  split; [done|]. destruct Hord as [Hor _]. rewrite Forall_forall in Hor.
  assert (Hoc := Hor x.2 (proj2 (list_elem_of_fmap _ _ _) (ex_intro _ x (conj eq_refl Hx)))).
  unfold row_pk in *. destruct (primary_key_idx plan) as [i|] eqn:Ei.
  - exists (column_type s i). split; [by apply Hpk|done].
  - by destruct Hoc as [_ Hc].
Qed.

Lemma fast_pair_compare (a b : kvrow * RowMap) : a ∈ pairs -> b ∈ pairs ->
  compare_fast_topn_candidates (descending plan) (tn_nulls_first plan)
    (fast_row_candidate plan a) (fast_row_candidate plan b) = compare_rows plan a.2 b.2.
Proof.
  intros Ha Hb. destruct (pair_ordered a Ha) as (Hoa & tpa & Hpa & Hta & _).
  destruct (pair_ordered b Hb) as (Hob & tpb & Hpb & Htb & _).
  assert (tpb = tpa) as -> by (destruct (primary_key_idx plan); congruence).
  by apply (compare_fast_plain (column_type s (order_idx plan)) tpa).
Qed.

Lemma pair_unique (a b : kvrow * RowMap) : a ∈ pairs -> b ∈ pairs -> a.2 = b.2 -> a = b.
Proof.
  intros Ha Hb Hr.
  assert (Hst : forall x, x ∈ pairs -> m !! x.1.1 = Some x.1.2 /\
    x.1.1 = row_key (table_id s) (table_epoch s) (row_pk plan x.2)).
  { intros x Hx. destruct (proj1 (Forall_forall _ _) Hpairs x Hx) as ((_ & Hk) & _).
    split; [|done].
    assert (Hin : x.1 ∈ topn_rows plan m) by (rewrite <- Hrows; apply list_elem_of_fmap; eauto).
    unfold topn_rows, store_scan_range in Hin. cbn [take_limit] in Hin.
    destruct x as [[rk v] row]. cbn [fst snd] in *.
    apply in_order_elem, btree_iter_elem in Hin. by apply map_lookup_filter_Some in Hin as [? _]. }
  destruct (Hst a Ha) as [Ma Ka], (Hst b Hb) as [Mb Kb].
  destruct a as [[ka va] ra], b as [[kb vb] rb]. cbn [fst snd] in *. subst rb.
  assert (ka = kb) as -> by congruence. rewrite Ma in Mb. by injection Mb as ->.
Qed.

Lemma fast_outputs (l : list (kvrow * RowMap)) : Forall (fast_record plan) l ->
  exists out, map_m (fun c => map_err show_error
      (decode_row_record_projected s (raw_value c) (tn_output_indices plan)))
      (map (fast_row_candidate plan) l) = Ok out /\ Forall2 (candidate_output plan) (map snd l) out.
Proof.
  induction 1 as [|x l ((Hdec & _) & _) _ (out & E & Hf)]; [by exists []|].
  destruct (projected_row_aux s (tn_output_indices plan) x.1.2 x.2 Hids Hdec) as (row' & Hp & Hpr).
  exists (row' :: out). cbn [map map_m raw_value fast_row_candidate]. rewrite Hp. cbn [map_err].
  rewrite bind_ok, E. split; [done|]. constructor; [|done]. by apply projects_output.
Qed.

Lemma fast_ordered_compare (a b : FastTopNCandidate) (o1 p1 o2 p2 : ColumnValue) (t tp : DataType) :
  f_order_value a = fnum o1 -> f_pk_value a = fnum p1 -> f_order_value b = fnum o2 -> f_pk_value b = fnum p2 ->
  plain_numeric t o1 -> plain_numeric t o2 -> plain_numeric tp p1 -> plain_numeric tp p2 ->
  compare_fast_topn_candidates (descending plan) (tn_nulls_first plan) a b =
  compare_topn_values o1 p1 o2 p2 (descending plan) (tn_nulls_first plan).
Proof.
  intros E1 E2 E3 E4 H1 H2 H3 H4. unfold compare_fast_topn_candidates. rewrite E1, E2, E3, E4.
  by apply (compare_fast_plain t tp).
Qed.

Lemma fast_ordered_trans (a b c : FastTopNCandidate) : fast_ordered a -> fast_ordered b -> fast_ordered c ->
  compare_fast_topn_candidates (descending plan) (tn_nulls_first plan) a b <> Gt ->
  compare_fast_topn_candidates (descending plan) (tn_nulls_first plan) b c <> Gt ->
  compare_fast_topn_candidates (descending plan) (tn_nulls_first plan) a c <> Gt.
Proof.
  intros (o1 & p1 & t1 & A1 & A2 & A3 & A4 & A5 & A6) (o2 & p2 & t2 & B1 & B2 & B3 & B4 & B5 & B6)
    (o3 & p3 & t3 & C1 & C2 & C3 & C4 & C5 & C6).
  assert (t2 = t1) as -> by (destruct (primary_key_idx plan); congruence).
  assert (t3 = t1) as -> by (destruct (primary_key_idx plan); congruence).
  rewrite (fast_ordered_compare a b o1 p1 o2 p2 (column_type s (order_idx plan)) t1),
    (fast_ordered_compare b c o2 p2 o3 p3 (column_type s (order_idx plan)) t1),
    (fast_ordered_compare a c o1 p1 o3 p3 (column_type s (order_idx plan)) t1) by done.
  by apply (compare_topn_trans k kp).
Qed.

Lemma fast_row_ordered (x : kvrow * RowMap) : x ∈ pairs -> fast_ordered (fast_row_candidate plan x).
Proof.
  intros Hx. destruct (pair_ordered x Hx) as (H1 & tp & H2 & H3 & H4).
  by exists (row_value s x.2 (order_idx plan)), (row_pk plan x.2), tp.
Qed.

Lemma fast_pairs_eq (a b : kvrow * RowMap) : a ∈ pairs -> b ∈ pairs ->
  compare_rows plan a.2 b.2 = Eq -> a.2 = b.2.
Proof.
  intros Ha Hb E. destruct (pair_ordered a Ha) as (_ & _ & _ & _ & Oa).
  destruct (pair_ordered b Hb) as (_ & _ & _ & _ & Ob). destruct Hord as [_ Hd].
  apply Hd; [apply list_elem_of_fmap; eauto..|]. by apply (compare_topn_eq k kp) in E.
Qed.

Lemma matching_pair_in (x : kvrow * RowMap) : x ∈ matching_pairs plan pairs -> x ∈ pairs.
Proof. unfold matching_pairs. rewrite !list_elem_of_In, filter_In. by intros [? _]. Qed.

Lemma fast_scan_reference :
  execute_topn_fast_scan show_error plan fast_plan m = Ok (topn_reference plan (map snd pairs)).
Proof.
  destruct (fast_plan_built parse_f64 plan fast_plan Hbuild) as [req Hok].
  destruct (heap_window (compare_fast_topn_candidates (descending plan) (tn_nulls_first plan))
    _ fast_ordered (fast_row_candidate plan) plan (matching_pairs plan pairs) (fun a b => eq_refl))
    as (l & Hl & Hw).
  - intros a b. apply compare_fast_topn_antisym.
  - apply fast_ordered_trans.
  - apply Forall_forall. intros x Hx%matching_pair_in. by apply fast_row_ordered.
  - intros a b Ha%matching_pair_in Hb%matching_pair_in E. rewrite fast_pair_compare in E by done.
    apply pair_unique; [done|done|]. by apply fast_pairs_eq.
  - destruct (fast_visits req pairs Hok Hpairs (replicate (length req) FNull) [] l) as (values' & Hv);
      [apply length_replicate|exact Hl|].
    unfold execute_topn_fast_scan, store_visit_range, store_scan_range_projected.
    change (rs_reverse (topn_range plan)) with false. fold (topn_rows plan m).
    rewrite (fo_projector plan fast_plan req Hok). cbn [np_output_len new_fast_numeric_projector].
    rewrite <- Hrows, Hv, bind_ok, Hw. fold s.
    assert (Hwin : map snd (window_of plan (sort_by (fun a b =>
        compare_fast_topn_candidates (descending plan) (tn_nulls_first plan) (fast_row_candidate plan a)
          (fast_row_candidate plan b)) (matching_pairs plan pairs))) =
      window_of plan (sort_by (compare_rows plan) (matching_rows plan (map snd pairs)))).
    { rewrite <- window_map, <- matching_pairs_rows. f_equal.
      apply (sort_pairs _ _ (fun row => ordered_candidate k kp (row_value s row (order_idx plan)) (row_pk plan row))).
      - intros a b. apply compare_topn_antisym.
      - intros a b c. apply compare_topn_trans.
      - intros a b Ha%matching_pair_in Hb%matching_pair_in. by apply fast_pair_compare.
      - intros a b. apply compare_fast_topn_antisym.
      - apply Forall_forall. intros x Hx%matching_pair_in.
        by destruct (pair_ordered x Hx) as (_ & _ & _ & _ & ?).
      - intros a b Ha%matching_pair_in Hb%matching_pair_in. by apply fast_pairs_eq. }
    set (window := window_of plan (sort_by _ (matching_pairs plan pairs))) in *.
    destruct (fast_outputs window) as (out & -> & Hf).
    + apply Forall_forall. intros x Hx%window_sub. unfold sort_by in Hx.
      rewrite merge_sort_Permutation in Hx. apply matching_pair_in in Hx.
      by apply (proj1 (Forall_forall _ _) Hpairs).
    + rewrite bind_ok. unfold topn_reference. rewrite <- Hwin. f_equal. by apply projected_rows_agree.
Qed.
End FastTopN.

(** ** Scans in primary-key order *)

Lemma filter_perm {A} (f : A -> bool) (l l' : list A) :
  l ≡ₚ l' -> List.filter f l ≡ₚ List.filter f l'.
Proof.
  induction 1 as [|x l l' _ IH|x y l|l1 l2 l3 _ IH1 _ IH2]; cbn [List.filter]; [done|..].
  - destruct (f x); [by constructor|done].
  - destruct (f x), (f y); try done. constructor.
  - by etrans.
Qed.

(** Integer primary keys of one width, whose keys are ordered as they are. *)
Definition int_keyed (plan : KvTopNPlan) (v0 : ColumnValue) (rows : list RowMap) : Prop :=
  Forall (fun row => wf_key (row_pk plan row) /\ same_int_width v0 (row_pk plan row) = true) rows.

Section PrimaryKeyOrder.
Context (show_error : pg_error -> string) (plan : KvTopNPlan) (m : kvmap) (maps : list RowMap) (v0 : ColumnValue).
Hypotheses (Hplan : plan_sound plan) (Hids : wf_ids (tn_schema plan))
  (Hpk : primary_key_idx plan = Some (order_idx plan))
  (Hrows : Forall2 (table_row plan) (topn_rows plan m) maps) (Hint : int_keyed plan v0 maps).
Let s := tn_schema plan.
Let window := (tn_fetch plan + tn_skip plan)%nat.

Definition pk_int (row : RowMap) : Z := default 0 (int_of_key (row_pk plan row)).

Lemma width_int (v w : ColumnValue) : same_int_width v w = true ->
  is_Some (int_of_key w) /\ (forall u, same_int_width v u = true -> same_int_width w u = true).
Proof. destruct v, w; try done; intros _; by split. Qed.

Lemma compare_int_keys (a b : RowMap) : a ∈ maps -> b ∈ maps ->
  compare_rows plan a b = (if descending plan then CompOpp else id) (pk_int a ?= pk_int b) /\
  bytes_cmp (row_key (table_id s) (table_epoch s) (row_pk plan a))
    (row_key (table_id s) (table_epoch s) (row_pk plan b)) = (pk_int a ?= pk_int b).
Proof.
  intros Ha Hb. pose proof (proj1 (Forall_forall _ _) Hint) as Hi.
  destruct (Hi a Ha) as [Wa Sa], (Hi b Hb) as [Wb Sb].
  destruct (width_int v0 _ Sa) as [[za Za] Hw], (width_int v0 _ Sb) as [[zb Zb] _]. specialize (Hw _ Sb).
  unfold pk_int. rewrite Za, Zb. cbn [default]. unfold id at 2 3 4 5. split.
  - unfold compare_rows. assert (E : forall row, row_value (tn_schema plan) row (order_idx plan) = row_pk plan row).
    { intros row. unfold row_pk. by rewrite Hpk. }
    rewrite !E. unfold compare_topn_values.
    destruct (row_pk plan a), (row_pk plan b); try discriminate; injection Za as ->; injection Zb as ->;
      cbn [is_null nulls_order cv_partial_cmp default]; unfold id; destruct (descending plan);
      by destruct (za ?= zb).
  - rewrite row_key_cmp. by apply int_key_cmp.
Qed.

Lemma compare_int_antisym (a b : RowMap) : compare_rows plan b a = CompOpp (compare_rows plan a b).
Proof. apply compare_topn_antisym. Qed.

Lemma compare_int_trans (a b c : RowMap) : a ∈ maps -> b ∈ maps -> c ∈ maps ->
  compare_rows plan a b <> Gt -> compare_rows plan b c <> Gt -> compare_rows plan a c <> Gt.
Proof.
  intros Ha Hb Hc. rewrite (proj1 (compare_int_keys a b Ha Hb)), (proj1 (compare_int_keys b c Hb Hc)),
    (proj1 (compare_int_keys a c Ha Hc)).
  destruct (descending plan); cbn; destruct (Z.compare_spec (pk_int a) (pk_int b)),
    (Z.compare_spec (pk_int b) (pk_int c)), (Z.compare_spec (pk_int a) (pk_int c)); done || lia.
Qed.

(** The rows as this scan visits them. *)
Definition ordered_maps : list RowMap := in_order (descending plan) maps.

Lemma ordered_rows_maps :
  Forall2 (table_row plan)
    (store_scan_range m (rs_start (topn_range plan)) (rs_end (topn_range plan)) None (descending plan))
    ordered_maps.
Proof.
  unfold ordered_maps. unfold topn_rows, store_scan_range in *. cbn [take_limit in_order] in *.
  destruct (descending plan); [|done]. cbn [in_order].
  rewrite !rev_alt. change (Forall2 (table_row plan) (reverse (btree_iter (rows_where
    (range_contains (rs_start (topn_range plan)) (rs_end (topn_range plan))) m))) (reverse maps)).
  by apply Forall2_reverse.
Qed.

Lemma ordered_maps_sorted : sorted_by (compare_rows plan) ordered_maps.
Proof.
  intros i j a b Ha Hb Hij. pose proof ordered_rows_maps as Hrm.
  destruct (Forall2_lookup_r _ _ _ _ _ Hrm Ha) as (ra & Hra & _ & Ka).
  destruct (Forall2_lookup_r _ _ _ _ _ Hrm Hb) as (rb & Hrb & _ & Kb).
  assert (Hk : key_before (descending plan) ra.1 rb.1).
  { unfold store_scan_range in Hra, Hrb. cbn [take_limit] in Hra, Hrb.
    by apply (strictly_lookup (fun x y : key * list byte => key_before (descending plan) x.1 y.1) _ i j ra rb
      (in_order_before (descending plan) (rows_where (range_contains (rs_start (topn_range plan))
        (rs_end (topn_range plan))) m))). }
  assert (Hin : forall x (n : nat), ordered_maps !! n = Some x -> x ∈ maps).
  { intros x n Hx. apply (in_order_elem (descending plan)). by eapply list_elem_of_lookup_2. }
  destruct (compare_int_keys a b (Hin a i Ha) (Hin b j Hb)) as [-> Hb1].
  unfold key_before in Hk. rewrite Ka, Kb in Hk. fold s in Hk.
  destruct (descending plan); unfold bytes_lt in Hk; [rewrite bytes_cmp_antisym in Hk|];
    rewrite Hb1 in Hk; by destruct (pk_int a ?= pk_int b).
Qed.

Lemma pk_int_distinct (a b : RowMap) : a ∈ maps -> b ∈ maps -> compare_rows plan a b = Eq -> a = b.
Proof.
  intros Ha Hb E. destruct (compare_int_keys a b Ha Hb) as [E1 E2]. rewrite E1 in E.
  assert (Ez : (pk_int a ?= pk_int b) = Eq) by (destruct (descending plan); by destruct (pk_int a ?= pk_int b)).
  rewrite Ez in E2. apply bytes_cmp_eq in E2.
  apply list_elem_of_lookup in Ha as [i Hi], Hb as [j Hj].
  destruct (Forall2_lookup_r _ _ _ _ _ Hrows Hi) as ([ka va] & Hra & Hda & Ka).
  destruct (Forall2_lookup_r _ _ _ _ _ Hrows Hj) as ([kb vb] & Hrb & Hdb & Kb). cbn [fst snd] in *.
  fold s in Ka, Kb. rewrite <- Ka, <- Kb in E2. subst kb.
  unfold topn_rows, store_scan_range in Hra, Hrb. cbn [take_limit in_order] in Hra, Hrb.
  apply list_elem_of_lookup_2, btree_iter_elem in Hra, Hrb. rewrite Hra in Hrb. injection Hrb as ->.
  rewrite Hda in Hdb. by injection Hdb.
Qed.

Lemma sort_matching : sort_by (compare_rows plan) (matching_rows plan maps) = matching_rows plan ordered_maps.
Proof.
  assert (Hin : forall row, row ∈ matching_rows plan ordered_maps -> row ∈ maps).
  { intros row Hr%matching_sub. by apply in_order_elem in Hr. }
  assert (Hperm : matching_rows plan maps ≡ₚ matching_rows plan ordered_maps).
  { unfold ordered_maps. destruct (descending plan); [|done]. cbn [in_order]. unfold matching_rows.
    apply filter_perm, Permutation_rev. }
  symmetry. apply (sorted_unique (compare_rows plan) (fun row => row ∈ maps) compare_int_antisym compare_int_trans).
  - rewrite <- Hperm. symmetry. apply merge_sort_Permutation.
  - pose proof ordered_maps_sorted as Hs. unfold matching_rows. clear -Hs.
    induction ordered_maps as [|a l IH]; [done|]. cbn [List.filter].
    assert (Hl : sorted_by (compare_rows plan) l).
    { intros i j x y Hx Hy Hij. apply (Hs (S i) (S j)); [done|done|lia]. }
    destruct (kv_row_matches _ a _); [|by apply IH]. apply sorted_by_cons; [|by apply IH].
    intros x Hx. apply list_elem_of_In, filter_In in Hx as [Hx _]. apply list_elem_of_In in Hx.
    apply list_elem_of_lookup in Hx as [i Hi]. apply (Hs 0%nat (S i)); [done|done|lia].
  - apply (sort_by_sorted _ (fun row => row ∈ maps) compare_int_antisym compare_int_trans).
    apply Forall_forall. intros row Hr. by apply matching_sub in Hr.
  - intros a b Ha Hb. apply pk_int_distinct; by apply Hin.
Qed.

Lemma pk_visit_row (k : key) (v : list byte) (row : RowMap) (rows : list RowMap) :
  decode_row_record s v = Ok row ->
  exists row', candidate_output plan row row' /\
    pk_ordered_visit show_error plan rows k (Some v) =
    (if kv_row_matches s row (kv_filters plan)
     then Ok ((length (rows ++ [row']) <? window)%nat, rows ++ [row'])
     else Ok (true, rows)).
Proof.
  intros Hd. destruct (projected_row_aux s (tn_output_indices plan) v row Hids Hd) as (row' & Hp & Hpr).
  exists row'. split; [by apply projects_output|].
  unfold pk_ordered_visit. cbn [ok_or]. rewrite bind_ok. fold s. rewrite Hp. cbn [map_err]. rewrite bind_ok.
  assert (Hm : (match kv_filters plan with
     | [] => Ok true
     | _ =>
         scan_values ← map_err show_error (decode_row_record_projected_values s v (scan_indices plan));
         Ok (kv_filters_match_values scan_values (scan_positions plan) (kv_filters plan))
     end) = Ok (kv_row_matches s row (kv_filters plan))).
  { unfold decode_row_record_projected_values.
    rewrite (projected_values_agree_aux s (scan_indices plan) v row) by (done || by destruct Hplan).
    cbn [map_err]. rewrite bind_ok. unfold s. rewrite <- (scan_filters_row plan Hplan Hids row).
    by destruct (kv_filters plan). }
  rewrite Hm, bind_ok. by destruct (kv_row_matches s row (kv_filters plan)).
Qed.

Lemma pk_visits (rows : list kvrow) (l : list RowMap) : Forall2 (table_row plan) rows l ->
  forall seen acc, Forall2 (candidate_output plan) seen acc -> (length seen < window)%nat ->
  exists out, visit_rows (pk_ordered_visit show_error plan) acc (map (project_row KeyValue) rows) = Ok out /\
    Forall2 (candidate_output plan) (take window (seen ++ matching_rows plan l)) out.
Proof.
  induction 1 as [|[k v] row rows l Hr Hrs IH]; intros seen acc Hacc Hlt.
  - exists acc. split; [done|]. unfold matching_rows. cbn [List.filter]. rewrite app_nil_r, take_ge by lia. done.
  - destruct Hr as [Hd _]. cbn [snd] in Hd. cbn [map visit_rows project_row fst snd].
    destruct (pk_visit_row k v row acc Hd) as (row' & Ho & ->). unfold matching_rows. cbn [List.filter].
    fold s. destruct (kv_row_matches s row (kv_filters plan)); rewrite bind_ok; [|by apply IH].
    assert (Hacc' : Forall2 (candidate_output plan) (seen ++ [row]) (acc ++ [row'])).
    { apply Forall2_app; [done|]. by constructor. }
    change (row :: ?r) with ([row] ++ r). rewrite (assoc_L (++) seen [row]).
    rewrite <- (Forall2_length _ _ _ Hacc').
    destruct (Nat.ltb_spec (length (seen ++ [row])) window) as [Hl|Hl].
    + exact (IH _ _ Hacc' Hl).
    + exists (acc ++ [row']). split; [done|]. rewrite length_app in Hl. cbn in Hl.
      rewrite take_app_length'; [done|]. rewrite length_app. cbn. lia.
Qed.

Lemma pk_ordered_reference :
  execute_primary_key_ordered_topn_scan show_error plan m = Ok (topn_reference plan maps).
Proof.
  unfold execute_primary_key_ordered_topn_scan, topn_reference. fold window.
  destruct (Nat.eqb_spec window 0) as [Hw|Hw].
  - unfold window_of. assert (tn_fetch plan = 0)%nat as -> by (unfold window in Hw; lia). done.
  - destruct (pk_visits _ _ ordered_rows_maps [] []) as (out & Hv & Hf); [constructor|cbn; lia|].
    unfold store_visit_range, store_scan_range_projected. rewrite Hv, bind_ok. f_equal.
    apply projected_rows_agree. rewrite sort_matching. cbn [app] in Hf.
    rewrite <- window_take. fold window. unfold window_of. by apply Forall2_take, Forall2_drop.
Qed.
End PrimaryKeyOrder.

(** ** Properties *)

(** A record the scan of this plan reads: it decodes and is stored under its primary
    key; on the numeric path, as [fast_record] says. *)
Definition scanned_record (fast_plan : option FastTopNScanPlan) (plan : KvTopNPlan)
    (x : kvrow * RowMap) : Prop :=
  match fast_plan with Some _ => fast_record plan x | None => table_row plan x.1 x.2 end.

(** C7. A planned top-n query that is not in key order returns what filtering,
    sorting, skipping, taking and projecting all rows of the table returns, on the
    decoded and on the numeric path: the bounded heap keeps the best candidates, the
    order is total (NULLs first or last, ascending or descending, ties by primary
    key), rows left out of the scan are read again by key.  On the numeric path the records
    store every column and hold no Float32 and no NaN. *)
Theorem topn_scan_sorted_window (show_error : pg_error -> string) (parse_f64 : string -> option Z)
    (query : LogicalPlan) (plan : KvTopNPlan) (m : kvmap) (pairs : list (kvrow * RowMap)) (k kp : nat) :
  plan_kv_topn_node query = Some plan -> primary_key_ordered plan = false ->
  Forall (fun i => i < length (columns (tn_schema plan)))%nat (tn_output_indices plan) ->
  wf_ids (tn_schema plan) ->
  (is_Some (compile_fast_topn_scan_plan parse_f64 plan) ->
     Forall (plain_predicate (tn_schema plan)) (kv_filters plan)) ->
  map fst pairs = topn_rows plan m ->
  Forall (scanned_record (compile_fast_topn_scan_plan parse_f64 plan) plan) pairs ->
  ordered_rows plan k kp (map snd pairs) ->
  execute_topn_scan show_error parse_f64 plan m = Ok (topn_reference plan (map snd pairs)).
Proof.
  intros Hq Hpk Hout Hids Hplain Hrows Hpairs Hord. unfold execute_topn_scan. rewrite Hpk.
  destruct (compile_fast_topn_scan_plan parse_f64 plan) as [fast_plan|] eqn:E.
  - by apply (fast_scan_reference show_error parse_f64 plan fast_plan m pairs k kp E Hids (Hplain ltac:(done))).
  - apply (general_scan_reference show_error plan m (map snd pairs) k kp); try done.
    + by apply (planned_topn_sound query).
    + rewrite <- Hrows. clear -Hpairs. induction Hpairs; [constructor|]. by constructor.
Qed.

Definition tn_sort (column : string) (ascending : bool) : list Df.SortExpr :=
  [{| Df.sort_expr := Df.Column column; Df.asc := ascending; Df.nulls_first := true |}].
(** [SELECT * FROM t WHERE n > 3 ORDER BY n DESC LIMIT 2]. *)
Definition tn_query : LogicalPlan :=
  Df.Limit None (Some (Df.Literal (Df.SInt64 (Some 2))))
    (Df.Sort (tn_sort "n" false)
      (Df.Filter (Df.BinaryExpr (Df.Column "n") Df.OGt (Df.Literal (Df.SInt64 (Some 3))))
        (Df.TableScan (Some agg_schema) None []))).
Definition tn_plan (query : LogicalPlan) : KvTopNPlan :=
  match plan_kv_topn_node query with
  | Some plan => plan
  | None => {| tn_schema := agg_schema; kv_filters := []; tn_output_indices := []; scan_indices := [];
               scan_positions := []; refetch_output := false; order_idx := 0; primary_key_idx := None;
               primary_key_ordered := false; descending := false; tn_nulls_first := false;
               tn_skip := 0; tn_fetch := 0 |}
  end.
Definition tn_store : kvmap := list_to_map [agg_kv 4 6; agg_kv 1 5; agg_kv 3 2; agg_kv 2 9].
Definition tn_pairs : list (kvrow * RowMap) :=
  [(agg_kv 1 5, agg_row 1 5); (agg_kv 2 9, agg_row 2 9); (agg_kv 3 2, agg_row 3 2); (agg_kv 4 6, agg_row 4 6)].

Lemma tn_fast_record (a n : Z) : in_signed 32 a -> in_signed 64 n ->
  decode_row_record agg_schema (agg_record (agg_row a n)) = Ok (agg_row a n) ->
  fixed_row_layout agg_schema (agg_record (agg_row a n)) =
    fixed_row_layout agg_schema (agg_record (agg_row 1 5)) ->
  fast_record (tn_plan tn_query) (agg_kv a n, agg_row a n).
Proof.
  intros Ha Hn Hd Hl. split; [split; [exact Hd|reflexivity]|]. split.
  - eexists. split; [etrans; [exact Hl|vm_compute; reflexivity]|reflexivity].
  - split; [exact Hn|]. split; [intros i Hi; vm_compute in Hi; injection Hi as <-; exact Ha|].
    intros i Hi. vm_compute in Hi. apply list_elem_of_singleton in Hi as ->. exact Hn.
Defined.

Lemma topn_scan_sorted_window_witness :
  execute_topn_scan (fun _ => ""%string) (fun _ => None) (tn_plan tn_query) tn_store =
    Ok (topn_reference (tn_plan tn_query) (map snd tn_pairs)) /\
  topn_reference (tn_plan tn_query) (map snd tn_pairs) = [[Int32 2; Int64 9]; [Int32 4; Int64 6]].
Proof.
  split; [|vm_compute; reflexivity].
  apply (topn_scan_sorted_window (fun _ => ""%string) (fun _ => None) tn_query (tn_plan tn_query) tn_store
    tn_pairs 0 0); try reflexivity.
  - repeat constructor; vm_compute; lia.
  - split; [split; (apply (bool_decide_eq_true_1 _); vm_compute; reflexivity)|].
    repeat constructor; vm_compute; congruence.
  - intros _. repeat constructor; vm_compute; congruence.
  - repeat (apply Forall_cons; split; [apply tn_fast_record;
      [split; vm_compute; congruence|split; vm_compute; congruence|vm_compute; reflexivity|vm_compute; reflexivity]|]).
    constructor.
  - split; [repeat constructor; right; reflexivity|]. intros a b Ha Hb.
    repeat (apply elem_of_cons in Ha as [->|Ha]; [|]); [..|by apply elem_of_nil in Ha];
      repeat (apply elem_of_cons in Hb as [->|Hb]; [try reflexivity; vm_compute; discriminate|]);
      by apply elem_of_nil in Hb.
Defined.

(** ORDER BY an integer primary key needs no sorting: the scan in key order,
    backwards for DESC, stopping when the window is full, returns what filtering,
    sorting, skipping, taking and projecting all rows returns. *)
Theorem key_ordered_scan_sorted_window (show_error : pg_error -> string) (parse_f64 : string -> option Z)
    (query : LogicalPlan) (plan : KvTopNPlan) (m : kvmap) (maps : list RowMap) (v0 : ColumnValue) :
  plan_kv_topn_node query = Some plan -> primary_key_ordered plan = true ->
  Forall (fun i => i < length (columns (tn_schema plan)))%nat (tn_output_indices plan) ->
  wf_ids (tn_schema plan) -> Forall2 (table_row plan) (topn_rows plan m) maps -> int_keyed plan v0 maps ->
  execute_topn_scan show_error parse_f64 plan m = Ok (topn_reference plan maps).
Proof.
  intros Hq Hord Hout Hids Hrows Hint. unfold execute_topn_scan. rewrite Hord.
  pose proof (planned_topn_sound query plan Hq Hout) as Hplan.
  apply (pk_ordered_reference show_error plan m maps v0); try done. by apply ps_key.
Qed.

(** [SELECT * FROM t WHERE n > 3 ORDER BY a DESC LIMIT 2]. *)
Definition tn_key_query : LogicalPlan :=
  Df.Limit None (Some (Df.Literal (Df.SInt64 (Some 2))))
    (Df.Sort (tn_sort "a" false)
      (Df.Filter (Df.BinaryExpr (Df.Column "n") Df.OGt (Df.Literal (Df.SInt64 (Some 3))))
        (Df.TableScan (Some agg_schema) None []))).

Lemma key_ordered_scan_sorted_window_witness :
  execute_topn_scan (fun _ => ""%string) (fun _ => None) (tn_plan tn_key_query) tn_store =
    Ok (topn_reference (tn_plan tn_key_query) (map snd tn_pairs)) /\
  topn_reference (tn_plan tn_key_query) (map snd tn_pairs) = [[Int32 4; Int64 6]; [Int32 2; Int64 9]].
Proof.
  split; [|vm_compute; reflexivity].
  apply (key_ordered_scan_sorted_window (fun _ => ""%string) (fun _ => None) tn_key_query
    (tn_plan tn_key_query) tn_store (map snd tn_pairs) (Int32 0)); try reflexivity.
  - repeat constructor; vm_compute; lia.
  - split; [split; (apply (bool_decide_eq_true_1 _); vm_compute; reflexivity)|].
    repeat constructor; vm_compute; congruence.
  - assert (E : topn_rows (tn_plan tn_key_query) tn_store = map fst tn_pairs) by (vm_compute; reflexivity).
    rewrite E. repeat constructor; vm_compute; reflexivity.
  - repeat constructor; vm_compute; congruence.
Defined.

(** The planner takes the key order for a primary key of any type.  The keys of texts
    are ordered by length first, so [ORDER BY] a TEXT primary key answers
    "zz" before "aaa". *)
Definition text_key_schema : TableSchema :=
  {| table_name := "t"; table_id := 7; schema_version := 1; table_epoch := 1; primary_key := "a";
     check_constraints := []; unique_constraints := []; foreign_keys := [];
     columns := [sample_column 1 "a" DT.Text] |}.
Definition text_key_row (a : string) : kvrow :=
  (row_key 7 1 (Text a),
   match encode_row_record text_key_schema (<["a" := Text a]> ∅) with Ok l => l | _ => [] end).
Definition text_key_plan : KvTopNPlan :=
  tn_plan (Df.Limit None (Some (Df.Literal (Df.SInt64 (Some 2))))
    (Df.Sort (tn_sort "a" true) (Df.TableScan (Some text_key_schema) None []))).

Example text_key_order_by_wrong :
  primary_key_ordered text_key_plan = true /\
  execute_topn_scan (fun _ => ""%string) (fun _ => None) text_key_plan
    (list_to_map [text_key_row "aaa"; text_key_row "zz"]) = Ok [[Text "zz"]; [Text "aaa"]] /\
  topn_reference text_key_plan [<["a" := Text "aaa"]> ∅; <["a" := Text "zz"]> ∅] =
    [[Text "aaa"]; [Text "zz"]].
Proof. vm_compute. done. Qed.
