(* ===== verification/MySqlLocks.v ===== *)
(** * The MySQL lock manager

    src/src/core/server/mysql_locks.rs, the lock types of
    src/src/core/server/shared.rs and the releases of
    src/src/core/server/context_session.rs.

    The lock table, the wait queue and the wait-for map are three mutexes; the
    steps below are the stretches of [acquire_mysql_locks] between its awaits that
    other sessions can observe.  A grant holds the lock table's mutex while it
    clears the queue and the wait-for map, and is one step.  A release, by its own
    session or by another one's KILL, and the withdrawal of a waiter take one mutex
    after the other: each is a step of its own. *)

From stdpp Require Import pretty relations.
From S2P Require Import Prelude Types.

(** ** Locks *)

Inductive MySqlLockDuration : Type := Statement | Transaction.
Inductive MySqlLockPriority : Type := Normal | High.
Inductive MySqlLockScope : Type := SDatabase | SSchema | STable | SIndex | SView | SSequence.

Inductive MySqlLockKind : Type :=
  | MetadataRead
  | MetadataWrite
  | Table
  | Record (value : string)
  | Gap (lower upper : option string)
  | NextKey (lower upper : option string)
  | InsertIntention (value : string)
  | IndexRecord (index_name value : string)
  | IndexGap (index_name : string) (lower upper : option string)
  | IndexNextKey (index_name : string) (lower upper : option string)
  | IndexInsertIntention (index_name value : string).

Record MySqlLock : Type := {
  owner : Z;
  scope : MySqlLockScope;
  duration : MySqlLockDuration;
  database_name : string;
  schema_name : string;
  lock_table : string;
  kind : MySqlLockKind;
}.

Record MySqlLockWaiter : Type := {
  w_session : Z;
  w_priority : MySqlLockPriority;
  w_locks : list MySqlLock;
}.

#[export] Instance duration_eq_dec : EqDecision MySqlLockDuration.
Proof. solve_decision. Defined.
#[export] Instance scope_eq_dec : EqDecision MySqlLockScope.
Proof. solve_decision. Defined.
#[export] Instance kind_eq_dec : EqDecision MySqlLockKind.
Proof. solve_decision. Defined.
#[export] Instance lock_eq_dec : EqDecision MySqlLock.
Proof. solve_decision. Defined.

(** ** Conflicts *)

Definition str_leb (a b : string) : bool := bytes_leb (as_bytes a) (as_bytes b).
Definition str_ltb (a b : string) : bool := bytes_ltb (as_bytes a) (as_bytes b).
Definition str_eqb (a b : string) : bool := bool_decide (a = b).

Definition mysql_range_contains_value (lower upper : option string) (value : string) : bool :=
  match lower with Some l => str_leb l value | None => true end &&
  match upper with Some u => str_ltb value u | None => true end.

Definition mysql_ranges_overlap (left_lower left_upper right_lower right_upper : option string)
    : bool :=
  let before (upper lower : option string) :=
    match upper, lower with Some u, Some l => str_leb u l | _, _ => false end in
  negb (before left_upper right_lower) && negb (before right_upper left_lower).

Definition mysql_record_range_conflict (value : string) (lower upper : option string) : bool :=
  mysql_range_contains_value lower upper value.

Definition mysql_gap_range_conflict := mysql_ranges_overlap.

Definition mysql_index_value_in_range (index_name value : string) (lower upper : option string)
    : bool :=
  starts_with (as_bytes value) (as_bytes (index_name +:+ "=")%string) &&
  mysql_range_contains_value lower upper value.

Definition mysql_object_scopes_overlap (existing requested : MySqlLock) : bool :=
  let same_schema := str_eqb (schema_name existing) (schema_name requested) in
  if negb (str_eqb (database_name existing) (database_name requested)) then false
  else match scope existing, scope requested with
  | SDatabase, _ | _, SDatabase => true
  | SSchema, _ | _, SSchema => same_schema
  | a, b => same_schema && bool_decide (a = b) && str_eqb (lock_table existing) (lock_table requested)
  end.

(** The second match of [mysql_locks_conflict], in the source's order of arms. *)
Definition mysql_kinds_conflict (existing requested : MySqlLockKind) : bool :=
  match existing, requested with
  | MetadataRead, MetadataRead => false
  | MetadataRead, MetadataWrite | MetadataWrite, MetadataRead => true
  | MetadataRead, _ | _, MetadataRead => false
  | MetadataWrite, _ | _, MetadataWrite => true
  | Table, _ | _, Table => true
  | Record a, Record b => str_eqb a b
  | Record v, NextKey lower upper | NextKey lower upper, Record v
  | Record v, Gap lower upper | Gap lower upper, Record v =>
      mysql_record_range_conflict v lower upper
  | InsertIntention _, InsertIntention _ => false
  | InsertIntention v, Gap lower upper | Gap lower upper, InsertIntention v
  | InsertIntention v, NextKey lower upper | NextKey lower upper, InsertIntention v =>
      mysql_record_range_conflict v lower upper
  | Gap ll lu, Gap rl ru | NextKey ll lu, NextKey rl ru
  | Gap ll lu, NextKey rl ru | NextKey ll lu, Gap rl ru => mysql_gap_range_conflict ll lu rl ru
  | Record _, _ | _, Record _ | Gap _ _, _ | _, Gap _ _ | NextKey _ _, _ | _, NextKey _ _
  | InsertIntention _, _ | _, InsertIntention _ => false
  | IndexRecord i v, IndexRecord j w => str_eqb i j && str_eqb v w
  | IndexInsertIntention _ _, IndexInsertIntention _ _ => false
  | IndexRecord i v, IndexNextKey j lower upper | IndexNextKey j lower upper, IndexRecord i v
  | IndexRecord i v, IndexGap j lower upper | IndexGap j lower upper, IndexRecord i v =>
      str_eqb i j && mysql_index_value_in_range i v lower upper
  | IndexInsertIntention i v, IndexGap j lower upper | IndexGap j lower upper, IndexInsertIntention i v
  | IndexInsertIntention i v, IndexNextKey j lower upper
  | IndexNextKey j lower upper, IndexInsertIntention i v =>
      str_eqb i j && mysql_index_value_in_range i v lower upper
  | IndexGap i ll lu, IndexGap j rl ru | IndexNextKey i ll lu, IndexNextKey j rl ru
  | IndexGap i ll lu, IndexNextKey j rl ru | IndexNextKey i ll lu, IndexGap j rl ru =>
      str_eqb i j && mysql_gap_range_conflict ll lu rl ru
  | _, _ => false
  end.

Definition mysql_locks_conflict (existing requested : MySqlLock) : bool :=
  if negb (mysql_object_scopes_overlap existing requested) then false
  else mysql_kinds_conflict (kind existing) (kind requested).

(** ** The queue *)

Definition mysql_lock_priority (locks : list MySqlLock) : MySqlLockPriority :=
  if existsb (fun lock => match kind lock with MetadataWrite => true | _ => false end) locks
  then High else Normal.

Definition priority_gt (a b : MySqlLockPriority) : bool :=
  match a, b with High, Normal => true | _, _ => false end.

Fixpoint mysql_lock_queue_blocker (queue : list MySqlLockWaiter) (session_id : Z)
    (priority : MySqlLockPriority) (requested : list MySqlLock) : option Z :=
  match queue with
  | [] => None
  | waiter :: rest =>
      if w_session waiter =? session_id then None
      else if priority_gt priority (w_priority waiter)
      then mysql_lock_queue_blocker rest session_id priority requested
      else if existsb (fun queued => existsb (mysql_locks_conflict queued) requested) (w_locks waiter)
      then Some (w_session waiter)
      else mysql_lock_queue_blocker rest session_id priority requested
  end.

(** ** Waiting and deadlocks *)

Definition deadlock_error : pg_error :=
  PgError "40001" "Deadlock found when trying to get lock; try restarting transaction".

(** The [while let] of [mysql_register_lock_wait]: [Some true] when the chain of
    owners reaches the waiter, [Some false] when it ends or closes elsewhere,
    [None] when the fuel runs out. *)
Fixpoint follow_waits (fuel : nat) (waits : gmap Z Z) (waiter cursor : Z) (seen : gset Z)
    : option bool :=
  match fuel with
  | O => None
  | S fuel =>
      match waits !! cursor with
      | None => Some false
      | Some next =>
          if next =? waiter then Some true
          else if decide (cursor ∈ seen) then Some false
          else follow_waits fuel waits waiter next ({[cursor]} ∪ seen)
      end
  end.

Definition wait_fuel (waits : gmap Z Z) : nat := S (S (size waits)).

(** [mysql_register_lock_wait]; the outer [None] stands for fuel run out. *)
Definition mysql_register_lock_wait (waits : gmap Z Z) (waiter owner : Z)
    : option (gmap Z Z * option pg_error) :=
  let waits := <[waiter := owner]> waits in
  found ← follow_waits (wait_fuel waits) waits waiter owner ∅;
  Some (if (found : bool) then (delete waiter waits, Some deadlock_error)
        else if bool_decide (waits !! owner = Some waiter)
        then (delete waiter waits, Some deadlock_error)
        else (waits, None)).

(** ** The manager's state and steps *)

(** What a release or a withdrawal has left to do. *)
Inductive cleanup : Type := AtQueue | AtWaits | AtNotify.

(** Where a session stands in [acquire_mysql_locks] or in a release; a session
    with no entry is in neither. *)
Inductive phase : Type :=
  | Checking (requested : list MySqlLock)
      (** at the head of the loop *)
  | Blocked (requested : list MySqlLock) (by_ : Z)
      (** the lock table's mutex dropped, the wait not yet registered *)
  | Registered (requested : list MySqlLock)
      (** the wait registered, [notified()] not yet called *)
  | Parked (requested : list MySqlLock)
      (** waiting for a notification *)
  | Cleaning (session_id : Z) (next : cleanup)
      (** inside [release_session_table_locks] or [remove_mysql_lock_waiter] for
          [session_id], before the mutex named *).

Record LockManager : Type := {
  active_locks : list MySqlLock;
  lock_queue : list MySqlLockWaiter;
  lock_waits : gmap Z Z;
  phases : gmap Z phase;
}.

(** [requested.iter().find_map(..)]: the owner of a conflicting lock. *)
Fixpoint conflict_owner (locks : list MySqlLock) (session_id : Z) (requested : list MySqlLock)
    : option Z :=
  match requested with
  | [] => None
  | lock :: rest =>
      match List.find (fun existing => negb (owner existing =? session_id) &&
              mysql_locks_conflict existing lock) locks with
      | Some existing => Some (owner existing)
      | None => conflict_owner locks session_id rest
      end
  end.

Definition dequeue (session_id : Z) (queue : list MySqlLockWaiter) : list MySqlLockWaiter :=
  List.filter (fun waiter => negb (w_session waiter =? session_id)) queue.

(** [for lock in requested { if !locks.iter().any(..) { locks.push(lock) } }]. *)
Definition push_locks (locks requested : list MySqlLock) : list MySqlLock :=
  foldl (fun locks lock => if bool_decide (lock ∈ locks) then locks else locks ++ [lock])
    locks requested.

(** The entry of [acquire_mysql_locks]: an empty request returns at once. *)
Definition enqueue (session_id : Z) (requested : list MySqlLock) (queue : list MySqlLockWaiter)
    : list MySqlLockWaiter :=
  if existsb (fun waiter => w_session waiter =? session_id) queue then queue
  else queue ++ [{| w_session := session_id; w_priority := mysql_lock_priority requested;
                    w_locks := requested |}].

(** One turn of the loop under the lock table's mutex: blocked, or granted. *)
Definition try_acquire (m : LockManager) (session_id : Z) (requested : list MySqlLock) : LockManager :=
  let blocker :=
    match conflict_owner (active_locks m) session_id requested with
    | Some o => Some o
    | None => mysql_lock_queue_blocker (lock_queue m) session_id (mysql_lock_priority requested) requested
    end in
  match blocker with
  | Some o =>
      {| active_locks := active_locks m; lock_queue := lock_queue m; lock_waits := lock_waits m;
         phases := <[session_id := Blocked requested o]> (phases m) |}
  | None =>
      {| active_locks := push_locks (active_locks m) requested;
         lock_queue := dequeue session_id (lock_queue m);
         lock_waits := delete session_id (lock_waits m);
         phases := delete session_id (phases m) |}
  end.

(** [notify_waiters]: every session already waiting is woken. *)
Definition notify_waiters (phases : gmap Z phase) : gmap Z phase :=
  (fun p => match p with Parked requested => Checking requested | p => p end) <$> phases.

(** The sections of [release_session_table_locks] and [remove_mysql_lock_waiter],
    one per mutex, and the notification that ends both. *)
Definition drop_locks (session_id : Z) (locks : list MySqlLock) : list MySqlLock :=
  List.filter (fun lock => negb (owner lock =? session_id)) locks.

Definition drop_statement_locks (session_id : Z) (locks : list MySqlLock) : list MySqlLock :=
  List.filter (fun lock => negb (owner lock =? session_id) ||
    negb (bool_decide (duration lock = Statement))) locks.

Definition set_phase (runner : Z) (p : phase) (m : LockManager) : LockManager :=
  {| active_locks := active_locks m; lock_queue := lock_queue m; lock_waits := lock_waits m;
     phases := <[runner := p]> (phases m) |}.

Definition cleanup_step (m : LockManager) (runner session_id : Z) (next : cleanup) : LockManager :=
  match next with
  | AtQueue =>
      set_phase runner (Cleaning session_id AtWaits)
        {| active_locks := active_locks m; lock_queue := dequeue session_id (lock_queue m);
           lock_waits := lock_waits m; phases := phases m |}
  | AtWaits =>
      set_phase runner (Cleaning session_id AtNotify)
        {| active_locks := active_locks m; lock_queue := lock_queue m;
           lock_waits := delete session_id (lock_waits m); phases := phases m |}
  | AtNotify =>
      {| active_locks := active_locks m; lock_queue := lock_queue m; lock_waits := lock_waits m;
         phases := notify_waiters (delete runner (phases m)) |}
  end.

(** [release_session_table_locks], when nothing comes between its sections. *)
Definition release_session_table_locks (m : LockManager) (session_id : Z) : LockManager :=
  {| active_locks := drop_locks session_id (active_locks m);
     lock_queue := dequeue session_id (lock_queue m);
     lock_waits := delete session_id (lock_waits m);
     phases := notify_waiters (phases m) |}.

(** [release_session_statement_locks], likewise. *)
Definition release_session_statement_locks (m : LockManager) (session_id : Z) : LockManager :=
  {| active_locks := drop_statement_locks session_id (active_locks m);
     lock_queue := lock_queue m; lock_waits := lock_waits m;
     phases := notify_waiters (phases m) |}.

(** The observable steps of the sessions. *)
Inductive lock_step : LockManager -> LockManager -> Prop :=
  | step_request m session_id requested :
      phases m !! session_id = None -> requested <> [] ->
      Forall (fun lock => owner lock = session_id) requested ->
      lock_step m {| active_locks := active_locks m;
                     lock_queue := enqueue session_id requested (lock_queue m);
                     lock_waits := lock_waits m;
                     phases := <[session_id := Checking requested]> (phases m) |}
  | step_check m session_id requested :
      phases m !! session_id = Some (Checking requested) ->
      lock_step m (try_acquire m session_id requested)
  | step_register m session_id requested o waits :
      phases m !! session_id = Some (Blocked requested o) ->
      mysql_register_lock_wait (lock_waits m) session_id o = Some (waits, None) ->
      lock_step m {| active_locks := active_locks m; lock_queue := lock_queue m; lock_waits := waits;
                     phases := <[session_id := Registered requested]> (phases m) |}
  | step_deadlock m session_id requested o waits e :
      phases m !! session_id = Some (Blocked requested o) ->
      mysql_register_lock_wait (lock_waits m) session_id o = Some (waits, Some e) ->
      lock_step m (set_phase session_id (Cleaning session_id AtQueue)
                     {| active_locks := active_locks m; lock_queue := lock_queue m;
                        lock_waits := waits; phases := phases m |})
  | step_park m session_id requested :
      phases m !! session_id = Some (Registered requested) ->
      lock_step m {| active_locks := active_locks m; lock_queue := lock_queue m;
                     lock_waits := lock_waits m;
                     phases := <[session_id := Parked requested]> (phases m) |}
  | step_timeout m session_id requested :
      phases m !! session_id = Some (Registered requested) \/
      phases m !! session_id = Some (Parked requested) ->
      lock_step m (set_phase session_id (Cleaning session_id AtQueue) m)
  | step_release m runner session_id :
      (* its own session, or another one's KILL of a session in any phase *)
      phases m !! runner = None ->
      lock_step m (set_phase runner (Cleaning session_id AtQueue)
                     {| active_locks := drop_locks session_id (active_locks m);
                        lock_queue := lock_queue m; lock_waits := lock_waits m;
                        phases := phases m |})
  | step_release_statement m session_id :
      phases m !! session_id = None ->
      lock_step m (set_phase session_id (Cleaning session_id AtNotify)
                     {| active_locks := drop_statement_locks session_id (active_locks m);
                        lock_queue := lock_queue m; lock_waits := lock_waits m;
                        phases := phases m |})
  | step_cleanup m runner session_id next :
      phases m !! runner = Some (Cleaning session_id next) ->
      lock_step m (cleanup_step m runner session_id next).

Definition lock_manager_new : LockManager :=
  {| active_locks := []; lock_queue := []; lock_waits := ∅; phases := ∅ |}.

Definition reachable (m : LockManager) : Prop := rtc lock_step lock_manager_new m.

(** ** Conflicts are symmetric *)

Lemma str_eqb_sym a b : str_eqb a b = str_eqb b a.
Proof. unfold str_eqb. by apply bool_decide_ext. Qed.

Lemma str_eqb_true a b : str_eqb a b = true -> a = b.
Proof. apply bool_decide_eq_true. Qed.

Lemma ranges_overlap_sym ll lu rl ru : mysql_ranges_overlap ll lu rl ru = mysql_ranges_overlap rl ru ll lu.
Proof. unfold mysql_ranges_overlap. apply andb_comm. Qed.

Lemma index_range_sym (i j : string) (b : bool) : str_eqb i j && b = str_eqb j i && b.
Proof. by rewrite str_eqb_sym. Qed.

Lemma scopes_overlap_sym a b : mysql_object_scopes_overlap a b = mysql_object_scopes_overlap b a.
Proof.
  unfold mysql_object_scopes_overlap.
  rewrite (str_eqb_sym (database_name a)), (str_eqb_sym (schema_name a)), (str_eqb_sym (lock_table a)).
  destruct (scope a), (scope b); try done; by rewrite (bool_decide_ext (_ = _) (_ = _)).
Qed.

Lemma kinds_conflict_sym a b : mysql_kinds_conflict a b = mysql_kinds_conflict b a.
Proof.
  destruct a, b; cbn [mysql_kinds_conflict]; try done;
    unfold mysql_gap_range_conflict;
    first [ apply str_eqb_sym | apply ranges_overlap_sym
          | rewrite str_eqb_sym; f_equal; first [apply str_eqb_sym | apply ranges_overlap_sym] | done ].
Qed.

Lemma locks_conflict_sym a b : mysql_locks_conflict a b = mysql_locks_conflict b a.
Proof. unfold mysql_locks_conflict. by rewrite scopes_overlap_sym, kinds_conflict_sym. Qed.

(** ** No two sessions hold conflicting locks *)

Definition compatible (locks : list MySqlLock) : Prop :=
  forall a b, a ∈ locks -> b ∈ locks -> owner a <> owner b -> mysql_locks_conflict a b = false.

Definition phase_locks (p : phase) : list MySqlLock :=
  match p with
  | Checking r | Registered r | Parked r | Blocked r _ => r
  | Cleaning _ _ => []
  end.

(** Requests only name locks of their own session. *)
Definition own_requests (ps : gmap Z phase) : Prop :=
  forall s p, ps !! s = Some p -> Forall (fun lock => owner lock = s) (phase_locks p).

Lemma conflict_owner_none locks s requested :
  conflict_owner locks s requested = None ->
  forall existing lock, existing ∈ locks -> lock ∈ requested -> owner existing <> s ->
    mysql_locks_conflict existing lock = false.
Proof.
  induction requested as [|r rest IH]; intros H existing lock He Hl Ho; [set_solver|].
  cbn in H. destruct (List.find _ locks) as [x|] eqn:E; [done|].
  apply elem_of_cons in Hl as [->|Hl]; [|by apply IH].
  pose proof (find_none _ _ E existing (proj1 (list_elem_of_In _ _) He)) as Hn. cbn in Hn.
  destruct (Z.eqb_spec (owner existing) s); [done|]. by cbn in Hn.
Qed.

Lemma push_locks_elem requested : forall locks l,
  l ∈ push_locks locks requested <-> l ∈ locks \/ l ∈ requested.
Proof.
  induction requested as [|r rest IH]; intros locks l; cbn [push_locks foldl]; [set_solver|].
  unfold push_locks in IH. rewrite IH. case_bool_decide; set_solver.
Qed.

Lemma filter_elem {A} (f : A -> bool) l a : a ∈ List.filter f l <-> a ∈ l /\ f a = true.
Proof. by rewrite !list_elem_of_In, filter_In. Qed.

Lemma compatible_grant locks s requested :
  compatible locks -> Forall (fun lock => owner lock = s) requested ->
  conflict_owner locks s requested = None -> compatible (push_locks locks requested).
Proof.
  intros Hc Hown Hno a b Ha Hb Hab. rewrite Forall_forall in Hown.
  apply push_locks_elem in Ha as [Ha|Ha], Hb as [Hb|Hb].
  - by apply Hc.
  - apply (conflict_owner_none locks s requested); try done. rewrite <- (Hown b Hb). done.
  - rewrite locks_conflict_sym. apply (conflict_owner_none locks s requested); try done.
    rewrite <- (Hown a Ha). congruence.
  - destruct Hab. by rewrite (Hown a Ha), (Hown b Hb).
Qed.

Lemma compatible_filter f locks : compatible locks -> compatible (List.filter f locks).
Proof. intros Hc a b [Ha _]%filter_elem [Hb _]%filter_elem. by apply Hc. Qed.

Lemma own_requests_insert ps s p :
  own_requests ps -> Forall (fun lock => owner lock = s) (phase_locks p) -> own_requests (<[s := p]> ps).
Proof.
  intros Ho Hp s' p' [[<- <-]|[_ H]]%lookup_insert_Some; [done|by apply (Ho s' p')].
Qed.

Lemma own_requests_delete ps s : own_requests ps -> own_requests (delete s ps).
Proof. intros Ho s' p [_ H]%lookup_delete_Some. by apply (Ho s' p). Qed.

Lemma own_requests_notify ps : own_requests ps -> own_requests (notify_waiters ps).
Proof.
  intros Ho s p H. unfold notify_waiters in H. rewrite lookup_fmap in H.
  destruct (ps !! s) as [q|] eqn:Hq; [|done]. injection H as <-. apply Ho in Hq. by destruct q.
Qed.

Definition lock_invariant (m : LockManager) : Prop :=
  compatible (active_locks m) /\ own_requests (phases m).

Lemma lock_invariant_step m m' : lock_step m m' -> lock_invariant m -> lock_invariant m'.
Proof.
  intros Hstep [Hc Ho]. unfold lock_invariant.
  destruct Hstep as [m s r Hs Hr Hown|m s r Hs|m s r o w Hs Hw|m s r o w e Hs Hw|m s r Hs|m s r Hs
    |m r s Hs|m s Hs|m r s n Hs]; unfold set_phase; cbn [active_locks phases].
  - split; [done|by apply own_requests_insert].
  - unfold try_acquire. pose proof (Ho _ _ Hs) as Hown. cbn in Hown.
    destruct (conflict_owner _ _ _) as [o|] eqn:E; [split; [done|by apply own_requests_insert]|].
    destruct (mysql_lock_queue_blocker _ _ _ _) as [o|];
      [split; [done|by apply own_requests_insert]|].
    split; [by apply (compatible_grant _ s)|by apply own_requests_delete].
  - split; [done|]. apply own_requests_insert; [done|]. by apply (Ho s (Blocked r o)).
  - split; [done|]. apply own_requests_insert; [done|constructor].
  - split; [done|]. apply own_requests_insert; [done|]. by apply (Ho s (Registered r)).
  - split; [done|]. apply own_requests_insert; [done|constructor].
  - split; [by apply compatible_filter|]. apply own_requests_insert; [done|constructor].
  - split; [by apply compatible_filter|]. apply own_requests_insert; [done|constructor].
  - unfold cleanup_step, set_phase. destruct n; cbn [active_locks phases]; (split; [done|]);
      [apply own_requests_insert; [done|constructor]..|by apply own_requests_notify, own_requests_delete].
Qed.

Lemma lock_invariant_reachable m : reachable m -> lock_invariant m.
Proof.
  intros H. assert (Hinit : lock_invariant lock_manager_new).
  { split; [intros a b Ha; set_solver|intros s p Hs; cbn in Hs; by rewrite lookup_empty in Hs]. }
  revert Hinit. unfold reachable in H.
  induction H as [m|m1 m2 m3 H12 _ IH]; [done|]. intros Hi. by apply IH, (lock_invariant_step m1).
Qed.

(** ** The wait-for map *)

Definition waits_for (waits : gmap Z Z) (a b : Z) : Prop := waits !! a = Some b.

(** No session waits for itself, through any chain of owners. *)
Definition no_deadlock (waits : gmap Z Z) : Prop := forall a, ~ tc (waits_for waits) a a.

(** Each session waits for one owner: the chain from [a] is a single path. *)
Lemma waits_for_next waits a next b :
  waits !! a = Some next -> tc (waits_for waits) a b -> b = next \/ tc (waits_for waits) next b.
Proof.
  intros Hn H. destruct H as [x y Hxy|x y z Hxy Hyz]; unfold waits_for in Hxy; simplify_eq; auto.
Qed.

Lemma waits_for_end waits a b : waits !! a = None -> ~ tc (waits_for waits) a b.
Proof. intros Hn H. destruct H as [x y Hxy|x y z Hxy _]; unfold waits_for in Hxy; congruence. Qed.

(** The chain from a seen session stays among the seen sessions. *)
Definition closed_under (waits : gmap Z Z) (waiter : Z) (seen : gset Z) (cursor : Z) : Prop :=
  forall a, a ∈ seen -> exists next, waits !! a = Some next /\ next <> waiter /\
    (next ∈ seen \/ next = cursor).

Lemma closed_unreachable waits waiter (seen : gset Z) a b :
  (forall x, x ∈ seen -> exists next, waits !! x = Some next /\ next <> waiter /\ next ∈ seen) ->
  a ∈ seen -> tc (waits_for waits) a b -> b <> waiter.
Proof.
  intros Hc Ha H. induction H as [x y Hxy|x y z Hxy Hyz IH].
  - destruct (Hc x Ha) as (n & Hn & Hw & _). unfold waits_for in Hxy. congruence.
  - destruct (Hc x Ha) as (n & Hn & _ & Hs). unfold waits_for in Hxy.
    assert (y = n) as -> by congruence. by apply IH.
Qed.

(** The walk answers whether the chain from the cursor reaches the waiter. *)
Lemma follow_waits_spec waits waiter : forall fuel cursor seen b,
  closed_under waits waiter seen cursor ->
  follow_waits fuel waits waiter cursor seen = Some b ->
  b = true <-> tc (waits_for waits) cursor waiter.
Proof.
  induction fuel as [|fuel IH]; intros cursor seen b Hc H; [done|]. cbn [follow_waits] in H.
  destruct (waits !! cursor) as [next|] eqn:En.
  2: { injection H as <-. split; [done|]. intros Ht. by apply waits_for_end in Ht. }
  destruct (Z.eqb_spec next waiter) as [->|Hne].
  { injection H as <-. split; [|done]. intros _. by apply tc_once. }
  case_decide as Hseen.
  - injection H as <-. split; [done|]. intros Ht. exfalso.
    apply (closed_unreachable waits waiter seen cursor waiter); try done.
    intros x Hx. destruct (Hc x Hx) as (n & Hn & Hw & [Hs| ->]); eauto.
  - rewrite (IH next ({[cursor]} ∪ seen) b); [|clear H|exact H].
    + split; intros Ht.
      * by eapply tc_l.
      * destruct (waits_for_next _ _ _ _ En Ht) as [?|?]; [congruence|done].
    + intros a [->%elem_of_singleton|Ha]%elem_of_union.
      * exists next. auto.
      * destruct (Hc a Ha) as (n & Hn & Hw & [Hs| ->]); exists n || exists cursor;
          (split; [done|]; split; [done|]; left; set_solver).
Qed.

(** The fuel suffices: each turn adds a waiting session to the seen ones. *)
Lemma follow_waits_total waits waiter : forall fuel cursor seen,
  seen ⊆ dom waits -> (size waits + 1 <= fuel + size seen)%nat ->
  exists b, follow_waits fuel waits waiter cursor seen = Some b.
Proof.
  assert (Hsize : forall seen : gset Z, seen ⊆ dom waits -> (size seen <= size waits)%nat).
  { intros seen Hs. rewrite <- size_dom. by apply subseteq_size. }
  induction fuel as [|fuel IH]; intros cursor seen Hs Hf.
  - pose proof (Hsize seen Hs). lia.
  - cbn [follow_waits]. destruct (waits !! cursor) as [next|] eqn:En; [|eauto].
    destruct (next =? waiter); [eauto|]. case_decide as Hseen; [eauto|]. apply IH.
    + apply elem_of_dom_2 in En. set_solver.
    + rewrite size_union, size_singleton by set_solver. lia.
Qed.

Lemma register_total waits waiter o :
  exists r, mysql_register_lock_wait waits waiter o = Some r.
Proof.
  unfold mysql_register_lock_wait, wait_fuel.
  destruct (follow_waits_total (<[waiter := o]> waits) waiter
    (S (S (size (<[waiter := o]> waits)))) o ∅) as [b ->]; [set_solver|lia|].
  cbn. eauto.
Qed.

(** An edge is refused exactly when it would close a chain. *)
Lemma register_spec waits waiter o waits' e :
  mysql_register_lock_wait waits waiter o = Some (waits', e) ->
  (is_Some e <-> tc (waits_for (<[waiter := o]> waits)) o waiter) /\
  waits' = match e with Some _ => delete waiter waits | None => <[waiter := o]> waits end /\
  (e = None \/ e = Some deadlock_error).
Proof.
  unfold mysql_register_lock_wait. intros H.
  destruct (follow_waits _ _ _ _ _) as [b|] eqn:E; [|done]. cbn [mbind option_bind] in H.
  apply follow_waits_spec in E; [|intros a Ha; set_solver].
  assert (Hdel : delete waiter (<[waiter := o]> waits) = delete waiter waits) by apply delete_insert_eq.
  destruct b.
  - injection H as <- <-. rewrite Hdel. split; [|auto]. split; [|eauto]. intros _. by apply E.
  - case_bool_decide as Hb; injection H as <- <-.
    + exfalso. assert (false = true) by (apply E; by apply tc_once). done.
    + split; [|auto]. split; [by intros []|]. intros Ht. assert (false = true) by (by apply E). done.
Qed.

(** Chains of the extended map: without the new edge, or through it. *)
Lemma tc_insert waits w o a b :
  tc (waits_for (<[w := o]> waits)) a b ->
  tc (waits_for waits) a b \/ b = o \/ tc (waits_for (<[w := o]> waits)) o b.
Proof.
  intros H. induction H as [x y Hxy|x y z Hxy Hyz IH]; unfold waits_for in Hxy;
    apply lookup_insert_Some in Hxy as [[<- <-]|[Hne Hxy]].
  - by right; left.
  - left. by apply tc_once.
  - by right; right.
  - destruct IH as [IH|IH]; [left; by eapply tc_l|by right].
Qed.

Lemma tc_to_waiter waits w o a b :
  tc (waits_for (<[w := o]> waits)) a b ->
  tc (waits_for waits) a b \/ a = w \/ tc (waits_for (<[w := o]> waits)) a w.
Proof.
  intros H. induction H as [x y Hxy|x y z Hxy Hyz IH]; unfold waits_for in Hxy;
    pose proof Hxy as Hxy'; apply lookup_insert_Some in Hxy as [[<- <-]|[Hne Hxy]].
  - by right; left.
  - left. by apply tc_once.
  - by right; left.
  - destruct IH as [IH|[->|IH]].
    + left. by eapply tc_l.
    + right; right. by apply tc_once.
    + right; right. by eapply tc_l.
Qed.

Lemma no_deadlock_insert waits w o :
  no_deadlock waits -> ~ tc (waits_for (<[w := o]> waits)) o w -> no_deadlock (<[w := o]> waits).
Proof.
  intros Hn Hw a Ha.
  assert (How : o = w \/ tc (waits_for (<[w := o]> waits)) o w).
  { destruct (tc_insert _ _ _ _ _ Ha) as [H|H1]; [by destruct (Hn a)|].
    destruct (tc_to_waiter _ _ _ _ _ Ha) as [H|H2]; [by destruct (Hn a)|].
    destruct H1 as [->|H1], H2 as [->|H2]; auto.
    right. by eapply tc_transitive. }
  destruct How as [->|?]; [|done]. apply Hw, tc_once. unfold waits_for. by rewrite lookup_insert_eq.
Qed.

Lemma no_deadlock_delete waits w : no_deadlock waits -> no_deadlock (delete w waits).
Proof.
  intros Hn a Ha. apply (Hn a). revert Ha. generalize a at 2 4. intros b Ha.
  induction Ha as [x y Hxy|x y z Hxy _ IH]; unfold waits_for in Hxy;
    apply lookup_delete_Some in Hxy as [_ ?]; [by apply tc_once|by eapply tc_l].
Qed.

Lemma no_deadlock_step m m' : lock_step m m' -> no_deadlock (lock_waits m) -> no_deadlock (lock_waits m').
Proof.
  intros Hstep Hn.
  destruct Hstep as [m s r Hs Hr Hown|m s r Hs|m s r o w Hs Hw|m s r o w e Hs Hw|m s r Hs|m s r Hs
    |m r s Hs|m s Hs|m r s n Hs]; cbn [lock_waits set_phase]; try done.
  - unfold try_acquire. destruct (conflict_owner _ _ _); [done|].
    destruct (mysql_lock_queue_blocker _ _ _ _); [done|]. by apply no_deadlock_delete.
  - apply register_spec in Hw as (Hiff & -> & _). apply no_deadlock_insert; [done|].
    intros Ht. apply Hiff in Ht as [? ?]. done.
  - apply register_spec in Hw as (_ & -> & _). by apply no_deadlock_delete.
  - destruct n; cbn [lock_waits set_phase cleanup_step]; [done|by apply no_deadlock_delete|done].
Qed.

Lemma no_deadlock_reachable m : reachable m -> no_deadlock (lock_waits m).
Proof.
  intros H. assert (Hinit : no_deadlock (lock_waits lock_manager_new)).
  { intros a Ha. by apply waits_for_end in Ha. }
  revert Hinit. unfold reachable in H.
  induction H as [m|m1 m2 m3 H12 _ IH]; [done|]. intros Hi. by apply IH, (no_deadlock_step m1).
Qed.

(** Uninterrupted, the sections add up to the whole release. *)
Lemma notify_delete_insert ps r p : ps !! r = None ->
  notify_waiters (delete r (<[r := p]> ps)) = notify_waiters ps.
Proof. intros Hr. by rewrite delete_insert_id. Qed.

Lemma release_runs m runner s : phases m !! runner = None ->
  rtc lock_step m (release_session_table_locks m s).
Proof.
  intros Hr. eapply rtc_l; [by apply (step_release m runner s)|].
  eapply rtc_l; [apply (step_cleanup _ runner s AtQueue); cbn; by rewrite lookup_insert_eq|].
  eapply rtc_l; [apply (step_cleanup _ runner s AtWaits); cbn; by rewrite lookup_insert_eq|].
  eapply rtc_l; [apply (step_cleanup _ runner s AtNotify); cbn; by rewrite lookup_insert_eq|].
  cbn. rewrite !insert_insert_eq, notify_delete_insert by done. apply rtc_refl.
Qed.

Lemma release_statement_runs m s : phases m !! s = None ->
  rtc lock_step m (release_session_statement_locks m s).
Proof.
  intros Hr. eapply rtc_l; [by apply (step_release_statement m s)|].
  eapply rtc_l; [apply (step_cleanup _ s s AtNotify); cbn; by rewrite lookup_insert_eq|].
  cbn. rewrite notify_delete_insert by done. apply rtc_refl.
Qed.

(** ** Lock constructors *)

(** [normalize_mysql_lock_name]. *)
Definition normalize_mysql_lock_name (value : string) : string := to_ascii_lowercase value.

Definition mysql_lock_with_duration (session_id : Z) (scope : MySqlLockScope)
    (duration : MySqlLockDuration) (database schema object : string) (kind : MySqlLockKind) : MySqlLock :=
  {| owner := session_id; scope := scope; duration := duration;
     database_name := normalize_mysql_lock_name database;
     schema_name := normalize_mysql_lock_name schema;
     lock_table := normalize_mysql_lock_name object; kind := kind |}.

Definition mysql_lock (session_id : Z) (database schema table : string) (kind : MySqlLockKind) : MySqlLock :=
  mysql_lock_with_duration session_id STable Transaction database schema table kind.

Definition mysql_statement_lock (session_id : Z) (database schema table : string)
    (kind : MySqlLockKind) : MySqlLock :=
  mysql_lock_with_duration session_id STable Statement database schema table kind.

Definition mysql_schema_lock (session_id : Z) (database schema : string) (kind : MySqlLockKind) : MySqlLock :=
  {| owner := session_id; scope := SSchema; duration := Statement;
     database_name := normalize_mysql_lock_name database;
     schema_name := normalize_mysql_lock_name schema; lock_table := ""; kind := kind |}.

Definition mysql_database_lock (session_id : Z) (database : string) (kind : MySqlLockKind) : MySqlLock :=
  {| owner := session_id; scope := SDatabase; duration := Statement;
     database_name := normalize_mysql_lock_name database;
     schema_name := ""; lock_table := ""; kind := kind |}.

Definition mysql_index_lock (session_id : Z) (database schema index : string) (kind : MySqlLockKind) : MySqlLock :=
  mysql_lock_with_duration session_id SIndex Statement database schema index kind.

Definition mysql_view_lock (session_id : Z) (database schema view : string) (kind : MySqlLockKind) : MySqlLock :=
  mysql_lock_with_duration session_id SView Statement database schema view kind.

Definition mysql_sequence_lock (session_id : Z) (database schema sequence : string)
    (kind : MySqlLockKind) : MySqlLock :=
  mysql_lock_with_duration session_id SSequence Statement database schema sequence kind.

Definition add_metadata_read_lock (locks : list MySqlLock) (session_id : Z)
    (database schema table : string) : list MySqlLock :=
  locks ++ [mysql_lock session_id database schema table MetadataRead].

Section DebugText.
(** The derived [Debug] of the values that are not integers, NULL or booleans. *)
Context (debug_other : ColumnValue -> string).

(** [normalize_mysql_lock_value]: the [Debug] text of the value. *)
Definition normalize_mysql_lock_value (value : ColumnValue) : string :=
  match value with
  | Null => "Null"
  | Int16 z => "Int16(" +:+ pretty z +:+ ")"
  | Int32 z => "Int32(" +:+ pretty z +:+ ")"
  | Int64 z => "Int64(" +:+ pretty z +:+ ")"
  | Boolean b => "Boolean(" +:+ (if b : bool then "true" else "false") +:+ ")"
  | _ => debug_other value
  end%string.

Definition normalize_mysql_index_lock_value (index_name : string) (value : ColumnValue) : string :=
  (to_ascii_lowercase index_name +:+ "=" +:+ normalize_mysql_lock_value value)%string.
End DebugText.

(** Range locks compare these texts: a lock on the keys from 5 up to 100 does not
    cover the key 50, since "Int32(50)" is not below "Int32(100)". *)
Example range_lock_misses_key d :
  let text := normalize_mysql_lock_value d in
  mysql_kinds_conflict (NextKey (Some (text (Int32 5))) (Some (text (Int32 100))))
    (Record (text (Int32 50))) = false /\
  mysql_kinds_conflict (NextKey (Some (text (Int32 5))) (Some (text (Int32 100))))
    (InsertIntention (text (Int32 50))) = false.
Proof. split; vm_compute; reflexivity. Qed.

(** ** Properties *)

(** C24. Mutual exclusion: in every state the lock manager reaches, through any
    interleaving of requests, waits, wake-ups, timeouts, deadlock aborts and
    releases (its own or by another one's KILL, mutex by mutex), no two sessions
    hold locks that conflict, in either order. *)
Theorem locks_mutually_exclusive (m : LockManager) :
  reachable m ->
  forall a b, a ∈ active_locks m -> b ∈ active_locks m -> owner a <> owner b ->
    mysql_locks_conflict a b = false /\ mysql_locks_conflict b a = false.
Proof.
  intros H a b Ha Hb Hab. destruct (lock_invariant_reachable m H) as [Hc _].
  split; apply Hc; congruence.
Qed.

(** Two sessions, each with a record lock in one table. *)
Definition record_request (s : Z) (v : string) : list MySqlLock := [mysql_lock s "db" "s" "t" (Record v)].

Definition two_holders : LockManager :=
  {| active_locks := record_request 1 "a" ++ record_request 2 "b"; lock_queue := [];
     lock_waits := ∅; phases := ∅ |}.

Lemma two_holders_reachable : reachable two_holders.
Proof.
  eapply rtc_l; [apply (step_request lock_manager_new 1 (record_request 1 "a"));
    [vm_compute; reflexivity|discriminate|repeat constructor]|].
  eapply rtc_l; [apply (step_check _ 1 (record_request 1 "a")); vm_compute; reflexivity|].
  eapply rtc_l; [apply (step_request _ 2 (record_request 2 "b"));
    [vm_compute; reflexivity|discriminate|repeat constructor]|].
  eapply rtc_l; [apply (step_check _ 2 (record_request 2 "b")); vm_compute; reflexivity|].
  match goal with |- rtc _ ?m _ => replace m with two_holders by (vm_compute; reflexivity) end.
  apply rtc_refl.
Qed.

Lemma locks_mutually_exclusive_witness :
  mysql_locks_conflict (mysql_lock 1 "db" "s" "t" (Record "a")) (mysql_lock 2 "db" "s" "t" (Record "b")) = false.
Proof.
  refine (proj1 (locks_mutually_exclusive two_holders two_holders_reachable
    (mysql_lock 1 "db" "s" "t" (Record "a")) (mysql_lock 2 "db" "s" "t" (Record "b")) _ _ _)).
  - by left.
  - by right; left.
  - vm_compute. discriminate.
Defined.

(** C25. Deadlock detection is exact: in every reachable state no session waits for
    itself through the wait-for map, and registering a wait always answers, with a
    deadlock error (and the edge withdrawn) exactly when the owner already waits,
    through any chain, for the waiter. *)
Theorem deadlock_detection_exact (m : LockManager) (waiter o : Z) :
  reachable m ->
  no_deadlock (lock_waits m) /\
  exists waits e, mysql_register_lock_wait (lock_waits m) waiter o = Some (waits, e) /\
    (is_Some e <-> tc (waits_for (<[waiter := o]> (lock_waits m))) o waiter) /\
    no_deadlock waits.
Proof.
  intros H. pose proof (no_deadlock_reachable m H) as Hn. split; [done|].
  destruct (register_total (lock_waits m) waiter o) as [[waits e] Hr].
  exists waits, e. split; [done|]. apply register_spec in Hr as (Hiff & -> & _). split; [done|].
  destruct e as [e|]; [by apply no_deadlock_delete|]. apply no_deadlock_insert; [done|].
  intros Ht. apply Hiff in Ht as [? ?]. done.
Qed.

Lemma deadlock_detection_exact_witness :
  no_deadlock (lock_waits two_holders) /\
  exists waits e, mysql_register_lock_wait (lock_waits two_holders) 1 2 = Some (waits, e) /\
    (is_Some e <-> tc (waits_for (<[1 := 2]> (lock_waits two_holders))) 2 1) /\ no_deadlock waits.
Proof. exact (deadlock_detection_exact two_holders 1 2 two_holders_reachable). Defined.

Example deadlock_of_two :
  mysql_register_lock_wait (<[2 := 1]> ∅) 1 2 = Some (<[2 := 1]> ∅, Some deadlock_error).
Proof. vm_compute. reflexivity. Qed.

(** C40. A wake-up can be lost: a state is reachable in which the only session
    left waits for a notification although nothing is locked and its request
    would be granted at once, because the release that freed the lock came between
    its registration and its call of [notified()]; only the timeout ends the wait. *)
Theorem lost_wakeup_reachable :
  exists m s requested, reachable m /\ phases m = <[s := Parked requested]> ∅ /\
    active_locks m = [] /\ active_locks (try_acquire m s requested) = requested.
Proof.
  set (r1 := [mysql_lock 1 "db" "s" "t" Table]). set (r2 := [mysql_lock 2 "db" "s" "t" Table]).
  eexists _, 2, r2. split; [|split; [|split]].
  - eapply rtc_l; [apply (step_request lock_manager_new 1 r1);
      [vm_compute; reflexivity|discriminate|repeat constructor]|].
    eapply rtc_l; [apply (step_check _ 1 r1); vm_compute; reflexivity|].
    eapply rtc_l; [apply (step_request _ 2 r2);
      [vm_compute; reflexivity|discriminate|repeat constructor]|].
    eapply rtc_l; [apply (step_check _ 2 r2); vm_compute; reflexivity|].
    eapply rtc_l; [eapply (step_register _ 2 r2 1); vm_compute; reflexivity|].
    etrans; [apply (release_runs _ 1 1); vm_compute; reflexivity|].
    eapply rtc_l; [apply (step_park _ 2 r2); vm_compute; reflexivity|].
    apply rtc_refl.
  - vm_compute. reflexivity.
  - vm_compute. reflexivity.
  - vm_compute. reflexivity.
Qed.
