(* ===== verification/Server.v ===== *)
(** * The gateway server's transaction layer

    [GatewayServer] of src/src/core/server/shared.rs (the fields that hold
    transactions), the [txn_*] methods of src/src/core/server/transactions.rs through
    which every statement reads and writes, [read_visible_row_at] of executor_reads.rs
    and [ensure_row_write_not_stale] of scans.rs.

    The store and the transaction are whatever implements [KvStoreApi] and
    [KvTransaction]; [KvSnapshot] adds the trait's snapshot reads.  A method that
    changes the server or the client is a computation of [Cmd]: what it changed before
    an error stays changed. *)

From S2P Require Import Prelude BTree Float Types Values Text Mode KeyCodec LegacyCodec RowCodec KvStore Stores.
From S2P Require MySqlLocks.

(** ** Snapshot reads of a transaction *)

Class KvSnapshot (T W : Type) := {
  kt_snapshot_get : W -> T -> key -> result string (option (list byte));
  kt_snapshot_scan_prefix : W -> T -> key -> result string (list kvrow);
  kt_snapshot_scan_range : W -> T -> key -> option key -> option nat -> bool -> result string (list kvrow);
}.

#[export] Instance memory_snapshot : KvSnapshot MemoryTransaction kvmap := {|
  kt_snapshot_get _ t k := Ok (mt_snapshot_get t k);
  kt_snapshot_scan_prefix _ t p := Ok (materialize_snapshot_prefix t p);
  kt_snapshot_scan_range _ t s e limit reverse := Ok (materialize_snapshot_range t s e limit reverse);
|}.

(** The trait's default methods, which the engine's transaction keeps. *)
#[export] Instance engine_snapshot `{Engine W} : KvSnapshot KvEngineTransaction W := {|
  kt_snapshot_get := kt_get;
  kt_snapshot_scan_prefix := kt_scan_prefix;
  kt_snapshot_scan_range := kt_scan_range;
|}.

(** ** State *)

Inductive TransactionIsolation : Type := ReadCommitted | RepeatableRead | Serializable.
#[export] Instance isolation_eq_dec : EqDecision TransactionIsolation.
Proof. solve_decision. Defined.

(** [pgwire::messages::response::TransactionStatus]. *)
Module TS.
Inductive TransactionStatus : Type := Idle | Transaction | Error.
End TS.
Abbreviation TransactionStatus := TS.TransactionStatus.

Record Server (W T : Type) : Type := {
  store : W;
  mode : GatewayMode;
  active_transactions : gmap Z T;
  active_transaction_snapshots : gmap Z Z;
  active_transaction_isolations : gmap Z TransactionIsolation;
  active_transaction_read_only : gset Z;
  active_mysql_current_reads : gset Z;
  active_mysql_locks : MySqlLocks.LockManager;
  cancelled_sessions : gset Z;
  mvcc_clock : Z;
}.
Arguments store {W T} _.
Arguments mode {W T} _.
Arguments active_transactions {W T} _.
Arguments active_transaction_snapshots {W T} _.
Arguments active_transaction_isolations {W T} _.
Arguments active_transaction_read_only {W T} _.
Arguments active_mysql_current_reads {W T} _.
Arguments active_mysql_locks {W T} _.
Arguments cancelled_sessions {W T} _.
Arguments mvcc_clock {W T} _.

(** [GatewayServer::new], the fields of the record. *)
Definition new_server {W T} (w : W) (mode : GatewayMode) : Server W T :=
  {| store := w; mode := mode; active_transactions := ∅; active_transaction_snapshots := ∅;
     active_transaction_isolations := ∅; active_transaction_read_only := ∅;
     active_mysql_current_reads := ∅; active_mysql_locks := MySqlLocks.lock_manager_new;
     cancelled_sessions := ∅; mvcc_clock := 1 |}.

(** [pgwire::api::ClientInfo]: the process id, the metadata map, the status. *)
Record Client : Type := {
  client_pid : Z;
  metadata : gmap string string;
  transaction_status : TransactionStatus;
}.

(** ** Computations on the server and a client *)

Definition Cmd (W T A : Type) : Type := Server W T * Client -> PgWireResult A * (Server W T * Client).

#[export] Instance cmd_ret W T : MRet (Cmd W T) := fun A a s => (Ok a, s).
#[export] Instance cmd_bind W T : MBind (Cmd W T) := fun A B k m s =>
  match m s with
  | (Ok a, s) => k a s
  | (Err e, s) => (Err e, s)
  | (Panic, s) => (Panic, s)
  | (OutOfFuel, s) => (OutOfFuel, s)
  end.

Section Cmds.
Context {W T : Type}.

Definition cmd_lift {A} (r : PgWireResult A) : Cmd W T A := fun s => (r, s).
Definition cmd_fail {A} (code message : string) : Cmd W T A := cmd_lift (user_error code message).
Definition gets {A} (f : Server W T -> A) : Cmd W T A := fun s => (Ok (f s.1), s).
Definition modify (f : Server W T -> Server W T) : Cmd W T unit := fun s => (Ok tt, (f s.1, s.2)).
Definition client_gets {A} (f : Client -> A) : Cmd W T A := fun s => (Ok (f s.2), s).
Definition session_id : Cmd W T Z := client_gets client_pid.
Definition set_transaction_status (status : TransactionStatus) : Cmd W T unit := fun s =>
  (Ok tt, (s.1, {| client_pid := client_pid s.2; metadata := metadata s.2; transaction_status := status |})).
Definition metadata_insert (name value : string) : Cmd W T unit := fun s =>
  (Ok tt, (s.1, {| client_pid := client_pid s.2; metadata := <[name := value]> (metadata s.2);
                   transaction_status := transaction_status s.2 |})).

Definition set_store (w : W) (s : Server W T) : Server W T :=
  {| store := w; mode := mode s; active_transactions := active_transactions s;
     active_transaction_snapshots := active_transaction_snapshots s;
     active_transaction_isolations := active_transaction_isolations s;
     active_transaction_read_only := active_transaction_read_only s;
     active_mysql_current_reads := active_mysql_current_reads s;
     active_mysql_locks := active_mysql_locks s; cancelled_sessions := cancelled_sessions s;
     mvcc_clock := mvcc_clock s |}.

Definition set_transactions (txs : gmap Z T) (s : Server W T) : Server W T :=
  {| store := store s; mode := mode s; active_transactions := txs;
     active_transaction_snapshots := active_transaction_snapshots s;
     active_transaction_isolations := active_transaction_isolations s;
     active_transaction_read_only := active_transaction_read_only s;
     active_mysql_current_reads := active_mysql_current_reads s;
     active_mysql_locks := active_mysql_locks s; cancelled_sessions := cancelled_sessions s;
     mvcc_clock := mvcc_clock s |}.

Definition set_current_reads (reads : gset Z) (s : Server W T) : Server W T :=
  {| store := store s; mode := mode s; active_transactions := active_transactions s;
     active_transaction_snapshots := active_transaction_snapshots s;
     active_transaction_isolations := active_transaction_isolations s;
     active_transaction_read_only := active_transaction_read_only s;
     active_mysql_current_reads := reads;
     active_mysql_locks := active_mysql_locks s; cancelled_sessions := cancelled_sessions s;
     mvcc_clock := mvcc_clock s |}.

Definition set_cancelled (cancelled : gset Z) (s : Server W T) : Server W T :=
  {| store := store s; mode := mode s; active_transactions := active_transactions s;
     active_transaction_snapshots := active_transaction_snapshots s;
     active_transaction_isolations := active_transaction_isolations s;
     active_transaction_read_only := active_transaction_read_only s;
     active_mysql_current_reads := active_mysql_current_reads s;
     active_mysql_locks := active_mysql_locks s; cancelled_sessions := cancelled;
     mvcc_clock := mvcc_clock s |}.

Definition set_locks (locks : MySqlLocks.LockManager) (s : Server W T) : Server W T :=
  {| store := store s; mode := mode s; active_transactions := active_transactions s;
     active_transaction_snapshots := active_transaction_snapshots s;
     active_transaction_isolations := active_transaction_isolations s;
     active_transaction_read_only := active_transaction_read_only s;
     active_mysql_current_reads := active_mysql_current_reads s;
     active_mysql_locks := locks; cancelled_sessions := cancelled_sessions s;
     mvcc_clock := mvcc_clock s |}.
End Cmds.

Lemma cmd_bind_ok {W T A B} (m : Cmd W T A) (k : A -> Cmd W T B) s a s' :
  m s = (Ok a, s') -> (m ≫= k) s = k a s'.
Proof. intros Hm. unfold mbind, cmd_bind. by rewrite Hm. Qed.

Lemma cmd_bind_inv {W T A B} (m : Cmd W T A) (k : A -> Cmd W T B) s b s'' :
  (m ≫= k) s = (Ok b, s'') -> exists a s', m s = (Ok a, s') /\ k a s' = (Ok b, s'').
Proof. unfold mbind, cmd_bind. destruct (m s) as [[a| | |] s']; try discriminate. eauto. Qed.

(** ** Reads and writes through the session's transaction *)

Section Txn.
Context {W T : Type} `{KvStoreApi W T, KvTransaction T W, KvSnapshot T W}.

(** The transaction of [session_id], if it names a session with one. *)
Definition txn_of (s : Server W T) (session_id : option Z) : option T :=
  id ← session_id; active_transactions s !! id.

Definition txn_get (s : Server W T) (session_id : option Z) (k : key) : result string (option (list byte)) :=
  match txn_of s session_id with
  | Some txn => kt_get (store s) txn k
  | None => ks_get (store s) k
  end.

Definition txn_snapshot_get (s : Server W T) (session_id : option Z) (k : key)
    : result string (option (list byte)) :=
  match txn_of s session_id with
  | Some txn => kt_snapshot_get (store s) txn k
  | None => ks_get (store s) k
  end.

Definition is_repeatable_read_transaction (s : Server W T) (session_id : option Z) : bool :=
  match session_id with
  | None => false
  | Some id => bool_decide (active_transaction_isolations s !! id = Some RepeatableRead)
  end.

Definition use_consistent_read (s : Server W T) (session_id : option Z) : bool :=
  match session_id with
  | None => false
  | Some id =>
      if negb (is_repeatable_read_transaction s (Some id)) then false
      else negb (bool_decide (id ∈ active_mysql_current_reads s))
  end.

Definition enter_mysql_current_read (session_id : Z) : Cmd W T unit :=
  modify (fun s => set_current_reads ({[session_id]} ∪ active_mysql_current_reads s) s).
Definition exit_mysql_current_read (session_id : Z) : Cmd W T unit :=
  modify (fun s => set_current_reads (active_mysql_current_reads s ∖ {[session_id]}) s).

Definition txn_has_pending_key (s : Server W T) (session_id : option Z) (k : key) : bool :=
  match txn_of s session_id with
  | Some txn => kt_has_pending_key txn k
  | None => false
  end.

(** A write goes to the session's transaction, or straight to the store. *)
Definition txn_write (on_txn : T -> T) (on_store : W -> result string W) (s : Server W T)
    (session_id : option Z) : result string (Server W T) :=
  match session_id, txn_of s session_id with
  | Some id, Some txn => Ok (set_transactions (<[id := on_txn txn]> (active_transactions s)) s)
  | _, _ => w ← on_store (store s); Ok (set_store w s)
  end.

Definition txn_put (s : Server W T) (session_id : option Z) (k : key) (v : list byte)
    : result string (Server W T) :=
  txn_write (kt_put k v) (ks_put k v) s session_id.
Definition txn_put_batch (s : Server W T) (session_id : option Z) (entries : list kvrow)
    : result string (Server W T) :=
  txn_write (kt_put_batch entries) (ks_put_batch entries) s session_id.
Definition txn_delete (s : Server W T) (session_id : option Z) (k : key) : result string (Server W T) :=
  txn_write (kt_delete k) (ks_delete k) s session_id.

Definition txn_scan_prefix (s : Server W T) (session_id : option Z) (p : key) : result string (list kvrow) :=
  match txn_of s session_id with
  | Some txn => kt_scan_prefix (store s) txn p
  | None => ks_scan_prefix (store s) p
  end.
Definition txn_snapshot_scan_prefix (s : Server W T) (session_id : option Z) (p : key)
    : result string (list kvrow) :=
  match txn_of s session_id with
  | Some txn => kt_snapshot_scan_prefix (store s) txn p
  | None => ks_scan_prefix (store s) p
  end.
Definition txn_scan_range (s : Server W T) (session_id : option Z) (r : RangeScan)
    : result string (list kvrow) :=
  match txn_of s session_id with
  | Some txn => kt_scan_range (store s) txn (rs_start r) (rs_end r) (rs_limit r) (rs_reverse r)
  | None => ks_scan_range (store s) (rs_start r) (rs_end r) (rs_limit r) (rs_reverse r)
  end.
Definition txn_snapshot_scan_range (s : Server W T) (session_id : option Z) (r : RangeScan)
    : result string (list kvrow) :=
  match txn_of s session_id with
  | Some txn => kt_snapshot_scan_range (store s) txn (rs_start r) (rs_end r) (rs_limit r) (rs_reverse r)
  | None => ks_scan_range (store s) (rs_start r) (rs_end r) (rs_limit r) (rs_reverse r)
  end.

(** A write as a step of a computation; [e] is mapped to code XX000. *)
Definition writes (f : Server W T -> result string (Server W T)) : Cmd W T unit := fun s =>
  match f s.1 with
  | Ok server => (Ok tt, (server, s.2))
  | r => (coded "XX000" (r ≫= fun _ => Ok tt), s)
  end.

(** ** Visible rows *)

(** The cells of a row in the first layout. *)
Definition read_legacy_row (get : key -> result string (option (list byte)))
    (database_name schema_name : string) (schema : TableSchema) (pk_value : ColumnValue)
    : PgWireResult RowMap :=
  fold_m (fun row column =>
    k ← cell_key database_name schema_name (table_name schema) (col_name column) pk_value;
    value ← coded "XX000" (get k);
    decoded ← (match value with
               | Some bytes => decode_cell_value (data_type column) bytes
               | None => Ok Null
               end);
    Ok (<[col_name column := decoded]> row)) ∅ (columns schema).

Definition read_visible_row_at (s : Server W T) (session_id : option Z)
    (database_name schema_name : string) (schema : TableSchema) (pk_value : ColumnValue)
    : PgWireResult (option RowMap) :=
  let v2_key := row_key (table_id schema) (table_epoch schema) pk_value in
  let read := if use_consistent_read s session_id then txn_snapshot_get s session_id
              else txn_get s session_id in
  let has_active_txn := match txn_of s session_id with Some _ => true | None => false end in
  if has_active_txn && txn_has_pending_key s session_id v2_key then
    bytes ← coded "XX000" (txn_get s session_id v2_key);
    match bytes with
    | Some bytes => Some <$> decode_row_record schema bytes
    | None => Ok None
    end
  else
    v2_value ← coded "XX000" (read v2_key);
    match v2_value with
    | Some bytes => Some <$> decode_row_record schema bytes
    | None =>
        marker ← row_marker_key database_name schema_name (table_name schema) pk_value;
        exists_ ← coded "XX000" (read marker);
        match exists_ with
        | None => Ok None
        | Some _ => Some <$> read_legacy_row read database_name schema_name schema pk_value
        end
    end.

Definition ensure_row_write_not_stale (s : Server W T) (session_id : option Z) (schema : TableSchema)
    (pk_value : ColumnValue) : PgWireResult unit :=
  if negb (is_repeatable_read_transaction s session_id) then Ok tt
  else
    let k := row_key (table_id schema) (table_epoch schema) pk_value in
    if txn_has_pending_key s session_id k then Ok tt
    else
      snapshot ← coded "XX000" (txn_snapshot_get s session_id k);
      latest ← coded "XX000" (ks_get (store s) k);
      if bool_decide (snapshot = latest) then Ok tt
      else user_error "40001" "could not serialize access due to concurrent update".
End Txn.

(** Over the storage engine the check for concurrent updates never fires: the
    engine's transaction has no snapshot reads of its own, so "the row as it was when
    the transaction began" is read from the live table and always equals the latest
    row.  [ensure_row_write_not_stale] answers [Ok] for every session, row and
    interleaving of commits. *)
Theorem engine_write_never_stale `{EngineStoreLaws W} (s : Server W KvEngineTransaction)
    (session_id : option Z) (schema : TableSchema) (pk_value : ColumnValue) :
  ensure_row_write_not_stale s session_id schema pk_value = Ok tt.
Proof.
  unfold ensure_row_write_not_stale. destruct (negb _); [done|].
  set (k := row_key _ _ _). unfold txn_has_pending_key, txn_snapshot_get.
  destruct (txn_of s session_id) as [txn|].
  - cbn [kt_has_pending_key kt_snapshot_get engine_transaction engine_snapshot kt_get ks_get engine_store].
    unfold et_has_pending_key, et_get, es_get. destruct (et_pending txn !! k) as [o|]; [done|].
    rewrite engine_get. cbn. by rewrite bool_decide_eq_true_2.
  - rewrite law_ks_get. cbn. by rewrite bool_decide_eq_true_2.
Qed.

Lemma engine_write_never_stale_witness :
  let s : Server kvmap KvEngineTransaction :=
    set_store {[ row_key 7 1 (Int32 1) := [x09] ]} (new_server ∅ MySql) in
  ensure_row_write_not_stale s (Some 1) (sample_schema []) (Int32 1) = Ok tt.
Proof. intros s. apply (engine_write_never_stale s). Defined.
