(* ===== verification/Session.v ===== *)
(** * Sessions and their transactions

    src/src/core/server/context_session.rs (BEGIN, COMMIT, ROLLBACK, the implicit commit
    of MySQL, autocommit, cancellation) and the savepoint and isolation commands of
    src/src/core/server/transactions.rs, with the loop of [run_query_with_format] over a
    query's statements (src/src/core/server/search_path.rs).

    A server keeps four maps and sets by session beside the transactions; [Bookkept]
    says how they belong together.  [run_session] runs the commands of any number of
    sessions one after the other. *)

From S2P Require Import Prelude BTree Float Types Values Text Mode KeyCodec LegacyCodec RowCodec KvStore Stores.
From S2P Require Import Server.
From S2P Require MySqlLocks.

(** ** Isolation levels and metadata *)

Definition as_pg_str (isolation : TransactionIsolation) : string :=
  match isolation with
  | ReadCommitted => "read committed"
  | RepeatableRead => "repeatable read"
  | Serializable => "serializable"
  end.

Definition parse_transaction_isolation (raw : string) : option TransactionIsolation :=
  let text := replace_byte x5f x20 (lower (trim (trim_end_matches (is_byte x3b) (trim (as_bytes raw))))) in
  if has text "read committed" then Some ReadCommitted
  else if has text "repeatable read" then Some RepeatableRead
  else if has text "serializable" then Some Serializable
  else None.

Definition METADATA_TRANSACTION_ISOLATION : string := "transaction_isolation".
Definition MYSQL_AUTOCOMMIT_METADATA : string := "mysql.autocommit".

(** [dialect::profile(mode).transaction.default_isolation]. *)
Definition default_transaction_isolation (mode : GatewayMode) : TransactionIsolation :=
  match mode with Postgres => ReadCommitted | MySql => RepeatableRead end.

(** What a statement answers; rows are not looked at here. *)
Inductive Response : Type :=
  | CommandComplete (tag : string)
  | EmptyQuery
  | Rows.

(** The statements of [is_transaction_control_statement]. *)
Inductive TransactionStatement : Type :=
  | StartTransaction
  | Commit
  | Rollback (savepoint : option string)
  | Savepoint (name : string)
  | ReleaseSavepoint (name : string).

(** ** The handlers *)

Section Handlers.
Context {W T : Type} `{KvStoreApi W T, KvTransaction T W}.

Definition is_mysql (s : Server W T) : bool := match mode s with MySql => true | Postgres => false end.

Definition mark_cancelled (id : Z) : Cmd W T unit :=
  modify (fun s => set_cancelled ({[id]} ∪ cancelled_sessions s) s).

Definition check_cancelled (id : Z) : Cmd W T unit :=
  cancelled ← gets cancelled_sessions;
  if bool_decide (id ∈ (cancelled : gset Z)) then
    _ ← modify (fun s => set_cancelled (cancelled_sessions s ∖ {[id]}) s);
    cmd_fail "57014" "canceling statement due to user request"
  else mret tt.

Definition has_active_transaction : Cmd W T bool :=
  id ← session_id; gets (fun s => bool_decide (is_Some (active_transactions s !! id))).

Definition mysql_autocommit_disabled : Cmd W T bool :=
  mysql ← gets is_mysql;
  value ← client_gets (fun c => metadata c !! MYSQL_AUTOCOMMIT_METADATA);
  mret ((mysql : bool) && match value with
    | Some v => str_is (as_bytes v) "0" || eq_ignore_ascii_case (as_bytes v) (as_bytes "off")
    | None => false
    end).

(** The four maps and sets forget the session; the transaction is returned. *)
Definition forget_session (id : Z) (s : Server W T) : Server W T :=
  {| store := store s; mode := mode s; active_transactions := active_transactions s;
     active_transaction_snapshots := delete id (active_transaction_snapshots s);
     active_transaction_isolations := delete id (active_transaction_isolations s);
     active_transaction_read_only := active_transaction_read_only s ∖ {[id]};
     active_mysql_current_reads := active_mysql_current_reads s ∖ {[id]};
     active_mysql_locks := active_mysql_locks s; cancelled_sessions := cancelled_sessions s;
     mvcc_clock := mvcc_clock s |}.

Definition take_transaction (id : Z) : Cmd W T (option T) :=
  txn ← gets (fun s => active_transactions s !! id);
  _ ← modify (fun s => set_transactions (delete id (active_transactions s)) s);
  mret txn.

Definition release_session_table_locks (id : Z) : Cmd W T unit :=
  modify (fun s => set_locks (MySqlLocks.release_session_table_locks (active_mysql_locks s) id) s).
Definition release_session_statement_locks (id : Z) : Cmd W T unit :=
  modify (fun s => set_locks (MySqlLocks.release_session_statement_locks (active_mysql_locks s) id) s).

(** [txn.commit()]; the store keeps what was written before an error. *)
Definition commit_transaction (txn : T) : Cmd W T unit := fun s =>
  let '(r, w, _) := kt_commit (store s.1) txn in
  (coded "40001" r, (set_store w s.1, s.2)).

(** What BEGIN stores for a session. *)
Definition open_session (id : Z) (txn : T) (isolation : TransactionIsolation) (read_only : bool)
    (s : Server W T) : Server W T :=
  {| store := store s; mode := mode s; active_transactions := <[id := txn]> (active_transactions s);
     active_transaction_snapshots := <[id := mvcc_clock s]> (active_transaction_snapshots s);
     active_transaction_isolations := <[id := isolation]> (active_transaction_isolations s);
     active_transaction_read_only :=
       if read_only then {[id]} ∪ active_transaction_read_only s
       else active_transaction_read_only s ∖ {[id]};
     active_mysql_current_reads := active_mysql_current_reads s;
     active_mysql_locks := active_mysql_locks s; cancelled_sessions := cancelled_sessions s;
     mvcc_clock := mvcc_clock s |}.

Definition note_read_only (id : Z) (read_only : bool) : Cmd W T unit :=
  if read_only then
    modify (fun s => {| store := store s; mode := mode s; active_transactions := active_transactions s;
      active_transaction_snapshots := active_transaction_snapshots s;
      active_transaction_isolations := active_transaction_isolations s;
      active_transaction_read_only := {[id]} ∪ active_transaction_read_only s;
      active_mysql_current_reads := active_mysql_current_reads s;
      active_mysql_locks := active_mysql_locks s; cancelled_sessions := cancelled_sessions s;
      mvcc_clock := mvcc_clock s |})
  else mret tt.

(** BEGIN inside a transaction, in MySQL mode: the transaction is committed. *)
Definition commit_before_begin (id : Z) : Cmd W T unit :=
  txn ← take_transaction id;
  _ ← release_session_table_locks id;
  _ ← modify (forget_session id);
  _ ← (match txn with Some txn => commit_transaction txn | None => mret tt end);
  set_transaction_status TS.Idle.

(** The rest of BEGIN: go on in the transaction there is, or open one. *)
Definition begin_or_continue (id : Z) (isolation : option TransactionIsolation) (read_only : bool)
    : Cmd W T (list Response) :=
  active ← has_active_transaction;
  if (active : bool) then
    _ ← note_read_only id read_only;
    _ ← set_transaction_status TS.Transaction;
    mret [CommandComplete "BEGIN"]
  else
    w ← gets store;
    txn ← cmd_lift (coded "XX000" (ks_begin_transaction w));
    stored ← client_gets (fun c => metadata c !! METADATA_TRANSACTION_ISOLATION);
    mode ← gets mode;
    let isolation :=
      default (default_transaction_isolation mode)
        (match isolation with
         | Some i => Some i
         | None => stored ≫= parse_transaction_isolation
         end) in
    _ ← modify (open_session id txn isolation read_only);
    _ ← metadata_insert METADATA_TRANSACTION_ISOLATION (as_pg_str isolation);
    _ ← set_transaction_status TS.Transaction;
    mret [CommandComplete "BEGIN"].

Definition begin_session_transaction_with_options (isolation : option TransactionIsolation)
    (read_only : bool) : Cmd W T (list Response) :=
  id ← session_id;
  active ← has_active_transaction;
  mysql ← gets is_mysql;
  _ ← (if (active : bool) && mysql then commit_before_begin id else mret tt);
  begin_or_continue id isolation read_only.

Definition begin_session_transaction : Cmd W T (list Response) :=
  begin_session_transaction_with_options None false.

Definition restart_mysql_autocommit_transaction : Cmd W T unit :=
  disabled ← mysql_autocommit_disabled;
  if (disabled : bool) then _ ← begin_session_transaction; mret tt else mret tt.

(** The session's transaction and bookkeeping are taken out and its locks released:
    the first half of COMMIT, ROLLBACK and the implicit commit.  Here it is one step;
    [SessionSteps] runs it mutex by mutex, with other sessions in between. *)
Definition detach_session (id : Z) : Cmd W T (option T) :=
  txn ← take_transaction id;
  _ ← modify (forget_session id);
  _ ← release_session_table_locks id;
  mret txn.

(** [match txn.commit().await]: an error leaves the client in the error state. *)
Definition commit_or_fail (txn : T) : Cmd W T unit := fun s =>
  match commit_transaction txn s with
  | (Ok _, s) => (Ok tt, s)
  | (r, s) => (r, (set_transaction_status TS.Error s).2)
  end.

Definition commit_session_transaction : Cmd W T (list Response) :=
  id ← session_id;
  txn ← detach_session id;
  _ ← (match txn with Some txn => commit_or_fail txn | None => mret tt end);
  _ ← set_transaction_status TS.Idle;
  _ ← restart_mysql_autocommit_transaction;
  mret [CommandComplete "COMMIT"].

(** [txn.rollback()] drops what the transaction staged, and the transaction goes. *)
Definition rollback_session_transaction : Cmd W T (list Response) :=
  id ← session_id;
  _ ← detach_session id;
  _ ← set_transaction_status TS.Idle;
  _ ← restart_mysql_autocommit_transaction;
  mret [CommandComplete "ROLLBACK"].

Definition rollback_session_by_id (id : Z) : Cmd W T unit :=
  _ ← detach_session id; mret tt.

Definition implicit_commit_active_transaction : Cmd W T unit :=
  id ← session_id;
  txn ← detach_session id;
  _ ← (match txn with Some txn => commit_transaction txn | None => mret tt end);
  set_transaction_status TS.Idle.

(** [SET autocommit] of [handle_session_command]. *)
Definition set_autocommit (enabled : bool) : Cmd W T (list Response) :=
  _ ← metadata_insert MYSQL_AUTOCOMMIT_METADATA (if enabled then "1" else "0")%string;
  active ← has_active_transaction;
  _ ← (if enabled then
         if (active : bool) then _ ← commit_session_transaction; mret tt else mret tt
       else if (active : bool) then mret tt else _ ← begin_session_transaction; mret tt);
  mret [CommandComplete "SET"].

Definition is_active_transaction_read_only : Cmd W T bool :=
  id ← session_id; gets (fun s => bool_decide (id ∈ active_transaction_read_only s)).

(** An operation on the session's transaction that leaves another in its place. *)
Definition on_session_transaction (outside : string) (code : string) (f : T -> result string T)
    (tag : string) : Cmd W T (list Response) :=
  id ← session_id;
  txn ← gets (fun s => active_transactions s !! id);
  match txn with
  | None => cmd_fail "25P01" outside
  | Some txn =>
      txn ← cmd_lift (coded code (f txn));
      _ ← modify (fun s => set_transactions (<[id := txn]> (active_transactions s)) s);
      _ ← set_transaction_status TS.Transaction;
      mret [CommandComplete tag]
  end.

Definition savepoint_session_transaction (name : string) : Cmd W T (list Response) :=
  on_session_transaction "SAVEPOINT can only be used in transaction blocks" "0A000" (kt_savepoint name)
    "SAVEPOINT".
Definition rollback_to_session_savepoint (name : string) : Cmd W T (list Response) :=
  on_session_transaction "ROLLBACK TO SAVEPOINT can only be used in transaction blocks" "3B001"
    (kt_rollback_to_savepoint name) "ROLLBACK".
Definition release_session_savepoint (name : string) : Cmd W T (list Response) :=
  on_session_transaction "RELEASE SAVEPOINT can only be used in transaction blocks" "3B001"
    (kt_release_savepoint name) "RELEASE".

Definition set_session_transaction_isolation (isolation : TransactionIsolation) : Cmd W T (list Response) :=
  id ← session_id;
  _ ← metadata_insert METADATA_TRANSACTION_ISOLATION (as_pg_str isolation);
  active ← has_active_transaction;
  _ ← (if (active : bool) then
         modify (fun s => {| store := store s; mode := mode s;
           active_transactions := active_transactions s;
           active_transaction_snapshots := <[id := mvcc_clock s]> (active_transaction_snapshots s);
           active_transaction_isolations := <[id := isolation]> (active_transaction_isolations s);
           active_transaction_read_only := active_transaction_read_only s;
           active_mysql_current_reads := active_mysql_current_reads s;
           active_mysql_locks := active_mysql_locks s; cancelled_sessions := cancelled_sessions s;
           mvcc_clock := mvcc_clock s |})
       else mret tt);
  mret [EmptyQuery].

(** [handle_transaction_statement]. *)
Definition handle_transaction_statement (stmt : TransactionStatement) : Cmd W T Response :=
  let first (tag : string) (m : Cmd W T (list Response)) : Cmd W T Response :=
    r ← m; mret (default (CommandComplete tag) (head r)) in
  match stmt with
  | StartTransaction => first "BEGIN" begin_session_transaction
  | Commit => first "COMMIT" commit_session_transaction
  | Rollback (Some name) => first "ROLLBACK" (rollback_to_session_savepoint name)
  | Rollback None => first "ROLLBACK" rollback_session_transaction
  | Savepoint name => first "SAVEPOINT" (savepoint_session_transaction name)
  | ReleaseSavepoint name => first "RELEASE" (release_session_savepoint name)
  end%string.

(** ** The statements of a query *)

(** What the loop of [run_query_with_format] asks of a statement: its kind, and the
    planner and executor behind it. *)
Record StatementOps : Type := {
  st_transaction : option TransactionStatement;
  st_is_query : bool;
  st_ddl_implicit_commit : bool;
  st_locking_read : bool;
  st_plan_error : option pg_error;                     (** [plan_statement] fails *)
  st_is_write : bool;                                  (** [is_write_plan] *)
  st_acquire_locks : Cmd W T unit;                     (** [acquire_plan_table_locks] *)
  st_execute : option Z -> Cmd W T Response;           (** [execute_plan] *)
}.

Definition is_unsupported_error (e : pg_error) : bool := String.eqb (err_code e) "0A000".

(** [let _ = command.await]. *)
Definition ignore_result {A} (m : Cmd W T A) : Cmd W T unit := fun s => (Ok tt, (m s).2).

(** Runs [m] and keeps its result as a value, as [let result = m.await]. *)
Definition try_cmd {A} (m : Cmd W T A) : Cmd W T (PgWireResult A) := fun s => (Ok (m s).1, (m s).2).

Definition run_planned (stmt : StatementOps) (mysql : bool) (responses : list Response)
    : Cmd W T (list Response) :=
  id ← session_id;
  read_only ← is_active_transaction_read_only;
  if (read_only : bool) && st_is_write stmt then
    _ ← set_transaction_status TS.Error;
    cmd_fail "25006" "cannot execute write statement in a read-only transaction"
  else
    let mysql_locking_plan := mysql && (st_locking_read stmt || st_is_write stmt) in
    hold_mysql_locks ← has_active_transaction;
    _ ← (if mysql_locking_plan then
           _ ← st_acquire_locks stmt; enter_mysql_current_read id
         else mret tt);
    execute_result ← try_cmd (st_execute stmt (Some id));
    _ ← (if mysql_locking_plan then
           _ ← exit_mysql_current_read id;
           if (hold_mysql_locks : bool) then release_session_statement_locks id
           else release_session_table_locks id
         else mret tt);
    response ← cmd_lift execute_result;
    _ ← (if mysql && st_ddl_implicit_commit stmt then restart_mysql_autocommit_transaction else mret tt);
    mret (responses ++ [response]).

(** The arms for a planning error; [inl] is an early return. *)
Definition run_plan_error (stmt : StatementOps) (e : pg_error) (implicit_transaction : bool)
    (slow_path : Cmd W T (list Response)) : Cmd W T (list Response) :=
  active ← has_active_transaction;
  if is_unsupported_error e then
    if implicit_transaction then
      _ ← set_transaction_status TS.Error;
      _ ← ignore_result rollback_session_transaction;
      cmd_fail "0A000" "slow-path statements are not supported inside pg_gateway implicit multi-statement transactions yet"
    else if (active : bool) && negb (st_is_query stmt) then
      _ ← set_transaction_status TS.Error;
      cmd_fail "0A000" "slow-path statements are not supported inside pg_gateway transactions yet"
    else slow_path
  else
    _ ← (if (active : bool) || implicit_transaction then set_transaction_status TS.Error else mret tt);
    _ ← (if implicit_transaction then ignore_result rollback_session_transaction else mret tt);
    cmd_lift (Err e).

(** The loop; [inr] is the [return] of the slow path. *)
Fixpoint run_statements (mysql implicit_transaction : bool) (slow_path : Cmd W T (list Response))
    (responses : list Response) (statements : list StatementOps)
    : Cmd W T (list Response + list Response) :=
  match statements with
  | [] => mret (inl responses)
  | stmt :: rest =>
      id ← session_id;
      _ ← check_cancelled id;
      active ← has_active_transaction;
      _ ← (if mysql && st_ddl_implicit_commit stmt && active then implicit_commit_active_transaction
           else mret tt);
      match st_transaction stmt with
      | Some handle =>
          r ← handle_transaction_statement handle;
          run_statements mysql implicit_transaction slow_path (responses ++ [r]) rest
      | None =>
          match st_plan_error stmt with
          | None =>
              responses ← run_planned stmt mysql responses;
              run_statements mysql implicit_transaction slow_path responses rest
          | Some e =>
              r ← run_plan_error stmt e implicit_transaction slow_path;
              mret (inr r)
          end
      end
  end.

(** [run_query_with_format] from the parsed statements on. *)
Definition run_query (slow_path : Cmd W T (list Response)) (statements : list StatementOps)
    : Cmd W T (list Response) :=
  mysql ← gets is_mysql;
  in_transaction ← has_active_transaction;
  let implicit_transaction := (1 <? length statements)%nat && negb in_transaction &&
    negb (existsb (fun stmt => bool_decide (is_Some (st_transaction stmt))) statements) in
  _ ← (if implicit_transaction then _ ← begin_session_transaction; mret tt else mret tt);
  r ← run_statements mysql implicit_transaction slow_path [] statements;
  match r with
  | inr responses => mret responses
  | inl responses =>
      _ ← (if implicit_transaction then
             committed ← try_cmd commit_session_transaction;
             match committed with
             | Ok _ => mret tt
             | e => _ ← ignore_result rollback_session_transaction; cmd_lift (e ≫= fun _ => Ok tt)
             end
           else mret tt);
      mret (match responses with [] => [EmptyQuery] | _ => responses end)
  end.
End Handlers.
Arguments StatementOps : clear implicits.

(** ** What a computation keeps

    [keeps id R m]: run by the client of session [id], [m] ends in a state that [R]
    relates to the first one, whether it succeeds or fails. *)

Definition keeps {W T A} (id : Z) (R : relation (Server W T * Client)) (m : Cmd W T A) : Prop :=
  forall s, client_pid s.2 = id -> R s (m s).2.

(** Relations to reason with: no computation changes whose client it is. *)
Class Frame {W T} (R : relation (Server W T * Client)) : Prop := {
  frame_preorder : PreOrder R;
  frame_pid : forall s s', R s s' -> client_pid s'.2 = client_pid s.2;
}.
#[export] Existing Instance frame_preorder.

Section Keeps.
Context {W T : Type} (id : Z) (R : relation (Server W T * Client)) `{!Frame R}.

Lemma keeps_ret {A} (a : A) : keeps id R (mret a).
Proof. intros s _. apply PreOrder_Reflexive. Qed.
Lemma keeps_lift {A} (r : PgWireResult A) : keeps id R (cmd_lift r).
Proof. intros s _. apply PreOrder_Reflexive. Qed.
Lemma keeps_gets {A} (f : Server W T -> A) : keeps id R (gets f).
Proof. intros s _. apply PreOrder_Reflexive. Qed.
Lemma keeps_client_gets {A} (f : Client -> A) : keeps id R (client_gets f).
Proof. intros s _. apply PreOrder_Reflexive. Qed.

Lemma keeps_bind {A B} (m : Cmd W T A) (k : A -> Cmd W T B) :
  keeps id R m -> (forall a, keeps id R (k a)) -> keeps id R (mbind k m).
Proof.
  intros Hm Hk s Hid. unfold mbind, cmd_bind. specialize (Hm s Hid).
  pose proof (frame_pid _ _ Hm) as Hpid.
  destruct (m s) as [[a|e| |] s']; cbn in *; [|done..].
  etransitivity; [exact Hm|]. apply Hk. congruence.
Qed.

(** [session_id] reads the client's own number. *)
Lemma keeps_session_id {A} (k : Z -> Cmd W T A) : keeps id R (k id) -> keeps id R (session_id ≫= k).
Proof. intros Hk s Hid. unfold session_id, mbind, cmd_bind. cbn. rewrite Hid. by apply Hk. Qed.

Lemma keeps_active {A} (k : bool -> Cmd W T A) :
  (forall s, client_pid s.2 = id -> is_Some (active_transactions s.1 !! id) -> R s (k true s).2) ->
  keeps id R (k false) -> keeps id R (has_active_transaction ≫= k).
Proof.
  intros Ht Hf [s c] Hid. unfold has_active_transaction, session_id, mbind, cmd_bind. cbn in *.
  rewrite Hid. destruct (bool_decide _) eqn:E; [|by apply Hf]. apply bool_decide_eq_true in E. by apply Ht.
Qed.

Lemma keeps_if {A} (b : bool) (m n : Cmd W T A) :
  keeps id R m -> keeps id R n -> keeps id R (if b then m else n).
Proof. by destruct b. Qed.

Lemma keeps_try {A} (m : Cmd W T A) : keeps id R m -> keeps id R (try_cmd m).
Proof. intros Hm s. apply Hm. Qed.
Lemma keeps_ignore {A} (m : Cmd W T A) : keeps id R m -> keeps id R (ignore_result m).
Proof. intros Hm s. apply Hm. Qed.
End Keeps.

Create HintDb keeps.

(** Walks a computation down to the steps that need a word of their own. *)
Ltac keep :=
  repeat (cbn beta iota zeta; first
    [ match goal with |- forall _, _ => intro | |- Frame _ => apply _ end
    | solve [eauto with keeps nocore]
    | match goal with
      | |- keeps _ _ (mbind _ session_id) => apply keeps_session_id
      | |- keeps _ _ (mbind _ _) => apply keeps_bind
      | |- keeps _ _ (mret _) => apply keeps_ret
      | |- keeps _ _ (cmd_lift _) => apply keeps_lift
      | |- keeps _ _ (gets _) => apply keeps_gets
      | |- keeps _ _ (client_gets _) => apply keeps_client_gets
      | |- keeps _ _ (try_cmd _) => apply keeps_try
      | |- keeps _ _ (ignore_result _) => apply keeps_ignore
      | |- keeps _ _ (match ?x with _ => _ end) => destruct x
      | |- keeps _ _ has_active_transaction => unfold has_active_transaction
      | |- keeps _ _ (cmd_fail _ _) => unfold cmd_fail
      end ]).

(** The steps of the handlers a relation has to allow for; the handlers follow. *)
Class Respects {W T} `{KvStoreApi W T, KvTransaction T W} (id : Z)
    (R : relation (Server W T * Client)) : Prop := {
  respects_frame : Frame R;
  keeps_status status : keeps id R (set_transaction_status status);
  keeps_metadata name value : keeps id R (metadata_insert name value);
  keeps_enter_read : keeps id R (enter_mysql_current_read id);
  keeps_exit_read : keeps id R (exit_mysql_current_read id);
  keeps_release : keeps id R (release_session_table_locks id);
  keeps_release_statement : keeps id R (release_session_statement_locks id);
  keeps_uncancel : keeps id R (modify (fun s => set_cancelled (cancelled_sessions s ∖ {[id]}) s));
  keeps_commit txn : keeps id R (commit_transaction txn);
  keeps_detach : keeps id R (detach_session id);
  keeps_commit_before_begin : keeps id R (commit_before_begin id);
  keeps_begin_or_continue isolation read_only : keeps id R (begin_or_continue id isolation read_only);
  keeps_on_session outside code f tag : keeps id R (on_session_transaction outside code f tag);
  keeps_set_isolation isolation : keeps id R (set_session_transaction_isolation isolation);
}.
#[export] Existing Instance respects_frame.
#[export] Hint Resolve keeps_status keeps_metadata keeps_enter_read keeps_exit_read keeps_release
  keeps_release_statement keeps_uncancel keeps_commit keeps_detach keeps_commit_before_begin
  keeps_begin_or_continue keeps_on_session keeps_set_isolation : keeps.

Section Handled.
Context {W T : Type} `{KvStoreApi W T, KvTransaction T W}.
Context (id : Z) (R : relation (Server W T * Client)) `{!Respects id R}.

Lemma keeps_begin isolation read_only :
  keeps id R (begin_session_transaction_with_options (W := W) (T := T) isolation read_only).
Proof. unfold begin_session_transaction_with_options. keep. Qed.
#[local] Hint Resolve keeps_begin : keeps.

Lemma keeps_restart : keeps id R (restart_mysql_autocommit_transaction (W := W) (T := T)).
Proof. unfold restart_mysql_autocommit_transaction, mysql_autocommit_disabled, begin_session_transaction. keep. Qed.
#[local] Hint Resolve keeps_restart : keeps.

Lemma keeps_commit_or_fail txn : keeps id R (commit_or_fail (W := W) (T := T) txn).
Proof.
  intros s Hid. unfold commit_or_fail. pose proof (keeps_commit txn s Hid) as Hc.
  destruct (commit_transaction txn s) as [[r|e| |] s']; try exact Hc.
  all: etransitivity; [exact Hc|]; apply (keeps_status TS.Error s'); cbn in *;
    rewrite (frame_pid _ _ Hc); exact Hid.
Qed.
#[local] Hint Resolve keeps_commit_or_fail : keeps.

Lemma keeps_commit_session : keeps id R (commit_session_transaction (W := W) (T := T)).
Proof. unfold commit_session_transaction. keep. Qed.
Lemma keeps_rollback_session : keeps id R (rollback_session_transaction (W := W) (T := T)).
Proof. unfold rollback_session_transaction. keep. Qed.
Lemma keeps_implicit_commit : keeps id R (implicit_commit_active_transaction (W := W) (T := T)).
Proof. unfold implicit_commit_active_transaction. keep. Qed.
#[local] Hint Resolve keeps_commit_session keeps_rollback_session keeps_implicit_commit : keeps.

Lemma keeps_set_autocommit enabled : keeps id R (set_autocommit (W := W) (T := T) enabled).
Proof. unfold set_autocommit, begin_session_transaction. keep. Qed.

Lemma keeps_check_cancelled : keeps id R (check_cancelled (W := W) (T := T) id).
Proof. unfold check_cancelled, cmd_fail. keep. Qed.

Lemma keeps_transaction_statement stmt :
  keeps id R (handle_transaction_statement (W := W) (T := T) stmt).
Proof.
  destruct stmt as [| |[name|]|name|name]; unfold handle_transaction_statement,
    begin_session_transaction, rollback_to_session_savepoint, savepoint_session_transaction,
    release_session_savepoint; keep.
Qed.
#[local] Hint Resolve keeps_check_cancelled keeps_transaction_statement : keeps.

(** A statement whose executor and lock requests keep [R] too. *)
Definition keeps_statement (stmt : StatementOps W T) : Prop :=
  keeps id R (st_acquire_locks stmt) /\ forall session, keeps id R (st_execute stmt session).

Lemma keeps_run_planned stmt mysql responses : keeps_statement stmt ->
  keeps id R (run_planned stmt mysql responses).
Proof. intros [Hl He]. unfold run_planned, is_active_transaction_read_only. keep. Qed.

Lemma keeps_run_plan_error stmt e implicit slow_path : keeps id R slow_path ->
  keeps id R (run_plan_error (W := W) (T := T) stmt e implicit slow_path).
Proof. intros Hs. unfold run_plan_error, cmd_fail. keep. Qed.

#[local] Hint Resolve keeps_run_planned keeps_run_plan_error : keeps.

Lemma keeps_run_statements mysql implicit slow_path statements : keeps id R slow_path ->
  Forall keeps_statement statements ->
  forall responses, keeps id R (run_statements (W := W) (T := T) mysql implicit slow_path responses statements).
Proof.
  intros Hs Hst. induction Hst as [|stmt rest Hstmt Hst IH]; intros responses; [apply keeps_ret, _|].
  cbn [run_statements]. keep.
Qed.

Lemma keeps_run_query slow_path statements : keeps id R slow_path ->
  Forall keeps_statement statements -> keeps id R (run_query (W := W) (T := T) slow_path statements).
Proof.
  intros Hs Hst. unfold run_query, begin_session_transaction.
  assert (forall mysql implicit responses, keeps id R
    (run_statements mysql implicit slow_path responses statements)) by (intros; by apply keeps_run_statements).
  keep.
Qed.
End Handled.

(** *** The bookkeeping of the sessions *)

(** A session has an isolation level and a snapshot exactly while it has a
    transaction, and only such a session can be marked read only. *)
Definition Bookkept {W T} (s : Server W T) : Prop :=
  forall id,
    (is_Some (active_transaction_isolations s !! id) <-> is_Some (active_transactions s !! id)) /\
    (is_Some (active_transaction_snapshots s !! id) <-> is_Some (active_transactions s !! id)) /\
    (id ∈ active_transaction_read_only s -> is_Some (active_transactions s !! id)).

Definition books {W T} : relation (Server W T * Client) := fun s s' =>
  client_pid s'.2 = client_pid s.2 /\ (Bookkept s.1 -> Bookkept s'.1).

#[export] Instance books_frame {W T} : Frame (@books W T).
Proof.
  split; [|by intros s s' []]. split; [by intros s|].
  intros s1 s2 s3 [Hp H12] [Hq H23]. split; [congruence|auto].
Qed.

(** Two servers that differ in nothing the bookkeeping mentions. *)
Lemma bookkept_same {W T} (s s' : Server W T) :
  active_transactions s' = active_transactions s ->
  active_transaction_snapshots s' = active_transaction_snapshots s ->
  active_transaction_isolations s' = active_transaction_isolations s ->
  active_transaction_read_only s' = active_transaction_read_only s ->
  Bookkept s -> Bookkept s'.
Proof. intros H1 H2 H3 H4 Hb id. rewrite H1, H2, H3, H4. apply Hb. Qed.

Section Books.
Context {W T : Type} `{KvStoreApi W T, KvTransaction T W}.
Context (id : Z).

Lemma books_modify (f : Server W T -> Server W T) :
  (forall s, Bookkept s -> Bookkept (f s)) -> keeps id books (modify f).
Proof. intros Hf [s c] _. split; [done|]. apply Hf. Qed.

Lemma books_status status : keeps (W := W) (T := T) id books (set_transaction_status status).
Proof. by intros [s c] _. Qed.
Lemma books_metadata name value : keeps (W := W) (T := T) id books (metadata_insert name value).
Proof. by intros [s c] _. Qed.
Lemma books_current_read j : keeps (W := W) (T := T) id books (enter_mysql_current_read j).
Proof. apply books_modify. intros s. by apply bookkept_same. Qed.
Lemma books_exit_read j : keeps (W := W) (T := T) id books (exit_mysql_current_read j).
Proof. apply books_modify. intros s. by apply bookkept_same. Qed.
Lemma books_release j : keeps (W := W) (T := T) id books (release_session_table_locks j).
Proof. apply books_modify. intros s. by apply bookkept_same. Qed.
Lemma books_release_statement j : keeps (W := W) (T := T) id books (release_session_statement_locks j).
Proof. apply books_modify. intros s. by apply bookkept_same. Qed.

Lemma books_commit txn : keeps id books (commit_transaction (W := W) (T := T) txn).
Proof.
  intros [s c] _. unfold commit_transaction. cbn [fst snd].
  destruct (kt_commit (store s) txn) as [[r w] t']. split; [done|]. by apply bookkept_same.
Qed.

(** Taking the transaction and forgetting the session go together. *)
Lemma bookkept_forget j (s s' : Server W T) :
  active_transactions s' = delete j (active_transactions s) ->
  active_transaction_snapshots s' = delete j (active_transaction_snapshots s) ->
  active_transaction_isolations s' = delete j (active_transaction_isolations s) ->
  active_transaction_read_only s' = active_transaction_read_only s ∖ {[j]} ->
  Bookkept s -> Bookkept s'.
Proof.
  intros H1 H2 H3 H4 Hb k. rewrite H1, H2, H3, H4. destruct (decide (k = j)) as [->|Hk].
  - rewrite !lookup_delete_eq. split; [done|]. split; [done|]. set_solver.
  - rewrite !lookup_delete_ne by done. destruct (Hb k) as (? & ? & ?). set_solver.
Qed.

Lemma books_detach j : keeps id books (detach_session (W := W) (T := T) j).
Proof.
  intros [s c] _. unfold detach_session, take_transaction, mbind, cmd_bind. cbn.
  split; [done|]. by apply (bookkept_forget j).
Qed.

Lemma books_commit_before_begin j : keeps id books (commit_before_begin (W := W) (T := T) j).
Proof.
  intros [s c] Hid. unfold commit_before_begin, take_transaction, mbind, cmd_bind. cbn.
  match goal with |- context [(match _ with Some txn => commit_transaction txn | None => _ end) ?x] =>
    assert (books (s, c) x) as Hx by (split; [done|]; by apply (bookkept_forget j));
    set (st := x) in * end.
  destruct (active_transactions s !! j) as [txn|]; [|exact Hx].
  pose proof (books_commit txn st Hid) as Hc.
  destruct (commit_transaction txn st) as [[r|e| |] s']; exact (transitivity Hx Hc).
Qed.

Lemma bookkept_open j txn isolation (read_only : bool) (s : Server W T) :
  Bookkept s -> Bookkept (open_session j txn isolation read_only s).
Proof.
  intros Hb k. cbn. destruct (Hb k) as (H1 & H2 & H3). destruct (decide (k = j)) as [->|Hk].
  - rewrite !lookup_insert_eq. by repeat split; eauto.
  - rewrite !lookup_insert_ne by done. split; [done|]. split; [done|].
    destruct read_only; set_solver.
Qed.

Lemma books_begin_or_continue isolation read_only :
  keeps id books (begin_or_continue (W := W) (T := T) id isolation read_only).
Proof.
  apply keeps_active.
  - intros [s c] Hid Ha. cbn in Hid, Ha. split; [by destruct read_only|]. intros Hb.
    destruct read_only; [|exact Hb]. intros k. unfold mbind, cmd_bind. cbn. destruct (Hb k) as (H1 & H2 & H3).
    split; [done|]. split; [done|]. intros [->%elem_of_singleton|Hk]%elem_of_union; auto.
  - keep; auto using books_status, books_metadata.
    apply books_modify. intros s. apply bookkept_open.
Qed.

(** The session has a transaction, and goes on with another. *)
Lemma bookkept_replace j txn (s : Server W T) : is_Some (active_transactions s !! j) ->
  Bookkept s -> Bookkept (set_transactions (<[j := txn]> (active_transactions s)) s).
Proof.
  intros Ha Hb k. cbn. destruct (Hb k) as (H1 & H2 & H3).
  destruct (decide (k = j)) as [->|Hk]; [|by rewrite lookup_insert_ne].
  rewrite lookup_insert_eq. naive_solver.
Qed.

Lemma books_on_session outside code f tag :
  keeps id books (on_session_transaction (W := W) (T := T) outside code f tag).
Proof.
  unfold on_session_transaction. apply (keeps_session_id _ _). intros [s c] Hid.
  unfold mbind, cmd_bind. cbn. destruct (active_transactions s !! id) as [txn|] eqn:Ha; [|done].
  destruct (f txn); cbn; [|done..]. split; [done|]. by apply bookkept_replace.
Qed.

Lemma books_set_isolation isolation :
  keeps id books (set_session_transaction_isolation (W := W) (T := T) isolation).
Proof.
  unfold set_session_transaction_isolation. apply (keeps_session_id _ _), (keeps_bind _ _); [apply books_metadata|].
  intros _. apply (keeps_active _ _); [|keep]. intros [s c] _ Ha. split; [done|]. intros Hb k. cbn in Ha.
  unfold mbind, cmd_bind. cbn. destruct (Hb k) as (H1 & H2 & H3). destruct (decide (k = id)) as [->|Hk].
  - rewrite !lookup_insert_eq. naive_solver.
  - by rewrite !lookup_insert_ne by done.
Qed.

#[export] Instance books_respects : Respects (W := W) (T := T) id books.
Proof.
  split; [apply _|auto using books_status, books_metadata, books_current_read, books_exit_read,
    books_release, books_release_statement, books_commit, books_detach, books_commit_before_begin,
    books_begin_or_continue, books_on_session, books_set_isolation..].
  apply books_modify. intros s. by apply bookkept_same.
Qed.
End Books.

(** *** What a session does not touch *)

(** Session [j] is another one, and keeps its transaction, its isolation level and its
    place among the current reads. *)
Definition leaves {W T} (j : Z) : relation (Server W T * Client) := fun s s' =>
  client_pid s'.2 = client_pid s.2 /\
  (client_pid s.2 <> j ->
   active_transactions s'.1 !! j = active_transactions s.1 !! j /\
   active_transaction_isolations s'.1 !! j = active_transaction_isolations s.1 !! j /\
   (j ∈ active_mysql_current_reads s'.1 <-> j ∈ active_mysql_current_reads s.1)).

#[export] Instance leaves_frame {W T} (j : Z) : Frame (@leaves W T j).
Proof.
  split; [|by intros s s' []]. split; [by intros s|].
  intros s1 s2 s3 [Hp H12] [Hq H23]. split; [congruence|]. intros Hj.
  destruct (H12 Hj) as (H1 & H2 & H3). destruct H23 as (-> & -> & ->); [congruence|]. done.
Qed.

Section Leaves.
Context {W T : Type} `{KvStoreApi W T, KvTransaction T W}.
Context (id j : Z) (Hne : id <> j).

Lemma leaves_modify (f : Server W T -> Server W T) :
  (forall s, active_transactions (f s) !! j = active_transactions s !! j /\
    active_transaction_isolations (f s) !! j = active_transaction_isolations s !! j /\
    (j ∈ active_mysql_current_reads (f s) <-> j ∈ active_mysql_current_reads s)) ->
  keeps id (leaves j) (modify f).
Proof. intros Hf [s c] _. split; [done|]. intros _. apply Hf. Qed.

Lemma leaves_commit txn : keeps id (leaves j) (commit_transaction (W := W) (T := T) txn).
Proof.
  intros [s c] _. unfold commit_transaction. cbn [fst snd]. by destruct (kt_commit (store s) txn) as [[r w] t'].
Qed.

Lemma leaves_take k : k <> j -> keeps id (leaves j) (take_transaction (W := W) (T := T) k).
Proof.
  intros Hk. unfold take_transaction. keep. apply leaves_modify. intros s. cbn.
  by rewrite lookup_delete_ne.
Qed.
Lemma leaves_forget k : k <> j -> keeps id (leaves j) (modify (forget_session (W := W) (T := T) k)).
Proof. intros Hk. apply leaves_modify. intros s. cbn. rewrite lookup_delete_ne by done. set_solver. Qed.
Lemma leaves_release k : keeps id (leaves j) (release_session_table_locks (W := W) (T := T) k).
Proof. by apply leaves_modify. Qed.
#[local] Hint Resolve leaves_take leaves_forget leaves_release leaves_commit : keeps.

Lemma leaves_detach k : k <> j -> keeps id (leaves j) (detach_session (W := W) (T := T) k).
Proof. intros Hk. unfold detach_session. keep. Qed.

#[export] Instance leaves_respects : Respects (W := W) (T := T) id (leaves j).
Proof.
  assert (Hst : forall status, keeps (W := W) (T := T) id (leaves j) (set_transaction_status status))
    by (intros status [s c] _; split; [done|]; done).
  assert (Hmd : forall name value, keeps (W := W) (T := T) id (leaves j) (metadata_insert name value))
    by (intros name value [s c] _; split; [done|]; done).
  split.
  - apply _.
  - exact Hst.
  - exact Hmd.
  - apply leaves_modify. intros s. cbn. set_solver.
  - apply leaves_modify. intros s. cbn. set_solver.
  - apply leaves_release.
  - by apply leaves_modify.
  - by apply leaves_modify.
  - apply leaves_commit.
  - by apply leaves_detach.
  - unfold commit_before_begin. keep.
  - intros isolation read_only. unfold begin_or_continue, note_read_only, has_active_transaction. keep;
      apply leaves_modify; intros s; cbn; rewrite ?lookup_insert_ne by done; done.
  - intros outside code f tag. unfold on_session_transaction. keep. apply leaves_modify. intros s. cbn.
    by rewrite lookup_insert_ne.
  - intros isolation. unfold set_session_transaction_isolation, has_active_transaction. keep.
    apply leaves_modify. intros s. cbn. by rewrite lookup_insert_ne.
Qed.
End Leaves.

(** ** Any number of sessions *)

Inductive session_cmd (W T : Type) : Type :=
  | CBegin (isolation : option TransactionIsolation) (read_only : bool)
  | CStatement (stmt : TransactionStatement)
  | CSetIsolation (isolation : TransactionIsolation)
  | CSetAutocommit (enabled : bool)
  | CKill (target : Z)
  | CPut (k : key) (v : list byte)
  | CPutBatch (entries : list kvrow)
  | CDelete (k : key)
  | CQuery (slow_path : Cmd W T (list Response)) (statements : list (StatementOps W T)).
Arguments CBegin {W T} _ _.
Arguments CStatement {W T} _.
Arguments CSetIsolation {W T} _.
Arguments CSetAutocommit {W T} _.
Arguments CKill {W T} _.
Arguments CPut {W T} _ _.
Arguments CPutBatch {W T} _.
Arguments CDelete {W T} _.
Arguments CQuery {W T} _ _.

Section Systems.
Context {W T : Type} `{KvStoreApi W T, KvTransaction T W}.

Definition run_cmd (id : Z) (c : session_cmd W T) : Cmd W T unit :=
  match c with
  | CBegin isolation read_only => _ ← begin_session_transaction_with_options isolation read_only; mret tt
  | CStatement stmt => _ ← handle_transaction_statement stmt; mret tt
  | CSetIsolation isolation => _ ← set_session_transaction_isolation isolation; mret tt
  | CSetAutocommit enabled => _ ← set_autocommit enabled; mret tt
  | CKill target => rollback_session_by_id target
  | CPut k v => writes (fun s => txn_put s (Some id) k v)
  | CPutBatch entries => writes (fun s => txn_put_batch s (Some id) entries)
  | CDelete k => writes (fun s => txn_delete s (Some id) k)
  | CQuery slow_path statements => _ ← run_query slow_path statements; mret tt
  end.

Definition new_client (id : Z) : Client :=
  {| client_pid := id; metadata := ∅; transaction_status := TS.Idle |}.

(** The server and the clients connected to it. *)
Record System : Type := { sys_server : Server W T; sys_clients : gmap Z Client }.

Definition client_of (sys : System) (id : Z) : Client := default (new_client id) (sys_clients sys !! id).

Definition step_session (sys : System) (call : Z * session_cmd W T) : System :=
  let s := (run_cmd call.1 call.2 (sys_server sys, client_of sys call.1)).2 in
  {| sys_server := s.1; sys_clients := <[call.1 := s.2]> (sys_clients sys) |}.

Definition run_session (sys : System) (calls : list (Z * session_cmd W T)) : System :=
  foldl step_session sys calls.

Definition new_system (w : W) (mode : GatewayMode) : System :=
  {| sys_server := new_server w mode; sys_clients := ∅ |}.

(** A query's planner, executor and lock requests stay within [R]. *)
Definition query_keeps (R : relation (Server W T * Client)) (id : Z) (c : session_cmd W T) : Prop :=
  match c with
  | CQuery slow_path statements => keeps id R slow_path /\ Forall (keeps_statement id R) statements
  | _ => True
  end.

Lemma keeps_cmd (id : Z) (R : relation (Server W T * Client)) `{!Respects id R} (c : session_cmd W T) :
  match c with
  | CKill target => keeps id R (detach_session target)
  | CPut _ _ | CPutBatch _ | CDelete _ => keeps id R (run_cmd id c)
  | _ => query_keeps R id c
  end -> keeps id R (run_cmd id c).
Proof.
  pose proof (keeps_begin id R). pose proof (keeps_transaction_statement id R).
  pose proof (keeps_set_autocommit id R).
  destruct c; cbn [query_keeps run_cmd]; intros Hc.
  1-4: keep.
  - unfold rollback_session_by_id. keep.
  - exact Hc.
  - exact Hc.
  - exact Hc.
  - pose proof (keeps_run_query id R slow_path statements (proj1 Hc) (proj2 Hc)). keep.
Qed.

Lemma writes_spec f (s : Server W T * Client) :
  (writes f s).2 = match f s.1 with Ok server => (server, s.2) | _ => s end.
Proof. unfold writes. by destruct (f s.1). Qed.

Lemma books_writes (id : Z) f :
  (forall s s', f s = Ok s' -> Bookkept s -> Bookkept s') -> keeps (W := W) (T := T) id books (writes f).
Proof.
  intros Hf s _. rewrite writes_spec. destruct (f s.1) eqn:E; [|reflexivity..].
  split; [done|]. cbn. by apply Hf.
Qed.

Lemma bookkept_txn_write on_txn on_store (s s' : Server W T) session :
  txn_write on_txn on_store s session = Ok s' -> Bookkept s -> Bookkept s'.
Proof.
  unfold txn_write. destruct session as [id|].
  - destruct (txn_of s (Some id)) as [txn|] eqn:Ht.
    + intros [= <-]. apply bookkept_replace. by exists txn.
    + intros (w & Hw & [= <-])%bind_inv. by apply bookkept_same.
  - intros (w & Hw & [= <-])%bind_inv. by apply bookkept_same.
Qed.

Lemma client_of_pid (sys : System) (id : Z) : (forall j c, sys_clients sys !! j = Some c -> client_pid c = j) ->
  client_pid (client_of sys id) = id.
Proof. intros Hc. unfold client_of. destruct (sys_clients sys !! id) eqn:E; cbn; eauto. Qed.
End Systems.
Arguments System : clear implicits.

(** ** The database the sessions see

    What the sessions promise: committed rows, the writes each open transaction has
    staged, and the sessions that have switched autocommit off. *)

Record Db : Type := {
  db_rows : kvmap;
  db_open : gmap Z pendmap;
  db_manual : gset Z;
}.

Definition db_read (db : Db) (id : Z) : kvmap :=
  match db_open db !! id with Some p => view (db_rows db) p | None => db_rows db end.

Definition db_commit (id : Z) (db : Db) : Db :=
  match db_open db !! id with
  | Some p => {| db_rows := view (db_rows db) p; db_open := delete id (db_open db); db_manual := db_manual db |}
  | None => db
  end.
Definition db_rollback (id : Z) (db : Db) : Db :=
  {| db_rows := db_rows db; db_open := delete id (db_open db); db_manual := db_manual db |}.

Definition db_open_at (id : Z) (db : Db) : Db :=
  match db_open db !! id with
  | Some _ => db
  | None => {| db_rows := db_rows db; db_open := <[id := ∅]> (db_open db); db_manual := db_manual db |}
  end.
(** MySQL ends the transaction there is; PostgreSQL goes on with it. *)
Definition db_begin (mode : GatewayMode) (id : Z) (db : Db) : Db :=
  db_open_at id (match mode with MySql => db_commit id db | Postgres => db end).

(** With autocommit off, the end of a transaction is the beginning of the next. *)
Definition db_restart (mode : GatewayMode) (id : Z) (db : Db) : Db :=
  match mode with
  | MySql => if decide (id ∈ db_manual db) then db_begin mode id db else db
  | Postgres => db
  end.

Definition db_set_manual (id : Z) (manual : bool) (db : Db) : Db :=
  {| db_rows := db_rows db; db_open := db_open db;
     db_manual := if manual then {[id]} ∪ db_manual db else db_manual db ∖ {[id]} |}.

Definition db_set_autocommit (mode : GatewayMode) (id : Z) (enabled : bool) (db : Db) : Db :=
  let db := db_set_manual id (negb enabled) db in
  if enabled then match db_open db !! id with Some _ => db_restart mode id (db_commit id db) | None => db end
  else db_open_at id db.

Definition db_write (id : Z) (w : kv_write) (db : Db) : Db :=
  match db_open db !! id with
  | Some p =>
      let p := match w with
               | WPut k v => <[k := Some v]> p
               | WPutBatch es => foldl (fun p e => <[e.1 := Some e.2]> p) p es
               | WDelete k => <[k := None]> p
               end in
      {| db_rows := db_rows db; db_open := <[id := p]> (db_open db); db_manual := db_manual db |}
  | None => {| db_rows := map_write (db_rows db) w; db_open := db_open db; db_manual := db_manual db |}
  end.

(** The commands whose effect does not depend on savepoints or on a planner. *)
Definition db_step {W T} (mode : GatewayMode) (db : Db) (call : Z * session_cmd W T) : option Db :=
  let id := call.1 in
  match call.2 with
  | CBegin _ _ | CStatement StartTransaction => Some (db_begin mode id db)
  | CStatement Commit => Some (db_restart mode id (db_commit id db))
  | CStatement (Rollback None) => Some (db_restart mode id (db_rollback id db))
  | CStatement _ => None
  | CSetIsolation _ => Some db
  | CSetAutocommit enabled => Some (db_set_autocommit mode id enabled db)
  | CKill target => Some (db_rollback target db)
  | CPut k v => Some (db_write id (WPut k v) db)
  | CPutBatch es => Some (db_write id (WPutBatch es) db)
  | CDelete k => Some (db_write id (WDelete k) db)
  | CQuery _ _ => None
  end.

Definition db_run {W T} (mode : GatewayMode) (db : Db) (calls : list (Z * session_cmd W T)) : option Db :=
  fold_m (db_step mode) db calls.

(** A store and its transactions read the same committed rows, and a new transaction
    has staged nothing. *)
Class StoreTransaction (W T : Type) `{KvStoreLaws W T, !KvTransaction T W, !KvTransactionLaws T W} := {
  committed_rows : forall w : W, committed w = store_rows w;
  begin_staged : forall w : W, exists t : T, ks_begin_transaction w = Ok t /\ staged t = ∅;
}.

#[export] Instance memory_store_transaction : StoreTransaction kvmap MemoryTransaction.
Proof. split; [done|]. intros w. by eexists. Qed.
#[export] Instance engine_store_transaction `{EngineStoreLaws W} : StoreTransaction W KvEngineTransaction.
Proof. split; [done|]. intros w. by eexists. Qed.

Section Refinement.
Context {W T : Type} `{StoreTransaction W T} (md : GatewayMode) (id : Z).

Definition autocommit_off (c : Client) : bool :=
  match metadata c !! MYSQL_AUTOCOMMIT_METADATA with
  | Some v => str_is (as_bytes v) "0" || eq_ignore_ascii_case (as_bytes v) (as_bytes "off")
  | None => false
  end.

(** The server, seen by the client of a session, stands for [db]. *)
Record shows (s : Server W T * Client) (db : Db) : Prop := {
  shows_mode : mode s.1 = md;
  shows_rows : store_rows (store s.1) = db_rows db;
  shows_open : staged <$> active_transactions s.1 = db_open db;
  shows_pid : client_pid s.2 = id;
  shows_manual : autocommit_off s.2 = bool_decide (id ∈ db_manual db);
}.

(** [m] succeeds and does to the database what [f] says. *)
Definition does {A} (m : Cmd W T A) (f : Db -> Db) : Prop :=
  forall s db, shows s db -> exists a s', m s = (Ok a, s') /\ shows s' (f db).

Lemma does_ret {A} (a : A) : does (mret a) (fun db => db).
Proof. intros s db Hs. by exists a, s. Qed.
Lemma does_gets {A} (f : Server W T -> A) : does (gets f) (fun db => db).
Proof. intros s db Hs. by eexists _, s. Qed.
Lemma does_client_gets {A} (f : Client -> A) : does (client_gets f) (fun db => db).
Proof. intros s db Hs. by eexists _, s. Qed.
Lemma does_bind {A B} (m : Cmd W T A) (k : A -> Cmd W T B) f g :
  does m f -> (forall a, does (k a) g) -> does (mbind k m) (fun db => g (f db)).
Proof.
  intros Hm Hk s db Hs. destruct (Hm s db Hs) as (a & s1 & Hm1 & Hs1).
  unfold mbind, cmd_bind. rewrite Hm1. by apply Hk.
Qed.
Lemma does_ext {A} (m : Cmd W T A) f g : does m f -> (forall db, f db = g db) -> does m g.
Proof. intros Hm He s db Hs. rewrite <- He. by apply Hm. Qed.
Lemma does_session_id {A} (k : Z -> Cmd W T A) f : does (k id) f -> does (session_id ≫= k) f.
Proof.
  intros Hk s db Hs. unfold session_id, mbind, cmd_bind. cbn. rewrite (shows_pid _ _ Hs). by apply Hk.
Qed.
Lemma does_status status : does (set_transaction_status status) (fun db => db).
Proof. intros s db []. eexists _, _. split; [done|]. by split. Qed.
Lemma does_metadata name value : name <> MYSQL_AUTOCOMMIT_METADATA ->
  does (metadata_insert name value) (fun db => db).
Proof.
  intros Hn s db []. eexists _, _. split; [done|]. split; try done.
  unfold autocommit_off. cbn. rewrite lookup_insert_ne by done. done.
Qed.

(** A change of the server that touches neither the rows nor the transactions. *)
Lemma does_modify (f : Server W T -> Server W T) :
  (forall s, mode (f s) = mode s /\ store (f s) = store s /\ active_transactions (f s) = active_transactions s) ->
  does (modify f) (fun db => db).
Proof.
  intros Hf s db []. eexists _, _. split; [done|]. destruct (Hf s.1) as (Em & Ew & Et).
  split; cbn; [by rewrite Em|by rewrite Ew|by rewrite Et|done|done].
Qed.

Lemma shows_active s db j : shows s db -> db_open db !! j = staged <$> active_transactions s.1 !! j.
Proof. intros Hs. by rewrite <- (shows_open s db Hs), lookup_fmap. Qed.

(** Branching on whether the session has a transaction. *)
Lemma does_active {A} (k : bool -> Cmd W T A) f g :
  does (k true) f -> does (k false) g ->
  does (has_active_transaction ≫= k) (fun db => match db_open db !! id with Some _ => f db | None => g db end).
Proof.
  intros Ht Hf s db Hs. unfold has_active_transaction. unfold session_id, mbind, cmd_bind. cbn.
  rewrite (shows_pid _ _ Hs), (shows_active s db id Hs).
  destruct (active_transactions s.1 !! id) as [txn|].
  - rewrite bool_decide_eq_true_2 by done. by apply Ht.
  - rewrite bool_decide_eq_false_2 by (by intros [? ?]). by apply Hf.
Qed.

Lemma does_commit (txn : T) :
  does (commit_transaction txn) (fun db =>
    {| db_rows := view (db_rows db) (staged txn); db_open := db_open db; db_manual := db_manual db |}).
Proof.
  intros [s c] db []. unfold commit_transaction. cbn in *.
  destruct (law_commit (store s) txn) as (w' & t' & -> & Hc). eexists _, _. split; [done|].
  split; cbn; try done. rewrite <- committed_rows, Hc, committed_rows. by f_equal.
Qed.

Lemma db_rollback_none j db : db_open db !! j = None -> db_rollback j db = db.
Proof. intros Hj. destruct db. unfold db_rollback. cbn in *. by rewrite delete_id. Qed.

Lemma detach_shows j s db : shows s db ->
  exists s', detach_session j s = (Ok (active_transactions s.1 !! j), s') /\ shows s' (db_rollback j db).
Proof.
  intros []. unfold detach_session, take_transaction, mbind, cmd_bind. cbn. eexists. split; [done|].
  split; cbn; try done. by rewrite fmap_delete, shows_open0.
Qed.

Lemma does_commit_or_fail (txn : T) :
  does (commit_or_fail txn) (fun db =>
    {| db_rows := view (db_rows db) (staged txn); db_open := db_open db; db_manual := db_manual db |}).
Proof.
  intros s db Hs. unfold commit_or_fail. destruct (does_commit txn s db Hs) as (a & s' & -> & Hs').
  by exists tt, s'.
Qed.

(** Detaching the session and committing what it had. *)
Lemma does_commit_detached (commit : T -> Cmd W T unit) :
  (forall txn, does (commit txn) (fun db =>
    {| db_rows := view (db_rows db) (staged txn); db_open := db_open db; db_manual := db_manual db |})) ->
  does (txn ← detach_session id; match txn with Some txn => commit txn | None => mret tt end) (db_commit id).
Proof.
  intros Hc s db Hs. destruct (detach_shows id s db Hs) as (s' & Hd & Hs').
  unfold mbind at 1, cmd_bind at 1. rewrite Hd. pose proof (shows_active s db id Hs) as Ha.
  unfold db_commit. destruct (active_transactions s.1 !! id) as [txn|]; cbn in Ha; rewrite Ha.
  - by apply (Hc txn s' (db_rollback id db)).
  - rewrite (db_rollback_none id db Ha) in Hs'. by exists tt, s'.
Qed.

Lemma cmd_bind_assoc {A B C} (m : Cmd W T A) (f : A -> Cmd W T B) (g : B -> Cmd W T C) s :
  (m ≫= (fun a => f a ≫= g)) s = ((m ≫= f) ≫= g) s.
Proof. unfold mbind, cmd_bind. by destruct (m s) as [[]]. Qed.

Lemma does_assoc {A B C} (m : Cmd W T A) (f : A -> Cmd W T B) (g : B -> Cmd W T C) h :
  does ((m ≫= f) ≫= g) h -> does (m ≫= (fun a => f a ≫= g)) h.
Proof. intros Hd s db Hs. rewrite cmd_bind_assoc. by apply Hd. Qed.

(** BEGIN in a transaction releases the locks before it forgets the session. *)
Lemma commit_before_begin_eq s :
  commit_before_begin (W := W) (T := T) id s =
  ((txn ← detach_session id; match txn with Some txn => commit_transaction txn | None => mret tt end)
     ≫= (fun _ => set_transaction_status TS.Idle)) s.
Proof. reflexivity. Qed.

Lemma does_commit_before_begin : does (commit_before_begin id) (db_commit id).
Proof.
  intros s db Hs. rewrite commit_before_begin_eq.
  refine (does_bind _ _ _ (fun db => db) (does_commit_detached _ does_commit) _ s db Hs).
  intros _. apply does_status.
Qed.

Lemma open_shows txn isolation read_only s db : shows s db -> staged txn = ∅ -> db_open db !! id = None ->
  shows (open_session id txn isolation read_only s.1, s.2) (db_open_at id db).
Proof.
  intros [] Ht Hn. unfold db_open_at. rewrite Hn. split; cbn; try done.
  by rewrite fmap_insert, shows_open0, Ht.
Qed.

Lemma does_begin_or_continue isolation read_only :
  does (begin_or_continue id isolation read_only) (db_open_at id).
Proof.
  intros s db Hs.
  destruct (db_open db !! id) as [p|] eqn:Hp.
  - assert (db_open_at id db = db) as -> by (unfold db_open_at; by rewrite Hp).
    unfold begin_or_continue. pose proof (does_active (fun active => if active then
      note_read_only id read_only ≫= (fun _ => set_transaction_status TS.Transaction ≫= (fun _ =>
        mret [CommandComplete "BEGIN"])) else mret []) (fun db => db) (fun db => db)) as Hd.
    destruct (Hd) with (s := s) (db := db) as (a & s' & Hr & Hs'); [|apply does_ret|done|].
    + eapply does_ext; [apply does_bind; [|intros _; apply does_bind; [apply does_status|intros _; apply does_ret]]|done].
      destruct read_only; [|apply does_ret]. by apply does_modify.
    + exists a, s'. rewrite Hp in Hs'. split; [|done]. revert Hr.
      unfold has_active_transaction, session_id, mbind, cmd_bind. cbn. rewrite (shows_pid _ _ Hs).
      pose proof (shows_active s db id Hs) as Ha. rewrite Hp in Ha.
      destruct (active_transactions s.1 !! id); [|done]. by rewrite bool_decide_eq_true_2 by done.
  - unfold begin_or_continue, has_active_transaction, session_id, mbind, cmd_bind. cbn.
    rewrite (shows_pid _ _ Hs). pose proof (shows_active s db id Hs) as Ha. rewrite Hp in Ha.
    destruct (active_transactions s.1 !! id); [done|]. rewrite bool_decide_eq_false_2 by (by intros [? ?]).
    destruct (begin_staged (store s.1)) as (txn & -> & Hst). cbn.
    eexists _, _. split; [done|].
    pose proof (open_shows txn (default (default_transaction_isolation (mode s.1))
      (match isolation with Some i => Some i
       | None => (metadata s.2 !! METADATA_TRANSACTION_ISOLATION) ≫= parse_transaction_isolation end))
      read_only s db Hs Hst Hp) as Ho.
    destruct (does_metadata METADATA_TRANSACTION_ISOLATION (as_pg_str (default (default_transaction_isolation (mode s.1))
      (match isolation with Some i => Some i
       | None => (metadata s.2 !! METADATA_TRANSACTION_ISOLATION) ≫= parse_transaction_isolation end)))
      ltac:(discriminate) _ _ Ho) as (a & s' & [= <- <-] & Hs').
    destruct (does_status TS.Transaction _ _ Hs') as (a & s'' & [= <- <-] & Hs''). exact Hs''.
Qed.

Lemma is_mysql_shows s db : shows s db -> is_mysql s.1 = match md with MySql => true | Postgres => false end.
Proof. intros []. unfold is_mysql. by rewrite shows_mode0. Qed.

Lemma does_begin isolation read_only :
  does (begin_session_transaction_with_options isolation read_only) (db_begin md id).
Proof.
  intros s db Hs. unfold begin_session_transaction_with_options. unfold has_active_transaction, session_id.
  unfold mbind at 1, cmd_bind at 1. cbn [client_gets fst snd]. rewrite (shows_pid _ _ Hs).
  unfold mbind, cmd_bind. cbn. rewrite (is_mysql_shows s db Hs), (shows_pid _ _ Hs).
  pose proof (shows_active s db id Hs) as Ha. unfold db_begin.
  destruct (active_transactions s.1 !! id) as [txn|]; cbn in Ha.
  - rewrite bool_decide_eq_true_2 by done. destruct md eqn:Em; cbn [andb].
    + by apply does_begin_or_continue.
    + destruct (does_commit_before_begin s db Hs) as (a & s' & -> & Hs'). by apply does_begin_or_continue.
  - rewrite bool_decide_eq_false_2 by (by intros [? ?]). cbn [andb mret cmd_ret].
    replace (match md with Postgres => db | MySql => db_commit id db end) with db
      by (unfold db_commit; rewrite Ha; by destruct md).
    by apply does_begin_or_continue.
Qed.

Lemma autocommit_disabled_eq (s : Server W T * Client) :
  mysql_autocommit_disabled s = (Ok (is_mysql s.1 && autocommit_off s.2), s).
Proof. reflexivity. Qed.

Lemma does_restart : does restart_mysql_autocommit_transaction (db_restart md id).
Proof.
  intros s db Hs. unfold restart_mysql_autocommit_transaction, mbind, cmd_bind.
  rewrite autocommit_disabled_eq, (is_mysql_shows s db Hs), (shows_manual s db Hs).
  unfold db_restart. destruct md eqn:Em; cbn [andb]; [by apply does_ret|].
  destruct (decide (id ∈ db_manual db)) as [Hi|Hi];
    [rewrite bool_decide_eq_true_2 by done|rewrite bool_decide_eq_false_2 by done; by apply does_ret].
  unfold begin_session_transaction. pose proof (does_begin None false s db Hs) as Hb. rewrite Em in Hb.
  destruct Hb as (a & s' & -> & Hs'). by apply does_ret.
Qed.

(** A computation followed by the restart of autocommit and an answer. *)
Lemma does_then_restart {A} (m : Cmd W T A) f (r : list Response) : does m f ->
  does (m ≫= (fun _ => set_transaction_status TS.Idle ≫= (fun _ =>
          restart_mysql_autocommit_transaction ≫= (fun _ => mret r)))) (fun db => db_restart md id (f db)).
Proof.
  intros Hm. refine (does_bind _ _ _ (db_restart md id) Hm _). intros _.
  refine (does_bind _ _ _ (db_restart md id) (does_status _) _). intros _.
  refine (does_bind _ _ _ (fun db => db) does_restart _). intros _. apply does_ret.
Qed.

Lemma does_commit_session :
  does commit_session_transaction (fun db => db_restart md id (db_commit id db)).
Proof.
  unfold commit_session_transaction. apply does_session_id, does_assoc.
  apply does_then_restart, does_commit_detached. apply does_commit_or_fail.
Qed.

Lemma does_detach : does (detach_session id) (db_rollback id).
Proof. intros s db Hs. destruct (detach_shows id s db Hs) as (s' & -> & Hs'). by eexists _, _. Qed.

Lemma does_rollback_session :
  does rollback_session_transaction (fun db => db_restart md id (db_rollback id db)).
Proof. unfold rollback_session_transaction. apply does_session_id, does_then_restart, does_detach. Qed.

Lemma manual_shows (s : Server W T * Client) db (enabled : bool) : shows s db ->
  shows (s.1, {| client_pid := client_pid s.2;
                 metadata := <[MYSQL_AUTOCOMMIT_METADATA := (if enabled then "1" else "0")%string]> (metadata s.2);
                 transaction_status := transaction_status s.2 |}) (db_set_manual id (negb enabled) db).
Proof.
  intros []. split; cbn; try done. unfold autocommit_off. cbn. rewrite lookup_insert_eq.
  destruct enabled; cbn; symmetry; [apply bool_decide_eq_false_2|apply bool_decide_eq_true_2]; set_solver.
Qed.

Lemma does_set_autocommit enabled : does (set_autocommit enabled) (db_set_autocommit md id enabled).
Proof.
  intros s db Hs. unfold set_autocommit. unfold mbind at 1, cmd_bind at 1. cbn [metadata_insert fst snd].
  pose proof (manual_shows s db enabled Hs) as Hs1.
  set (s1 := (_, _)) in *. set (db1 := db_set_manual id (negb enabled) db) in *.
  unfold has_active_transaction, session_id, mbind, cmd_bind. cbn.
  rewrite (shows_pid _ _ Hs). pose proof (shows_active s1 db1 id Hs1) as Ha. fold s1.
  unfold db_set_autocommit. fold db1. clearbody db1. unfold db_open_at at 1. cbn in Ha.
  destruct (active_transactions s.1 !! id) as [txn|] eqn:Et; cbn in Ha; rewrite ?Ha.
  - rewrite bool_decide_eq_true_2 by done. destruct enabled; [|by eexists _, _].
    destruct (does_commit_session s1 db1 Hs1) as (a & s2 & -> & Hs2). by eexists _, _.
  - rewrite bool_decide_eq_false_2 by (by intros [? ?]). destruct enabled; [by eexists _, _|].
    unfold begin_session_transaction.
    destruct (does_begin None false s1 db1 Hs1) as (a & s2 & -> & Hs2). eexists _, _. split; [done|].
    unfold db_begin, db_open_at, db_commit in Hs2. rewrite Ha in Hs2. by destruct md; rewrite ?Ha in Hs2.
Qed.

Lemma store_write_shows (s : Server W T * Client) db w' rows :
  shows s db -> store_rows w' = rows ->
  shows (set_store w' s.1, s.2) {| db_rows := rows; db_open := db_open db; db_manual := db_manual db |}.
Proof. intros [] Hr. by split. Qed.

Lemma staged_write_shows (s : Server W T * Client) db txn p :
  shows s db -> staged txn = p ->
  shows (set_transactions (<[id := txn]> (active_transactions s.1)) s.1, s.2)
    {| db_rows := db_rows db; db_open := <[id := p]> (db_open db); db_manual := db_manual db |}.
Proof. intros [] <-. split; cbn; try done. by rewrite fmap_insert, shows_open0. Qed.

Lemma does_write (w : kv_write) :
  does (run_cmd id (match w with
                    | WPut k v => CPut k v | WPutBatch es => CPutBatch es | WDelete k => CDelete k
                    end)) (db_write id w).
Proof.
  intros s db Hs. pose proof (shows_active s db id Hs) as Ha.
  assert (Hp : exists s', (run_cmd id (match w with
      | WPut k v => CPut k v | WPutBatch es => CPutBatch es | WDelete k => CDelete k end) s).1 = Ok tt /\
      (run_cmd id (match w with
      | WPut k v => CPut k v | WPutBatch es => CPutBatch es | WDelete k => CDelete k end) s).2 = s' /\
      shows s' (db_write id w db)).
  { unfold db_write. destruct w as [k v|es|k]; cbn [run_cmd]; unfold writes, txn_put, txn_put_batch, txn_delete,
      txn_write, txn_of; cbn [mbind option_bind];
    destruct (active_transactions s.1 !! id) as [txn|]; cbn in Ha; rewrite Ha.
    - eexists. split; [done|]. split; [done|]. apply staged_write_shows; [done|]. apply law_put.
    - destruct (law_ks_put k v (store s.1)) as (w' & -> & Hw). eexists. split; [done|]. split; [done|].
      apply store_write_shows; [done|]. by rewrite Hw, (shows_rows _ _ Hs).
    - eexists. split; [done|]. split; [done|]. apply staged_write_shows; [done|]. apply law_put_batch.
    - destruct (law_ks_put_batch es (store s.1)) as (w' & -> & Hw). eexists. split; [done|]. split; [done|].
      apply store_write_shows; [done|]. by rewrite Hw, (shows_rows _ _ Hs).
    - eexists. split; [done|]. split; [done|]. apply staged_write_shows; [done|]. apply law_delete.
    - destruct (law_ks_delete k (store s.1)) as (w' & -> & Hw). eexists. split; [done|]. split; [done|].
      apply store_write_shows; [done|]. by rewrite Hw, (shows_rows _ _ Hs). }
  destruct Hp as (s' & H1' & H2' & Hs'). exists tt, s'. split; [|done].
  rewrite <- H2'. destruct (run_cmd id _ s) as [r x]; cbn in *. by subst r.
Qed.

Lemma does_set_isolation isolation : does (set_session_transaction_isolation isolation) (fun db => db).
Proof.
  unfold set_session_transaction_isolation. apply does_session_id.
  refine (does_bind _ _ _ (fun db => db) (does_metadata _ _ _) _); [discriminate|]. intros _.
  intros s db Hs. unfold has_active_transaction, session_id, mbind, cmd_bind. cbn.
  destruct (bool_decide _); [|by eexists _, _]. eexists _, _. split; [done|]. by destruct Hs.
Qed.

(** Every command of [db_step] does to the database what it says. *)
Lemma does_step (c : session_cmd W T) db db' s : shows s db -> db_step md db (id, c) = Some db' ->
  exists s', (run_cmd id c s).2 = s' /\ (run_cmd id c s).1 = Ok tt /\ shows s' db'.
Proof.
  intros Hs Hd.
  assert (forall {A} (m : Cmd W T A) f, does m f -> exists s', ((_ ← m; mret tt) s).2 = s' /\
    ((_ ← m; mret tt) s).1 = Ok tt /\ shows s' (f db)) as Hdo.
  { intros A m f Hm. destruct (Hm s db Hs) as (a & s' & Hr & Hs'). exists s'.
    unfold mbind, cmd_bind. by rewrite Hr. }
  assert (forall w, exists s', (run_cmd id (match w with
      | WPut k v => CPut k v | WPutBatch es => CPutBatch es | WDelete k => CDelete k end) s).2 = s' /\
      (run_cmd id (match w with
      | WPut k v => CPut k v | WPutBatch es => CPutBatch es | WDelete k => CDelete k end) s).1 = Ok tt /\
      shows s' (db_write id w db)) as Hw.
  { intros w. destruct (does_write w s db Hs) as ([] & s' & Hr & Hs'). exists s'. by rewrite Hr. }
  destruct c as [i r|stmt|i|e|t|k v|es|k|sp st]; cbn [db_step fst snd] in Hd; try (injection Hd as <-).
  - apply Hdo, does_begin.
  - destruct stmt as [| |[n|]|n|n]; try discriminate Hd; injection Hd as <-;
      cbn [run_cmd handle_transaction_statement].
    + destruct (does_begin None false s db Hs) as (a & s' & Hr & Hs'). exists s'.
      unfold begin_session_transaction, mbind, cmd_bind. by rewrite Hr.
    + destruct (does_commit_session s db Hs) as (a & s' & Hr & Hs'). exists s'.
      unfold mbind, cmd_bind. by rewrite Hr.
    + destruct (does_rollback_session s db Hs) as (a & s' & Hr & Hs'). exists s'.
      unfold mbind, cmd_bind. by rewrite Hr.
  - apply (Hdo _ _ (fun db => db)), does_set_isolation.
  - apply Hdo, does_set_autocommit.
  - cbn [run_cmd]. unfold rollback_session_by_id. destruct (detach_shows t s db Hs) as (s' & Hr & Hs').
    exists s'. unfold mbind, cmd_bind. by rewrite Hr.
  - exact (Hw (WPut k v)).
  - exact (Hw (WPutBatch es)).
  - exact (Hw (WDelete k)).
  - discriminate Hd.
Qed.

(** Reads through the session show its own database. *)
Lemma shows_reads s db (k p : key) (start : key) (end_ : option key) (reverse : bool) : shows s db ->
  txn_get s.1 (Some id) k = Ok (db_read db id !! k) /\
  txn_scan_prefix s.1 (Some id) p = Ok (store_scan_prefix (db_read db id) p) /\
  txn_scan_range s.1 (Some id) {| rs_start := start; rs_end := end_; rs_limit := None; rs_reverse := reverse |} =
    Ok (store_scan_range (db_read db id) start end_ None reverse).
Proof.
  intros Hs. pose proof (shows_active s db id Hs) as Ha. pose proof (shows_rows s db Hs) as Hr.
  unfold txn_get, txn_scan_prefix, txn_scan_range, txn_of, db_read. cbn [mbind option_bind].
  destruct (active_transactions s.1 !! id) as [txn|]; cbn in Ha; rewrite Ha;
    cbn [rs_start rs_end rs_limit rs_reverse].
  - by rewrite law_get, law_scan_prefix, law_scan_range, committed_rows, Hr.
  - by rewrite law_ks_get, law_ks_scan_prefix, law_ks_scan_range, Hr by done.
Qed.
End Refinement.

Section Served.
Context {W T : Type} `{StoreTransaction W T} (md : GatewayMode).

(** The server stands for [db] whichever client looks. *)
Definition serves (sys : System W T) (db : Db) : Prop :=
  forall id, shows md id (sys_server sys, client_of sys id) db.

Lemma manual_commit id db : db_manual (db_commit id db) = db_manual db.
Proof. unfold db_commit. by destruct (db_open db !! id). Qed.
Lemma manual_open id db : db_manual (db_open_at id db) = db_manual db.
Proof. unfold db_open_at. by destruct (db_open db !! id). Qed.
Lemma manual_begin m id db : db_manual (db_begin m id db) = db_manual db.
Proof. unfold db_begin. rewrite manual_open. destruct m; [done|apply manual_commit]. Qed.
Lemma manual_restart m id db : db_manual (db_restart m id db) = db_manual db.
Proof. unfold db_restart. destruct m; [done|]. destruct (decide _); [apply manual_begin|done]. Qed.
Lemma manual_write id w db : db_manual (db_write id w db) = db_manual db.
Proof. unfold db_write. by destruct (db_open db !! id). Qed.

(** Only a session itself switches its autocommit. *)
Lemma manual_step (call : Z * session_cmd W T) db db' j : db_step md db call = Some db' -> j <> call.1 ->
  (j ∈ db_manual db' <-> j ∈ db_manual db).
Proof.
  destruct call as [id c]. cbn. intros Hd Hj.
  destruct c as [i r|[| |[n|]|n|n]|i|e|t|k v|es|k|sp st]; try discriminate Hd; injection Hd as <-;
    rewrite ?manual_begin, ?manual_restart, ?manual_commit, ?manual_write; try done.
  unfold db_set_autocommit. assert (Hm : j ∈ db_manual (db_set_manual id (negb e) db) <-> j ∈ db_manual db)
    by (destruct e; cbn; set_solver).
  destruct e; [|by rewrite manual_open].
  destruct (db_open _ !! id); by rewrite ?manual_restart, ?manual_commit.
Qed.

Lemma serves_step sys db db' (call : Z * session_cmd W T) :
  serves sys db -> db_step md db call = Some db' -> serves (step_session sys call) db'.
Proof.
  intros Hs Hd id. destruct call as [j c].
  destruct (does_step md j c db db' _ (Hs j) Hd) as (s' & Hr & _ & Hs').
  unfold step_session. cbn [fst snd sys_server] in *. rewrite Hr.
  unfold client_of. cbn [sys_clients]. destruct (decide (id = j)) as [->|Hne].
  - rewrite lookup_insert_eq. cbn. by destruct s'.
  - rewrite lookup_insert_ne by done. fold (client_of sys id).
    destruct Hs' as [Hm Hw Ho Hp Ha], (Hs id) as [Hm0 Hw0 Ho0 Hp0 Ha0]. split; cbn in *; try done.
    rewrite Ha0. apply bool_decide_ext. symmetry. by apply (manual_step (j, c)).
Qed.

Lemma serves_run calls : forall sys db db', serves sys db -> db_run md db calls = Some db' ->
  serves (run_session sys calls) db'.
Proof.
  induction calls as [|call calls IH]; intros sys db db' Hs Hd; [by injection Hd as <-|].
  unfold db_run in Hd. cbn [fold_m] in Hd. destruct (db_step md db call) as [db1|] eqn:E; [|discriminate Hd].
  apply (IH _ db1); [|exact Hd]. by apply (serves_step sys db).
Qed.

Lemma serves_new (w : W) :
  serves (new_system w md) {| db_rows := store_rows w; db_open := ∅; db_manual := ∅ |}.
Proof. intros id. by split. Qed.
End Served.

(** ** Properties *)

(** C2. The sessions share one database.  Start a server in either mode over either
    store, and let any number of sessions send BEGIN, COMMIT, ROLLBACK, SET autocommit,
    SET TRANSACTION, KILL and writes in any order: the store holds the committed rows
    of the abstract database, in which a write goes to its session's open transaction
    (or to the rows, when it has none), COMMIT installs the whole transaction at once,
    a rolled back or killed transaction leaves no trace, a BEGIN inside a transaction
    commits it in MySQL mode and is ignored in PostgreSQL mode, and with autocommit off
    MySQL mode opens the next transaction.  Every session's reads, prefix scans and
    range scans show the committed rows with its own staged writes and nothing of the
    transactions of others. *)
Theorem sessions_share_database `{StoreTransaction W T} (w : W) (mode : GatewayMode)
    (calls : list (Z * session_cmd W T)) (db : Db) (id : Z) (k p start : key) (end_ : option key)
    (reverse : bool) :
  db_run mode {| db_rows := store_rows w; db_open := ∅; db_manual := ∅ |} calls = Some db ->
  let s := sys_server (run_session (new_system w mode) calls) in
  store_rows (store s) = db_rows db /\
  txn_get s (Some id) k = Ok (db_read db id !! k) /\
  txn_scan_prefix s (Some id) p = Ok (store_scan_prefix (db_read db id) p) /\
  txn_scan_range s (Some id) {| rs_start := start; rs_end := end_; rs_limit := None; rs_reverse := reverse |} =
    Ok (store_scan_range (db_read db id) start end_ None reverse).
Proof.
  intros Hr s. pose proof (serves_run mode calls _ _ _ (serves_new mode w) Hr id) as Hs.
  split; [apply (shows_rows _ _ _ _ Hs)|]. exact (shows_reads mode id _ db k p start end_ reverse Hs).
Qed.

Definition sample_calls {W T} : list (Z * session_cmd W T) :=
  [(1, CBegin None false); (1, CPut [x61] [x09]); (2, CDelete [x62]);
   (1, CStatement Commit); (2, CSetAutocommit false); (2, CPut [x63] [x07]); (1, CKill 2)].

Definition empty_db (rows : kvmap) : Db := {| db_rows := rows; db_open := ∅; db_manual := ∅ |}.

(** What the calls come to in the specification. *)
Definition sample_db : Db :=
  default (empty_db ∅) (db_run MySql (empty_db sample_table) (sample_calls (W := kvmap) (T := KvEngineTransaction))).

Lemma sessions_share_database_witness :
  txn_get (sys_server (run_session (T := KvEngineTransaction) (new_system sample_table MySql) sample_calls))
    (Some 2) [x61] = Ok (Some [x09]).
Proof.
  refine (eq_trans (proj1 (proj2 (sessions_share_database (T := KvEngineTransaction) sample_table MySql
    sample_calls sample_db 2 [x61] [] [] None false _))) _); vm_compute; reflexivity.
Defined.

(** The bookkeeping of the sessions, each command one step.  Whatever commands any sessions
    send (queries included, whose plans keep the bookkeeping themselves), a session has an isolation
    level and a snapshot number exactly while it has a transaction, and only a session
    with a transaction is marked read only: nothing of a finished or killed
    transaction weighs on the session's next statements. *)
Theorem session_bookkeeping `{KvStoreApi W T, !KvTransaction T W} (w : W) (mode : GatewayMode)
    (calls : list (Z * session_cmd W T)) :
  Forall (fun call => query_keeps books call.1 call.2) calls ->
  Bookkept (sys_server (run_session (new_system w mode) calls)).
Proof.
  intros Hc.
  assert (forall sys, Bookkept (sys_server sys) -> (forall id, client_pid (client_of sys id) = id) ->
    Bookkept (sys_server (run_session sys calls))) as Hrun.
  { induction Hc as [|[id c] calls Hq Hc IH]; intros sys Hb Hp; [done|]. cbn [run_session foldl].
    assert (keeps id books (run_cmd id c)) as Hk.
    { apply keeps_cmd; [apply books_respects|]. destruct c; try exact Hq; try apply books_writes.
      - apply books_detach.
      - intros s s'. apply bookkept_txn_write.
      - intros s s'. apply bookkept_txn_write.
      - intros s s'. apply bookkept_txn_write. }
    destruct (Hk (sys_server sys, client_of sys id) (Hp id)) as [Hpid Hbook].
    apply IH; unfold step_session; cbn [fst snd sys_server].
    - by apply Hbook.
    - intros j. unfold client_of. cbn [sys_clients]. destruct (decide (j = id)) as [->|Hj].
      + rewrite lookup_insert_eq. exact (eq_trans Hpid (Hp id)).
      + rewrite lookup_insert_ne by done. apply Hp. }
  apply Hrun; [|done]. intros id. cbn. rewrite !lookup_empty. split; [done|]. split; [done|]. set_solver.
Qed.

Lemma session_bookkeeping_witness :
  Bookkept (sys_server (run_session (W := kvmap) (T := MemoryTransaction) (new_system sample_table Postgres)
    sample_calls)).
Proof. apply session_bookkeeping. repeat (apply Forall_cons; split; [exact I|]). constructor. Defined.

(** ** Repeatable reads *)

Lemma leaves_txn_write {W T} `{KvStoreApi W T, KvTransaction T W} (id j : Z) on_txn on_store
    (s : Server W T) : id <> j -> forall s', txn_write on_txn on_store s (Some id) = Ok s' ->
  active_transactions s' !! j = active_transactions s !! j /\
  active_transaction_isolations s' !! j = active_transaction_isolations s !! j /\
  (j ∈ active_mysql_current_reads s' <-> j ∈ active_mysql_current_reads s).
Proof.
  intros Hne s'. unfold txn_write. destruct (txn_of s (Some id)).
  - intros [= <-]. cbn. by rewrite lookup_insert_ne.
  - by intros (w & Hw & [= <-])%bind_inv.
Qed.

(** What a session's visible reads depend on, over the in-memory store. *)
Definition same_reads (j : Z) (s s' : Server kvmap MemoryTransaction) : Prop :=
  active_transactions s' !! j = active_transactions s !! j /\
  active_transaction_isolations s' !! j = active_transaction_isolations s !! j /\
  (j ∈ active_mysql_current_reads s' <-> j ∈ active_mysql_current_reads s).

Lemma consistent_same j s s' : same_reads j s s' ->
  use_consistent_read s' (Some j) = use_consistent_read s (Some j).
Proof.
  intros (_ & Hi & Hr). unfold use_consistent_read, is_repeatable_read_transaction. rewrite Hi.
  destruct (negb _); [done|]. f_equal. by apply bool_decide_ext.
Qed.

Lemma visible_row_same j s s' db sc schema pk : same_reads j s s' ->
  is_Some (active_transactions s !! j) -> use_consistent_read s (Some j) = true ->
  read_visible_row_at s' (Some j) db sc schema pk = read_visible_row_at s (Some j) db sc schema pk.
Proof.
  intros Hs [txn Ht] Hc. unfold read_visible_row_at. rewrite (consistent_same j s s' Hs), Hc.
  destruct Hs as (Ha & _ & _). rewrite Ht in Ha.
  unfold txn_has_pending_key, txn_get, txn_snapshot_get, txn_of. cbn [mbind option_bind]. rewrite Ha, Ht.
  cbn [kt_has_pending_key memory_transaction]. unfold mt_has_pending_key. cbn [andb].
  destruct (mt_pending txn !! row_key (table_id schema) (table_epoch schema) pk) as [o|] eqn:Hp; [|done].
  cbn [kt_get memory_transaction]. unfold mt_get. by rewrite Hp.
Qed.

(** C11. Repeatable reads, over the in-memory store.  While a session's transaction runs
    at REPEATABLE READ (and the session is not in a locking read), no commands of other
    sessions, short of killing it, change what it reads: not their writes, not their
    commits, not their queries.  Rows by key, range scans and prefix scans answer as
    before them. *)
Theorem repeatable_read_stable (sys : System kvmap MemoryTransaction) (j : Z)
    (calls : list (Z * session_cmd kvmap MemoryTransaction))
    (db sc : string) (schema : TableSchema) (pk : ColumnValue) (range : RangeScan) (prefix : key) :
  (forall id, client_pid (client_of sys id) = id) ->
  is_Some (active_transactions (sys_server sys) !! j) ->
  use_consistent_read (sys_server sys) (Some j) = true ->
  Forall (fun call => call.1 <> j /\ query_keeps (leaves j) call.1 call.2 /\
            match call.2 with CKill target => target <> j | _ => True end) calls ->
  let s := sys_server sys in
  let s' := sys_server (run_session sys calls) in
  read_visible_row_at s' (Some j) db sc schema pk = read_visible_row_at s (Some j) db sc schema pk /\
  txn_snapshot_scan_range s' (Some j) range = txn_snapshot_scan_range s (Some j) range /\
  txn_snapshot_scan_prefix s' (Some j) prefix = txn_snapshot_scan_prefix s (Some j) prefix /\
  use_consistent_read s' (Some j) = true.
Proof.
  intros Hp Ha Hc Hcalls s s'.
  assert (same_reads j s s') as Hs.
  { subst s s'. clear Ha Hc. revert sys Hp.
    induction Hcalls as [|[id c] calls (Hne & Hq & Hk) Hcalls IH]; intros sys Hp; [by repeat split|].
    cbn [fst snd] in *.
    assert (keeps id (leaves j) (run_cmd id c)) as Hkeep.
    { apply keeps_cmd; [by apply leaves_respects|].
      destruct c; try exact Hq; [by apply leaves_detach|..];
        intros s0 Hid; cbn [run_cmd]; rewrite writes_spec; match goal with |- context [match ?x with _ => _ end] =>
          destruct x eqn:E; [|reflexivity..] end;
        split; try done; intros _; by apply (leaves_txn_write id j _ _ s0.1 Hne) in E. }
    destruct (Hkeep (sys_server sys, client_of sys id) (Hp id)) as [Hpid Hl].
    cbn [fst snd] in *. rewrite (Hp id) in Hl, Hpid.
    assert (same_reads j (sys_server sys) (sys_server (step_session sys (id, c)))) as (H1 & H2 & H3)
      by (by apply Hl).
    assert (same_reads j (sys_server (step_session sys (id, c)))
      (sys_server (run_session (step_session sys (id, c)) calls))) as (H4 & H5 & H6).
    { apply IH. intros k. unfold client_of, step_session. cbn [sys_clients fst snd].
      destruct (decide (k = id)) as [->|Hki]; [rewrite lookup_insert_eq; exact Hpid|].
      rewrite lookup_insert_ne by done. apply Hp. }
    cbn [run_session foldl]. unfold run_session in *. unfold same_reads.
    rewrite H4, H5, H6. by rewrite H1, H2, H3. }
  split; [by apply visible_row_same|]. pose proof (eq_trans (consistent_same j s s' Hs) Hc) as Hcs.
  split; [|split; [|exact Hcs]]; destruct Ha as [txn Ht]; destruct Hs as (Ha & _ & _);
    unfold s in *; rewrite Ht in Ha; unfold txn_snapshot_scan_range, txn_snapshot_scan_prefix, txn_of;
    cbn [mbind option_bind]; by rewrite Ha, Ht.
Qed.

Definition repeatable_system : System kvmap MemoryTransaction :=
  run_session (new_system sample_table Postgres) [(1, CBegin (Some RepeatableRead) false)].

Lemma repeatable_read_stable_witness :
  txn_snapshot_scan_prefix (sys_server (run_session repeatable_system
    [(2, CPut [x61] [x09]); (3, CDelete [x62]); (2, CKill 3)])) (Some 1) [] =
  Ok [([x61], [x01]); ([x62], [x02]); ([x63], [x03])].
Proof.
  destruct (repeatable_read_stable repeatable_system 1 [(2, CPut [x61] [x09]); (3, CDelete [x62]); (2, CKill 3)]
    "" "" (sample_schema sample_cols) Null (row_range 7 1 None) []) as (_ & _ & Hp & _).
  - intros id. unfold client_of, repeatable_system, run_session, step_session. cbn [foldl sys_clients fst snd].
    destruct (decide (id = 1)) as [->|Hid]; [rewrite lookup_insert_eq; reflexivity|].
    rewrite lookup_insert_ne by done. cbn. by rewrite lookup_empty.
  - refine (bool_decide_eq_true_1 _ _). vm_compute. reflexivity.
  - vm_compute. reflexivity.
  - repeat (apply Forall_cons; split; [split; [discriminate|split; [exact I|try exact I; discriminate]]|]).
    constructor.
  - refine (eq_trans Hp _). vm_compute. reflexivity.
Defined.

(** Over the engine, REPEATABLE READ reads what others commit meanwhile. *)
Example engine_reads_not_repeatable :
  let sys := run_session (T := KvEngineTransaction) (new_system sample_table MySql)
    [(1, CBegin (Some RepeatableRead) false)] in
  let sys' := run_session sys [(2, CPut [x61] [x09])] in
  use_consistent_read (sys_server sys) (Some 1) = true /\
  txn_snapshot_get (sys_server sys) (Some 1) [x61] = Ok (Some [x01]) /\
  txn_snapshot_get (sys_server sys') (Some 1) [x61] = Ok (Some [x09]).
Proof. by vm_compute. Qed.

(** Over the in-memory store the check fires only at the write: two transactions that
    both wrote the row before either committed both commit, and the first update is
    lost. *)
Example lost_update_at_commit :
  let k := row_key 7 1 (Int32 1) in
  let sys := run_session (T := MemoryTransaction) (new_system (<[k := [x01]]> ∅) Postgres)
    [(1, CBegin (Some RepeatableRead) false); (2, CBegin (Some RepeatableRead) false)] in
  let check id sys := ensure_row_write_not_stale (sys_server sys) (Some id) (sample_schema sample_cols) (Int32 1) in
  let sys1 := run_session sys [(1, CPut k [x02])] in
  let sys2 := run_session sys1 [(2, CPut k [x03])] in
  check 1 sys = Ok tt /\ check 2 sys1 = Ok tt /\
  store (sys_server (run_session sys2 [(1, CStatement Commit); (2, CStatement Commit)])) !! k = Some [x03] /\
  check 2 (run_session sys1 [(1, CStatement Commit)]) =
    user_error "40001" "could not serialize access due to concurrent update".
Proof. by vm_compute. Qed.

(** ** Locks are released before the commit

    [commit_session_transaction] gives back the session's locks and only then calls
    [txn.commit()].  Between the two another session is granted the lock and reads the
    row as it was. *)

(** The second half of COMMIT, for the transaction the first half took out. *)
Definition finish_commit {W T} `{KvTransaction T W} (id : Z) (txn : T) (sys : System W T) : System W T :=
  let s := (commit_or_fail txn (sys_server sys, client_of sys id)).2 in
  {| sys_server := s.1; sys_clients := <[id := s.2]> (sys_clients sys) |}.

Definition start_commit {W T} (id : Z) (sys : System W T) : System W T * option T :=
  let '(txn, s) := detach_session id (sys_server sys, client_of sys id) in
  ({| sys_server := s.1; sys_clients := <[id := s.2]> (sys_clients sys) |},
   match txn with Ok txn => txn | _ => None end).

Definition row_lock (id : Z) (value : string) : MySqlLocks.MySqlLock :=
  {| MySqlLocks.owner := id; MySqlLocks.scope := MySqlLocks.STable; MySqlLocks.duration := MySqlLocks.Transaction;
     MySqlLocks.database_name := "d"; MySqlLocks.schema_name := "s"; MySqlLocks.lock_table := "t";
     MySqlLocks.kind := MySqlLocks.Record value |}.

Definition acquire {W T} (id : Z) (requested : list MySqlLocks.MySqlLock) (sys : System W T) : System W T :=
  {| sys_server := set_locks (MySqlLocks.try_acquire (active_mysql_locks (sys_server sys)) id requested)
       (sys_server sys);
     sys_clients := sys_clients sys |}.

Definition granted {W T} (id : Z) (sys : System W T) : bool :=
  bool_decide (MySqlLocks.phases (active_mysql_locks (sys_server sys)) !! id = None).

(** Two sessions add one to a counter under SELECT FOR UPDATE: both lock the row, both
    commit, and the counter has gone up by one. *)
Example early_release_loses_update :
  let start := run_session (W := kvmap) (T := MemoryTransaction) (new_system (<[[x61] := [x00]]> ∅) MySql)
    [(1, CBegin None false); (2, CBegin None false)] in
  let sys1 := run_session (acquire 1 [row_lock 1 "1"] start) [(1, CPut [x61] [x01])] in
  let blocked := acquire 2 [row_lock 2 "1"] sys1 in
  let '(sys2, txn) := start_commit 1 sys1 in
  let sys3 := acquire 2 [row_lock 2 "1"] sys2 in
  granted 1 sys1 = true /\ granted 2 blocked = false /\ granted 2 sys3 = true /\
  txn_get (sys_server sys3) (Some 2) [x61] = Ok (Some [x00]) /\
  match txn with
  | Some txn =>
      let sys4 := run_session (finish_commit 1 txn sys3) [(2, CPut [x61] [x01]); (2, CStatement Commit)] in
      store (sys_server sys4) !! [x61] = Some [x01]
  | None => False
  end.
Proof. by vm_compute. Qed.

(** ** A failed statement of an implicit transaction

    The statements of a multi-statement query run in a transaction the server opens;
    when one fails in the executor the query returns at once and the transaction stays
    open.  What the session writes next, outside any BEGIN, goes into it. *)
Definition plain_statement {W T} (execute : option Z -> Cmd W T Response) : StatementOps W T :=
  {| st_transaction := None; st_is_query := false; st_ddl_implicit_commit := false; st_locking_read := false;
     st_plan_error := None; st_is_write := true; st_acquire_locks := mret tt; st_execute := execute |}.

Example failed_statement_leaves_transaction :
  let insert k v : StatementOps kvmap MemoryTransaction := plain_statement (fun session =>
    _ ← writes (fun s => txn_put s session k v); mret (CommandComplete "INSERT 0 1")) in
  let failing : StatementOps kvmap MemoryTransaction := plain_statement (fun _ =>
    cmd_fail "23505" "duplicate key value violates unique constraint") in
  let slow : Cmd kvmap MemoryTransaction (list Response) := mret [Rows] in
  let sys := run_session (new_system ∅ Postgres) [(1, CQuery slow [insert [x61] [x01]; failing])] in
  let sys' := run_session sys [(1, CQuery slow [insert [x62] [x02]])] in
  bool_decide (is_Some (active_transactions (sys_server sys) !! 1)) = true /\
  txn_get (sys_server sys') (Some 1) [x62] = Ok (Some [x02]) /\
  txn_get (sys_server sys') (Some 2) [x62] = Ok None /\
  store (sys_server (run_session sys' [(1, CStatement (Rollback None))])) = ∅.
Proof. repeat split; vm_compute; reflexivity. Qed.

(** ** KILL

    The killed session is not told: its client still counts itself inside a
    transaction, and its next write is committed on its own. *)
Definition killed_system : System kvmap MemoryTransaction :=
  run_session (new_system ∅ MySql)
    [(1, CBegin None false); (1, CPut [x61] [x01]); (2, CKill 1); (1, CPut [x62] [x02])].

Example killed_session_writes_on :
  transaction_status (client_of killed_system 1) = TS.Transaction /\
  store (sys_server killed_system) = <[[x62] := [x02]]> ∅.
Proof. split; vm_compute; reflexivity. Qed.
