(* ===== verification/SessionSteps.v ===== *)
(** * Sessions, mutex by mutex

    src/src/core/server/context_session.rs and the isolation command of
    src/src/core/server/transactions.rs once more.  [Session] runs each command as one
    step; here a command is the list of sections it runs, each under the mutex of one of
    the server's maps, and the commands of different sessions interleave between them.
    BEGIN keeps the mutex of the transactions while it opens one; COMMIT, ROLLBACK and
    KILL give it back before they clear the other maps. *)

From stdpp Require Import relations.
From S2P Require Import Prelude BTree Float Types Values Text Mode KeyCodec LegacyCodec RowCodec KvStore Stores.
From S2P Require Import Server Session.
From S2P Require MySqlLocks.

(** ** Sections *)

(** One section of a command, on the entry of a session. *)
Inductive section_kind : Type :=
  | RemoveSnapshot | RemoveIsolation | RemoveReadOnly | RemoveCurrentRead | ReleaseLocks
  | InsertSnapshot
  | InsertIsolation (isolation : TransactionIsolation)
  | NoteReadOnly (read_only : bool).

Section Sections.
Context {W T : Type} `{KvStoreApi W T, KvTransaction T W}.

Definition set_books (snapshots : gmap Z Z) (isolations : gmap Z TransactionIsolation)
    (read_only current_reads : gset Z) (locks : MySqlLocks.LockManager) (s : Server W T) : Server W T :=
  {| store := store s; mode := mode s; active_transactions := active_transactions s;
     active_transaction_snapshots := snapshots; active_transaction_isolations := isolations;
     active_transaction_read_only := read_only; active_mysql_current_reads := current_reads;
     active_mysql_locks := locks; cancelled_sessions := cancelled_sessions s;
     mvcc_clock := mvcc_clock s |}.

Definition run_section (id : Z) (s : Server W T) (k : section_kind) : Server W T :=
  let snapshots := active_transaction_snapshots s in
  let isolations := active_transaction_isolations s in
  let read_only := active_transaction_read_only s in
  let reads := active_mysql_current_reads s in
  let locks := active_mysql_locks s in
  match k with
  | RemoveSnapshot => set_books (delete id snapshots) isolations read_only reads locks s
  | RemoveIsolation => set_books snapshots (delete id isolations) read_only reads locks s
  | RemoveReadOnly => set_books snapshots isolations (read_only ∖ {[id]}) reads locks s
  | RemoveCurrentRead => set_books snapshots isolations read_only (reads ∖ {[id]}) locks s
  | ReleaseLocks =>
      set_books snapshots isolations read_only reads (MySqlLocks.release_session_table_locks locks id) s
  | InsertSnapshot => set_books (<[id := mvcc_clock s]> snapshots) isolations read_only reads locks s
  | InsertIsolation isolation => set_books snapshots (<[id := isolation]> isolations) read_only reads locks s
  | NoteReadOnly b =>
      set_books snapshots isolations (if b then {[id]} ∪ read_only else read_only ∖ {[id]}) reads locks s
  end.

Definition run_sections (id : Z) (s : Server W T) (sections : list section_kind) : Server W T :=
  foldl (run_section id) s sections.

(** The sections of COMMIT, ROLLBACK, the implicit commit and KILL after the transaction
    is taken out, in the source's order; and of a MySQL BEGIN inside a transaction. *)
Definition detach_sections : list section_kind :=
  [RemoveSnapshot; RemoveIsolation; RemoveReadOnly; RemoveCurrentRead; ReleaseLocks].

Definition commit_before_begin_sections : list section_kind :=
  [ReleaseLocks; RemoveSnapshot; RemoveIsolation; RemoveReadOnly; RemoveCurrentRead].

Definition open_sections (isolation : TransactionIsolation) (read_only : bool) : list section_kind :=
  [InsertSnapshot; InsertIsolation isolation; NoteReadOnly read_only].

(** ** Commands under way *)

(** A command a session runs: the session it is about (KILL is about another one), the
    sections it has left, whether it holds the mutex of the transactions, the transaction
    it took out to commit, and the BEGIN it goes on with. *)
Record Task : Type := {
  about : Z;
  pending : list section_kind;
  holds_transactions : bool;
  taken : option T;
  reopen : option (TransactionIsolation * bool);
}.

Record Interleaved : Type := {
  server : Server W T;
  tasks : gmap Z Task;
}.

Definition transactions_free (st : Interleaved) : Prop :=
  forall runner task, tasks st !! runner = Some task -> holds_transactions task = false.

(** The part of BEGIN that runs when it has got the mutex of the transactions; [again]
    once it has committed the transaction it found. *)
Definition lock_and_begin (again : bool) (id : Z) (isolation : TransactionIsolation) (read_only : bool)
    (s : Server W T) : PgWireResult (Server W T * Task) :=
  match active_transactions s !! id with
  | Some txn =>
      if negb again && is_mysql s then
        Ok (set_transactions (delete id (active_transactions s)) s,
            {| about := id; pending := commit_before_begin_sections; holds_transactions := false;
               taken := Some txn; reopen := Some (isolation, read_only) |})
      else
        Ok (s, {| about := id; pending := if read_only then [NoteReadOnly true] else [];
                  holds_transactions := true; taken := None; reopen := None |})
  | None =>
      txn ← coded "XX000" (ks_begin_transaction (store s));
      Ok (set_transactions (<[id := txn]> (active_transactions s)) s,
          {| about := id; pending := open_sections isolation read_only; holds_transactions := true;
             taken := None; reopen := None |})
  end.

(** COMMIT ([commits]), ROLLBACK or KILL once it has the mutex of the transactions. *)
Definition lock_and_detach (commits : bool) (target : Z) (s : Server W T) : Server W T * Task :=
  (set_transactions (delete target (active_transactions s)) s,
   {| about := target; pending := detach_sections; holds_transactions := false;
      taken := if commits then active_transactions s !! target else None; reopen := None |}).

Definition advance (task : Task) (rest : list section_kind) : Task :=
  {| about := about task; pending := rest; holds_transactions := holds_transactions task;
     taken := taken task; reopen := reopen task |}.

(** [txn.commit().await?]: after an error the command ends. *)
Definition commit_taken (task : Task) (txn : T) (s : Server W T) : Server W T * Task :=
  let '(r, w, _) := kt_commit (store s) txn in
  (set_store w s,
   {| about := about task; pending := []; holds_transactions := holds_transactions task; taken := None;
      reopen := match r with Ok _ => reopen task | _ => None end |}).

(** The isolation level of a session in a transaction. *)
Definition set_isolation_task (id : Z) (isolation : TransactionIsolation) : Task :=
  {| about := id; pending := [InsertIsolation isolation; InsertSnapshot]; holds_transactions := false;
     taken := None; reopen := None |}.

Definition with_task (runner : Z) (st : Interleaved) (r : Server W T * Task) : Interleaved :=
  {| server := r.1; tasks := <[runner := r.2]> (tasks st) |}.

Inductive session_step : Interleaved -> Interleaved -> Prop :=
  | step_begin st id isolation read_only r :
      tasks st !! id = None -> transactions_free st ->
      lock_and_begin false id isolation read_only (server st) = Ok r ->
      session_step st (with_task id st r)
  | step_finish st id commits :
      tasks st !! id = None -> transactions_free st ->
      session_step st (with_task id st (lock_and_detach commits id (server st)))
  | step_kill st runner target :
      tasks st !! runner = None -> transactions_free st ->
      session_step st (with_task runner st (lock_and_detach false target (server st)))
  | step_set_isolation st id isolation :
      tasks st !! id = None -> transactions_free st -> is_Some (active_transactions (server st) !! id) ->
      session_step st (with_task id st (server st, set_isolation_task id isolation))
  | step_write st id on_txn on_store s :
      tasks st !! id = None -> transactions_free st ->
      txn_write on_txn on_store (server st) (Some id) = Ok s ->
      session_step st {| server := s; tasks := tasks st |}
  | step_section st runner task k rest :
      tasks st !! runner = Some task -> pending task = k :: rest ->
      session_step st (with_task runner st (run_section (about task) (server st) k, advance task rest))
  | step_commit st runner task txn :
      tasks st !! runner = Some task -> pending task = [] -> taken task = Some txn ->
      session_step st (with_task runner st (commit_taken task txn (server st)))
  | step_reopen st runner task isolation read_only r :
      tasks st !! runner = Some task -> pending task = [] -> taken task = None ->
      reopen task = Some (isolation, read_only) -> transactions_free st ->
      lock_and_begin true (about task) isolation read_only (server st) = Ok r ->
      session_step st (with_task runner st r)
  | step_done st runner task :
      (* the command returns; where it still had a transaction to open, with the
         store's error *)
      tasks st !! runner = Some task -> pending task = [] -> taken task = None ->
      session_step st {| server := server st; tasks := delete runner (tasks st) |}.

Definition interleaved_new (w : W) (md : GatewayMode) : Interleaved :=
  {| server := new_server w md; tasks := ∅ |}.

(** No two commands under way are about one session: no KILL of a session that is busy,
    and no command of a session that is being killed. *)
Definition undisturbed (st : Interleaved) : Prop :=
  forall r1 r2 t1 t2, tasks st !! r1 = Some t1 -> tasks st !! r2 = Some t2 ->
    about t1 = about t2 -> r1 = r2.

Definition calm_step (st st' : Interleaved) : Prop := session_step st st' /\ undisturbed st'.

(** ** Undisturbed commands put the books in order *)

(** What the maps say of a session: a transaction, an isolation level, a snapshot
    number, a read-only mark. *)
Definition View : Type := bool * bool * bool * bool.

Definition view (id : Z) (s : Server W T) : View :=
  (bool_decide (is_Some (active_transactions s !! id)),
   bool_decide (is_Some (active_transaction_isolations s !! id)),
   bool_decide (is_Some (active_transaction_snapshots s !! id)),
   bool_decide (id ∈ active_transaction_read_only s)).

Definition view_section (v : View) (k : section_kind) : View :=
  let '(t, i, n, r) := v in
  match k with
  | RemoveSnapshot => (t, i, false, r)
  | RemoveIsolation => (t, false, n, r)
  | RemoveReadOnly => (t, i, n, false)
  | RemoveCurrentRead | ReleaseLocks => v
  | InsertSnapshot => (t, i, true, r)
  | InsertIsolation _ => (t, true, n, r)
  | NoteReadOnly b => (t, i, n, b)
  end.

(** An isolation level and a snapshot exactly with a transaction, and a read-only mark
    only with one. *)
Definition in_order (v : View) : Prop :=
  let '(t, i, n, r) := v in i = t /\ n = t /\ (r = true -> t = true).

Lemma view_run_section id k s j :
  view j (run_section id s k) = if decide (j = id) then view_section (view j s) k else view j s.
Proof.
  unfold view. destruct (decide (j = id)) as [->|Hj].
  - destruct k; cbn [run_section set_books view_section active_transactions active_transaction_isolations
      active_transaction_snapshots active_transaction_read_only];
      rewrite ?lookup_delete_eq, ?lookup_insert_eq; try done; f_equal.
    + apply bool_decide_eq_false. set_solver.
    + destruct read_only; [apply bool_decide_eq_true|apply bool_decide_eq_false]; set_solver.
  - destruct k; cbn [run_section set_books active_transactions active_transaction_isolations
      active_transaction_snapshots active_transaction_read_only];
      rewrite ?lookup_delete_ne, ?lookup_insert_ne by done; try done; f_equal; apply bool_decide_ext.
    + set_solver.
    + destruct read_only; set_solver.
Qed.

Lemma view_run_sections id ks j : forall s,
  view j (run_sections id s ks) = if decide (j = id) then foldl view_section (view j s) ks else view j s.
Proof.
  unfold run_sections. induction ks as [|k ks IH]; intros s; cbn [foldl]; [by destruct (decide _)|].
  rewrite IH, view_run_section. by destruct (decide (j = id)).
Qed.

Lemma view_same id s s' :
  active_transaction_isolations s' = active_transaction_isolations s ->
  active_transaction_snapshots s' = active_transaction_snapshots s ->
  active_transaction_read_only s' = active_transaction_read_only s ->
  (is_Some (active_transactions s' !! id) <-> is_Some (active_transactions s !! id)) ->
  view id s' = view id s.
Proof. intros Hi Hs Hr Ht. unfold view. rewrite Hi, Hs, Hr. do 3 f_equal. by apply bool_decide_ext. Qed.

Lemma view_txn_write id j on_txn on_store s s' :
  txn_write on_txn on_store s (Some j) = Ok s' -> view id s' = view id s.
Proof.
  unfold txn_write, txn_of. cbn [mbind option_bind].
  destruct (active_transactions s !! j) as [txn|] eqn:E.
  - intros [= <-]. apply view_same; try done. cbn. destruct (decide (id = j)) as [->|Hj].
    + rewrite lookup_insert_eq, E. split; eauto.
    + by rewrite lookup_insert_ne.
  - intros (w' & Hw & [= <-])%bind_inv. by apply view_same.
Qed.

(** The books of the session a task is about, once its sections are run. *)
Definition settled (s : Server W T) (task : Task) : Prop :=
  in_order (foldl view_section (view (about task) s) (pending task)).

Definition steps_invariant (st : Interleaved) : Prop :=
  (forall runner task, tasks st !! runner = Some task -> settled (server st) task) /\
  (forall id, (forall runner task, tasks st !! runner = Some task -> about task <> id) ->
     in_order (view id (server st))).

(** A command that starts, or goes on, on a session whose books are in order. *)
Lemma begin_settles again id isolation read_only s r :
  lock_and_begin again id isolation read_only s = Ok r ->
  in_order (view id s) -> about r.2 = id /\ settled r.1 r.2 /\
  forall j, j <> id -> view j r.1 = view j s.
Proof.
  unfold lock_and_begin, settled. intros Hb Hv. destruct (active_transactions s !! id) as [txn|] eqn:E.
  - assert (Ht : view id s = (true, true, true, bool_decide (id ∈ active_transaction_read_only s))).
    { destruct (view id s) as [[[t i] n] rd] eqn:Ev. unfold view in Ev. injection Ev as <- <- <- <-.
      rewrite E in *. destruct Hv as (-> & -> & _). by rewrite bool_decide_eq_true_2 by eauto. }
    destruct (negb again && is_mysql s); injection Hb as <-; cbn [fst snd about pending].
    + split; [done|]. split; [|intros j Hj; apply view_same; try done; cbn; by rewrite lookup_delete_ne].
      cbn. by rewrite lookup_delete_eq, bool_decide_eq_false_2 by (by intros [? ?]).
    + split; [done|]. split; [|done]. rewrite Ht. by destruct read_only; cbn.
  - apply bind_inv in Hb as (txn & _ & [= <-]). cbn [fst snd about pending].
    split; [done|]. split; [|intros j Hj; apply view_same; try done; cbn; by rewrite lookup_insert_ne].
    cbn. by rewrite lookup_insert_eq, bool_decide_eq_true_2 by eauto.
Qed.

Lemma detach_settles commits target s :
  about (lock_and_detach commits target s).2 = target /\
  settled (lock_and_detach commits target s).1 (lock_and_detach commits target s).2 /\
  forall j, j <> target -> view j (lock_and_detach commits target s).1 = view j s.
Proof.
  split; [done|]. split; [|intros j Hj; apply view_same; try done; cbn; by rewrite lookup_delete_ne].
  unfold settled. cbn. by rewrite lookup_delete_eq, bool_decide_eq_false_2 by (by intros [? ?]).
Qed.

Lemma set_isolation_settles id isolation s : is_Some (active_transactions s !! id) ->
  in_order (view id s) -> settled s (set_isolation_task id isolation).
Proof.
  intros Ht Hv. unfold settled. cbn. unfold view in Hv. cbn in Hv.
  rewrite bool_decide_eq_true_2 in * by done. by destruct Hv as (_ & _ & Hr).
Qed.

(** Replacing a runner's task by one about the same session, or by a new task about a
    session no task was about, in a state that stays undisturbed. *)
Lemma invariant_with_task st runner r :
  steps_invariant st -> undisturbed (with_task runner st r) ->
  (forall task, tasks st !! runner = Some task -> about task = about r.2) ->
  settled r.1 r.2 -> (forall j, j <> about r.2 -> view j r.1 = view j (server st)) ->
  steps_invariant (with_task runner st r).
Proof.
  intros [Ht Hi] Hu Hold Hs Hv. unfold with_task in *. split; cbn [server tasks] in *.
  - intros r' task Hr. apply lookup_insert_Some in Hr as [[<- <-]|[Hne Hr]]; [done|].
    unfold settled. rewrite Hv; [by apply (Ht r')|]. intros Hab. apply Hne.
    symmetry. apply (Hu r' runner task r.2); cbn; [by rewrite lookup_insert_ne|by rewrite lookup_insert_eq|done].
  - intros id Hid. assert (Hne : about r.2 <> id) by (apply (Hid runner); by rewrite lookup_insert_eq).
    rewrite Hv by done. apply Hi. intros r' task Hr. destruct (decide (r' = runner)) as [->|Hr'].
    + by rewrite (Hold task Hr).
    + apply (Hid r'). by rewrite lookup_insert_ne.
Qed.

(** Nothing is about the session of a command that starts. *)
Lemma fresh_about st runner r : tasks st !! runner = None -> undisturbed (with_task runner st r) ->
  forall runner' task, tasks st !! runner' = Some task -> about task <> about r.2.
Proof.
  intros Hr Hu r' task Ht Hab.
  assert (r' = runner) as ->; [|congruence].
  assert (r' <> runner) by congruence.
  apply (Hu r' runner task r.2); cbn; [by rewrite lookup_insert_ne|by rewrite lookup_insert_eq|done].
Qed.

Lemma settled_done (s : Server W T) task : pending task = [] -> settled s task -> in_order (view (about task) s).
Proof. unfold settled. by intros ->. Qed.

Lemma invariant_step st st' : calm_step st st' -> steps_invariant st -> steps_invariant st'.
Proof.
  intros [Hstep Hu] Hinv. pose proof Hinv as [Ht Hi].
  destruct Hstep as [st id iso ro r Hid Hf Hb|st id commits Hid Hf|st runner target Hid Hf|st id iso Hid Hf Hx
    |st id on_txn on_store s Hid Hf Hw|st runner task k rest Hr Hp|st runner task txn Hr Hp Hk
    |st runner task iso ro r Hr Hp Hk Ho Hf Hb|st runner task Hr Hp Hk].
  - pose proof (fresh_about _ _ _ Hid Hu) as Hfr.
    assert (Hv : in_order (view id (server st))).
    { apply Hi. intros r' task Hr'. specialize (Hfr r' task Hr').
      unfold lock_and_begin in Hb. by repeat case_match; simplify_eq; try (apply bind_inv in Hb as (? & _ & [= <-])). }
    destruct (begin_settles _ _ _ _ _ _ Hb Hv) as (Hab & Hs & Hj).
    apply invariant_with_task; try done; [congruence|by rewrite Hab].
  - destruct (detach_settles commits id (server st)) as (Hab & Hs & Hj).
    apply invariant_with_task; try done; congruence.
  - destruct (detach_settles false target (server st)) as (Hab & Hs & Hj).
    apply invariant_with_task; try done; congruence.
  - pose proof (fresh_about _ _ _ Hid Hu) as Hfr.
    apply invariant_with_task; try done; [congruence|]. apply set_isolation_settles; [done|].
    apply Hi. exact Hfr.
  - split; cbn [server tasks].
    + intros r' task Hr. unfold settled. rewrite (view_txn_write _ _ _ _ _ _ Hw). by apply (Ht r').
    + intros j Hj. rewrite (view_txn_write _ _ _ _ _ _ Hw). by apply Hi.
  - apply invariant_with_task; cbn [fst snd about advance]; try done.
    + intros task' Hr'. congruence.
    + pose proof (Ht _ _ Hr) as Hs. unfold settled in *. cbn [about pending advance].
      rewrite view_run_section, decide_True by done. by rewrite Hp in Hs.
    + intros j Hj. rewrite view_run_section. by destruct (decide (j = about task)).
  - pose proof (settled_done _ _ Hp (Ht _ _ Hr)) as Hs. unfold commit_taken in *.
    destruct (kt_commit (store (server st)) txn) as [[res w] t'].
    apply invariant_with_task; cbn [fst snd about]; try done.
    intros task' Hr'. congruence.
  - pose proof (settled_done _ _ Hp (Ht _ _ Hr)) as Hs.
    destruct (begin_settles _ _ _ _ _ _ Hb Hs) as (Hab & Hs' & Hj).
    apply invariant_with_task; try done; [|by rewrite Hab]. intros task' Hr'. rewrite Hab. congruence.
  - pose proof (settled_done _ _ Hp (Ht _ _ Hr)) as Hs. split; cbn [server tasks].
    + intros r' task' Hr'. apply lookup_delete_Some in Hr' as [_ Hr']. by apply (Ht r').
    + intros id Hid. destruct (decide (about task = id)) as [<-|Hne]; [done|]. apply Hi.
      intros r' task' Hr'. destruct (decide (r' = runner)) as [->|Hr''].
      * congruence.
      * apply (Hid r'). by rewrite lookup_delete_ne.
Qed.

Lemma invariant_calm st st' : rtc calm_step st st' -> steps_invariant st -> steps_invariant st'.
Proof. induction 1 as [|st1 st2 st3 H12 _ IH]; [done|]. intros Hi. by apply IH, (invariant_step st1). Qed.

Lemma invariant_new (w : W) md : steps_invariant (interleaved_new w md).
Proof.
  split; [intros r task Hr; cbn in Hr; by rewrite lookup_empty in Hr|]. intros id _.
  unfold view. cbn. rewrite !lookup_empty. split; [|split]; try (by apply bool_decide_ext).
  intros Hr%bool_decide_eq_true. set_solver.
Qed.

(** ** The commands of [Session] are the uninterrupted runs *)

Lemma detach_session_runs id s c :
  detach_session id (s, c) =
  (Ok (active_transactions s !! id),
   (run_sections id (lock_and_detach true id s).1 (pending (lock_and_detach true id s).2), c)).
Proof. by destruct s. Qed.

(** BEGIN outside a transaction, and inside one in PostgreSQL mode. *)
Lemma begin_runs id isolation read_only s c r :
  client_pid c = id -> lock_and_begin true id isolation read_only s = Ok r ->
  exists c', begin_or_continue id (Some isolation) read_only (s, c) =
    (Ok [CommandComplete "BEGIN"], (run_sections id r.1 (pending r.2), c')).
Proof.
  intros Hc. unfold lock_and_begin, begin_or_continue, has_active_transaction, mbind, cmd_bind. cbn.
  rewrite Hc. destruct (active_transactions s !! id) as [txn|] eqn:E.
  - intros [= <-]. rewrite bool_decide_eq_true_2 by eauto. destruct read_only; cbn; by eexists; destruct s.
  - intros (txn & Ht & [= <-])%bind_inv. rewrite bool_decide_eq_false_2 by (by intros [? ?]).
    cbn. rewrite Ht. cbn. eexists. by destruct s, read_only.
Qed.

(** A MySQL BEGIN inside a transaction takes it out, clears the maps and commits it. *)
Lemma commit_before_begin_runs id isolation read_only s c r txn :
  lock_and_begin false id isolation read_only s = Ok r -> taken r.2 = Some txn ->
  (commit_before_begin id (s, c)).2.1 =
    (commit_taken r.2 txn (run_sections id r.1 (pending r.2))).1.
Proof.
  unfold lock_and_begin. destruct (active_transactions s !! id) as [txn'|] eqn:E.
  2: { intros (t & _ & [= <-])%bind_inv. discriminate. }
  destruct (negb false && is_mysql s); intros [= <-]; [|discriminate]. cbn [taken snd].
  intros [= ->]. unfold commit_before_begin, take_transaction, commit_transaction, mbind, cmd_bind. cbn.
  rewrite E. cbn. unfold commit_taken. cbn.
  destruct (kt_commit (store s) txn) as [[res w] t']. by destruct res as [|e| |].
Qed.

(** ** Schedules, run *)

Inductive event : Type :=
  | EBegin (id : Z) (isolation : TransactionIsolation) (read_only : bool)
  | EFinish (id : Z) (commits : bool)
  | EKill (runner target : Z)
  | ESetIsolation (id : Z) (isolation : TransactionIsolation)
  | ENext (runner : Z)
      (** the next section of the command the session runs *).

Definition transactions_freeb (st : Interleaved) : bool :=
  forallb (fun rt => negb (holds_transactions rt.2)) (map_to_list (tasks st)).

Definition undisturbedb (st : Interleaved) : bool :=
  bool_decide (NoDup (map (fun rt => about rt.2) (map_to_list (tasks st)))).

Definition play (st : Interleaved) (e : event) : option Interleaved :=
  let starts (id : Z) : bool := bool_decide (tasks st !! id = None) && transactions_freeb st in
  match e with
  | EBegin id isolation read_only =>
      if starts id then
        match lock_and_begin false id isolation read_only (server st) with
        | Ok r => Some (with_task id st r)
        | _ => None
        end
      else None
  | EFinish id commits =>
      if starts id then Some (with_task id st (lock_and_detach commits id (server st))) else None
  | EKill runner target =>
      if starts runner then Some (with_task runner st (lock_and_detach false target (server st))) else None
  | ESetIsolation id isolation =>
      if starts id && bool_decide (is_Some (active_transactions (server st) !! id))
      then Some (with_task id st (server st, set_isolation_task id isolation)) else None
  | ENext runner =>
      task ← tasks st !! runner;
      match pending task, taken task, reopen task with
      | k :: rest, _, _ =>
          Some (with_task runner st (run_section (about task) (server st) k, advance task rest))
      | [], Some txn, _ => Some (with_task runner st (commit_taken task txn (server st)))
      | [], None, Some (isolation, read_only) =>
          if transactions_freeb st then
            match lock_and_begin true (about task) isolation read_only (server st) with
            | Ok r => Some (with_task runner st r)
            | _ => None
            end
          else None
      | [], None, None => Some {| server := server st; tasks := delete runner (tasks st) |}
      end
  end.

Fixpoint play_all (st : Interleaved) (es : list event) : option Interleaved :=
  match es with
  | [] => Some st
  | e :: es => st ← play st e; play_all st es
  end.

Fixpoint play_calm (st : Interleaved) (es : list event) : option Interleaved :=
  match es with
  | [] => Some st
  | e :: es => st ← play st e; if undisturbedb st then play_calm st es else None
  end.

Lemma transactions_freeb_sound st : transactions_freeb st = true -> transactions_free st.
Proof.
  unfold transactions_freeb. rewrite forallb_forall. intros Hf runner task Ht.
  apply elem_of_map_to_list, list_elem_of_In, Hf in Ht. cbn in Ht. by apply negb_true_iff.
Qed.

Lemma undisturbedb_sound st : undisturbedb st = true -> undisturbed st.
Proof.
  unfold undisturbedb. intros Hn%bool_decide_eq_true r1 r2 t1 t2 H1 H2 Hab.
  apply elem_of_map_to_list, list_elem_of_lookup in H1 as [i1 H1].
  apply elem_of_map_to_list, list_elem_of_lookup in H2 as [i2 H2].
  assert (i1 = i2) as ->; [|congruence].
  apply (NoDup_lookup _ _ _ (about t1) Hn); rewrite list_lookup_fmap.
  - by rewrite H1.
  - by rewrite H2, Hab.
Qed.

Lemma play_sound st e st' : play st e = Some st' -> session_step st st'.
Proof.
  intros Hp. destruct e as [id iso ro|id commits|runner target|id iso|runner]; cbn [play] in Hp.
  - destruct (_ && _) eqn:E; [|done]. apply andb_true_iff in E as [Hn%bool_decide_eq_true Hf%transactions_freeb_sound].
    destruct (lock_and_begin _ _ _ _ _) as [r| | |] eqn:Hr; try done. injection Hp as <-.
    by eapply step_begin.
  - destruct (_ && _) eqn:E; [|done]. apply andb_true_iff in E as [Hn%bool_decide_eq_true Hf%transactions_freeb_sound].
    injection Hp as <-. by apply step_finish.
  - destruct (_ && _) eqn:E; [|done]. apply andb_true_iff in E as [Hn%bool_decide_eq_true Hf%transactions_freeb_sound].
    injection Hp as <-. by apply step_kill.
  - destruct (_ && _) eqn:E; [|done].
    apply andb_true_iff in E as [[Hn%bool_decide_eq_true Hf%transactions_freeb_sound]%andb_true_iff Hx%bool_decide_eq_true].
    injection Hp as <-. by apply step_set_isolation.
  - destruct (tasks st !! runner) as [task|] eqn:Ht; [|done]. cbn [mbind option_bind] in Hp.
    destruct (pending task) as [|k rest] eqn:Hk; [|injection Hp as <-; by apply step_section].
    destruct (taken task) as [txn|] eqn:Htk; [injection Hp as <-; by eapply step_commit|].
    destruct (reopen task) as [[iso ro]|] eqn:Hro; [|injection Hp as <-; by eapply step_done].
    destruct (transactions_freeb st) eqn:Hf; [|done]. apply transactions_freeb_sound in Hf.
    destruct (lock_and_begin _ _ _ _ _) as [r| | |] eqn:Hr; try done. injection Hp as <-.
    by eapply step_reopen.
Qed.

Lemma play_all_sound es : forall st st', play_all st es = Some st' -> rtc session_step st st'.
Proof.
  induction es as [|e es IH]; intros st st' Hp; cbn [play_all] in Hp; [injection Hp as <-; apply rtc_refl|].
  destruct (play st e) as [st1|] eqn:E; [|done]. eapply rtc_l; [by apply play_sound in E|by apply IH].
Qed.

Lemma play_calm_sound es : forall st st', play_calm st es = Some st' -> rtc calm_step st st'.
Proof.
  induction es as [|e es IH]; intros st st' Hp; cbn [play_calm] in Hp; [injection Hp as <-; apply rtc_refl|].
  destruct (play st e) as [st1|] eqn:E; [|done]. cbn [mbind option_bind] in Hp.
  destruct (undisturbedb st1) eqn:Hu; [|done].
  eapply rtc_l; [split; [by apply play_sound in E|by apply undisturbedb_sound]|by apply IH].
Qed.
End Sections.
Arguments Task : clear implicits.
Arguments Interleaved : clear implicits.

Lemma bool_decide_same (P Q : Prop) `{Decision P, Decision Q} :
  bool_decide P = bool_decide Q -> (P <-> Q).
Proof.
  intros Hb. split; intros Hx; [apply (bool_decide_eq_true Q)|apply (bool_decide_eq_true P)];
    [rewrite <- Hb|rewrite Hb]; by apply bool_decide_eq_true_2.
Qed.

(** ** Properties *)

(** C12. The books of the sessions, with commands interleaved mutex by mutex.  Let any
    number of sessions run BEGIN, COMMIT, ROLLBACK, KILL, SET TRANSACTION and writes at
    the same time, each command a sequence of sections under the mutexes of
    the source, of which the others run theirs in between.  As long as no two commands
    under way are about one session (no KILL of a session inside a command of its own),
    a session that no command is about has an isolation level and a snapshot number
    exactly when it has a transaction, and is marked read only only with one: nothing
    of a finished or killed transaction weighs on its next statements. *)
Theorem session_books_interleaved `{KvStoreApi W T, !KvTransaction T W} (w : W) (md : GatewayMode)
    (st : Interleaved W T) (id : Z) :
  rtc calm_step (interleaved_new w md) st ->
  (forall runner task, tasks st !! runner = Some task -> about task <> id) ->
  let s := server st in
  (is_Some (active_transaction_isolations s !! id) <-> is_Some (active_transactions s !! id)) /\
  (is_Some (active_transaction_snapshots s !! id) <-> is_Some (active_transactions s !! id)) /\
  (id ∈ active_transaction_read_only s -> is_Some (active_transactions s !! id)).
Proof.
  intros Hst Hid s. pose proof (invariant_calm _ _ Hst (invariant_new w md)) as [_ Hi].
  destruct (Hi id Hid) as (H1 & H2 & H3). rewrite !bool_decide_eq_true in H3.
  split; [exact (bool_decide_same _ _ H1)|]. split; [exact (bool_decide_same _ _ H2)|exact H3].
Qed.

(** Sessions 1 and 2 begin and commit with their sections in between each other's, while
    session 3 kills a session that is not there. *)
Definition crossing : list event :=
  [EFinish 2 true; EKill 3 4; ENext 2; EBegin 1 RepeatableRead true; ENext 3; ENext 1; ENext 2; ENext 1;
   ENext 3; ENext 1; ENext 2; ENext 1; EBegin 5 ReadCommitted false].

Definition crossed : option (Interleaved kvmap MemoryTransaction) :=
  play_calm (interleaved_new sample_table MySql) crossing.

Definition none_about {W T} (id : Z) (st : Interleaved W T) : bool :=
  forallb (fun rt => negb (about rt.2 =? id)) (map_to_list (tasks st)).

Lemma none_about_sound {W T} id (st : Interleaved W T) : none_about id st = true ->
  forall runner task, tasks st !! runner = Some task -> about task <> id.
Proof.
  unfold none_about. rewrite forallb_forall. intros Hf runner task Ht Hab.
  apply elem_of_map_to_list, list_elem_of_In, Hf in Ht. cbn in Ht. rewrite Hab, Z.eqb_refl in Ht. done.
Qed.

Lemma session_books_interleaved_witness :
  exists st, crossed = Some st /\ is_Some (active_transaction_isolations (server st) !! 1).
Proof.
  assert (Hc : match crossed with
    | Some st => none_about 1 st && bool_decide (is_Some (active_transactions (server st) !! 1))
    | None => false end = true) by (vm_compute; reflexivity).
  destruct crossed as [st|] eqn:E; [|discriminate Hc].
  apply andb_true_iff in Hc as [Hn Ht%bool_decide_eq_true]. exists st. split; [reflexivity|].
  apply (session_books_interleaved sample_table MySql st 1); [|by apply none_about_sound|exact Ht].
  by apply (play_calm_sound crossing).
Defined.

(** ** A KILL inside a command *)

(** Session 2 kills session 1 and has taken the transaction out; session 1 begins
    the next one; session 2 goes on clearing the maps. *)
Definition kill_overtaken : list event :=
  [EKill 2 1; EBegin 1 RepeatableRead true; ENext 1; ENext 1; ENext 1; ENext 1;
   ENext 2; ENext 2; ENext 2; ENext 2; ENext 2; ENext 2].

(** The new transaction has lost its isolation level, its snapshot number and its
    read-only mark: begun at REPEATABLE READ, it reads the current rows. *)
Example killed_begin_loses_its_books :
  exists st : Interleaved kvmap MemoryTransaction,
    rtc session_step (interleaved_new sample_table MySql) st /\ tasks st = ∅ /\
    is_Some (active_transactions (server st) !! 1) /\
    active_transaction_isolations (server st) !! 1 = None /\
    active_transaction_snapshots (server st) !! 1 = None /\
    1 ∉ active_transaction_read_only (server st) /\
    use_consistent_read (server st) (Some 1) = false.
Proof.
  pose (s := fun st : Interleaved kvmap MemoryTransaction => server st).
  assert (Hc : match play_all (interleaved_new sample_table MySql) kill_overtaken with
    | Some st => bool_decide (tasks st = ∅ /\ is_Some (active_transactions (s st) !! 1) /\
        active_transaction_isolations (s st) !! 1 = None /\
        active_transaction_snapshots (s st) !! 1 = None /\
        1 ∉ active_transaction_read_only (s st) /\
        use_consistent_read (s st) (Some 1) = false)
    | None => false end = true) by (vm_compute; reflexivity).
  destruct (play_all _ _) as [st|] eqn:E; [|discriminate Hc]. apply bool_decide_eq_true in Hc.
  exists st. split; [by apply (play_all_sound kill_overtaken)|exact Hc].
Qed.

(** Session 1 sets its isolation level and has found its transaction; session 2 kills
    it; session 1 writes the level. *)
Definition isolation_overtaken : list event :=
  [EBegin 1 ReadCommitted false; ENext 1; ENext 1; ENext 1; ENext 1;
   ESetIsolation 1 RepeatableRead; EKill 2 1; ENext 2; ENext 2; ENext 2; ENext 2; ENext 2; ENext 2;
   ENext 1; ENext 1; ENext 1].

(** A session without a transaction keeps the isolation level of the killed one. *)
Example killed_session_keeps_isolation :
  exists st : Interleaved kvmap MemoryTransaction,
    rtc session_step (interleaved_new sample_table MySql) st /\ tasks st = ∅ /\
    active_transactions (server st) !! 1 = None /\
    active_transaction_isolations (server st) !! 1 = Some RepeatableRead.
Proof.
  pose (s := fun st : Interleaved kvmap MemoryTransaction => server st).
  assert (Hc : match play_all (interleaved_new sample_table MySql) isolation_overtaken with
    | Some st => bool_decide (tasks st = ∅ /\ active_transactions (s st) !! 1 = None /\
        active_transaction_isolations (s st) !! 1 = Some RepeatableRead)
    | None => false end = true) by (vm_compute; reflexivity).
  destruct (play_all _ _) as [st|] eqn:E; [|discriminate Hc]. apply bool_decide_eq_true in Hc.
  exists st. split; [by apply (play_all_sound isolation_overtaken)|exact Hc].
Qed.
