(* ===== verification/Sequences.v ===== *)
(** * Sequences, row ids and inserted rows

    The counters of src/src/core/server/transactions.rs ([allocate_internal_row_id],
    [allocate_sequence_value], [advance_sequence_to_at_least], the AUTO_INCREMENT
    helpers) with the state codec of src/src/core/server/shared.rs, the [nextval]
    defaults of src/src/sql/values/default_expr.rs, and the row INSERT builds from its
    values and the columns' defaults.

    A counter is read and written straight in the store, outside any transaction, by
    two calls with nothing held in between: [allocate_from] is what follows the read. *)

From stdpp Require Import pretty.
From S2P Require Import Prelude BTree Float Types Values Text Mode TupleCodec KeyCodec LegacyCodec RowCodec KvStore.
From S2P Require Import Stores Server Session.

(** ** Names and state *)

Definition DEFAULT_SCHEMA_NAME : string := "public".

Definition unsupported {A} (message : string) : PgWireResult A := user_error "0A000" message.

(** [resolve_table_reference]. *)
Definition resolve_table_reference (name : string) : PgWireResult (string * string) :=
  match split_on x2e (as_bytes name) with
  | [table] => Ok (DEFAULT_SCHEMA_NAME, of_bytes table)
  | [schema; table] => Ok (of_bytes schema, of_bytes table)
  | _ => unsupported "only table or schema.table references are supported"
  end.

Definition resolve_sequence_name (default_schema_name sequence : string) : PgWireResult (string * string) :=
  if has (as_bytes sequence) "." then resolve_table_reference sequence
  else Ok (default_schema_name, sequence).

Definition sequence_state_key (database schema sequence : string) : key :=
  as_bytes ("__catalog__/sequences/" +:+ database +:+ "/" +:+ schema +:+ "/" +:+ sequence)%string.

Definition encode_sequence_state (next increment : Z) : list byte := to_be 8 next ++ to_be 8 increment.

Definition decode_sequence_state (bytes : list byte) : PgWireResult (Z * Z) :=
  if negb (length bytes =? 16)%nat then user_error "XX000" "sequence state is malformed"
  else Ok (i64_from_be (take 8 bytes), i64_from_be (drop 8 bytes)).

Definition serial_sequence_name (schema table column : string) : string :=
  (schema +:+ "." +:+ table +:+ "_" +:+ column +:+ "_seq")%string.

(** The default a SERIAL or AUTO_INCREMENT column gets (ddl_create_table.rs). *)
Definition serial_default (schema table column : string) : string :=
  ("nextval('" +:+ serial_sequence_name schema table column +:+ "')")%string.

Definition is_quote (b : byte) : bool := is_byte x27 b.
Definition is_double_quote (b : byte) : bool := is_byte x22 b.

(** [nextval_sequence_name]: the test ignores case, the stripping does not. *)
Definition nextval_sequence_name (default_sql : string) : option string :=
  let trimmed := trim (as_bytes default_sql) in
  let lowered := lower trimmed in
  if negb (has_prefix lowered "nextval(") || negb (bool_decide (last lowered = Some x29)) then None
  else
    inner ← without_prefix trimmed "nextval(";
    inner ← strip_suffix1 x29 inner;
    Some (of_bytes (trim_matches is_quote (trim_end_string "::regclass"
      (trim_matches is_double_quote (trim_matches is_quote (trim inner)))))).

Definition mysql_auto_increment_column (schema : TableSchema) : option ColumnSchema :=
  List.find (fun c => (primary_key_col c || bool_decide (col_name c = primary_key schema)) &&
    bool_decide (is_Some (col_default c ≫= nextval_sequence_name))) (columns schema).

Definition column_value_to_i64 (v : ColumnValue) : option Z :=
  match v with
  | Int16 z | Int32 z | Int64 z => Some z
  | Numeric s | Text s => parse_i64 (as_bytes s)
  | _ => None
  end.

(** The value a counter gives to a column: the integer in the constructor the column
    asks for, or an error when it does not fit. *)
Definition sequence_column_value (t : DataType) (current : Z) : PgWireResult ColumnValue :=
  let i16 (message : string) : PgWireResult ColumnValue :=
    if (-2 ^ 15 <=? current) && (current <? 2 ^ 15) then Ok (Int16 current) else user_error "22003" message in
  let i32 (message : string) : PgWireResult ColumnValue :=
    if (-2 ^ 31 <=? current) && (current <? 2 ^ 31) then Ok (Int32 current) else user_error "22003" message in
  match t with
  | DT.Int16 => i16 "sequence value is out of range for INT2"
  | DT.Int32 => i32 "sequence value is out of range for INT4"
  | DT.Int64 => Ok (Int64 current)
  | DT.MySqlInt (Tiny | Small) false => i16 "sequence value is out of range"
  | DT.MySqlInt (Medium | KInt) false => i32 "sequence value is out of range"
  | _ => Ok (Int64 current)
  end%string.

(** ** The counters *)

Section Counters.
Context {W T : Type} `{KvStoreApi W T}.

(** [self.store.get(..)] and [self.store.put(..)]. *)
Definition store_read (k : key) : Cmd W T (option (list byte)) := fun s =>
  (coded "XX000" (ks_get (store s.1) k), s).
Definition store_write (k : key) (v : list byte) : Cmd W T unit :=
  writes (fun s => w ← ks_put k v (store s); Ok (set_store w s)).

Definition row_id_key (table_id : Z) : key :=
  as_bytes ("__catalog__/tables/next-row-id/" +:+ pretty table_id)%string.

(** [i64::from_be_bytes(raw) + 1], in a release build. *)
Definition next_row_id (current : option (list byte)) : PgWireResult Z :=
  match current with
  | None => Ok 1
  | Some bytes =>
      if negb (length bytes =? 8)%nat then user_error "XX000" "row id counter is malformed"
      else Ok (to_signed 64 ((i64_from_be bytes + 1) mod 2 ^ 64))
  end.

Definition allocate_internal_row_id (table_id : Z) : Cmd W T ColumnValue :=
  let k := row_id_key table_id in
  current ← store_read k;
  next ← cmd_lift (next_row_id current);
  _ ← store_write k (to_be 8 next);
  mret (Int64 next).

Definition create_sequence_at (database_name schema_name sequence_name : string) (if_not_exists : bool)
    (start increment : Z) : Cmd W T unit :=
  let k := sequence_state_key database_name schema_name sequence_name in
  existing ← store_read k;
  match existing with
  | Some _ =>
      if if_not_exists then mret tt
      else cmd_fail "42P07" ("sequence '" +:+ schema_name +:+ "." +:+ sequence_name +:+ "' already exists")
  | None => store_write k (encode_sequence_state start increment)
  end.

Definition missing_sequence {A} (schema_name sequence_name : string) : PgWireResult A :=
  user_error "42P01" ("sequence '" +:+ schema_name +:+ "." +:+ sequence_name +:+ "' does not exist").

(** The part of [allocate_sequence_value] after the counter is read. *)
Definition allocate_from (k : key) (bytes : list byte) (t : DataType) : Cmd W T ColumnValue :=
  state ← cmd_lift (decode_sequence_state bytes);
  let '(current, increment) := (state : Z * Z) in
  next ← cmd_lift (ok_or (PgError "2200H" "sequence generator limit exceeded")
                     (i64_checked_add current increment));
  _ ← store_write k (encode_sequence_state next increment);
  cmd_lift (sequence_column_value t current).

(** A counter's key, and its state, which must exist. *)
Definition read_sequence (database_name default_schema_name sequence : string) : Cmd W T (key * list byte) :=
  names ← cmd_lift (resolve_sequence_name default_schema_name sequence);
  let '(schema_name, sequence_name) := (names : string * string) in
  let k := sequence_state_key database_name schema_name sequence_name in
  current ← store_read k;
  bytes ← cmd_lift (match current with
                    | Some bytes => Ok bytes
                    | None => missing_sequence schema_name sequence_name
                    end);
  mret (k, bytes).

Definition allocate_sequence_value (database_name default_schema_name sequence : string) (t : DataType)
    : Cmd W T ColumnValue :=
  read ← read_sequence database_name default_schema_name sequence;
  allocate_from (read : key * list byte).1 read.2 t.

Definition advance_sequence_to_at_least (database_name default_schema_name sequence : string)
    (minimum_next : Z) : Cmd W T unit :=
  read ← read_sequence database_name default_schema_name sequence;
  let '(k, bytes) := (read : key * list byte) in
  state ← cmd_lift (decode_sequence_state bytes);
  let '(current, increment) := (state : Z * Z) in
  if current <? minimum_next then store_write k (encode_sequence_state minimum_next increment) else mret tt.

Definition advance_auto_increment_from_row (database_name schema_name : string) (schema : TableSchema)
    (row : RowMap) : Cmd W T (option Z) :=
  match mysql_auto_increment_column schema with
  | None => mret None
  | Some column =>
      match row !! col_name column ≫= column_value_to_i64 with
      | None => mret None
      | Some value =>
          _ ← (match col_default column ≫= nextval_sequence_name with
               | Some sequence =>
                   advance_sequence_to_at_least database_name schema_name sequence
                     (i64_saturating_add value 1)
               | None => mret tt
               end);
          mret (Some value)
      end
  end.

Definition reset_auto_increment_sequence (database_name schema_name : string) (schema : TableSchema)
    : Cmd W T unit :=
  match mysql_auto_increment_column schema with
  | None => mret tt
  | Some column =>
      match col_default column ≫= nextval_sequence_name with
      | None => mret tt
      | Some sequence =>
          read ← read_sequence database_name schema_name sequence;
          let '(k, bytes) := (read : key * list byte) in
          state ← cmd_lift (decode_sequence_state bytes);
          store_write k (encode_sequence_state 1 (state : Z * Z).2)
      end
  end.

(** ** The row of an INSERT *)

(** The SQL evaluator: constant expressions of a statement and of a default. *)
Context {Expr : Type} (is_default_expr : Expr -> bool)
  (sql_expr_to_column_value : Expr -> DataType -> PgWireResult ColumnValue)
  (column_default_value : string -> DataType -> PgWireResult ColumnValue).

Definition column_default_value_at (database_name schema_name : string) (column : ColumnSchema)
    : Cmd W T ColumnValue :=
  match col_default column with
  | None => mret Null
  | Some default_sql =>
      match nextval_sequence_name default_sql with
      | Some sequence => allocate_sequence_value database_name schema_name sequence (data_type column)
      | None => cmd_lift (column_default_value default_sql (data_type column))
      end
  end.

Definition column_not_found {A} (name : string) : PgWireResult A :=
  user_error "42703" ("column '" +:+ name +:+ "' not found").

(** The value given for a column: its default where the statement says DEFAULT. *)
Definition provided_value (database_name schema_name : string) (schema : TableSchema) (name : string)
    (expr : Expr) : Cmd W T ColumnValue :=
  column ← cmd_lift (match find_column schema name with Some c => Ok c | None => column_not_found name end);
  if is_default_expr expr then column_default_value_at database_name schema_name column
  else cmd_lift (sql_expr_to_column_value expr (data_type column)).

Fixpoint provide (database_name schema_name : string) (schema : TableSchema) (provided : RowMap)
    (pairs : list (string * Expr)) : Cmd W T RowMap :=
  match pairs with
  | [] => mret provided
  | (name, expr) :: rest =>
      value ← provided_value database_name schema_name schema name expr;
      provide database_name schema_name schema (<[name := value]> provided) rest
  end.

(** The schema's columns in order: what was provided, or the default. *)
Fixpoint complete_row (database_name schema_name : string) (provided row : RowMap)
    (cols : list ColumnSchema) : Cmd W T RowMap :=
  match cols with
  | [] => mret row
  | column :: rest =>
      value ← (match provided !! col_name column with
               | Some value => mret value
               | None => column_default_value_at database_name schema_name column
               end);
      complete_row database_name schema_name (delete (col_name column) provided)
        (<[col_name column := value]> row) rest
  end.

Definition build_insert_row_at (database_name schema_name : string) (schema : TableSchema)
    (cols : list string) (values : list Expr) : Cmd W T RowMap :=
  let source_columns := match cols with [] => column_names schema | _ => cols end in
  if negb (length source_columns =? length values)%nat then
    cmd_lift (unsupported "INSERT fast-path requires the same number of columns and values")
  else
    provided ← provide database_name schema_name schema ∅ (combine source_columns values);
    complete_row database_name schema_name provided ∅ (columns schema).

(** The same from assignments; [extract_assignment_column] has been applied. *)
Definition build_insert_row_from_assignments_at (database_name schema_name : string)
    (schema : TableSchema) (assignments : list (string * Expr)) : Cmd W T RowMap :=
  provided ← provide database_name schema_name schema ∅ assignments;
  complete_row database_name schema_name provided ∅ (columns schema).
End Counters.

(** ** The state of a sequence *)

Lemma sequence_state_roundtrip next increment : in_signed 64 next -> in_signed 64 increment ->
  decode_sequence_state (encode_sequence_state next increment) = Ok (next, increment).
Proof.
  intros Hn Hi. unfold decode_sequence_state, encode_sequence_state.
  rewrite length_app, !length_to_be. cbn [Nat.add Nat.eqb negb].
  rewrite take_app_length' by (by rewrite length_to_be). rewrite drop_app_length' by (by rewrite length_to_be).
  unfold i64_from_be. by rewrite !(signed_be_roundtrip 8) by done.
Qed.

Section CounterFacts.
Context {W T : Type} `{KvStoreLaws W T}.

(** The server's store, with [rows] in it and nothing else changed. *)
Definition stores (s s' : Server W T * Client) (rows : kvmap) : Prop :=
  exists w, s' = (set_store w s.1, s.2) /\ store_rows w = rows.

Lemma stores_rows s s' rows : stores s s' rows -> store_rows (store s'.1) = rows.
Proof. by intros (w & -> & <-). Qed.

Lemma store_write_spec k v (s : Server W T * Client) : exists s',
  store_write k v s = (Ok tt, s') /\ stores s s' (<[k := v]> (store_rows (store s.1))).
Proof.
  unfold store_write, writes. destruct (law_ks_put k v (store s.1)) as (w & -> & Hw). cbn.
  eexists. split; [done|]. by exists w.
Qed.

Lemma allocate_from_spec k (cur inc : Z) t s : in_signed 64 cur -> in_signed 64 inc ->
  match i64_checked_add cur inc with
  | None => allocate_from k (encode_sequence_state cur inc) t s =
      (user_error "2200H" "sequence generator limit exceeded", s)
  | Some next => exists s',
      allocate_from k (encode_sequence_state cur inc) t s = (sequence_column_value t cur, s') /\
      stores s s' (<[k := encode_sequence_state next inc]> (store_rows (store s.1)))
  end.
Proof.
  intros Hc Hi. unfold allocate_from, cmd_lift, mbind, cmd_bind. rewrite sequence_state_roundtrip by done.
  destruct (i64_checked_add cur inc) as [next|]; [|done]. cbn [ok_or].
  destruct (store_write_spec k (encode_sequence_state next inc) s) as (s' & -> & Hs'). by exists s'.
Qed.

(** The sequence a name resolves to stands at [cur]. *)
Definition sequence_at (s : Server W T) (db sc name : string) (k : key) (cur inc : Z) : Prop :=
  in_signed 64 cur /\ in_signed 64 inc /\
  match resolve_sequence_name sc name with
  | Ok (schema, q) => k = sequence_state_key db schema q
  | _ => False
  end /\
  store_rows (store s) !! k = Some (encode_sequence_state cur inc).

Lemma read_sequence_spec s db sc name k cur inc : sequence_at s.1 db sc name k cur inc ->
  read_sequence db sc name s = (Ok (k, encode_sequence_state cur inc), s).
Proof.
  intros (_ & _ & Hk & Hr). unfold read_sequence, mbind, cmd_bind, cmd_lift, store_read.
  destruct (resolve_sequence_name sc name) as [[schema q]| | |]; try done. subst k.
  by rewrite law_ks_get, Hr.
Qed.

Lemma sequence_at_next s s' db sc name k cur inc next rows : sequence_at s.1 db sc name k cur inc ->
  stores s s' (<[k := encode_sequence_state next inc]> rows) -> in_signed 64 next ->
  sequence_at s'.1 db sc name k next inc.
Proof.
  intros (Hc & Hi & Hk & _) Hs Hn. unfold sequence_at. rewrite (stores_rows _ _ _ Hs).
  by rewrite lookup_insert_eq.
Qed.

Lemma i64_checked_add_some a b n : i64_checked_add a b = Some n -> n = a + b /\ in_signed 64 n.
Proof.
  unfold i64_checked_add, i64_checked, in_signed, i64_min, i64_max. destruct (_ && _) eqn:E; [|done].
  intros [= <-]. split; [done|]. lia.
Qed.

Lemma allocate_spec s db sc name k cur inc t : sequence_at s.1 db sc name k cur inc ->
  match i64_checked_add cur inc with
  | None => allocate_sequence_value db sc name t s =
      (user_error "2200H" "sequence generator limit exceeded", s)
  | Some next => exists s',
      allocate_sequence_value db sc name t s = (sequence_column_value t cur, s') /\
      stores s s' (<[k := encode_sequence_state next inc]> (store_rows (store s.1))) /\
      sequence_at s'.1 db sc name k next inc
  end.
Proof.
  intros Hs. pose proof Hs as (Hc & Hi & _ & _). pose proof (allocate_from_spec k cur inc t s Hc Hi) as Ha.
  unfold allocate_sequence_value, mbind, cmd_bind. rewrite (read_sequence_spec s db sc name k cur inc Hs). cbn [fst snd].
  destruct (i64_checked_add cur inc) as [next|] eqn:En; [|done].
  destruct Ha as (s' & -> & Hst). exists s'. split; [done|]. split; [done|].
  apply i64_checked_add_some in En as [_ En]. by eapply sequence_at_next.
Qed.
End CounterFacts.

(** ** Names *)

Lemma trim_start_matches_plain (p : byte -> bool) b l : p b = false ->
  trim_start_matches p (b :: l) = b :: l.
Proof. cbn. by intros ->. Qed.

Lemma trim_matches_plain (p : byte -> bool) b l r c : b :: l = r ++ [c] -> p b = false -> p c = false ->
  trim_matches p (b :: l) = b :: l.
Proof.
  intros E Hb Hc. unfold trim_matches, trim_end_matches. rewrite trim_start_matches_plain by done.
  rewrite E, rev_app_distr. cbn [rev app]. rewrite trim_start_matches_plain by done. cbn [rev].
  by rewrite rev_involutive.
Qed.

Lemma trim_matches_quoted (p : byte -> bool) q b l r c : p q = true -> b :: l = r ++ [c] ->
  p b = false -> p c = false -> trim_matches p (q :: (b :: l) ++ [q]) = b :: l.
Proof.
  intros Hq E Hb Hc. unfold trim_matches, trim_end_matches. cbn [trim_start_matches app].
  rewrite Hq, Hb. change (b :: l ++ [q]) with ((b :: l) ++ [q]). rewrite E, !rev_app_distr.
  cbn [rev app trim_start_matches]. rewrite Hq, Hc. cbn [rev]. by rewrite rev_involutive.
Qed.

(** The bytes of a serial column's sequence name: where they begin and end. *)
Lemma serial_name_bytes schema table column : exists b l r,
  as_bytes (serial_sequence_name schema table column) = b :: l /\ b :: l = r ++ [x71] /\
  (b = x2e \/ head (as_bytes schema) = Some b).
Proof.
  unfold serial_sequence_name. rewrite !as_bytes_app.
  set (tail := as_bytes table ++ as_bytes "_" ++ as_bytes column ++ as_bytes "_se").
  assert (as_bytes schema ++ as_bytes "." ++ as_bytes table ++ as_bytes "_" ++ as_bytes column ++ as_bytes "_seq" =
    (as_bytes schema ++ as_bytes "." ++ tail) ++ [x71]) as ->.
  { unfold tail. by rewrite <- !app_assoc. }
  destruct (as_bytes schema) as [|b l]; cbn [app as_bytes].
  - exists x2e, (tail ++ [x71]), (x2e :: tail). split; [done|]. split; [done|by left].
  - exists b, ((l ++ as_bytes "." ++ tail) ++ [x71]), (b :: l ++ as_bytes "." ++ tail).
    split; [done|]. split; [done|by right].
Qed.

Lemma trim_end_string_plain p l r c : l = r ++ [c] -> last (as_bytes p) <> Some c ->
  (0 < length (as_bytes p))%nat -> trim_end_string p l = l.
Proof.
  intros -> Hp Hl. unfold trim_end_string. rewrite length_app. cbn [length]. rewrite Nat.add_comm.
  cbn [Nat.add trim_end_string_fuel]. rewrite (proj2 (Nat.eqb_neq _ _)) by lia.
  rewrite rev_app_distr. cbn [rev app].
  destruct (rev (as_bytes p)) as [|b q] eqn:E; [apply (f_equal length) in E; rewrite length_rev in E; cbn in E; lia|].
  cbn. rewrite decide_False; [done|]. intros ->. apply Hp.
  rewrite <- (rev_involutive (as_bytes p)), E. cbn [rev]. by rewrite last_snoc.
Qed.

Lemma nextval_serial_default schema table column :
  head (as_bytes schema) <> Some x27 -> head (as_bytes schema) <> Some x22 ->
  nextval_sequence_name (serial_default schema table column) = Some (serial_sequence_name schema table column).
Proof.
  intros Hq Hd. destruct (serial_name_bytes schema table column) as (b & l & r & Hn & Hr & Hb).
  assert (Hb1 : is_quote b = false) by (apply bool_decide_eq_false_2; intros ->; destruct Hb; done).
  assert (Hb2 : is_double_quote b = false) by (apply bool_decide_eq_false_2; intros ->; destruct Hb; done).
  unfold nextval_sequence_name, serial_default. rewrite !as_bytes_app, Hn.
  set (text := as_bytes "nextval('" ++ (b :: l) ++ as_bytes "')").
  assert (Htext : text = as_bytes "nextval(" ++ (x27 :: (b :: l) ++ [x27]) ++ [x29])
    by (unfold text; cbn; by rewrite <- app_assoc).
  assert (Ht : trim text = text).
  { unfold text. cbn [as_bytes app]. apply (trim_plain _ _ x29 (as_bytes "nextval('" ++ (b :: l) ++ [x27])); [|done..].
    cbn. by rewrite <- app_assoc. }
  rewrite Ht, Htext. unfold lower. rewrite map_app. cbn [negb].
  assert (has_prefix (map ascii_lower_byte (as_bytes "nextval(") ++
    map ascii_lower_byte ((x27 :: (b :: l) ++ [x27]) ++ [x29])) "nextval(" = true) as ->
    by (apply starts_with_spec; by eexists).
  rewrite map_app, app_assoc. change (map ascii_lower_byte [x29]) with [x29]. rewrite last_snoc, bool_decide_eq_true_2 by done. cbn [negb orb].
  unfold without_prefix. rewrite strip_prefix_app. cbn [mbind option_bind].
  rewrite strip_suffix1_app. cbn [mbind option_bind]. f_equal.
  rewrite (trim_plain x27 ((b :: l) ++ [x27]) x27 (x27 :: b :: l)) by done.
  rewrite (trim_matches_quoted is_quote x27 b l r x71) by done.
  rewrite (trim_matches_plain is_double_quote b l r x71) by done.
  rewrite (trim_end_string_plain "::regclass" (b :: l) r x71) by (first [done | cbn; lia]).
  rewrite (trim_matches_plain is_quote b l r x71) by done.
  by rewrite <- Hn, of_as_bytes.
Qed.

Lemma resolve_serial sc schema table column :
  x2e ∉ as_bytes schema -> x2e ∉ as_bytes table -> x2e ∉ as_bytes column ->
  resolve_sequence_name sc (serial_sequence_name schema table column) =
    Ok (schema, (table +:+ "_" +:+ column +:+ "_seq")%string).
Proof.
  intros Hs Ht Hc. unfold resolve_sequence_name, has. cbn [as_bytes]. change (as_bytes ".") with [x2e].
  rewrite contains_byte.
  assert (Hn : as_bytes (serial_sequence_name schema table column) =
    as_bytes schema ++ x2e :: as_bytes (table +:+ "_" +:+ column +:+ "_seq")%string)
    by (unfold serial_sequence_name; by rewrite !as_bytes_app).
  rewrite Hn. rewrite bool_decide_eq_true_2 by (rewrite elem_of_app, elem_of_cons; auto).
  unfold resolve_table_reference. rewrite Hn, split_on_app by done.
  rewrite split_on_none, !of_as_bytes; [done|].
  rewrite !as_bytes_app, !elem_of_app. cbn [as_bytes]. intros [?|[?|[?|?]]]; try done.
  - apply (bool_decide_eq_false_1 (x2e ∈ as_bytes "_")); [by vm_compute|done].
  - apply (bool_decide_eq_false_1 (x2e ∈ as_bytes "_seq")); [by vm_compute|done].
Qed.

(** ** Properties *)

(** C34. What a sequence hands out.  From state [cur], with increment [inc], [n]
    allocations give exactly [cur], [cur + inc], .., [cur + (n-1) inc], move the state
    to [cur + n inc] and change no other key; when the next state would not fit in
    [i64] the allocation fails with 2200H, changes nothing, and keeps failing.  The column
    is a BIGINT and the allocations follow each other. *)
Theorem sequence_values `{KvStoreLaws W T} (s : Server W T * Client) (db sc name : string) (k : key)
    (cur inc : Z) (n : nat) :
  sequence_at s.1 db sc name k cur inc ->
  (forall i, (i <= n)%nat -> in_signed 64 (cur + Z.of_nat i * inc)) ->
  exists s',
    repeat_m n (allocate_sequence_value db sc name DT.Int64) s =
      (Ok (map (fun i => Int64 (cur + Z.of_nat i * inc)) (seq 0 n)), s') /\
    sequence_at s'.1 db sc name k (cur + Z.of_nat n * inc) inc /\
    (forall k', k' <> k -> store_rows (store s'.1) !! k' = store_rows (store s.1) !! k') /\
    (~ in_signed 64 (cur + Z.of_nat (S n) * inc) ->
     allocate_sequence_value db sc name DT.Int64 s' =
       (user_error "2200H" "sequence generator limit exceeded", s')).
Proof.
  intros Hs Hn. assert (Hsteps : exists s',
    repeat_m n (allocate_sequence_value db sc name DT.Int64) s =
      (Ok (map (fun i => Int64 (cur + Z.of_nat i * inc)) (seq 0 n)), s') /\
    sequence_at s'.1 db sc name k (cur + Z.of_nat n * inc) inc /\
    (forall k', k' <> k -> store_rows (store s'.1) !! k' = store_rows (store s.1) !! k')).
  { revert s cur Hs Hn. induction n as [|n IH]; intros s cur Hs Hn.
    - exists s. split; [done|]. rewrite Z.mul_0_l, Z.add_0_r. done.
    - pose proof (allocate_spec s db sc name k cur inc DT.Int64 Hs) as Ha.
      unfold i64_checked_add in Ha. rewrite i64_checked_ok in Ha
        by (replace (cur + inc) with (cur + Z.of_nat 1 * inc) by lia; apply Hn; lia).
      destruct Ha as (s1 & Ha & Hst & Hs1).
      destruct (IH s1 (cur + inc) Hs1) as (s' & Hr & Hs' & Hk).
      { intros i Hi. replace (cur + inc + Z.of_nat i * inc) with (cur + Z.of_nat (S i) * inc) by lia.
        apply Hn. lia. }
      exists s'. cbn [repeat_m]. cbn [sequence_column_value] in Ha.
      rewrite (cmd_bind_ok _ _ _ _ _ Ha), (cmd_bind_ok _ _ _ _ _ Hr). split.
      + unfold mret, cmd_ret. do 2 f_equal. cbn [seq map]. f_equal; [f_equal; lia|].
        rewrite <- seq_shift, map_map. apply map_ext. intros i. f_equal. lia.
      + split; [by replace (cur + Z.of_nat (S n) * inc) with (cur + inc + Z.of_nat n * inc) by lia|].
        intros k' Hk'. rewrite Hk, (stores_rows _ _ _ Hst), lookup_insert_ne by done. done. }
  destruct Hsteps as (s' & Hr & Hs' & Hk). exists s'. do 3 (split; [done|]). intros Hover.
  pose proof (allocate_spec s' db sc name k _ inc DT.Int64 Hs') as Ha.
  destruct (i64_checked_add _ inc) as [next|] eqn:E; [|exact Ha].
  apply i64_checked_add_some in E as [-> E]. destruct Hover.
  replace (cur + Z.of_nat (S n) * inc) with (cur + Z.of_nat n * inc + inc) by lia. done.
Qed.

Definition counter_client : Client := new_client 1.
Definition counter_server (state : list byte) : Server kvmap MemoryTransaction :=
  new_server (<[sequence_state_key "d" "public" "q" := state]> ∅) Postgres.

Lemma counter_at cur inc : in_signed 64 cur -> in_signed 64 inc ->
  sequence_at (counter_server (encode_sequence_state cur inc)) "d" "public" "q"
    (sequence_state_key "d" "public" "q") cur inc.
Proof. intros Hc Hi. split; [done|]. split; [done|]. split; [done|]. exact (lookup_insert_eq (M := gmap key) _ _ _). Defined.

Lemma sequence_values_witness :
  (repeat_m 3 (allocate_sequence_value "d" "public" "q" DT.Int64)
    (counter_server (encode_sequence_state 5 10), counter_client)).1 = Ok [Int64 5; Int64 15; Int64 25].
Proof.
  destruct (sequence_values (counter_server (encode_sequence_state 5 10), counter_client) "d" "public" "q"
    (sequence_state_key "d" "public" "q") 5 10 3) as (s' & Hr & _).
  - apply counter_at; width.
  - intros i Hi. width.
  - rewrite Hr. reflexivity.
Defined.

(** The types of counter values.  Whatever counter a column's default reads, the
    value it gives is one the column's slot stores: it is of the constructor the
    column's fixed slot expects, within the slot's width, for every integer type but
    the unsigned MySQL types of less than 32 bits (see [unsigned_counter_lost]); a
    counter past the column's range is an error, never a truncated value. *)
Theorem sequence_value_typed `{KvStoreLaws W T} (s : Server W T * Client) (db sc name : string) (k : key)
    (cur inc : Z) (t : DataType) (v : ColumnValue) :
  sequence_at s.1 db sc name k cur inc ->
  match t with
  | DT.Int16 | DT.Int32 | DT.Int64 | DT.MySqlInt _ false | DT.MySqlInt (KInt | Big) true => True
  | _ => False
  end ->
  (allocate_sequence_value db sc name t s).1 = Ok v ->
  column_value_to_i64 v = Some cur /\ wf_value v /\
  match fixed_width t with Some _ => fixed_typed t v = true | None => True end.
Proof.
  intros Hs Ht Hv. pose proof (allocate_spec s db sc name k cur inc t Hs) as Ha.
  destruct Hs as (Hc & _). assert (Hq : sequence_column_value t cur = Ok v).
  { destruct (i64_checked_add cur inc); [|by rewrite Ha in Hv].
    destruct Ha as (s' & Ha & _). by rewrite Ha in Hv. }
  clear Ha Hv. unfold sequence_column_value in Hq.
  destruct t as [| | |kind unsigned| | | | | | | | | | | | | | | | | | | | | | | | | | | | | | | | |];
    try done; try (destruct kind, unsigned; try done);
    repeat match type of Hq with (if ?b then _ else _) = _ => destruct b eqn:E; [|discriminate Hq] end;
    injection Hq as <-; (split; [done|]; split; [|done]); cbn [wf_value]; width.
Qed.

Lemma sequence_value_typed_witness :
  fixed_typed (DT.MySqlInt Medium false) (Int32 70000) = true.
Proof.
  exact (proj2 (proj2 (sequence_value_typed (counter_server (encode_sequence_state 70000 1), counter_client)
    "d" "public" "q" (sequence_state_key "d" "public" "q") 70000 1 (DT.MySqlInt Medium false) (Int32 70000)
    (counter_at 70000 1 ltac:(width) ltac:(width)) I eq_refl))).
Defined.

(** The default of a serial column finds its own sequence.  The text CREATE TABLE
    stores for the column parses back to the sequence it created, and resolves to the
    table's schema whatever schema the session is in, so INSERT reads that counter: for
    names without a dot, in a schema that does not begin with a quotation mark. *)
Theorem serial_default_names_its_sequence (session_schema schema table column : string) :
  head (as_bytes schema) <> Some x27 -> head (as_bytes schema) <> Some x22 ->
  x2e ∉ as_bytes schema -> x2e ∉ as_bytes table -> x2e ∉ as_bytes column ->
  (nextval_sequence_name (serial_default schema table column) ≫= fun name =>
     result_ok (resolve_sequence_name session_schema name)) =
  Some (schema, (table +:+ "_" +:+ column +:+ "_seq")%string).
Proof.
  intros Hq Hd Hs Ht Hc. rewrite nextval_serial_default by done. cbn [mbind option_bind].
  by rewrite resolve_serial.
Qed.

Lemma serial_default_names_its_sequence_witness :
  (nextval_sequence_name (serial_default "shop" "orders" "id") ≫= fun name =>
     result_ok (resolve_sequence_name "public" name)) = Some ("shop", "orders_id_seq")%string.
Proof.
  apply (serial_default_names_its_sequence "public" "shop" "orders" "id"); [discriminate|discriminate|..];
    refine (bool_decide_eq_false_1 _ _); vm_compute; reflexivity.
Defined.

(** C35. Explicit ids do not come back.  After a row with an explicit AUTO_INCREMENT value
    [v] has been accounted for, the counter never hands out [v] or anything below it:
    every later allocation is above [v], or fails because the counter is exhausted.
    (The sequence counts upwards, as AUTO_INCREMENT's do; the column is a BIGINT, and
    the allocations follow each other without a reset in between.) *)
Theorem explicit_id_not_reused `{KvStoreLaws W T} (s : Server W T * Client) (db sc : string)
    (schema : TableSchema) (row : RowMap) (column : ColumnSchema) (name : string) (k : key)
    (cur inc v : Z) (n : nat) :
  mysql_auto_increment_column schema = Some column ->
  col_default column ≫= nextval_sequence_name = Some name ->
  row !! col_name column ≫= column_value_to_i64 = Some v ->
  sequence_at s.1 db sc name k cur inc -> 0 < inc -> v < i64_max ->
  exists s', advance_auto_increment_from_row db sc schema row s = (Ok (Some v), s') /\
    sequence_at s'.1 db sc name k (Z.max cur (i64_saturating_add v 1)) inc /\
    forall ids s'', repeat_m n (allocate_sequence_value db sc name DT.Int64) s' = (Ok ids, s'') ->
      Forall (fun id => exists z, id = Int64 z /\ v < z) ids.
Proof.
  intros Hcol Hname Hv Hs Hinc Hmax.
  assert (Hadv : exists s', advance_auto_increment_from_row db sc schema row s = (Ok (Some v), s') /\
    sequence_at s'.1 db sc name k (Z.max cur (i64_saturating_add v 1)) inc).
  { unfold advance_auto_increment_from_row. rewrite Hcol, Hv, Hname.
    unfold advance_sequence_to_at_least. pose proof (read_sequence_spec s db sc name k cur inc Hs) as Hr.
    pose proof Hs as (Hc & Hi & _). rewrite <- cmd_bind_assoc, (cmd_bind_ok _ _ _ _ _ Hr).
    unfold cmd_lift. rewrite sequence_state_roundtrip by done.
    set (next := i64_saturating_add v 1) in *.
    assert (Hnext : in_signed 64 next) by (unfold next, i64_saturating_add, i64_min, i64_max; width).
    unfold mbind, cmd_bind. destruct (Z.ltb_spec cur next) as [Hlt|Hge].
    - destruct (store_write_spec k (encode_sequence_state next inc) s) as (s' & -> & Hst). exists s'.
      split; [done|]. rewrite Z.max_r by lia. by eapply sequence_at_next.
    - exists s. split; [done|]. by rewrite Z.max_l by lia. }
  destruct Hadv as (s' & Ha & Hs'). exists s'. split; [done|]. split; [done|].
  assert (Hlow : v < Z.max cur (i64_saturating_add v 1))
    by (unfold i64_saturating_add, i64_min, i64_max in *; lia).
  clear Ha. generalize dependent (Z.max cur (i64_saturating_add v 1)). revert s'.
  induction n as [|n IH]; intros s1 c Hs1 Hlow ids s'' Hr; [injection Hr as <- <-; constructor|].
  cbn [repeat_m] in Hr. pose proof (allocate_spec s1 db sc name k c inc DT.Int64 Hs1) as Ha.
  destruct (i64_checked_add c inc) as [next|] eqn:E.
  - destruct Ha as (s2 & Ha & _ & Hs2). cbn [sequence_column_value] in Ha.
    rewrite (cmd_bind_ok _ _ _ _ _ Ha) in Hr.
    apply cmd_bind_inv in Hr as (ids' & s3 & Er & [= <- <-]). apply i64_checked_add_some in E as [-> _].
    constructor; [by exists c|]. eapply (IH s2 (c + inc)); [done|lia|exact Er].
  - unfold mbind, cmd_bind in Hr. rewrite Ha in Hr. discriminate Hr.
Qed.

Definition serial_column (t : DataType) : ColumnSchema :=
  {| column_id := 1; col_name := "id"; data_type := t; primary_key_col := true; nullable := false;
     col_default := Some "nextval('public.q')"; on_update := None; character_set := None; collation := None |}.
Definition serial_table (t : DataType) : TableSchema := sample_schema [serial_column t].

Lemma explicit_id_not_reused_witness :
  exists s', advance_auto_increment_from_row "d" "public" (serial_table DT.Int64) (<["id" := Int64 41]> ∅)
      (counter_server (encode_sequence_state 7 1), counter_client) = (Ok (Some 41), s') /\
    sequence_at s'.1 "d" "public" "public.q" (sequence_state_key "d" "public" "q") 42 1.
Proof.
  destruct (explicit_id_not_reused (counter_server (encode_sequence_state 7 1), counter_client) "d" "public"
    (serial_table DT.Int64) (<["id" := Int64 41]> ∅) (serial_column DT.Int64) "public.q"
    (sequence_state_key "d" "public" "q") 7 1 41 0) as (s' & Ha & Hs & _).
  - vm_compute. reflexivity.
  - vm_compute. reflexivity.
  - reflexivity.
  - split; [width|]. split; [width|]. split; [vm_compute; reflexivity|].
    exact (lookup_insert_eq (M := gmap key) _ _ _).
  - lia.
  - unfold i64_max. lia.
  - exists s'. split; [exact Ha|exact Hs].
Defined.

(** ** What the counters get wrong *)

(** A SMALLINT UNSIGNED AUTO_INCREMENT column gets an [Int64]; its slot is four bytes
    and takes only an [Int32], so the row keeps a zero. *)
Example unsigned_counter_lost :
  let schema := serial_table (DT.MySqlInt Small true) in
  let row : PgWireResult RowMap := (build_insert_row_at (W := kvmap) (T := MemoryTransaction)
    (fun _ : unit => true) (fun _ _ => Ok Null) (fun _ _ => Ok Null) "d" "public" schema [] [tt]
    (counter_server (encode_sequence_state 7 1), counter_client)).1 in
  row = Ok (<["id" := Int64 7]> ∅) /\
  (row ← row; bytes ← encode_row_record schema row; decode_row_record schema bytes) = Ok (<["id" := Int32 0]> ∅).
Proof. by vm_compute. Qed.

(** A value the column cannot hold is consumed all the same: the counter has moved
    when the error is found. *)
Example out_of_range_value_consumed :
  let s := (counter_server (encode_sequence_state 40000 1), counter_client) in
  let '(r, s') := allocate_sequence_value "d" "public" "q" DT.Int16 s in
  r = user_error "22003" "sequence value is out of range for INT2" /\
  store s'.1 !! sequence_state_key "d" "public" "q" = Some (encode_sequence_state 40001 1).
Proof. by vm_compute. Qed.

(** Two sessions that read the counter before either writes it back get the same value. *)
Example concurrent_allocations_collide :
  let k := sequence_state_key "d" "public" "q" in
  let s := (counter_server (encode_sequence_state 5 1), counter_client) in
  match read_sequence "d" "public" "q" s with
  | (Ok (_, bytes), s) =>
      let '(second, s) := allocate_sequence_value "d" "public" "q" DT.Int64 s in
      let '(first, s) := allocate_from k bytes DT.Int64 s in
      first = Ok (Int64 5) /\ second = Ok (Int64 5)
  | _ => False
  end.
Proof. by vm_compute. Qed.

(** The last value of [i64] is never handed out: its successor does not exist. *)
Example last_value_refused :
  (allocate_sequence_value "d" "public" "q" DT.Int64
    (counter_server (encode_sequence_state i64_max 1), counter_client)).1 =
  user_error "2200H" "sequence generator limit exceeded".
Proof. by vm_compute. Qed.

(** ** The row of an INSERT *)

Section Inserts.
Context {W T : Type} `{KvStoreApi W T} {Expr : Type} (is_default : Expr -> bool)
  (eval : Expr -> DataType -> PgWireResult ColumnValue) (eval_default : string -> DataType -> PgWireResult ColumnValue).

(** What a cell of the built row is: a value given, or its column's default. *)
Definition cell_from (db sc : string) (provided : RowMap) (column : ColumnSchema) (v : ColumnValue) : Prop :=
  provided !! col_name column = Some v \/
  (provided !! col_name column = None /\
   exists s, (column_default_value_at eval_default db sc column s : PgWireResult ColumnValue * (Server W T * Client)).1 = Ok v).

Lemma complete_row_cells db sc cols : forall (provided row : RowMap) s out s',
  complete_row (W := W) (T := T) eval_default db sc provided row cols s = (Ok out, s') ->
  NoDup (map col_name cols) ->
  (forall name, name ∉ map col_name cols -> out !! name = row !! name) /\
  Forall (fun c => exists v, out !! col_name c = Some v /\ cell_from db sc provided c v) cols.
Proof.
  induction cols as [|c cols IH]; intros provided row s out s' Hr Hnd.
  - injection Hr as <- <-. split; [done|constructor].
  - cbn [map] in Hnd. apply NoDup_cons in Hnd as [Hc Hnd]. cbn [complete_row] in Hr.
    assert (exists v s1, complete_row eval_default db sc (delete (col_name c) provided) (<[col_name c := v]> row) cols s1 =
      (Ok out, s') /\ cell_from db sc provided c v) as (v & s1 & Hr1 & Hv).
    { destruct (provided !! col_name c) as [v|] eqn:Ep.
      - exists v, s. split; [exact Hr|]. by left.
      - unfold mbind, cmd_bind in Hr.
        destruct (column_default_value_at eval_default db sc c s) as [[v| | |] s1] eqn:E; try discriminate Hr.
        exists v, s1. split; [exact Hr|]. right. split; [done|]. exists s. by rewrite E. }
    destruct (IH _ _ _ _ _ Hr1 Hnd) as [Hother Hcells]. split.
    + intros name [Hn Hns]%not_elem_of_cons. rewrite (Hother name Hns). by rewrite lookup_insert_ne.
    + constructor.
      * exists v. rewrite (Hother _ Hc), lookup_insert_eq. done.
      * apply Forall_forall. intros c' Hc'. assert (col_name c' <> col_name c) as Hne
          by (intros E; apply Hc; rewrite <- E; by apply list_elem_of_fmap_2).
        destruct (proj1 (Forall_forall _ _) Hcells c' Hc') as (v' & Hv' & Hcell). exists v'. split; [done|].
        unfold cell_from in *. by rewrite lookup_delete_ne in Hcell by done.
Qed.

(** What a value given in the statement becomes. *)
Definition given_from (db sc : string) (schema : TableSchema) (name : string) (e : Expr) (v : ColumnValue) : Prop :=
  exists column, find_column schema name = Some column /\
    if is_default e
    then exists s, (column_default_value_at eval_default db sc column s : PgWireResult ColumnValue * (Server W T * Client)).1 = Ok v
    else eval e (data_type column) = Ok v.

Lemma provide_given db sc schema pairs : forall (provided : RowMap) s out s',
  provide (W := W) (T := T) is_default eval eval_default db sc schema provided pairs s = (Ok out, s') ->
  NoDup (map fst pairs) ->
  (forall name, name ∉ map fst pairs -> out !! name = provided !! name) /\
  Forall (fun p => exists v, out !! p.1 = Some v /\ given_from db sc schema p.1 p.2 v) pairs.
Proof.
  induction pairs as [|[name e] pairs IH]; intros provided s out s' Hr Hnd.
  - injection Hr as <- <-. split; [done|constructor].
  - cbn [map fst] in Hnd. apply NoDup_cons in Hnd as [Hn Hnd]. cbn [provide] in Hr.
    apply cmd_bind_inv in Hr as (v & s1 & Hv & Hr).
    destruct (IH _ _ _ _ Hr Hnd) as [Hother Hgiven]. split.
    + intros x [Hx Hxs]%not_elem_of_cons. rewrite (Hother x Hxs). by rewrite lookup_insert_ne.
    + constructor; [|done]. exists v. cbn [fst snd]. rewrite (Hother _ Hn), lookup_insert_eq. split; [done|].
      unfold provided_value in Hv. apply cmd_bind_inv in Hv as (column & s2 & Hf & Hv).
      unfold cmd_lift in Hf. destruct (find_column schema name) as [c|] eqn:Ec; [|discriminate Hf].
      injection Hf as -> ->. exists column. split; [done|]. destruct (is_default e).
      * exists s2. by rewrite Hv.
      * unfold cmd_lift in Hv. by injection Hv as Hv _.
Qed.

Lemma complete_row_cols db sc cols : forall (provided row : RowMap) s out s' name,
  complete_row (W := W) (T := T) eval_default db sc provided row cols s = (Ok out, s') ->
  name ∉ map col_name cols -> out !! name = row !! name.
Proof.
  induction cols as [|c cols IH]; intros provided row s out s' name Hr Hn; [by injection Hr as <- _|].
  cbn [map] in Hn. apply not_elem_of_cons in Hn as [Hc Hn]. cbn [complete_row] in Hr.
  apply cmd_bind_inv in Hr as (v & s1 & _ & Hr). rewrite (IH _ _ _ _ _ _ Hr Hn). by rewrite lookup_insert_ne.
Qed.

Lemma find_column_self schema c : NoDup (column_names schema) -> c ∈ columns schema ->
  find_column schema (col_name c) = Some c.
Proof.
  unfold column_names, find_column. induction (columns schema) as [|c' cols IH]; [by intros _ ?%elem_of_nil|].
  cbn [map List.find]. intros [Hc' Hnd]%NoDup_cons [->|Hc]%elem_of_cons.
  - by rewrite bool_decide_eq_true_2.
  - rewrite bool_decide_eq_false_2; [by apply IH|]. intros E. apply Hc'. rewrite E. by apply list_elem_of_fmap_2.
Qed.
End Inserts.

(** C36. The row an INSERT writes.  When [build_insert_row_at] succeeds, the row has
    exactly the columns of the schema; a column the statement names has its expression's
    value, evaluated at the column's type (or its default, for DEFAULT), and a column it
    does not name has its default, evaluated in some state of the server; an INSERT whose columns and values differ in number
    is refused before anything is evaluated. *)
Theorem insert_row_complete `{KvStoreApi W T} {Expr : Type} (is_default : Expr -> bool)
    (eval : Expr -> DataType -> PgWireResult ColumnValue)
    (eval_default : string -> DataType -> PgWireResult ColumnValue) (db sc : string)
    (schema : TableSchema) (cols : list string) (values : list Expr) (s s' : Server W T * Client) (row : RowMap) :
  NoDup (column_names schema) -> NoDup cols ->
  build_insert_row_at is_default eval eval_default db sc schema cols values s = (Ok row, s') ->
  let named := match cols with [] => column_names schema | _ => cols end in
  length named = length values /\
  (forall name, is_Some (row !! name) <-> name ∈ column_names schema) /\
  Forall (fun c => exists v, row !! col_name c = Some v /\
    ((exists e, (col_name c, e) ∈ combine named values /\
        (if is_default e
        then (exists s0, (column_default_value_at eval_default db sc c s0 : PgWireResult ColumnValue * (Server W T * Client)).1 = Ok v)
        else eval e (data_type c) = Ok v)) \/
     ((col_name c ∉ named) /\
      exists s0, (column_default_value_at eval_default db sc c s0 : PgWireResult ColumnValue * (Server W T * Client)).1 = Ok v)))
    (columns schema).
Proof.
  intros Hnd Hcols Hb named. unfold build_insert_row_at in Hb. fold named in Hb.
  destruct (Nat.eqb_spec (length named) (length values)) as [Hlen|]; [|discriminate Hb].
  split; [done|]. cbn [negb] in Hb. apply cmd_bind_inv in Hb as (provided & s1 & Hp & Hr).
  assert (Hnamed : map fst (combine named values) = named).
  { clear -Hlen. revert values Hlen. induction named as [|n named IH]; intros [|v values] Hlen; try done.
    cbn in *. f_equal. apply IH. lia. }
  assert (Hndn : NoDup (map fst (combine named values))) by (rewrite Hnamed; unfold named; by destruct cols).
  destruct (provide_given is_default eval eval_default db sc schema _ _ _ _ _ Hp Hndn) as [Hother Hgiven].
  destruct (complete_row_cells eval_default db sc _ _ _ _ _ _ Hr Hnd) as [_ Hcells].
  split.
  - intros name. destruct (decide (name ∈ column_names schema)) as [Hin|Hout].
    + split; [done|]. intros _. apply list_elem_of_fmap in Hin as (c & -> & Hc).
      destruct (proj1 (Forall_forall _ _) Hcells c Hc) as (v & -> & _). done.
    + rewrite (complete_row_cols _ _ _ _ _ _ _ _ _ _ Hr Hout), lookup_empty.
      split; [by intros [? ?]|done].
  - apply Forall_forall. intros c Hc. destruct (proj1 (Forall_forall _ _) Hcells c Hc) as (v & Hv & Hcell).
    exists v. split; [done|]. destruct Hcell as [Hcell|[Hnone Hdef]].
    + left. destruct (decide (col_name c ∈ named)) as [Hin|Hout].
      * rewrite <- Hnamed in Hin. apply list_elem_of_fmap in Hin as ([name e] & Hn & Hin). cbn in Hn. subst name.
        destruct (proj1 (Forall_forall _ _) Hgiven _ Hin) as (v' & Hv' & column & Hf & Hval). cbn in *.
        rewrite (find_column_self schema c Hnd Hc) in Hf. injection Hf as <-.
        assert (v' = v) as -> by congruence. by exists e.
      * rewrite <- Hnamed in Hout. rewrite (Hother _ Hout), lookup_empty in Hcell. done.
    + right. split; [|done]. rewrite <- Hnamed. intros Hin.
      apply list_elem_of_fmap in Hin as ([name e] & Hn & Hin). cbn in Hn. subst name.
      destruct (proj1 (Forall_forall _ _) Hgiven _ Hin) as (v' & Hv' & _). cbn in *. congruence.
Qed.

Definition two_columns : TableSchema := sample_schema [serial_column DT.Int64; sample_column 2 "b" DT.Text].

Lemma insert_row_complete_witness :
  match build_insert_row_at (W := kvmap) (T := MemoryTransaction) (fun e => bool_decide (e = None))
      (fun e _ => Ok (match e with Some v => v | None => Null end)) (fun _ _ => Ok Null) "d" "public" two_columns
      ["b"%string] [Some (Text "x")] (counter_server (encode_sequence_state 7 1), counter_client) with
  | (Ok row, _) => forall name, is_Some (row !! name) <-> name ∈ column_names two_columns
  | _ => False
  end.
Proof.
  destruct (build_insert_row_at _ _ _ _ _ _ _ _ _) as [[row| | |] s'] eqn:E;
    try (apply (f_equal (fun p => is_ok p.1)) in E; vm_compute in E; discriminate E).
  refine (proj1 (proj2 (insert_row_complete _ _ _ _ _ _ _ _ _ _ _ _ _ E))).
  - refine (bool_decide_eq_true_1 _ _). vm_compute. reflexivity.
  - refine (bool_decide_eq_true_1 _ _). vm_compute. reflexivity.
Defined.
