(* ===== verification/Scans.v ===== *)
(** * Scans of a table and the rows of a SELECT

    core/server/scans.rs: the scans of all rows, of a range of primary keys (with OFFSET and
    LIMIT, in one read or in batches), of an index by value and by range, each over row
    records and, where there are none, over the markers of the first layout; and the
    [SelectRows] arm of core/server/executor.rs, which runs the access a plan chose.

    A read is a function of the server and the session; the indexes of a table are what
    [list_indexes_for_table] answered.  [usize] is a natural: sums saturate far above any
    number of rows. *)

From S2P Require LegacyCodec.
From S2P Require Import Prelude BTree Float Types TupleCodec Values Text Mode KeyCodec RowCodec KvStore Stores Server Json Catalog Coerce Operators Patterns Dates SqlJson Functions Expr Filter Access.

#[local] Open Scope string_scope.
#[local] Open Scope list_scope.
#[local] Open Scope Z_scope.

(** A row with its primary key. *)
Abbreviation RowEntry := (ColumnValue * RowMap)%type.

(** ** The window a scan fills *)

(** The rows kept, the rows still to skip, and whether the limit is reached. *)
Record Window : Type := { w_rows : list RowEntry; w_skip : nat; w_stop : bool }.

Definition empty_window (row_offset : nat) : Window := {| w_rows := []; w_skip := row_offset; w_stop := false |}.

Definition FILTERED_LIMIT_SCAN_BATCH_SIZE : nat := Z.to_nat 4096.

Definition filtered_limit_scan_batch_size (scan_limit : option nat) (row_offset : nat) : nat :=
  let wanted := match scan_limit with
                | Some limit => ((limit + row_offset) * 4)%nat
                | None => FILTERED_LIMIT_SCAN_BATCH_SIZE
                end in
  Nat.min (Nat.max (Z.to_nat 256) wanted) FILTERED_LIMIT_SCAN_BATCH_SIZE.

Section Scans.
Context {W T : Type} `{KvStoreApi W T, KvTransaction T W, KvSnapshot T W}.
Context `{ValueTexts, SerdeJson, UnicodeCase, FixedTexts, Clock}.
Context (show_error : pg_error -> string) (entry_size : Z).
Context (s : Server W T) (session_id : option Z) (database_name schema_name : string) (schema : TableSchema).

(** [Vec::with_capacity(scan_limit..)] panics when the entries, of [entry_size] bytes each, pass
    the largest allocation. *)
Definition reserve (scan_limit : option nat) : PgWireResult unit :=
  match scan_limit with
  | Some limit => if Z.of_nat limit * entry_size <=? i64_max then Ok tt else Panic
  | None => Ok tt
  end.

(** A row of the scan: filtered, skipped or kept. *)
Definition offer (filter : option Expr) (limit : option nat) (w : Window) (entry : RowEntry) : PgWireResult Window :=
  pass ← residual entry.2 schema filter;
  if negb pass then Ok w
  else match w_skip w with
  | S skip => Ok {| w_rows := w_rows w; w_skip := skip; w_stop := false |}
  | O =>
      let rows := w_rows w ++ [entry] in
      Ok {| w_rows := rows; w_skip := 0; w_stop := full limit rows |}
  end.

(** The loop over the entries of a read; [read] is [None] for an entry without a row. *)
Fixpoint visit_entries (read : kvrow -> PgWireResult (option RowEntry)) (filter : option Expr) (limit : option nat)
    (w : Window) (entries : list kvrow) : PgWireResult Window :=
  match entries with
  | [] => Ok w
  | e :: entries =>
      entry ← read e;
      w ← (match entry with Some entry => offer filter limit w entry | None => Ok w end);
      if w_stop w then Ok w else visit_entries read filter limit w entries
  end.

(** ** Reads of the session *)

Definition read_range (range : RangeScan) : PgWireResult (list kvrow) :=
  coded "XX000" (if use_consistent_read s session_id then txn_snapshot_scan_range s session_id range
                 else txn_scan_range s session_id range).

Definition read_prefix (prefix : key) : PgWireResult (list kvrow) :=
  coded "XX000" (if use_consistent_read s session_id then txn_snapshot_scan_prefix s session_id prefix
                 else txn_scan_prefix s session_id prefix).

Definition visible_row (pk_value : ColumnValue) : PgWireResult (option RowMap) :=
  read_visible_row_at s session_id database_name schema_name schema pk_value.

Definition has_active_txn : bool := match txn_of s session_id with Some _ => true | None => false end.

Definition pk_of_row_key (k : key) : PgWireResult ColumnValue :=
  decode_pk_from_row_key k (table_id schema) (table_epoch schema) (pk_data_type schema).

Definition pk_of_marker (k : key) : PgWireResult ColumnValue :=
  LegacyCodec.decode_pk_from_row_marker_key k database_name schema_name (table_name schema) (pk_data_type schema).

(** A row record read where it lies, and a row looked up again by the key of an entry. *)
Definition read_record (e : kvrow) : PgWireResult (option RowEntry) :=
  pk_value ← pk_of_row_key e.1;
  row ← decode_row_record schema e.2;
  Ok (Some (pk_value, row)).

Definition read_by_key (pk_of : key -> PgWireResult ColumnValue) (e : kvrow) : PgWireResult (option RowEntry) :=
  pk_value ← pk_of e.1;
  row ← visible_row pk_value;
  Ok (option_map (pair pk_value) row).

(** ** All rows *)

Definition scan_visible_row_entries_at (filter : option Expr) : PgWireResult (list RowEntry) :=
  v2_entries ← read_range (row_range (table_id schema) (table_epoch schema) None);
  match v2_entries with
  | _ :: _ => w_rows <$> visit_entries read_record filter None (empty_window 0) v2_entries
  | [] =>
      entries ← read_prefix (LegacyCodec.row_marker_prefix database_name schema_name (table_name schema));
      w_rows <$> visit_entries (read_by_key pk_of_marker) filter None (empty_window 0) entries
  end.

Definition scan_visible_rows_at (filter : option Expr) : PgWireResult (list RowMap) :=
  map snd <$> scan_visible_row_entries_at filter.

(** ** A range of primary keys *)

Definition marker_key (value : ColumnValue) : PgWireResult key :=
  LegacyCodec.row_marker_key database_name schema_name (table_name schema) value.

(** The keys of the markers between two bounds; a [0] byte is the successor of a key. *)
Definition marker_range (lower upper : KeyBound) (limit : option nat) : PgWireResult RangeScan :=
  let prefix := LegacyCodec.row_marker_prefix database_name schema_name (table_name schema) in
  start ← (match lower with
           | Some (value, true) => marker_key value
           | Some (value, false) => k ← marker_key value; Ok (k ++ [x00])
           | None => Ok prefix
           end);
  stop ← (match upper with
          | Some (value, true) => k ← marker_key value; Ok (Some (k ++ [x00]))
          | Some (value, false) => Some <$> marker_key value
          | None => Ok (next_prefix prefix)
          end);
  Ok {| rs_start := start; rs_end := stop; rs_limit := limit; rs_reverse := false |}.

(** Without a filter the store may stop at the limit. *)
Definition storage_scan_limit (filter : option Expr) (scan_limit : option nat) (row_offset : nat) : option nat :=
  match filter with None => (fun limit => (limit + row_offset)%nat) <$> scan_limit | Some _ => None end.

Definition scan_legacy_row_marker_entries_by_pk_range_at (lower upper : KeyBound) (filter : option Expr)
    (scan_limit : option nat) (row_offset : nat) : PgWireResult (list RowEntry) :=
  range ← marker_range lower upper (storage_scan_limit filter scan_limit row_offset);
  entries ← read_range range;
  _ ← reserve scan_limit;
  w_rows <$> visit_entries (read_by_key pk_of_marker) filter scan_limit (empty_window row_offset) entries.

(** The batches of markers; the next starts behind the last key. *)
Fixpoint marker_batches (fuel : nat) (batch_size : nat) (filter : option Expr) (scan_limit : option nat)
    (start : key) (stop : option key) (w : Window) : PgWireResult (list RowEntry) :=
  match fuel with
  | O => OutOfFuel
  | S fuel =>
      entries ← read_range {| rs_start := start; rs_end := stop; rs_limit := Some batch_size; rs_reverse := false |};
      w ← visit_entries (read_by_key pk_of_marker) filter scan_limit w entries;
      match last entries with
      | None => Ok (w_rows w)
      | Some (last_key, _) =>
          if w_stop w || (length entries <? batch_size)%nat then Ok (w_rows w)
          else marker_batches fuel batch_size filter scan_limit (last_key ++ [x00]) stop w
      end
  end.

Definition scan_legacy_row_marker_entries_by_pk_range_batched_at (fuel : nat) (lower upper : KeyBound)
    (filter : option Expr) (scan_limit : option nat) (row_offset : nat) : PgWireResult (list RowEntry) :=
  range ← marker_range lower upper None;
  _ ← reserve scan_limit;
  marker_batches fuel (filtered_limit_scan_batch_size scan_limit row_offset) filter scan_limit
    (rs_start range) (rs_end range) (empty_window row_offset).

(** The visitor of a scan outside a transaction: its errors are texts. *)
Definition filtered_limit_visit (filter : option Expr) (scan_limit : option nat) (st : Window * bool)
    (k : key) (value : option (list byte)) : result string (bool * (Window * bool)) :=
  pk_value ← map_err show_error (pk_of_row_key k);
  value ← ok_or "v2 row visitor missing row value" value;
  row ← map_err show_error (decode_row_record schema value);
  w ← map_err show_error (offer filter scan_limit st.1 (pk_value, row));
  Ok (negb (w_stop w), (w, true)).

(** The batches of row records inside a transaction, whose rows are looked up again. *)
Fixpoint record_batches (fuel : nat) (batch_size : nat) (upper : KeyBound) (filter : option Expr)
    (scan_limit : option nat) (lower : KeyBound) (w : Window) (saw_entries : bool)
    : PgWireResult (list RowEntry * bool) :=
  match fuel with
  | O => OutOfFuel
  | S fuel =>
      entries ← read_range (row_range_between (table_id schema) (table_epoch schema) lower upper (Some batch_size));
      w ← visit_entries (read_by_key pk_of_row_key) filter scan_limit w entries;
      match last entries with
      | None => Ok (w_rows w, saw_entries)
      | Some (last_key, _) =>
          if w_stop w || (length entries <? batch_size)%nat then Ok (w_rows w, true)
          else
            last_pk ← pk_of_row_key last_key;
            record_batches fuel batch_size upper filter scan_limit (Some (last_pk, false)) w true
      end
  end.

(** The rows and whether there was any row record in the range. *)
Definition scan_v2_row_entries_by_pk_range_batched_at (fuel : nat) (lower upper : KeyBound) (filter : option Expr)
    (scan_limit : option nat) (row_offset : nat) : PgWireResult (list RowEntry * bool) :=
  _ ← reserve scan_limit;
  if has_active_txn then
    record_batches fuel (filtered_limit_scan_batch_size scan_limit row_offset) upper filter scan_limit
      lower (empty_window row_offset) false
  else
    let range := row_range_between (table_id schema) (table_epoch schema) lower upper None in
    '(w, saw_entries) ← coded "XX000"
      (rows ← ks_scan_range_projected (store s) (rs_start range) (rs_end range) None (rs_reverse range) KeyValue;
       visit_rows (filtered_limit_visit filter scan_limit) (empty_window row_offset, false) rows);
    Ok (w_rows w, saw_entries).

Definition scan_visible_row_entries_by_pk_range_at (fuel : nat) (lower upper : KeyBound) (filter : option Expr)
    (scan_limit : option nat) (row_offset : nat) : PgWireResult (list RowEntry) :=
  match filter, scan_limit with
  | Some _, Some _ =>
      '(rows, saw_v2_entries) ←
        scan_v2_row_entries_by_pk_range_batched_at fuel lower upper filter scan_limit row_offset;
      if (saw_v2_entries : bool) then Ok rows
      else scan_legacy_row_marker_entries_by_pk_range_batched_at fuel lower upper filter scan_limit row_offset
  | _, _ =>
      v2_entries ← read_range (row_range_between (table_id schema) (table_epoch schema) lower upper
                                 (storage_scan_limit filter scan_limit row_offset));
      match v2_entries with
      | _ :: _ =>
          _ ← reserve scan_limit;
          w_rows <$> visit_entries (read_by_key pk_of_row_key) filter scan_limit (empty_window row_offset) v2_entries
      | [] => scan_legacy_row_marker_entries_by_pk_range_at lower upper filter scan_limit row_offset
      end
  end.

(** ** Some primary keys *)

(** [flatten]: the keys without a row record are left out. *)
Definition decode_present (values : list (option (list byte))) : PgWireResult (list RowMap) :=
  map_m (decode_row_record schema) (omap id values).

Definition read_visible_rows_by_pk_in_at (pk_values : list ColumnValue) : PgWireResult (list RowMap) :=
  match pk_values with
  | [] => Ok []
  | _ =>
      if has_active_txn then rows ← map_m visible_row pk_values; Ok (omap id rows)
      else
        values ← coded "XX000" (ks_multi_get (store s) (map (row_key (table_id schema) (table_epoch schema)) pk_values));
        decode_present values
  end.

(** ** Indexes *)

Context (indexes : list IndexCatalog).

Definition index_named (index_name : string) : option IndexCatalog :=
  List.find (fun index => bool_decide (ix_name index = index_name)) indexes.

(** The end of a prefix's range, as the two exact scans compute it: a prefix of [0xff] alone is
    its own end. *)
Definition index_lookup_range (prefix : key) : RangeScan :=
  {| rs_start := prefix; rs_end := Some (default prefix (next_prefix prefix)); rs_limit := None; rs_reverse := false |}.

Definition scan_legacy_index_entries (index_name : string) (index_value : ColumnValue) (filter : option Expr)
    : PgWireResult (list RowEntry) :=
  entries ← read_prefix (LegacyCodec.index_entry_prefix database_name schema_name (table_name schema) index_name index_value);
  w_rows <$> visit_entries
    (read_by_key (fun k => LegacyCodec.decode_pk_from_index_entry_key k database_name schema_name (table_name schema)
                             index_name index_value (pk_data_type schema))) filter None (empty_window 0) entries.

Definition scan_index_row_entries_at (index_name : string) (index_value : ColumnValue) (filter : option Expr)
    : PgWireResult (list RowEntry) :=
  match index_named index_name with
  | None => scan_legacy_index_entries index_name index_value filter
  | Some index =>
      entries ← read_range (index_lookup_range (index_prefix (ix_id index) index_value));
      match entries with
      | _ :: _ =>
          w_rows <$> visit_entries
            (read_by_key (fun k => decode_pk_from_index_entry_key k (ix_id index) index_value (pk_data_type schema)))
            filter None (empty_window 0) entries
      | [] => scan_legacy_index_entries index_name index_value filter
      end
  end.

Definition scan_index_rows_at (index_name : string) (index_value : ColumnValue) (filter : option Expr)
    : PgWireResult (list RowMap) :=
  map snd <$> scan_index_row_entries_at index_name index_value filter.

(** An entry of a range: the value of the index, checked against the bounds, then the primary
    key, which must end the key. *)
Definition read_index_range_entry (index : IndexCatalog) (t : DataType) (lower upper : KeyBound) (e : kvrow)
    : PgWireResult (option RowEntry) :=
  suffix ← ok_or (PgError "XX000" "v2 index key missing expected all-index prefix")
             (strip_prefix (index_all_prefix (ix_id index)) e.1);
  '(index_value, consumed) ← decode_key_value t suffix;
  if negb (value_in_bounds index_value lower upper) then Ok None
  else
    '(pk_value, pk_consumed) ← decode_key_value (pk_data_type schema) (drop consumed suffix);
    if negb (consumed + pk_consumed =? length suffix)%nat
    then user_error "XX000" "malformed v2 index range key suffix"
    else row ← visible_row pk_value; Ok (option_map (pair pk_value) row).

Definition scan_index_row_entries_by_range_at (index_name : string) (lower upper : KeyBound) (filter : option Expr)
    : PgWireResult (list RowEntry) :=
  match index_named index_name with
  | None => scan_visible_row_entries_at filter
  | Some index =>
      match (name ← head (ix_column_names index); find_column schema name) with
      | None => Ok []
      | Some index_column =>
          match index_value_range (ix_id index) lower upper with
          | None => Ok []
          | Some range =>
              entries ← read_range range;
              w_rows <$> visit_entries (read_index_range_entry index (data_type index_column) lower upper)
                           filter None (empty_window 0) entries
          end
      end
  end.

(** ** The [SelectRows] arm of the executor *)

(** [rows.into_iter().skip(offset).take(limit)]. *)
Definition windowed {A} (limit : option nat) (offset : nat) (rows : list A) : list A :=
  take_limit limit (drop offset rows).

(** The rows of the response; OFFSET and LIMIT are the scan's where it can apply them. *)
Definition select_rows (fuel : nat) (access : ReadAccess) (limit : option nat) (offset : nat) : PgWireResult (list RowMap) :=
  let can_window_scan := (0 <? offset)%nat || bool_decide (is_Some limit) in
  match access with
  | PointLookup key => row ← visible_row key; Ok (windowed limit offset (option_list row))
  | PrimaryKeyInLookup keys => windowed limit offset <$> read_visible_rows_by_pk_in_at keys
  | PrimaryKeyRangeScan lower upper filter =>
      map snd <$> scan_visible_row_entries_by_pk_range_at fuel lower upper filter
                    (if can_window_scan then limit else None) (if can_window_scan then offset else 0)
  | SecondaryIndexLookup index_name _ key filter => windowed limit offset <$> scan_index_rows_at index_name key filter
  | SecondaryIndexRangeScan index_name _ lower upper filter =>
      (fun rows => windowed limit offset (map snd rows)) <$>
        scan_index_row_entries_by_range_at index_name lower upper filter
  | PrefixScan filter =>
      if can_window_scan
      then map snd <$> scan_visible_row_entries_by_pk_range_at fuel None None filter limit offset
      else scan_visible_rows_at filter
  end.
End Scans.
