(* ===== verification/Selects.v ===== *)
(** * What a SELECT reads

    Theorems on Scans.v: over a table whose rows and indexes are stored as the row writes
    store them, the rows a planned SELECT answers are the rows its WHERE clause accepts,
    whichever access the planner chose, inside a transaction or outside. *)

From S2P Require LegacyCodec.
From S2P Require Import Prelude BTree Float Types TupleCodec Values Text Mode KeyCodec RowCodec KvStore Stores Server Session Json Catalog Coerce Operators Patterns Dates SqlJson Functions Expr Filter Access Scans.

#[local] Open Scope string_scope.
#[local] Open Scope list_scope.
#[local] Open Scope Z_scope.

(** ** The rows a session sees *)

Section View.
Context {W T : Type} `{StoreTransaction W T, !KvSnapshot T W}.
Context `{ValueTexts, SerdeJson, UnicodeCase, FixedTexts, Clock}.
Context (s : Server W T) (session_id : option Z).

(** The store under the writes the session has staged. *)
Definition session_rows : kvmap :=
  match txn_of s session_id with
  | Some txn => view (store_rows (store s)) (staged txn)
  | None => store_rows (store s)
  end.

Lemma txn_get_rows (k : key) : txn_get s session_id k = Ok (session_rows !! k).
Proof.
  unfold txn_get, session_rows. destruct (txn_of s session_id) as [txn|]; [|apply law_ks_get].
  by rewrite law_get, committed_rows.
Qed.

Context (Hcurrent : use_consistent_read s session_id = false).

Lemma read_range_rows (r : RangeScan) :
  rs_limit r = None \/ (txn_of s session_id = None /\ rs_limit r <> Some 0%nat) ->
  read_range s session_id r =
    Ok (take_limit (rs_limit r) (in_order (rs_reverse r)
         (btree_iter (rows_where (KeyCodec.in_range r) session_rows)))).
Proof.
  intros Hl. unfold read_range. rewrite Hcurrent. unfold txn_scan_range, session_rows.
  destruct (txn_of s session_id) as [txn|].
  - destruct Hl as [->|[? _]]; [|done]. by rewrite law_scan_range, committed_rows.
  - rewrite law_ks_scan_range by (by destruct Hl as [->|[_ ?]]). done.
Qed.

Lemma read_prefix_rows (p : key) :
  read_prefix s session_id p = Ok (btree_iter (rows_where (fun k => starts_with k p) session_rows)).
Proof.
  unfold read_prefix. rewrite Hcurrent. unfold txn_scan_prefix, session_rows.
  destruct (txn_of s session_id) as [txn|]; [by rewrite law_scan_prefix, committed_rows|].
  by rewrite law_ks_scan_prefix.
Qed.

(** A row record is read through the session's view. *)
Lemma visible_record (database_name schema_name : string) (schema : TableSchema) (pk : ColumnValue) (b : list byte) :
  session_rows !! row_key (table_id schema) (table_epoch schema) pk = Some b ->
  visible_row s session_id database_name schema_name schema pk = Some <$> decode_row_record schema b.
Proof.
  intros Hb. unfold visible_row, read_visible_row_at. rewrite Hcurrent, !txn_get_rows, Hb.
  destruct (_ && _); cbn [coded map_err]; by rewrite bind_ok.
Qed.

(** Without a row record and a marker there is no row. *)
Lemma no_visible_record (database_name schema_name : string) (schema : TableSchema) (pk : ColumnValue) (marker : key) :
  session_rows !! row_key (table_id schema) (table_epoch schema) pk = None ->
  LegacyCodec.row_marker_key database_name schema_name (table_name schema) pk = Ok marker ->
  session_rows !! marker = None ->
  visible_row s session_id database_name schema_name schema pk = Ok None.
Proof.
  intros Hb Hk Hm. unfold visible_row, read_visible_row_at. rewrite Hcurrent, !txn_get_rows, Hb.
  destruct (_ && _); cbn [coded map_err]; rewrite bind_ok; [done|].
  rewrite Hk, bind_ok, txn_get_rows, Hm. done.
Qed.
End View.

(** ** Filling a window *)

Section Windows.
Context `{ValueTexts, SerdeJson, UnicodeCase, FixedTexts, Clock}.
Context (schema : TableSchema) (filter : option Expr) (limit : option nat) (p : RowMap -> bool).
Context (Hlimit : limit <> Some 0%nat).

Lemma full_take {A} (l : list A) (a : A) : full limit l = false ->
  if full limit (l ++ [a]) then forall more, take_limit limit (l ++ a :: more) = l ++ [a] else True.
Proof.
  intros Hl. destruct (full limit (l ++ [a])) eqn:Hf; [|done]. intros more. destruct limit as [n|]; [|done].
  cbn [full take_limit] in *. apply Nat.leb_gt in Hl. apply Nat.leb_le in Hf. rewrite length_app in Hf. cbn in Hf.
  replace n with (length (l ++ [a])) by (rewrite length_app; cbn; lia).
  change (l ++ a :: more) with (l ++ [a] ++ more). by rewrite app_assoc, take_app_length.
Qed.

Lemma visit_entries_fill (read : kvrow -> PgWireResult (option RowEntry)) (kvs : list kvrow)
    (entries : list (option RowEntry)) :
  Forall2 (fun kv o => read kv = Ok o /\ forall e, o = Some e -> residual e.2 schema filter = Ok (p e.2)) kvs entries ->
  forall w : Window, w_stop w = false -> full limit (w_rows w) = false -> (w_skip w = 0%nat \/ w_rows w = []) ->
  exists w', visit_entries schema read filter limit w kvs = Ok w' /\
    w_rows w' = take_limit limit (w_rows w ++ drop (w_skip w) (List.filter (fun e => p e.2) (omap id entries))).
Proof.
  induction 1 as [|kv o kvs entries [Hread Hres] _ IH]; intros w Hstop Hfull Hskip.
  - exists w. split; [done|]. cbn [omap list_omap List.filter]. rewrite drop_nil, app_nil_r.
    destruct limit as [n|]; [|done]. cbn [full take_limit] in *. apply Nat.leb_gt in Hfull. rewrite take_ge by lia. done.
  - cbn [visit_entries]. rewrite Hread, bind_ok. destruct o as [e|]; cbn [omap list_omap id].
    2:{ rewrite bind_ok, Hstop. by apply IH. }
    unfold offer. rewrite (Hres e eq_refl), !bind_ok. cbn [List.filter]. destruct (p e.2) eqn:Hp; cbn [negb].
    2:{ rewrite bind_ok, Hstop. by apply IH. }
    destruct (w_skip w) as [|skip] eqn:Hs.
    + rewrite bind_ok. cbn [w_stop w_rows w_skip drop]. pose proof (full_take (w_rows w) e Hfull) as Ht.
      destruct (full limit (w_rows w ++ [e])) eqn:Hf.
      * eexists. split; [done|]. cbn [w_rows]. by rewrite Ht.
      * edestruct IH as (w' & Hw & Hr); [..|exists w'; split; [exact Hw|]]; cbn [w_stop w_rows w_skip]; try done; [by left|].
        rewrite Hr. cbn [w_rows w_skip drop]. by rewrite <- app_assoc.
    + rewrite bind_ok. cbn [w_stop].
      edestruct IH as (w' & Hw & Hr); [..|exists w'; split; [exact Hw|]]; cbn [w_stop w_rows w_skip]; try done.
      right. by destruct Hskip.
Qed.

Lemma empty_not_full {A} : full (A := A) limit [] = false.
Proof. destruct limit as [[|n]|]; done. Qed.

Lemma visit_entries_window (read : kvrow -> PgWireResult (option RowEntry)) (kvs : list kvrow)
    (entries : list (option RowEntry)) (offset : nat) :
  Forall2 (fun kv o => read kv = Ok o /\ forall e, o = Some e -> residual e.2 schema filter = Ok (p e.2)) kvs entries ->
  w_rows <$> visit_entries schema read filter limit (empty_window offset) kvs =
    Ok (windowed limit offset (List.filter (fun e => p e.2) (omap id entries))).
Proof.
  intros Hall. destruct (visit_entries_fill read kvs entries Hall (empty_window offset)) as (w & -> & Hr);
    [done|apply empty_not_full|by right|]. cbn. by rewrite Hr.
Qed.
End Windows.

(** ** Listings of a part of the keys *)

Lemma strictly_filter {A} (R : A -> A -> Prop) (q : A -> bool) (l : list A) : strictly R l -> strictly R (List.filter q l).
Proof.
  induction l as [|a l IH]; [done|]. intros [Ha Hl]. cbn [List.filter]. destruct (q a); [|by apply IH].
  split; [|by apply IH]. rewrite Forall_forall in Ha |- *. intros b Hb. apply Ha.
  apply list_elem_of_In in Hb. apply filter_In in Hb as [Hb _]. by apply list_elem_of_In.
Qed.

Lemma elem_of_list_filter {A} (q : A -> bool) (l : list A) (a : A) : a ∈ List.filter q l <-> a ∈ l /\ q a = true.
Proof. by rewrite !list_elem_of_In, filter_In. Qed.

#[export] Instance list_filter_perm {A} (q : A -> bool) : Proper ((≡ₚ) ==> (≡ₚ)) (List.filter q).
Proof.
  intros l m. induction 1 as [|a l m _ IH|a b l|l m n _ IH1 _ IH2]; cbn [List.filter]; [done| | |by rewrite IH1].
  - destruct (q a); [by constructor|done].
  - destruct (q a), (q b); done || apply Permutation_swap.
Qed.

(** The keys of a smaller range are the listing of the larger one, filtered. *)
Lemma btree_iter_narrow (M : kvmap) (q r : key -> bool) : (forall k : key, q k = true -> r k = true) ->
  btree_iter (rows_where q M) = List.filter (fun kv => q kv.1) (btree_iter (rows_where r M)).
Proof.
  intros Hqr. apply btree_iter_unique; [apply strictly_filter, btree_iter_strictly|].
  intros k v. rewrite elem_of_list_filter, btree_iter_elem, !rows_where_lookup. cbn [fst].
  destruct (q k) eqn:Hq; [rewrite (Hqr k Hq); naive_solver|]. naive_solver.
Qed.

Lemma btree_iter_none (M : kvmap) (q : key -> bool) : (forall k : key, is_Some (M !! k) -> q k = false) ->
  btree_iter (rows_where q M) = [].
Proof.
  intros Hq. destruct (btree_iter (rows_where q M)) as [|[k v] l] eqn:E; [done|]. exfalso.
  assert ((k, v) ∈ btree_iter (rows_where q M)) as Hin by (rewrite E; by left).
  rewrite btree_iter_elem, rows_where_lookup in Hin. destruct (q k) eqn:Hk; [|done].
  by rewrite (Hq k) in Hk by eauto.
Qed.

Lemma filter_forall2 {A B} (P : A -> B -> Prop) (q : A -> bool) (r : B -> bool) (l : list A) (m : list B) :
  Forall2 P l m -> (forall a b, P a b -> q a = r b) -> Forall2 P (List.filter q l) (List.filter r m).
Proof.
  intros H Hqr. induction H as [|a b l m Hab _ IH]; [done|]. cbn [List.filter]. rewrite (Hqr a b Hab).
  destruct (r b); [by constructor|done].
Qed.

Lemma forall2_map {A B C} (P : A -> B -> Prop) (f : A -> C) (g : B -> C) (l : list A) (m : list B) :
  Forall2 P l m -> (forall a b, P a b -> f a = g b) -> map f l = map g m.
Proof. intros H Hfg. induction H as [|a b l m Hab _ IH]; [done|]. cbn [map]. by rewrite (Hfg a b Hab), IH. Qed.

(** Keys that are exactly the images of distinct entries. *)
Lemma keys_of_entries {A : Type} (M : kvmap) (q : key -> bool) (entries : list A) (f : A -> key) :
  NoDup (map f entries) ->
  (forall k : key, q k = true -> is_Some (M !! k) <-> exists e, e ∈ entries /\ k = f e) ->
  exists es, es ≡ₚ List.filter (fun e => q (f e)) entries /\ map fst (btree_iter (rows_where q M)) = map f es.
Proof.
  intros Hnd Hin.
  assert (map fst (btree_iter (rows_where q M)) ≡ₚ map f (List.filter (fun e => q (f e)) entries)) as Hp.
  { apply NoDup_Permutation; [apply btree_iter_nodup| |].
    - clear Hin. induction entries as [|e entries IH]; [constructor|]. cbn [map List.filter] in *.
      apply NoDup_cons in Hnd as [Hn Hnd]. destruct (q (f e)); [|by apply IH]. cbn [map]. constructor; [|by apply IH].
      intros H. apply Hn. apply list_elem_of_fmap in H as (e' & He & H). apply elem_of_list_filter in H as [H _].
      rewrite He. by apply list_elem_of_fmap_2.
    - intros k. rewrite !list_elem_of_fmap. split.
      + intros ([k' v] & -> & H). rewrite btree_iter_elem, rows_where_lookup in H. cbn [fst] in *. destruct (q k') eqn:Hq; [|done].
        destruct (proj1 (Hin k' Hq) ltac:(eauto)) as (e & He & ->). exists e. by rewrite elem_of_list_filter.
      + intros (e & -> & H). apply elem_of_list_filter in H as [H Hq].
        destruct (proj2 (Hin (f e) Hq) ltac:(eauto)) as [v Hv]. exists (f e, v). split; [done|].
        by rewrite btree_iter_elem, rows_where_lookup, Hq. }
  apply Permutation_map_inv in Hp as (es & Hes & Hp). exists es. by rewrite Hp.
Qed.

(** ** A stored table *)

Section Table.
Context {W T : Type} `{StoreTransaction W T, !KvSnapshot T W}.
Context `{ValueTexts, SerdeJson, UnicodeCase, FixedTexts, Clock}.
Context (s : Server W T) (session_id : option Z) (database_name schema_name : string) (schema : TableSchema).
Context (indexes : list IndexCatalog).

(** The indexes as the planner sees them. *)
Definition index_columns : list IndexColumns := map (fun i => (ix_name i, ix_column_names i)) indexes.

(** What the entries of an index start with in the first layout. *)
Definition legacy_index_path (index_name : string) : key :=
  LegacyCodec.path [LegacyCodec.INDEX_DATA_PREFIX; database_name; schema_name; table_name schema; index_name].

(** The rows [entries] are stored in [M], in key order: a record under the key of each row and
    an entry for it in both layouts of every index on one column, and no marker of the first
    layout. *)
Record stored_table (M : kvmap) (entries : list RowEntry) : Prop := {
  st_rows : Forall2 (fun (kv : kvrow) (e : RowEntry) =>
      kv.1 = row_key (table_id schema) (table_epoch schema) e.1 /\ decode_row_record schema kv.2 = Ok e.2)
    (btree_iter (rows_where (fun k => starts_with k (row_prefix (table_id schema) (table_epoch schema))) M)) entries;
  st_keys : Forall (fun e : RowEntry => exists p, int_primary_key e.2 schema e.1 p) entries;
  st_columns : Forall (fun e : RowEntry => int_indexes e.2 schema index_columns) entries;
  st_indexes : forall (index : IndexCatalog) (column : string), index ∈ indexes -> ix_column_names index = [column] ->
    forall k : key, starts_with k (index_all_prefix (ix_id index)) = true ->
      is_Some (M !! k) <-> exists e, e ∈ entries /\ k = index_entry_key (ix_id index) (row_get e.2 column) e.1;
  st_no_markers : forall k : key, is_Some (M !! k) ->
    starts_with k (LegacyCodec.row_marker_prefix database_name schema_name (table_name schema)) = false;
  st_legacy_indexes : forall (index : IndexCatalog) (column : string), index ∈ indexes -> ix_column_names index = [column] ->
    forall k : key, starts_with k (legacy_index_path (ix_name index)) = true ->
      is_Some (M !! k) <-> exists e, e ∈ entries /\
        LegacyCodec.index_entry_key database_name schema_name (table_name schema) (ix_name index) (row_get e.2 column) e.1 = Ok k;
}.

Context (entries : list RowEntry) (Hcurrent : use_consistent_read s session_id = false).
Context (Htable : stored_table (session_rows s session_id) entries).

Lemma int_key_typed (t : DataType) (v : ColumnValue) (z : Z) : int_type t = true -> int_value_of t v z ->
  key_typed t v = true.
Proof.
  intros Ht (Hz & Hc & _). destruct v; try discriminate Hz; destruct t; try discriminate Ht; try discriminate Hc; try done;
    by destruct kind, unsigned.
Qed.

Lemma entry_key (e : RowEntry) : e ∈ entries -> exists p : Z,
  int_column e.2 schema (primary_key schema) (pk_data_type schema) e.1 p /\ wf_key e.1 /\ key_typed (pk_data_type schema) e.1 = true.
Proof.
  intros He. pose proof (st_keys _ _ Htable) as Hk. rewrite Forall_forall in Hk. destruct (Hk e He) as [p Hp]. exists p.
  split; [exact Hp|]. destruct Hp as (Ht & _ & _ & Hv). split; [exact (proj1 (int_value_key _ _ _ Hv))|].
  by apply (int_key_typed _ _ p).
Qed.

Lemma pk_of_row_key_entry (e : RowEntry) : e ∈ entries ->
  pk_of_row_key schema (row_key (table_id schema) (table_epoch schema) e.1) = Ok e.1.
Proof.
  intros He. destruct (entry_key e He) as (_ & _ & Hwf & Ht). unfold pk_of_row_key, decode_pk_from_row_key, row_key.
  rewrite strip_prefix_app. cbn [ok_or]. by rewrite bind_ok, decode_whole_key, bind_ok, Nat.eqb_refl.
Qed.

(** The record of an entry. *)
Lemma entry_stored (e : RowEntry) : e ∈ entries -> exists b : list byte,
  session_rows s session_id !! row_key (table_id schema) (table_epoch schema) e.1 = Some b /\ decode_row_record schema b = Ok e.2.
Proof.
  intros He. apply list_elem_of_lookup in He as [i Hi].
  destruct (Forall2_lookup_r _ _ _ _ _ (st_rows _ _ Htable) Hi) as ([k b] & Hkv & Hk & Hd). cbn [fst snd] in *. subst k.
  exists b. split; [|done]. apply list_elem_of_lookup_2 in Hkv. rewrite btree_iter_elem, rows_where_lookup in Hkv.
  by destruct (starts_with _ _).
Qed.

Lemma stored_entry (pk : ColumnValue) (b : list byte) :
  session_rows s session_id !! row_key (table_id schema) (table_epoch schema) pk = Some b ->
  exists e, e ∈ entries /\ encode_key_value e.1 = encode_key_value pk.
Proof.
  intros Hb. assert ((row_key (table_id schema) (table_epoch schema) pk, b) ∈
    btree_iter (rows_where (fun k => starts_with k (row_prefix (table_id schema) (table_epoch schema))) (session_rows s session_id)))
    as Hin.
  { rewrite btree_iter_elem, rows_where_lookup. unfold row_key in *. by rewrite (proj2 (starts_with_spec _ _)) by eauto. }
  apply list_elem_of_lookup in Hin as [i Hi].
  destruct (Forall2_lookup_l _ _ _ _ _ (st_rows _ _ Htable) Hi) as (e & He & Hk & _). exists e.
  split; [by eapply list_elem_of_lookup_2|]. cbn [fst] in Hk. unfold row_key in Hk. by apply app_inv_head in Hk.
Qed.

Lemma entries_nodup : NoDup (map (fun e : RowEntry => encode_key_value e.1) entries).
Proof.
  pose proof (btree_iter_nodup (rows_where (fun k => starts_with k (row_prefix (table_id schema) (table_epoch schema)))
    (session_rows s session_id))) as Hnd.
  assert (map fst (btree_iter (rows_where (fun k => starts_with k (row_prefix (table_id schema) (table_epoch schema)))
    (session_rows s session_id))) =
    map (fun x => row_prefix (table_id schema) (table_epoch schema) ++ x) (map (fun e : RowEntry => encode_key_value e.1) entries)) as E.
  { rewrite map_map. by apply (forall2_map _ _ _ _ _ (st_rows _ _ Htable)); intros kv e [Hk _]. }
  rewrite E in Hnd. by apply NoDup_fmap_1 in Hnd.
Qed.

Lemma same_entry (a b : RowEntry) : a ∈ entries -> b ∈ entries -> encode_key_value a.1 = encode_key_value b.1 -> a = b.
Proof.
  intros Ha Hb He. apply list_elem_of_lookup in Ha as [i Hi], Hb as [j Hj].
  assert (i = j) as ->; [|congruence].
  apply (NoDup_lookup _ i j (encode_key_value a.1) entries_nodup); rewrite list_lookup_fmap; [by rewrite Hi|by rewrite Hj, He].
Qed.

(** The row at a key. *)
Definition find_entry (pk : ColumnValue) : option RowEntry :=
  List.find (fun e : RowEntry => bool_decide (encode_key_value e.1 = encode_key_value pk)) entries.

Lemma visible_found (pk : ColumnValue) (z : Z) : int_of_key pk = Some z ->
  visible_row s session_id database_name schema_name schema pk = Ok (option_map snd (find_entry pk)).
Proof.
  intros Hz. destruct (find_entry pk) as [e|] eqn:Hf.
  - apply find_some in Hf as [He Hk]. apply list_elem_of_In in He. apply bool_decide_eq_true in Hk.
    destruct (entry_stored e He) as (b & Hb & Hd). rewrite (visible_record s session_id Hcurrent _ _ _ pk b); [by rewrite Hd|].
    unfold row_key in *. by rewrite <- Hk.
  - destruct (session_rows s session_id !! row_key (table_id schema) (table_epoch schema) pk) as [b|] eqn:Hb.
    + destruct (stored_entry pk b Hb) as (e & He & Hk). exfalso.
      apply (find_none _ _ Hf) in He || (apply list_elem_of_In in He; apply (find_none _ _ Hf) in He).
      by apply bool_decide_eq_false in He.
    + destruct (LegacyCodec.row_marker_key database_name schema_name (table_name schema) pk) as [marker| | |] eqn:Hm;
        try (by destruct pk).
      apply (no_visible_record s session_id Hcurrent _ _ _ pk marker Hb Hm).
      destruct (session_rows s session_id !! marker) as [v|] eqn:Hv; [|done]. exfalso.
      pose proof (st_no_markers _ _ Htable marker ltac:(eauto)) as Hno. unfold LegacyCodec.row_marker_key in Hm.
      apply bind_inv in Hm as (seg & _ & [= <-]). rewrite (proj2 (starts_with_spec _ _)) in Hno by eauto. discriminate Hno.
Qed.

Lemma visible_entry (e : RowEntry) : e ∈ entries ->
  visible_row s session_id database_name schema_name schema e.1 = Ok (Some e.2).
Proof.
  intros He. destruct (entry_key e He) as (p & (_ & _ & _ & Hp) & _). rewrite (visible_found e.1 p (proj1 Hp)).
  unfold find_entry. destruct (List.find _ entries) as [e'|] eqn:Hf.
  - apply find_some in Hf as [He' Hk]. apply list_elem_of_In in He'. apply bool_decide_eq_true in Hk.
    by rewrite (same_entry e' e He' He Hk).
  - exfalso. apply list_elem_of_In in He. apply (find_none _ _ Hf) in He. by apply bool_decide_eq_false in He.
Qed.

(** ** Some primary keys *)

Lemma find_filter {A} (f : A -> key) (k : key) (l : list A) : NoDup (map f l) ->
  option_list (List.find (fun a => bool_decide (f a = k)) l) = List.filter (fun a => bool_decide (f a = k)) l.
Proof.
  induction l as [|a l IH]; [done|]. cbn [map List.find List.filter]. intros [Hn Hnd]%NoDup_cons.
  destruct (bool_decide_reflect (f a = k)) as [Ha|Hne]; [|by apply IH]. cbn [option_list]. f_equal.
  rewrite <- IH by done. destruct (List.find _ l) as [b|] eqn:Hf; [|done]. exfalso. apply find_some in Hf as [Hb Hk].
  apply bool_decide_eq_true in Hk. apply Hn. rewrite Ha, <- Hk. apply list_elem_of_fmap_2. by apply list_elem_of_In.
Qed.

Lemma find_entry_list (pk : ColumnValue) :
  option_list (find_entry pk) = List.filter (fun e : RowEntry => bool_decide (encode_key_value e.1 = encode_key_value pk)) entries.
Proof. apply (find_filter (fun e : RowEntry => encode_key_value e.1)), entries_nodup. Qed.

Lemma filter_false {A} (l : list A) : List.filter (fun _ => false) l = [].
Proof. by induction l. Qed.

Lemma filter_filter {A} (q r : A -> bool) (l : list A) :
  List.filter r (List.filter q l) = List.filter (fun a => q a && r a) l.
Proof.
  induction l as [|a l IH]; [done|]. cbn [List.filter]. destruct (q a); cbn [List.filter andb]; [|exact IH].
  destruct (r a); [by f_equal|exact IH].
Qed.

Lemma filter_or {A} (q r : A -> bool) (l : list A) : (forall a, a ∈ l -> q a = true -> r a = false) ->
  List.filter (fun a => q a || r a) l ≡ₚ List.filter q l ++ List.filter r l.
Proof.
  induction l as [|a l IH]; [done|]. intros Hd. cbn [List.filter].
  assert (forall b, b ∈ l -> q b = true -> r b = false) as Hd' by (intros b Hb; apply Hd; by right).
  specialize (IH Hd'). pose proof (Hd a ltac:(by left)) as Ha. destruct (q a) eqn:Hq; cbn [orb].
  - rewrite (Ha eq_refl). cbn [app]. by rewrite IH.
  - destruct (r a); [|done]. rewrite <- Permutation_middle. by rewrite IH.
Qed.

Lemma find_entries_perm (keys : list ColumnValue) : NoDup (map encode_key_value keys) ->
  omap find_entry keys ≡ₚ
  List.filter (fun e : RowEntry => existsb (fun k => bool_decide (encode_key_value e.1 = encode_key_value k)) keys) entries.
Proof.
  induction keys as [|k keys IH]; cbn [map omap list_omap existsb].
  - intros _. by rewrite filter_false.
  - intros [Hn Hnd]%NoDup_cons. rewrite filter_or.
    + rewrite <- find_entry_list, <- (IH Hnd). by destruct (find_entry k).
    + intros e _ He. apply bool_decide_eq_true in He. apply not_true_is_false. intros Hx. apply existsb_exists in Hx as (k' & Hk' & Hx).
      apply bool_decide_eq_true in Hx. apply Hn. rewrite <- He, Hx. apply list_elem_of_fmap_2. by apply list_elem_of_In.
Qed.

Lemma omap_options {A B C} (f : A -> option B) (g : B -> C) (l : list A) :
  omap id (map (fun a => option_map g (f a)) l) = map g (omap f l).
Proof.
  induction l as [|a l IH]; [done|]. cbn [map omap list_omap]. unfold id at 1. destruct (f a); cbn; [f_equal|]; exact IH.
Qed.

Lemma read_some_keys (keys : list ColumnValue) : Forall (fun k => is_Some (int_of_key k)) keys ->
  read_visible_rows_by_pk_in_at s session_id database_name schema_name schema keys = Ok (map snd (omap find_entry keys)).
Proof.
  intros Hk. unfold read_visible_rows_by_pk_in_at, has_active_txn. destruct keys as [|k0 keys0] eqn:E; [done|]. rewrite <- E in *. clear E.
  destruct (txn_of s session_id) as [txn|] eqn:Htx.
  - assert (map_m (visible_row s session_id database_name schema_name schema) keys =
            Ok (map (fun k => option_map snd (find_entry k)) keys)) as ->.
    { apply map_m_ok. intros k Hin. rewrite Forall_forall in Hk. destruct (Hk k Hin) as [z Hz]. by apply (visible_found k z). }
    by rewrite bind_ok, omap_options.
  - rewrite law_ks_multi_get. cbn [coded map_err]. rewrite bind_ok. unfold store_multi_get. rewrite map_map.
    assert (store_rows (store s) = session_rows s session_id) as -> by (unfold session_rows; by rewrite Htx).
    unfold decode_present. induction Hk as [|k ks [z Hz] _ IH]; [done|]. cbn [map omap list_omap].
    pose proof (visible_found k z Hz) as Hv.
    destruct (session_rows s session_id !! row_key (table_id schema) (table_epoch schema) k) as [b|] eqn:Hb; cbn [id].
    + rewrite (visible_record s session_id Hcurrent _ _ _ k b Hb) in Hv. destruct (decode_row_record schema b) as [row| | |] eqn:Hd; try discriminate Hv.
      destruct (find_entry k) as [e|]; [|discriminate Hv]. injection Hv as Hv. cbn [map_m map]. by rewrite Hd, bind_ok, IH, Hv.
    + destruct (find_entry k) as [e|] eqn:Hf; [|done]. exfalso. apply find_some in Hf as [He Hke]. apply list_elem_of_In in He.
      apply bool_decide_eq_true in Hke. destruct (entry_stored e He) as (b & Hb' & _). unfold row_key in *. by rewrite Hke, Hb in Hb'.
Qed.

(** ** Scans of rows *)

Context (filter : option Expr) (p : RowMap -> bool).
Context (Hfilter : forall e : RowEntry, e ∈ entries -> residual e.2 schema filter = Ok (p e.2)).

(** The entries a range of keys holds, and what a scan of it keeps. *)
Definition entries_in (q : key -> bool) : list RowEntry :=
  List.filter (fun e : RowEntry => q (row_key (table_id schema) (table_epoch schema) e.1)) entries.

Definition kept (es : list RowEntry) : list RowEntry := List.filter (fun e : RowEntry => p e.2) es.

Lemma entries_in_elem (q : key -> bool) (e : RowEntry) : e ∈ entries_in q -> e ∈ entries.
Proof. intros He. by apply elem_of_list_filter in He as [He _]. Qed.

Lemma range_records (q : key -> bool) :
  (forall k : key, q k = true -> starts_with k (row_prefix (table_id schema) (table_epoch schema)) = true) ->
  Forall2 (fun (kv : kvrow) (e : RowEntry) =>
      kv.1 = row_key (table_id schema) (table_epoch schema) e.1 /\ decode_row_record schema kv.2 = Ok e.2)
    (btree_iter (rows_where q (session_rows s session_id))) (entries_in q).
Proof.
  intros Hq. rewrite (btree_iter_narrow _ q _ Hq). apply (filter_forall2 _ _ _ _ _ (st_rows _ _ Htable)).
  intros kv e [-> _]. done.
Qed.

Lemma forall2_some {A B} (P : A -> option B -> Prop) (l : list A) (m : list B) :
  Forall2 (fun a b => P a (Some b)) l m -> Forall2 P l (map Some m).
Proof. induction 1; by constructor. Qed.

Lemma omap_some {A} (l : list A) : omap id (map Some l) = l.
Proof. induction l as [|a l IH]; [done|]. cbn. by rewrite IH. Qed.

(** A scan whose reads give the entries keeps the window of those the filter accepts. *)
Lemma visit_kept (read : kvrow -> PgWireResult (option RowEntry)) (kvs : list kvrow) (es : list RowEntry)
    (limit : option nat) (offset : nat) : limit <> Some 0%nat ->
  Forall2 (fun kv e => read kv = Ok (Some e) /\ e ∈ entries) kvs es ->
  w_rows <$> visit_entries schema read filter limit (empty_window offset) kvs = Ok (windowed limit offset (kept es)).
Proof.
  intros Hl Hr. rewrite (visit_entries_window schema filter limit p Hl read kvs (map Some es) offset); [by rewrite omap_some|].
  apply forall2_some. eapply Forall2_impl; [exact Hr|]. intros kv e [Hk He]. split; [done|]. intros e' [= <-]. by apply Hfilter.
Qed.

Lemma read_record_entry (kv : kvrow) (e : RowEntry) : e ∈ entries ->
  kv.1 = row_key (table_id schema) (table_epoch schema) e.1 -> decode_row_record schema kv.2 = Ok e.2 ->
  read_record schema kv = Ok (Some e).
Proof.
  intros He Hk Hd. unfold read_record. rewrite Hk, (pk_of_row_key_entry e He), bind_ok, Hd, bind_ok. by destruct e.
Qed.

Lemma read_by_row_key_entry (kv : kvrow) (e : RowEntry) : e ∈ entries ->
  kv.1 = row_key (table_id schema) (table_epoch schema) e.1 ->
  read_by_key s session_id database_name schema_name schema (pk_of_row_key schema) kv = Ok (Some e).
Proof.
  intros He Hk. unfold read_by_key. rewrite Hk, (pk_of_row_key_entry e He), bind_ok, (visible_entry e He), bind_ok. by destruct e.
Qed.

Lemma no_marker_rows (q : key -> bool) :
  (forall k : key, q k = true ->
     starts_with k (LegacyCodec.row_marker_prefix database_name schema_name (table_name schema)) = true) ->
  btree_iter (rows_where q (session_rows s session_id)) = [].
Proof.
  intros Hq. apply btree_iter_none. intros k Hk. destruct (q k) eqn:E; [|done].
  pose proof (Hq k E) as Hs. by rewrite (st_no_markers _ _ Htable k Hk) in Hs.
Qed.

Lemma scan_all_rows :
  scan_visible_row_entries_at s session_id database_name schema_name schema filter = Ok (kept entries).
Proof.
  unfold scan_visible_row_entries_at. rewrite read_range_rows, bind_ok; [|done|by left]. cbn [take_limit rs_limit row_range prefix_range
    in_order rs_reverse].
  assert (forall k : key, KeyCodec.in_range (row_range (table_id schema) (table_epoch schema) None) k =
    starts_with k (row_prefix (table_id schema) (table_epoch schema))) as Hk by (intros; apply in_prefix_range).
  rewrite (rows_where_ext _ _ _ Hk).
  destruct (btree_iter _) as [|kv kvs] eqn:E.
  - pose proof (st_rows _ _ Htable) as Hr. rewrite E in Hr. apply Forall2_nil_inv_l in Hr as Hnil.
    rewrite (read_prefix_rows s session_id Hcurrent), bind_ok, no_marker_rows by done. unfold kept. by rewrite Hnil.
  - rewrite <- E. pose proof (visit_kept (read_record schema) (btree_iter (rows_where
      (fun k => starts_with k (row_prefix (table_id schema) (table_epoch schema))) (session_rows s session_id))) entries None 0 ltac:(done)) as V.
    cbn [windowed take_limit drop] in V. apply V.
    pose proof (st_rows _ _ Htable) as Hr. apply Forall2_same_length_lookup. split; [by eapply Forall2_length|].
    intros i kv' e Hkv He. destruct (Forall2_lookup_lr _ _ _ _ _ _ Hr Hkv He) as [Hk' Hd].
    pose proof (list_elem_of_lookup_2 _ _ _ He) as Hin. split; [by apply read_record_entry|done].
Qed.

(** ** Ranges of primary keys *)

Definition int_key_bound (bound : KeyBound) : Prop :=
  match bound with Some (v, _) => is_Some (int_of_key v) | None => True end.

Lemma int_marker_key (v : ColumnValue) : is_Some (int_of_key v) -> exists seg : key,
  marker_key database_name schema_name schema v =
    Ok (LegacyCodec.row_marker_prefix database_name schema_name (table_name schema) ++ seg).
Proof. intros [z Hz]. destruct v; try discriminate Hz; by eexists. Qed.

(** The range of markers is there and holds markers only. *)
Lemma marker_range_under (lower upper : KeyBound) (limit : option nat) : int_key_bound lower -> int_key_bound upper ->
  exists r, marker_range database_name schema_name schema lower upper limit = Ok r /\ rs_limit r = limit /\
    rs_reverse r = false /\
    forall k : key, KeyCodec.in_range r k = true ->
      starts_with k (LegacyCodec.row_marker_prefix database_name schema_name (table_name schema)) = true.
Proof.
  intros Hlo Hup. set (prefix := LegacyCodec.row_marker_prefix database_name schema_name (table_name schema)).
  assert (exists lo : key, (exists x : key, lo = prefix ++ x) /\
    (match lower with
     | Some (value, true) => marker_key database_name schema_name schema value
     | Some (value, false) => k ← marker_key database_name schema_name schema value; Ok (k ++ [x00])
     | None => Ok prefix
     end) = Ok lo) as (lo & Hlp & Hl).
  { destruct lower as [[v []]|]; [| |exists prefix; split; [by exists []; rewrite app_nil_r|done]];
      destruct (int_marker_key v Hlo) as [seg ->]; rewrite ?bind_ok; eexists; (split; [|done]); rewrite <- ?app_assoc; by eexists. }
  assert (exists hi : option key, (hi = next_prefix prefix \/ exists y : key, hi = Some (prefix ++ y)) /\
    (match upper with
     | Some (value, true) => k ← marker_key database_name schema_name schema value; Ok (Some (k ++ [x00]))
     | Some (value, false) => Some <$> marker_key database_name schema_name schema value
     | None => Ok (next_prefix prefix)
     end) = Ok hi) as (hi & Hhp & Hh).
  { destruct upper as [[v []]|]; [| |exists (next_prefix prefix); split; [by left|done]];
      destruct (int_marker_key v Hup) as [seg ->]; rewrite ?bind_ok; eexists; (split; [|done]); right; rewrite <- ?app_assoc; by eexists. }
  unfold marker_range. cbv zeta. fold prefix. rewrite Hl, bind_ok, Hh, bind_ok. eexists. split; [done|]. split; [done|]. split; [done|].
  intros k. by apply in_range_under.
Qed.

Lemma pk_range_under (lower upper : KeyBound) (limit : option nat) (k : key) :
  KeyCodec.in_range (row_range_between (table_id schema) (table_epoch schema) lower upper limit) k = true ->
  starts_with k (row_prefix (table_id schema) (table_epoch schema)) = true.
Proof.
  intros Hin. eapply in_range_under; [| |exact Hin].
  - destruct lower as [[l []]|]; unfold row_key; rewrite <- ?app_assoc; eauto.
  - destruct upper as [[u []]|]; unfold row_key; rewrite <- ?app_assoc; eauto.
Qed.

Lemma visit_rows_entries (show_error : pg_error -> string) (limit : option nat) (kvs : list kvrow) :
  forall (w w' : Window) (saw : bool), visit_entries schema (read_record schema) filter limit w kvs = Ok w' ->
  visit_rows (filtered_limit_visit show_error schema filter limit) (w, saw) (map (fun kv : kvrow => (kv.1, Some kv.2)) kvs) =
    Ok (w', saw || match kvs with [] => false | _ => true end).
Proof.
  induction kvs as [|kv kvs IH]; intros w w' saw Hv; cbn [visit_entries visit_rows map] in *; [injection Hv as <-; by rewrite orb_false_r|].
  apply bind_inv in Hv as (e & He & Hv). unfold read_record in He. apply bind_inv in He as (pk & Hpk & He).
  apply bind_inv in He as (row & Hrow & [= <-]). apply bind_inv in Hv as (w1 & Hw & Hv).
  assert (filtered_limit_visit show_error schema filter limit (w, saw) kv.1 (Some kv.2) = Ok (negb (w_stop w1), (w1, true))) as ->.
  { unfold filtered_limit_visit. rewrite Hpk. cbn [map_err ok_or fst snd]. rewrite !bind_ok, Hrow. cbn [map_err].
    by rewrite bind_ok, Hw. }
  rewrite bind_ok, orb_true_r. destruct (w_stop w1) eqn:Hs; cbn [negb].
  - by injection Hv as <-.
  - rewrite (IH w1 w' true Hv). done.
Qed.

Context (show_error : pg_error -> string) (entry_size : Z) (limit : option nat) (offset : nat).
Context (Hnonzero : limit <> Some 0%nat) (Htxn : limit = None \/ txn_of s session_id = None).
Context (Hreserve : reserve entry_size limit = Ok tt).

Lemma kept_nil : windowed limit offset (kept []) = [].
Proof. unfold windowed, kept. cbn [List.filter]. rewrite drop_nil. by destruct limit as [[|n]|]. Qed.

Lemma read_range_empty (r : RangeScan) :
  rs_limit r = None \/ (txn_of s session_id = None /\ rs_limit r <> Some 0%nat) ->
  (forall k : key, KeyCodec.in_range r k = true ->
     starts_with k (LegacyCodec.row_marker_prefix database_name schema_name (table_name schema)) = true) ->
  rs_reverse r = false -> read_range s session_id r = Ok [].
Proof.
  intros Hl Hr Hrev. rewrite (read_range_rows s session_id Hcurrent r Hl), Hrev, (no_marker_rows _ Hr). cbn [in_order].
  by destruct (rs_limit r) as [[|n]|].
Qed.

Lemma storage_limit_ok : storage_scan_limit filter limit offset = None \/
  (txn_of s session_id = None /\ storage_scan_limit filter limit offset <> Some 0%nat).
Proof.
  unfold storage_scan_limit. destruct filter; [by left|]. destruct limit as [n|]; [|by left]. right.
  destruct Htxn as [?| Hno]; [done|]. split; [done|]. cbn. intros [= E]. apply Hnonzero. f_equal. lia.
Qed.

Lemma legacy_range_empty (lower upper : KeyBound) : int_key_bound lower -> int_key_bound upper ->
  scan_legacy_row_marker_entries_by_pk_range_at entry_size s session_id database_name schema_name schema lower upper filter
    limit offset = Ok [].
Proof.
  intros Hlo Hup. unfold scan_legacy_row_marker_entries_by_pk_range_at.
  destruct (marker_range_under lower upper (storage_scan_limit filter limit offset) Hlo Hup) as (r & -> & Hl & Hrev & Hr).
  rewrite bind_ok, (read_range_empty r) by (rewrite ?Hl; done || apply storage_limit_ok). by rewrite bind_ok, Hreserve, bind_ok.
Qed.

Lemma batched_legacy_empty (fuel : nat) (lower upper : KeyBound) : int_key_bound lower -> int_key_bound upper ->
  txn_of s session_id = None -> (0 < fuel)%nat ->
  scan_legacy_row_marker_entries_by_pk_range_batched_at entry_size s session_id database_name schema_name schema fuel lower
    upper filter limit offset = Ok [].
Proof.
  intros Hlo Hup Hno Hfuel. unfold scan_legacy_row_marker_entries_by_pk_range_batched_at.
  destruct (marker_range_under lower upper None Hlo Hup) as (r & -> & Hl & Hrev & Hr).
  rewrite bind_ok, Hreserve, bind_ok. destruct fuel as [|fuel]; [lia|]. cbn [marker_batches].
  rewrite read_range_empty; [by rewrite bind_ok| |exact Hr|done].
  right. split; [done|]. cbn [rs_limit]. unfold filtered_limit_scan_batch_size. intros [= E]. revert E.
  destruct limit; unfold FILTERED_LIMIT_SCAN_BATCH_SIZE; lia.
Qed.

Lemma range_entries (lower upper : KeyBound) : Forall2 (fun (kv : kvrow) (e : RowEntry) =>
      kv.1 = row_key (table_id schema) (table_epoch schema) e.1 /\ decode_row_record schema kv.2 = Ok e.2)
    (btree_iter (rows_where (KeyCodec.in_range (row_range_between (table_id schema) (table_epoch schema) lower upper None))
                   (session_rows s session_id)))
    (entries_in (KeyCodec.in_range (row_range_between (table_id schema) (table_epoch schema) lower upper None))).
Proof. apply range_records. apply pk_range_under. Qed.

Lemma visited_records (q : key -> bool) (kvs : list kvrow) : Forall2 (fun (kv : kvrow) (e : RowEntry) =>
      kv.1 = row_key (table_id schema) (table_epoch schema) e.1 /\ decode_row_record schema kv.2 = Ok e.2) kvs (entries_in q) ->
  w_rows <$> visit_entries schema (read_record schema) filter limit (empty_window offset) kvs =
    Ok (windowed limit offset (kept (entries_in q))).
Proof.
  intros Hr. apply visit_kept; [done|]. apply Forall2_same_length_lookup. split; [by eapply Forall2_length|].
  intros i kv e Hkv He. destruct (Forall2_lookup_lr _ _ _ _ _ _ Hr Hkv He) as [Hk Hd].
  pose proof (entries_in_elem q e (list_elem_of_lookup_2 _ _ _ He)) as Hin. split; [by apply read_record_entry|done].
Qed.

(** Without a filter the store's own limit loses no row of the window. *)
Lemma windowed_take {A} (l : list A) :
  windowed limit offset (take_limit ((fun n => (n + offset)%nat) <$> limit) l) = windowed limit offset l.
Proof.
  unfold windowed. destruct limit as [n|]; [|done]. cbn [fmap option_fmap option_map take_limit].
  rewrite !take_drop_commute, take_take. do 2 f_equal. lia.
Qed.

Lemma windowed_storage_limit (es : list RowEntry) : (forall e : RowEntry, e ∈ es -> e ∈ entries) ->
  windowed limit offset (kept (take_limit (storage_scan_limit filter limit offset) es)) = windowed limit offset (kept es).
Proof.
  intros Hes. unfold storage_scan_limit. destruct filter as [f|]; [done|].
  assert (forall l : list RowEntry, (forall e : RowEntry, e ∈ l -> e ∈ entries) -> kept l = l) as Hk.
  { intros l Hl. induction l as [|e l IH]; [done|]. unfold kept. cbn [List.filter].
    assert (p e.2 = true) as ->. { pose proof (Hfilter e (Hl e ltac:(by left))) as E. by injection E. }
    f_equal. apply IH. intros e' He'. apply Hl. by right. }
  rewrite !Hk; [apply windowed_take|done|]. intros e He. apply Hes. destruct limit as [n|]; [|done].
  cbn [fmap option_fmap option_map take_limit] in He. apply list_elem_of_lookup in He as [i Hi].
  apply lookup_take_Some in Hi as [Hi _]. by eapply list_elem_of_lookup_2.
Qed.

Lemma batched_scan (fuel : nat) (lower upper : KeyBound) : int_key_bound lower -> int_key_bound upper -> (0 < fuel)%nat ->
  txn_of s session_id = None ->
  ('(rows, saw_v2_entries) ← scan_v2_row_entries_by_pk_range_batched_at show_error entry_size s session_id database_name schema_name schema
      fuel lower upper filter limit offset;
   if (saw_v2_entries : bool) then Ok rows
   else scan_legacy_row_marker_entries_by_pk_range_batched_at entry_size s session_id database_name schema_name schema
          fuel lower upper filter limit offset) =
  Ok (windowed limit offset (kept (entries_in
        (KeyCodec.in_range (row_range_between (table_id schema) (table_epoch schema) lower upper None))))).
Proof.
  intros Hlo Hup Hfuel Hno. pose proof (range_entries lower upper) as Hr.
  set (q := KeyCodec.in_range (row_range_between (table_id schema) (table_epoch schema) lower upper None)) in *.
  unfold scan_v2_row_entries_by_pk_range_batched_at, has_active_txn. rewrite Hreserve, bind_ok, Hno.
  rewrite law_ks_scan_range_projected, bind_ok by done. unfold store_scan_range_projected, store_scan_range. cbn [take_limit in_order].
  assert (session_rows s session_id = store_rows (store s)) as Hs by (unfold session_rows; by rewrite Hno). rewrite Hs in Hr.
  pose proof (visited_records q _ Hr) as Hv.
  destruct (visit_entries schema (read_record schema) filter limit (empty_window offset) _) as [w| | |] eqn:Hw; try discriminate Hv.
  injection Hv as Hv.
  pose proof (visit_rows_entries show_error limit _ _ w false Hw) as Hvr.
  cbn [rs_start rs_end rs_reverse row_range_between in_order].
  change (rows_where (range_contains _ _) (store_rows (store s))) with (rows_where q (store_rows (store s))).
  change (map (project_row KeyValue) ?l) with (map (fun kv : kvrow => (kv.1, Some kv.2)) l).
  rewrite Hvr. cbn [coded map_err]. rewrite !bind_ok. cbn [orb].
  destruct (btree_iter _) as [|kv kvs] eqn:E; [|by rewrite Hv].
  apply Forall2_nil_inv_l in Hr as ->. rewrite kept_nil. by apply batched_legacy_empty.
Qed.

Lemma plain_scan (lower upper : KeyBound) : int_key_bound lower -> int_key_bound upper ->
  (v2_entries ← read_range s session_id (row_range_between (table_id schema) (table_epoch schema) lower upper
                                 (storage_scan_limit filter limit offset));
   match v2_entries with
   | _ :: _ =>
       _ ← reserve entry_size limit;
       w_rows <$> visit_entries schema (read_by_key s session_id database_name schema_name schema (pk_of_row_key schema))
                    filter limit (empty_window offset) v2_entries
   | [] => scan_legacy_row_marker_entries_by_pk_range_at entry_size s session_id database_name schema_name schema lower upper
             filter limit offset
   end) =
  Ok (windowed limit offset (kept (entries_in
        (KeyCodec.in_range (row_range_between (table_id schema) (table_epoch schema) lower upper None))))).
Proof.
  intros Hlo Hup. pose proof (range_entries lower upper) as Hr.
  set (q := KeyCodec.in_range (row_range_between (table_id schema) (table_epoch schema) lower upper None)) in *.
  rewrite (read_range_rows s session_id Hcurrent) by apply storage_limit_ok. rewrite bind_ok. cbn [rs_limit rs_reverse row_range_between in_order].
  change (rows_where (KeyCodec.in_range _) (session_rows s session_id)) with (rows_where q (session_rows s session_id)).
  set (sl := storage_scan_limit filter limit offset) in *.
  assert (Forall2 (fun (kv : kvrow) (e : RowEntry) =>
      read_by_key s session_id database_name schema_name schema (pk_of_row_key schema) kv = Ok (Some e) /\ e ∈ entries)
    (take_limit sl (btree_iter (rows_where q (session_rows s session_id)))) (take_limit sl (entries_in q))) as Ht.
  { assert (Forall2 (fun (kv : kvrow) (e : RowEntry) =>
      read_by_key s session_id database_name schema_name schema (pk_of_row_key schema) kv = Ok (Some e) /\ e ∈ entries)
      (btree_iter (rows_where q (session_rows s session_id))) (entries_in q)) as Ha.
    { apply Forall2_same_length_lookup. split; [by eapply Forall2_length|].
      intros i kv e Hkv He. destruct (Forall2_lookup_lr _ _ _ _ _ _ Hr Hkv He) as [Hk Hd].
      pose proof (entries_in_elem q e (list_elem_of_lookup_2 _ _ _ He)) as Hin. split; [by apply read_by_row_key_entry|done]. }
    destruct sl as [n|]; [by apply Forall2_take|done]. }
  rewrite <- (windowed_storage_limit (entries_in q)) by apply entries_in_elem. fold sl.
  destruct (take_limit sl (btree_iter _)) as [|kv kvs] eqn:E.
  - apply Forall2_nil_inv_l in Ht as ->. rewrite kept_nil. by apply legacy_range_empty.
  - rewrite Hreserve, bind_ok. by apply visit_kept.
Qed.

Lemma scan_pk_range (fuel : nat) (lower upper : KeyBound) : int_key_bound lower -> int_key_bound upper -> (0 < fuel)%nat ->
  scan_visible_row_entries_by_pk_range_at show_error entry_size s session_id database_name schema_name schema fuel lower upper
    filter limit offset =
  Ok (windowed limit offset (kept (entries_in
        (KeyCodec.in_range (row_range_between (table_id schema) (table_epoch schema) lower upper None))))).
Proof.
  intros Hlo Hup Hfuel. pose proof (batched_scan fuel lower upper Hlo Hup Hfuel) as Hb. pose proof (plain_scan lower upper Hlo Hup) as Hp.
  unfold scan_visible_row_entries_by_pk_range_at. clear - Htxn Hb Hp.
  destruct filter as [f|]; [|done]. destruct limit as [n|]; [|done]. apply Hb. by destruct Htxn.
Qed.

(** ** Scans of an index *)

Context (name column : string) (index : IndexCatalog) (Hindex : index ∈ indexes).
Context (Hnamed : index_named indexes name = Some index) (Hcolumn : ix_column_names index = [column]).

Definition entry_of (e : RowEntry) : key := index_entry_key (ix_id index) (row_get e.2 column) e.1.

Lemma indexed_value (e : RowEntry) : e ∈ entries ->
  exists t z, int_type t = true /\ column_type schema column = t /\ int_value_of t (row_get e.2 column) z.
Proof.
  intros He. pose proof (st_columns _ _ Htable) as Hc. rewrite Forall_forall in Hc.
  destruct (Hc e He (ix_name index) column) as (t & v & z & Ht & Hct & Hrow & Hv).
  { unfold index_columns. apply list_elem_of_fmap. exists index. by rewrite Hcolumn. }
  exists t, z. unfold row_get. rewrite Hrow. by split.
Qed.

Lemma indexed_wf (e : RowEntry) : e ∈ entries -> wf_key (row_get e.2 column).
Proof. intros He. destruct (indexed_value e He) as (t & z & _ & _ & Hv). exact (proj1 (int_value_key _ _ _ Hv)). Qed.

Lemma index_entries_nodup : NoDup (map entry_of entries).
Proof.
  apply NoDup_fmap_2_strong; [|exact (NoDup_fmap_1 _ _ entries_nodup)]. intros a b Ha Hb He.
  unfold entry_of, index_entry_key, index_prefix in He. rewrite <- !app_assoc in He.
  do 2 apply app_inv_head in He. destruct (key_prefix_free _ _ _ _ (indexed_wf a Ha) (indexed_wf b Hb) He) as [_ Hk].
  by apply same_entry.
Qed.

(** The entries of an index in a part of its keys, in the order of the keys. *)
Lemma index_listing (q : key -> bool) :
  (forall k : key, q k = true -> starts_with k (index_all_prefix (ix_id index)) = true) ->
  exists es, es ≡ₚ List.filter (fun e => q (entry_of e)) entries /\
    Forall2 (fun (kv : kvrow) (e : RowEntry) => kv.1 = entry_of e /\ e ∈ entries /\ q (entry_of e) = true)
      (btree_iter (rows_where q (session_rows s session_id))) es.
Proof.
  intros Hq.
  destruct (keys_of_entries (session_rows s session_id) q entries entry_of index_entries_nodup) as (es & Hp & Hk).
  { intros k Hk. apply (st_indexes _ _ Htable index column Hindex Hcolumn k (Hq k Hk)). }
  exists es. split; [exact Hp|]. apply Forall2_same_length_lookup. split.
  - pose proof (f_equal length Hk) as Hl. by rewrite !length_map in Hl.
  - intros i kv e Hkv He. pose proof (f_equal (fun l => l !! i) Hk) as Hi. cbn beta in Hi.
    rewrite !list_lookup_fmap, Hkv, He in Hi. injection Hi as Hi. split; [exact Hi|].
    pose proof (list_elem_of_lookup_2 _ _ _ He) as Hin. rewrite Hp in Hin. by apply elem_of_list_filter in Hin.
Qed.

Lemma starts_with_app (k a b : key) : starts_with k (a ++ b) = true -> starts_with k a = true.
Proof. rewrite !starts_with_spec. intros [r ->]. exists (b ++ r). by rewrite app_assoc. Qed.

Lemma index_prefix_all (id : Z) (v : ColumnValue) : index_prefix id v = index_all_prefix id ++ encode_key_value v.
Proof. unfold index_prefix, index_all_prefix. by rewrite <- app_assoc. Qed.

Lemma index_lookup_range_prefix (id : Z) (v : ColumnValue) (k : key) :
  KeyCodec.in_range (index_lookup_range (index_prefix id v)) k = starts_with k (index_prefix id v).
Proof.
  rewrite <- (in_prefix_range (index_prefix id v) None k). unfold KeyCodec.in_range. cbn [rs_start rs_end index_lookup_range prefix_range].
  destruct (next_prefix (index_prefix id v)) as [u|] eqn:Hu; [done|]. exfalso.
  pose proof (next_prefix_inv (index_prefix id v)) as Hinv. rewrite Hu in Hinv. revert Hinv. unfold index_prefix, VERSION. cbn [app].
  intros Hinv. by inversion Hinv.
Qed.

(** A value an index is looked up by: NULL or an integer of the column's type. *)
Definition lookup_value (v : ColumnValue) : Prop :=
  v = Null \/ exists z, int_value_of (column_type schema column) v z.

Lemma lookup_value_cell (v : ColumnValue) : int_type (column_type schema column) = true -> lookup_value v ->
  LegacyCodec.cell_typed (column_type schema column) v = true /\ LegacyCodec.wf_cell v /\ wf_key v.
Proof.
  intros Ht [->|[z Hv]]; [by destruct (column_type schema column)|]. destruct (int_value_key _ _ _ Hv) as [Hwf _]. destruct Hv as (Hz & Hc & Hr).
  split; [exact Hc|]. split; [|exact Hwf]. destruct v; try discriminate Hz; exact Hr.
Qed.

(** Where no entry is of a value, the first layout has none of it either. *)
Lemma no_legacy_index_rows (v : ColumnValue) : lookup_value v ->
  (forall e : RowEntry, e ∈ entries -> encode_key_value (row_get e.2 column) <> encode_key_value v) ->
  btree_iter (rows_where (fun k => starts_with k (LegacyCodec.index_entry_prefix database_name schema_name (table_name schema) name v))
                (session_rows s session_id)) = [].
Proof.
  intros Hv Hno. apply btree_iter_none. intros k Hk. apply not_true_is_false. intros Hs.
  assert (ix_name index = name) as Hname by (apply find_some in Hnamed as [_ E]; by apply bool_decide_eq_true in E).
  assert (starts_with k (legacy_index_path (ix_name index)) = true) as Hp by (rewrite Hname; by apply starts_with_app in Hs).
  destruct (proj1 (st_legacy_indexes _ _ Htable index column Hindex Hcolumn k Hp) Hk) as (e & He & Hek). rewrite Hname in Hek.
  destruct (indexed_value e He) as (t & z & Ht & Hct & Hev). rewrite <- Hct in Ht, Hev.
  destruct (lookup_value_cell v Ht Hv) as (Hc & Hw & _).
  destruct (lookup_value_cell (row_get e.2 column) Ht (or_intror (ex_intro _ z Hev))) as (Hc' & Hw' & _).
  apply (Hno e He). f_equal.
  by apply (LegacyCodec.legacy_index_scan_selects_value _ _ _ _ _ v (row_get e.2 column) e.1 k Hc Hw Hc' Hw' Hek).
Qed.

Lemma lookup_index (v : ColumnValue) : int_type (column_type schema column) = true -> lookup_value v ->
  exists es, es ≡ₚ List.filter (fun e => starts_with (entry_of e) (index_prefix (ix_id index) v)) entries /\
    scan_index_row_entries_at s session_id database_name schema_name schema indexes name v filter = Ok (kept es).
Proof.
  intros Ht Hv. destruct (lookup_value_cell v Ht Hv) as (_ & _ & Hwf).
  set (q := fun k : key => starts_with k (index_prefix (ix_id index) v)).
  destruct (index_listing q) as (es & Hp & Hes).
  { intros k Hk. unfold q in Hk. rewrite index_prefix_all in Hk. by apply starts_with_app in Hk. }
  exists es. split; [exact Hp|]. unfold scan_index_row_entries_at. rewrite Hnamed.
  rewrite (read_range_rows s session_id Hcurrent), bind_ok by (by left). cbn [rs_limit rs_reverse index_lookup_range take_limit in_order].
  rewrite (rows_where_ext _ q) by (intros k; apply index_lookup_range_prefix).
  destruct (btree_iter (rows_where q _)) as [|kv kvs] eqn:E.
  - apply Forall2_nil_inv_l in Hes as ->. unfold scan_legacy_index_entries.
    rewrite (read_prefix_rows s session_id Hcurrent), bind_ok, no_legacy_index_rows; [done|done|].
    intros e He Heq. assert (e ∈ @nil RowEntry) as Hin; [|by apply elem_of_nil in Hin].
    rewrite Hp, elem_of_list_filter. split; [done|]. unfold q, entry_of. rewrite index_lookup_key by first [by apply indexed_wf|done].
    by apply bool_decide_eq_true.
  - pose proof (visit_kept (read_by_key s session_id database_name schema_name schema
      (fun k => decode_pk_from_index_entry_key k (ix_id index) v (pk_data_type schema))) (kv :: kvs) es None 0 ltac:(done)) as V.
    cbn [windowed take_limit drop] in V. rewrite V; [done|]. eapply Forall2_impl; [exact Hes|].
    intros kv' e (Hk & He & Hq). split; [|done]. unfold read_by_key. rewrite Hk.
    destruct (entry_key e He) as (z & _ & Hwe & Hte). unfold q, entry_of in Hq.
    rewrite index_lookup_key in Hq by first [by apply indexed_wf|done]. apply bool_decide_eq_true in Hq.
    assert (decode_pk_from_index_entry_key (entry_of e) (ix_id index) v (pk_data_type schema) = Ok e.1) as ->.
    { unfold decode_pk_from_index_entry_key, entry_of, index_entry_key. unfold index_prefix at 2. rewrite Hq.
      change (([VERSION; INDEX_PREFIX] ++ to_be 4 (ix_id index) ++ encode_key_value v)) with (index_prefix (ix_id index) v).
      rewrite strip_prefix_app. cbn [ok_or]. by rewrite bind_ok, decode_whole_key, bind_ok, Nat.eqb_refl. }
    rewrite bind_ok, (visible_entry e He), bind_ok. by destruct e.
Qed.

(** The column of the index, by the type its values have. *)
Lemma index_column_type (e : RowEntry) : e ∈ entries -> exists c z,
  find_column schema column = Some c /\ int_type (data_type c) = true /\ int_value_of (data_type c) (row_get e.2 column) z.
Proof.
  intros He. destruct (indexed_value e He) as (t & z & Ht & Hct & Hv). unfold column_type in Hct.
  destruct (find_column schema column) as [c|]; [|subst t; discriminate Ht]. subst t. by exists c, z.
Qed.

Lemma read_entry_in_range (kv : kvrow) (e : RowEntry) (c : ColumnSchema) (z : Z) (lower upper : KeyBound) : e ∈ entries ->
  kv.1 = entry_of e -> int_type (data_type c) = true -> int_value_of (data_type c) (row_get e.2 column) z ->
  read_index_range_entry s session_id database_name schema_name schema index (data_type c) lower upper kv =
    Ok (if value_in_bounds (row_get e.2 column) lower upper then Some e else None).
Proof.
  intros He Hk Ht Hv. destruct (entry_key e He) as (z' & _ & Hwe & Hte). unfold read_index_range_entry.
  rewrite Hk. unfold entry_of, index_entry_key. rewrite index_prefix_all, <- app_assoc, strip_prefix_app. cbn [ok_or].
  rewrite bind_ok, key_value_roundtrip_app, bind_ok by first [by apply (int_key_typed _ _ z)|exact (proj1 (int_value_key _ _ _ Hv))].
  destruct (value_in_bounds _ _ _); cbn [negb]; [|done]. rewrite drop_app_length, decode_whole_key, bind_ok by done.
  rewrite length_app, Nat.eqb_refl. cbn [negb]. rewrite (visible_entry e He), bind_ok. by destruct e.
Qed.

Lemma omap_filter {A} (q : A -> bool) (l : list A) : omap id (map (fun a => if q a then Some a else None) l) = List.filter q l.
Proof. induction l as [|a l IH]; [done|]. cbn [map omap list_omap List.filter]. rewrite <- IH. by destruct (q a). Qed.

Lemma next_prefix_rev_app (x z : list byte) : forall y : list byte, next_prefix_rev x = Some y ->
  next_prefix_rev (x ++ z) = Some (rev z ++ y).
Proof.
  induction x as [|b x IH]; intros y Hy; [discriminate Hy|]. rewrite <- app_comm_cons. cbn [next_prefix_rev] in *.
  destruct (u8_to_Z b =? 255); [by apply IH|]. injection Hy as <-. by rewrite app_comm_cons, rev_app_distr.
Qed.

(** The successor of the prefix of a value stays in the index. *)
Lemma next_index_prefix (id : Z) (v : ColumnValue) : is_Some (int_of_key v) -> exists y : key,
  next_prefix (index_prefix id v) = Some (index_all_prefix id ++ y).
Proof.
  intros [z Hz]. rewrite index_prefix_all. unfold next_prefix. rewrite rev_app_distr.
  destruct (next_prefix_rev (rev (encode_key_value v))) as [y|] eqn:Hy.
  - exists y. rewrite (next_prefix_rev_app _ _ y Hy). by rewrite rev_involutive.
  - exfalso. pose proof (next_prefix_inv (encode_key_value v)) as Hinv. unfold next_prefix in Hinv. rewrite Hy in Hinv.
    revert Hinv. destruct v; try discriminate Hz; intros Hinv; by inversion Hinv.
Qed.

Lemma index_range_under (id : Z) (lower upper : KeyBound) (r : RangeScan) (k : key) : int_key_bound lower -> int_key_bound upper ->
  index_value_range id lower upper = Some r ->
  KeyCodec.in_range r k = true -> starts_with k (index_all_prefix id) = true.
Proof.
  intros Hlo Hup Hr. unfold index_value_range in Hr.
  destruct (match index_range_end id upper with Some _ => _ | None => _ end); [discriminate Hr|]. injection Hr as <-. apply in_range_under.
  - unfold index_range_start. destruct lower as [[v []]|]; [rewrite index_prefix_all; by eexists| |exists []; by rewrite app_nil_r].
    destruct (next_index_prefix id v Hlo) as [y ->]. by eexists.
  - unfold index_range_end. destruct upper as [[v []]|]; [right|right|by left].
    + destruct (next_index_prefix id v Hup) as [y ->]. by eexists.
    + rewrite index_prefix_all. by eexists.
Qed.

Definition in_index_range (lower upper : KeyBound) (e : RowEntry) : bool :=
  match index_value_range (ix_id index) lower upper with
  | Some r => KeyCodec.in_range r (entry_of e) && value_in_bounds (row_get e.2 column) lower upper
  | None => false
  end.

Lemma range_index (lower upper : KeyBound) : int_key_bound lower -> int_key_bound upper ->
  is_Some (find_column schema column) ->
  exists es, es ≡ₚ List.filter (in_index_range lower upper) entries /\
    scan_index_row_entries_by_range_at s session_id database_name schema_name schema indexes name lower upper filter = Ok (kept es).
Proof.
  intros Hlo Hup Hne. unfold in_index_range, scan_index_row_entries_by_range_at. rewrite Hnamed, Hcolumn. cbn [head mbind option_bind].
  destruct (find_column schema column) as [c|] eqn:Hc; [|by destruct Hne].
  destruct (index_value_range (ix_id index) lower upper) as [r|] eqn:Hr.
  2:{ exists []. by rewrite filter_false. }
  destruct (index_listing (KeyCodec.in_range r) (fun k => index_range_under (ix_id index) lower upper r k Hlo Hup Hr)) as (es & Hp & Hes).
  exists (List.filter (fun e => value_in_bounds (row_get e.2 column) lower upper) es). split.
  { rewrite Hp. by rewrite filter_filter. }
  rewrite (read_range_rows s session_id Hcurrent), bind_ok.
  2:{ left. unfold index_value_range in Hr. destruct (match index_range_end _ upper with Some _ => _ | None => _ end); [discriminate Hr|].
      by injection Hr as <-. }
  set (read := read_index_range_entry s session_id database_name schema_name schema index (data_type c) lower upper).
  assert (rs_limit r = None /\ rs_reverse r = false) as [-> ->].
  { unfold index_value_range in Hr. destruct (match index_range_end _ upper with Some _ => _ | None => _ end); [discriminate Hr|].
    by injection Hr as <-. }
  cbn [take_limit in_order].
  rewrite (visit_entries_window schema filter None p ltac:(done) read _
    (map (fun e : RowEntry => if value_in_bounds (row_get e.2 column) lower upper then Some e else None) es) 0); [by rewrite omap_filter|].
  clear Hp. induction Hes as [|kv e kvs es (Hk & He & Hq) _ IH]; cbn [map]; constructor; [|exact IH]. split.
  - destruct (index_column_type e He) as (c' & z & Hc' & Ht & Hv). rewrite Hc in Hc'. injection Hc' as <-.
    by apply (read_entry_in_range kv e c z).
  - intros e' He'. destruct (value_in_bounds _ _ _); [|done]. injection He' as <-. by apply Hfilter.
Qed.
End Table.

(** ** What a plan of SELECT asks for *)

Section Plans.
Context `{ValueTexts, SerdeJson, UnicodeCase, FixedTexts, Clock}.
Context (schema : TableSchema) (f : Expr) (Hnn : forall t, int_type t = true -> non_null_literals f t).

(** A row that holds zero in a column of integers. *)
Lemma sample_row (column : string) : int_type (column_type schema column) = true ->
  exists (row : RowMap) (v : ColumnValue), int_column row schema column (column_type schema column) v 0.
Proof.
  intros Ht. assert (exists v, int_value_of (column_type schema column) v 0) as [v Hv].
  { destruct (column_type schema column); try discriminate Ht;
      repeat match goal with k : MySqlIntKind |- _ => destruct k | b : bool |- _ => destruct b end; try discriminate Ht;
      first [by exists (Int32 0)|by exists (Int64 0)|by exists (Int16 0)]. }
  exists (<[column := v]> ∅), v. split; [done|]. split; [done|]. split; [apply lookup_insert_eq|done].
Qed.

Lemma int_bounds_keys (t : DataType) (lower upper : KeyBound) : int_bounds t (lower, upper) ->
  int_key_bound lower /\ int_key_bound upper.
Proof.
  intros [Hl Hu]. split; [destruct lower as [[v inc]|]|destruct upper as [[v inc]|]]; try done;
    [destruct Hl as (z & Hz & _)|destruct Hu as (z & Hz & _)]; by exists z.
Qed.

Lemma column_range_keys (column : string) (lower upper : KeyBound) : int_type (column_type schema column) = true ->
  extract_column_range_filter (Some f) column (column_type schema column) = Ok (Some (lower, upper)) ->
  int_key_bound lower /\ int_key_bound upper.
Proof.
  intros Ht Hx. destruct (sample_row column Ht) as (row & v & Hcol).
  destruct (extracted_range row schema column _ v 0 f lower upper Hcol (Hnn _ Ht) Hx) as [_ Hb]. by apply int_bounds_keys in Hb.
Qed.

Lemma equation_key (expr : Expr) : forall key : ColumnValue, int_type (pk_data_type schema) = true ->
  non_null_literals expr (pk_data_type schema) -> primary_key_equation expr schema = Ok (Some key) ->
  exists z, int_value_of (pk_data_type schema) key z.
Proof.
  induction expr; intros key Ht Hn Hk; try discriminate Hk; [|by apply IHexpr].
  destruct op; try discriminate Hk. cbn [primary_key_equation non_null_literals] in *.
  apply bind_inv in Hk as (name & _ & Hk). destruct (bool_decide _); [|discriminate Hk].
  destruct (sql_expr_to_column_value expr2 (pk_data_type schema)) as [w| | |] eqn:Hw; try discriminate Hk. injection Hk as <-.
  destruct (int_literal expr2 _ w Ht Hw) as [->|Hz]; [done|exact Hz].
Qed.

Lemma point_key (key : ColumnValue) : int_type (pk_data_type schema) = true ->
  extract_primary_key_filter (Some f) schema = Ok (Some key) -> exists z, int_value_of (pk_data_type schema) key z.
Proof.
  intros Ht. unfold extract_primary_key_filter. destruct (has_user_primary_key schema); [|done]. apply equation_key; auto.
Qed.

Lemma in_list_keys_distinct (t : DataType) (values : list Expr) : int_type t = true ->
  forall (seen : list (list byte)) (keys : list ColumnValue), in_list_keys seen values t = Ok keys ->
  Forall (fun k => is_Some (int_of_key k)) keys /\ NoDup (map encode_key_value keys) /\
  (forall k, k ∈ map encode_key_value keys -> k ∉ seen).
Proof.
  intros Ht. induction values as [|e values IH]; intros seen keys Hk; cbn [in_list_keys] in Hk.
  { injection Hk as <-. split; [constructor|]. split; [constructor|]. by intros k Hin%elem_of_nil. }
  apply bind_inv in Hk as (w & Hw & Hk).
  destruct (int_literal e t w Ht Hw) as [->|[z Hz]]; [by apply (IH seen)|].
  rewrite (proj2 (int_value_key t w z Hz)) in Hk. destruct (bool_decide_reflect (encode_key_value w ∈ seen)) as [|Hn]; [by apply (IH seen)|].
  apply bind_inv in Hk as (ks & Hks & [= <-]). destruct (IH _ ks Hks) as (Hi & Hnd & Hs).
  split; [constructor; [by exists z; exact (proj1 Hz)|done]|]. cbn [map]. split.
  - constructor; [|done]. intros Hin. apply (Hs _ Hin). by left.
  - intros k [->|Hin]%elem_of_cons; [done|]. intros Hseen. apply (Hs k Hin). by right.
Qed.

Lemma in_keys_distinct (expr : Expr) (keys : list ColumnValue) : int_type (column_type schema (primary_key schema)) = true ->
  primary_key_in expr schema = Ok (Some keys) ->
  Forall (fun k => is_Some (int_of_key k)) keys /\ NoDup (map encode_key_value keys).
Proof.
  intros Ht. revert keys. induction expr; intros keys Hk; try discriminate Hk; [|by apply IHexpr]. cbn [primary_key_in] in Hk.
  destruct negated; [discriminate Hk|]. apply bind_inv in Hk as (name & _ & Hk).
  destruct (bool_decide_reflect (name = primary_key schema)) as [Hn|]; [|discriminate Hk]. rewrite Hn in Hk. unfold column_type in Ht.
  destruct (find_column schema (primary_key schema)) as [c|]; [|discriminate Hk].
  destruct (in_list_keys [] values (data_type c)) as [ks| | |] eqn:Hks; try discriminate Hk. injection Hk as <-.
  destruct (in_list_keys_distinct _ values Ht [] ks Hks) as (Hi & Hnd & _). done.
Qed.

(** The columns of the indexes on one column are integers. *)
Definition int_index_columns (indexes : list IndexColumns) : Prop :=
  forall name column, (name, [column]) ∈ indexes -> int_type (column_type schema column) = true.

Lemma int_column_found (column : string) : int_type (column_type schema column) = true -> is_Some (find_column schema column).
Proof. unfold column_type. destruct (find_column schema column); [by eexists|done]. Qed.

Lemma equation_value (column : string) (key : ColumnValue) : forall expr : Expr,
  indexable_equation expr schema = Ok (Some (column, key)) -> int_type (column_type schema column) = true ->
  lookup_value schema column key.
Proof.
  induction expr; intros Hk Ht; try discriminate Hk; [|by apply IHexpr].
  destruct op; try discriminate Hk. cbn [indexable_equation] in *. apply bind_inv in Hk as (name & _ & Hk).
  destruct (find_column schema name) as [c|] eqn:Hc; [|discriminate Hk]. apply bind_inv in Hk as (w & Hw & [= -> ->]).
  unfold lookup_value, column_type in *. rewrite Hc in *. by apply (int_literal expr2).
Qed.

Lemma equation_index (indexes : list IndexColumns) (equation : option (string * ColumnValue)) (column : string) (key : ColumnValue)
    (index : IndexColumns) : int_index_columns indexes -> extract_indexable_eq_filter (Some f) schema = Ok equation ->
  (c ← equation; i ← List.find (fun i => bool_decide (i.2 = [c.1])) indexes; Some (c, i)) = Some ((column, key), index) ->
  index ∈ indexes /\ index.2 = [column] /\ lookup_value schema column key.
Proof.
  intros Hidx Heq Hfind. destruct equation as [[c k]|]; [|discriminate Hfind]. cbn [mbind option_bind fst] in Hfind.
  destruct (List.find _ indexes) as [i|] eqn:Hi; [|discriminate Hfind]. injection Hfind as -> -> ->.
  apply find_some in Hi as [Hin Hi]. apply bool_decide_eq_true in Hi. apply list_elem_of_In in Hin. split; [done|]. split; [done|].
  destruct index as [n cs]. cbn in Hi. subst cs. by apply (equation_value column key f Heq), (Hidx n).
Qed.

Lemma range_index_found (indexes : list IndexColumns) (name column : string) (lower upper : KeyBound) :
  int_index_columns indexes ->
  extract_indexable_range_filter (Some f) schema indexes = Ok (Some (name, column, lower, upper)) ->
  (name, [column]) ∈ indexes /\ int_key_bound lower /\ int_key_bound upper.
Proof.
  intros Hidx. induction indexes as [|[n cs] indexes IH]; [done|].
  assert (Hrest : extract_indexable_range_filter (Some f) schema indexes = Ok (Some (name, column, lower, upper)) ->
    (name, [column]) ∈ (n, cs) :: indexes /\ int_key_bound lower /\ int_key_bound upper).
  { intros Hr. destruct IH as [Hin Hb]; [intros n' c' Hin; apply (Hidx n' c'); by right|done|]. split; [by right|done]. }
  destruct cs as [|c [|c' cs]]; try exact Hrest. cbn [extract_indexable_range_filter].
  destruct (bool_decide _); [exact Hrest|]. destruct (find_column schema c) as [col|] eqn:Hc; [|exact Hrest].
  intros Hx. apply bind_inv in Hx as ([[lo up]|] & Hr & Hx); [|by apply Hrest].
  injection Hx as -> -> -> ->. split; [by left|]. pose proof (Hidx name column ltac:(by left)) as Ht.
  apply (column_range_keys column); [done|]. unfold column_type. by rewrite Hc.
Qed.
End Plans.

(** ** The rows a SELECT answers *)

Section Select.
Context {W T : Type} `{StoreTransaction W T, !KvSnapshot T W}.
Context `{ValueTexts, SerdeJson, UnicodeCase, FixedTexts, Clock}.
Context (show_error : pg_error -> string) (entry_size : Z).
Context (s : Server W T) (session_id : option Z) (database_name schema_name : string) (schema : TableSchema).
Context (indexes : list IndexCatalog) (entries : list RowEntry) (f : Expr).

Definition accepts (row : RowMap) : bool := match row_matches_filter row schema f with Ok b => b | _ => false end.

(** The primary key and the columns of the indexes on one column are integers. *)
Definition int_table : Prop :=
  int_type (pk_data_type schema) = true /\ column_type schema (primary_key schema) = pk_data_type schema /\
  int_index_columns schema (index_columns indexes).

(** The accesses that read the rows in the order of their keys. *)
Definition keeps_order (access : ReadAccess) : bool :=
  match access with PointLookup _ | PrimaryKeyRangeScan _ _ _ | PrefixScan _ => true | _ => false end.

Context (Htable : stored_table database_name schema_name schema indexes (session_rows s session_id) entries).
Context (Hint : int_table) (Hnames : NoDup (map ix_name indexes)).
Context (Hnn : forall t, int_type t = true -> non_null_literals f t).
Context (Hrows : forall e : RowEntry, e ∈ entries -> exists b, row_matches_filter e.2 schema f = Ok b).
Context (Hcurrent : use_consistent_read s session_id = false).

Definition index_id_named (name : string) : Z := match index_named indexes name with Some index => ix_id index | None => 0 end.

Lemma accepts_filter (e : RowEntry) : e ∈ entries -> row_matches_filter e.2 schema f = Ok (accepts e.2).
Proof. intros He. unfold accepts. destruct (Hrows e He) as [b Hb]. by rewrite Hb. Qed.

Lemma access_accepts (access : ReadAccess) (e : RowEntry) : e ∈ entries ->
  select_access (Some f) schema (index_columns indexes) = Ok access ->
  access_selects (table_id schema) (table_epoch schema) index_id_named e.1 e.2 schema access = Ok (accepts e.2).
Proof.
  intros He Hx. rewrite <- (accepts_filter e He). pose proof (st_keys _ _ _ _ _ _ Htable) as Hk. rewrite Forall_forall in Hk.
  destruct (Hk e He) as [p Hp]. pose proof (st_columns _ _ _ _ _ _ Htable) as Hc. rewrite Forall_forall in Hc.
  by apply (select_access_exact _ _ _ _ _ _ f (index_columns indexes) access e.1 p Hp (Hc e He) Hnn).
Qed.

Lemma named_index (name column : string) : (name, [column]) ∈ index_columns indexes ->
  exists index, index ∈ indexes /\ index_named indexes name = Some index /\ ix_column_names index = [column].
Proof.
  unfold index_columns, index_named. clear - Hnames. induction indexes as [|i l IH]; [by intros Hin%elem_of_nil|].
  cbn [map List.find] in *. apply NoDup_cons in Hnames as [Hn Hnd]. intros [[= -> Hc]|Hin]%elem_of_cons.
  - exists i. rewrite bool_decide_eq_true_2 by done. split; [by left|]. by split.
  - destruct (IH Hnd Hin) as (index & Hi & Hf & Hc). exists index. split; [by right|].
    rewrite bool_decide_eq_false_2; [done|]. intros Hname. apply Hn. apply find_some in Hf as [_ Hf]. apply bool_decide_eq_true in Hf.
    rewrite Hname, <- Hf. by apply list_elem_of_fmap_2.
Qed.

Lemma filter_eq {A} (q r : A -> bool) (l : list A) : (forall a, a ∈ l -> q a = r a) -> List.filter q l = List.filter r l.
Proof.
  induction l as [|a l IH]; intros Hqr; [done|]. cbn [List.filter]. rewrite (Hqr a) by (by left).
  rewrite IH; [done|]. intros b Hb. apply Hqr. by right.
Qed.

Lemma entry_pk (e : RowEntry) : e ∈ entries -> e.2 !! primary_key schema = Some e.1.
Proof.
  intros He. pose proof (st_keys _ _ _ _ _ _ Htable) as Hk. rewrite Forall_forall in Hk. by destruct (Hk e He) as (p & _ & _ & ? & _).
Qed.

Context (limit : option nat) (offset : nat) (fuel : nat).
Context (Hnonzero : limit <> Some 0%nat) (Htxn : limit = None \/ txn_of s session_id = None).
Context (Hreserve : reserve entry_size limit = Ok tt) (Hfuel : (0 < fuel)%nat).

Definition select (access : ReadAccess) : PgWireResult (list RowMap) :=
  select_rows show_error entry_size s session_id database_name schema_name schema indexes fuel access limit offset.

(** The answer is the window of the accepted rows, in some order. *)
Definition answers (access : ReadAccess) : Prop :=
  exists es : list RowEntry, es ≡ₚ List.filter (fun e : RowEntry => accepts e.2) entries /\
    (keeps_order access = true -> es = List.filter (fun e : RowEntry => accepts e.2) entries) /\
    select access = Ok (windowed limit offset (map snd es)).

Lemma windowed_map {A B} (g : A -> B) (l : list A) : map g (windowed limit offset l) = windowed limit offset (map g l).
Proof.
  unfold windowed. destruct limit as [n|]; cbn [take_limit]; [|by rewrite skipn_map].
  by rewrite skipn_map, firstn_map.
Qed.

Lemma answers_point (key : ColumnValue) : is_Some (int_of_key key) ->
  (forall e : RowEntry, e ∈ entries -> access_selects (table_id schema) (table_epoch schema) index_id_named e.1 e.2 schema (PointLookup key)
     = Ok (accepts e.2)) -> answers (PointLookup key).
Proof.
  intros [z Hz] Hsel.
  assert (option_list (find_entry entries key) = List.filter (fun e : RowEntry => accepts e.2) entries) as E.
  { rewrite (find_entry_list s session_id database_name schema_name schema indexes entries Htable). apply filter_eq.
    intros e He. pose proof (Hsel e He) as Hs. cbn [access_selects] in Hs. unfold at_key in Hs. rewrite (entry_pk e He) in Hs.
    by injection Hs. }
  exists (option_list (find_entry entries key)). rewrite E. split; [done|]. split; [done|].
  unfold select, select_rows. rewrite (visible_found s session_id database_name schema_name schema indexes entries Hcurrent Htable key z Hz), bind_ok.
  rewrite <- E. by destruct (find_entry entries key).
Qed.

Lemma answers_some_keys (keys : list ColumnValue) : Forall (fun k => is_Some (int_of_key k)) keys ->
  NoDup (map encode_key_value keys) ->
  (forall e : RowEntry, e ∈ entries -> access_selects (table_id schema) (table_epoch schema) index_id_named e.1 e.2 schema
     (PrimaryKeyInLookup keys) = Ok (accepts e.2)) -> answers (PrimaryKeyInLookup keys).
Proof.
  intros Hi Hnd Hsel. exists (omap (find_entry entries) keys). split; [|split; [done|]].
  - rewrite (find_entries_perm s session_id database_name schema_name schema indexes entries Htable keys Hnd).
    rewrite (filter_eq _ (fun e : RowEntry => accepts e.2)); [done|]. intros e He. pose proof (Hsel e He) as Hs. cbn [access_selects] in Hs. injection Hs as Hs.
    rewrite <- Hs. unfold at_key. by rewrite (entry_pk e He).
  - unfold select, select_rows.
    by rewrite (read_some_keys s session_id database_name schema_name schema indexes entries Hcurrent Htable keys Hi).
Qed.

(** The rows of a scan of keys, and of an index: the entries are kept by the filter the plan
    carries, or the access selects the same rows without it. *)
Lemma answers_pk_range (lower upper : KeyBound) : int_key_bound lower -> int_key_bound upper ->
  (forall e : RowEntry, e ∈ entries -> access_selects (table_id schema) (table_epoch schema) index_id_named e.1 e.2 schema
     (PrimaryKeyRangeScan lower upper None) = Ok (accepts e.2)) -> answers (PrimaryKeyRangeScan lower upper None).
Proof.
  intros Hlo Hup Hsel. exists (List.filter (fun e : RowEntry => accepts e.2) entries). split; [done|]. split; [done|].
  unfold select, select_rows.
  assert ((if (0 <? offset)%nat || bool_decide (is_Some limit) then limit else None) = limit) as ->
    by (destruct limit; [by rewrite orb_true_r|by destruct (_ || _)]).
  assert ((if (0 <? offset)%nat || bool_decide (is_Some limit) then offset else 0%nat) = offset) as ->
    by (destruct offset; [by destruct (_ || _)|done]).
  rewrite (scan_pk_range s session_id database_name schema_name schema indexes entries Hcurrent Htable None (fun _ => true)
    (fun _ _ => eq_refl) show_error entry_size limit offset Hnonzero Htxn Hreserve fuel lower upper Hlo Hup Hfuel).
  cbn [fmap result_fmap]. rewrite windowed_map. unfold kept, entries_in. rewrite filter_filter. do 3 f_equal.
  apply filter_eq. intros e He. rewrite andb_true_r. pose proof (Hsel e He) as Hs. cbn [access_selects] in Hs.
  rewrite (entry_pk e He) in Hs. unfold then_residual, residual in Hs. by destruct (KeyCodec.in_range _ _), (accepts e.2).
Qed.

Lemma accepts_residual (e : RowEntry) : e ∈ entries -> residual e.2 schema (Some f) = Ok (accepts e.2).
Proof. apply accepts_filter. Qed.

Lemma answers_prefix : answers (PrefixScan (Some f)).
Proof.
  exists (List.filter (fun e : RowEntry => accepts e.2) entries). split; [done|]. split; [done|].
  unfold select, select_rows. destruct ((0 <? offset)%nat || bool_decide (is_Some limit)) eqn:Hw.
  - rewrite (scan_pk_range s session_id database_name schema_name schema indexes entries Hcurrent Htable (Some f) accepts
      accepts_residual show_error entry_size limit offset Hnonzero Htxn Hreserve fuel None None I I Hfuel).
    cbn [fmap result_fmap]. rewrite windowed_map. unfold kept, entries_in. rewrite filter_filter. do 3 f_equal.
    apply filter_eq. intros e He.
    assert (KeyCodec.in_range (row_range_between (table_id schema) (table_epoch schema) None None None)
              (row_key (table_id schema) (table_epoch schema) e.1) = true) as E; [|by rewrite E].
    etransitivity; [apply (in_prefix_range (row_prefix (table_id schema) (table_epoch schema)) None)|].
    apply starts_with_spec. by eexists.
  - unfold scan_visible_rows_at.
    rewrite (scan_all_rows s session_id database_name schema_name schema indexes entries Hcurrent Htable (Some f) accepts accepts_residual).
    apply orb_false_iff in Hw as [Ho Hl]. apply bool_decide_eq_false in Hl. destruct limit; [by destruct Hl|].
    apply Nat.ltb_ge in Ho. destruct offset; [done|lia].
Qed.

Lemma answers_index (name column : string) (key : ColumnValue) : (name, [column]) ∈ index_columns indexes ->
  lookup_value schema column key ->
  (forall e : RowEntry, e ∈ entries -> access_selects (table_id schema) (table_epoch schema) index_id_named e.1 e.2 schema
     (SecondaryIndexLookup name column key (Some f)) = Ok (accepts e.2)) ->
  answers (SecondaryIndexLookup name column key (Some f)).
Proof.
  intros Hin Hwf Hsel. destruct (named_index name column Hin) as (index & Hi & Hn & Hc).
  destruct (lookup_index s session_id database_name schema_name schema indexes entries Hcurrent Htable (Some f) accepts accepts_residual
    name column index Hi Hn Hc key (proj2 (proj2 Hint) name column Hin) Hwf) as (es & Hp & Hes).
  exists (kept accepts es). split; [|split; [done|]].
  - unfold kept. rewrite Hp, filter_filter. erewrite filter_eq; [done|]. intros e He. pose proof (Hsel e He) as Hs.
    cbn [access_selects] in Hs. unfold at_entry, index_id_named in Hs. rewrite Hn in Hs. unfold entry_of.
    destruct (starts_with _ _); cbn [andb then_residual] in *; [done|]. by injection Hs.
  - unfold select, select_rows, scan_index_rows_at. by rewrite Hes.
Qed.

Lemma answers_index_range (name column : string) (lower upper : KeyBound) : (name, [column]) ∈ index_columns indexes ->
  int_key_bound lower -> int_key_bound upper ->
  (forall e : RowEntry, e ∈ entries -> access_selects (table_id schema) (table_epoch schema) index_id_named e.1 e.2 schema
     (SecondaryIndexRangeScan name column lower upper (Some f)) = Ok (accepts e.2)) ->
  answers (SecondaryIndexRangeScan name column lower upper (Some f)).
Proof.
  intros Hin Hlo Hup Hsel. destruct (named_index name column Hin) as (index & Hi & Hn & Hc).
  destruct (range_index s session_id database_name schema_name schema indexes entries Hcurrent Htable (Some f) accepts accepts_residual
    name column index Hi Hn Hc lower upper Hlo Hup (int_column_found schema column (proj2 (proj2 Hint) name column Hin)))
    as (es & Hp & Hes).
  exists (kept accepts es). split; [|split; [done|]].
  - unfold kept. rewrite Hp, filter_filter. erewrite filter_eq; [done|]. intros e He. pose proof (Hsel e He) as Hs.
    cbn [access_selects] in Hs. unfold entry_in_range, index_id_named in Hs. rewrite Hn in Hs. unfold in_index_range, entry_of.
    destruct (match index_value_range _ _ _ with Some _ => _ | None => _ end); cbn [andb then_residual] in *; [done|]. by injection Hs.
  - unfold select, select_rows. by rewrite Hes.
Qed.

(** Whatever access the plan chose, it answers. *)
Lemma select_answers (access : ReadAccess) : select_access (Some f) schema (index_columns indexes) = Ok access -> answers access.
Proof.
  intros Hx. pose proof (fun e He => access_accepts access e He Hx) as Hsel. destruct Hint as (Hpk & Hct & Hidx).
  unfold select_access in Hx. apply bind_inv in Hx as ([key|] & Hkey & Hx).
  { injection Hx as <-. apply answers_point; [|done]. destruct (point_key schema f Hnn key Hpk Hkey) as (z & Hz & _). by exists z. }
  apply bind_inv in Hx as ([keys|] & Hkeys & Hx).
  { injection Hx as <-. destruct (in_keys_distinct schema f keys) as [Hi Hnd]; [by rewrite Hct|exact Hkeys|]. by apply answers_some_keys. }
  apply bind_inv in Hx as ([[lower upper]|] & Hrange & Hx).
  { injection Hx as <-. unfold extract_primary_key_range_filter in Hrange. destruct (has_user_primary_key schema); [|discriminate Hrange].
    rewrite <- Hct in Hrange, Hpk. destruct (column_range_keys schema f Hnn _ lower upper Hpk Hrange) as [Hlo Hup]. by apply answers_pk_range. }
  apply bind_inv in Hx as (equation & Heq & Hx).
  destruct (c ← equation; i ← List.find _ (index_columns indexes); Some (c, i)) as [[[column key] index]|] eqn:Hi.
  { injection Hx as <-. destruct (equation_index schema f (index_columns indexes) equation column key index Hidx Heq Hi) as (Hin & Hc & Hwf).
    destruct index as [n cs]. cbn [fst snd] in *. subst cs. by apply answers_index. }
  apply bind_inv in Hx as ([[[[name column] lower] upper]|] & Hr & Hx); injection Hx as <-; [|apply answers_prefix].
  destruct (range_index_found schema f Hnn (index_columns indexes) name column lower upper Hidx Hr) as (Hin & Hlo & Hup).
  by apply answers_index_range.
Qed.
End Select.

(** C3. Whatever access the planner chose, a SELECT answers the rows its WHERE clause accepts,
    within OFFSET and LIMIT: the lookups, the scans of the keys and of an index, from the rows
    the session sees.  The order is that of the primary keys unless the access is an IN list or
    an index.  It holds for a table stored as the row writes store it, whose primary key and
    whose columns of indexes on one column are integers; for a filter without a NULL literal
    that evaluates on every row; for a LIMIT that is not 0 and, inside a transaction, for no
    LIMIT; and where the session reads no REPEATABLE READ snapshot. *)
Theorem select_rows_exact {W T : Type} `{StoreTransaction W T, !KvSnapshot T W}
    `{ValueTexts, SerdeJson, UnicodeCase, FixedTexts, Clock}
    (show_error : pg_error -> string) (entry_size : Z) (s : Server W T) (session_id : option Z)
    (database_name schema_name : string) (schema : TableSchema) (indexes : list IndexCatalog)
    (entries : list RowEntry) (f : Expr) (access : ReadAccess) (limit : option nat) (offset fuel : nat) :
  stored_table database_name schema_name schema indexes (session_rows s session_id) entries ->
  int_table schema indexes -> NoDup (map ix_name indexes) ->
  (forall t, int_type t = true -> non_null_literals f t) ->
  (forall e : RowEntry, e ∈ entries -> exists b, row_matches_filter e.2 schema f = Ok b) ->
  use_consistent_read s session_id = false ->
  limit <> Some 0%nat -> limit = None \/ txn_of s session_id = None -> reserve entry_size limit = Ok tt -> (0 < fuel)%nat ->
  select_access (Some f) schema (index_columns indexes) = Ok access ->
  exists es : list RowEntry,
    es ≡ₚ List.filter (fun e : RowEntry => accepts schema f e.2) entries /\
    (keeps_order access = true -> es = List.filter (fun e : RowEntry => accepts schema f e.2) entries) /\
    select_rows show_error entry_size s session_id database_name schema_name schema indexes fuel access limit offset =
      Ok (windowed limit offset (map snd es)).
Proof. intros. by apply select_answers. Qed.

(** ** A stored table *)

Lemma list_to_map_keys (l : list kvrow) (k : key) : is_Some ((list_to_map l : kvmap) !! k) <-> k ∈ map fst l.
Proof.
  split.
  - intros [v Hv]. apply elem_of_list_to_map_2 in Hv. apply list_elem_of_fmap. by exists (k, v).
  - intros Hk. destruct ((list_to_map l : kvmap) !! k) as [v|] eqn:E; [by eexists|].
    by apply not_elem_of_list_to_map_2 in E.
Qed.

#[local] Existing Instance bits_texts.
#[local] Existing Instance coded_json.
#[local] Instance ascii_case : UnicodeCase :=
  {| to_lowercase := map ascii_lower_byte; to_uppercase := fun text => text |}.
#[local] Instance no_fixed_texts : FixedTexts := fun _ _ => "".
#[local] Instance epoch_clock : Clock := 0.

Definition stock_index : IndexCatalog :=
  {| ix_id := 3; ix_database_id := 1; ix_schema_id := 1; ix_table_id := 7; ix_schema_name := "public"; ix_table_name := "stock";
     ix_name := "stock_qty"; ix_column_name := "qty"; ix_column_names := ["qty"]; ix_unique := false |}.

Definition stock_entries : list RowEntry :=
  [(Int32 2, stock_row 2 40 Null); (Int32 5, stock_row 5 12 (Text "x")); (Int32 9, stock_row 9 70 Null)].

(** The records and the entries of the index, in both layouts. *)
Definition stored_row (e : RowEntry) : kvrow := (row_key 7 1 e.1, default [] (result_ok (encode_row_record stock e.2))).

Definition legacy_entry (e : RowEntry) : key :=
  default [] (result_ok (LegacyCodec.index_entry_key "db" "public" "stock" "stock_qty" (row_get e.2 "qty") e.1)).

Definition stock_store : kvmap :=
  list_to_map
    (map stored_row stock_entries ++
     map (fun e : RowEntry => (index_entry_key 3 (row_get e.2 "qty") e.1, [x01])) stock_entries ++
     map (fun e : RowEntry => (legacy_entry e, [x01])) stock_entries).

Definition stock_server : Server kvmap MemoryTransaction := new_server stock_store Postgres.

Lemma stock_keys (k : key) : is_Some (stock_store !! k) <->
  (exists e, e ∈ stock_entries /\ k = row_key 7 1 e.1) \/
  (exists e, e ∈ stock_entries /\ k = index_entry_key 3 (row_get e.2 "qty") e.1) \/
  (exists e, e ∈ stock_entries /\ k = legacy_entry e).
Proof.
  unfold stock_store. rewrite list_to_map_keys, !map_app, !elem_of_app, !map_map. unfold stored_row. cbn [fst].
  rewrite !list_elem_of_fmap. naive_solver.
Qed.

(** One goal per row of the table. *)
Ltac each_stock He :=
  unfold stock_entries in He; repeat (apply elem_of_cons in He as [->|He]); [..|by apply elem_of_nil in He].

Lemma stock_stored : stored_table "db" "public" stock [stock_index] (session_rows stock_server None) stock_entries.
Proof.
  change (session_rows stock_server None) with stock_store. constructor.
  - change (btree_iter _) with (btree_iter (rows_where (fun k => starts_with k (row_prefix 7 1)) stock_store)).
    assert (btree_iter (rows_where (fun k => starts_with k (row_prefix 7 1)) stock_store) = map stored_row stock_entries) as ->
      by (vm_compute; reflexivity).
    unfold stock_entries. cbn [map].
    repeat (constructor; [split; [reflexivity|vm_compute; reflexivity]|]). constructor.
  - repeat (constructor; [eexists; apply stock_primary_key; vm_compute; split; congruence|]). constructor.
  - repeat (constructor; [apply stock_int_indexes; vm_compute; split; congruence|]). constructor.
  - intros index column [->|[]%elem_of_nil]%elem_of_cons [= <-] k Hk. rewrite stock_keys. split.
    + intros [(e & He & ->)|[(e & He & ->)|(e & He & ->)]]; [vm_compute in Hk; discriminate Hk|by exists e|].
      each_stock He; vm_compute in Hk; discriminate Hk.
    + intros (e & He & ->). right. left. by exists e.
  - intros k Hk. apply stock_keys in Hk as [(e & He & ->)|[(e & He & ->)|(e & He & ->)]]; [done|done|].
    each_stock He; reflexivity.
  - intros index column [->|[]%elem_of_nil]%elem_of_cons [= <-] k Hk. rewrite stock_keys. split.
    + intros [(e & He & ->)|[(e & He & ->)|(e & He & ->)]]; [vm_compute in Hk; discriminate Hk..|]. exists e. split; [done|].
      each_stock He; vm_compute; reflexivity.
    + intros (e & He & Hek). right. right. exists e. split; [done|]. unfold legacy_entry.
      change (LegacyCodec.index_entry_key "db" "public" "stock" "stock_qty" (row_get e.2 "qty") e.1 = Ok k) in Hek. by rewrite Hek.
Qed.

Lemma select_rows_exact_witness :
  let access := SecondaryIndexRangeScan "stock_qty" "qty" (Some (Int64 10, true)) (Some (Int64 40, true)) (Some quantities) in
  select_rows err_message 100 stock_server None "db" "public" stock [stock_index] 1 access (Some 1%nat) 0 =
    Ok [stock_row 5 12 (Text "x")] /\
  exists es : list RowEntry,
    es ≡ₚ List.filter (fun e : RowEntry => accepts stock quantities e.2) stock_entries /\
    (keeps_order access = true -> es = List.filter (fun e : RowEntry => accepts stock quantities e.2) stock_entries) /\
    select_rows err_message 100 stock_server None "db" "public" stock [stock_index] 1 access (Some 1%nat) 0 =
      Ok (windowed (Some 1%nat) 0 (map snd es)).
Proof.
  split; [vm_compute; reflexivity|].
  apply (select_rows_exact err_message 100 stock_server None "db" "public" stock [stock_index] stock_entries quantities).
  - apply stock_stored.
  - split; [reflexivity|]. split; [reflexivity|]. intros name column Hin. by apply list_elem_of_singleton in Hin as [= -> ->].
  - apply NoDup_singleton.
  - no_null_literal.
  - intros e He. each_stock He; eexists; vm_compute; reflexivity.
  - reflexivity.
  - discriminate.
  - by right.
  - reflexivity.
  - lia.
  - vm_compute. reflexivity.
Defined.

(** An equation of the primary key with NULL is a lookup of the key NULL, and where there is no
    such record the key of the marker panics. *)
Example null_key_panics :
  let f := BinaryOp (col "id") BinOp.Eq (Literal SqlNull) in
  select_access (Some f) stock (index_columns [stock_index]) = Ok (PointLookup Null) /\
  select_rows err_message 100 stock_server None "db" "public" stock [stock_index] 1 (PointLookup Null) None 0 = Panic.
Proof. by vm_compute. Qed.

(** LIMIT 0 with a filter still answers the first row: the limit is compared after a row is kept. *)
Example limit_zero_selects_a_row :
  select_rows err_message 100 stock_server None "db" "public" stock [stock_index] 1 (PrefixScan (Some quantities)) (Some 0%nat) 0 =
    Ok [stock_row 2 40 Null].
Proof. by vm_compute. Qed.
