(* ===== verification/Rows.v ===== *)
(** * Writing rows

    core/server/row_indexes.rs, row_constraints.rs, the first half of row_write.rs
    ([write_row_at], [delete_row_at]) and core/server/olap_refresh.rs: a row is checked
    against the table's constraints and unique indexes, its old index entries make room for
    the new ones, and the column chunks and statistics are rebuilt.

    A computation of [Cmd] threads the server; what it wrote before an error stays written.
    The parser of CHECK expressions and the [Debug] text of a list of values are parameters. *)

From S2P Require LegacyCodec.
From S2P Require Import Prelude BTree Float Types TupleCodec Values Text Mode KeyCodec RowCodec KvStore Stores Server Session Heap Json Catalog CatalogStore Coerce Operators Patterns Dates SqlJson Functions Expr Filter Access Pushdown Olap Scans.

#[local] Open Scope string_scope.
#[local] Open Scope list_scope.
#[local] Open Scope Z_scope.
#[local] Existing Instances cmd_ret cmd_bind.

(** ** The value of an index (row_indexes.rs) *)

Definition indexed_value_for_columns (row : RowMap) (column_names : list string) : ColumnValue :=
  match column_names with
  | [column_name] => row_get row column_name
  | _ => Array (map (row_get row) column_names)
  end.

Definition indexed_value (row : RowMap) (index : IndexCatalog) : ColumnValue :=
  indexed_value_for_columns row (ix_column_names index).

Definition index_value_has_null (value : ColumnValue) : bool :=
  match value with Null => true | Array values => existsb is_null values | _ => false end.

(** ** Steps *)

(** A loop for its effects. *)
Definition each {M : Type -> Type} `{MRet M, MBind M} {A} (f : A -> M unit) (l : list A) : M unit :=
  fold_m (fun _ a => f a) tt l.

Section Steps.
Context {W T : Type} `{KvStoreApi W T, KvTransaction T W, KvSnapshot T W} `{SerdeJson}.
Context (session_id : option Z).

(** A read of the server. *)
Definition seen {A} (f : Server W T -> PgWireResult A) : Cmd W T A := fun s => (f s.1, s).

(** A call of the catalog, which works on the store itself. *)
Definition on_catalog {A} (m : Cat W A) : Cmd W T A := fun s =>
  let (r, w) := m (store s.1) in (r, (set_store w s.1, s.2)).

Definition put (k : key) (v : list byte) : Cmd W T unit := writes (fun s => txn_put s session_id k v).
Definition put_batch (entries : list kvrow) : Cmd W T unit := writes (fun s => txn_put_batch s session_id entries).
Definition del (k : key) : Cmd W T unit := writes (fun s => txn_delete s session_id k).
Definition scan_prefix (p : key) : Cmd W T (list kvrow) := seen (fun s => coded "XX000" (txn_scan_prefix s session_id p)).
Definition scan_range (r : RangeScan) : Cmd W T (list kvrow) := seen (fun s => coded "XX000" (txn_scan_range s session_id r)).

(** The keys under a prefix, deleted one by one. *)
Definition delete_prefix (p : key) : Cmd W T unit :=
  entries ← scan_prefix p;
  each (fun e : kvrow => del e.1) entries.

(** [resolve_table_schema] (datafusion.rs). *)
Fixpoint search_table (database_name table_name : string) (search_path : list string)
    : Cmd W T (option (string * TableSchema)) :=
  match search_path with
  | [] => mret None
  | schema_name :: rest =>
      table ← on_catalog (load_table database_name schema_name table_name);
      match table with
      | Some table => mret (Some (schema_name, tc_schema table))
      | None => search_table database_name table_name rest
      end
  end.

Definition resolve_table_schema (database_name : string) (search_path : list string) (table_name : string)
    : Cmd W T (string * option TableSchema) :=
  if has (as_bytes table_name) "." then
    '(schema_name, table_name) ← cmd_lift (resolve_table_reference table_name);
    table ← on_catalog (load_table database_name schema_name table_name);
    mret (schema_name, option_map tc_schema table)
  else
    found ← search_table database_name table_name search_path;
    match found with
    | Some (schema_name, schema) => mret (schema_name, Some schema)
    | None => mret (default DEFAULT_SCHEMA_NAME (head search_path), None)
    end.
End Steps.

Section Rows.
Context {W T : Type} `{KvStoreApi W T, KvTransaction T W, KvSnapshot T W}.
Context `{ValueTexts, SerdeJson, UnicodeCase, FixedTexts, Clock}.
Context (debug_values : list ColumnValue -> string) (parse_check_expr : string -> PgWireResult Expr).
Context (session_id : option Z) (database_name schema_name : string) (schema : TableSchema).

Definition read_row (pk_value : ColumnValue) : Cmd W T (option RowMap) :=
  seen (fun s => visible_row s session_id database_name schema_name schema pk_value).
Definition scan_entries (filter : option Expr) : Cmd W T (list RowEntry) :=
  seen (fun s => scan_visible_row_entries_at s session_id database_name schema_name schema filter).

(** ** Indexes (row_indexes.rs) *)

Definition for_each_index (f : IndexCatalog -> Cmd W T unit) : Cmd W T unit :=
  indexes ← on_catalog (list_indexes_for_table (table_id schema));
  each f indexes.

Definition legacy_index_entry_key (index : IndexCatalog) (index_value pk_value : ColumnValue) : PgWireResult key :=
  LegacyCodec.index_entry_key database_name schema_name (table_name schema) (ix_name index) index_value pk_value.

Definition write_index_entries_at (pk_value : ColumnValue) (row : RowMap) : Cmd W T unit :=
  for_each_index (fun index =>
    let index_value := indexed_value row index in
    _ ← put session_id (index_entry_key (ix_id index) index_value pk_value) [x01];
    k ← cmd_lift (legacy_index_entry_key index index_value pk_value);
    put session_id k [x01]).

Definition delete_index_entries_at (pk_value : ColumnValue) (row : RowMap) : Cmd W T unit :=
  for_each_index (fun index =>
    let index_value := indexed_value row index in
    _ ← del session_id (index_entry_key (ix_id index) index_value pk_value);
    k ← cmd_lift (legacy_index_entry_key index index_value pk_value);
    del session_id k).

Definition duplicate_key {A} (name : string) : Cmd W T A :=
  cmd_fail "23505" ("duplicate key value violates unique constraint '" +:+ name +:+ "'").

(** An entry of another row where the row's own entry would go. *)
Definition reject_others (name : string) (own : key) (entries : list kvrow) : Cmd W T unit :=
  each (fun e : kvrow => if bool_decide (e.1 = own) then mret tt else duplicate_key name) entries.

Definition validate_index_entries_at (pk_value : ColumnValue) (row : RowMap) : Cmd W T unit :=
  for_each_index (fun index =>
    let index_value := indexed_value row index in
    if negb (ix_unique index) || is_null index_value then mret tt
    else
      entries ← scan_range session_id (index_lookup_range (index_prefix (ix_id index) index_value));
      _ ← reject_others (ix_name index) (index_entry_key (ix_id index) index_value pk_value) entries;
      k ← cmd_lift (legacy_index_entry_key index index_value pk_value);
      entries ← scan_prefix session_id
        (LegacyCodec.index_entry_prefix database_name schema_name (table_name schema) (ix_name index) index_value);
      reject_others (ix_name index) k entries).

(** ** Constraints (row_constraints.rs) *)

Definition validate_row_constraints (row : RowMap) : PgWireResult unit :=
  _ ← each (fun column =>
    if negb (nullable column) && is_null (row_get row (col_name column))
    then user_error "23502" ("null value in column '" +:+ col_name column +:+ "' violates not-null constraint")
    else Ok tt) (columns schema);
  each (fun constraint =>
    expr ← parse_check_expr (check_expr constraint);
    pass ← row_matches_filter row schema expr;
    if (pass : bool) then Ok tt
    else user_error "23514" ("check constraint '" +:+ check_name constraint +:+ "' is violated")) (check_constraints schema).

Definition resolve_foreign_table_reference (current_schema table_name : string) : PgWireResult (string * string) :=
  if has (as_bytes table_name) "." then resolve_table_reference table_name else Ok (current_schema, table_name).

Definition foreign_key_values (row : RowMap) (columns : list string) : list ColumnValue := map (row_get row) columns.

Definition row_matches_columns (row : RowMap) (columns : list string) (values : list ColumnValue) : bool :=
  forallb (fun cv => match row !! cv.1 with Some row_value => cv_eqb row_value cv.2 | None => false end)
    (combine columns values).

Definition malformed (fk : ForeignKeyConstraintSchema) : bool :=
  negb (length (fk_columns fk) =? length (referred_columns fk))%nat || bool_decide (fk_columns fk = []).

Definition validate_foreign_keys_at (row : RowMap) : Cmd W T unit :=
  each (fun fk =>
    if malformed fk then cmd_fail "42830" ("foreign key constraint '" +:+ fk_name fk +:+ "' is malformed")
    else
      let values := foreign_key_values row (fk_columns fk) in
      if existsb is_null values then mret tt
      else
        '(foreign_schema_name, foreign_table_name) ←
          cmd_lift (resolve_foreign_table_reference schema_name (foreign_table fk));
        '(_, foreign_schema) ← resolve_table_schema database_name [foreign_schema_name] foreign_table_name;
        foreign_schema ← cmd_lift (ok_or (PgError "42P01"
          ("referenced table '" +:+ foreign_table fk +:+ "' does not exist")) foreign_schema);
        if existsb (fun c => match find_column foreign_schema c with None => true | Some _ => false end) (referred_columns fk)
        then cmd_fail "42830" ("there is no unique constraint matching given keys for referenced table '"
                               +:+ foreign_table_name +:+ "'")
        else
          found ← seen (fun s =>
            match referred_columns fk, values with
            | [referred], value :: _ =>
                if bool_decide (referred = primary_key foreign_schema)
                then row ← visible_row s session_id database_name foreign_schema_name foreign_schema value;
                     Ok (match row with Some _ => true | None => false end)
                else
                  rows ← scan_visible_rows_at s session_id database_name foreign_schema_name foreign_schema None;
                  Ok (existsb (fun r => row_matches_columns r (referred_columns fk) values) rows)
            | _, _ =>
                rows ← scan_visible_rows_at s session_id database_name foreign_schema_name foreign_schema None;
                Ok (existsb (fun r => row_matches_columns r (referred_columns fk) values) rows)
            end);
          if (found : bool) then mret tt
          else cmd_fail "23503" ("insert or update on table '" +:+ table_name schema +:+
                                 "' violates foreign key constraint '" +:+ fk_name fk +:+ "'"))
    (foreign_keys schema).

(** [Vec<ColumnValue> ==]. *)
Fixpoint values_equal (a b : list ColumnValue) : bool :=
  match a, b with
  | [], [] => true
  | x :: a, y :: b => cv_eqb x y && values_equal a b
  | _, _ => false
  end.

Definition validate_no_foreign_key_references_at (row : RowMap) : Cmd W T unit :=
  tables ← on_catalog (list_tables database_name);
  each (fun table =>
    each (fun fk =>
      if malformed fk then mret tt
      else
        '(foreign_schema_name, foreign_table_name) ←
          cmd_lift (resolve_foreign_table_reference (tc_schema_name table) (foreign_table fk));
        if negb (bool_decide (foreign_schema_name = schema_name) && bool_decide (foreign_table_name = table_name schema))
        then mret tt
        else
          let referred_values := foreign_key_values row (referred_columns fk) in
          if existsb is_null referred_values then mret tt
          else
            rows ← seen (fun s =>
              scan_visible_rows_at s session_id database_name (tc_schema_name table) (tc_schema table) None);
            if existsb (fun child => values_equal (foreign_key_values child (fk_columns fk)) referred_values) rows
            then cmd_fail "23503" ("update or delete on table '" +:+ table_name schema +:+
                                   "' violates foreign key constraint '" +:+ fk_name fk +:+ "'")
            else mret tt) (foreign_keys (tc_schema table))) tables.

(** A key of the constraint that another row has, or that two rows have. *)
Definition unique_step (name : string) (cols : list string) (current_pk : option ColumnValue)
    (current_key : option (list ColumnValue)) (seen_keys : list string) (entry : RowEntry) : Cmd W T (list string) :=
  if match current_pk with Some pk => cv_eqb pk entry.1 | None => false end then mret seen_keys
  else
    let key := map (row_get entry.2) cols in
    if existsb is_null key then mret seen_keys
    else if match current_key with Some candidate => values_equal candidate key | None => false end then duplicate_key name
    else if bool_decide (debug_values key ∈ seen_keys) then duplicate_key name
    else mret (debug_values key :: seen_keys).

Definition validate_unique_constraint_at (constraint : UniqueConstraintSchema) (current_pk : option ColumnValue)
    (current_row : option RowMap) : Cmd W T unit :=
  rows ← scan_entries None;
  let current_key := (fun row => map (row_get row) (uniq_columns constraint)) <$> current_row in
  _ ← fold_m (unique_step (uniq_name constraint) (uniq_columns constraint) current_pk current_key) [] rows;
  mret tt.

Definition validate_unique_constraints_at (pk_value : ColumnValue) (row : RowMap) : Cmd W T unit :=
  each (fun constraint =>
    if uniq_primary_key constraint then mret tt
    else validate_unique_constraint_at constraint (Some pk_value) (Some row)) (unique_constraints schema).

(** ** Column chunks and statistics (olap_refresh.rs) *)

Definition refresh_olap_storage_at : Cmd W T unit :=
  entries ← scan_entries None;
  let rows := map snd entries in
  _ ← each (delete_prefix session_id) (olap_prefixes schema);
  put_batch session_id (olap_entries schema rows).

(** ** Writing and deleting a row (row_write.rs) *)

(** The cells and the marker of the first layout; a failure of these is ignored by a write. *)
Definition row_cell_key (column : ColumnSchema) (pk_value : ColumnValue) : PgWireResult key :=
  LegacyCodec.cell_key database_name schema_name (table_name schema) (col_name column) pk_value.

Definition write_row_at_with_olap_refresh (pk_value : ColumnValue) (row : RowMap) (refresh_olap : bool) : Cmd W T unit :=
  _ ← cmd_lift (validate_row_constraints row);
  old_row ← read_row pk_value;
  _ ← (match old_row with
       | Some _ => seen (fun s => ensure_row_write_not_stale s session_id schema pk_value)
       | None => mret tt
       end);
  _ ← validate_foreign_keys_at row;
  _ ← validate_index_entries_at pk_value row;
  _ ← validate_unique_constraints_at pk_value row;
  _ ← (match old_row with Some old_row => delete_index_entries_at pk_value old_row | None => mret tt end);
  record ← cmd_lift (encode_row_record schema row);
  _ ← put session_id (row_key (table_id schema) (table_epoch schema) pk_value) record;
  marker ← cmd_lift (LegacyCodec.row_marker_key database_name schema_name (table_name schema) pk_value);
  _ ← ignore_result (del session_id marker);
  _ ← each (fun column => k ← cmd_lift (row_cell_key column pk_value); ignore_result (del session_id k)) (columns schema);
  _ ← write_index_entries_at pk_value row;
  if refresh_olap then refresh_olap_storage_at else mret tt.

Definition write_row_at (pk_value : ColumnValue) (row : RowMap) : Cmd W T unit :=
  write_row_at_with_olap_refresh pk_value row true.

Definition delete_row_at (pk_value : ColumnValue) : Cmd W T unit :=
  row ← read_row pk_value;
  _ ← (match row with
       | Some row =>
           _ ← seen (fun s => ensure_row_write_not_stale s session_id schema pk_value);
           _ ← validate_no_foreign_key_references_at row;
           delete_index_entries_at pk_value row
       | None => mret tt
       end);
  marker ← cmd_lift (LegacyCodec.row_marker_key database_name schema_name (table_name schema) pk_value);
  _ ← del session_id (row_key (table_id schema) (table_epoch schema) pk_value);
  _ ← del session_id marker;
  _ ← each (fun column => k ← cmd_lift (row_cell_key column pk_value); del session_id k) (columns schema);
  refresh_olap_storage_at.
End Rows.
