(* ===== verification/Mutations.v ===== *)
(** * Statements that change rows

    core/server/mutations.rs and the [InsertRows] arm of core/server/executor.rs: the rows an UPDATE or DELETE reads through its access, the
    assignments, the row an INSERT conflicts with and what ON CONFLICT, REPLACE and ON
    DUPLICATE KEY UPDATE make of it; and CREATE INDEX over the rows that are there
    (row_indexes.rs).

    The responses of the executor are left out: a statement answers the rows it touched, and
    the counts the command tag shows. *)

From S2P Require LegacyCodec.
From S2P Require Import Prelude BTree Float Types TupleCodec Values Text Mode KeyCodec RowCodec KvStore Stores Server Session Heap Json Catalog CatalogStore Coerce Operators Patterns Dates SqlJson Functions Expr Filter Access Pushdown Olap Sequences Scans Rows.

#[local] Open Scope string_scope.
#[local] Open Scope list_scope.
#[local] Open Scope Z_scope.
#[local] Existing Instances cmd_ret cmd_bind.

(** ** Data (types/row.rs) *)

(** [InsertConflictAssignment], and [UpdateAssignment::Expr]. *)
Record Assignment : Type := { as_column : string; as_value : Expr }.

Inductive InsertConflictAction : Type :=
  | DoNothing
  | DoNothingAnyUnique (target_column_sets : list (list string))
  | ReplaceAnyUnique (target_column_sets : list (list string))
  | DoUpdate (target_columns : list string) (assignments : list Assignment) (selection : option Expr)
  | DoUpdateAnyUnique (target_column_sets : list (list string)) (assignments : list Assignment).

(** [apply_write_limit]. *)
Definition apply_write_limit (rows : list RowEntry) (limit : option nat) (order_by_primary_key : bool) : list RowEntry :=
  let rows := if order_by_primary_key
              then sort_by (fun a b : RowEntry => match cv_partial_cmp a.1 b.1 with Some c => c | None => Eq end) rows
              else rows in
  take_limit limit rows.

(** [HashMap ==]. *)
Definition rows_equal (a b : RowMap) : bool :=
  (size a =? size b)%nat &&
  forallb (fun cv => match b !! cv.1 with Some v => cv_eqb cv.2 v | None => false end) (map_to_list a).

Section Mutations.
Context {W T : Type} `{KvStoreApi W T, KvTransaction T W, KvSnapshot T W}.
Context `{ValueTexts, SerdeJson, UnicodeCase, FixedTexts, Clock}.
Context (show_error : pg_error -> string) (entry_size : Z) (debug_values : list ColumnValue -> string)
  (parse_check_expr : string -> PgWireResult Expr) (column_default_value : string -> DataType -> PgWireResult ColumnValue).
Context (session_id : option Z) (database_name schema_name : string) (schema : TableSchema).

Let write_row := write_row_at debug_values parse_check_expr session_id database_name schema_name schema.
Let delete_row := delete_row_at session_id database_name schema_name schema.
Let read := read_row session_id database_name schema_name schema.
Let scan := scan_entries session_id database_name schema_name schema.

(** ** Assignments *)

(** The columns with ON UPDATE that no assignment names. *)
Definition apply_on_update_columns (row : RowMap) (assigned_columns : list string) : PgWireResult RowMap :=
  fold_m (fun (row : RowMap) column =>
    match on_update column with
    | None => Ok row
    | Some default_sql =>
        if existsb (fun assigned => eq_ignore_ascii_case (as_bytes assigned) (as_bytes (col_name column))) assigned_columns
        then Ok row
        else value ← column_default_value default_sql (data_type column); Ok (<[col_name column := value]> row)
    end) row (columns schema).

Definition assigned_value (missing : string -> string) (base : RowMap) (excluded : option RowMap) (a : Assignment)
    : PgWireResult ColumnValue :=
  target ← ok_or (PgError "42703" (missing (as_column a))) (find_column schema (as_column a));
  value ← evaluate_row_expression schema base excluded (as_value a);
  coerce_column_value value (data_type target).

(** Each assignment sees the row before the statement. *)
Definition apply_update_assignments (row : RowMap) (assignments : list Assignment) : PgWireResult RowMap :=
  assigned ← fold_m (fun (r : RowMap) a =>
    value ← assigned_value (fun column => "column '" +:+ column +:+ "' not found") row None a;
    Ok (<[as_column a := value]> r)) row assignments;
  updated ← apply_on_update_columns assigned (map as_column assignments);
  Ok (if (size updated =? size row)%nat then updated else updated ∪ row).

Definition apply_insert_conflict_update (existing excluded : RowMap) (assignments : list Assignment) (selection : option Expr)
    : PgWireResult (option RowMap) :=
  pass ← (match selection with
          | Some selection => evaluate_row_bool schema existing (Some excluded) selection
          | None => Ok true
          end);
  if negb pass then Ok None
  else
    row ← fold_m (fun (row : RowMap) a =>
      value ← assigned_value (fun _ => "column does not exist") existing (Some excluded) a;
      if bool_decide (as_column a = primary_key schema) &&
         match row !! primary_key schema with Some current => negb (cv_eqb current value) | None => false end
      then unsupported "ON CONFLICT DO UPDATE cannot modify the primary key in fast path"
      else Ok (<[as_column a := value]> row)) existing assignments;
    row ← apply_on_update_columns row (map as_column assignments);
    Ok (Some row).

(** ** The rows of an access *)

Definition listed_indexes : Cmd W T (list IndexCatalog) := on_catalog (list_indexes_for_table (table_id schema)).

(** What each arm of [apply_update_rows] and its three siblings reads; a lookup of one key is
    not among them.  The fuel is that of the scan in batches, which no arm reaches. *)
Definition rows_of_access (access : WriteAccess) : Cmd W T (list RowEntry) :=
  match access with
  | WPointLookup _ => mret []
  | WPrimaryKeyRangeScan lower upper filter =>
      seen (fun s => scan_visible_row_entries_by_pk_range_at show_error entry_size s session_id database_name schema_name schema
                       1 lower upper filter None 0)
  | WSecondaryIndexLookup index_name key filter =>
      indexes ← listed_indexes;
      seen (fun s => scan_index_row_entries_at s session_id database_name schema_name schema indexes index_name key filter)
  | WSecondaryIndexRangeScan index_name lower upper filter =>
      indexes ← listed_indexes;
      seen (fun s => scan_index_row_entries_by_range_at s session_id database_name schema_name schema indexes index_name
                       lower upper filter)
  | WPrefixScan filter => scan filter
  end.

(** ** UPDATE *)

Definition update_row (assignments : list Assignment) (entry : RowEntry) : Cmd W T RowMap :=
  row ← cmd_lift (apply_update_assignments entry.2 assignments);
  _ ← write_row entry.1 row;
  mret row.

(** [collect_updated_rows]; [apply_update_rows] runs the same steps and counts. *)
Definition collect_updated_rows (assignments : list Assignment) (access : WriteAccess) (limit : option nat)
    (order_by_primary_key : bool) : Cmd W T (list RowMap) :=
  if bool_decide (limit = Some 0%nat) then mret []
  else match access with
  | WPointLookup key =>
      row ← read key;
      row ← cmd_lift (ok_or (PgError "02000" "no row found for UPDATE") row);
      row ← update_row assignments (key, row);
      mret [row]
  | _ =>
      rows ← rows_of_access access;
      map_m (update_row assignments) (apply_write_limit rows limit order_by_primary_key)
  end.

Definition apply_update_rows (assignments : list Assignment) (access : WriteAccess) (limit : option nat)
    (order_by_primary_key : bool) : Cmd W T nat :=
  rows ← collect_updated_rows assignments access limit order_by_primary_key;
  mret (length rows).

(** ** DELETE *)

Definition collect_deleted_rows (access : WriteAccess) (limit : option nat) (order_by_primary_key : bool) : Cmd W T (list RowMap) :=
  if bool_decide (limit = Some 0%nat) then mret []
  else match access with
  | WPointLookup key =>
      row ← read key;
      match row with
      | None => mret []
      | Some row => _ ← delete_row key; mret [row]
      end
  | _ =>
      rows ← rows_of_access access;
      map_m (fun entry : RowEntry => _ ← delete_row entry.1; mret entry.2) (apply_write_limit rows limit order_by_primary_key)
  end.

Definition apply_delete_rows (access : WriteAccess) (limit : option nat) (order_by_primary_key : bool) : Cmd W T nat :=
  rows ← collect_deleted_rows access limit order_by_primary_key;
  mret (length rows).

(** ** The row an INSERT conflicts with *)

Definition find_existing_row_for_conflict_columns (target_columns : list string) (candidate : RowMap)
    : Cmd W T (option RowEntry) :=
  target_values ← cmd_lift (map_m (fun column =>
    ok_or (PgError "23502" ("null value for " +:+ column)) (candidate !! column)) target_columns);
  if existsb is_null target_values then mret None
  else
    match (if bool_decide (target_columns = [primary_key schema]) then head target_values else None) with
    | Some pk_value => row ← read pk_value; mret (option_map (pair pk_value) row)
    | None =>
        indexes ← listed_indexes;
        candidates ← (match List.find (fun index => bool_decide (ix_column_names index = target_columns) &&
                                                    (ix_table_id index =? table_id schema)) indexes with
                      | None => mret []
                      | Some index =>
                          let target_value := match target_values with [v] => v | _ => Array target_values end in
                          rows ← (indexes ← listed_indexes;
                                  seen (fun s => scan_index_row_entries_at s session_id database_name schema_name schema indexes
                                                   (ix_name index) target_value None));
                          mret (List.filter (fun e : RowEntry => row_matches_columns e.2 target_columns target_values) rows)
                      end);
        candidates ← (match candidates with
                      | [] =>
                          rows ← scan None;
                          mret (List.filter (fun e : RowEntry => row_matches_columns e.2 target_columns target_values) rows)
                      | _ => mret candidates
                      end);
        match candidates with
        | [] => mret None
        | [candidate] => mret (Some candidate)
        | _ => cmd_fail "23505" "duplicate key value violates unique constraint"
        end
    end.

Fixpoint first_conflict (target_column_sets : list (list string)) (candidate : RowMap) : Cmd W T (option RowEntry) :=
  match target_column_sets with
  | [] => mret None
  | target_columns :: rest =>
      existing ← find_existing_row_for_conflict_columns target_columns candidate;
      match existing with Some existing => mret (Some existing) | None => first_conflict rest candidate end
  end.

Definition find_existing_row_for_conflict (on_conflict : InsertConflictAction) (candidate : RowMap) : Cmd W T (option RowEntry) :=
  match on_conflict with
  | DoNothing => find_existing_row_for_conflict_columns [primary_key schema] candidate
  | DoNothingAnyUnique sets | ReplaceAnyUnique sets | DoUpdateAnyUnique sets _ => first_conflict sets candidate
  | DoUpdate target_columns _ _ => find_existing_row_for_conflict_columns target_columns candidate
  end.

(** ** INSERT (executor.rs) *)

(** Rows inserted, rows affected, the first identity value and the rows for RETURNING. *)
Record Inserted : Type := { ins_count : nat; ins_affected : nat; ins_first_id : option Z; ins_rows : list RowMap }.

Definition nothing_inserted : Inserted := {| ins_count := 0; ins_affected := 0; ins_first_id := None; ins_rows := [] |}.

(** What becomes of a row: the key and the row to write and the rows it counts as affected, or
    [None] to skip it. *)
Definition resolve_conflict (on_conflict : option InsertConflictAction) (pk_value : ColumnValue) (row : RowMap)
    (existing : option RowEntry) : Cmd W T (option (ColumnValue * RowMap * nat)) :=
  let merged (assignments : list Assignment) (selection : option Expr) (e : RowEntry)
      : Cmd W T (option (ColumnValue * RowMap * nat)) :=
    updated ← cmd_lift (apply_insert_conflict_update e.2 row assignments selection);
    mret (option_map (fun updated : RowMap => (e.1, updated, if rows_equal updated e.2 then 0%nat else 2%nat)) updated) in
  match existing with
  | Some existing =>
      match on_conflict with
      | Some (DoNothing | DoNothingAnyUnique _) => mret None
      | Some (ReplaceAnyUnique _) => _ ← delete_row existing.1; mret (Some (pk_value, row, 2%nat))
      | Some (DoUpdate _ assignments selection) => merged assignments selection existing
      | Some (DoUpdateAnyUnique _ assignments) => merged assignments None existing
      | None => mret (Some (pk_value, row, 0%nat))
      end
  | None =>
      taken ← (match on_conflict with
               | None => if has_user_primary_key schema
                         then old ← read pk_value; mret (match old with Some _ => true | None => false end) else mret false
               | Some _ => mret false
               end);
      if (taken : bool)
      then cmd_fail "23505" ("duplicate key value violates unique constraint '" +:+ table_name schema +:+ "_pkey'")
      else mret (Some (pk_value, row, 1%nat))
  end.

Definition insert_one (on_conflict : option InsertConflictAction) (done : Inserted) (row : RowMap) : Cmd W T Inserted :=
  pk_value ← (if has_user_primary_key schema then mret (row_get row (primary_key schema))
              else allocate_internal_row_id (table_id schema));
  if is_null pk_value then cmd_fail "23502" ("null value for primary key '" +:+ primary_key schema +:+ "'")
  else
    existing ← (match on_conflict with
                | Some on_conflict => find_existing_row_for_conflict on_conflict row
                | None => mret None
                end);
    resolved ← resolve_conflict on_conflict pk_value row existing;
    match resolved with
    | None => mret done
    | Some (pk_value, row, affected) =>
        _ ← write_row pk_value row;
        insert_id ← advance_auto_increment_from_row database_name schema_name schema row;
        mret {| ins_count := S (ins_count done); ins_affected := ins_affected done + affected;
                ins_first_id := match ins_first_id done with Some id => Some id | None => insert_id end;
                ins_rows := ins_rows done ++ [row] |}
    end.

Definition insert_rows (rows : list RowMap) (on_conflict : option InsertConflictAction) : Cmd W T Inserted :=
  inserted ← fold_m (insert_one on_conflict) nothing_inserted rows;
  _ ← on_catalog (store_table database_name schema_name schema);
  mret inserted.
End Mutations.

(** ** CREATE INDEX *)

Section Tables.
Context {W T : Type} `{KvStoreApi W T, KvTransaction T W, KvSnapshot T W}.
Context `{ValueTexts, SerdeJson, UnicodeCase, FixedTexts, Clock}.
Context (session_id : option Z) (database_name schema_name table_name : string).

Definition delete_index_data_for_table : Cmd W T unit :=
  table ← on_catalog (load_table database_name schema_name table_name);
  _ ← (match table with
       | None => mret tt
       | Some table =>
           indexes ← on_catalog (list_indexes_for_table (table_id (tc_schema table)));
           each (fun index => delete_prefix session_id (index_all_prefix (ix_id index))) indexes
       end);
  delete_prefix session_id (LegacyCodec.index_table_prefix database_name schema_name table_name).

Definition missing_table : pg_error := PgError "42P01" ("table '" +:+ table_name +:+ "' does not exist").

(** The values of a new unique index, each once; NULLs do not count. *)
Definition unique_value (index_name : string) (column_names : list string) (seen_values : list key) (entry : RowEntry)
    : PgWireResult (list key) :=
  let index_value := indexed_value_for_columns entry.2 column_names in
  if index_value_has_null index_value then Ok seen_values
  else
    let prefix := LegacyCodec.index_entry_prefix database_name schema_name table_name index_name index_value in
    if bool_decide (prefix ∈ seen_values)
    then user_error "23505" ("could not create unique index '" +:+ index_name +:+ "': duplicate values exist")
    else Ok (prefix :: seen_values).

(** The entries of a new index, in both layouts. *)
Definition index_entries_of (index : IndexCatalog) (index_name : string) (column_names : list string) (rows : list RowEntry)
    : PgWireResult (list kvrow) :=
  entries ← map_m (fun e : RowEntry =>
    let index_value := indexed_value_for_columns e.2 column_names in
    legacy ← LegacyCodec.index_entry_key database_name schema_name table_name index_name index_value e.1;
    Ok [(index_entry_key (ix_id index) index_value e.1, [x01]); (legacy, [x01])]) rows;
  Ok (concat entries).

Definition create_index_at (index_name : string) (column_names : list string) (unique if_not_exists : bool) : Cmd W T unit :=
  table ← on_catalog (load_table database_name schema_name table_name);
  table ← cmd_lift (ok_or missing_table table);
  let schema := tc_schema table in
  _ ← cmd_lift (each (fun column_name => _ ← ok_or (PgError "42703" ("column '" +:+ column_name +:+ "' not found"))
                                                 (find_column schema column_name); Ok tt) column_names);
  existing ← on_catalog (get_index (tc_database_id table) (tc_schema_id table) index_name);
  match existing with
  | Some _ =>
      if if_not_exists then mret tt else cmd_fail "42P07" ("relation '" +:+ index_name +:+ "' already exists")
  | None =>
      rows ← scan_entries session_id database_name schema_name schema None;
      _ ← cmd_lift (if unique then fold_m (unique_value index_name column_names) [] rows else Ok []);
      index ← on_catalog (create_index database_name schema_name table_name index_name column_names unique if_not_exists);
      match index with
      | None => mret tt
      | Some index =>
          entries ← cmd_lift (index_entries_of index index_name column_names rows);
          written ← try_cmd (put_batch session_id entries);
          match written with
          | Ok _ => mret tt
          | Err e =>
              _ ← ignore_result (on_catalog (drop_index (ix_database_id index) (ix_schema_id index) (ix_name index)));
              cmd_lift (Err e)
          | Panic => cmd_lift Panic
          | OutOfFuel => cmd_lift OutOfFuel
          end
      end
  end.
End Tables.
