(* ===== verification/Writes.v ===== *)
(** * The rows an UPDATE or DELETE changes

    Theorems on Mutations.v: over a table whose rows and indexes are stored as the row writes
    store them, the rows a planned UPDATE or DELETE reads, and so writes or deletes, are those
    its WHERE clause accepts, whichever access the planner chose. *)

From stdpp Require Import sorting.
From S2P Require LegacyCodec.
From S2P Require Import Prelude BTree Float Types TupleCodec Values Text Mode KeyCodec RowCodec KvStore Stores Server Session Heap Json Catalog CatalogStore CatalogRun Coerce Operators Patterns Dates SqlJson Functions Expr Filter Access Pushdown Olap Sequences Scans Selects Rows Mutations.

#[local] Open Scope string_scope.
#[local] Open Scope list_scope.
#[local] Open Scope Z_scope.
#[local] Existing Instances cmd_ret cmd_bind.

(** ** Entries in the order of their keys *)









(** ** What an access of UPDATE or DELETE reads *)

Section Reads.
Context {W T : Type} `{StoreTransaction W T, !KvSnapshot T W}.
Context `{ValueTexts, SerdeJson, UnicodeCase, FixedTexts, Clock}.
Context (show_error : pg_error -> string) (entry_size : Z).
Context (s : Server W T) (client : Client) (session_id : option Z) (database_name schema_name : string) (schema : TableSchema).
Context (indexes : list IndexCatalog) (entries : list RowEntry) (f : Expr).
Context (Htable : stored_table database_name schema_name schema indexes (session_rows s session_id) entries).
Context (Hint : int_table schema indexes) (Hnames : NoDup (map ix_name indexes)).
Context (Hnn : forall t, int_type t = true -> non_null_literals f t).
Context (Hrows : forall e : RowEntry, e ∈ entries -> exists b, row_matches_filter e.2 schema f = Ok b).
Context (Hcurrent : use_consistent_read s session_id = false).




















End Reads.



(** ** A deletion by an index *)


#[local] Existing Instance bits_texts.
#[local] Existing Instance coded_json.
#[local] Instance ascii_case : UnicodeCase :=
  {| to_lowercase := map ascii_lower_byte; to_uppercase := fun text => text |}.
#[local] Instance no_fixed_texts : FixedTexts := fun _ _ => "".
#[local] Instance epoch_clock : Clock := 0.







