(* ===== verification/Alter.v ===== *)
(** * Changing a table

    [alter_table_add_primary_key] and [alter_table_at] of core/server/row_write.rs: the rows a
    change has to look at or write again, the schema it stores and the indexes it builds or
    drops.  The schema is stored straight in the catalog, the rows through the session. *)

From S2P Require LegacyCodec.
From S2P Require Import Prelude BTree Float Types TupleCodec Values Text Mode KeyCodec RowCodec KvStore Stores Server Session Heap Json Catalog CatalogStore Coerce Operators Patterns Dates SqlJson Functions Expr Filter Access Pushdown Olap Sequences Scans Rows Mutations.

#[local] Open Scope string_scope.
#[local] Open Scope list_scope.
#[local] Open Scope Z_scope.
#[local] Existing Instances cmd_ret cmd_bind.

(** ** Operations (types/query_plan.rs) *)

Inductive TableAlterOperation : Type :=
  | AddColumn (column : ColumnSchema) (if_not_exists : bool)
  | ModifyColumn (column_name : string) (column : ColumnSchema)
  | DropColumn (column_name : string) (if_exists : bool)
  | RenameColumn (old_name new_name : string)
  | RenameTable (new_name : string)
  | SetDefault (column_name : string) (default : option string)
  | SetNotNull (column_name : string) (nullable : bool)
  | AddCheck (constraint : CheckConstraintSchema)
  | AddUnique (constraint : UniqueConstraintSchema)
  | AddForeignKey (constraint : ForeignKeyConstraintSchema)
  | DropForeignKey (name : string) (if_exists : bool)
  | AddIndex (index_name : string) (column_names : list string) (unique if_not_exists : bool)
  | DropIndex (index_name : string) (if_exists : bool)
  | RenameIndex (old_name new_name : string)
  | SetAutoIncrement (value : Z).

(** ** Schemas *)

(** [saturating_add(1).max(1)] on a counter of [w] bits. *)
Definition next_version (w v : Z) : Z := Z.max (Z.min (v + 1) (2 ^ w - 1)) 1.

Definition rebuilt (s : TableSchema) (pk : string) (checks : list CheckConstraintSchema) (uniques : list UniqueConstraintSchema)
    (fks : list ForeignKeyConstraintSchema) (cols : list ColumnSchema) : TableSchema :=
  {| table_name := table_name s; table_id := table_id s; schema_version := next_version 32 (schema_version s);
     table_epoch := table_epoch s; primary_key := pk; check_constraints := checks; unique_constraints := uniques;
     foreign_keys := fks; columns := cols |}.

Definition with_columns (s : TableSchema) (cols : list ColumnSchema) : TableSchema :=
  rebuilt s (primary_key s) (check_constraints s) (unique_constraints s) (foreign_keys s) cols.

Definition renamed (old_name new_name name : string) : string := if bool_decide (name = old_name) then new_name else name.

Definition rename_in_unique (old_name new_name : string) (c : UniqueConstraintSchema) : UniqueConstraintSchema :=
  {| uniq_name := uniq_name c; uniq_columns := map (renamed old_name new_name) (uniq_columns c);
     uniq_primary_key := uniq_primary_key c |}.
Definition rename_in_fk (old_name new_name : string) (c : ForeignKeyConstraintSchema) : ForeignKeyConstraintSchema :=
  {| fk_name := fk_name c; fk_columns := map (renamed old_name new_name) (fk_columns c);
     foreign_table := foreign_table c; referred_columns := referred_columns c |}.

Definition set_column (c : ColumnSchema) (id : Z) (name : string) (pk null : bool) (dflt : option string) : ColumnSchema :=
  {| column_id := id; col_name := name; data_type := data_type c; primary_key_col := pk; nullable := null;
     col_default := dflt; on_update := on_update c; character_set := character_set c; collation := collation c |}.

(** The first column of a name, changed. *)
Fixpoint change_column (f : ColumnSchema -> ColumnSchema) (name : string) (cols : list ColumnSchema) : option (list ColumnSchema) :=
  match cols with
  | [] => None
  | c :: cols => if bool_decide (col_name c = name) then Some (f c :: cols) else cons c <$> change_column f name cols
  end.

Definition next_column_id (s : TableSchema) : Z := (foldr Z.max 0 (map column_id (columns s)) + 1) mod 2 ^ 32.

Definition add_column (s : TableSchema) (column : ColumnSchema) : TableSchema :=
  with_columns s (columns s ++ [set_column_id column (next_column_id s)]).

(** The column keeps its identifier, and stays a key. *)
Definition modify_column (s : TableSchema) (column_name : string) (column : ColumnSchema) : option TableSchema :=
  let is_pk := bool_decide (primary_key s = column_name) in
  cols ← change_column (fun previous =>
           set_column column (column_id previous) (col_name column)
             (is_pk || primary_key_col previous || primary_key_col column) (negb is_pk && nullable column) (col_default column))
         column_name (columns s);
  Some (rebuilt s (if is_pk then col_name column else primary_key s) (check_constraints s)
          (map (rename_in_unique column_name (col_name column)) (unique_constraints s))
          (map (rename_in_fk column_name (col_name column)) (foreign_keys s)) cols).

(** The checks that mention the name anywhere in their text go with the column. *)
Definition drop_column (s : TableSchema) (column_name : string) : TableSchema :=
  rebuilt s (primary_key s)
    (List.filter (fun c => negb (has (as_bytes (check_expr c)) column_name)) (check_constraints s))
    (List.filter (fun c => negb (bool_decide (column_name ∈ uniq_columns c))) (unique_constraints s))
    (foreign_keys s)
    (List.filter (fun c => negb (bool_decide (col_name c = column_name))) (columns s)).

Definition rename_column (s : TableSchema) (old_name new_name : string) : option TableSchema :=
  cols ← change_column (fun c => set_column c (column_id c) new_name (primary_key_col c) (nullable c) (col_default c))
           old_name (columns s);
  Some (rebuilt s (renamed old_name new_name (primary_key s)) (check_constraints s)
          (map (rename_in_unique old_name new_name) (unique_constraints s))
          (map (rename_in_fk old_name new_name) (foreign_keys s)) cols).

(** The schema of a new primary key: a new epoch, so that the rows get new keys. *)
Definition with_primary_key (s : TableSchema) (column_name : string) : TableSchema :=
  {| table_name := table_name s; table_id := table_id s; schema_version := next_version 32 (schema_version s);
     table_epoch := next_version 64 (table_epoch s); primary_key := column_name; check_constraints := check_constraints s;
     unique_constraints := unique_constraints s; foreign_keys := foreign_keys s;
     columns := map (fun c => let target := bool_decide (col_name c = column_name) in
                       set_column c (column_id c) (col_name c) target (if target then false else nullable c) (col_default c))
                    (columns s) |}.

Definition PRIMARY_KEY_BACKFILL_WRITE_BATCH_SIZE : nat := Z.to_nat 8192.

Section Alter.
Context {W T : Type} `{KvStoreApi W T, KvTransaction T W, KvSnapshot T W}.
Context `{ValueTexts, SerdeJson, UnicodeCase, FixedTexts, Clock}.
Context (debug_values : list ColumnValue -> string) (parse_check_expr : string -> PgWireResult Expr)
  (column_default_value : string -> DataType -> PgWireResult ColumnValue).
Context (session_id : option Z) (database_name schema_name table_name : string).

Let write_row (schema : TableSchema) (entry : RowEntry) : Cmd W T unit :=
  write_row_at_with_olap_refresh debug_values parse_check_expr session_id database_name schema_name schema entry.1 entry.2 false.
Let scan (schema : TableSchema) : Cmd W T (list RowEntry) := scan_entries session_id database_name schema_name schema None.
Let refresh (schema : TableSchema) : Cmd W T unit := refresh_olap_storage_at session_id database_name schema_name schema.
Let save (schema : TableSchema) : Cmd W T unit := on_catalog (store_table database_name schema_name schema).

Definition load_schema : Cmd W T TableSchema :=
  table ← on_catalog (load_table database_name schema_name table_name);
  table ← cmd_lift (ok_or (missing_table table_name) table);
  mret (tc_schema table).

Definition column_missing {A} (name : string) : Cmd W T A := cmd_lift (column_not_found name).
Definition column_exists {A} (name : string) : Cmd W T A := cmd_fail "42701" ("column '" +:+ name +:+ "' already exists").

(** ** ADD PRIMARY KEY *)

(** The row under its new key; every key once. *)
Definition rekeyed_row (new_schema : TableSchema) (column_name : string) (acc : list key * list (ColumnValue * RowEntry))
    (entry : RowEntry) : PgWireResult (list key * list (ColumnValue * RowEntry)) :=
  _ ← validate_row_constraints parse_check_expr new_schema entry.2;
  let pk_value := row_get entry.2 column_name in
  if is_null pk_value then user_error "23502" ("column '" +:+ column_name +:+ "' contains null values")
  else
    let dedupe_key := encode_key_value pk_value in
    if bool_decide (dedupe_key ∈ acc.1)
    then user_error "23505" ("could not create primary key on '" +:+ column_name +:+ "': duplicate values exist")
    else Ok (dedupe_key :: acc.1, acc.2 ++ [(entry.1, (pk_value, entry.2))]).

(** The marker and the cells of a row that moves to another key. *)
Definition delete_old_layout (old_schema : TableSchema) (rewrite : ColumnValue * RowEntry) : Cmd W T unit :=
  let '(old_pk, (new_pk, _)) := rewrite in
  if cv_eqb old_pk new_pk then mret tt
  else
    marker ← cmd_lift (LegacyCodec.row_marker_key database_name schema_name (Types.table_name old_schema) old_pk);
    _ ← del session_id marker;
    each (fun column =>
      k ← cmd_lift (row_cell_key database_name schema_name old_schema column old_pk); del session_id k) (columns old_schema).

(** What is written of a row: its record, the first layout, and its index entries. *)
Definition backfill_entries (new_schema : TableSchema) (indexes : list IndexCatalog) (rewrite : ColumnValue * RowEntry)
    : PgWireResult (list kvrow) :=
  let '(_, (new_pk, row)) := rewrite in
  record ← encode_row_record new_schema row;
  marker ← LegacyCodec.row_marker_key database_name schema_name (Types.table_name new_schema) new_pk;
  cells ← map_m (fun column =>
    k ← row_cell_key database_name schema_name new_schema column new_pk;
    Ok (k, LegacyCodec.encode_cell_value (row_get row (col_name column)))) (columns new_schema);
  entries ← map_m (fun index =>
    let index_value := indexed_value row index in
    k ← legacy_index_entry_key database_name schema_name new_schema index index_value new_pk;
    Ok [(index_entry_key (ix_id index) index_value new_pk, [x01]); (k, [x01])]) indexes;
  Ok ((row_key (table_id new_schema) (table_epoch new_schema) new_pk, record) :: (marker, [x01]) :: cells ++ concat entries).

Fixpoint backfill (new_schema : TableSchema) (indexes : list IndexCatalog) (pending : list kvrow)
    (rewrites : list (ColumnValue * RowEntry)) : Cmd W T unit :=
  match rewrites with
  | [] => match pending with [] => mret tt | _ => put_batch session_id pending end
  | rewrite :: rewrites =>
      entries ← cmd_lift (backfill_entries new_schema indexes rewrite);
      let pending := pending ++ entries in
      if (PRIMARY_KEY_BACKFILL_WRITE_BATCH_SIZE <=? length pending)%nat
      then _ ← put_batch session_id pending; backfill new_schema indexes [] rewrites
      else backfill new_schema indexes pending rewrites
  end.

Definition alter_table_add_primary_key (column_name : string) : Cmd W T unit :=
  old_schema ← load_schema;
  if has_user_primary_key old_schema && negb (bool_decide (primary_key old_schema = column_name)) then
    cmd_lift (unsupported "fast-path ALTER TABLE ADD PRIMARY KEY does not support replacing an existing primary key")
  else
    let new_schema := with_primary_key old_schema column_name in
    match find_column old_schema column_name with
    | None => column_missing column_name
    | Some _ =>
        rows ← scan old_schema;
        indexes ← on_catalog (list_indexes_for_table (table_id old_schema));
        '(_, rewrites) ← cmd_lift (fold_m (rekeyed_row new_schema column_name) ([], []) rows);
        _ ← delete_index_data_for_table session_id database_name schema_name table_name;
        _ ← each (delete_old_layout old_schema) rewrites;
        _ ← backfill new_schema indexes [] rewrites;
        _ ← save new_schema;
        refresh new_schema
    end.

(** ** ALTER TABLE *)

(** The database and schema of the statement, for the name of an index. *)
Definition index_scope : Cmd W T (Z * Z) :=
  database ← on_catalog (get_database database_name);
  database ← cmd_lift (ok_or (PgError "3D000" ("database '" +:+ database_name +:+ "' does not exist")) database);
  schema_meta ← on_catalog (get_schema (db_id database) schema_name);
  schema_meta ← cmd_lift (ok_or (PgError "3F000" ("schema '" +:+ schema_name +:+ "' does not exist")) schema_meta);
  mret (db_id database, sc_id schema_meta).

Definition index_missing {A} (name : string) : Cmd W T A := cmd_fail "42P01" ("index '" +:+ name +:+ "' does not exist").

(** The entries of the first layout whose key holds [:name:]. *)
Definition delete_legacy_index (index_name : string) : Cmd W T unit :=
  entries ← scan_prefix session_id (LegacyCodec.index_table_prefix database_name schema_name table_name);
  each (fun e : kvrow => if has e.1 (":" +:+ index_name +:+ ":") then del session_id e.1 else mret tt) entries.

Definition alter_columns (schema : TableSchema) (operation : TableAlterOperation) : Cmd W T unit :=
  match operation with
  | AddColumn column if_not_exists =>
      match find_column schema (col_name column) with
      | Some _ => if if_not_exists then mret tt else column_exists (col_name column)
      | None =>
          rows ← scan schema;
          if negb (nullable column) && bool_decide (col_default column = None) && negb (bool_decide (rows = []))
          then cmd_fail "23502" ("column '" +:+ col_name column +:+ "' contains null values")
          else
            let new_schema := add_column schema column in
            let column := set_column_id column (next_column_id schema) in
            _ ← each (fun entry : RowEntry =>
              value ← column_default_value_at column_default_value database_name schema_name column;
              write_row new_schema (entry.1, <[col_name column := value]> entry.2)) rows;
            _ ← save new_schema;
            refresh new_schema
      end
  | ModifyColumn column_name column =>
      match modify_column schema column_name column with
      | None => column_missing column_name
      | Some new_schema =>
          if negb (bool_decide (col_name column = column_name)) &&
             match find_column schema (col_name column) with Some _ => true | None => false end
          then column_exists (col_name column)
          else _ ← save new_schema; refresh new_schema
      end
  | DropColumn column_name if_exists =>
      if bool_decide (primary_key schema = column_name)
      then cmd_lift (unsupported "dropping a primary key column is not supported yet")
      else
        rows ← scan schema;
        match find_column schema column_name with
        | None => if if_exists then mret tt else column_missing column_name
        | Some dropped_column =>
            let new_schema := drop_column schema column_name in
            _ ← each (fun entry : RowEntry =>
              _ ← write_row new_schema (entry.1, delete column_name entry.2);
              k ← cmd_lift (row_cell_key database_name schema_name new_schema dropped_column entry.1);
              ignore_result (del session_id k)) rows;
            _ ← save new_schema;
            refresh new_schema
        end
  | RenameColumn old_name new_name =>
      match find_column schema new_name with
      | Some _ => column_exists new_name
      | None =>
          match rename_column schema old_name new_name with
          | None => column_missing old_name
          | Some new_schema => _ ← save new_schema; refresh new_schema
          end
      end
  | SetDefault column_name dflt =>
      match change_column (fun c => set_column c (column_id c) (col_name c) (primary_key_col c) (nullable c) dflt)
              column_name (columns schema) with
      | None => column_missing column_name
      | Some cols => save (with_columns schema cols)
      end
  | SetNotNull column_name null =>
      match change_column (fun c => set_column c (column_id c) (col_name c) (primary_key_col c) null (col_default c))
              column_name (columns schema) with
      | None => column_missing column_name
      | Some cols =>
          _ ← (if null then mret tt
               else
                 rows ← scan schema;
                 if existsb (fun e : RowEntry => is_null (row_get e.2 column_name)) rows
                 then cmd_fail "23502" ("column '" +:+ column_name +:+ "' contains null values") else mret tt);
          save (with_columns schema cols)
      end
  | _ => mret tt
  end.

Definition alter_constraints (schema : TableSchema) (operation : TableAlterOperation) : Cmd W T unit :=
  match operation with
  | AddCheck constraint =>
      rows ← scan schema;
      expr ← cmd_lift (parse_check_expr (check_expr constraint));
      violated ← cmd_lift (fold_m (fun (found : bool) (e : RowEntry) =>
        if found then Ok true else pass ← row_matches_filter e.2 schema expr; Ok (negb pass)) false rows);
      if (violated : bool) then cmd_fail "23514" ("check constraint '" +:+ check_name constraint +:+ "' is violated")
      else save (rebuilt schema (primary_key schema) (check_constraints schema ++ [constraint]) (unique_constraints schema)
                   (foreign_keys schema) (columns schema))
  | AddUnique constraint =>
      _ ← validate_unique_constraint_at debug_values session_id database_name schema_name schema constraint None None;
      save (rebuilt schema (primary_key schema) (check_constraints schema) (unique_constraints schema ++ [constraint])
              (foreign_keys schema) (columns schema))
  | AddForeignKey constraint =>
      save (rebuilt schema (primary_key schema) (check_constraints schema) (unique_constraints schema)
              (foreign_keys schema ++ [constraint]) (columns schema))
  | DropForeignKey name if_exists =>
      let kept := List.filter (fun fk => negb (eq_ignore_ascii_case (as_bytes (fk_name fk)) (as_bytes name))) (foreign_keys schema) in
      if (length kept =? length (foreign_keys schema))%nat
      then if if_exists then mret tt else cmd_fail "42704" ("foreign key '" +:+ name +:+ "' does not exist")
      else save (rebuilt schema (primary_key schema) (check_constraints schema) (unique_constraints schema) kept (columns schema))
  | _ => mret tt
  end.

Definition alter_indexes (schema : TableSchema) (operation : TableAlterOperation) : Cmd W T unit :=
  let create := create_index_at session_id database_name schema_name table_name in
  match operation with
  | AddIndex index_name column_names unique if_not_exists => create index_name column_names unique if_not_exists
  | DropIndex index_name if_exists =>
      '(database_id, schema_id) ← index_scope;
      index ← on_catalog (drop_index database_id schema_id index_name);
      match index with
      | None => if if_exists then mret tt else index_missing index_name
      | Some index =>
          _ ← delete_prefix session_id (index_all_prefix (ix_id index));
          delete_legacy_index index_name
      end
  | RenameIndex old_name new_name =>
      indexes ← on_catalog (list_indexes_for_table (table_id schema));
      match List.find (fun index => eq_ignore_ascii_case (as_bytes (ix_name index)) (as_bytes old_name)) indexes with
      | None => index_missing old_name
      | Some index =>
          _ ← create new_name (ix_column_names index) (ix_unique index) false;
          '(database_id, schema_id) ← index_scope;
          dropped ← on_catalog (drop_index database_id schema_id old_name);
          match dropped with
          | Some index => delete_prefix session_id (index_all_prefix (ix_id index))
          | None => mret tt
          end
      end
  | _ => mret tt
  end.

Definition alter_table_at (operation : TableAlterOperation) : Cmd W T unit :=
  schema ← load_schema;
  match operation with
  | AddColumn _ _ | ModifyColumn _ _ | DropColumn _ _ | RenameColumn _ _ | SetDefault _ _ | SetNotNull _ _ =>
      alter_columns schema operation
  | AddCheck _ | AddUnique _ | AddForeignKey _ | DropForeignKey _ _ => alter_constraints schema operation
  | AddIndex _ _ _ _ | DropIndex _ _ | RenameIndex _ _ => alter_indexes schema operation
  | RenameTable new_name => _ ← on_catalog (rename_table database_name schema_name table_name new_name); mret tt
  | SetAutoIncrement value =>
      match mysql_auto_increment_column schema with
      | None => cmd_fail "42809" "AUTO_INCREMENT requires an auto_increment column"
      | Some column =>
          match col_default column ≫= nextval_sequence_name with
          | Some sequence => advance_sequence_to_at_least database_name schema_name sequence value
          | None => mret tt
          end
      end
  end.
End Alter.
