(* ===== verification/Executor.v ===== *)
(** * The executor

    core/server/executor.rs: what each plan does, in the order it does it.  The plans are those of
    types/query_plan.rs; a response holds the command tag, or the columns and values that
    core/response.rs hands to the wire encoder.

    Next to the server a computation threads the catalog providers the server keeps for
    DataFusion, by database; a provider is opaque, and a plan that changes a database forgets
    its provider ([invalidate_datafusion_catalog], context.rs). *)

From stdpp Require Import pretty.
From S2P Require LegacyCodec.
From S2P Require Import Prelude BTree Float Types TupleCodec Values Text Mode KeyCodec RowCodec KvStore Stores Server Session Heap Json Catalog CatalogStore Coerce Operators Patterns Dates SqlJson Functions Expr Filter Access Pushdown Olap Sequences Scans Rows Mutations Alter.

#[local] Open Scope string_scope.
#[local] Open Scope list_scope.
#[local] Open Scope Z_scope.
#[local] Existing Instances cmd_ret cmd_bind.

(** ** Plans and responses *)

Inductive ReturningProjection : Type :=
  | RWildcard
  | RColumn (name : string)
  | RExpr (expr : Expr) (output_name : string).

Definition TableName : Type := string * string.

Inductive QueryPlan : Type :=
  | Noop (tag : string)
  | CreateDatabase (database_name : string) (if_not_exists : bool)
  | CreateSchema (database_name schema_name : string) (if_not_exists : bool)
  | CreateTable (database_name schema_name : string) (schema : TableSchema) (auto_increment_start : option Z)
      (indexes : list (string * list string * bool))
  | CreateSequence (database_name schema_name sequence_name : string) (if_not_exists : bool) (start increment : Z)
  | CreateView (database_name schema_name view_name definition : string) (or_replace if_not_exists : bool)
  | CreateTableAs (database_name schema_name : string) (schema : TableSchema) (rows : list RowMap)
  | AlterTableAddPrimaryKey (database_name schema_name table_name column_name : string)
  | AlterTable (database_name schema_name table_name : string) (operations : list TableAlterOperation)
  | CreateIndex (database_name schema_name table_name index_name : string) (column_names : list string)
      (unique if_not_exists : bool)
  | DropTables (database_name : string) (tables : list TableName) (if_exists : bool)
  | DropIndexes (database_name : string) (indexes : list TableName) (if_exists : bool)
  | DropSequences (database_name : string) (sequences : list TableName) (if_exists : bool)
  | DropViews (database_name : string) (views : list TableName) (if_exists : bool)
  | DropSchemas (database_name : string) (schemas : list string) (if_exists : bool)
  | DropDatabases (databases : list string) (if_exists : bool)
  | TruncateTables (database_name : string) (tables : list (string * TableSchema))
  | ExplainRows (rows : list (list (option string)))
  | PostgresExplainRows (rows : list (list (option string)))
  | AnalyzeTables (database_name : string) (tables : list (string * TableSchema))
  | TableMaintenanceRows (rows : list (list (option string)))
  | InsertRows (database_name schema_name : string) (schema : TableSchema) (rows : list RowMap)
      (on_conflict : option InsertConflictAction) (returning : option (list ReturningProjection))
  | SelectRows (database_name schema_name : string) (schema : TableSchema) (projection : list string)
      (access : ReadAccess) (limit : option nat) (offset : nat)
  | UpdateRows (database_name schema_name : string) (schema : TableSchema) (assignments : list Assignment)
      (access : WriteAccess) (limit : option nat) (order_by_primary_key : bool) (returning : option (list ReturningProjection))
  | DeleteRows (database_name schema_name : string) (schema : TableSchema)
      (access : WriteAccess) (limit : option nat) (order_by_primary_key : bool) (returning : option (list ReturningProjection)).

(** [Response::Execution] with the rows of its tag; [Response::Query] with the type of each
    field ([None] stands for TEXT) and what the encoder is given for it. *)
Definition FieldInfo : Type := string * option DataType.

Inductive Response : Type :=
  | Execution (tag : string) (rows : option nat)
  | TextRows (column_names : list string) (rows : list (list (option string)))
  | Query (fields : list FieldInfo) (rows : list (list (option ColumnValue))).

Definition command_complete (tag : string) : Response := Execution tag None.

Definition command_complete_rows (tag : string) (rows : nat) : Response := Execution tag (Some rows).

Definition mysql_insert_command_tag (affected_rows : nat) (last_insert_id : option Z) : Response :=
  let last_insert_id := match last_insert_id with Some value => if 0 <? value then value else 0 | None => 0 end in
  command_complete ("MYSQL_INSERT " +:+ pretty (Z.of_nat affected_rows) +:+ " " +:+ pretty last_insert_id).

Definition field_of (schema : TableSchema) (name : string) : FieldInfo := (name, data_type <$> find_column schema name).

Definition field_infos_for_projection (schema : TableSchema) (projection : list string) : list FieldInfo :=
  map (field_of schema) projection.

Definition field_infos_for_returning_projection (schema : TableSchema) (projection : list ReturningProjection)
    : list FieldInfo :=
  concat (map (fun item => match item with
    | RWildcard => map (field_of schema) (column_names schema)
    | RColumn name => [field_of schema name]
    | RExpr _ output_name => [(output_name, None)]
    end) projection).

Definition build_pg_response_with_format (rows : list RowMap) (schema : TableSchema) (projection : list string) : Response :=
  Query (field_infos_for_projection schema projection) (map (fun row : RowMap => map (fun name => row !! name) projection) rows).

Definition build_pg_returning_response (rows : list (list ColumnValue)) (schema : TableSchema)
    (projection : list ReturningProjection) : Response :=
  Query (field_infos_for_returning_projection schema projection) (map (map Some) rows).

(** ** Plans run *)

Section Executor.
Context {W T C : Type} `{KvStoreApi W T, KvTransaction T W, KvSnapshot T W}.
Context `{ValueTexts, SerdeJson, UnicodeCase, FixedTexts, Clock}.
Context (show_error : pg_error -> string) (entry_size : Z) (debug_values : list ColumnValue -> string)
  (parse_check_expr : string -> PgWireResult Expr) (column_default_value : string -> DataType -> PgWireResult ColumnValue).
Context (fuel : nat) (session_id : option Z).

(** [evaluate_returning_row] (sql/projection.rs). *)
Definition evaluate_returning_row (projection : list ReturningProjection) (schema : TableSchema) (row : RowMap)
    (excluded_row : option RowMap) : PgWireResult (list ColumnValue) :=
  let value_of (name : string) := ok_or (PgError "42703" ("column '" +:+ name +:+ "' not found")) (row !! name) in
  items ← map_m (fun item => match item with
    | RWildcard => map_m value_of (column_names schema)
    | RColumn name => value ← value_of name; Ok [value]
    | RExpr expr _ => value ← evaluate_row_expression schema row excluded_row expr; Ok [value]
    end) projection;
  Ok (concat items).

(** The cached providers, the server and the client; a plan that fails keeps what it changed. *)
Definition State : Type := gmap string C * (Server W T * Client).

Definition Plan (A : Type) : Type := State -> PgWireResult A * State.

#[local] Instance plan_ret : MRet Plan := fun A a s => (Ok a, s).
#[local] Instance plan_bind : MBind Plan := fun A B k m s =>
  match m s with
  | (Ok a, s) => k a s
  | (Err e, s) => (Err e, s)
  | (Panic, s) => (Panic, s)
  | (OutOfFuel, s) => (OutOfFuel, s)
  end.

Definition run {A} (m : Cmd W T A) : Plan A := fun s => let (r, server) := m s.2 in (r, (s.1, server)).

Definition plan_fail {A} (code message : string) : Plan A := run (cmd_fail code message).

Definition invalidate_datafusion_catalog (database_name : string) : Plan unit := fun s =>
  (Ok tt, (delete database_name s.1, s.2)).

(** *** Tables *)

Definition create_table (database_name schema_name : string) (schema : TableSchema) (auto_increment_start : option Z)
    (indexes : list (string * list string * bool)) : Plan Response :=
  _ ← run (on_catalog (store_table database_name schema_name schema));
  _ ← invalidate_datafusion_catalog database_name;
  _ ← each (fun column =>
    match col_default column ≫= nextval_sequence_name with
    | Some sequence =>
        '(sequence_schema, sequence_name) ← run (cmd_lift (resolve_sequence_name schema_name sequence));
        run (create_sequence_at database_name sequence_schema sequence_name true (default 1 auto_increment_start) 1)
    | None => mret tt
    end) (columns schema);
  _ ← each (fun index : string * list string * bool =>
    let '(index_name, column_names, unique) := index in
    run (create_index_at session_id database_name schema_name (table_name schema) index_name column_names unique true)) indexes;
  mret (command_complete "CREATE TABLE").

Definition create_table_as (database_name schema_name : string) (schema : TableSchema) (rows : list RowMap) : Plan Response :=
  _ ← run (on_catalog (store_table database_name schema_name schema));
  _ ← invalidate_datafusion_catalog database_name;
  _ ← each (fun row : RowMap =>
    pk_value ← (if has_user_primary_key schema then mret (row_get row (primary_key schema))
                else run (allocate_internal_row_id (table_id schema)));
    run (write_row_at debug_values parse_check_expr session_id database_name schema_name schema pk_value row)) rows;
  mret (command_complete_rows "SELECT" (length rows)).

Definition delete_range (range : RangeScan) : Cmd W T unit :=
  entries ← scan_range session_id range;
  each (fun e : kvrow => del session_id e.1) entries.

(** One table of DROP TABLE: the index entries, the catalog, then the rows of both layouts. *)
Definition drop_one_table (database_name : string) (if_exists : bool) (name : TableName) : Plan unit :=
  let '(schema_name, table_name) := name in
  table ← run (on_catalog (load_table database_name schema_name table_name));
  match table with
  | None =>
      if if_exists then mret tt
      else plan_fail "42P01" ("table '" +:+ schema_name +:+ "." +:+ table_name +:+ "' does not exist")
  | Some table =>
      let schema := tc_schema table in
      _ ← run (delete_index_data_for_table session_id database_name schema_name table_name);
      _ ← run (on_catalog (drop_table database_name schema_name table_name));
      _ ← invalidate_datafusion_catalog database_name;
      run (_ ← delete_range (row_range (table_id schema) (table_epoch schema) None);
           _ ← delete_range (row_versions_range (table_id schema) (table_epoch schema) None);
           _ ← each (delete_prefix session_id) (olap_prefixes schema);
           delete_prefix session_id (LegacyCodec.table_data_prefix database_name schema_name table_name))
  end.

(** One table of TRUNCATE: the epoch moves on, so that its rows are no longer the table's. *)
Definition truncate_one_table (database_name : string) (table : string * TableSchema) : Plan unit :=
  let '(schema_name, schema) := table in
  bumped ← run (on_catalog (bump_table_epoch database_name schema_name (table_name schema)));
  _ ← invalidate_datafusion_catalog database_name;
  let id := table_id (tc_schema bumped) in
  let old_epoch := Z.max (table_epoch (tc_schema bumped) - 1) 1 in
  run (_ ← each (delete_prefix session_id)
             [olap_chunk_meta_prefix id old_epoch; olap_chunk_column_prefix id old_epoch; stats_prefix id old_epoch];
       _ ← delete_prefix session_id (LegacyCodec.table_data_prefix database_name schema_name (table_name schema));
       _ ← delete_index_data_for_table session_id database_name schema_name (table_name schema);
       md ← gets mode;
       match (md : GatewayMode) with
       | MySql => reset_auto_increment_sequence database_name schema_name schema
       | _ => mret tt
       end).

(** *** Indexes, sequences, views *)

Definition no_database {A} (name : string) : Plan A := plan_fail "3D000" ("database '" +:+ name +:+ "' does not exist").
Definition no_schema {A} (name : string) : Plan A := plan_fail "3F000" ("schema '" +:+ name +:+ "' does not exist").

(** The legacy entries that go are those whose key holds [/name/]. *)
Definition drop_one_index (database : DatabaseCatalog) (database_name : string) (if_exists : bool) (name : TableName) : Plan unit :=
  let '(schema_name, index_name) := name in
  schema_meta ← run (on_catalog (get_schema (db_id database) schema_name));
  match schema_meta with
  | None => if if_exists then mret tt else no_schema schema_name
  | Some schema_meta =>
      index ← run (on_catalog (drop_index (db_id database) (sc_id schema_meta) index_name));
      match index with
      | None => if if_exists then mret tt else plan_fail "42P01" ("index '" +:+ index_name +:+ "' does not exist")
      | Some index =>
          run (_ ← delete_prefix session_id (index_all_prefix (ix_id index));
               entries ← scan_prefix session_id
                           (LegacyCodec.index_table_prefix database_name schema_name (ix_table_name index));
               each (fun e : kvrow => if has e.1 ("/" +:+ index_name +:+ "/") then del session_id e.1 else mret tt) entries)
      end
  end.

Definition drop_indexes (database_name : string) (indexes : list TableName) (if_exists : bool) : Plan Response :=
  database ← run (on_catalog (get_database database_name));
  match database with
  | None => no_database database_name
  | Some database =>
      _ ← each (drop_one_index database database_name if_exists) indexes;
      mret (command_complete "DROP INDEX")
  end.

Definition drop_one_sequence (database_name : string) (if_exists : bool) (name : TableName) : Plan unit :=
  let '(schema_name, sequence_name) := name in
  let k := sequence_state_key database_name schema_name sequence_name in
  existing ← run (store_read k);
  if negb (bool_decide (is_Some existing)) && negb if_exists
  then plan_fail "42P01" ("sequence '" +:+ schema_name +:+ "." +:+ sequence_name +:+ "' does not exist")
  else run (writes (fun s => w ← ks_delete k (store s); Ok (set_store w s))).

Definition drop_one_view (database_name : string) (if_exists : bool) (name : TableName) : Plan unit :=
  let '(schema_name, view_name) := name in
  dropped ← run (on_catalog (drop_view database_name schema_name view_name));
  match dropped with
  | Some _ => invalidate_datafusion_catalog database_name
  | None =>
      if if_exists then mret tt
      else plan_fail "42P01" ("view '" +:+ schema_name +:+ "." +:+ view_name +:+ "' does not exist")
  end.

(** *** Schemas and databases *)

(** One schema of DROP SCHEMA: its tables leave their rows behind. *)
Definition drop_one_schema (database_name : string) (if_exists : bool) (schema_name : string) : Plan unit :=
  tables ← run (on_catalog (list_tables database_name));
  _ ← each (fun table =>
    _ ← run (delete_index_data_for_table session_id database_name schema_name (tc_table_name table));
    _ ← run (on_catalog (drop_table database_name schema_name (tc_table_name table)));
    invalidate_datafusion_catalog database_name)
    (List.filter (fun table => bool_decide (tc_schema_name table = schema_name)) tables);
  views ← run (on_catalog (list_views database_name));
  _ ← each (fun view =>
    dropped ← run (on_catalog (drop_view database_name schema_name (vw_name view)));
    match dropped with Some _ => invalidate_datafusion_catalog database_name | None => mret tt end)
    (List.filter (fun view => bool_decide (vw_schema_name view = schema_name)) views);
  dropped ← run (on_catalog (drop_schema database_name schema_name));
  match dropped with
  | None => if if_exists then mret tt else no_schema schema_name
  | Some _ => mret tt
  end.

Definition drop_one_database (if_exists : bool) (database_name : string) : Plan unit :=
  dropped ← run (on_catalog (drop_database database_name));
  match dropped with
  | None => if if_exists then invalidate_datafusion_catalog database_name else no_database database_name
  | Some _ => invalidate_datafusion_catalog database_name
  end.

(** *** Rows *)

Definition returned (projection : list ReturningProjection) (schema : TableSchema) (rows : list RowMap) : PgWireResult Response :=
  rows ← map_m (fun row => evaluate_returning_row projection schema row None) rows;
  Ok (build_pg_returning_response rows schema projection).

Definition insert_plan (database_name schema_name : string) (schema : TableSchema) (rows : list RowMap)
    (on_conflict : option InsertConflictAction) (returning : option (list ReturningProjection)) : Cmd W T Response :=
  done ← insert_rows debug_values parse_check_expr column_default_value session_id database_name schema_name schema rows on_conflict;
  match returning with
  | Some projection => cmd_lift (returned projection schema (ins_rows done))
  | None =>
      md ← gets mode;
      mret (match (md : GatewayMode) with
            | MySql => mysql_insert_command_tag (ins_affected done) (ins_first_id done)
            | _ => command_complete_rows "INSERT 0" (ins_count done)
            end)
  end.

Definition select_plan (database_name schema_name : string) (schema : TableSchema) (projection : list string)
    (access : ReadAccess) (limit : option nat) (offset : nat) : Cmd W T Response :=
  indexes ← (match access with
             | SecondaryIndexLookup _ _ _ _ | SecondaryIndexRangeScan _ _ _ _ _ => on_catalog (list_indexes_for_table (table_id schema))
             | _ => mret []
             end);
  rows ← seen (fun s => select_rows show_error entry_size s session_id database_name schema_name schema indexes fuel access limit offset);
  mret (build_pg_response_with_format rows schema projection).

(** RETURNING, or the number of rows. *)
Definition rows_response (tag : string) (schema : TableSchema) (returning : option (list ReturningProjection))
    (rows : list RowMap) : PgWireResult Response :=
  match returning with
  | Some projection => returned projection schema rows
  | None => Ok (command_complete_rows tag (length rows))
  end.

Definition update_plan (database_name schema_name : string) (schema : TableSchema) (assignments : list Assignment)
    (access : WriteAccess) (limit : option nat) (order_by_primary_key : bool) (returning : option (list ReturningProjection))
    : Cmd W T Response :=
  rows ← collect_updated_rows show_error entry_size debug_values parse_check_expr column_default_value session_id
           database_name schema_name schema assignments access limit order_by_primary_key;
  cmd_lift (rows_response "UPDATE" schema returning rows).

Definition delete_plan (database_name schema_name : string) (schema : TableSchema) (access : WriteAccess)
    (limit : option nat) (order_by_primary_key : bool) (returning : option (list ReturningProjection)) : Cmd W T Response :=
  rows ← collect_deleted_rows show_error entry_size session_id database_name schema_name schema access limit order_by_primary_key;
  cmd_lift (rows_response "DELETE" schema returning rows).

(** *** A plan *)

Definition execute_plan (plan : QueryPlan) : Plan Response :=
  let complete (tag : string) (m : Plan unit) : Plan Response := _ ← m; mret (command_complete tag) in
  match plan with
  | Noop tag => mret (command_complete tag)
  | CreateDatabase database_name if_not_exists =>
      complete "CREATE DATABASE" (_ ← run (on_catalog (create_database database_name if_not_exists)); mret tt)
  | CreateSchema database_name schema_name if_not_exists =>
      complete "CREATE SCHEMA" (_ ← run (on_catalog (create_schema database_name schema_name if_not_exists)); mret tt)
  | CreateTable database_name schema_name schema start indexes => create_table database_name schema_name schema start indexes
  | CreateSequence database_name schema_name sequence_name if_not_exists start increment =>
      complete "CREATE SEQUENCE" (run (create_sequence_at database_name schema_name sequence_name if_not_exists start increment))
  | CreateView database_name schema_name view_name definition or_replace if_not_exists =>
      complete "CREATE VIEW"
        (_ ← run (on_catalog (store_view database_name schema_name view_name definition or_replace if_not_exists));
         invalidate_datafusion_catalog database_name)
  | CreateTableAs database_name schema_name schema rows => create_table_as database_name schema_name schema rows
  | AlterTableAddPrimaryKey database_name schema_name table_name column_name =>
      complete "ALTER TABLE"
        (_ ← run (alter_table_add_primary_key parse_check_expr session_id database_name schema_name table_name column_name);
         invalidate_datafusion_catalog database_name)
  | AlterTable database_name schema_name table_name operations =>
      complete "ALTER TABLE"
        (_ ← each (fun operation => run (alter_table_at debug_values parse_check_expr column_default_value session_id
                                           database_name schema_name table_name operation)) operations;
         invalidate_datafusion_catalog database_name)
  | CreateIndex database_name schema_name table_name index_name column_names unique if_not_exists =>
      complete "CREATE INDEX"
        (run (create_index_at session_id database_name schema_name table_name index_name column_names unique if_not_exists))
  | DropTables database_name tables if_exists => complete "DROP TABLE" (each (drop_one_table database_name if_exists) tables)
  | DropIndexes database_name indexes if_exists => drop_indexes database_name indexes if_exists
  | DropSequences database_name sequences if_exists =>
      complete "DROP SEQUENCE" (each (drop_one_sequence database_name if_exists) sequences)
  | DropViews database_name views if_exists => complete "DROP VIEW" (each (drop_one_view database_name if_exists) views)
  | DropSchemas database_name schemas if_exists => complete "DROP SCHEMA" (each (drop_one_schema database_name if_exists) schemas)
  | DropDatabases databases if_exists => complete "DROP DATABASE" (each (drop_one_database if_exists) databases)
  | TruncateTables database_name tables =>
      _ ← each (truncate_one_table database_name) tables;
      md ← run (gets mode);
      mret (match (md : GatewayMode) with
            | MySql => command_complete_rows "TRUNCATE TABLE" 0
            | _ => command_complete "TRUNCATE TABLE"
            end)
  | ExplainRows rows =>
      mret (TextRows ["id"; "select_type"; "table"; "partitions"; "type"; "possible_keys"; "key"; "key_len"; "ref"; "rows";
                      "filtered"; "Extra"] rows)
  | PostgresExplainRows rows => mret (TextRows ["QUERY PLAN"] rows)
  | AnalyzeTables database_name tables =>
      complete "ANALYZE"
        (_ ← each (fun table : string * TableSchema => run (refresh_olap_storage_at session_id database_name table.1 table.2)) tables;
         invalidate_datafusion_catalog database_name)
  | TableMaintenanceRows rows => mret (TextRows ["Table"; "Op"; "Msg_type"; "Msg_text"] rows)
  | InsertRows database_name schema_name schema rows on_conflict returning =>
      run (insert_plan database_name schema_name schema rows on_conflict returning)
  | SelectRows database_name schema_name schema projection access limit offset =>
      run (select_plan database_name schema_name schema projection access limit offset)
  | UpdateRows database_name schema_name schema assignments access limit order_by_primary_key returning =>
      run (update_plan database_name schema_name schema assignments access limit order_by_primary_key returning)
  | DeleteRows database_name schema_name schema access limit order_by_primary_key returning =>
      run (delete_plan database_name schema_name schema access limit order_by_primary_key returning)
  end.
End Executor.
