(* ===== verification/PlanLocks.v ===== *)
(** * The locks of a plan

    core/server/session_commands.rs from [is_write_plan] to [plan_lock_targets]: in MySQL mode
    a plan that writes, or a SELECT ... FOR UPDATE, asks the lock manager for the rows it is
    about to touch before it runs.  The [Debug] text of the values that are not integers,
    booleans or NULL is a parameter, as in MySqlLocks.v. *)

From S2P Require LegacyCodec.
From S2P Require Import MySqlLocks.
From S2P Require Import Prelude BTree Float Types TupleCodec Values Text Mode KeyCodec RowCodec KvStore Stores Server Session Heap Json Catalog CatalogStore Coerce Operators Patterns Dates SqlJson Functions Expr Filter Access Pushdown Olap Sequences CatalogRun Scans Rows Mutations Alter Executor.

#[local] Open Scope string_scope.
#[local] Open Scope list_scope.
#[local] Open Scope Z_scope.
#[local] Existing Instances cmd_ret cmd_bind.

Definition is_write_plan (plan : QueryPlan) : bool :=
  match plan with
  | Noop _ | SelectRows _ _ _ _ _ _ _ | ExplainRows _ | PostgresExplainRows _ | TableMaintenanceRows _ => false
  | _ => true
  end.

Section PlanLocks.
Context {W T : Type} `{KvStoreApi W T, KvTransaction T W, KvSnapshot T W}.
Context `{ValueTexts, SerdeJson, UnicodeCase, FixedTexts, Clock}.
Context (debug_other : ColumnValue -> string) (session_id : Z).

Let value_text := normalize_mysql_lock_value debug_other.
Let index_text := normalize_mysql_index_lock_value debug_other.

(** The end of the range of one value; the text ends in an ASCII character, so that its
    successor is text. *)
Definition next_text (text : string) : option string := option_map of_bytes (next_prefix (as_bytes text)).

Section Table_.
Context (database_name schema_name : string) (schema : TableSchema).

Definition row_lock_of (kind : MySqlLockKind) : MySqlLock :=
  mysql_lock session_id database_name schema_name (table_name schema) kind.

Definition record_locks (entries : list RowEntry) : list MySqlLock :=
  map (fun e : RowEntry => row_lock_of (Record (value_text e.1))) entries.

Definition secondary_index_locks_at (index_name : string) (index_value : ColumnValue) : Cmd W T (list MySqlLock) :=
  let value := index_text index_name index_value in
  indexes ← listed_indexes schema;
  entries ← seen (fun s => scan_index_row_entries_at s (Some session_id) database_name schema_name schema indexes
                             index_name index_value None);
  let lock_kind := match entries with
                   | [] => IndexGap (to_ascii_lowercase index_name) (Some value) (next_text value)
                   | _ => IndexNextKey (to_ascii_lowercase index_name) (Some value) (next_text value)
                   end in
  mret (row_lock_of lock_kind :: record_locks entries).

(** The row is looked for outside the session's transaction. *)
Definition primary_key_record_or_gap_locks_at (k : ColumnValue) : Cmd W T (list MySqlLock) :=
  let value := value_text k in
  row ← read_row None database_name schema_name schema k;
  mret [row_lock_of (match row with Some _ => Record value | None => Gap (Some value) (next_text value) end)].

Definition bound_text (text : ColumnValue -> string) (bound : KeyBound) : option string :=
  option_map (fun b : ColumnValue * bool => text b.1) bound.

Definition secondary_index_range_locks_at (index_name : string) (lower upper : KeyBound) : Cmd W T (list MySqlLock) :=
  indexes ← listed_indexes schema;
  entries ← seen (fun s => scan_index_row_entries_by_range_at s (Some session_id) database_name schema_name schema indexes
                             index_name lower upper None);
  mret (row_lock_of (IndexNextKey (to_ascii_lowercase index_name) (bound_text (index_text index_name) lower)
                       (bound_text (index_text index_name) upper)) :: record_locks entries).

(** The locks of a new row: its key, and its value in every index. *)
Definition insert_one_locks (indexes : list IndexCatalog) (row : RowMap) : list MySqlLock :=
  match row !! primary_key schema with
  | Some k => [row_lock_of (InsertIntention (value_text k)); row_lock_of (Record (value_text k))]
  | None => []
  end ++
  concat (map (fun index =>
    let value := index_text (ix_name index) (indexed_value row index) in
    [row_lock_of (IndexInsertIntention (to_ascii_lowercase (ix_name index)) value);
     row_lock_of (IndexRecord (to_ascii_lowercase (ix_name index)) value)]) indexes).

Definition insert_row_locks_at (rows : list RowMap) : Cmd W T (list MySqlLock) :=
  indexes ← listed_indexes schema;
  mret (concat (map (insert_one_locks indexes) rows)).

Definition range_lock (lower upper : KeyBound) : list MySqlLock :=
  [row_lock_of (NextKey (bound_text value_text lower) (bound_text value_text upper))].

Definition read_access_locks (access : ReadAccess) : Cmd W T (list MySqlLock) :=
  match access with
  | PointLookup k => primary_key_record_or_gap_locks_at k
  | PrimaryKeyInLookup keys => locks ← map_m primary_key_record_or_gap_locks_at keys; mret (concat locks)
  | PrimaryKeyRangeScan lower upper _ => mret (range_lock lower upper)
  | SecondaryIndexLookup index_name _ k _ => secondary_index_locks_at index_name k
  | SecondaryIndexRangeScan index_name _ lower upper _ => secondary_index_range_locks_at index_name lower upper
  | PrefixScan _ => mret [row_lock_of Table]
  end.

Definition write_access_locks (access : WriteAccess) : Cmd W T (list MySqlLock) :=
  match access with
  | WPointLookup k => primary_key_record_or_gap_locks_at k
  | WPrimaryKeyRangeScan lower upper _ => mret (range_lock lower upper)
  | WSecondaryIndexLookup index_name k _ => secondary_index_locks_at index_name k
  | WSecondaryIndexRangeScan index_name lower upper _ => secondary_index_range_locks_at index_name lower upper
  | WPrefixScan _ => mret [row_lock_of Table]
  end.

(** The locks of rows, and that the table stays. *)
Definition with_metadata_read (locks : Cmd W T (list MySqlLock)) : Cmd W T (list MySqlLock) :=
  locks ← locks;
  mret (add_metadata_read_lock locks session_id database_name schema_name (table_name schema)).
End Table_.

Definition drop_index_locks (database_name : string) (database : option DatabaseCatalog) (name : TableName)
    : Cmd W T (list MySqlLock) :=
  let '(schema_name, index_name) := name in
  let own := mysql_index_lock session_id database_name schema_name index_name MetadataWrite in
  match database with
  | None => mret [own]
  | Some database =>
      schema_meta ← on_catalog (get_schema (db_id database) schema_name);
      match schema_meta with
      | None => mret [own]
      | Some schema_meta =>
          index ← on_catalog (get_index (db_id database) (sc_id schema_meta) index_name);
          mret (match index with
                | Some index => [own; mysql_statement_lock session_id database_name schema_name (ix_table_name index) MetadataWrite]
                | None => [own]
                end)
      end
  end.

Definition table_write_lock (database_name schema_name table_name : string) : MySqlLock :=
  mysql_statement_lock session_id database_name schema_name table_name MetadataWrite.

Definition plan_lock_targets (plan : QueryPlan) (locking_read : bool) : Cmd W T (list MySqlLock) :=
  match plan with
  | CreateDatabase database_name _ => mret [mysql_database_lock session_id database_name MetadataWrite]
  | CreateSchema database_name schema_name _ => mret [mysql_schema_lock session_id database_name schema_name MetadataWrite]
  | CreateSequence database_name schema_name sequence_name _ _ _ =>
      mret [mysql_sequence_lock session_id database_name schema_name sequence_name MetadataWrite]
  | CreateView database_name schema_name view_name _ _ _ =>
      mret [mysql_view_lock session_id database_name schema_name view_name MetadataWrite]
  | CreateTable database_name schema_name schema _ _ | CreateTableAs database_name schema_name schema _ =>
      mret [table_write_lock database_name schema_name (table_name schema)]
  | InsertRows database_name schema_name schema rows _ _ =>
      with_metadata_read database_name schema_name schema (insert_row_locks_at database_name schema_name schema rows)
  | SelectRows database_name schema_name schema _ access _ _ =>
      if locking_read
      then with_metadata_read database_name schema_name schema (read_access_locks database_name schema_name schema access)
      else mret []
  | UpdateRows database_name schema_name schema _ access _ _ _ | DeleteRows database_name schema_name schema access _ _ _ =>
      with_metadata_read database_name schema_name schema (write_access_locks database_name schema_name schema access)
  | AlterTableAddPrimaryKey database_name schema_name table_name _ | AlterTable database_name schema_name table_name _ =>
      mret [table_write_lock database_name schema_name table_name]
  | CreateIndex database_name schema_name table_name index_name _ _ _ =>
      mret [table_write_lock database_name schema_name table_name;
            mysql_index_lock session_id database_name schema_name index_name MetadataWrite]
  | DropTables database_name tables _ =>
      mret (map (fun t : TableName => table_write_lock database_name t.1 t.2) tables)
  | DropIndexes database_name indexes _ =>
      database ← on_catalog (get_database database_name);
      locks ← map_m (drop_index_locks database_name database) indexes;
      mret (concat locks)
  | DropSequences database_name sequences _ =>
      mret (map (fun t : TableName => mysql_sequence_lock session_id database_name t.1 t.2 MetadataWrite) sequences)
  | DropViews database_name views _ =>
      mret (map (fun t : TableName => mysql_view_lock session_id database_name t.1 t.2 MetadataWrite) views)
  | DropSchemas database_name schemas _ =>
      mret (map (fun schema_name => mysql_schema_lock session_id database_name schema_name MetadataWrite) schemas)
  | DropDatabases databases _ => mret (map (fun name => mysql_database_lock session_id name MetadataWrite) databases)
  | TruncateTables database_name tables =>
      mret (map (fun t : string * TableSchema => table_write_lock database_name t.1 (table_name t.2)) tables)
  | _ => mret []
  end.
End PlanLocks.

(** ** What the locks cover *)

(** A scan with a filter answers rows of the scan without it. *)
Section Filters.
Context {W T : Type} `{KvStoreApi W T, KvTransaction T W, KvSnapshot T W}.
Context `{ValueTexts, SerdeJson, UnicodeCase, FixedTexts, Clock}.
Context (s : Server W T) (session_id : option Z) (database_name schema_name : string) (schema : TableSchema).

Definition open_window (w : Window) : Prop := w_skip w = 0%nat /\ w_stop w = false.

Lemma offer_unlimited (filter : option Expr) (w w' : Window) (e : RowEntry) :
  open_window w -> offer schema filter None w e = Ok w' ->
  open_window w' /\ w_rows w' ⊆ w_rows w ++ [e] /\ (filter = None -> w_rows w' = w_rows w ++ [e]).
Proof.
  intros [Hs Hw] Ho. apply bind_inv in Ho as (pass & Hp & Ho). rewrite Hs in Ho.
  destruct pass; cbn [negb] in Ho; injection Ho as <-; split_and!; try done; [set_solver|].
  intros ->. discriminate.
Qed.

Lemma visit_filtered (read : kvrow -> PgWireResult (option RowEntry)) (filter : option Expr) (entries : list kvrow) :
  forall w1 w2 r1 r2 : Window, open_window w1 -> open_window w2 -> w_rows w1 ⊆ w_rows w2 ->
    visit_entries schema read filter None w1 entries = Ok r1 -> visit_entries schema read None None w2 entries = Ok r2 ->
    w_rows r1 ⊆ w_rows r2.
Proof.
  induction entries as [|e entries IH]; intros w1 w2 r1 r2 O1 O2 Hsub V1 V2.
  - injection V1 as <-. by injection V2 as <-.
  - cbn [visit_entries] in V1, V2. apply bind_inv in V1 as (o & Hr & V1). rewrite Hr, bind_ok in V2.
    destruct o as [e'|].
    + apply bind_inv in V1 as (v1 & Ho1 & V1). apply bind_inv in V2 as (v2 & Ho2 & V2).
      apply offer_unlimited in Ho1 as ([? Hs1] & Hsub1 & _); [|done].
      apply offer_unlimited in Ho2 as ([? Hs2] & _ & Heq); [|done]. specialize (Heq eq_refl).
      rewrite Hs1 in V1. rewrite Hs2 in V2. eapply (IH v1 v2); [by split|by split| |exact V1|exact V2].
      rewrite Heq. set_solver.
    + rewrite bind_ok in V1, V2. destruct O1 as [? Hs1], O2 as [? Hs2]. rewrite Hs1 in V1. rewrite Hs2 in V2.
      by eapply (IH w1 w2).
Qed.

Lemma visited_filtered (read : kvrow -> PgWireResult (option RowEntry)) (filter : option Expr) (entries : list kvrow)
    (rows all : list RowEntry) :
  w_rows <$> visit_entries schema read filter None (empty_window 0) entries = Ok rows ->
  w_rows <$> visit_entries schema read None None (empty_window 0) entries = Ok all -> rows ⊆ all.
Proof.
  destruct (visit_entries schema read filter None _ _) as [r1| | |] eqn:E1; try discriminate.
  destruct (visit_entries schema read None None _ _) as [r2| | |] eqn:E2; try discriminate.
  cbn. intros E3 E4. injection E3 as <-. injection E4 as <-.
  by apply (visit_filtered read filter entries (empty_window 0) (empty_window 0)).
Qed.

Lemma index_scan_filtered (indexes : list IndexCatalog) (index_name : string) (value : ColumnValue) (filter : option Expr)
    (rows all : list RowEntry) :
  scan_index_row_entries_at s session_id database_name schema_name schema indexes index_name value filter = Ok rows ->
  scan_index_row_entries_at s session_id database_name schema_name schema indexes index_name value None = Ok all ->
  rows ⊆ all.
Proof.
  assert (Hlegacy : forall rows all : list RowEntry,
    scan_legacy_index_entries s session_id database_name schema_name schema index_name value filter = Ok rows ->
    scan_legacy_index_entries s session_id database_name schema_name schema index_name value None = Ok all -> rows ⊆ all).
  { intros r a. unfold scan_legacy_index_entries. destruct (read_prefix _ _ _) as [es| | |]; try discriminate.
    rewrite !bind_ok. apply visited_filtered. }
  unfold scan_index_row_entries_at. destruct (index_named _ _) as [index|]; [|apply Hlegacy].
  destruct (read_range _ _ _) as [[|e es]| | |]; try discriminate; rewrite !bind_ok; [apply Hlegacy|apply visited_filtered].
Qed.

Lemma scan_filtered (filter : option Expr) (rows all : list RowEntry) :
  scan_visible_row_entries_at s session_id database_name schema_name schema filter = Ok rows ->
  scan_visible_row_entries_at s session_id database_name schema_name schema None = Ok all -> rows ⊆ all.
Proof.
  unfold scan_visible_row_entries_at. destruct (read_range _ _ _) as [[|e es]| | |]; try discriminate; rewrite !bind_ok.
  - destruct (read_prefix _ _ _) as [ms| | |]; try discriminate. rewrite !bind_ok. apply visited_filtered.
  - apply visited_filtered.
Qed.

Lemma index_range_filtered (indexes : list IndexCatalog) (index_name : string) (lower upper : KeyBound) (filter : option Expr)
    (rows all : list RowEntry) :
  scan_index_row_entries_by_range_at s session_id database_name schema_name schema indexes index_name lower upper filter = Ok rows ->
  scan_index_row_entries_by_range_at s session_id database_name schema_name schema indexes index_name lower upper None = Ok all ->
  rows ⊆ all.
Proof.
  unfold scan_index_row_entries_by_range_at. destruct (index_named _ _) as [index|]; [|apply scan_filtered].
  destruct (_ ≫= _) as [c|]; [|intros E3 E4; injection E3 as <-; by injection E4 as <-].
  destruct (index_value_range _ _ _) as [range|]; [|intros E3 E4; injection E3 as <-; by injection E4 as <-].
  destruct (read_range _ _ _) as [es| | |]; try discriminate. rewrite !bind_ok. apply visited_filtered.
Qed.
End Filters.

Section Cover.
Context {W T : Type} `{KvStoreApi W T, KvTransaction T W, KvSnapshot T W}.
Context `{ValueTexts, SerdeJson, UnicodeCase, FixedTexts, Clock}.
Context (debug_other : ColumnValue -> string) (show_error : pg_error -> string) (entry_size : Z).

Let value_text := normalize_mysql_lock_value debug_other.

(** The accesses that read the rows of a SELECT ... FOR UPDATE. *)
Definition as_writes (access : ReadAccess) : list WriteAccess :=
  match access with
  | PointLookup k => [WPointLookup k]
  | PrimaryKeyInLookup keys => map WPointLookup keys
  | PrimaryKeyRangeScan lower upper filter => [WPrimaryKeyRangeScan lower upper filter]
  | SecondaryIndexLookup index_name _ k filter => [WSecondaryIndexLookup index_name k filter]
  | SecondaryIndexRangeScan index_name _ lower upper filter => [WSecondaryIndexRangeScan index_name lower upper filter]
  | PrefixScan filter => [WPrefixScan filter]
  end.

(** The keys an access reads a row under, those of a range of primary keys apart. *)
Definition access_reads (session_id : Z) (database_name schema_name : string) (schema : TableSchema)
    (s : Server W T * Client) (access : WriteAccess) (k : ColumnValue) : Prop :=
  match access with
  | WPointLookup k' => k' = k
  | WPrimaryKeyRangeScan _ _ _ => False
  | _ => exists rows s' row,
      rows_of_access show_error entry_size (Some session_id) database_name schema_name schema access s = (Ok rows, s') /\
      (k, row) ∈ rows
  end.

(** What a plan of a session writes, or reads FOR UPDATE: a row of a table, or the table.  An
    INSERT touches the rows it gives, by their keys; a row it meets through another unique key
    and then updates (ON DUPLICATE KEY UPDATE) or deletes (REPLACE) is not among them. *)
Definition touches (session_id : Z) (s : Server W T * Client) (plan : QueryPlan) (locking_read : bool)
    (database_name schema_name table : string) (k : ColumnValue) : Prop :=
  let is_table (db sc t : string) : Prop := db = database_name /\ sc = schema_name /\ t = table in
  match plan with
  | InsertRows db sc schema rows _ _ =>
      is_table db sc (table_name schema) /\ exists row : RowMap, row ∈ rows /\ row !! primary_key schema = Some k
  | UpdateRows db sc schema _ access _ _ _ | DeleteRows db sc schema access _ _ _ =>
      is_table db sc (table_name schema) /\ access_reads session_id db sc schema s access k
  | SelectRows db sc schema _ access _ _ =>
      locking_read = true /\ is_table db sc (table_name schema) /\
      exists a, a ∈ as_writes access /\ access_reads session_id db sc schema s a k
  | CreateTable db sc schema _ _ | CreateTableAs db sc schema _ => is_table db sc (table_name schema)
  | AlterTable db sc t _ | AlterTableAddPrimaryKey db sc t _ | CreateIndex db sc t _ _ _ _ => is_table db sc t
  | DropTables db tables _ => db = database_name /\ (schema_name, table) ∈ tables
  | TruncateTables db tables =>
      db = database_name /\ exists schema, (schema_name, schema) ∈ tables /\ table_name schema = table
  | DropSchemas db schemas _ => db = database_name /\ schema_name ∈ schemas
  | DropDatabases databases _ => database_name ∈ databases
  | _ => False
  end.

(** A lock that keeps other sessions from the row. *)
Definition excludes (k : ColumnValue) (kind : MySqlLockKind) : bool :=
  match kind with
  | MetadataWrite | Table => true
  | Record v => bool_decide (v = value_text k)
  | Gap lower upper => bool_decide (lower = Some (value_text k) /\ upper = next_text (value_text k))
  | _ => false
  end.

Definition guards (session_id : Z) (database_name schema_name table : string) (k : ColumnValue) (l : MySqlLock) : Prop :=
  owner l = session_id /\
  mysql_object_scopes_overlap l (mysql_lock session_id database_name schema_name table Table) = true /\
  excludes k (kind l) = true.

Lemma text_in_own_range (v : string) : mysql_range_contains_value (Some v) (next_text v) v = true.
Proof.
  unfold mysql_range_contains_value, str_leb, next_text. rewrite bytes_leb_refl. cbn [andb].
  destruct (next_prefix (as_bytes v)) as [u|] eqn:E; [|done]. cbn [option_map]. unfold str_ltb. rewrite as_of_bytes.
  apply bytes_ltb_lt. rewrite <- (app_nil_r (as_bytes v)). by apply bytes_lt_next_prefix.
Qed.

Lemma own_ranges_overlap (v : string) : mysql_ranges_overlap (Some v) (next_text v) (Some v) (next_text v) = true.
Proof.
  pose proof (text_in_own_range v) as Hc. unfold mysql_ranges_overlap, mysql_range_contains_value in *.
  apply andb_true_iff in Hc as [_ Hc]. destruct (next_text v) as [u|]; [|done].
  unfold str_leb, str_ltb in *. by rewrite bytes_leb_ltb, Hc.
Qed.

Lemma excluding_conflict (k : ColumnValue) (a b : MySqlLockKind) :
  excludes k a = true -> excludes k b = true -> mysql_kinds_conflict a b = true.
Proof.
  pose proof (text_in_own_range (value_text k)) as Hin. pose proof (own_ranges_overlap (value_text k)) as Hov.
  destruct a, b; cbn [excludes mysql_kinds_conflict]; try done; rewrite ?bool_decide_eq_true; intros Ha Hb;
    destruct_and?; simplify_eq; unfold mysql_record_range_conflict, mysql_gap_range_conflict, str_eqb;
    rewrite ?bool_decide_eq_true; done.
Qed.

Lemma overlap_trans (a b t : MySqlLock) : scope t = STable ->
  mysql_object_scopes_overlap a t = true -> mysql_object_scopes_overlap b t = true -> mysql_object_scopes_overlap a b = true.
Proof.
  intros Ht. unfold mysql_object_scopes_overlap, str_eqb. rewrite Ht.
  destruct (scope a) eqn:Ea, (scope b) eqn:Eb; repeat case_bool_decide; cbn; try done; intros; congruence.
Qed.

Lemma own_table_overlap (session_id : Z) (database_name schema_name table : string) (kind : MySqlLockKind) (d : MySqlLockDuration) :
  mysql_object_scopes_overlap (mysql_lock_with_duration session_id STable d database_name schema_name table kind)
    (mysql_lock session_id database_name schema_name table Table) = true.
Proof. unfold mysql_object_scopes_overlap, str_eqb. cbn. rewrite !bool_decide_true by done. done. Qed.

Lemma guards_row (session_id : Z) (database_name schema_name : string) (schema : TableSchema) (k : ColumnValue) (kind : MySqlLockKind) :
  excludes k kind = true ->
  guards session_id database_name schema_name (table_name schema) k (row_lock_of session_id database_name schema_name schema kind).
Proof. intros He. split; [done|]. split; [apply own_table_overlap|done]. Qed.

Lemma excludes_record (k : ColumnValue) : excludes k (Record (value_text k)) = true.
Proof. cbn. by apply bool_decide_true. Qed.

Lemma record_lock_guards (session_id : Z) (database_name schema_name : string) (schema : TableSchema) (k : ColumnValue)
    (row : RowMap) (entries : list RowEntry) :
  (k, row) ∈ entries ->
  exists a, a ∈ record_locks debug_other session_id database_name schema_name schema entries /\
    guards session_id database_name schema_name (table_name schema) k a.
Proof.
  intros Hin. exists (row_lock_of session_id database_name schema_name schema (Record (value_text k))). split.
  - apply list_elem_of_fmap. by exists (k, row).
  - apply guards_row, excludes_record.
Qed.

Lemma access_guarded (session_id : Z) (database_name schema_name : string) (schema : TableSchema) (access : WriteAccess)
    (k : ColumnValue) (s s' : Server W T * Client) (locks : list MySqlLock) :
  write_access_locks debug_other session_id database_name schema_name schema access s = (Ok locks, s') ->
  access_reads session_id database_name schema_name schema s access k ->
  exists a, a ∈ locks /\ guards session_id database_name schema_name (table_name schema) k a.
Proof.
  destruct access as [k'|lower upper filter|index_name v filter|index_name lower upper filter|filter];
    cbn [write_access_locks access_reads]; [|done|..].
  - intros Hl ->. apply cmd_bind_inv in Hl as (row & s1 & _ & Hl). injection Hl as <- _.
    eexists. split; [by left|]. apply guards_row. destruct row; [apply excludes_record|]. cbn. by apply bool_decide_true.
  - intros Hl (rows & s2 & row & Hr & Hin).
    apply cmd_bind_inv in Hl as (ixs & s1 & Hix & Hl). apply cmd_bind_inv in Hl as (entries & s3 & He & Hl).
    apply cmd_bind_inv in Hr as (ixs' & s1' & Hix' & Hr). rewrite Hix in Hix'. simplify_eq.
    injection He as He ->. injection Hr as Hr ->. injection Hl as <- _.
    destruct (record_lock_guards session_id database_name schema_name schema k row entries) as (a & Ha & Hg);
      [by apply (index_scan_filtered _ _ _ _ _ _ _ _ _ _ _ Hr He)|]. exists a. split; [by right|done].
  - intros Hl (rows & s2 & row & Hr & Hin).
    apply cmd_bind_inv in Hl as (ixs & s1 & Hix & Hl). apply cmd_bind_inv in Hl as (entries & s3 & He & Hl).
    apply cmd_bind_inv in Hr as (ixs' & s1' & Hix' & Hr). rewrite Hix in Hix'. simplify_eq.
    injection He as He ->. injection Hr as Hr ->. injection Hl as <- _.
    destruct (record_lock_guards session_id database_name schema_name schema k row entries) as (a & Ha & Hg);
      [by apply (index_range_filtered _ _ _ _ _ _ _ _ _ _ _ _ Hr He)|]. exists a. split; [by right|done].
  - intros Hl _. injection Hl as <- _. eexists. split; [by left|]. by apply guards_row.
Qed.

(** The keys of an IN list are locked one by one, in the state the statement is in. *)
Lemma point_locks_keep (session_id : Z) (database_name schema_name : string) (schema : TableSchema) (k : ColumnValue)
    (s s' : Server W T * Client) (r : PgWireResult (list MySqlLock)) :
  primary_key_record_or_gap_locks_at debug_other session_id database_name schema_name schema k s = (r, s') -> s' = s.
Proof.
  unfold primary_key_record_or_gap_locks_at, read_row, seen, mbind, cmd_bind. cbn beta.
  destruct (visible_row s.1 None database_name schema_name schema k); intros E; by injection E as _ <-.
Qed.

Lemma read_access_guarded (session_id : Z) (database_name schema_name : string) (schema : TableSchema) (access : ReadAccess)
    (a : WriteAccess) (k : ColumnValue) (s s' : Server W T * Client) (locks : list MySqlLock) :
  read_access_locks debug_other session_id database_name schema_name schema access s = (Ok locks, s') ->
  a ∈ as_writes access -> access_reads session_id database_name schema_name schema s a k ->
  exists l, l ∈ locks /\ guards session_id database_name schema_name (table_name schema) k l.
Proof.
  destruct access as [k'|keys|lower upper filter|index_name c v filter|index_name c lower upper filter|filter];
    cbn [read_access_locks as_writes]; intros Hl Ha Hk;
    try (apply list_elem_of_singleton in Ha;
      apply (access_guarded session_id database_name schema_name schema a k s s' locks); [by rewrite Ha|done]).
  apply list_elem_of_fmap in Ha as (k' & -> & Hin). cbn in Hk. subst k'.
  apply cmd_bind_inv in Hl as (ls & s1 & Hm & Hl). injection Hl as <- _.
  revert ls s1 Hm. induction keys as [|k' keys IH]; [by apply elem_of_nil in Hin|]. intros ls s1 Hm.
  apply cmd_bind_inv in Hm as (l0 & s2 & Hp & Hm). apply cmd_bind_inv in Hm as (ls' & s3 & Hm & Hr). injection Hr as <- <-.
  pose proof (point_locks_keep _ _ _ _ _ _ _ _ Hp) as ->. apply elem_of_cons in Hin as [->|Hin].
  - destruct (access_guarded session_id database_name schema_name schema (WPointLookup k') k' s s l0 Hp eq_refl) as (l & Hl & Hg).
    exists l. split; [cbn; by apply elem_of_app; left|done].
  - destruct (IH Hin ls' s3 Hm) as (l & Hl & Hg). exists l. split; [cbn; by apply elem_of_app; right|done].
Qed.

Lemma insert_guarded (session_id : Z) (database_name schema_name : string) (schema : TableSchema) (indexes : list IndexCatalog)
    (rows : list RowMap) (row : RowMap) (k : ColumnValue) :
  row ∈ rows -> row !! primary_key schema = Some k ->
  exists a, a ∈ concat (map (insert_one_locks debug_other session_id database_name schema_name schema indexes) rows) /\
    guards session_id database_name schema_name (table_name schema) k a.
Proof.
  intros Hin Hk. exists (row_lock_of session_id database_name schema_name schema (Record (value_text k))). split.
  - rewrite list_elem_of_In, in_concat. exists (insert_one_locks debug_other session_id database_name schema_name schema indexes row).
    split; [by apply in_map, list_elem_of_In|]. unfold insert_one_locks. rewrite Hk. right. by left.
  - apply guards_row, excludes_record.
Qed.

Lemma metadata_write_guards (session_id : Z) (database_name schema_name table : string) (k : ColumnValue) (l : MySqlLock) :
  kind l = MetadataWrite -> owner l = session_id ->
  mysql_object_scopes_overlap l (mysql_lock session_id database_name schema_name table Table) = true ->
  guards session_id database_name schema_name table k l.
Proof. intros Hk Ho Hs. split; [done|]. split; [done|]. by rewrite Hk. Qed.

Lemma table_write_guards (session_id : Z) (database_name schema_name table : string) (k : ColumnValue) :
  guards session_id database_name schema_name table k (table_write_lock session_id database_name schema_name table).
Proof. apply metadata_write_guards; try done. apply own_table_overlap. Qed.

Lemma scope_overlap_refl (session_id : Z) (database_name schema_name table : string) :
  mysql_object_scopes_overlap (mysql_schema_lock session_id database_name schema_name MetadataWrite)
    (mysql_lock session_id database_name schema_name table Table) = true /\
  mysql_object_scopes_overlap (mysql_database_lock session_id database_name MetadataWrite)
    (mysql_lock session_id database_name schema_name table Table) = true.
Proof. split; unfold mysql_object_scopes_overlap, str_eqb; cbn; by rewrite !bool_decide_true by done. Qed.

Lemma plan_guarded (session_id : Z) (s s' : Server W T * Client) (plan : QueryPlan) (locking_read : bool)
    (database_name schema_name table : string) (k : ColumnValue) (locks : list MySqlLock) :
  plan_lock_targets debug_other session_id plan locking_read s = (Ok locks, s') ->
  touches session_id s plan locking_read database_name schema_name table k ->
  exists a, a ∈ locks /\ guards session_id database_name schema_name table k a.
Proof.
  assert (Hmeta : forall (m : Cmd W T (list MySqlLock)) (schema : TableSchema),
    with_metadata_read session_id database_name schema_name schema m s = (Ok locks, s') ->
    (forall (ls : list MySqlLock) s1, m s = (Ok ls, s1) ->
       exists a, a ∈ ls /\ guards session_id database_name schema_name (table_name schema) k a) ->
    exists a, a ∈ locks /\ guards session_id database_name schema_name (table_name schema) k a).
  { intros m schema Hw Hm. apply cmd_bind_inv in Hw as (ls & s1 & Hls & Hw). injection Hw as <- _.
    destruct (Hm ls s1 Hls) as (a & Ha & Hg). exists a. split; [by apply elem_of_app; left|done]. }
  assert (Hddl : forall l, l ∈ locks -> guards session_id database_name schema_name table k l ->
    exists a, a ∈ locks /\ guards session_id database_name schema_name table k a) by eauto.
  destruct plan; cbn [plan_lock_targets touches]; try done; intros Hl.
  - intros (-> & -> & <-). injection Hl as <- _. eapply Hddl; [by left|apply table_write_guards].
  - intros (-> & -> & <-). injection Hl as <- _. eapply Hddl; [by left|apply table_write_guards].
  - intros (-> & -> & <-). injection Hl as <- _. eapply Hddl; [by left|apply table_write_guards].
  - intros (-> & -> & <-). injection Hl as <- _. eapply Hddl; [by left|apply table_write_guards].
  - intros (-> & -> & <-). injection Hl as <- _. eapply Hddl; [by left|apply table_write_guards].
  - intros [-> Hin]. injection Hl as <- _. eapply Hddl; [|apply table_write_guards].
    apply list_elem_of_fmap. by exists (schema_name, table).
  - intros [-> Hin]. injection Hl as <- _.
    eapply Hddl; [|apply metadata_write_guards; [..|exact (proj1 (scope_overlap_refl session_id database_name schema_name table))]; done].
    apply list_elem_of_fmap. by exists schema_name.
  - intros Hin. injection Hl as <- _.
    eapply Hddl; [|apply metadata_write_guards; [..|exact (proj2 (scope_overlap_refl session_id database_name schema_name table))]; done].
    apply list_elem_of_fmap. by exists database_name.
  - intros [-> (schema & Hin & <-)]. injection Hl as <- _. eapply Hddl; [|apply table_write_guards].
    apply list_elem_of_fmap. by exists (schema_name, schema).
  - intros [(-> & -> & <-) (row & Hin & Hk)]. apply (Hmeta _ _ Hl). intros ls s1 Hi.
    apply cmd_bind_inv in Hi as (ixs & s2 & _ & Hi). injection Hi as <- _. by apply (insert_guarded _ _ _ _ _ _ row).
  - intros (-> & (-> & -> & <-) & a & Ha & Hk). apply (Hmeta _ _ Hl). intros ls s1 Hi.
    by apply (read_access_guarded _ _ _ _ _ a _ _ _ _ Hi).
  - intros [(-> & -> & <-) Hk]. apply (Hmeta _ _ Hl). intros ls s1 Hi. by apply (access_guarded _ _ _ _ _ _ _ _ _ Hi).
  - intros [(-> & -> & <-) Hk]. apply (Hmeta _ _ Hl). intros ls s1 Hi. by apply (access_guarded _ _ _ _ _ _ _ _ _ Hi).
Qed.

Lemma guards_conflict (s1 s2 : Z) (database_name schema_name table : string) (k : ColumnValue) (a b : MySqlLock) :
  guards s1 database_name schema_name table k a -> guards s2 database_name schema_name table k b ->
  mysql_locks_conflict a b = true.
Proof.
  intros (_ & Ha & Hka) (_ & Hb & Hkb). unfold mysql_locks_conflict.
  rewrite (overlap_trans a b (mysql_lock s1 database_name schema_name table Table)); [|done..].
  by apply (excluding_conflict k).
Qed.

Lemma conflict_found (locks requested : list MySqlLock) (session_id : Z) (a b : MySqlLock) :
  a ∈ locks -> owner a <> session_id -> b ∈ requested -> mysql_locks_conflict a b = true ->
  exists o, conflict_owner locks session_id requested = Some o /\ o <> session_id.
Proof.
  intros Ha Ho Hb Hc. induction requested as [|r requested IH]; [by apply elem_of_nil in Hb|]. cbn [conflict_owner].
  destruct (List.find _ locks) as [e|] eqn:Hf.
  - apply find_some in Hf as [_ Hf]. apply andb_true_iff in Hf as [Hf _]. apply negb_true_iff, Z.eqb_neq in Hf. eauto.
  - apply elem_of_cons in Hb as [->|Hb]; [|by apply IH].
    apply list_elem_of_In, (find_none _ _ Hf) in Ha. rewrite Hc, andb_true_r in Ha. apply negb_false_iff, Z.eqb_eq in Ha. done.
Qed.

(** C4. In MySQL mode a plan's locks keep other sessions from the rows it touches: while a
    session holds the locks asked for by a plan that writes (or reads FOR UPDATE) a row by its
    key, by a secondary index, by a full scan or by inserting it, or that changes the table, the
    request of any other session's plan that touches the row is refused and leaves the locks
    held as they were.  Three ways to a row are left out, because the source does not lock it
    then: a range of primary keys, the row an INSERT ... ON DUPLICATE KEY UPDATE ends up
    updating and the rows a REPLACE deletes when it conflicts on another unique key. *)
Theorem plans_on_a_row_exclude (m : LockManager) (session1 session2 : Z) (s1 s1' s2 s2' : Server W T * Client)
    (plan1 plan2 : QueryPlan) (locking1 locking2 : bool) (locks1 locks2 : list MySqlLock)
    (database_name schema_name table : string) (k : ColumnValue) :
  session1 <> session2 ->
  plan_lock_targets debug_other session1 plan1 locking1 s1 = (Ok locks1, s1') ->
  touches session1 s1 plan1 locking1 database_name schema_name table k ->
  plan_lock_targets debug_other session2 plan2 locking2 s2 = (Ok locks2, s2') ->
  touches session2 s2 plan2 locking2 database_name schema_name table k ->
  (forall l, l ∈ locks1 -> l ∈ active_locks m) ->
  exists o, o <> session2 /\ phases (try_acquire m session2 locks2) !! session2 = Some (Blocked locks2 o) /\
    active_locks (try_acquire m session2 locks2) = active_locks m.
Proof.
  intros Hne Hl1 Ht1 Hl2 Ht2 Hheld.
  destruct (plan_guarded _ _ _ _ _ _ _ _ _ _ Hl1 Ht1) as (a & Ha & Hga).
  destruct (plan_guarded _ _ _ _ _ _ _ _ _ _ Hl2 Ht2) as (b & Hb & Hgb).
  destruct (conflict_found (active_locks m) locks2 session2 a b) as (o & Ho & Hos);
    [by apply Hheld| |done|by apply (guards_conflict _ _ _ _ _ _ _ _ Hga Hgb)|].
  { by rewrite (proj1 Hga). }
  exists o. unfold try_acquire. rewrite Ho. cbn. by rewrite lookup_insert_eq.
Qed.
End Cover.

(** ** Plans on a small table *)

#[local] Existing Instance bits_texts.
#[local] Existing Instance coded_json.

#[local] Instance lock_case : UnicodeCase := {| to_lowercase := fun text => text; to_uppercase := fun text => text |}.

#[local] Instance lock_fixed : FixedTexts := fun _ _ => "".

#[local] Instance lock_clock : Clock := 0.

Definition locked_schema : TableSchema := sample_schema [plain_column 1 "a" DT.Int32 true; plain_column 2 "qty" DT.Int64 false].

Definition locked_state : Server kvmap MemoryTransaction * Client := (new_server bootstrapped MySql, new_client 1).

Definition no_text (_ : ColumnValue) : string := "".

Definition update_of (access : WriteAccess) : QueryPlan :=
  UpdateRows DEFAULT_DATABASE_NAME DEFAULT_SCHEMA_NAME locked_schema [] access None false None.

Definition insert_of (id : Z) : QueryPlan :=
  InsertRows DEFAULT_DATABASE_NAME DEFAULT_SCHEMA_NAME locked_schema [<["a" := Int32 id]> ∅] None None.

Definition locks_of (session_id : Z) (plan : QueryPlan) : list MySqlLock :=
  match (plan_lock_targets (T := MemoryTransaction) no_text session_id plan false locked_state).1 with Ok l => l | _ => [] end.

Definition holding (locks : list MySqlLock) : LockManager :=
  {| active_locks := locks; lock_queue := []; lock_waits := ∅; phases := ∅ |}.

Lemma answered {A} (m : Cmd kvmap MemoryTransaction A) (s : Server kvmap MemoryTransaction * Client) (a : A) :
  (m s).1 = Ok a -> m s = (Ok a, (m s).2).
Proof. intros <-. apply surjective_pairing. Qed.

Lemma plans_on_a_row_exclude_witness :
  exists o, o <> 2 /\
    phases (try_acquire (holding (locks_of 1 (update_of (WPointLookup (Int32 7))))) 2 (locks_of 2 (insert_of 7))) !! 2
      = Some (Blocked (locks_of 2 (insert_of 7)) o) /\
    active_locks (try_acquire (holding (locks_of 1 (update_of (WPointLookup (Int32 7))))) 2 (locks_of 2 (insert_of 7)))
      = locks_of 1 (update_of (WPointLookup (Int32 7))).
Proof.
  refine (plans_on_a_row_exclude (T := MemoryTransaction) no_text (fun e => err_message e) 100
    (holding (locks_of 1 (update_of (WPointLookup (Int32 7))))) 1 2 locked_state
    (plan_lock_targets (T := MemoryTransaction) no_text 1 (update_of (WPointLookup (Int32 7))) false locked_state).2 locked_state
    (plan_lock_targets (T := MemoryTransaction) no_text 2 (insert_of 7) false locked_state).2
    (update_of (WPointLookup (Int32 7))) (insert_of 7) false false
    (locks_of 1 (update_of (WPointLookup (Int32 7)))) (locks_of 2 (insert_of 7))
    DEFAULT_DATABASE_NAME DEFAULT_SCHEMA_NAME (table_name locked_schema) (Int32 7) _ _ _ _ _ _).
  - discriminate.
  - apply answered. vm_compute. reflexivity.
  - split; [done|reflexivity].
  - apply answered. vm_compute. reflexivity.
  - split; [done|]. exists (<["a" := Int32 7]> ∅). split; [by left|reflexivity].
  - done.
Defined.

(** What a range of primary keys leaves open: its end is not locked although the range holds
    it, and the texts of the keys are not in the order of the keys. *)
Example range_end_not_locked :
  let update := locks_of 1 (update_of (WPrimaryKeyRangeScan None (Some (Int32 7, true)) None)) in
  conflict_owner update 2 (locks_of 2 (insert_of 7)) = None /\
  conflict_owner (locks_of 1 (update_of (WPrimaryKeyRangeScan (Some (Int32 2, true)) (Some (Int32 10, true)) None))) 2
    (locks_of 2 (insert_of 5)) = None.
Proof. split; vm_compute; reflexivity. Qed.
