(* ===== verification/Statements.v ===== *)
(** * Statements on a small table

    A table [items (id INT PRIMARY KEY, sku TEXT, qty BIGINT, CHECK (qty >= 0))] with a unique
    index on [sku], created and changed through the catalog, ALTER TABLE, INSERT and UPDATE of
    Alter.v and Mutations.v: what the statements answer, what they leave when they fail, and
    where they part from what they mean. *)

From S2P Require LegacyCodec.
From S2P Require MySqlLocks.
From S2P Require Import Prelude BTree Float Types TupleCodec Values Text Mode KeyCodec RowCodec KvStore Stores Server Session Heap Json Catalog CatalogStore Coerce Operators Patterns Dates SqlJson Functions Expr Filter Access Pushdown Olap Sequences CatalogRun Scans Rows Mutations Alter Executor PlanLocks.

#[local] Open Scope string_scope.
#[local] Open Scope list_scope.
#[local] Open Scope Z_scope.
#[local] Existing Instance bits_texts.
#[local] Existing Instance coded_json.

#[local] Instance ascii_case : UnicodeCase :=
  {| to_lowercase := map ascii_lower_byte; to_uppercase := fun text => text |}.

#[local] Instance no_fixed_texts : FixedTexts := fun _ _ => "".

#[local] Instance epoch_clock : Clock := 0.

Section Items.

Definition item_columns : list ColumnSchema :=
  [plain_column 0 "id" DT.Int32 true; plain_column 0 "sku" DT.Text false; plain_column 0 "qty" DT.Int64 false].

Definition items : TableSchema :=
  {| table_name := "items"; table_id := 7; schema_version := 1; table_epoch := 1; primary_key := "id";
     check_constraints := [{| check_name := "stocked"; check_expr := "qty >= 0" |}]; unique_constraints := [];
     foreign_keys := []; columns := item_columns |}.

Definition parse_check (text : string) : PgWireResult Expr :=
  if bool_decide (text = "qty >= 0") then Ok (BinaryOp (col "qty") BinOp.GtEq (num "0"))
  else user_error "42601" "syntax error".

Definition no_debug (_ : list ColumnValue) : string := "".

Definition no_default (_ : string) (_ : DataType) : PgWireResult ColumnValue := Ok Null.

Definition item_db : string := DEFAULT_DATABASE_NAME.

Definition item_schema : string := DEFAULT_SCHEMA_NAME.

Definition item (id : Z) (sku : string) (qty : Z) : RowMap :=
  <["id" := Int32 id]> (<["sku" := Text sku]> (<["qty" := Int64 qty]> ∅)).

(** The statements, of a session without an explicit transaction. *)
Definition Statement (A : Type) : Type := Cmd kvmap MemoryTransaction A.

Definition the_table : Statement TableSchema := load_schema item_db item_schema "items".

Definition insert_into (rows : list RowMap) (c : option InsertConflictAction) : Statement nat :=
  schema ← the_table;
  done ← insert_rows no_debug parse_check no_default None item_db item_schema schema rows c;
  mret (ins_count done).

Definition alter_items : TableAlterOperation -> Statement unit :=
  alter_table_at no_debug parse_check no_default None item_db item_schema "items".

Definition update_items (assignments : list Assignment) (access : WriteAccess) : Statement nat :=
  schema ← the_table;
  apply_update_rows (fun e => err_message e) 100 no_debug parse_check no_default None item_db item_schema schema assignments access None false.

Definition select_items {A} (f : RowEntry -> A) : Statement (list A) :=
  schema ← the_table;
  entries ← scan_entries None item_db item_schema schema None;
  mret (map f entries).

Definition with_items : Server kvmap MemoryTransaction * Client :=
  ((_ ← on_catalog (store_table item_db item_schema items); alter_items (AddIndex "by_sku" ["sku"] true false))
     (new_server bootstrapped MySql, new_client 1)).2.

Definition answer {A} (m : Statement A) : PgWireResult A := (m with_items).1.

Definition sku_taken {A} : PgWireResult A := user_error "23505" "duplicate key value violates unique constraint 'by_sku'".

(** ** Checks and unique indexes *)

Example rows_inserted :
  answer (_ ← insert_into [item 1 "a" 5; item 2 "b" 6] None; select_items (fun e => (e.1, row_get e.2 "sku")))
  = Ok [(Int32 1, Text "a"); (Int32 2, Text "b")].
Proof. vm_compute. reflexivity. Qed.

Example check_rejects : answer (insert_into [item 1 "a" (-1)] None) = user_error "23514" "check constraint 'stocked' is violated".
Proof. vm_compute. reflexivity. Qed.

Example unique_rejects : answer (insert_into [item 1 "a" 5; item 2 "a" 5] None) = sku_taken.
Proof. vm_compute. reflexivity. Qed.

Example key_rejects :
  answer (insert_into [item 1 "a" 5; item 1 "b" 5] None)
  = user_error "23505" "duplicate key value violates unique constraint 'items_pkey'".
Proof. vm_compute. reflexivity. Qed.

(** ON CONFLICT DO NOTHING skips the row, DO UPDATE changes the one that is there. *)
Example conflict_skipped :
  answer (_ ← insert_into [item 1 "a" 5] None; insert_into [item 1 "b" 7; item 2 "c" 8] (Some DoNothing)) = Ok 1%nat.
Proof. vm_compute. reflexivity. Qed.

Example conflict_updates :
  answer (_ ← insert_into [item 1 "a" 5] None;
          _ ← insert_into [item 1 "b" 7] (Some (DoUpdate ["id"] [{| as_column := "qty"; as_value := num "9" |}] None));
          select_items (fun e => (row_get e.2 "sku", row_get e.2 "qty")))
  = Ok [(Text "a", Int64 9)].
Proof. vm_compute. reflexivity. Qed.

(** An update that keeps the indexed value may: the entry it meets is its own. *)
Example update_keeps_value :
  answer (_ ← insert_into [item 1 "a" 5; item 2 "b" 6] None;
          _ ← update_items [{| as_column := "qty"; as_value := num "8" |}] (WPointLookup (Int32 1));
          select_items (fun e => (e.1, row_get e.2 "qty")))
  = Ok [(Int32 1, Int64 8); (Int32 2, Int64 6)].
Proof. vm_compute. reflexivity. Qed.

(** ** Where the statements part from what they mean *)

(** An INSERT outside a transaction is not atomic: the rows before the one that fails stay. *)
Example failed_insert_leaves_rows :
  answer (_ ← ignore_result (insert_into [item 1 "a" 5; item 2 "a" 5] None); select_items fst) = Ok [Int32 1].
Proof. vm_compute. reflexivity. Qed.

(** REPLACE deletes one row of the two it conflicts with, then fails on the other. *)
Example replace_loses_a_row :
  answer (_ ← insert_into [item 1 "a" 5; item 2 "b" 6] None;
          insert_into [item 1 "b" 7] (Some (ReplaceAnyUnique [["id"]; ["sku"]]))) = sku_taken /\
  answer (_ ← insert_into [item 1 "a" 5; item 2 "b" 6] None;
          _ ← ignore_result (insert_into [item 1 "b" 7] (Some (ReplaceAnyUnique [["id"]; ["sku"]])));
          select_items fst) = Ok [Int32 2].
Proof. split; vm_compute; reflexivity. Qed.

(** An UPDATE of the primary key leaves the row under its old key. *)
Example updated_key_not_moved :
  answer (_ ← insert_into [item 1 "a" 5] None;
          _ ← update_items [{| as_column := "id"; as_value := num "5" |}] (WPointLookup (Int32 1));
          select_items (fun e => (e.1, row_get e.2 "id")))
  = Ok [(Int32 1, Int32 5)].
Proof. vm_compute. reflexivity. Qed.

(** RENAME COLUMN leaves the old name in the indexes, and a unique index forgets its column. *)
Example renamed_column_not_unique :
  answer (_ ← alter_items (RenameColumn "sku" "code");
          let coded id : RowMap := <["id" := Int32 id]> (<["code" := Text "a"]> (<["qty" := Int64 1]> ∅)) in
          insert_into [coded 1; coded 2] None)
  = Ok 2%nat.
Proof. vm_compute. reflexivity. Qed.

(** DROP COLUMN drops every CHECK whose text holds the column's name. *)
Example dropped_column_takes_check :
  answer (_ ← alter_items (AddColumn (plain_column 0 "q" DT.Int32 false) false);
          _ ← alter_items (DropColumn "q" false);
          s ← the_table; mret (check_constraints s)) = Ok [].
Proof. vm_compute. reflexivity. Qed.

(** MODIFY COLUMN keeps the records: the slot of the text is read as a number. *)
Example modified_column_misread :
  answer (_ ← insert_into [item 1 "a" 5] None;
          _ ← ignore_result (alter_items (ModifyColumn "sku" (plain_column 0 "sku" DT.Int32 false)));
          select_items (fun e => row_get e.2 "sku"))
  = Ok [Int32 0].
Proof. vm_compute. reflexivity. Qed.

(** CREATE UNIQUE INDEX refuses rows that share a value, and keeps no index. *)
Example unique_index_refused :
  answer (_ ← insert_into [item 1 "a" 5; item 2 "b" 5] None; alter_items (AddIndex "by_qty" ["qty"] true false)) <> Ok tt /\
  answer (_ ← insert_into [item 1 "a" 5; item 2 "b" 5] None;
          _ ← ignore_result (alter_items (AddIndex "by_qty" ["qty"] true false));
          s ← the_table; l ← on_catalog (list_indexes_for_table (table_id s)); mret (map ix_name l)) = Ok ["by_sku"].
Proof. split; vm_compute; [discriminate | reflexivity]. Qed.

(** ** Transactions side by side *)

Definition by_session {A} (id : Z) (m : Statement A) : Statement A := fun s =>
  let (r, s') := m (s.1, new_client id) in (r, (s'.1, s.2)).

Definition update_in (session : Z) (assignments : list Assignment) (access : WriteAccess) : Statement nat :=
  by_session session
    (schema ← the_table;
     apply_update_rows (fun e => err_message e) 100 no_debug parse_check no_default (Some session) item_db item_schema schema
       assignments access None false).

Definition insert_in (session : Z) (rows : list RowMap) (c : option InsertConflictAction) : Statement nat :=
  by_session session
    (schema ← the_table;
     done ← insert_rows no_debug parse_check no_default (Some session) item_db item_schema schema rows c;
     mret (ins_count done)).

(** The locks a plan on the table asks for. *)
Definition locks_in (session : Z) (plan : TableSchema -> QueryPlan) : Statement (list MySqlLocks.MySqlLock) :=
  schema ← the_table; plan_lock_targets no_text session (plan schema) false.

Definition set_sku (text : string) : list Assignment := [{| as_column := "sku"; as_value := Literal (SingleQuotedString text) |}].

Definition unblocked (first second : Statement (list MySqlLocks.MySqlLock)) : Statement bool :=
  held ← first; wanted ← second;
  mret (bool_decide (MySqlLocks.conflict_owner held 2 wanted = None)).

(** An UPDATE locks the row it finds, not the value it puts in an index: two transactions give two
    rows the same value of a unique index, and both commit. *)
Example unique_index_broken :
  answer (_ ← insert_into [item 1 "a" 5; item 2 "b" 6] None;
          let plan id schema := UpdateRows item_db item_schema schema (set_sku "c") (WPointLookup (Int32 id)) None false None in
          free ← unblocked (locks_in 1 (plan 1)) (locks_in 2 (plan 2));
          _ ← by_session 1 begin_session_transaction; _ ← by_session 2 begin_session_transaction;
          _ ← update_in 1 (set_sku "c") (WPointLookup (Int32 1));
          _ ← update_in 2 (set_sku "c") (WPointLookup (Int32 2));
          _ ← by_session 1 commit_session_transaction; _ ← by_session 2 commit_session_transaction;
          rows ← select_items (fun e => (e.1, row_get e.2 "sku"));
          mret (free, rows))
  = Ok (true, [(Int32 1, Text "c"); (Int32 2, Text "c")]).
Proof. vm_compute. reflexivity. Qed.

(** INSERT ... ON DUPLICATE KEY UPDATE locks the key it gives, not the row it ends up updating. *)
Example upsert_row_not_locked :
  answer (_ ← insert_into [item 1 "a" 5] None;
          unblocked (locks_in 1 (fun schema => UpdateRows item_db item_schema schema [] (WPointLookup (Int32 1)) None false None))
            (locks_in 2 (fun schema => InsertRows item_db item_schema schema [item 2 "a" 6]
                           (Some (DoUpdateAnyUnique [["id"]; ["sku"]] [{| as_column := "qty"; as_value := num "9" |}])) None)))
  = Ok true /\
  answer (_ ← insert_into [item 1 "a" 5] None;
          _ ← insert_into [item 2 "a" 6] (Some (DoUpdateAnyUnique [["id"]; ["sku"]] [{| as_column := "qty"; as_value := num "9" |}]));
          select_items (fun e => (e.1, row_get e.2 "qty"))) = Ok [(Int32 1, Int64 9)].
Proof. split; vm_compute; reflexivity. Qed.

(** ** Plans *)

(** Runs plans with a provider cached for the database; what was cached is a number. *)
Definition run_plans {A} (plans : list QueryPlan) (m : Statement A) : PgWireResult A * gmap string Z :=
  let go := fix go plans s := match plans with
    | [] => s
    | plan :: plans =>
        go plans (execute_plan (C := Z) (fun e => err_message e) 100 no_debug parse_check no_default 10 None plan s).2
    end in
  let s := go plans ({[item_db := 1]}, with_items) in
  ((m s.2).1, s.1).

Definition index_prefix_of (table : string) : key := LegacyCodec.index_table_prefix item_db item_schema table.

(** DROP INDEX looks for the name between slashes, but the keys of the first layout separate
    with colons: the entries stay, and an index of the same name sees them. *)
Example dropped_index_entries_stay :
  let insert_plan rows schema := InsertRows item_db item_schema schema rows None None in
  let schema := match answer the_table with Ok schema => schema | _ => items end in
  let entries := scan_prefix (T := MemoryTransaction) None (index_prefix_of "items") in
  let drop := DropIndexes item_db [(item_schema, "by_sku")] false in
  length <$> (run_plans [insert_plan [item 1 "a" 5] schema; drop] entries).1 = Ok 1%nat /\
  length <$> (run_plans [insert_plan [item 1 "a" 5] schema] (_ ← alter_items (DropIndex "by_sku" false); entries)).1 = Ok 0%nat.
Proof. split; vm_compute; reflexivity. Qed.

(** ALTER TABLE forgets the cached provider after its last operation: when an operation fails, the
    ones before it stay and the provider does too. *)
Example failed_alter_keeps_provider :
  let alter := AlterTable item_db item_schema "items" [AddColumn (plain_column 0 "note" DT.Text false) false; DropColumn "gone" false] in
  let '(names, cached) := run_plans [alter] (s ← the_table; mret (column_names s)) in
  names = Ok ["id"; "sku"; "qty"; "note"] /\ cached !! item_db = Some 1.
Proof. vm_compute. split; reflexivity. Qed.

Example alter_forgets_provider :
  (run_plans [AlterTable item_db item_schema "items" [DropColumn "qty" false]] (mret tt)).2 !! item_db = None.
Proof. vm_compute. reflexivity. Qed.

(** DROP SCHEMA drops the tables of the catalog and leaves their rows; those of the first layout
    are found again by a table of the same name. *)
Definition old_row (id : Z) : list kvrow :=
  let stored (k : PgWireResult key) (v : list byte) : list kvrow := match k with Ok k => [(k, v)] | _ => [] end in
  stored (LegacyCodec.row_marker_key item_db "s" "t" (Int32 id)) [x01] ++
  stored (LegacyCodec.cell_key item_db "s" "t" "a" (Int32 id)) (LegacyCodec.encode_cell_value (Int32 id)).

Definition old_table (id : Z) : TableSchema :=
  {| table_name := "t"; table_id := id; schema_version := 1; table_epoch := 1; primary_key := "a";
     check_constraints := []; unique_constraints := []; foreign_keys := []; columns := [plain_column 1 "a" DT.Int32 true] |}.

Definition planned (plan : QueryPlan) : Statement unit := fun s =>
  let (r, s') := execute_plan (C := Z) (fun e => err_message e) 100 no_debug parse_check no_default 10 None plan (∅, s) in
  (_ ← r; Ok tt, s'.2).

Definition create_old (id : Z) : Statement unit :=
  _ ← planned (CreateSchema item_db "s" false); planned (CreateTable item_db "s" (old_table id) None []).

Definition old_keys (id : Z) : Statement (list ColumnValue) :=
  rows ← scan_entries None item_db "s" (old_table id) None; mret (map fst rows).

Example dropped_schema_rows_return :
  answer (_ ← create_old 20; _ ← put_batch None (old_row 4);
          before ← old_keys 20;
          _ ← planned (DropSchemas item_db ["s"] false); _ ← create_old 21;
          again ← old_keys 21; mret (before, again))
  = Ok ([Int32 4], [Int32 4]).
Proof. vm_compute. reflexivity. Qed.
End Items.
